(* ===== verification/_CoqProject ===== *)
-Q . S2P
Prelude.v
GoText.v
GoFloat.v
GoBytes.v
GoJSON.v
GoSha512.v
GoRegexp.v
Sanitize.v
SanitizeCards.v
SanitizeWalk.v
SanitizeExample.v
SignedCursor.v
Jwt.v
Pagination.v
Ssrf.v
Effects.v
Decimal.v
Safe.v
SafeRegex.v
Backoff.v
Webhook.v
WebhookDelivery.v
WebhookExample.v
Transaction.v
OutboxLastError.v
OutboxSanitizer.v
OutboxEvent.v
OutboxPostgres.v
OutboxLifecycle.v
OutboxGuarantees.v
OutboxConfig.v
OutboxDispatcher.v
OutboxScheduling.v
OutboxDelivery.v
OutboxService.v
OutboxMongo.v
OutboxMongoLifecycle.v
OutboxMongoCodec.v
OutboxMongoClaims.v
OutboxMongoGuarantees.v
OutboxMongoAlone.v
OutboxMongoExample.v
Cron.v
DeadLetter.v
DeadLetterLedger.v
DeadLetterGuarantees.v
DeadLetterProgress.v
DeadLetterExample.v
Pacing.v
RateLimit.v
Idempotency.v
IdempotencyFlow.v
IdempotencyStore.v
IdempotencyProtocol.v
IdempotencyRuns.v
IdempotencyGuarantees.v
IdempotencyReplay.v
IdempotencyExample.v
RedisLock.v
RedisLockGuarantees.v
RedisLockExample.v
GoUrl.v
TenantCore.v
TenantPool.v
TenantPoolSafety.v
TenantPoolExample.v
RabbitPublisher.v
RabbitPublisherSafety.v
RabbitPublisherExample.v
OutboxTopology.v
OutboxTopologySafety.v
OutboxTopologyExample.v
OutboxResolvers.v
CircuitBreaker.v
CircuitBreakerIsolation.v
CircuitBreakerExample.v
