(* ===== verification/Prelude.v ===== *)
(** * Verification of lib-commons

    lib-commons is a Go library of building blocks for financial services.  This
    development models the parts that carry its own logic and proves what makes
    them correct.  All paths below are relative to [src/commons].

    ** The parts and how they interact

    - The _outbox_ stores events in the same database transaction as the business
      change that caused them and delivers them later, at least once.  Producers
      create events in a repository; a dispatcher polls the repository for each
      tenant, claims events, calls the registered handler with retries and records
      the outcome; a retention sweep deletes old terminal events.
    - _Transactions_ turn an intent (sources, destinations, a total) into a plan
      of balanced postings, check that the balances may take part, and apply a
      posting to a balance.
    - The _idempotency middleware_ of the HTTP stack runs a request's handler at
      most once per key: it claims the key in a store, keeps the claim alive while
      the handler runs, records the response and replays it to duplicates.
    - The _dead letter queue_ keeps failed messages in Redis lists, one per tenant
      and source; a consumer polls them and retries what is due.
    - _Pacing_ spaces outbound calls with one Redis script over all the replicas
      of a service, and the _rate limiter_ counts inbound requests per identity in
      Redis windows.
    - _Pagination_ hands out cursors for list endpoints, plain ones and signed ones
      that are bound to who reads what.
    - _Webhooks_ deliver events to endpoints of customers: the target address is
      checked against _SSRF_ rules and pinned, the payload is signed, failures are
      retried.
    - The _circuit breaker_ manager keeps one breaker per tenant and service in front
      of calls to other systems, and a health checker resets breakers of services
      that have recovered.
    - The _sanitizer_ removes credentials and card numbers from texts that are logged
      or stored; the outbox puts its own redaction in front of it.
    - The _distributed lock_ runs a function under a Redis lock on all servers.
    - The _tenant manager_ knows the configuration of each tenant and keeps one
      PostgreSQL pool per tenant, evicts idle ones, checks their health and swaps
      them when the configuration changes.  The _resolvers_ of the outbox find a
      tenant's schema, column or pool through it.
    - The _RabbitMQ publisher_ sends a message and waits for its confirmation; it
      recovers by itself when a channel is lost.
    - _JWT_ signs and checks tokens under a shared secret.
    - _Backoff_ computes the retry delays (used by the dispatcher and the
      webhooks), _safe_ holds
      checked decimal and slice helpers (used by transactions) and compiled
      regular expressions, _cron_ parses
      schedules and finds the next time one fires.

    ** Files

    - [Prelude]: fallible functions ([result]), machine integers ([wrap64]),
      times and durations, record update, proof automation.  [GoText]: Go strings as rune
      sequences with the functions of [strings] and [unicode/utf8] that are used.
      [GoFloat]: [float64] as IEEE binary64.  [GoSha512]: SHA-384, SHA-512 and HMAC over
      any of the hashes.  [GoBytes]: byte strings, base64, big-endian numbers, SHA-256 and HMAC as
      executable definitions with their published test vectors.  [GoJSON]: UTF-8
      and [encoding/json]: the grammar, the escapes, reading into a struct.
      [GoRegexp]: patterns of [regexp], a leftmost-first matcher with captures, and
      its agreement with the meaning of a pattern.
      [Effects]: programs as trees of commands and answers, what holds of all
      their runs, and programs interleaved on a shared state; a command that waits for
      a lock is one that is enabled only while the lock is free ([interleave_when]).
    - [SignedCursor]: [net/http/signedcursor/signedcursor.go].  [Pagination]:
      [net/http/cursor.go], [pagination.go], [pagination_sort.go],
      [pagination_timestamp.go] and the limits of [validation.go]; [listPage] is
      the keyset client of the repository's tests.
    - [Ssrf]: [security/ssrf/*.go]; an address is a number, parsing of URLs and
      addresses is the class [Net].  [Webhook]: [webhook/*.go]; a delivery is a
      program of [Effects], the fan-out a set of such programs under a semaphore.
      [WebhookDelivery]: what they do.  [WebhookExample]: a concrete network.
    - [Sanitize]: [security/sanitize/sanitize.go], every pattern and pass; the taxonomy
      of field names is the class [Taxonomy].  [SanitizeCards]: the card pass.
      [SanitizeWalk]: the walk over key=value pairs, and URLs.  [SanitizeExample]:
      concrete texts.
    - [Decimal]: the interface of the third-party decimal package (operations and
      documented laws) and a concrete instance for the witnesses.  [Safe]:
      [safe/math.go], [safe/decimal.go], [safe/slice.go].  [SafeRegex]: [safe/regex.go],
      the bounded cache of compiled expressions.
    - [Jwt]: [jwt/jwt.go], with two platforms and a published token.
    - [Backoff]: [backoff/backoff.go]; [int64] products wrap, the three sources of
      randomness are parameters.
    - [Transaction]: [transaction/transaction.go] and
      [transaction/validations.go]; one definition per function with the same
      name.  [run_plan] applies a plan to a ledger posting by posting.
    - [OutboxLastError]: [outbox/last_error.go], the length bound of
      [outbox/sanitizer.go], and the CASE expressions of the two UPDATE statements
      that mirror it in SQL ([sql_last_error], [sql_last_error_stuck]).
      [OutboxSanitizer]: the patterns and templates of [outbox/sanitizer.go].
    - [OutboxEvent]: [outbox/status.go], [event.go], [handler.go],
      [classifier.go], [tenant.go].
    - [OutboxPostgres]: [outbox/postgres/*.go].  The table is a list of rows; an
      operation is a function from the table, the call's arguments and a [Tx]
      value to an answer and the new table.  A [Tx] says what the database does
      during the call: faults of the driver, of a statement or of the commit
      (also a commit that took effect although it reported an error), rows locked
      by other transactions, the clock.  The SQL text is modelled by its meaning:
      WHERE clauses are predicates on rows, ORDER BY is a stable merge sort, FOR
      UPDATE SKIP LOCKED leaves locked rows out, column widths are enforced.
    - [OutboxLifecycle]: the abstract life cycle of an event and of the table
      ([row_step], [table_step]), the table invariant [table_ok], and the
      refinement of every repository call.  [OutboxGuarantees]: what callers get.
    - [OutboxConfig]: [outbox/config.go].  [OutboxDispatcher]:
      [outbox/dispatcher.go], written against the class [OutboxRepository] (the
      Go interfaces of [outbox/repository.go]; an optional interface is an
      [option]) and an environment [Env] that answers clock readings, context
      checks, handler outcomes and random numbers; externally visible actions go
      to a trace.  [OutboxScheduling]: its bookkeeping over long runs.
      [OutboxDelivery]: one cycle against any repository that satisfies
      [BoundedRepository].  [OutboxService]: the PostgreSQL repository as an
      instance, and the cycle end to end.
    - [OutboxMongo]: [outbox/mongo/*.go].  MongoDB has no transaction around a
      call, so every call is a program of [Effects] with one command per
      statement; the collection is a list of BSON documents, and filters and
      updates are the maps the code builds.  [OutboxMongoLifecycle]: the life
      cycle of a document and the updates that follow it.  [OutboxMongoCodec]:
      the BSON form.  [OutboxMongoClaims]: what each call promises of its
      commands.  [OutboxMongoGuarantees]: any calls interleaved command by
      command.  [OutboxMongoAlone]: calls on a server that answers.
      [OutboxMongoExample]: concrete runs for the witnesses.
    - [Cron]: [cron/cron.go] with the civil calendar.
    - [DeadLetter]: [dlq/handler.go], [keys.go] and [consumer.go], one program of
      [Effects] per method, and Redis lists with faults and lost answers.
      [DeadLetterLedger]: what each operation does with the message in hand.
      [DeadLetterGuarantees]: all users together.  [DeadLetterProgress]: what a
      poll gets done.  [DeadLetterExample]: a concrete queue for the witnesses.
    - [CircuitBreaker]: [circuitbreaker/*.go].  Every section under the manager's
      lock and every call of a breaker is one command of a program of [Effects];
      callbacks are programs; the third-party breaker is the class [Gobreaker].
      [CircuitBreakerIsolation]: all users together.  [CircuitBreakerExample]: a
      concrete breaker and the witnesses.
    - [RedisLock]: [redis/lock.go]; a call is a program of [Effects] over the servers'
      lock, the clock and the randomness of the third-party [redsync].
      [RedisLockGuarantees]: all callers together.  [RedisLockExample]: witnesses.
    - [GoUrl]: the escaping of [net/url].  [TenantCore]: [tenant-manager/core/types.go],
      [internal/eviction/lru.go], [internal/healthcheck/gate.go],
      [tenantcache/tenant_cache.go], [cache/memory.go].  [TenantPool]:
      [tenant-manager/postgres/manager.go]; connections live in a heap, every section
      under the lock is one command.  [TenantPoolSafety]: all callers together.
      [TenantPoolExample]: witnesses.
    - [OutboxTopology]: [outbox/postgres/module_pool_resolver.go], two locks and an
      atomic counter.  [OutboxTopologySafety], [OutboxTopologyExample]: what it
      promises, and where it does not.  [OutboxResolvers]:
      [outbox/postgres/identifiers.go], [schema_resolver.go], [column_resolver.go],
      [db.go], [pool_resolver.go], [manager_pool_resolver.go], [table_presence.go],
      [multi_tenant.go] and the constructor of [repository.go], one Module each; the
      statements of a schema are read back with PostgreSQL's rules for quoted names.
    - [RabbitPublisher]: [rabbitmq/publisher.go], with AMQP channels as the protocol
      describes them.  [RabbitPublisherSafety]: all users, monitors, recoveries and
      the broker together.  [RabbitPublisherExample]: witnesses.
    - [Pacing]: [net/http/pacing/redis_pacer.go] and [round_tripper.go].  The
      script [pacingScript] is a function on the Redis database (a map from keys
      to values with an expiry); [Acquire] is its polling loop; the replicas'
      calls are a sequence of script runs at arbitrary times of one server.
    - [RateLimit]: [net/http/ratelimit/middleware.go], [middleware_options.go] and
      [redis_storage.go], with the tenant key prefix of
      [tenant-manager/valkey/keys.go].
    - [Idempotency]: the data, options and pure functions of
      [net/http/idempotency/idempotency.go] and [response_codec.go].
      [IdempotencyFlow]: the request path ([Handle]) as a program over the store,
      the handler and the clock, so that every answer of the outside world,
      faults included, is an input; the heartbeat of [heartbeat.go] appears in
      the answers of the handler's run.  [IdempotencyStore]: the contract of
      [store.go] as an abstract step on claims, and the Redis scripts of
      [redis_store.go] as an implementation of it.  [IdempotencyProtocol]: the
      order of calls a request may make and the proof that [Handle] keeps to it.
      [IdempotencyRuns]: any number of requests, interleaved call by call on one
      store.  [IdempotencyGuarantees], [IdempotencyReplay]: what clients get.
      [IdempotencyExample]: concrete instances for the witnesses.

    ** What the theorems show

    - Repository: from the empty table, under any faults and interleaving of
      calls, the table follows the abstract life cycle and keeps its invariant
      ([outbox_runs_follow_lifecycle]); no event is lost ([no_event_lost]); one
      tenant's calls never touch another tenant's rows ([tenant_isolation]).
      When the database answers, claiming takes the oldest events and hands each
      to one worker ([ListPending_claims_oldest], [consecutive_claims_disjoint]),
      failures are charged and quarantined exactly at the budget
      ([MarkFailed_outcome], [ReclaimStuckProcessing_splits_by_budget]), and
      creation is idempotent ([CreateIdempotent_outcome]).
    - MongoDB repository: under any interleaving of calls command by command,
      with refused commands and lost replies, every command is a step of the life
      cycle ([mongo_follows_lifecycle]) and no pending event is handed out twice
      ([pending_event_handed_out_once]); on a server that answers, a list claims
      the oldest events ([mongo_list_claims_oldest]) and what is created is read
      back ([mongo_created_event_is_read_back]).  The tenant field must not be a
      name the documents already use, which the constructor does not check
      ([reserved_tenant_field_accepted]).
    - Recorded causes: the column width is never exceeded, the first cause is
      never evicted, all distinct causes are kept while they fit, and the SQL
      mirror computes what the Go rule computes on every row written under that
      rule; on older rows it may differ ([sql_mirror_differs_on_legacy_rows]).
    - Dispatcher: the order of handler calls, state changes and callbacks in a
      cycle ([dispatch_cycle_order]); on a database that answers, the cycle
      settles every event it collected ([dispatch_cycle_settles]); bounded memory,
      fair rotation, throttled sweeps; every accepted configuration is usable.
    - Transactions: built plans are balanced, postings have their exact effect,
      eligible plans apply, direct and cancelled transactions conserve money, and
      a hold can be released.  A pending transaction that is approved does not
      conserve money ([approved_pending_credits_twice]).
    - Backoff: saturating growth and the range of the jitter.  Cron: the parser's
      output is well formed and the search finds the earliest time; huge steps
      overflow ([step_overflow_adds_minutes]).
    - Idempotency: the Redis store implements the contract, with lost replies and
      expiry ([redis_store_refines_contract]); every request follows the protocol
      ([handle_follows_protocol]); under any interleaving, a key's handler runs at
      most once while its records live ([at_most_once]), handlers only run under
      a claim, and a run that ends is recorded; a duplicate gets the recorded
      response ([duplicate_is_replayed]); the keys of two tenants never meet.  A
      response with a content coding is recorded but never replayed
      ([compressed_response_never_replayed]).
    - Dead letter queue: however producers, consumers and pruning passes
      interleave, fail or stop, every message is in a queue, reported, or in the
      hands of one user ([dlq_conserves_messages]); retries stay within each
      message's budget ([retries_within_budget]); tenants never mix
      ([tenants_never_mix]); a due message is attempted although others before it
      are not due ([due_message_is_attempted]).  Messages without a tenant are not
      retried while any tenant has a queue ([global_queue_starved]).
    - Cursors: a signed cursor is read back by its binding and fits the length its
      decoder admits ([signed_cursor_round_trip]); one that is accepted was minted
      for exactly this binding, or an HMAC was forged or collided
      ([signed_cursor_is_bound]).  A client that follows plain cursors in any order
      sees whole chunks of the ordered list ([cursor_walk_shows_chunks]); sort
      cursors over columns that are no identifiers are encoded and then refused
      ([sort_cursor_read_back]).
    - JWT: what is signed is read back ([jwt_round_trip]); what is accepted is signed with
      an algorithm the caller allows, and current ([jwt_accepted_is_signed_and_current],
      [time_claims_decide]); a signature stands for one header and payload
      ([jwt_signature_binds]).  Times that [time.Time] cannot represent wrap to the past
      ([distant_times_wrap]).  Regular expressions: the cache is transparent and bounded
      under any interleaving, eviction included ([regex_cache_is_transparent]), unless a
      pattern begins with [posix:] ([posix_prefix_is_confused]).
    - Webhooks: every request goes to a checked address, without redirects and, on a
      transport the library can configure, under the TLS name of the endpoint
      ([webhook_requests_are_checked]), where the checks cover exactly the listed
      special-purpose ranges ([blocked_iff_unsafe]); the result of a delivery is
      explained by the answers ([webhook_delivery_outcome]), which also shows that
      a late success keeps an old error; an accepted signature binds payload and
      time ([webhook_signature_binds]).
    - Circuit breakers: what a tenant's threads see does not depend on the steps of
      other tenants ([tenants_do_not_interfere]); registration is atomic although
      it looks at the map twice ([getOrCreate_is_atomic]); every slot names a
      breaker made with the slot's configuration ([manager_ok]); the fan-out to
      listeners is bounded ([fanout_bounded]).  A ratio that is not a number is
      accepted ([nan_ratio_is_accepted]).
    - Sanitizer: after the card pass no candidate passes the Luhn check, neither does
      a stretch of groups in one ([no_card_survives]); the walk over key=value pairs
      ends within the length of the text ([walk_ends]); what is written for a URL
      with userinfo does not depend on it ([userinfo_is_hidden]); no card is recorded as
      the cause of a failed event ([no_card_recorded]).
    - Distributed lock: two functions under the same key never overlap while both
      locks are valid ([sections_do_not_overlap]); a call does what its branch
      says for every answer of the servers ([WithLockOptions_runs]).
    - Tenant manager: a health check is skipped only after a good one that nothing has
      invalidated since ([skip_is_earned]); under any interleaving a caller gets a pool
      of its own tenant ([tenant_gets_own_pool]), every open pool is cached or in the
      hands of a call ([pools_accounted]), and a closed manager leaves nothing open
      ([close_leaves_nothing_open]), unless a reconnection is under way, which can leave a
      pool open in it ([closed_manager_keeps_pool]).
    - Resolvers: a transaction is scoped to the tenant's own schema, whatever its ID
      contains ([tenant_schema_is_selected]), and the schemas that are discovered are
      those ([discovered_schema_is_selected]); the pool of a call is that of its own
      tenant ([pool_lookup_fails_closed]); a repository that is asked to be
      multi-tenant refuses calls without a tenant ([multi_tenant_fails_closed]).  The
      module-aware resolver lists each physical database once
      ([one_scope_per_database]), keeps its two views of the topology consistent and
      routes a scope to its own tenant's pool ([scopes_lead_home]), isolates the
      failures of tenants ([refresh_isolates_failures]) and keeps an evicted tenant out
      ([evicted_tenant_stays_out]), except from a refresh that overlaps the eviction
      ([overlapping_refresh_restores_tenant]).
    - RabbitMQ publisher: a publish that returns no error was mandatory, has been routed and
      acknowledged, each by a confirmation of its own ([confirmed_means_delivered]);
      nothing is sent after it is closed ([nothing_sent_after_close]).  A monitor that
      wakes late closes the channel that replaced its own
      ([late_monitor_closes_new_channel]).
    - Pacing: any two admitted calls of a bucket are at least the interval of the
      earlier one apart, up to the clock tolerance
      ([outbound_calls_are_spaced]), and a call that is due is let through
      ([due_call_is_permitted]).  Rate limiting: at most twice the configured
      maximum are passed on in any span of one window, and those on top whose store
      call got no reply where the limiter fails open ([allowed_within_twice_max]); the
      counters of different tenants are separate.

    ** Fuel and bounds

    [retry_loop] gets one unit of fuel per attempt of the Go loop, so it never
    runs out early.  [range_loop] gets 128 units, and [range_loop_terminates]
    shows that every range and step the parser can reach needs no more.
    [search] gets the code's own iteration limit.  The polling loop of [Acquire]
    is modelled one poll at a time, and the loops of the dead letter consumer get
    the counts the code bounds them by.  The loop of the tenant manager's
    [GetConnection] repeats only while it waits for the health check of another
    caller, so its fuel is the number of such waits; the publisher's recovery gets
    the configured number of attempts.  The loops of the sanitizer get the length of
    the text: [no_card_survives] shows that the card loop has then reached its fixed
    point; the loops over key=value pairs return an option in which [None] is a loop
    that has not ended, and [walk_ends] shows that each returns.  Everything else is
    structural recursion.  Integers are unbounded except where the code relies on or risks
    their width (backoff, cron steps, durations, versions, the resolver's counter),
    where the wrap-around is written out.

    ** Not modelled

    Logging, tracing and metrics export; panics of handlers and their recovery;
    the goroutine that [Shutdown] waits with; strings that are not
    valid UTF-8.  The repositories take the redaction of error texts as an argument,
    so that their theorems hold for any, and see the routing of a transaction to a
    tenant's database or schema as the outcome of opening the transaction; what the
    two do is modelled in [OutboxSanitizer] and in [OutboxResolvers].  Also left out:
    nil receivers and
    nil contexts, which the code turns into an error or a background context at
    once (a nil schedule and an uninitialised repository are modelled); the
    identity functions of the rate limiter; the loss of Redis keys by eviction or
    failover.  The Go dispatcher
    runs one cycle at a time; concurrent dispatchers appear to the repository as
    interleaved calls and locked rows.

    Whole parts that are left out: the pools of the tenant manager for MongoDB,
    RabbitMQ and S3, which repeat the design of the PostgreSQL one over other drivers;
    its HTTP client, event consumer and middleware; the life cycle of servers; the
    clients of PostgreSQL, MongoDB, Redis and RabbitMQ, which manage connections of
    third-party drivers; problem documents, OpenAPI and other presentation; wrappers
    of cryptography, licences, secrets and telemetry; test suites that ship with the
    library. *)

From stdpp Require Import base numbers list option sorting gmap.
From Stdlib Require Import ZArith Lia.

Local Open Scope Z_scope.

(** ** Fallible Go functions

    A Go function returning [(T, error)] is a function into [result E T], where
    [E] enumerates the sentinel errors callers can test with [errors.Is];
    message text added by [fmt.Errorf("...: %w", err)] is not part of [E]. *)

Inductive result (E A : Type) : Type :=
| Ok (a : A)
| Err (e : E).
Arguments Ok {E A} a.
Arguments Err {E A} e.

#[export] Instance result_ret {E} : MRet (result E) := λ A a, Ok a.

#[export] Instance result_bind {E} : MBind (result E) :=
  λ A B f m, match m with Ok a => f a | Err e => Err e end.

#[export] Instance result_fmap {E} : FMap (result E) :=
  λ A B f m, match m with Ok a => Ok (f a) | Err e => Err e end.

#[export] Instance result_eq_dec `{EqDecision E, EqDecision A} : EqDecision (result E A).
Proof. solve_decision. Defined.

(** For results whose contents should not be computed. *)
Lemma Ok_inj {E A} (a b : A) : @Ok E A a = Ok b → a = b.
Proof. by intros [= ->]. Qed.

Definition is_ok {E A} (r : result E A) : bool :=
  match r with Ok _ => true | Err _ => false end.

Definition from_ok {E A} (d : A) (r : result E A) : A :=
  match r with Ok a => a | Err _ => d end.

Declare Scope go_scope.
Delimit Scope go_scope with go.

(** ** Machine integers *)

Definition MaxInt64 : Z := 9223372036854775807.
Definition MinInt64 : Z := -9223372036854775808.

(** Two's-complement wrap-around of Go's [int64] (and of [int] on 64-bit). *)
Definition wrap64 (z : Z) : Z := (z + 2 ^ 63) `mod` 2 ^ 64 - 2 ^ 63.

Definition in_int64 (z : Z) : Prop := MinInt64 ≤ z ≤ MaxInt64.

Lemma wrap64_id z : in_int64 z → wrap64 z = z.
Proof.
  unfold in_int64, MinInt64, MaxInt64, wrap64. intros ?.
  rewrite Z.mod_small; lia.
Qed.

Lemma wrap64_range z : in_int64 (wrap64 z).
Proof.
  unfold in_int64, MinInt64, MaxInt64, wrap64.
  pose proof (Z.mod_pos_bound (z + 2 ^ 63) (2 ^ 64)). lia.
Qed.

(** ** Time

    A [time.Time] is its number of nanoseconds since the zero [Time]
    (January 1, year 1, UTC), so [IsZero] is [= 0].  A [time.Duration] is its
    [int64] nanosecond count. [Sub] saturates to the range of [Duration]. *)

Abbreviation gotime := Z (only parsing).
Abbreviation duration := Z (only parsing).

Definition zero_time : gotime := 0.
Definition time_is_zero (t : gotime) : bool := bool_decide (t = zero_time).
Definition time_add (t : gotime) (d : duration) : gotime := t + d.
Definition time_before (t u : gotime) : bool := bool_decide (t < u).
Definition time_sub (t u : gotime) : duration :=
  Z.max MinInt64 (Z.min MaxInt64 (t - u)).

Definition Nanosecond : duration := 1.
Definition Millisecond : duration := 1000000.
Definition Second : duration := 1000000000.
Definition Minute : duration := 60 * Second.
Definition Hour : duration := 60 * Minute.

(** [time.Unix(0, 0)] *)
Definition unix_epoch : gotime := 62135596800 * Second.

(** The times [encoding/json] can write: those of the years 0 to 9999. *)
Definition json_time (t : gotime) : bool :=
  (bool_decide (-31622400 * Second ≤ t) && bool_decide (t < 315537897600 * Second))%bool.

(** The saturation of [Sub] is invisible to a comparison with a duration that
    is itself representable. *)
Lemma time_sub_lt t u d : in_int64 d → time_sub t u < d ↔ (t - u < d ∧ MinInt64 < d).
Proof. unfold time_sub, in_int64, MinInt64, MaxInt64. lia. Qed.

Lemma time_sub_ge t u d : 0 ≤ d ≤ MaxInt64 → d ≤ time_sub t u ↔ d ≤ t - u.
Proof. unfold time_sub, MinInt64, MaxInt64. lia. Qed.

(** ** Record update

    [r <| f := v |>] is [r] with field [f] replaced, for every record type with
    an instance of [Eta]. *)

Class Eta (R : Type) := eta : R → R.

Class Setter {R T : Type} (f : R → T) := set_to : T → R → R.
Arguments set_to {R T} f {_} / _ _.

Ltac build_setter :=
  lazymatch goal with
  | |- @Setter ?R ?T ?f =>
    let v := fresh "v" in let r := fresh "r" in
    refine (λ (v : T) (r : R), _);
    let i := constr:(_ : Eta R) in
    let e := eval hnf in (i r) in
    let e := eval pattern (f r) in e in
    lazymatch e with ?h _ => let t := eval cbv beta in (h v) in exact t end
  end.

#[export] Hint Extern 1 (Setter _) => build_setter : typeclass_instances.

Notation "r <| f := v |>" := (set_to f v r) (at level 1, f at level 99, v at level 200, left associativity) : go_scope.

(** ** Proof automation *)

(** Split every [match]/[if] of the goal or of a hypothesis, keep equations. *)
Ltac split_match :=
  match goal with
  | |- context [match ?x with _ => _ end] => destruct x eqn:?
  | H : context [match ?x with _ => _ end] |- _ => destruct x eqn:?
  end.

(** Turn boolean tests in hypotheses into the propositions they decide. *)
Ltac bool_to_prop :=
  repeat match goal with
  | H : bool_decide _ = true |- _ => apply bool_decide_eq_true in H
  | H : bool_decide _ = false |- _ => apply bool_decide_eq_false in H
  | H : (_ && _)%bool = true |- _ => apply andb_true_iff in H; destruct H
  | H : (_ || _)%bool = false |- _ => apply orb_false_iff in H; destruct H
  | H : negb _ = true |- _ => apply negb_true_iff in H
  | H : negb _ = false |- _ => apply negb_false_iff in H
  end.

(** Invert a chain of monadic steps and guards that ended in [Ok]. *)
Ltac inv_ok :=
  repeat (unfold mbind, result_bind in *; simpl in *;
    match goal with
    | H : Err _ = Ok _ |- _ => discriminate H
    | H : Ok _ = Err _ |- _ => discriminate H
    | H : Ok _ = Ok _ |- _ => injection H as H; subst
    | H : (if ?b then _ else _) = Ok _ |- _ => destruct b eqn:?
    | H : match ?m with Ok _ => _ | Err _ => _ end = Ok _ |- _ => destruct m eqn:?
    | H : (let '(_, _) := ?p in _) = Ok _ |- _ => destruct p eqn:?
    | H : match ?o with Some _ => _ | None => _ end = Ok _ |- _ => destruct o eqn:?
    end).

Create HintDb commons discriminated.

(** ** List lemmas shared by the components *)

Section list_lemmas.
Context {A : Type}.
Implicit Types (l k : list A) (p : A → bool).

Lemma Forall_filter_bool p l : Forall (λ x, p x = true) (List.filter p l).
Proof. induction l as [|x l IH]; simpl; [constructor|]. destruct (p x) eqn:?; auto. Qed.

Lemma Forall_filter_keep (P : A → Prop) p l : Forall P l → Forall P (List.filter p l).
Proof. induction 1; simpl; [constructor|]. destruct (p _); auto. Qed.

Lemma length_filter_le p l : (length (List.filter p l) ≤ length l)%nat.
Proof. induction l as [|x l IH]; simpl; [lia|]. destruct (p x); simpl; lia. Qed.

Lemma elem_of_filter_bool p l x : x ∈ List.filter p l ↔ p x = true ∧ x ∈ l.
Proof. rewrite !list_elem_of_In, filter_In. tauto. Qed.

Lemma sublist_filter_bool p l : List.filter p l `sublist_of` l.
Proof. induction l as [|x l IH]; simpl; [constructor|]. destruct (p x); by constructor. Qed.

Lemma map_cond_id (f : A → A) p l :
  Forall (λ x, p x = false) l → map (λ x, if p x then f x else x) l = l.
Proof. induction 1 as [|x l Hx _ IH]; simpl; [done|]. by rewrite Hx, IH. Qed.

Lemma map_cond_fix {B} (g : A → B) (f : A → A) p l :
  (∀ x, g (f x) = g x) → map g (map (λ x, if p x then f x else x) l) = map g l.
Proof. intros H. induction l as [|x l IH]; simpl; [done|]. rewrite IH. destruct (p x); by rewrite ?H. Qed.

Lemma filter_bool_split p q l : (∀ x, negb (p x) = q x) → List.filter p l ++ List.filter q l ≡ₚ l.
Proof.
  intros H. induction l as [|x l IH]; simpl; [done|]. rewrite <- H. destruct (p x); simpl.
  - by rewrite IH.
  - by rewrite <- Permutation_middle, IH.
Qed.

Lemma filter_bool_all p l : Forall (λ x, p x = true) l → List.filter p l = l.
Proof. induction 1 as [|x l Hx _ IH]; simpl; [done|]. by rewrite Hx, IH. Qed.

Lemma filter_bool_map {B} (q : B → bool) (f : A → B) l :
  List.filter q (map f l) = map f (List.filter (λ x, q (f x)) l).
Proof. induction l as [|x l IH]; simpl; [done|]. rewrite IH. by destruct (q (f x)). Qed.
End list_lemmas.

#[export] Hint Resolve Forall_filter_bool Forall_filter_keep sublist_filter_bool : commons.
