(* ===== verification/GoText.v ===== *)
(** Go strings as rune sequences, with the functions of the standard library's
    [strings] and [unicode/utf8] packages that the components use.

    A Go string that is valid UTF-8 is determined by the code points it
    decodes to; [text] is that sequence.  [utf8.RuneCountInString] is [length],
    [==] is equality, and the functions below are written on code points.
    Strings that are not valid UTF-8 are outside the model. *)

From stdpp Require Import base numbers list option strings sets.
From Stdlib Require Import Ascii.
From S2P Require Import Prelude.

Local Open Scope Z_scope.

Abbreviation text := (list Z).

(** String literals of the source. *)
Definition txt (s : string) : text :=
  map (λ a, Z.of_N (N_of_ascii a)) (String.list_ascii_of_string s).
Arguments txt s%_string_scope.

Definition LF : Z := 10.
Definition CR : Z := 13.
Definition SP : Z := 32.

(** [unicode.IsSpace] *)
Definition is_space (r : Z) : bool :=
  (bool_decide (9 ≤ r ≤ 13) || bool_decide (r = 32) || bool_decide (r = 133)
   || bool_decide (r = 160) || bool_decide (r = 5760) || bool_decide (8192 ≤ r ≤ 8202)
   || bool_decide (r = 8232) || bool_decide (r = 8233) || bool_decide (r = 8239)
   || bool_decide (r = 8287) || bool_decide (r = 12288))%bool.

Fixpoint trim_left (p : Z → bool) (s : text) : text :=
  match s with
  | [] => []
  | r :: s' => if p r then trim_left p s' else s
  end.

Definition trim_right (p : Z → bool) (s : text) : text := rev (trim_left p (rev s)).

Definition trim_by (p : Z → bool) (s : text) : text := trim_right p (trim_left p s).

(** [strings.TrimSpace] *)
Definition TrimSpace (s : text) : text := trim_by is_space s.

(** [a == b] *)
Definition eqt (a b : text) : bool := bool_decide (a = b).
Notation "a =t b" := (eqt a b) (at level 70) : go_scope.

(** [s == ""] *)
Definition is_empty (s : text) : bool := match s with [] => true | _ => false end.

(** [strings.HasPrefix] and [strings.Contains] (also SQL's [position(..) > 0]). *)
Fixpoint has_prefix (pre s : text) : bool :=
  match pre, s with
  | [], _ => true
  | _ :: _, [] => false
  | a :: pre', b :: s' => (bool_decide (a = b) && has_prefix pre' s')%bool
  end.

Fixpoint contains (sub s : text) : bool :=
  (has_prefix sub s || match s with [] => false | _ :: s' => contains sub s' end)%bool.

(** [strings.Split(s, sep)] for a one-rune separator: never the empty list. *)
Fixpoint split_on (sep : Z) (s : text) : list text :=
  match s with
  | [] => [[]]
  | r :: s' =>
      if bool_decide (r = sep) then [] :: split_on sep s'
      else match split_on sep s' with
           | [] => [[r]]
           | f :: fs => (r :: f) :: fs
           end
  end.

(** [strings.SplitN(s, sep, 2)] for a one-rune separator. *)
Fixpoint split_first (sep : Z) (s : text) : text * option text :=
  match s with
  | [] => ([], None)
  | r :: s' =>
      if bool_decide (r = sep) then ([], Some s')
      else let '(a, b) := split_first sep s' in (r :: a, b)
  end.

(** [strings.Fields]: maximal runs of non-space runes. *)
Fixpoint fields_aux (acc : text) (s : text) : list text :=
  match s with
  | [] => match acc with [] => [] | _ => [rev acc] end
  | r :: s' =>
      if is_space r
      then match acc with [] => fields_aux [] s' | _ => rev acc :: fields_aux [] s' end
      else fields_aux (r :: acc) s'
  end.

Definition Fields (s : text) : list text := fields_aux [] s.

(** [hex.EncodeToString], on bytes *)
Definition hex_digit (d : Z) : Z := if bool_decide (d < 10) then 48 + d else 87 + d.

Definition hex_encode (b : list Z) : text :=
  b ≫= λ x, [hex_digit (Z.shiftr x 4); hex_digit (Z.land x 15)].

(** [strconv.Atoi]: an optional sign and decimal digits, within [int64]. *)
Definition is_digit (r : Z) : bool := bool_decide (48 ≤ r ≤ 57).

Fixpoint digits_value (acc : Z) (s : text) : option Z :=
  match s with
  | [] => Some acc
  | r :: rest => if is_digit r then digits_value (acc * 10 + (r - 48)) rest else None
  end.

Definition unsigned_value (s : text) : option Z :=
  match s with [] => None | _ => digits_value 0 s end.

Definition Atoi (s : text) : option Z :=
  let v := match s with
           | 45 :: rest => Z.opp <$> unsigned_value rest
           | 43 :: rest => unsigned_value rest
           | _ => unsigned_value s
           end in
  match v with
  | Some n => if bool_decide (MinInt64 ≤ n ≤ MaxInt64) then Some n else None
  | None => None
  end.

(** [strconv.Itoa] and [strconv.FormatInt] in base ten, on [int64]: at most
    nineteen digits. *)
Fixpoint digits_of_nat (fuel : nat) (z : Z) (acc : text) : text :=
  match fuel with
  | O => acc
  | S n => let acc := (48 + z mod 10) :: acc in if bool_decide (z < 10) then acc else digits_of_nat n (z / 10) acc
  end.

Definition Itoa (z : Z) : text :=
  if bool_decide (z < 0) then 45 :: digits_of_nat 20 (- z) [] else digits_of_nat 20 z [].

(** ** Trimming *)

Section trim.
Context (p : Z → bool).

Lemma trim_left_suffix s : ∃ k, s = k ++ trim_left p s ∧ Forall (λ r, p r = true) k.
Proof.
  induction s as [|r s [k [E Hk]]]; simpl; [by exists []|].
  destruct (p r) eqn:Hr; [|by exists []].
  exists (r :: k). rewrite E at 1. auto.
Qed.

Lemma trim_left_nil s : trim_left p s = [] ↔ Forall (λ r, p r = true) s.
Proof.
  induction s as [|r s IH]; simpl; [done|].
  rewrite Forall_cons. destruct (p r) eqn:Hr; [naive_solver|]. split; [done|naive_solver].
Qed.

Lemma trim_left_head r s : trim_left p (r :: s) = if p r then trim_left p s else r :: s.
Proof. done. Qed.

Lemma trim_left_fix s : match s with [] => True | r :: _ => p r = false end → trim_left p s = s.
Proof. destruct s; simpl; [done|]. by intros ->. Qed.

Lemma trim_left_hd_false s : match trim_left p s with [] => True | r :: _ => p r = false end.
Proof. induction s as [|r s IH]; simpl; [done|]. destruct (p r) eqn:?; done. Qed.

Lemma trim_left_idem s : trim_left p (trim_left p s) = trim_left p s.
Proof. apply trim_left_fix, trim_left_hd_false. Qed.

Lemma trim_right_prefix s : ∃ k, s = trim_right p s ++ k ∧ Forall (λ r, p r = true) k.
Proof.
  destruct (trim_left_suffix (rev s)) as [k [E Hk]].
  exists (rev k). unfold trim_right. split.
  - rewrite <- rev_app_distr, <- E, rev_involutive. done.
  - rewrite Forall_forall in *. intros r Hr. apply Hk.
    rewrite list_elem_of_In in *. by apply in_rev.
Qed.

Lemma trim_right_fix_hd s :
  match s with [] => True | r :: _ => p r = false end →
  match trim_right p s with [] => True | r :: _ => p r = false end.
Proof.
  intros Hs. destruct (trim_right_prefix s) as [k [E _]].
  destruct (trim_right p s) eqn:E'; [done|]. destruct s; simplify_eq/=; done.
Qed.

Lemma trim_by_idem s : trim_by p (trim_by p s) = trim_by p s.
Proof.
  unfold trim_by. rewrite (trim_left_fix (trim_right p _)).
  - unfold trim_right. rewrite rev_involutive. by rewrite trim_left_idem.
  - apply trim_right_fix_hd, trim_left_hd_false.
Qed.

Lemma trim_by_nil s : trim_by p s = [] ↔ Forall (λ r, p r = true) s.
Proof.
  unfold trim_by, trim_right. split.
  - intros H. apply trim_left_nil.
    destruct (trim_left p s) as [|r t] eqn:E; [done|].
    pose proof (trim_left_hd_false s) as Hr. rewrite E in Hr.
    assert (Hn : trim_left p (rev (r :: t)) = []).
    { rewrite <- (rev_involutive (trim_left p (rev (r :: t)))), H. done. }
    apply trim_left_nil in Hn. rewrite Forall_forall in Hn.
    specialize (Hn r). rewrite list_elem_of_In, <- in_rev in Hn. simpl in Hn.
    rewrite Hn in Hr by auto. done.
  - intros H. apply trim_left_nil in H. by rewrite H.
Qed.

Lemma trim_by_sub s : ∃ a b, s = a ++ trim_by p s ++ b.
Proof.
  destruct (trim_left_suffix s) as [a [Ea _]].
  destruct (trim_right_prefix (trim_left p s)) as [b [Eb _]].
  exists a, b. unfold trim_by. by rewrite <- Eb.
Qed.

Lemma length_trim_by s : (length (trim_by p s) ≤ length s)%nat.
Proof. destruct (trim_by_sub s) as [a [b E]]. rewrite E at 2. rewrite !length_app. lia. Qed.

Lemma elem_of_trim_by r s : r ∈ trim_by p s → r ∈ s.
Proof. destruct (trim_by_sub s) as [a [b E]]. intros H. rewrite E. set_solver. Qed.

(** A text whose first and last runes are kept is its own trimming. *)
Lemma trim_by_fix s :
  match s with [] => True | r :: _ => p r = false end →
  match rev s with [] => True | r :: _ => p r = false end →
  trim_by p s = s.
Proof.
  intros H1 H2. unfold trim_by, trim_right.
  rewrite (trim_left_fix s H1), (trim_left_fix (rev s) H2). apply rev_involutive.
Qed.

Lemma trim_by_hd s : match trim_by p s with [] => True | r :: _ => p r = false end.
Proof. apply trim_right_fix_hd, trim_left_hd_false. Qed.
End trim.

Lemma TrimSpace_idem s : TrimSpace (TrimSpace s) = TrimSpace s.
Proof. apply trim_by_idem. Qed.

Lemma TrimSpace_nil s : TrimSpace s = [] ↔ Forall (λ r, is_space r = true) s.
Proof. apply trim_by_nil. Qed.

Lemma eqt_true a b : eqt a b = true ↔ a = b.
Proof. apply bool_decide_eq_true. Qed.

Lemma eqt_false a b : eqt a b = false ↔ a ≠ b.
Proof. apply bool_decide_eq_false. Qed.

Lemma eqt_sym a b : eqt a b = eqt b a.
Proof. apply bool_decide_ext. done. Qed.

Lemma eqt_refl a : eqt a a = true.
Proof. by apply eqt_true. Qed.

Lemma is_empty_true (s : text) : is_empty s = true ↔ s = [].
Proof. by destruct s. Qed.

Lemma is_empty_false (s : text) : is_empty s = false ↔ s ≠ [].
Proof. by destruct s. Qed.

(** ** Prefixes and substrings *)

Lemma has_prefix_spec pre s : has_prefix pre s = true ↔ ∃ k, s = pre ++ k.
Proof.
  revert s. induction pre as [|a pre IH]; intros s; simpl; [naive_solver|].
  destruct s as [|b s]; simpl; [naive_solver|].
  rewrite andb_true_iff, IH, bool_decide_eq_true. naive_solver.
Qed.

Lemma contains_spec sub s : contains sub s = true ↔ ∃ a b, s = a ++ sub ++ b.
Proof.
  induction s as [|r s IH]; simpl; rewrite orb_true_iff, has_prefix_spec.
  - split; [intros [[k Hk]|]; [by exists [], k|done]|].
    intros [a [b H]]. left. exists b. destruct a; [done|discriminate].
  - rewrite IH. split.
    + intros [[k Hk]|[a [b H]]]; [by exists [], k|]. exists (r :: a), b. by rewrite H.
    + intros [[|r' a] [b H]]; simplify_eq/=; [left; eauto|right; eauto].
Qed.

Lemma contains_app_l sub s k : contains sub s = true → contains sub (s ++ k) = true.
Proof.
  rewrite !contains_spec. intros [a [b ->]]. exists a, (b ++ k). by rewrite <- !app_assoc.
Qed.

Lemma contains_refl s k : contains s (k ++ s) = true.
Proof. apply contains_spec. exists k, []. by rewrite app_nil_r. Qed.

(** ** Splitting on a separator *)

Lemma split_on_nonempty sep s : split_on sep s ≠ [].
Proof. destruct s as [|r s]; simpl; [done|]. case_bool_decide; [done|]. by destruct (split_on sep s). Qed.

Lemma split_on_plain sep s : sep ∉ s → split_on sep s = [s].
Proof.
  induction s as [|r s IH]; simpl; [done|]. intros H.
  rewrite bool_decide_false by set_solver. by rewrite IH by set_solver.
Qed.

Lemma split_on_app sep s t : sep ∉ s → split_on sep (s ++ sep :: t) = s :: split_on sep t.
Proof.
  induction s as [|r s IH]; simpl; intros H.
  - by rewrite bool_decide_true.
  - rewrite bool_decide_false by set_solver. by rewrite IH by set_solver.
Qed.

Lemma split_on_no_sep sep s : Forall (λ f, sep ∉ f) (split_on sep s).
Proof.
  induction s as [|r s IH]; simpl; [repeat constructor; set_solver|].
  case_bool_decide; [constructor; [set_solver|done]|].
  destruct (split_on sep s); inversion_clear IH; repeat constructor; set_solver.
Qed.

(** Every text either has no separator or splits at its first one. *)
Lemma split_first_sep sep (s : text) : sep ∉ s ∨ ∃ f t, s = f ++ sep :: t ∧ sep ∉ f.
Proof.
  destruct (decide (sep ∈ s)) as [H|H]; [right|by left].
  apply list_elem_of_split_l in H as [f [t [-> Hf]]]. eauto.
Qed.

Lemma sep_app_inj sep (c f x y : text) :
  sep ∉ c → sep ∉ f → c ++ sep :: x = f ++ sep :: y → c = f ∧ x = y.
Proof.
  revert f. induction c as [|a c IH]; intros [|b f] Hc Hf E; simplify_eq/=; [done|set_solver..|].
  edestruct (IH f) as [-> ->]; [set_solver|set_solver|done|done].
Qed.

Lemma contains_skip sep w f t :
  sep ∉ f → contains (sep :: w) (f ++ t) = contains (sep :: w) t.
Proof.
  induction f as [|r f IH]; intros Hf; simpl; [done|].
  rewrite bool_decide_false by set_solver. simpl. apply IH. set_solver.
Qed.

Lemma contains_wrapped sep c f u :
  sep ∉ c → sep ∉ f →
  contains (sep :: c ++ [sep]) (sep :: f ++ sep :: u) = true ↔
  c = f ∨ contains (sep :: c ++ [sep]) (sep :: u) = true.
Proof.
  intros Hc Hf.
  assert (E : contains (sep :: c ++ [sep]) (sep :: f ++ sep :: u)
    = (has_prefix (sep :: c ++ [sep]) (sep :: f ++ sep :: u)
       || contains (sep :: c ++ [sep]) (f ++ sep :: u))%bool) by done.
  rewrite E, contains_skip, orb_true_iff, has_prefix_spec by done. clear E.
  split; (intros [H|H]; [left|by right]).
  - destruct H as [k H]. simpl in H. injection H as H. rewrite <- app_assoc in H.
    by apply sep_app_inj in H as [-> _].
  - exists u. subst. simpl. by rewrite <- app_assoc.
Qed.

(** Membership in a split is the delimiter-wrapped substring question: [c] is
    one of the [sep]-separated entries of [s] exactly when [sep c sep] occurs
    in [sep s sep]. *)
Lemma split_on_elem sep c s :
  sep ∉ c →
  c ∈ split_on sep s ↔ contains (sep :: c ++ [sep]) (sep :: s ++ [sep]) = true.
Proof.
  intros Hc. remember (length s) as n eqn:Hn. revert s Hn.
  induction (lt_wf n) as [n _ IH]. intros s ->.
  assert (Hlast : contains (sep :: c ++ [sep]) [sep] = false).
  { apply not_true_iff_false. rewrite contains_spec. intros [a [b E]].
    apply (f_equal length) in E. rewrite !length_app in E. simpl in E.
    rewrite !length_app in E. simpl in E. lia. }
  destruct (split_first_sep sep s) as [Hs|[f [t [-> Hf]]]].
  - rewrite split_on_plain, list_elem_of_singleton, contains_wrapped, Hlast by done. naive_solver.
  - rewrite split_on_app, elem_of_cons, <- app_assoc, <- app_comm_cons by done.
    rewrite contains_wrapped by done. rewrite <- IH with (y := length t); [done| |done].
    rewrite length_app. simpl. lia.
Qed.

Lemma split_on_length sep f s : f ∈ split_on sep s → (length f ≤ length s)%nat.
Proof.
  revert f. induction s as [|r s IH]; intros f; simpl.
  - intros ->%list_elem_of_singleton. done.
  - case_bool_decide.
    + rewrite elem_of_cons. intros [->|Hf]; simpl; [lia|]. apply IH in Hf. lia.
    + destruct (split_on sep s) as [|g gs] eqn:E.
      * intros ->%list_elem_of_singleton. simpl. lia.
      * rewrite elem_of_cons. intros [->|Hf]; simpl.
        -- apply le_n_S, IH. left.
        -- etrans; [apply IH; by right|lia].
Qed.

Lemma contains_length sub s : contains sub s = true → (length sub ≤ length s)%nat.
Proof. rewrite contains_spec. intros [a [b ->]]. rewrite !length_app. lia. Qed.

Lemma split_first_app sep (a b : text) : sep ∉ a → split_first sep (a ++ sep :: b) = (a, Some b).
Proof.
  induction a as [|c a IH]; simpl; intros Hs; [by rewrite bool_decide_true|].
  apply not_elem_of_cons in Hs as [Hc Ha]. rewrite bool_decide_false by done. by rewrite IH.
Qed.

Lemma has_prefix_app pre s : has_prefix pre (pre ++ s) = true.
Proof. apply has_prefix_spec. by exists s. Qed.

(** ** Lexicographic order

    The order of strings, and of the keys of a sorted query. *)

Fixpoint lex_le (a b : list Z) : bool :=
  match a, b with
  | [], _ => true
  | _ :: _, [] => false
  | x :: a', y :: b' => if bool_decide (x = y) then lex_le a' b' else bool_decide (x < y)
  end.

Lemma lex_le_total a b : lex_le a b = true ∨ lex_le b a = true.
Proof.
  revert b. induction a as [|x a IH]; intros [|y b]; simpl; auto.
  repeat case_bool_decide; auto; lia.
Qed.

Lemma lex_le_antisym a b : lex_le a b = true → lex_le b a = true → a = b.
Proof.
  revert b. induction a as [|x a IH]; intros [|y b]; simpl; try done.
  destruct (decide (x = y)) as [->|Hne].
  - rewrite !bool_decide_true by done. intros ??. f_equal. by apply IH.
  - rewrite (bool_decide_false (x = y)), (bool_decide_false (y = x)) by congruence.
    rewrite !bool_decide_eq_true. lia.
Qed.

Lemma lex_le_trans a b c : lex_le a b = true → lex_le b c = true → lex_le a c = true.
Proof.
  revert b c. induction a as [|x a IH]; intros [|y b] [|z c]; simpl; auto; try done.
  intros H1 H2. repeat case_bool_decide; try lia; try done; subst; eauto; try lia.
Qed.

(** ** Decimal numbers *)

Lemma digits_value_app s t acc v : digits_value acc s = Some v → digits_value acc (s ++ t) = digits_value v t.
Proof.
  revert acc. induction s as [|r s IH]; intros acc; simpl; [by intros [= ->]|].
  destruct (is_digit r); [apply IH|done].
Qed.

Lemma digits_of_nat_value fuel z acc v :
  0 ≤ z < 10 ^ Z.of_nat fuel → digits_value z acc = Some v → (0 < fuel)%nat → digits_value 0 (digits_of_nat fuel z acc) = Some v.
Proof.
  revert z acc. induction fuel as [|n IH]; intros z acc Hz Hv Hf; [lia|]. cbn [digits_of_nat].
  assert (Hr : is_digit (48 + z mod 10) = true).
  { unfold is_digit. apply bool_decide_true. pose proof (Z.mod_pos_bound z 10). lia. }
  rewrite Nat2Z.inj_succ, Z.pow_succ_r in Hz by lia.
  assert (Hs : digits_value (z / 10) ((48 + z mod 10) :: acc) = Some v).
  { cbn [digits_value]. rewrite Hr. rewrite <- Hv. f_equal. Z.to_euclidean_division_equations. lia. }
  case_bool_decide as Hb; [by rewrite (Z.div_small z 10) in Hs by lia|].
  apply IH; [|done|].
  - split; [apply Z.div_pos; lia|apply Z.div_lt_upper_bound; lia].
  - destruct n; [change (10 ^ Z.of_nat 0) with 1 in Hz; lia|lia].
Qed.

Lemma digits_of_nat_cons fuel z acc : (0 < fuel)%nat → 0 ≤ z → ∃ r rest, digits_of_nat fuel z acc = r :: rest ∧ is_digit r = true.
Proof.
  revert z acc. induction fuel as [|n IH]; intros z acc Hf Hz; [lia|]. cbn [digits_of_nat].
  assert (Hr : is_digit (48 + z mod 10) = true).
  { unfold is_digit. apply bool_decide_true. pose proof (Z.mod_pos_bound z 10). lia. }
  case_bool_decide; [eauto|]. destruct n; [simpl; eauto|]. apply IH; [lia|apply Z.div_pos; lia].
Qed.

Lemma unsigned_Itoa z : 0 ≤ z ≤ 2 ^ 63 → unsigned_value (digits_of_nat 20 z []) = Some z.
Proof.
  intros Hz. destruct (digits_of_nat_cons 20 z []) as (r & rest & E & _); [lia..|].
  rewrite <- (digits_of_nat_value 20 z [] z) by (done || lia). by rewrite E.
Qed.

(** What [Itoa] writes [Atoi] reads. *)
Lemma Atoi_Itoa z : in_int64 z → Atoi (Itoa z) = Some z.
Proof.
  unfold in_int64, MinInt64, MaxInt64. intros Hz. unfold Atoi, Itoa. case_bool_decide as Hn.
  - rewrite unsigned_Itoa by lia. simpl. rewrite Z.opp_involutive. by rewrite bool_decide_true.
  - pose proof (unsigned_Itoa z ltac:(lia)) as Hu. destruct (digits_of_nat_cons 20 z []) as (r & rest & E & Hr); [lia..|].
    rewrite E in *. unfold is_digit in Hr. apply bool_decide_eq_true in Hr.
    assert (r ≠ 45 ∧ r ≠ 43) as [H1 H2] by lia.
    enough (match r with 45 => Z.opp <$> unsigned_value rest | 43 => unsigned_value rest | _ => unsigned_value (r :: rest) end = Some z) as ->
      by by rewrite bool_decide_true.
    repeat case_match; try done; lia.
Qed.

(** What [Itoa] writes has no dot. *)
Lemma digits_of_nat_digits fuel z acc : Forall (λ r, is_digit r = true) acc → Forall (λ r, is_digit r = true) (digits_of_nat fuel z acc).
Proof.
  revert z acc. induction fuel as [|n IH]; intros z acc Ha; [done|]. cbn [digits_of_nat].
  assert (is_digit (48 + z mod 10) = true).
  { unfold is_digit. apply bool_decide_true. pose proof (Z.mod_pos_bound z 10). lia. }
  case_bool_decide; [by constructor|]. apply IH. by constructor.
Qed.

Lemma Itoa_plain z : 46 ∉ Itoa z.
Proof.
  assert (∀ y, 46 ∉ digits_of_nat 20 y []) as Hd.
  { intros y Hin. pose proof (digits_of_nat_digits 20 y [] ltac:(constructor)) as Hf. rewrite Forall_forall in Hf.
    apply Hf in Hin. done. }
  unfold Itoa. case_bool_decide; [|apply Hd]. rewrite not_elem_of_cons. split; [done|apply Hd].
Qed.

Lemma split_at_first (c : Z) a b x y : c ∉ a → c ∉ b → a ++ c :: x = b ++ c :: y → a = b ∧ x = y.
Proof.
  revert b. induction a as [|r a IH]; intros [|s b] Ha Hb E; simplify_eq/=.
  - done.
  - exfalso. apply Hb. by left.
  - exfalso. apply Ha. by left.
  - rewrite !not_elem_of_cons in *. destruct (IH b) as [-> ->]; naive_solver.
Qed.
