(* ===== verification/GoFloat.v ===== *)
(** Go's [float64]: IEEE binary64, with 53 bits of precision. *)

From stdpp Require Import base numbers.
From Stdlib Require Import SpecFloat.

Local Open Scope Z_scope.

Abbreviation float64 := spec_float.

(** [float64(n)] *)
Definition of_int (n : Z) : float64 := binary_normalize 53 1024 n 0 false.

Definition fdiv : float64 → float64 → float64 := SFdiv 53 1024.
Definition flt : float64 → float64 → bool := SFltb.
Definition fle : float64 → float64 → bool := SFleb.
Definition feq : float64 → float64 → bool := SFeqb.

Definition is_nan (f : float64) : bool := match f with S754_nan => true | _ => false end.
Definition is_inf (f : float64) : bool := match f with S754_infinity _ => true | _ => false end.
Definition is_zero (f : float64) : bool := match f with S754_zero _ => true | _ => false end.

Lemma feq_nan f : feq S754_nan f = false ∧ feq f S754_nan = false.
Proof. by destruct f. Qed.

(** [NaN] is the only number that differs from itself. *)
Lemma feq_refl f : feq f f = negb (is_nan f).
Proof.
  destruct f as [s|s| |s m e]; try done; destruct s; try done; unfold feq, SFeqb; simpl;
    by rewrite Z.compare_refl, ?Pos.compare_cont_refl.
Qed.
