(* ===== verification/GoBytes.v ===== *)
(** Byte strings with the functions of [encoding/base64], [encoding/binary],
    [crypto/sha256] and [crypto/hmac] that the components use. *)

From stdpp Require Import base numbers list strings sets.
From S2P Require Import Prelude GoText.

Local Open Scope Z_scope.

Abbreviation bytes := (list Z).

Definition is_byte (z : Z) : Prop := 0 ≤ z < 256.

#[export] Instance is_byte_dec z : Decision (is_byte z).
Proof. unfold is_byte. apply _. Defined.

(** ** Base64

    An encoding has an alphabet and may pad its last quantum. *)

Record base64_encoding := { b64_62 : Z; b64_63 : Z; b64_pad : bool }.

Definition StdEncoding : base64_encoding := {| b64_62 := 43; b64_63 := 47; b64_pad := true |}.
Definition RawURLEncoding : base64_encoding := {| b64_62 := 45; b64_63 := 95; b64_pad := false |}.

Definition b64_char (e : base64_encoding) (v : Z) : Z :=
  if bool_decide (v < 26) then 65 + v
  else if bool_decide (v < 52) then 97 + (v - 26)
  else if bool_decide (v < 62) then 48 + (v - 52)
  else if bool_decide (v = 62) then b64_62 e else b64_63 e.

Definition b64_value (e : base64_encoding) (c : Z) : option Z :=
  if bool_decide (65 ≤ c ≤ 90) then Some (c - 65)
  else if bool_decide (97 ≤ c ≤ 122) then Some (c - 97 + 26)
  else if bool_decide (48 ≤ c ≤ 57) then Some (c - 48 + 52)
  else if bool_decide (c = b64_62 e) then Some 62
  else if bool_decide (c = b64_63 e) then Some 63 else None.

Definition pad_with (e : base64_encoding) (n : nat) : bytes := if b64_pad e then replicate n 61 else [].

(** [EncodeToString] *)
Fixpoint b64_encode (e : base64_encoding) (b : bytes) : bytes :=
  match b with
  | x :: y :: z :: rest =>
    b64_char e (x / 4) :: b64_char e (x mod 4 * 16 + y / 16) :: b64_char e (y mod 16 * 4 + z / 64)
    :: b64_char e (z mod 64) :: b64_encode e rest
  | [x; y] => [b64_char e (x / 4); b64_char e (x mod 4 * 16 + y / 16); b64_char e (y mod 16 * 4)] ++ pad_with e 1
  | [x] => [b64_char e (x / 4); b64_char e (x mod 4 * 16)] ++ pad_with e 2
  | [] => []
  end.

(** The bytes of a whole quantum, and of a last one of two or three digits; bits
    that are left over are dropped. *)
Definition quantum3 (p q r s : Z) : bytes := [p * 4 + q / 16; q mod 16 * 16 + r / 4; r mod 4 * 64 + s].
Definition quantum2 (p q r : Z) : bytes := [p * 4 + q / 16; q mod 16 * 16 + r / 4].
Definition quantum1 (p q : Z) : bytes := [p * 4 + q / 16].

Fixpoint b64_quanta (e : base64_encoding) (s : bytes) : option bytes :=
  match s with
  | [] => Some []
  | a :: b :: c :: d :: rest =>
    p ← b64_value e a; q ← b64_value e b;
    match b64_value e c, b64_value e d with
    | Some r, Some s => (quantum3 p q r s ++.) <$> b64_quanta e rest
    | Some r, None => if (b64_pad e && bool_decide (d = 61) && bool_decide (rest = []))%bool then Some (quantum2 p q r) else None
    | None, None =>
      if (b64_pad e && bool_decide (c = 61) && bool_decide (d = 61) && bool_decide (rest = []))%bool
      then Some (quantum1 p q) else None
    | None, Some _ => None
    end
  | [a; b; c] => if b64_pad e then None else p ← b64_value e a; q ← b64_value e b; r ← b64_value e c; Some (quantum2 p q r)
  | [a; b] => if b64_pad e then None else p ← b64_value e a; q ← b64_value e b; Some (quantum1 p q)
  | [_] => None
  end.

(** [DecodeString]: line ends are skipped wherever they are. *)
Definition b64_decode (e : base64_encoding) (s : bytes) : option bytes :=
  b64_quanta e (List.filter (λ c, negb (bool_decide (c = LF) || bool_decide (c = CR))) s).

(** *** Round trip *)

Section base64.
Context (e : base64_encoding).

(** Every digit is read back, and none is padding or a line end. *)
Definition b64_sane : bool :=
  forallb (λ v, (bool_decide (b64_value e (b64_char e v) = Some v) && negb (bool_decide (b64_char e v ∈ [61; LF; CR])))%bool)
    (seqZ 0 64).

Context (He : b64_sane = true).

Lemma b64_digit v : 0 ≤ v < 64 → b64_value e (b64_char e v) = Some v ∧ b64_char e v ≠ LF ∧ b64_char e v ≠ CR.
Proof.
  intros Hv. unfold b64_sane in He. rewrite forallb_forall in He.
  specialize (He v). rewrite <- list_elem_of_In, elem_of_seqZ in He. apply andb_true_iff in He as [E Hn]; [|lia].
  bool_to_prop. split; [done|]. split; intros E'; apply Hn; rewrite E'; set_solver.
Qed.

(** Induction by quanta of three. *)
Lemma bytes3_ind (P : bytes → Prop) :
  P [] → (∀ x, P [x]) → (∀ x y, P [x; y]) → (∀ x y z b, P b → P (x :: y :: z :: b)) → ∀ b, P b.
Proof. intros H0 H1 H2 H3. fix IH 1. intros [|x [|y [|z b]]]; [done..|]. by apply H3. Qed.

Definition plain_char (c : Z) : Prop := c ≠ LF ∧ c ≠ CR.

Ltac euclid := Z.to_euclidean_division_equations; lia.

(** The digits of a quantum, written and read. *)
Lemma digits_of x y z : is_byte x → is_byte y → is_byte z →
  (0 ≤ x / 4 < 64 ∧ 0 ≤ x mod 4 * 16 < 64 ∧ 0 ≤ x mod 4 * 16 + y / 16 < 64 ∧ 0 ≤ y mod 16 * 4 < 64 ∧
   0 ≤ y mod 16 * 4 + z / 64 < 64 ∧ 0 ≤ z mod 64 < 64).
Proof. unfold is_byte. intros. split_and!; euclid. Qed.

Lemma quantum_bytes x y z : is_byte x → is_byte y → is_byte z →
  quantum3 (x / 4) (x mod 4 * 16 + y / 16) (y mod 16 * 4 + z / 64) (z mod 64) = [x; y; z] ∧
  quantum2 (x / 4) (x mod 4 * 16 + y / 16) (y mod 16 * 4) = [x; y] ∧ quantum1 (x / 4) (x mod 4 * 16) = [x].
Proof. unfold is_byte, quantum3, quantum2, quantum1. intros. split_and!; repeat f_equal; euclid. Qed.

(** What the digits and the padding satisfy, the whole encoding does. *)
Lemma b64_encode_chars (P : Z → Prop) b :
  (∀ v, 0 ≤ v < 64 → P (b64_char e v)) → P 61 → Forall is_byte b → Forall P (b64_encode e b).
Proof.
  intros Hc H61. assert (is_byte 0) as H0 by (unfold is_byte; lia).
  assert (∀ n, Forall P (pad_with e n)) as Hp.
  { intros n. unfold pad_with. destruct (b64_pad e); [by apply Forall_replicate|done]. }
  induction b as [|x|x y|x y z b IH] using bytes3_ind; rewrite ?Forall_cons; intros Hb; cbn [b64_encode]; [constructor|..].
  - destruct Hb as [Hx _]. destruct (digits_of x 0 0) as (? & ? & _); [done..|]. rewrite Forall_app, !Forall_cons. auto.
  - destruct Hb as (Hx & Hy & _). destruct (digits_of x y 0) as (? & ? & ? & ? & _); [done..|].
    rewrite Forall_app, !Forall_cons. auto 6.
  - destruct Hb as (Hx & Hy & Hz & Hb). destruct (digits_of x y z) as (? & ? & ? & ? & ? & ?); [done..|].
    rewrite !Forall_cons. auto 8.
Qed.

Lemma b64_encode_plain b : Forall is_byte b → Forall plain_char (b64_encode e b).
Proof. apply b64_encode_chars; [|done]. intros v Hv. by apply b64_digit in Hv as [_ ?]. Qed.

Lemma b64_value_pad : b64_value e 61 = None ↔ 61 ≠ b64_62 e ∧ 61 ≠ b64_63 e.
Proof. unfold b64_value. repeat case_bool_decide; try lia; naive_solver. Qed.

Lemma b64_quanta_encode b : b64_value e 61 = None → Forall is_byte b → b64_quanta e (b64_encode e b) = Some b.
Proof.
  intros Hp. assert (∀ v, 0 ≤ v < 64 → b64_value e (b64_char e v) = Some v) as Hc by (intros v Hv; by apply b64_digit).
  assert (is_byte 0) as H0 by (unfold is_byte; lia).
  induction b as [|x|x y|x y z b IH] using bytes3_ind; rewrite ?Forall_cons; intros Hb; cbn [b64_encode]; [done|..].
  - destruct Hb as [Hx _]. destruct (digits_of x 0 0) as (? & ? & _); [done..|]. destruct (quantum_bytes x 0 0) as (_ & _ & Hq); [done..|].
    unfold pad_with. destruct (b64_pad e) eqn:E; cbn [replicate app b64_quanta].
    + rewrite !Hc, !Hp by done. cbn [mbind option_bind]. rewrite E, !bool_decide_true by done. simpl. by rewrite Hq.
    + rewrite E, !Hc by done. cbn [mbind option_bind]. by rewrite Hq.
  - destruct Hb as (Hx & Hy & _). destruct (digits_of x y 0) as (? & ? & ? & ? & _); [done..|].
    destruct (quantum_bytes x y 0) as (_ & Hq & _); [done..|].
    unfold pad_with. destruct (b64_pad e) eqn:E; cbn [replicate app b64_quanta].
    + rewrite !Hc, !Hp by done. cbn [mbind option_bind]. rewrite E, !bool_decide_true by done. simpl. by rewrite Hq.
    + rewrite E, !Hc by done. cbn [mbind option_bind]. by rewrite Hq.
  - destruct Hb as (Hx & Hy & Hz & Hb). destruct (digits_of x y z) as (? & ? & ? & ? & ? & ?); [done..|].
    destruct (quantum_bytes x y z) as (Hq & _); [done..|]. cbn [b64_quanta].
    rewrite !Hc, IH by done. cbn [mbind option_bind fmap option_fmap option_map]. by rewrite Hq.
Qed.

Lemma b64_round_trip b : b64_value e 61 = None → Forall is_byte b → b64_decode e (b64_encode e b) = Some b.
Proof.
  intros Hp Hb. unfold b64_decode. rewrite filter_bool_all; [by apply b64_quanta_encode|].
  eapply Forall_impl; [by apply b64_encode_plain|]. intros c [H1 H2]. by rewrite !bool_decide_false by done.
Qed.
End base64.

Lemma Std_round_trip b : Forall is_byte b → b64_decode StdEncoding (b64_encode StdEncoding b) = Some b.
Proof. by apply b64_round_trip. Qed.

Lemma RawURL_round_trip b : Forall is_byte b → b64_decode RawURLEncoding (b64_encode RawURLEncoding b) = Some b.
Proof. by apply b64_round_trip. Qed.

Lemma Std_length b : Z.of_nat (length (b64_encode StdEncoding b)) = (Z.of_nat (length b) + 2) / 3 * 4.
Proof.
  induction b as [|x|x y|x y z b IH] using bytes3_ind; [done..|]. cbn [b64_encode length].
  rewrite !Nat2Z.inj_succ, IH. Z.to_euclidean_division_equations. lia.
Qed.

Lemma RawURL_length b : Z.of_nat (length (b64_encode RawURLEncoding b)) = (Z.of_nat (length b) * 4 + 2) / 3.
Proof.
  induction b as [|x|x y|x y z b IH] using bytes3_ind; [done..|]. cbn [b64_encode length].
  rewrite !Nat2Z.inj_succ, IH. Z.to_euclidean_division_equations. lia.
Qed.

Lemma b64_ascii e b : 0 ≤ b64_62 e < 128 → 0 ≤ b64_63 e < 128 → Forall is_byte b → Forall (λ r, 0 ≤ r < 128) (b64_encode e b).
Proof.
  intros H62 H63. apply b64_encode_chars; [|lia].
  intros v Hv. unfold b64_char. repeat case_bool_decide; try done; lia.
Qed.

(** Decoding does not lengthen. *)
Lemma b64_quanta_length e s b : b64_quanta e s = Some b → (length b ≤ length s)%nat.
Proof.
  revert s b. fix IH 1. intros [|x [|y [|z [|t s]]]] b; cbn [b64_quanta].
  - by intros [= <-].
  - done.
  - destruct (b64_pad e); [done|]. destruct (b64_value e x), (b64_value e y); try done. intros [= <-]. simpl. lia.
  - destruct (b64_pad e); [done|]. destruct (b64_value e x), (b64_value e y), (b64_value e z); try done. intros [= <-]. simpl. lia.
  - destruct (b64_value e x), (b64_value e y); try done. cbn [mbind option_bind].
    destruct (b64_value e z), (b64_value e t); try done.
    + destruct (b64_quanta e s) as [r|] eqn:E; [|done]. intros [= <-]. apply IH in E. simpl. lia.
    + case_match; [|done]. intros [= <-]. simpl. lia.
    + case_match; [|done]. intros [= <-]. simpl. lia.
Qed.

Lemma b64_decode_length e s b : b64_decode e s = Some b → (length b ≤ length s)%nat.
Proof. unfold b64_decode. intros H. apply b64_quanta_length in H. etrans; [exact H|]. apply length_filter_le. Qed.

(** ** Big-endian integers ([binary.BigEndian]) *)

Fixpoint be_bytes (n : nat) (z : Z) : bytes :=
  match n with
  | O => []
  | S m => be_bytes m (z / 256) ++ [z mod 256]
  end.

Definition be64 (z : Z) : bytes := be_bytes 8 z.
Definition be32 (z : Z) : bytes := be_bytes 4 z.

Definition be_value (b : bytes) : Z := fold_left (λ acc x, acc * 256 + x) b 0.

Lemma be_bytes_length n z : length (be_bytes n z) = n.
Proof. revert z. induction n as [|n IH]; intros z; [done|]. simpl. rewrite length_app, IH. simpl. lia. Qed.

Lemma be_bytes_ok n z : Forall is_byte (be_bytes n z).
Proof.
  revert z. induction n as [|n IH]; intros z; [constructor|]. simpl. apply Forall_app. split; [apply IH|].
  repeat constructor; apply Z.mod_pos_bound; lia.
Qed.

Lemma be_value_bytes n z : 0 ≤ z < 256 ^ Z.of_nat n → be_value (be_bytes n z) = z.
Proof.
  unfold be_value. revert z. induction n as [|n IH]; intros z Hz; [simpl in *; lia|].
  cbn [be_bytes]. rewrite fold_left_app. rewrite Nat2Z.inj_succ, Z.pow_succ_r in Hz by lia.
  rewrite IH; [simpl; Z.to_euclidean_division_equations; lia|].
  split; [apply Z.div_pos; lia|]. apply Z.div_lt_upper_bound; lia.
Qed.

Lemma be64_inj x y : 0 ≤ x < 2 ^ 64 → 0 ≤ y < 2 ^ 64 → be64 x = be64 y → x = y.
Proof. intros Hx Hy E. rewrite <- (be_value_bytes 8 x), <- (be_value_bytes 8 y) by done. unfold be64 in E. by rewrite E. Qed.

(** ** SHA-256 (FIPS 180-4) *)

Definition w32 (z : Z) : Z := z mod 2 ^ 32.
Definition add32 (x y : Z) : Z := w32 (x + y).
Definition rotr (n x : Z) : Z := Z.lor (Z.shiftr x n) (w32 (Z.shiftl x (32 - n))).
Definition xor3 (x y z : Z) : Z := Z.lxor (Z.lxor x y) z.

(** The constants of the standard are the first 32 fractional bits of square and
    cube roots of the first primes. *)
Definition prime (n : Z) : bool :=
  (bool_decide (1 < n) && forallb (λ d, negb (bool_decide (n mod d = 0))) (seqZ 2 (n - 2)))%bool.

Definition first_primes (n : nat) : list Z := take n (List.filter prime (seqZ 2 310)).

(** The largest [x] of [bits] bits with [x ^ 3 ≤ n], bit by bit. *)
Fixpoint cube_root (bits : nat) (x n : Z) : Z :=
  match bits with
  | O => x
  | S b => let y := x + 2 ^ Z.of_nat b in cube_root b (if bool_decide (y ^ 3 ≤ n) then y else x) n
  end.

Definition sha_k : list Z := Eval vm_compute in
  (λ p, w32 (cube_root 36 0 (p * 2 ^ 96))) <$> first_primes 64.

Record sha_state := Sha { sa : Z; sb : Z; sc : Z; sd : Z; se : Z; sf : Z; sg : Z; sh : Z }.

Definition sha_init : sha_state := Eval vm_compute in
  let h i := w32 (Z.sqrt (nth i (first_primes 8) 0 * 2 ^ 64)) in
  Sha (h 0%nat) (h 1%nat) (h 2%nat) (h 3%nat) (h 4%nat) (h 5%nat) (h 6%nat) (h 7%nat).

Definition sha_round (s : sha_state) (kw : Z * Z) : sha_state :=
  let '(Sha a b c d e f g h) := s in
  let S1 := xor3 (rotr 6 e) (rotr 11 e) (rotr 25 e) in
  let ch := Z.lxor (Z.land e f) (Z.land (Z.lxor e (2 ^ 32 - 1)) g) in
  let t1 := w32 (h + S1 + ch + kw.1 + kw.2) in
  let S0 := xor3 (rotr 2 a) (rotr 13 a) (rotr 22 a) in
  let maj := xor3 (Z.land a b) (Z.land a c) (Z.land b c) in
  Sha (w32 (t1 + S0 + maj)) a b c (add32 d t1) e f g.

(** The message schedule, latest word first. *)
Definition sha_next (ws : list Z) : Z :=
  let w i := nth i ws 0 in
  let s0 := xor3 (rotr 7 (w 14%nat)) (rotr 18 (w 14%nat)) (Z.shiftr (w 14%nat) 3) in
  let s1 := xor3 (rotr 17 (w 1%nat)) (rotr 19 (w 1%nat)) (Z.shiftr (w 1%nat) 10) in
  w32 (w 15%nat + s0 + w 6%nat + s1).

Definition sha_schedule (block : list Z) : list Z :=
  rev (Nat.iter 48 (λ ws, sha_next ws :: ws) (rev block)).

Definition sha_block (s : sha_state) (block : list Z) : sha_state :=
  let t := fold_left sha_round (zip sha_k (sha_schedule block)) s in
  Sha (add32 (sa s) (sa t)) (add32 (sb s) (sb t)) (add32 (sc s) (sc t)) (add32 (sd s) (sd t))
      (add32 (se s) (se t)) (add32 (sf s) (sf t)) (add32 (sg s) (sg t)) (add32 (sh s) (sh t)).

Fixpoint words32 (b : bytes) : list Z :=
  match b with
  | x :: y :: z :: t :: rest => be_value [x; y; z; t] :: words32 rest
  | _ => []
  end.

(** Blocks of sixteen words; as much fuel as there are words is enough. *)
Fixpoint sha_blocks (fuel : nat) (s : sha_state) (ws : list Z) : sha_state :=
  match fuel, ws with
  | S n, _ :: _ => sha_blocks n (sha_block s (take 16 ws)) (drop 16 ws)
  | _, _ => s
  end.

Definition sha_pad (m : bytes) : bytes :=
  let l := Z.of_nat (length m) in
  m ++ [128] ++ replicate (Z.to_nat ((55 - l) mod 64)) 0 ++ be64 (8 * l).

(** [sha256.Sum256] *)
Definition sha256 (m : bytes) : bytes :=
  let ws := words32 (sha_pad m) in
  let '(Sha a b c d e f g h) := sha_blocks (length ws) sha_init ws in
  be32 a ++ be32 b ++ be32 c ++ be32 d ++ be32 e ++ be32 f ++ be32 g ++ be32 h.

Lemma sha256_length m : length (sha256 m) = 32%nat.
Proof. unfold sha256, be32. destruct (sha_blocks _ _ _). by rewrite !length_app, !be_bytes_length. Qed.

Lemma sha256_bytes m : Forall is_byte (sha256 m).
Proof. unfold sha256, be32. destruct (sha_blocks _ _ _). rewrite !Forall_app. split_and!; apply be_bytes_ok. Qed.

Example sha256_abc :
  hex_encode (sha256 (txt "abc")) = txt "ba7816bf8f01cfea414140de5dae2223b00361a396177a9cb410ff61f20015ad".
Proof. vm_compute. reflexivity. Qed.

Example sha256_two_blocks :
  hex_encode (sha256 (txt "abcdbcdecdefdefgefghfghighijhijkijkljklmklmnlmnomnopnopq")) =
  txt "248d6a61d20638b8e5c026930c3e6039a33ce45964ff2167f6ecedd419db06c1".
Proof. vm_compute. reflexivity. Qed.

(** ** HMAC-SHA256 (RFC 2104): [hmac.New(sha256.New, key)], [Write], [Sum] *)

Definition hmac_key (key : bytes) : bytes :=
  let k := if bool_decide (64 < length key)%nat then sha256 key else key in
  k ++ replicate (64 - length k) 0.

Definition hmac_sha256 (key msg : bytes) : bytes :=
  let k := hmac_key key in
  sha256 (map (Z.lxor 0x5c) k ++ sha256 (map (Z.lxor 0x36) k ++ msg)).

Lemma hmac_length key msg : length (hmac_sha256 key msg) = 32%nat.
Proof. apply sha256_length. Qed.

Lemma hmac_bytes key msg : Forall is_byte (hmac_sha256 key msg).
Proof. apply sha256_bytes. Qed.

(** The second test case of RFC 4231. *)
Example hmac_rfc4231 :
  hex_encode (hmac_sha256 (txt "Jefe") (txt "what do ya want for nothing?")) =
  txt "5bdcc146bf60754e6a042426089575c75a003f089d2739839dec58b964ec3843".
Proof. vm_compute. reflexivity. Qed.
