(* ===== verification/GoJSON.v ===== *)
(** UTF-8 and [encoding/json], as far as the components use them: the decoder's
    grammar, the encoder's escapes, and the reading of an object into a struct.

    A document is parsed on code points: bytes that are not UTF-8 decode to
    U+FFFD, as they do in the decoder, and every code point that has a meaning
    outside a string is ASCII. *)

From stdpp Require Import base numbers list strings sets.
From S2P Require Import Prelude GoText GoBytes.

Local Open Scope Z_scope.

(** ** UTF-8 *)

Definition is_scalar (r : Z) : Prop := 0 ≤ r < 0xD800 ∨ 0xE000 ≤ r < 0x110000.

#[export] Instance is_scalar_dec r : Decision (is_scalar r).
Proof. unfold is_scalar. apply _. Defined.

(** [utf8.EncodeRune] of a code point *)
Definition utf8_rune (r : Z) : bytes :=
  if bool_decide (r < 0x80) then [r]
  else if bool_decide (r < 0x800) then [192 + r / 64; 128 + r mod 64]
  else if bool_decide (r < 0x10000) then [224 + r / 4096; 128 + r / 64 mod 64; 128 + r mod 64]
  else [240 + r / 262144; 128 + r / 4096 mod 64; 128 + r / 64 mod 64; 128 + r mod 64].

(** [[]byte(s)] *)
Definition utf8_encode (s : text) : bytes := s ≫= utf8_rune.

Definition RuneError : Z := 0xFFFD.

Definition is_cont (b : Z) : bool := bool_decide (128 ≤ b < 192).

Definition rune2 (a b : Z) : option Z :=
  let r := (a - 192) * 64 + (b - 128) in
  if (bool_decide (192 ≤ a < 224) && is_cont b && bool_decide (128 ≤ r))%bool then Some r else None.

Definition rune3 (a b c : Z) : option Z :=
  let r := (a - 224) * 4096 + (b - 128) * 64 + (c - 128) in
  if (bool_decide (224 ≤ a < 240) && is_cont b && is_cont c && bool_decide (2048 ≤ r) && bool_decide (is_scalar r))%bool
  then Some r else None.

Definition rune4 (a b c d : Z) : option Z :=
  let r := (a - 240) * 262144 + (b - 128) * 4096 + (c - 128) * 64 + (d - 128) in
  if (bool_decide (240 ≤ a < 248) && is_cont b && is_cont c && is_cont d && bool_decide (65536 ≤ r < 0x110000))%bool
  then Some r else None.

(** [utf8.DecodeRune], over a whole string: a byte that starts no rune is one
    [RuneError]. *)
Fixpoint utf8_decode (s : bytes) : text :=
  match s with
  | [] => []
  | a :: s0 =>
    if bool_decide (a < 128) then a :: utf8_decode s0 else
    match s0 with
    | b :: s1 =>
      match rune2 a b with Some r => r :: utf8_decode s1 | None =>
      match s1 with
      | c :: s2 =>
        match rune3 a b c with Some r => r :: utf8_decode s2 | None =>
        match s2 with
        | d :: s3 => match rune4 a b c d with Some r => r :: utf8_decode s3 | None => RuneError :: utf8_decode s0 end
        | [] => RuneError :: utf8_decode s0
        end end
      | [] => RuneError :: utf8_decode s0
      end end
    | [] => RuneError :: utf8_decode s0
    end
  end.

Ltac euclid := Z.to_euclidean_division_equations; lia.

Lemma rune2_ok r : 128 ≤ r < 2048 → rune2 (192 + r / 64) (128 + r mod 64) = Some r.
Proof.
  intros Hr. assert (E : (192 + r / 64 - 192) * 64 + (128 + r mod 64 - 128) = r) by euclid.
  unfold rune2, is_cont. rewrite E, !bool_decide_true by euclid. done.
Qed.

Lemma rune3_ok r : 2048 ≤ r < 65536 → is_scalar r → rune3 (224 + r / 4096) (128 + r / 64 mod 64) (128 + r mod 64) = Some r.
Proof.
  intros Hr Hs. assert (E : (224 + r / 4096 - 224) * 4096 + (128 + r / 64 mod 64 - 128) * 64 + (128 + r mod 64 - 128) = r) by euclid.
  unfold rune3, is_cont. rewrite E, (bool_decide_true (is_scalar r)) by done. rewrite !bool_decide_true by euclid. done.
Qed.

Lemma rune4_ok r : 65536 ≤ r < 0x110000 →
  rune4 (240 + r / 262144) (128 + r / 4096 mod 64) (128 + r / 64 mod 64) (128 + r mod 64) = Some r.
Proof.
  intros Hr. assert (E : (240 + r / 262144 - 240) * 262144 + (128 + r / 4096 mod 64 - 128) * 4096
              + (128 + r / 64 mod 64 - 128) * 64 + (128 + r mod 64 - 128) = r) by euclid.
  unfold rune4, is_cont. rewrite E, !bool_decide_true by euclid. done.
Qed.

Lemma rune2_high a b : 224 ≤ a → rune2 a b = None.
Proof. intros. unfold rune2. by rewrite bool_decide_false by lia. Qed.

Lemma rune3_high a b c : 240 ≤ a → rune3 a b c = None.
Proof. intros. unfold rune3. by rewrite bool_decide_false by lia. Qed.

Lemma utf8_decode_rune r s : is_scalar r → utf8_decode (utf8_rune r ++ s) = r :: utf8_decode s.
Proof.
  intros Hr. pose proof Hr as Hr'. unfold is_scalar in Hr'. unfold utf8_rune. repeat case_bool_decide; cbn [app utf8_decode].
  - by rewrite bool_decide_true.
  - rewrite bool_decide_false by euclid. by rewrite rune2_ok by lia.
  - rewrite bool_decide_false, rune2_high by euclid. rewrite rune3_ok; [done|lia|done].
  - rewrite bool_decide_false, rune2_high, rune3_high by euclid. by rewrite rune4_ok by lia.
Qed.

Lemma utf8_round_trip s : Forall is_scalar s → utf8_decode (utf8_encode s) = s.
Proof.
  induction 1 as [|r s Hr _ IH]; [done|]. unfold utf8_encode in *. cbn [mbind list_bind].
  rewrite utf8_decode_rune by done. by rewrite IH.
Qed.

Lemma utf8_rune_bytes r : is_scalar r → Forall is_byte (utf8_rune r).
Proof.
  unfold is_scalar, utf8_rune, is_byte. intros Hr.
  repeat case_bool_decide; repeat constructor; euclid.
Qed.

Lemma utf8_encode_bytes s : Forall is_scalar s → Forall is_byte (utf8_encode s).
Proof. induction 1; [constructor|]. cbn. apply Forall_app. split; [by apply utf8_rune_bytes|done]. Qed.

Lemma utf8_encode_ascii s : Forall (λ r, 0 ≤ r < 128) s → utf8_encode s = s.
Proof.
  induction 1 as [|r s Hr _ IH]; [done|]. unfold utf8_encode in *. cbn [mbind list_bind]. rewrite IH.
  unfold utf8_rune. by rewrite bool_decide_true by lia.
Qed.

(** ** Documents

    A number is its literal; the decoder converts it when it knows the type. *)

#[warnings="-register-all"]
Inductive json :=
| JNull
| JBool (b : bool)
| JNum (lit : text)
| JStr (s : text)
| JArr (l : list json)
| JObj (members : list (text * json)).

(** *** Writing: [json.Marshal] escapes HTML as it does by default *)

Definition u_escape (r : Z) : text := txt "\u" ++ hex_encode [r / 256; r mod 256].

Definition json_escape (r : Z) : text :=
  if bool_decide (r = 34) then txt "\" ++ [34]
  else if bool_decide (r = 92) then txt "\\"
  else if bool_decide (r = 8) then txt "\b"
  else if bool_decide (r = 9) then txt "\t"
  else if bool_decide (r = 10) then txt "\n"
  else if bool_decide (r = 12) then txt "\f"
  else if bool_decide (r = 13) then txt "\r"
  else if bool_decide (r < 32) then u_escape r
  else if bool_decide (r ∈ [38; 60; 62; 8232; 8233]) then u_escape r
  else [r].

Definition json_quote (s : text) : text := [34] ++ (s ≫= json_escape) ++ [34].

Fixpoint commas (l : list text) : text :=
  match l with
  | [] => []
  | [x] => x
  | x :: rest => x ++ [44] ++ commas rest
  end.

Fixpoint json_print (j : json) : text :=
  match j with
  | JNull => txt "null"
  | JBool b => if b then txt "true" else txt "false"
  | JNum lit => lit
  | JStr s => json_quote s
  | JArr l => [91] ++ commas (map json_print l) ++ [93]
  | JObj l => [123] ++ commas (map (λ '(k, v), json_quote k ++ [58] ++ json_print v) l) ++ [125]
  end.

(** *** Reading *)

Definition is_ws (r : Z) : bool := bool_decide (r ∈ [32; 9; 13; 10]).

Definition hex_value (r : Z) : option Z :=
  if bool_decide (48 ≤ r ≤ 57) then Some (r - 48)
  else if bool_decide (97 ≤ r ≤ 102) then Some (r - 87)
  else if bool_decide (65 ≤ r ≤ 70) then Some (r - 55) else None.

Definition hex4 (a b c d : Z) : option Z :=
  p ← hex_value a; q ← hex_value b; r ← hex_value c; s ← hex_value d; Some (p * 4096 + q * 256 + r * 16 + s).

(** The character after a backslash, other than [u]. *)
Definition unescape (r : Z) : option Z :=
  if bool_decide (r ∈ [34; 92; 47]) then Some r
  else if bool_decide (r = 98) then Some 8
  else if bool_decide (r = 102) then Some 12
  else if bool_decide (r = 110) then Some 10
  else if bool_decide (r = 114) then Some 13
  else if bool_decide (r = 116) then Some 9 else None.

(** [utf16.DecodeRune] of two halves, when they are a pair *)
Definition utf16_pair (hi lo : Z) : option Z :=
  if (bool_decide (0xD800 ≤ hi < 0xDC00) && bool_decide (0xDC00 ≤ lo < 0xE000))%bool
  then Some ((hi - 0xD800) * 1024 + (lo - 0xDC00) + 0x10000) else None.

Definition cons_string (r : Z) (o : option (text * text)) : option (text * text) :=
  '(s, rest) ← o; Some (r :: s, rest).

(** What follows the opening quote: the string and the input after the closing
    quote.  A half of a surrogate pair on its own is [RuneError]. *)
Fixpoint scan_string (s : text) : option (text * text) :=
  match s with
  | [] => None
  | c :: s0 =>
    if bool_decide (c = 34) then Some ([], s0)
    else if bool_decide (c < 32) then None
    else if bool_decide (c = 92) then
      match s0 with
      | e :: s1 =>
        if bool_decide (e = 117) then
          match s1 with
          | a :: b :: c :: d :: s5 =>
            match hex4 a b c d with
            | Some r =>
              if bool_decide (0xD800 ≤ r < 0xE000) then
                match s5 with
                | bs :: u :: a' :: b' :: c' :: d' :: s11 =>
                  match (if (bool_decide (bs = 92) && bool_decide (u = 117))%bool then hex4 a' b' c' d' ≫= utf16_pair r else None) with
                  | Some p => cons_string p (scan_string s11)
                  | None => cons_string RuneError (scan_string s5)
                  end
                | _ => cons_string RuneError (scan_string s5)
                end
              else cons_string r (scan_string s5)
            | None => None
            end
          | _ => None
          end
        else match unescape e with Some r => cons_string r (scan_string s1) | None => None end
      | [] => None
      end
    else cons_string c (scan_string s0)
  end.

(** Numbers: the longest run of characters a number can have, checked against the
    grammar. *)
Definition is_num_char (r : Z) : bool := (is_digit r || bool_decide (r ∈ [43; 45; 46; 69; 101]))%bool.

Fixpoint span (p : Z → bool) (s : text) : text * text :=
  match s with
  | [] => ([], [])
  | r :: s' => if p r then let '(a, b) := span p s' in (r :: a, b) else ([], s)
  end.

Definition all_digits (s : text) : bool := (negb (is_empty s) && forallb is_digit s)%bool.

Definition valid_exponent (s : text) : bool :=
  match s with
  | [] => true
  | e :: s' =>
    (bool_decide (e ∈ [69; 101]) &&
     match s' with
     | g :: s'' => if bool_decide (g ∈ [43; 45]) then all_digits s'' else all_digits s'
     | [] => false
     end)%bool
  end.

Definition valid_number (s : text) : bool :=
  let u := match s with r :: s' => if bool_decide (r = 45) then s' else s | [] => s end in
  let '(int, rest) := span is_digit u in
  ((match int with [] => false | r :: more => negb (bool_decide (r = 48)) || is_empty more end) &&
   match rest with
   | r :: rest' =>
     if bool_decide (r = 46) then let '(frac, exp) := span is_digit rest' in negb (is_empty frac) && valid_exponent exp
     else valid_exponent rest
   | [] => true
   end)%bool.

Definition maxNestingDepth : Z := 10000.

(** Every call consumes a character before the next one: as much fuel as the
    input has characters, and one more, is enough. *)
Fixpoint parse_value (fuel : nat) (depth : Z) (s : text) : option (json * text) :=
  match fuel with
  | O => None
  | S n =>
    match trim_left is_ws s with
    | [] => None
    | c :: r =>
      if bool_decide (c = 123) then
        if bool_decide (maxNestingDepth ≤ depth) then None else
        match trim_left is_ws r with
        | c' :: r' =>
          if bool_decide (c' = 125) then Some (JObj [], r')
          else '(ms, rest) ← parse_members n (depth + 1) (c' :: r'); Some (JObj ms, rest)
        | [] => None
        end
      else if bool_decide (c = 91) then
        if bool_decide (maxNestingDepth ≤ depth) then None else
        match trim_left is_ws r with
        | c' :: r' =>
          if bool_decide (c' = 93) then Some (JArr [], r')
          else '(l, rest) ← parse_elements n (depth + 1) (c' :: r'); Some (JArr l, rest)
        | [] => None
        end
      else if bool_decide (c = 34) then '(str, rest) ← scan_string r; Some (JStr str, rest)
      else if has_prefix (txt "null") (c :: r) then Some (JNull, drop 4 (c :: r))
      else if has_prefix (txt "true") (c :: r) then Some (JBool true, drop 4 (c :: r))
      else if has_prefix (txt "false") (c :: r) then Some (JBool false, drop 5 (c :: r))
      else let '(lit, rest) := span is_num_char (c :: r) in
           if valid_number lit then Some (JNum lit, rest) else None
    end
  end
with parse_members (fuel : nat) (depth : Z) (s : text) : option (list (text * json) * text) :=
  match fuel with
  | O => None
  | S n =>
    match trim_left is_ws s with
    | q :: r =>
      if bool_decide (q = 34) then
        '(k, r1) ← scan_string r;
        match trim_left is_ws r1 with
        | col :: r2 =>
          if bool_decide (col = 58) then
            '(v, r3) ← parse_value n depth r2;
            match trim_left is_ws r3 with
            | c :: r4 =>
              if bool_decide (c = 125) then Some ([(k, v)], r4)
              else if bool_decide (c = 44) then '(ms, rest) ← parse_members n depth r4; Some ((k, v) :: ms, rest)
              else None
            | [] => None
            end
          else None
        | [] => None
        end
      else None
    | [] => None
    end
  end
with parse_elements (fuel : nat) (depth : Z) (s : text) : option (list json * text) :=
  match fuel with
  | O => None
  | S n =>
    '(v, r) ← parse_value n depth s;
    match trim_left is_ws r with
    | c :: r' =>
      if bool_decide (c = 93) then Some ([v], r')
      else if bool_decide (c = 44) then '(l, rest) ← parse_elements n depth r'; Some (v :: l, rest)
      else None
    | [] => None
    end
  end.

(** The whole input is one value. *)
Definition parse_text (s : text) : option json :=
  '(j, rest) ← parse_value (S (length s)) 0 s; if is_empty (trim_left is_ws rest) then Some j else None.

Definition json_parse (b : bytes) : option json := parse_text (utf8_decode b).

(** *** Into a struct

    A field has its JSON name and the way its value is read; [null] leaves a
    field as it is, and a value of the wrong type is an error. *)

Record field (A : Type) := Field { f_name : text; f_read : json → A → option A }.
Arguments Field {A} _ _.
Arguments f_name {A} _.
Arguments f_read {A} _ _ _.

(** [foldName]: the code points that fold to an ASCII letter *)
Definition fold_rune (r : Z) : Z :=
  if bool_decide (65 ≤ r ≤ 90) then r + 32
  else if bool_decide (r = 0x212A) then 107 else if bool_decide (r = 0x17F) then 115 else r.

Definition find_field {A} (fs : list (field A)) (k : text) : option (field A) :=
  match List.find (λ f, eqt (f_name f) k) fs with
  | Some f => Some f
  | None => List.find (λ f, eqt (map fold_rune (f_name f)) (map fold_rune k)) fs
  end.

Fixpoint read_members {A} (fs : list (field A)) (ms : list (text * json)) (a : A) : option A :=
  match ms with
  | [] => Some a
  | (k, v) :: rest =>
    match find_field fs k with
    | Some f => a' ← f_read f v a; read_members fs rest a'
    | None => read_members fs rest a
    end
  end.

Definition read_struct {A} (fs : list (field A)) (zero : A) (j : json) : option A :=
  match j with
  | JNull => Some zero
  | JObj ms => read_members fs ms zero
  | _ => None
  end.

(** [json.Unmarshal(b, &v)] for a zero [v] *)
Definition json_unmarshal {A} (fs : list (field A)) (zero : A) (b : bytes) : option A :=
  json_parse b ≫= read_struct fs zero.

Definition read_string {A} (set : text → A → A) (j : json) (a : A) : option A :=
  match j with JNull => Some a | JStr s => Some (set s a) | _ => None end.

Definition read_bool {A} (set : bool → A → A) (j : json) (a : A) : option A :=
  match j with JNull => Some a | JBool b => Some (set b a) | _ => None end.

Definition read_int {A} (set : Z → A → A) (j : json) (a : A) : option A :=
  match j with JNull => Some a | JNum lit => n ← Atoi lit; Some (set n a) | _ => None end.

(** [[]byte]: base64 in a string, or an array of small numbers; [null] is the nil
    slice. *)
Fixpoint read_elements (old : bytes) (l : list json) : option bytes :=
  match l with
  | [] => Some []
  | j :: rest =>
    x ← match j with
        | JNull => Some (default 0 (head old))
        | JNum lit => n ← Atoi lit; if bool_decide (is_byte n) then Some n else None
        | _ => None
        end;
    xs ← read_elements (tail old) rest; Some (x :: xs)
  end.

Definition read_bytes {A} (get : A → option bytes) (set : option bytes → A → A) (j : json) (a : A) : option A :=
  match j with
  | JNull => Some (set None a)
  | JStr s => b ← b64_decode StdEncoding (utf8_encode s); Some (set (Some b) a)
  | JArr l => b ← read_elements (default [] (get a)) l; Some (set (Some b) a)
  | _ => None
  end.

(** ** Reading what was written

    The documents of the components are objects whose members are scalars. *)

Definition flat_value (j : json) : Prop :=
  match j with
  | JNull | JBool _ => True
  | JNum lit => valid_number lit = true ∧ forallb is_num_char lit = true
  | JStr s => Forall is_scalar s
  | JArr _ | JObj _ => False
  end.

Definition flat_member (m : text * json) : Prop := Forall is_scalar m.1 ∧ flat_value m.2.

(** The escapes by number are read back, and are ASCII. *)
Definition u_escape_ok (r : Z) : bool :=
  match u_escape r with
  | [p; q; a; b; c; d] =>
    (bool_decide (p = 92) && bool_decide (q = 117) && bool_decide (hex4 a b c d = Some r) &&
     bool_decide (r < 0xD800) && forallb (λ x, bool_decide (is_scalar x)) [p; q; a; b; c; d])%bool
  | _ => false
  end.

Definition u_escaped : list Z := seqZ 0 32 ++ [38; 60; 62; 8232; 8233].

Lemma u_escapes : forallb u_escape_ok u_escaped = true.
Proof. vm_compute. reflexivity. Qed.

Lemma u_escape_scan r s out rest :
  r ∈ u_escaped → scan_string s = Some (out, rest) → scan_string (u_escape r ++ s) = Some (r :: out, rest).
Proof.
  intros Hr Hs. pose proof u_escapes as H. rewrite forallb_forall in H. specialize (H r). rewrite <- list_elem_of_In in H.
  specialize (H Hr). unfold u_escape_ok in H.
  destruct (u_escape r) as [|p [|q [|a [|b [|c [|d [|? ?]]]]]]]; try done. bool_to_prop. subst.
  cbn [app scan_string]. rewrite bool_decide_false, bool_decide_false, bool_decide_true, bool_decide_true by done.
  match goal with E : hex4 _ _ _ _ = Some _ |- _ => rewrite E end. rewrite bool_decide_false by lia. by rewrite Hs.
Qed.

Lemma u_escape_scalar r : r ∈ u_escaped → Forall is_scalar (u_escape r).
Proof.
  intros Hr. pose proof u_escapes as H. rewrite forallb_forall in H. specialize (H r). rewrite <- list_elem_of_In in H.
  specialize (H Hr). unfold u_escape_ok in H.
  destruct (u_escape r) as [|p [|q [|a [|b [|c [|d [|? ?]]]]]]]; try done. apply andb_true_iff in H as [_ H].
  rewrite forallb_forall in H. apply Forall_forall. intros x Hx. apply list_elem_of_In in Hx. apply H in Hx. by apply bool_decide_eq_true in Hx.
Qed.

Lemma json_escape_cases r : is_scalar r →
  (r ∈ u_escaped ∧ json_escape r = u_escape r) ∨
  (json_escape r = [r] ∧ r ≠ 34 ∧ r ≠ 92 ∧ 32 ≤ r) ∨
  (∃ e, json_escape r = [92; e] ∧ unescape e = Some r ∧ e ≠ 117 ∧ is_scalar e).
Proof.
  intros Hr. unfold json_escape.
  repeat match goal with |- context [bool_decide (r = ?k)] =>
    destruct (decide (r = k)) as [->|]; [right; right; eexists; split_and!; [reflexivity|reflexivity|done|left; split; done]|
    rewrite (bool_decide_false (r = k)) by done] end.
  case_bool_decide as H1.
  - left. split; [|done]. unfold u_escaped. rewrite elem_of_app, elem_of_seqZ. unfold is_scalar in Hr. lia.
  - case_bool_decide as H2; [left; split; [apply elem_of_app; by right|done]|].
    right; left. split_and!; [done|done|done|lia].
Qed.

Lemma scan_escape r s out rest :
  is_scalar r → scan_string s = Some (out, rest) → scan_string (json_escape r ++ s) = Some (r :: out, rest).
Proof.
  intros Hr Hs. destruct (json_escape_cases r Hr) as [[H ->]|[(-> & H1 & H2 & H3)|(e & -> & He & Hu & _)]].
  - by apply u_escape_scan.
  - cbn [app scan_string]. rewrite !bool_decide_false by (done || lia). by rewrite Hs.
  - cbn [app scan_string]. rewrite bool_decide_false, bool_decide_false, bool_decide_true, bool_decide_false, He by done. by rewrite Hs.
Qed.

Lemma scan_quoted s rest : Forall is_scalar s → scan_string ((s ≫= json_escape) ++ 34 :: rest) = Some (s, rest).
Proof. induction 1 as [|r s Hr _ IH]; [done|]. cbn [mbind list_bind]. rewrite <- app_assoc. by apply scan_escape. Qed.

Lemma json_quote_scalar s : Forall is_scalar s → Forall is_scalar (json_quote s).
Proof.
  intros Hs. unfold json_quote. assert (is_scalar 34) by (left; lia).
  rewrite !Forall_app, !Forall_singleton. split_and!; [done| |done].
  induction Hs as [|r s Hr _ IH]; [constructor|]. cbn [mbind list_bind]. apply Forall_app. split; [|done].
  destruct (json_escape_cases r Hr) as [[H' ->]|[(-> & _)|(e & -> & _ & _ & He)]];
    [by apply u_escape_scalar|by apply Forall_singleton|rewrite !Forall_cons; split_and!; [left; lia|done|done]].
Qed.

(** *** Values *)

Definition closes (rest : text) : Prop := ∃ c t, rest = c :: t ∧ (c = 44 ∨ c = 125).

Lemma span_all p s rest : forallb p s = true → match rest with [] => True | c :: _ => p c = false end → span p (s ++ rest) = (s, rest).
Proof.
  intros Hs Hr. induction s as [|r s IH]; simpl in *.
  - destruct rest; simpl; [done|]. by rewrite Hr.
  - apply andb_true_iff in Hs as [-> Hs]. by rewrite IH.
Qed.

Lemma span_digit_head s a b : span is_digit s = (a, b) → a ≠ [] → ∃ r t, s = r :: t ∧ is_digit r = true.
Proof. destruct s as [|r t]; simpl; [intros [= <- <-]; done|]. destruct (is_digit r) eqn:E; [eauto|]. intros [= <- <-]. done. Qed.

Lemma valid_number_head lit : valid_number lit = true → ∃ r t, lit = r :: t ∧ (r = 45 ∨ 48 ≤ r ≤ 57).
Proof.
  unfold valid_number. destruct lit as [|r t]; [done|]. intros H. exists r, t. split; [done|].
  case_bool_decide; [by left|right]. destruct (span is_digit (r :: t)) as [int rest] eqn:E.
  destruct int as [|i more]; [done|]. apply span_digit_head in E as (r' & t' & [= <- <-] & Hd); [|done].
  unfold is_digit in Hd. by apply bool_decide_eq_true in Hd.
Qed.

Lemma trim_ws_head c s : is_ws c = false → trim_left is_ws (c :: s) = c :: s.
Proof. simpl. by intros ->. Qed.

Lemma parse_flat n depth v rest :
  (0 < n)%nat → flat_value v → closes rest → parse_value n depth (json_print v ++ rest) = Some (v, rest).
Proof.
  intros Hn Hv (c & t & -> & Hc). destruct n as [|n]; [lia|]. destruct v as [|b|lit|s|l|l]; [..|done|done]; cbn [json_print flat_value] in *.
  - done.
  - by destruct b.
  - destruct Hv as [Hv Ha]. destruct (valid_number_head lit Hv) as (r & u & -> & Hr).
    assert (Hs : span is_num_char ((r :: u) ++ c :: t) = (r :: u, c :: t)) by (apply span_all; [done|]; by destruct Hc as [->| ->]).
    cbn [app parse_value] in *. rewrite trim_ws_head by (unfold is_ws; apply bool_decide_false; intros Hw; set_unfold; lia).
    rewrite !bool_decide_false by lia.
    assert (∀ x y k, x ≠ r → has_prefix (x :: y) (r :: k) = false) as Hp by (intros; simpl; by rewrite bool_decide_false).
    change (txt "null") with [110; 117; 108; 108]. change (txt "true") with [116; 114; 117; 101].
    change (txt "false") with [102; 97; 108; 115; 101]. rewrite !Hp by lia. by rewrite Hs, Hv.
  - unfold json_quote. rewrite <- !app_assoc. cbn [app parse_value]. rewrite trim_ws_head by done.
    rewrite bool_decide_false, bool_decide_false, bool_decide_true by done. by rewrite scan_quoted.
Qed.

Definition print_member (m : text * json) : text := json_quote m.1 ++ [58] ++ json_print m.2.

Lemma parse_members_flat ms rest : ∀ n depth, ms ≠ [] → Forall flat_member ms → (length ms < n)%nat →
  parse_members n depth (commas (map print_member ms) ++ 125 :: rest) = Some (ms, rest).
Proof.
  induction ms as [|[k v] ms IH]; intros n depth Hne Hf Hn; [done|]. apply Forall_cons in Hf as [[Hk Hv] Hf].
  destruct n as [|n]; simpl in Hn; [lia|]. cbn [fst snd] in *.
  assert (∃ tl, commas (map print_member ((k, v) :: ms)) ++ 125 :: rest =
              34 :: (k ≫= json_escape) ++ 34 :: 58 :: json_print v ++ tl ∧
              ((ms = [] ∧ tl = 125 :: rest) ∨ (ms ≠ [] ∧ tl = 44 :: commas (map print_member ms) ++ 125 :: rest))) as (tl & E & Ht).
  { destruct ms as [|m ms]; [exists (125 :: rest); split; [|by left]|eexists; split; [|right; split; [done|reflexivity]]];
      cbn [map commas]; unfold print_member at 1, json_quote; cbn [fst snd];
      rewrite <- ?app_assoc; cbn [app]; rewrite <- ?app_assoc; done. }
  rewrite E. cbn [parse_members]. rewrite trim_ws_head by done. rewrite bool_decide_true, scan_quoted by done.
  cbn [mbind option_bind]. rewrite trim_ws_head by done. rewrite bool_decide_true by done.
  rewrite parse_flat; [|lia|done|destruct Ht as [[_ ->]|[_ ->]]; eexists _, _; eauto]. cbn [mbind option_bind].
  destruct Ht as [[-> ->]|[Hms ->]]; rewrite trim_ws_head by done.
  - by rewrite bool_decide_true.
  - rewrite bool_decide_false, bool_decide_true by done. rewrite IH by (done || lia). done.
Qed.

Lemma length_commas ms : (length ms ≤ length (commas (map print_member ms)))%nat.
Proof.
  induction ms as [|m ms IH]; [done|]. destruct ms; cbn [map commas] in *; unfold print_member at 1, json_quote; rewrite !length_app; simpl in *; lia.
Qed.

Lemma parse_text_flat ms : Forall flat_member ms → parse_text (json_print (JObj ms)) = Some (JObj ms).
Proof.
  intros Hf. unfold parse_text. cbn [json_print].
  replace (map (λ '(k, v), json_quote k ++ [58] ++ json_print v) ms) with (map print_member ms)
    by (apply map_ext; by intros [k v]).
  pose proof (length_commas ms) as Hl. cbn [app].
  assert (length ms < length (123%Z :: commas (map print_member ms) ++ [125%Z]))%nat as Hn by (simpl; rewrite length_app; simpl; lia).
  revert Hn. generalize (length (123 :: commas (map print_member ms) ++ [125])) as n. intros n Hn.
  cbn [parse_value]. rewrite trim_ws_head by done. rewrite bool_decide_true, bool_decide_false by (done || (unfold maxNestingDepth; lia)).
  destruct ms as [|m ms']; [done|].
  assert (∃ u, commas (map print_member (m :: ms')) ++ [125] = 34 :: u) as [u E].
  { cbn [map commas]. destruct (map print_member ms'); unfold print_member, json_quote; eexists; reflexivity. }
  rewrite E. rewrite trim_ws_head by done. rewrite bool_decide_false by done. rewrite <- E.
  rewrite parse_members_flat by (done || lia). done.
Qed.

Lemma print_scalar ms : Forall flat_member ms → Forall is_scalar (json_print (JObj ms)).
Proof.
  intros Hf. assert (∀ v, flat_value v → Forall is_scalar (json_print v)) as Hv.
  { intros [|b|lit|s|l|l] Hv; cbn [json_print flat_value] in *; try done.
    - by apply (bool_decide_unpack _).
    - destruct b; by apply (bool_decide_unpack _).
    - destruct Hv as [_ Ha]. rewrite forallb_forall in Ha. apply Forall_forall. intros x Hx. apply list_elem_of_In, Ha in Hx.
      unfold is_num_char, is_digit in Hx. left. apply orb_true_iff in Hx as [Hx|Hx]; apply bool_decide_eq_true in Hx; [lia|].
      set_unfold. lia.
    - by apply json_quote_scalar. }
  cbn [json_print]. rewrite !Forall_app, !Forall_singleton. split_and!; [left; lia| |left; lia].
  induction Hf as [|[k v] ms [Hk Hm] Hf IH]; [constructor|]. cbn [map commas].
  assert (Forall is_scalar (json_quote k ++ [58] ++ json_print v)).
  { rewrite !Forall_app, Forall_singleton. split_and!; [by apply json_quote_scalar|left; lia|by apply Hv]. }
  destruct (map _ ms); [done|]. apply Forall_app. split; [done|]. apply Forall_app. split; [|done]. apply Forall_singleton. left; lia.
Qed.

(** What [json.Marshal] writes of a flat object is parsed as it was. *)
Lemma json_round_trip ms : Forall flat_member ms → json_parse (utf8_encode (json_print (JObj ms))) = Some (JObj ms).
Proof. intros Hf. unfold json_parse. rewrite utf8_round_trip by by apply print_scalar. by apply parse_text_flat. Qed.

Lemma read_members_cons {A} (fs : list (field A)) f k v rest a a' :
  find_field fs k = Some f → f_read f v a = Some a' → read_members fs ((k, v) :: rest) a = read_members fs rest a'.
Proof. intros Hf Hr. cbn [read_members]. by rewrite Hf, Hr. Qed.

Lemma read_bytes_encoded {A} get (set : option bytes → A → A) b a :
  Forall is_byte b → read_bytes get set (JStr (b64_encode StdEncoding b)) a = Some (set (Some b) a).
Proof.
  intros Hb. cbn [read_bytes]. rewrite utf8_encode_ascii by (by apply b64_ascii). by rewrite Std_round_trip.
Qed.

(** Base64 needs no escapes. *)
Lemma json_quote_plain s : Forall (λ r, json_escape r = [r]) s → json_quote s = [34] ++ s ++ [34].
Proof.
  intros Hs. unfold json_quote. do 2 f_equal. induction Hs as [|r s Hr _ IH]; [done|]. cbn [mbind list_bind]. by rewrite Hr, IH.
Qed.

Definition b64_unescaped (e : base64_encoding) : bool :=
  forallb (λ v, bool_decide (json_escape (b64_char e v) = [b64_char e v])) (seqZ 0 64).

Lemma json_quote_b64 e b :
  b64_unescaped e = true → Forall is_byte b → json_quote (b64_encode e b) = [34] ++ b64_encode e b ++ [34].
Proof.
  intros He Hb. apply json_quote_plain, b64_encode_chars; [|done|done]. intros v Hv.
  unfold b64_unescaped in He. rewrite forallb_forall in He. specialize (He v).
  rewrite <- list_elem_of_In, elem_of_seqZ in He. apply bool_decide_eq_true in He; [done|lia].
Qed.
