(* ===== verification/GoSha512.v ===== *)
(** SHA-512 and SHA-384 (FIPS 180-4) and HMAC over any of the hashes, as
    executable definitions: [crypto/sha512] and [crypto/hmac]. *)

From stdpp Require Import base numbers list strings.
From S2P Require Import Prelude GoText GoBytes.

Local Open Scope Z_scope.

Definition w64 (z : Z) : Z := z mod 2 ^ 64.
Definition rotr64 (n x : Z) : Z := Z.lor (Z.shiftr x n) (w64 (Z.shiftl x (64 - n))).

Definition primes80 : list Z := Eval vm_compute in take 80 (List.filter prime (seqZ 2 410)).

(** 64 fractional bits of the cube roots, and of the square roots. *)
Definition sha512_k : list Z := Eval vm_compute in
  (λ p, w64 (cube_root 68 0 (p * 2 ^ 192))) <$> primes80.

Definition sqrt_state (ps : list Z) : sha_state :=
  let h i := w64 (Z.sqrt (nth i ps 0 * 2 ^ 128)) in
  Sha (h 0%nat) (h 1%nat) (h 2%nat) (h 3%nat) (h 4%nat) (h 5%nat) (h 6%nat) (h 7%nat).

Definition sha512_init : sha_state := Eval vm_compute in sqrt_state primes80.
Definition sha384_init : sha_state := Eval vm_compute in sqrt_state (drop 8 primes80).

Definition sha512_round (s : sha_state) (kw : Z * Z) : sha_state :=
  let '(Sha a b c d e f g h) := s in
  let S1 := xor3 (rotr64 14 e) (rotr64 18 e) (rotr64 41 e) in
  let ch := Z.lxor (Z.land e f) (Z.land (Z.lxor e (2 ^ 64 - 1)) g) in
  let t1 := w64 (h + S1 + ch + kw.1 + kw.2) in
  let S0 := xor3 (rotr64 28 a) (rotr64 34 a) (rotr64 39 a) in
  let maj := xor3 (Z.land a b) (Z.land a c) (Z.land b c) in
  Sha (w64 (t1 + S0 + maj)) a b c (w64 (d + t1)) e f g.

(** The message schedule, latest word first. *)
Definition sha512_next (ws : list Z) : Z :=
  let w i := nth i ws 0 in
  let s0 := xor3 (rotr64 1 (w 14%nat)) (rotr64 8 (w 14%nat)) (Z.shiftr (w 14%nat) 7) in
  let s1 := xor3 (rotr64 19 (w 1%nat)) (rotr64 61 (w 1%nat)) (Z.shiftr (w 1%nat) 6) in
  w64 (w 15%nat + s0 + w 6%nat + s1).

Definition sha512_block (s : sha_state) (block : list Z) : sha_state :=
  let t := fold_left sha512_round (zip sha512_k (rev (Nat.iter 64 (λ ws, sha512_next ws :: ws) (rev block)))) s in
  Sha (w64 (sa s + sa t)) (w64 (sb s + sb t)) (w64 (sc s + sc t)) (w64 (sd s + sd t))
      (w64 (se s + se t)) (w64 (sf s + sf t)) (w64 (sg s + sg t)) (w64 (sh s + sh t)).

Fixpoint words64 (b : bytes) : list Z :=
  match b with
  | x :: y :: z :: t :: x' :: y' :: z' :: t' :: rest => be_value [x; y; z; t; x'; y'; z'; t'] :: words64 rest
  | _ => []
  end.

(** Blocks of sixteen words; as much fuel as there are words is enough. *)
Fixpoint sha512_blocks (fuel : nat) (s : sha_state) (ws : list Z) : sha_state :=
  match fuel, ws with
  | S n, _ :: _ => sha512_blocks n (sha512_block s (take 16 ws)) (drop 16 ws)
  | _, _ => s
  end.

Definition sha512_pad (m : bytes) : bytes :=
  let l := Z.of_nat (length m) in
  m ++ [128] ++ replicate (Z.to_nat ((111 - l) mod 128)) 0 ++ be_bytes 16 (8 * l).

Definition sha512_digest (init : sha_state) (m : bytes) : bytes :=
  let ws := words64 (sha512_pad m) in
  let '(Sha a b c d e f g h) := sha512_blocks (length ws) init ws in
  be64 a ++ be64 b ++ be64 c ++ be64 d ++ be64 e ++ be64 f ++ be64 g ++ be64 h.

(** [sha512.Sum512] and [sha512.Sum384] *)
Definition sha512 : bytes → bytes := sha512_digest sha512_init.
Definition sha384 (m : bytes) : bytes := take 48 (sha512_digest sha384_init m).

Lemma sha512_digest_bytes init m : Forall is_byte (sha512_digest init m).
Proof. unfold sha512_digest, be64. destruct (sha512_blocks _ _ _). rewrite !Forall_app. split_and!; apply be_bytes_ok. Qed.

Lemma sha512_digest_length init m : length (sha512_digest init m) = 64%nat.
Proof. unfold sha512_digest, be64. destruct (sha512_blocks _ _ _). by rewrite !length_app, !be_bytes_length. Qed.

Example sha512_abc : hex_encode (sha512 (txt "abc")) =
  txt "ddaf35a193617abacc417349ae20413112e6fa4e89a97ea20a9eeee64b55d39a2192992a274fc1a836ba3c23a3feebbd454d4423643ce80e2a9ac94fa54ca49f".
Proof. vm_compute. reflexivity. Qed.

Example sha384_abc : hex_encode (sha384 (txt "abc")) =
  txt "cb00753f45a35e8bb5a03d699ac65007272c32ab0eded1631a8b605a43ff5bed8086072ba1e7cc2358baeca134c825a7".
Proof. vm_compute. reflexivity. Qed.

(** ** HMAC (RFC 2104): [hmac.New(hash, key)], [Write], [Sum] *)

Inductive hash := SHA256 | SHA384 | SHA512.

#[export] Instance hash_eq_dec : EqDecision hash.
Proof. solve_decision. Defined.

Definition digest (h : hash) : bytes → bytes := match h with SHA256 => sha256 | SHA384 => sha384 | SHA512 => sha512 end.
Definition block_size (h : hash) : nat := match h with SHA256 => 64 | SHA384 | SHA512 => 128 end.

Definition hmac (h : hash) (key msg : bytes) : bytes :=
  let k := if bool_decide (block_size h < length key)%nat then digest h key else key in
  let k := k ++ replicate (block_size h - length k) 0 in
  digest h (map (Z.lxor 0x5c) k ++ digest h (map (Z.lxor 0x36) k ++ msg)).

Lemma hmac_SHA256 key msg : hmac SHA256 key msg = hmac_sha256 key msg.
Proof. done. Qed.

Lemma hmac_hash_bytes h key msg : Forall is_byte (hmac h key msg).
Proof. unfold hmac. destruct h; cbn [digest]; [apply sha256_bytes|apply Forall_take, sha512_digest_bytes|apply sha512_digest_bytes]. Qed.

(** The second test case of RFC 4231. *)
Example hmac_sha512_rfc4231 : hex_encode (hmac SHA512 (txt "Jefe") (txt "what do ya want for nothing?")) =
  txt "164b7a7bfcf819e2e395fbe73b56e0a387bd64222e831fd610270cd7ea2505549758bf75c05a994a6d034f65f8f0e6fdcaeab1a34d4a6b4b636e070a38bce737".
Proof. vm_compute. reflexivity. Qed.

Example hmac_sha384_rfc4231 : hex_encode (hmac SHA384 (txt "Jefe") (txt "what do ya want for nothing?")) =
  txt "af45d2e376484031617f78d2b58a6b1b9c7ef464f5a01b47e42ec3736322445e8e2240ca5e69e2c78b3239ecfab21649".
Proof. vm_compute. reflexivity. Qed.
