(* ===== verification/GoRegexp.v ===== *)
(** The [regexp] package: leftmost-first matching with captures, on rune
    sequences.

    [run_re] tries the alternatives in the order of the pattern, as the package
    documents its choice among the matches that start at one place; [matches] is
    the plain meaning of a pattern, and the two agree on whether there is a match.
    No pattern in use matches the empty text anywhere, so the loops over all the
    matches stop at an empty one. *)

From stdpp Require Import base numbers list strings.
From S2P Require Import Prelude GoText.

Local Open Scope Z_scope.

(** ** Patterns *)

Inductive re :=
| Eps
| Chr (class : Z → bool)
| Seq (a b : re)
| Alt (a b : re)
| Star (a : re)
| Cap (n : nat) (a : re)
| Bot             (* ^ *)
| Eot             (* $ *)
| WordB.          (* \b *)

Declare Scope re_scope.
Bind Scope re_scope with re.
Delimit Scope re_scope with re.
Infix "⋅" := Seq (at level 49, right associativity) : re_scope.
Infix "∥" := Alt (at level 51, right associativity) : re_scope.

Definition Opt (a : re) : re := Alt a Eps.
Definition Plus (a : re) : re := Seq a (Star a).

(** [a{n}], [a{0,n}], [a{n,m}], [a{n,}] *)
Fixpoint times (n : nat) (a : re) : re := match n with O => Eps | S n => Seq a (times n a) end.
Fixpoint upto (n : nat) (a : re) : re := match n with O => Eps | S n => Opt (Seq a (upto n a)) end.
Definition between (n m : nat) (a : re) : re := Seq (times n a) (upto (m - n) a).
Definition at_least (n : nat) (a : re) : re := Seq (times n a) (Star a).

(** Character classes *)
Definition one_of (s : string) (r : Z) : bool := bool_decide (r ∈ txt s).
Definition range (a b : Z) (r : Z) : bool := bool_decide (a ≤ r ≤ b).
Definition lower (r : Z) : bool := range 97 122 r.
Definition upper (r : Z) : bool := range 65 90 r.
Definition letter (r : Z) : bool := (lower r || upper r)%bool.
Definition word (r : Z) : bool := (letter r || is_digit r || bool_decide (r = 95))%bool.

(** [\s] and [[:space:]] differ in the vertical tab. *)
Definition re_space (r : Z) : bool := bool_decide (r ∈ [9; 10; 12; 13; 32]).
Definition posix_space (r : Z) : bool := (re_space r || bool_decide (r = 11))%bool.

(** [(?i)]: a class matches the runes that fold to one of its own.  Two runes
    outside ASCII fold to ASCII letters: the long s and the kelvin sign. *)
Definition folds (r : Z) : list Z :=
  r :: (if lower r then [r - 32] else []) ++ (if upper r then [r + 32] else [])
    ++ (if bool_decide (r = 383) then [115; 83] else []) ++ (if bool_decide (r = 8490) then [107; 75] else [])
    ++ (if bool_decide (r = 115 ∨ r = 83) then [383] else []) ++ (if bool_decide (r = 107 ∨ r = 75) then [8490] else []).
Definition fold_case (class : Z → bool) (r : Z) : bool := existsb class (folds r).

(** A text, and a text in any case *)
Definition lit (s : string) : re := foldr (λ c r, Seq (Chr (λ d, bool_decide (d = c))) r) Eps (txt s).
Definition lit_i (s : string) : re := foldr (λ c r, Seq (Chr (fold_case (λ d, bool_decide (d = c)))) r) Eps (txt s).

(** ** Matching *)

(** Where each group was last matched. *)
Definition captures : Type := list (nat * (nat * nat)).

Definition group (cs : captures) (n : nat) : option (nat * nat) := snd <$> List.find (λ c, Nat.eqb c.1 n) cs.

Definition is_word (c : option Z) : bool := match c with Some c => word c | None => false end.

(** The continuation gets the rune before the place reached, what is left, the
    number of runes matched and the captures. *)
Fixpoint run_re {X} (r : re) (k : option Z → text → nat → captures → option X)
    (prev : option Z) (rest : text) (pos : nat) (cs : captures) : option X :=
  match r with
  | Eps => k prev rest pos cs
  | Chr class =>
    match rest with
    | c :: rest => if class c then k (Some c) rest (S pos) cs else None
    | [] => None
    end
  | Seq a b => run_re a (run_re b k) prev rest pos cs
  | Alt a b =>
    match run_re a k prev rest pos cs with Some x => Some x | None => run_re b k prev rest pos cs end
  | Star a =>
    (fix star (n : nat) prev rest pos cs :=
       match n with
       | O => k prev rest pos cs
       | S n =>
         match run_re a (λ prev' rest' pos' cs', if Nat.eqb pos' pos then None else star n prev' rest' pos' cs')
                 prev rest pos cs with
         | Some x => Some x
         | None => k prev rest pos cs
         end
       end) (length rest) prev rest pos cs
  | Cap n a => run_re a (λ prev' rest' pos' cs', k prev' rest' pos' ((n, (pos, pos')) :: cs')) prev rest pos cs
  | Bot => match prev with None => k prev rest pos cs | Some _ => None end
  | Eot => match rest with [] => k prev rest pos cs | _ => None end
  | WordB => if xorb (is_word prev) (is_word (head rest)) then k prev rest pos cs else None
  end.

(** The match at one place: its length and captures. *)
Definition match_at (r : re) (prev : option Z) (rest : text) : option (nat * captures) :=
  run_re r (λ _ _ pos cs, Some (pos, cs)) prev rest O [].

(** The leftmost match: the number of runes before it, its length, its captures
    (counted from the start of the match). *)
Fixpoint search (r : re) (prev : option Z) (s : text) : option (nat * nat * captures) :=
  match match_at r prev s with
  | Some (len, cs) => Some (O, len, cs)
  | None =>
    match s with
    | [] => None
    | c :: s => match search r (Some c) s with Some (skip, len, cs) => Some (S skip, len, cs) | None => None end
    end
  end.

(** [FindStringSubmatchIndex]: [None] or the match as start, end and captures, in
    positions of the text. *)
Record found := { f_start : nat; f_end : nat; f_groups : captures }.

Definition shift (n : nat) (m : nat * nat * captures) : found :=
  let '(skip, len, cs) := m in
  {| f_start := n + skip; f_end := n + skip + len;
     f_groups := (λ c : nat * (nat * nat), (c.1, ((n + skip + c.2.1)%nat, (n + skip + c.2.2)%nat))) <$> cs |}.

Definition FindSubmatchIndex (r : re) (s : text) : option found := shift 0 <$> search r None s.

Definition MatchString (r : re) (s : text) : bool := bool_decide (is_Some (search r None s)).

(** What precedes the place after [w]. *)
Definition last_or (prev : option Z) (w : text) : option Z := match last w with Some c => Some c | None => prev end.

(** [FindAllStringSubmatchIndex] *)
Fixpoint find_loop (fuel : nat) (r : re) (prev : option Z) (n : nat) (s : text) : list found :=
  match fuel with
  | O => []
  | S fuel =>
    match search r prev s with
    | None => []
    | Some (skip, len, cs) =>
      if Nat.eqb len 0 then []
      else shift n (skip, len, cs) ::
        find_loop fuel r (last_or prev (take (skip + len) s)) (n + (skip + len)) (drop (skip + len) s)
    end
  end.

Definition FindAllIndex (r : re) (s : text) : list found := find_loop (S (length s)) r None 0 s.

(** [ReplaceAllStringFunc], the function being told the captures as well. *)
Fixpoint replace_loop (fuel : nat) (r : re) (f : text → captures → text) (prev : option Z) (s : text) : text :=
  match fuel with
  | O => s
  | S fuel =>
    match search r prev s with
    | None => s
    | Some (skip, len, cs) =>
      if Nat.eqb len 0 then s
      else take skip s ++ f (take len (drop skip s)) cs ++
        replace_loop fuel r f (last_or prev (take (skip + len) s)) (drop (skip + len) s)
    end
  end.

Definition ReplaceAllFunc (r : re) (f : text → captures → text) (s : text) : text :=
  replace_loop (S (length s)) r f None s.

(** The text of a span, and of a group of a match. *)
Definition span (s : text) (a b : nat) : text := take (b - a) (drop a s).
Definition group_text (s : text) (cs : captures) (n : nat) : text :=
  match group cs n with Some (a, b) => span s a b | None => [] end.

(** ** The meaning of a pattern *)

(** [matches r p s p' s']: between the rune [p] and the text [s], [r] can match up
    to [s'], which is then preceded by [p']. *)
Inductive matches : re → option Z → text → option Z → text → Prop :=
| m_eps p s : matches Eps p s p s
| m_chr (class : Z → bool) p c s : class c = true → matches (Chr class) p (c :: s) (Some c) s
| m_seq a b p s p1 s1 p2 s2 : matches a p s p1 s1 → matches b p1 s1 p2 s2 → matches (Seq a b) p s p2 s2
| m_alt_l a b p s p1 s1 : matches a p s p1 s1 → matches (Alt a b) p s p1 s1
| m_alt_r a b p s p1 s1 : matches b p s p1 s1 → matches (Alt a b) p s p1 s1
| m_star_end a p s : matches (Star a) p s p s
| m_star a p s p1 s1 p2 s2 : matches a p s p1 s1 → (length s1 < length s)%nat → matches (Star a) p1 s1 p2 s2 →
    matches (Star a) p s p2 s2
| m_cap n a p s p1 s1 : matches a p s p1 s1 → matches (Cap n a) p s p1 s1
| m_bot s : matches Bot None s None s
| m_eot p : matches Eot p [] p []
| m_word p s : xorb (is_word p) (is_word (head s)) = true → matches WordB p s p s.

Lemma last_or_app p a b : last_or p (a ++ b) = last_or (last_or p a) b.
Proof. unfold last_or. rewrite last_app. by destruct (last b). Qed.

(** A match consumes a prefix. *)
Lemma matches_prefix r p s p' s' : matches r p s p' s' → ∃ w, s = w ++ s' ∧ p' = last_or p w.
Proof.
  induction 1 as [| |a b p s p1 s1 p2 s2 _ IH1 _ IH2| | | |a p s p1 s1 p2 s2 _ IH1 _ _ IH2| | | |];
    try (by exists []); try done.
  - by exists [c].
  - destruct IH1 as (w1 & -> & ->), IH2 as (w2 & -> & ->). exists (w1 ++ w2). by rewrite <- app_assoc, last_or_app.
  - destruct IH1 as (w1 & -> & ->), IH2 as (w2 & -> & ->). exists (w1 ++ w2). by rewrite <- app_assoc, last_or_app.
Qed.

Lemma matches_length r p s p' s' : matches r p s p' s' → (length s' ≤ length s)%nat.
Proof. intros (w & -> & _)%matches_prefix. rewrite length_app. lia. Qed.

(** The least number of runes a match consumes. *)
Fixpoint min_len (r : re) : nat :=
  match r with
  | Chr _ => 1
  | Seq a b => min_len a + min_len b
  | Alt a b => Nat.min (min_len a) (min_len b)
  | Cap _ a => min_len a
  | _ => 0
  end.

Lemma matches_min_len r p s p' s' : matches r p s p' s' → (length s' + min_len r ≤ length s)%nat.
Proof. induction 1; simpl in *; lia. Qed.

Fixpoint cap_free (r : re) : bool :=
  match r with
  | Seq a b | Alt a b => cap_free a && cap_free b
  | Star a => cap_free a
  | Cap _ _ => false
  | _ => true
  end.

(** What the matcher finds is a match; without groups it keeps the captures. *)
Lemma run_re_sound {X} r (k : option Z → text → nat → captures → option X) p s pos cs x : run_re r k p s pos cs = Some x →
  ∃ p' s' cs', matches r p s p' s' ∧ k p' s' (pos + (length s - length s'))%nat cs' = Some x ∧ (cap_free r = true → cs' = cs).
Proof.
  revert k p s pos cs. induction r as [|class|a IHa b IHb|a IHa b IHb|a IHa|n a IHa| | |]; intros k p s pos cs Hr; cbn [run_re] in Hr.
  - exists p, s, cs. split; [constructor|]. by rewrite Nat.sub_diag, Nat.add_0_r.
  - destruct s as [|c s]; [done|]. destruct (class c) eqn:Hc; [|done]. exists (Some c), s, cs. split; [by constructor|].
    cbn [length]. by replace (pos + (S (length s) - length s))%nat with (S pos) by lia.
  - apply IHa in Hr as (p1 & s1 & cs1 & H1 & Hr & Hc1). apply IHb in Hr as (p2 & s2 & cs2 & H2 & Hr & Hc2).
    exists p2, s2, cs2. split; [by econstructor|]. apply matches_length in H1, H2.
    replace (pos + (length s - length s2))%nat with (pos + (length s - length s1) + (length s1 - length s2))%nat by lia.
    split; [done|]. cbn [cap_free]. intros [Ha Hb]%andb_true_iff. rewrite Hc2, Hc1 by done. done.
  - destruct (run_re a k p s pos cs) eqn:E; cbn [cap_free].
    + simplify_eq. apply IHa in E as (p1 & s1 & cs1 & H1 & E & Hc). exists p1, s1, cs1. split; [by apply m_alt_l|].
      split; [done|]. intros [Ha Hb]%andb_true_iff. auto.
    + apply IHb in Hr as (p1 & s1 & cs1 & H1 & Hr & Hc). exists p1, s1, cs1. split; [by apply m_alt_r|].
      split; [done|]. intros [Ha Hb]%andb_true_iff. auto.
  - revert Hr. generalize (length s) at 1 as n. intros n. revert p s pos cs. induction n as [|n IHn]; intros p s pos cs Hr.
    { exists p, s, cs. split; [constructor|]. by rewrite Nat.sub_diag, Nat.add_0_r. }
    cbn in Hr. destruct (run_re a _ p s pos cs) as [y|] eqn:E.
    + injection Hr as ->. apply IHa in E as (p1 & s1 & cs1 & H1 & E & Hc1). destruct (Nat.eqb_spec (pos + (length s - length s1)) pos); [done|].
      apply IHn in E as (p2 & s2 & cs2 & H2 & E & Hc2). exists p2, s2, cs2. split; [by eapply m_star; [| |done]; [|lia]|].
      apply matches_length in H1, H2.
      replace (pos + (length s - length s2))%nat with (pos + (length s - length s1) + (length s1 - length s2))%nat by lia.
      split; [done|]. cbn [cap_free] in *. intros Ha. rewrite Hc2, Hc1 by done. done.
    + exists p, s, cs. split; [constructor|]. by rewrite Nat.sub_diag, Nat.add_0_r.
  - apply IHa in Hr as (p1 & s1 & cs1 & H1 & Hr & _). eexists p1, s1, _. split; [by constructor|]. split; [exact Hr|done].
  - destruct p; [done|]. exists None, s, cs. split; [constructor|]. by rewrite Nat.sub_diag, Nat.add_0_r.
  - destruct s; [|done]. exists p, [], cs. split; [constructor|]. by rewrite Nat.sub_diag, Nat.add_0_r.
  - destruct (xorb _ _) eqn:E; [|done]. exists p, s, cs. split; [by constructor|]. by rewrite Nat.sub_diag, Nat.add_0_r.
Qed.

(** When there is a match, the matcher finds one. *)
Lemma run_re_complete {X} r (k : option Z → text → nat → captures → option X) p s p' s' pos cs : matches r p s p' s' →
  (∀ cs, k p' s' (pos + (length s - length s'))%nat cs ≠ None) → run_re r k p s pos cs ≠ None.
Proof.
  revert k p s p' s' pos cs. induction r as [|class|a IHa b IHb|a IHa b IHb|a IHa|n a IHa| | |]; intros k p s p' s' pos cs Hm Hk; cbn [run_re].
  - inversion Hm; subst. rewrite Nat.sub_diag, Nat.add_0_r in Hk. apply Hk.
  - inversion Hm as [|? ? c s0 Hc| | | | | | | | |]; subst. rewrite Hc. cbn [length] in Hk.
    replace (pos + (S (length s') - length s'))%nat with (S pos) in Hk by lia. apply Hk.
  - inversion Hm as [| |? ? ? ? p1 s1 ? ? H1 H2| | | | | | | |]; subst. eapply IHa; [exact H1|]. intros cs1.
    eapply IHb; [exact H2|]. intros cs2. apply matches_length in H1, H2.
    replace (pos + (length s - length s1) + (length s1 - length s'))%nat with (pos + (length s - length s'))%nat by lia. apply Hk.
  - inversion Hm as [| | |? ? ? ? ? ? H1|? ? ? ? ? ? H1| | | | | |]; subst.
    + destruct (run_re a k p s pos cs) eqn:E; [done|]. exfalso. revert E. by eapply IHa.
    + destruct (run_re a k p s pos cs); [done|]. by eapply IHb.
  - assert (Hn : (length s ≤ length s)%nat) by lia. revert Hn. generalize (length s) at 2 3 as n. intros n. revert p s p' s' pos cs Hm Hk.
    induction n as [|n IHn]; intros p s p' s' pos cs Hm Hk Hn.
    { inversion Hm as [| | | | |? ? ?|? ? ? p1 s1 ? ? H1 Hl H2| | | |]; subst; [|lia].
      rewrite Nat.sub_diag, Nat.add_0_r in Hk. apply Hk. }
    cbn. destruct (run_re a _ p s pos cs) eqn:E; [done|].
    inversion Hm as [| | | | |? ? ?|? ? ? p1 s1 ? ? H1 Hl H2| | | |]; subst.
    { rewrite Nat.sub_diag, Nat.add_0_r in Hk. apply Hk. }
    exfalso. revert E. eapply IHa; [exact H1|]. intros cs1.
    destruct (Nat.eqb_spec (pos + (length s - length s1)) pos); [lia|].
    eapply IHn; [exact H2| |lia]. apply matches_length in H1, H2. intros cs2.
    replace (pos + (length s - length s1) + (length s1 - length s'))%nat with (pos + (length s - length s'))%nat by lia. apply Hk.
  - inversion Hm; subst. by eapply IHa.
  - inversion Hm; subst. rewrite Nat.sub_diag, Nat.add_0_r in Hk. apply Hk.
  - inversion Hm; subst. rewrite Nat.add_0_r in Hk. apply Hk.
  - inversion Hm; subst. rewrite Nat.sub_diag, Nat.add_0_r in Hk.
    match goal with H : xorb _ _ = true |- _ => rewrite H end. apply Hk.
Qed.

(** ** The leftmost match *)

Lemma match_at_sound r p s len cs : match_at r p s = Some (len, cs) →
  (len ≤ length s)%nat ∧ matches r p s (last_or p (take len s)) (drop len s).
Proof.
  intros (p' & s' & cs' & Hm & [= <- <-] & _)%run_re_sound. destruct (matches_prefix _ _ _ _ _ Hm) as (w & -> & ->).
  rewrite length_app, Nat.add_sub. split; [lia|]. by rewrite take_app_length, drop_app_length.
Qed.

Lemma match_at_complete r p s p' s' : matches r p s p' s' → match_at r p s ≠ None.
Proof. intros Hm. by eapply run_re_complete. Qed.

(** The match found, and that there is none before it. *)
Lemma search_sound r p s skip len cs : search r p s = Some (skip, len, cs) →
  (skip + len ≤ length s)%nat ∧
  matches r (last_or p (take skip s)) (drop skip s) (last_or p (take (skip + len) s)) (drop (skip + len) s) ∧
  ∀ a b p' s', s = a ++ b → matches r (last_or p a) b p' s' → (skip ≤ length a)%nat.
Proof.
  revert p skip len cs. induction s as [|c s IH]; intros p skip len cs Hs; cbn [search] in Hs.
  - destruct (match_at r p []) as [[l cs']|] eqn:E; [|done]. simplify_eq. apply match_at_sound in E as [Hl Hm].
    simpl in Hl. assert (len = 0)%nat as -> by lia. split; [simpl; lia|]. split; [exact Hm|]. intros; lia.
  - destruct (match_at r p (c :: s)) as [[l cs']|] eqn:E.
    { simplify_eq. apply match_at_sound in E as [Hl Hm]. split; [done|]. split; [exact Hm|]. intros; lia. }
    destruct (search r (Some c) s) as [[[sk l] cs']|] eqn:E1; [|done]. simplify_eq.
    destruct (IH _ _ _ _ E1) as (Hl & Hm & Hmin). cbn [length]. split; [lia|]. split.
    + cbn [take drop Nat.add]. change (c :: take sk s) with ([c] ++ take sk s). change (c :: take (sk + len) s) with ([c] ++ take (sk + len) s).
      rewrite !last_or_app. exact Hm.
    + intros a b p' s' Hab Hm'. destruct a as [|c' a]; cbn [app] in Hab.
      * subst b. by apply match_at_complete in Hm'.
      * injection Hab as <- ->. change (c :: a) with ([c] ++ a) in Hm'. rewrite last_or_app in Hm'.
        specialize (Hmin a b p' s' eq_refl Hm'). simpl. lia.
Qed.

Lemma search_complete r p a b p' s' : matches r (last_or p a) b p' s' → search r p (a ++ b) ≠ None.
Proof.
  revert p. induction a as [|c a IH]; intros p Hm; cbn [app].
  - apply match_at_complete in Hm. unfold last_or in Hm. simpl in Hm. destruct b; cbn [search]; destruct (match_at r p _) as [[]|]; done.
  - cbn [search]. destruct (match_at r p (c :: a ++ b)) as [[]|]; [done|].
    change (c :: a) with ([c] ++ a) in Hm. rewrite last_or_app in Hm. specialize (IH _ Hm). change (last_or p [c]) with (Some c) in IH.
    by destruct (search r (Some c) (a ++ b)) as [[[]]|].
Qed.

(** The first group of a pattern that starts with it, when the rest has none. *)
Lemma match_at_group a b p s len cs : cap_free b = true → match_at (Seq (Cap 1 a) b) p s = Some (len, cs) →
  ∃ n, (min_len a ≤ n ≤ length s)%nat ∧ group cs 1 = Some (O, n).
Proof.
  unfold match_at. intros Hb Hm. cbn [run_re] in Hm. apply run_re_sound in Hm as (p1 & s1 & cs1 & H1 & Hm & _).
  apply run_re_sound in Hm as (p2 & s2 & cs2 & H2 & [= <- <-] & Hc). rewrite Hc by done.
  exists (length s - length s1)%nat. apply matches_min_len in H1. split; [lia|]. done.
Qed.

(** The match found is the match at its place. *)
Lemma search_match_at r p s skip len cs : search r p s = Some (skip, len, cs) →
  (skip ≤ length s)%nat ∧ match_at r (last_or p (take skip s)) (drop skip s) = Some (len, cs).
Proof.
  revert p skip. induction s as [|c s IH]; intros p skip Hs; cbn [search] in Hs.
  - destruct (match_at r p []) as [[l cs']|] eqn:E; [|done]. simplify_eq. done.
  - destruct (match_at r p (c :: s)) as [[l cs']|] eqn:E; [simplify_eq; split; [simpl; lia|done]|].
    destruct (search r (Some c) s) as [[[sk l] cs']|] eqn:E1; [|done]. simplify_eq.
    destruct (IH _ _ E1) as [Hl Hm]. split; [simpl; lia|]. cbn [take drop]. change (c :: take sk s) with ([c] ++ take sk s).
    by rewrite last_or_app.
Qed.

Lemma group_shift n skip len cs k : group (f_groups (shift n (skip, len, cs))) k =
  (λ ab : nat * nat, ((n + skip + ab.1)%nat, (n + skip + ab.2)%nat)) <$> group cs k.
Proof.
  cbn [shift f_groups]. unfold group. induction cs as [|[j [a b]] cs IH]; [done|]. cbn.
  destruct (Nat.eqb j k); [done|]. exact IH.
Qed.
