(* ===== verification/Sanitize.v ===== *)
(** Redaction of credentials in free text ([security/sanitize/sanitize.go]).

    Texts are rune sequences and offsets count runes.  The taxonomy of sensitive
    field names belongs to the observability library; it is the class [Taxonomy]. *)

From stdpp Require Import base numbers list strings.
From S2P Require Import Prelude GoText GoBytes GoJSON GoRegexp.

Local Open Scope Z_scope.

(** [redaction.IsSensitiveField(fieldName, extras...)] *)
Class Taxonomy := IsSensitiveField : text → list text → bool.

Definition SecretRedactionMarker : text := txt "****".
Definition MaxInputLen : Z := 65536.
Definition maxSanitizeRounds : nat := 4.

Definition sensitiveFieldExtras : list text :=
  txt <$> ["accesskey"; "accesskeyid"; "secretaccesskey"; "sessiontoken"; "signature"; "sslpassword";
           "cpf"; "cnpj"; "rg"; "document"; "documento"; "conta"; "chave_pix"; "birthdate"; "data_nascimento";
           "session"; "jsessionid"]%string.

(** ** Patterns *)

Definition QUOTE : Z := 34.
Definition BACKSLASH : Z := 92.
Definition chr (c : Z) : re := Chr (λ r, bool_decide (r = c)).
Definition digit : re := Chr is_digit.
Definition not_in (l : list Z) : re := Chr (λ r, bool_decide (r ∉ l)).

Definition scheme_char (r : Z) : bool := (letter r || is_digit r || one_of "+.-" r)%bool.
Definition urlPattern : re :=
  (Chr letter ⋅ Star (Chr scheme_char) ⋅ lit "://" ⋅ Plus (Chr (λ r, negb (re_space r))))%re.

Definition queryValueTerminators : text := [38; 9; 10; 11; 12; 13; 32; 44; 59; 34; 39; 35].

Definition queryParameterPattern : re :=
  (Cap 1 (Chr (one_of "?&")) ⋅ Cap 2 (Plus (Chr (λ r, letter r || is_digit r || one_of "_.-" r)%bool)) ⋅ lit "=" ⋅
   Cap 3 (Plus (not_in queryValueTerminators)))%re.

Definition keyValueSeparator : re := (Star (Chr posix_space) ⋅ lit "=" ⋅ Star (Chr posix_space))%re.
Definition keyValueValue : re := Chr (λ r, negb (posix_space r || one_of ",;&" r)%bool).
Definition keyValueName : re :=
  (Chr (fold_case lower) ⋅ Star (Chr (fold_case (λ r, lower r || is_digit r || one_of "._-" r)%bool)))%re.
Definition keyValuePair : re := (WordB ⋅ Cap 1 keyValueName ⋅ Cap 2 keyValueSeparator ⋅ Cap 3 (Plus keyValueValue))%re.

Definition keyValuePattern : re := keyValuePair.
Definition nextPairPattern : re := (Bot ⋅ keyValuePair)%re.
Definition bareValueAheadPattern : re := (Bot ⋅ Star (Chr posix_space) ⋅ Cap 1 (Plus keyValueValue))%re.
Definition nextPairSeparatorPattern : re := (Bot ⋅ keyValueSeparator)%re.
Definition keyPrefixPattern : re := (WordB ⋅ Cap 1 keyValueName ⋅ keyValueSeparator)%re.

Definition json_quote_mark : re := (Opt (chr BACKSLASH) ⋅ chr QUOTE)%re.
Definition jsonKeyValuePattern : re :=
  (Cap 1 json_quote_mark ⋅ Cap 2 (Chr letter ⋅ Star (Chr (λ r, letter r || is_digit r || one_of "._-" r)%bool)) ⋅
   Cap 3 json_quote_mark ⋅ Cap 4 (Star (Chr posix_space) ⋅ lit ":" ⋅ Star (Chr posix_space)) ⋅ Cap 5 json_quote_mark ⋅
   Cap 6 (Star (not_in [QUOTE; BACKSLASH] ∥ chr BACKSLASH ⋅ not_in [QUOTE])) ⋅ Cap 7 json_quote_mark)%re.

Definition authHeaderPattern : re :=
  (WordB ⋅ Cap 1 (Opt (lit_i "proxy-") ⋅ lit_i "authorization" ∥ lit_i "auth" ∥ lit_i "cookie" ∥ Opt (lit_i "x-") ⋅ lit_i "api-key") ⋅
   Cap 2 (Opt (chr BACKSLASH) ⋅ Opt (chr QUOTE) ⋅ Star (Chr posix_space) ⋅ lit ":" ⋅ Star (Chr posix_space) ⋅
          Opt (chr BACKSLASH) ⋅ Opt (chr QUOTE)) ⋅
   Opt (Cap 3 ((lit_i "bearer" ∥ lit_i "basic" ∥ lit_i "digest" ∥ lit_i "negotiate" ∥ lit_i "ntlm" ∥ lit_i "token" ∥ lit_i "apikey"
                ∥ lit_i "hmac" ∥ lit_i "aws4-hmac-sha256") ⋅ Plus (Chr posix_space))) ⋅
   Plus (not_in [13; 10; 44; 34; 93; 125; 59; 92]))%re.

Definition alnum (r : Z) : bool := (letter r || is_digit r)%bool.

Definition bareSecretPatterns : list re := [
  (WordB ⋅ (lit "AKIA" ∥ lit "ASIA") ⋅ times 16 (Chr (λ r, is_digit r || upper r)%bool) ⋅ WordB)%re;
  (WordB ⋅ lit "AIza" ⋅ times 35 (Chr (λ r, alnum r || one_of "_-" r)%bool) ⋅ WordB)%re;
  (WordB ⋅ lit "gh" ⋅ Chr (one_of "pousr") ⋅ lit "_" ⋅ at_least 36 (Chr alnum) ⋅ WordB)%re;
  (WordB ⋅ lit "github_pat_" ⋅ at_least 20 (Chr (λ r, alnum r || one_of "_" r)%bool) ⋅ WordB)%re;
  (WordB ⋅ (lit "sk" ∥ lit "rk") ⋅ lit "_" ⋅ (lit "live" ∥ lit "test") ⋅ lit "_" ⋅ at_least 16 (Chr alnum) ⋅ WordB)%re;
  (WordB ⋅ (lit "xox" ⋅ Chr (one_of "baprse") ∥ lit "xapp") ⋅ lit "-" ⋅ at_least 10 (Chr (λ r, alnum r || one_of "-" r)%bool) ⋅ WordB)%re;
  (WordB ⋅ lit "eyJ" ⋅ Plus (Chr (λ r, alnum r || one_of "_=-" r)%bool) ⋅ lit "." ⋅ Plus (Chr (λ r, alnum r || one_of "_=-" r)%bool) ⋅
   lit "." ⋅ Star (Chr (λ r, alnum r || one_of "_=-" r)%bool))%re;
  (WordB ⋅ Plus (Chr (fold_case (λ r, upper r || is_digit r || one_of "._%+-" r)%bool)) ⋅ lit "@" ⋅
   Plus (Chr (fold_case (λ r, upper r || is_digit r || one_of ".-" r)%bool)) ⋅ lit "." ⋅ at_least 2 (Chr (fold_case upper)) ⋅ WordB)%re].

Definition minCardDigits : Z := 12.
Definition maxCardDigits : Z := 19.

Definition card_sep (r : Z) : bool := one_of " .-" r.
Definition group4 : re := (Chr card_sep ⋅ times 4 digit)%re.

Definition cardCandidatePatterns : list re := [
  (WordB ⋅ times 4 digit ⋅ times 2 group4 ⋅ Chr card_sep ⋅ between 1 3 digit ⋅ WordB
   ∥ WordB ⋅ times 4 digit ⋅ at_least 2 group4 ⋅ WordB)%re;
  (WordB ⋅ times 4 digit ⋅ Chr card_sep ⋅ times 6 digit ⋅ Chr card_sep ⋅ between 4 5 digit ⋅ WordB)%re;
  (WordB ⋅ between 12 19 digit ⋅ WordB)%re].

Definition digitGroupPattern : re := Plus digit.

Definition cardShortTailPattern : re :=
  (Bot ⋅ Cap 1 (times 4 digit ⋅ group4 ⋅ group4) ⋅ Chr card_sep ⋅ between 1 3 digit ⋅ Eot)%re.

Definition azureSASSignaturePattern : re :=
  (Cap 1 (Chr (one_of "?&") ⋅ lit_i "sig=") ⋅ Plus (Chr (λ r, negb (bool_decide (r = 38) || re_space r)%bool)))%re.

Definition pemArmorPattern : re :=
  (lit "-----" ⋅ Cap 1 (lit_i "BEGIN" ∥ lit_i "END") ⋅ lit " " ⋅
   Plus (Chr (fold_case (λ r, upper r || is_digit r || bool_decide (r = SP))%bool)) ⋅ lit "-----")%re.

Definition pemHeadlessBodyPattern : re :=
  (Bot ⋅ Star (Chr (λ r, posix_space r || alnum r || one_of "+/=" r)%bool))%re.

(** ** Card numbers *)

Definition strip_separators (s : text) : text := List.filter (λ r, negb (card_sep r)) s.

(** [passesLuhn], from the last digit on. *)
Fixpoint luhn_loop (number : text) (sum : Z) (double : bool) : bool :=
  match number with
  | [] => bool_decide (sum mod 10 = 0)
  | c :: rest =>
    let d := c - 48 in
    if (bool_decide (d < 0) || bool_decide (9 < d))%bool then false
    else
      let d := if double then (if bool_decide (9 < d * 2) then d * 2 - 9 else d * 2) else d in
      luhn_loop rest (sum + d) (negb double)
  end.

Definition passesLuhn (number : text) : bool := luhn_loop (rev number) 0 false.

(** [digitsBefore]: the digits before each group. *)
Fixpoint prefix_sums (n : Z) (groups : list (nat * nat)) : list Z :=
  match groups with
  | [] => [n]
  | g :: rest => n :: prefix_sums (n + (Z.of_nat g.2 - Z.of_nat g.1)) rest
  end.

Definition at_group (groups : list (nat * nat)) (i : nat) : nat * nat := default (0, 0)%nat (groups !! i).
Definition sum_at (sums : list Z) (i : nat) : Z := default 0 (sums !! i).

(** The windows in the order they are tried: the widest first, each from the left. *)
Definition windows (n from : nat) : list (nat * nat) :=
  let widest := Nat.min (n - from) (Z.to_nat maxCardDigits) in
  reverse (seq 2 (widest - 1)) ≫= λ width, (λ i, (i, width)) <$> seq from (n - width - from + 1)%nat.

Definition card_window (run : text) (groups : list (nat * nat)) (digitsBefore : list Z) (w : nat * nat) : bool :=
  let '(i, width) := w in
  let count := sum_at digitsBefore (i + width) - sum_at digitsBefore i in
  (negb (bool_decide (count < minCardDigits) || bool_decide (maxCardDigits < count))
   && passesLuhn (strip_separators (span run (at_group groups i).1 (at_group groups (i + width - 1)).2)))%bool.

(** The span of the window, and the group after it. *)
Definition findCardWindow (run : text) (groups : list (nat * nat)) (digitsBefore : list Z) (from : nat) :
    option (nat * nat * nat) :=
  match List.find (card_window run groups digitsBefore) (windows (length groups) from) with
  | Some (i, width) => Some ((at_group groups i).1, (at_group groups (i + width - 1)).2, (i + width)%nat)
  | None => None
  end.

(** The loop over the cards of a run; one round per group is enough. *)
Fixpoint inside_loop (fuel : nat) (run : text) (groups : list (nat * nat)) (digitsBefore : list Z) (written first : nat) : text :=
  match fuel with
  | O => drop written run
  | S fuel =>
    if bool_decide (first < length groups)%nat then
      match findCardWindow run groups digitsBefore first with
      | None => drop written run
      | Some (start, fin, next) =>
        span run written start ++ SecretRedactionMarker ++ inside_loop fuel run groups digitsBefore fin next
      end
    else drop written run
  end.

Definition redactCardInsideRun (run : text) : text :=
  let groups := (λ f, (f_start f, f_end f)) <$> FindAllIndex digitGroupPattern run in
  if bool_decide (length groups < 2)%nat then run
  else inside_loop (length groups) run groups (prefix_sums 0 groups) 0 0.

Definition redactCardCandidate (candidate : text) : text :=
  let digits := strip_separators candidate in
  if bool_decide (maxCardDigits < Z.of_nat (length digits)) then redactCardInsideRun candidate
  else if (bool_decide (Z.of_nat (length digits) < minCardDigits) || negb (passesLuhn digits))%bool then
    match FindSubmatchIndex cardShortTailPattern candidate with
    | Some m =>
      let head := group_text candidate (f_groups m) 1 in
      if passesLuhn (strip_separators head) then SecretRedactionMarker ++ drop (length head) candidate else candidate
    | None => candidate
    end
  else SecretRedactionMarker.

Definition card_pass (s : text) : text :=
  foldl (λ s pattern, ReplaceAllFunc pattern (λ c _, redactCardCandidate c) s) s cardCandidatePatterns.

(** [redactCardNumbers]: to a fixed point. *)
Fixpoint card_loop (fuel : nat) (s : text) : text :=
  match fuel with
  | O => s
  | S fuel => let next := card_pass s in if eqt next s then s else card_loop fuel next
  end.

Definition redactCardNumbers (s : text) : text := card_loop (S (length s)) s.

(** ** PEM blocks *)

(** Each armor line with whether it is an END line, and where the next END line at
    or after it ends. *)
Definition next_ends (s : text) (armor : list found) : list (found * bool * option nat) :=
  foldr (λ a acc,
    let is_end := bool_decide (length (group_text s (f_groups a) 1) = 3)%nat in
    let next := if is_end then Some (f_end a) else match acc with (_, _, n) :: _ => n | [] => None end in
    (a, is_end, next) :: acc) [] armor.

Fixpoint pem_loop (s : text) (pos : nat) (lines : list (found * bool * option nat)) : text :=
  match lines with
  | [] => drop pos s
  | (line, is_end, next) :: rest =>
    if (bool_decide (f_start line < pos)%nat || is_end)%bool then pem_loop s pos rest
    else
      let fin := match next with
                 | Some e => e
                 | None => (f_end line + match match_at pemHeadlessBodyPattern None (drop (f_end line) s) with
                                         | Some (len, _) => len | None => 0 end)%nat
                 end in
      span s pos (f_start line) ++ SecretRedactionMarker ++ pem_loop s fin rest
  end.

Definition redactPemBlocks (s : text) : text := pem_loop s 0 (next_ends s (FindAllIndex pemArmorPattern s)).

(** ** URLs *)

Definition isLetter (c : Z) : bool := letter c.
Definition isSchemeByte (c : Z) : bool := (isLetter c || is_digit c || one_of "+.-" c)%bool.

Definition rune_at (s : text) (i : nat) : Z := default (-1) (s !! i).

(** Back over the scheme, then forward to its first letter. *)
Fixpoint rewind_scheme (token : text) (start : nat) : nat :=
  match start with
  | O => O
  | S n => if isSchemeByte (rune_at token n) then rewind_scheme token n else start
  end.

Fixpoint forward_letter (token : text) (fuel start : nat) : nat :=
  match fuel with
  | O => start
  | S fuel => if isLetter (rune_at token start) then start else forward_letter token fuel (S start)
  end.

Definition scheme_start (token : text) (starts : list nat) (i : nat) : list nat :=
  if negb (eqt (span token i (i + 3)) (txt "://")) then starts
  else
    let back := rewind_scheme token i in
    let start := forward_letter token (i - back) back in
    if bool_decide (start = i) then starts
    else if match last starts with Some l => bool_decide (start ≤ l)%nat | None => false end then starts
    else starts ++ [start].

Definition schemeStarts (token : text) : list nat := foldl (scheme_start token) [] (seq 0 (length token - 2)).

(** [strings.Index], and [strings.LastIndex] of one rune *)
Fixpoint index_of (sub s : text) : option nat :=
  if has_prefix sub s then Some O
  else match s with [] => None | _ :: s => S <$> index_of sub s end.

Fixpoint last_index (c : Z) (s : text) : option nat :=
  match s with
  | [] => None
  | d :: s => match last_index c s with
              | Some i => Some (S i)
              | None => if bool_decide (d = c) then Some O else None
              end
  end.

Fixpoint authority (rest : text) : text :=
  match rest with
  | [] => []
  | c :: rest => if bool_decide (c = 47 ∨ c = 63) then [] else c :: authority rest
  end.

Definition redactOneURL (token : text) : text :=
  match index_of (txt "://") token with
  | None => token
  | Some schemeSep =>
    let rest := drop (schemeSep + 3) token in
    match last_index 64 (authority rest) with
    | None => token
    | Some atIndex =>
      let tail := drop atIndex rest in
      let userinfo := take atIndex rest in
      if contains (txt ":") userinfo
      then take (schemeSep + 3) token ++ SecretRedactionMarker ++ txt ":" ++ SecretRedactionMarker ++ tail
      else take (schemeSep + 3) token ++ SecretRedactionMarker ++ tail
    end
  end.

Fixpoint each_url (token : text) (starts : list nat) : text :=
  match starts with
  | [] => []
  | start :: rest =>
    let fin := match rest with next :: _ => next | [] => length token end in
    redactOneURL (span token start fin) ++ each_url token rest
  end.

Definition redactURLUserinfo (token : text) : text :=
  let starts := schemeStarts token in
  match starts with
  | [] | [_] => redactOneURL token
  | first :: _ => take first token ++ each_url token starts
  end.

(** ** Sensitive fields *)

Section fields.
Context `{Taxonomy}.

Definition isSensitiveFieldName (fieldName : text) : bool := IsSensitiveField fieldName sensitiveFieldExtras.

(** *** Query parameters *)

Definition allDigits (s : text) : bool := (forallb is_digit s && negb (is_empty s))%bool.

Definition isQueryValueByte (b : Z) : bool := bool_decide (b ∉ queryValueTerminators).

(** The end of the digits that start at [i]. *)
Fixpoint digits_end (fuel : nat) (s : text) (i : nat) : nat :=
  match fuel with
  | O => i
  | S fuel => if is_digit (rune_at s i) then digits_end fuel s (S i) else i
  end.

Fixpoint extend_loop (fuel : nat) (s : text) (fin : nat) : nat :=
  match fuel with
  | O => fin
  | S fuel =>
    if bool_decide (rune_at s fin = SP) then
      let next := digits_end (length s) s (S fin) in
      if (bool_decide (next = S fin) || (bool_decide (next < length s)%nat && isQueryValueByte (rune_at s next)))%bool then fin
      else extend_loop fuel s next
    else fin
  end.

Definition extendOverGroupedDigits (s : text) (start fin : nat) : nat :=
  if negb (allDigits (span s start fin)) then fin else extend_loop (length s) s fin.

Definition group_span (m : found) (n : nat) : nat * nat := default (0, 0)%nat (group (f_groups m) n).

Fixpoint query_loop (s : text) (written : nat) (ms : list found) : text :=
  match ms with
  | [] => drop written s
  | m :: ms =>
    if bool_decide (f_start m < written)%nat then query_loop s written ms
    else
      let name := group_text s (f_groups m) 2 in
      if negb (isSensitiveFieldName name) then query_loop s written ms
      else
        let '(valueStart, valueEnd) := group_span m 3 in
        span s written valueStart ++ SecretRedactionMarker ++ query_loop s (extendOverGroupedDigits s valueStart valueEnd) ms
  end.

Definition redactQueryParameters (s : text) : text := query_loop s 0 (FindAllIndex queryParameterPattern s).

(** *** key=value pairs *)

Definition ends_in_separator (s : text) (fin : nat) : bool := bool_decide (rune_at s (fin - 1) = 61).

(** The match of the pattern inside a span, in positions of the span. *)
Definition prefixInsideValue (s : text) (valueStart valueEnd : nat) : option found :=
  if negb (ends_in_separator s valueEnd) then None else FindSubmatchIndex keyPrefixPattern (span s valueStart valueEnd).

Definition bareValueFollows (s : text) (valueEnd : nat) : bool :=
  match FindSubmatchIndex bareValueAheadPattern (drop valueEnd s) with
  | None => false
  | Some ahead => negb (MatchString nextPairPattern (drop (valueEnd + (group_span ahead 1).1) s))
  end.

(** The length of the separator at the start of a text; 0 when there is none. *)
Definition separator_length (s : text) : nat :=
  match FindSubmatchIndex nextPairSeparatorPattern s with Some m => f_end m | None => O end.

Definition introducesAValue (s : text) (start fin : nat) (chained : bool) : option nat :=
  let sep := separator_length (drop fin s) in
  if (negb (Nat.eqb sep 0) && isSensitiveFieldName (span s start fin)
      && MatchString bareValueAheadPattern (drop (fin + sep) s))%bool then Some (fin + sep)%nat
  else if match prefixInsideValue s start fin with
          | Some loc => (Nat.eqb (start + f_end loc) fin
                         && isSensitiveFieldName (span s (start + (group_span loc 1).1) (start + (group_span loc 1).2))
                         && (chained || bareValueFollows s fin))%bool
          | None => false
          end then Some fin
  else if (ends_in_separator s fin && isSensitiveFieldName (span s start (fin - 1)) && (chained || bareValueFollows s fin))%bool
  then Some fin
  else if (negb (Nat.eqb sep 0) && isSensitiveFieldName (span s start fin))%bool then Some (fin + sep)%nat
  else None.

(** The loops of the walk run on fuel, and [None] is the loop that has not ended yet. *)
Fixpoint value_end_loop (fuel : nat) (s : text) (start fin : nat) (chained : bool) : option nat :=
  match fuel with
  | O => None
  | S fuel =>
    match introducesAValue s start fin chained with
    | None => Some fin
    | Some after =>
      match FindSubmatchIndex bareValueAheadPattern (drop after s) with
      | None => Some fin
      | Some ahead => value_end_loop fuel s (after + (group_span ahead 1).1) (after + (group_span ahead 1).2) true
      end
    end
  end.

Definition sensitiveValueEnd (s : text) (valueStart valueEnd : nat) : option nat :=
  value_end_loop (S (length s)) s valueStart valueEnd false.

(** What becomes of a pair: redact a span, whether its key is sensitive, or hand
    the position back. *)
Inductive resolution := Redact (start fin : nat) (sensitive : bool) | Rewind (start : nat).

Fixpoint resolve_loop (fuel : nat) (s key : text) (valueStart valueEnd : nat) : option resolution :=
  match fuel with
  | O => None
  | S fuel =>
    if isSensitiveFieldName key then (λ fin, Redact valueStart fin true) <$> sensitiveValueEnd s valueStart valueEnd
    else
      match prefixInsideValue s valueStart valueEnd with
      | Some loc =>
        if bool_decide (valueStart + f_end loc < valueEnd)%nat
        then resolve_loop fuel s (span s (valueStart + (group_span loc 1).1) (valueStart + (group_span loc 1).2))
               (valueStart + f_end loc) valueEnd
        else Some (Rewind valueStart)
      | None =>
        if MatchString nextPairSeparatorPattern (drop valueEnd s) then Some (Rewind valueStart)
        else Some (Redact valueStart valueEnd false)
      end
  end.

Definition resolvePair (s key : text) (valueStart valueEnd : nat) : option resolution :=
  resolve_loop (length s) s key valueStart valueEnd.

(** The chain of keys inside one match. *)
Fixpoint pair_loop (fuel : nat) (m key : text) (valueStart valueEnd : nat) : option text :=
  match fuel with
  | O => None
  | S fuel =>
    if isSensitiveFieldName key then Some (take valueStart m ++ SecretRedactionMarker ++ drop valueEnd m)
    else
      match FindSubmatchIndex keyPrefixPattern (span m valueStart valueEnd) with
      | Some inner =>
        if bool_decide (valueEnd ≤ valueStart + f_end inner)%nat then Some m
        else pair_loop fuel m (span m (valueStart + (group_span inner 1).1) (valueStart + (group_span inner 1).2))
               (valueStart + f_end inner) valueEnd
      | None => Some m
      end
  end.

Definition redactKeyValuePair (m : text) : option text :=
  match FindSubmatchIndex keyValuePattern m with
  | None => Some m
  | Some loc => pair_loop (length m) m (group_text m (f_groups loc) 1) (group_span loc 3).1 (group_span loc 3).2
  end.

(** What [redactKeyValuePair] and [redactKeyValuePairs] return once they have ended,
    which they always do ([walk_ends]). *)
Definition ended (o : option text) : text := default [] o.

Fixpoint pairs_loop (fuel : nat) (s : text) (pos : nat) : option text :=
  match fuel with
  | O => None
  | S fuel =>
    if negb (bool_decide (pos < length s)%nat) then Some (drop pos s)
    else
      match shift pos <$> search keyValuePattern None (drop pos s) with
      | None => Some (drop pos s)
      | Some loc =>
        r ← resolvePair s (group_text s (f_groups loc) 1) (group_span loc 3).1 (group_span loc 3).2;
        match r with
        | Rewind valueStart => app (span s pos valueStart) <$> pairs_loop fuel s valueStart
        | Redact valueStart valueEnd sensitive =>
          let replacement := if sensitive then SecretRedactionMarker
                             else ReplaceAllFunc keyValuePattern (λ m _, ended (redactKeyValuePair m)) (span s valueStart valueEnd) in
          app (span s pos valueStart ++ replacement) <$> pairs_loop fuel s valueEnd
        end
      end
  end.

Definition redactKeyValuePairs (s : text) : option text := pairs_loop (S (length s)) s 0.

(** ** The pipeline *)

(** The two passes look for their groups in the match again. *)
Definition redact_auth_header (m : text) : text :=
  match FindSubmatchIndex authHeaderPattern m with
  | None => m
  | Some loc => let part := group_text m (f_groups loc) in part 1%nat ++ part 2%nat ++ part 3%nat ++ SecretRedactionMarker
  end.

Definition redact_json_pair (m : text) : text :=
  match FindSubmatchIndex jsonKeyValuePattern m with
  | None => m
  | Some loc =>
    let part := group_text m (f_groups loc) in
    if negb (isSensitiveFieldName (part 2%nat)) then m
    else part 1%nat ++ part 2%nat ++ part 3%nat ++ part 4%nat ++ part 5%nat ++ SecretRedactionMarker ++ part 7%nat
  end.

Definition sanitizeOnce (s : text) : text :=
  let s := redactPemBlocks s in
  let s := ReplaceAllFunc urlPattern (λ m _, redactURLUserinfo m) s in
  let s := redactQueryParameters s in
  let s := ReplaceAllFunc azureSASSignaturePattern (λ m cs, group_text m cs 1 ++ SecretRedactionMarker) s in
  let s := ReplaceAllFunc authHeaderPattern (λ m _, redact_auth_header m) s in
  let s := ReplaceAllFunc jsonKeyValuePattern (λ m _, redact_json_pair m) s in
  let s := redactCardNumbers s in
  let s := ended (redactKeyValuePairs s) in
  foldl (λ s pattern, ReplaceAllFunc pattern (λ _ _, SecretRedactionMarker) s) s bareSecretPatterns.

Fixpoint rounds (n : nat) (s : text) : text :=
  match n with
  | O => s
  | S n => let next := sanitizeOnce s in if eqt next s then s else rounds n next
  end.

Definition refusal (size : Z) : text :=
  SecretRedactionMarker ++ txt " (input of " ++ Itoa size ++ txt " bytes exceeds the sanitizer bound; not scanned)".

Definition Sanitized (s : text) : text :=
  let size := Z.of_nat (length (utf8_encode s)) in
  if is_empty s then []
  else if bool_decide (MaxInputLen < size) then refusal size
  else rounds maxSanitizeRounds s.

(** [Error]: the message is redacted, the cause kept. *)
Record redactedError (E : Type) := { message : text; cause : E }.

Definition Error {E} (error_text : E → text) (err : option E) : option (redactedError E) :=
  (λ e, {| message := Sanitized (error_text e); cause := e |}) <$> err.
End fields.
