(* ===== verification/SanitizeCards.v ===== *)
(** What the redaction of card numbers leaves behind.

    A round that changes anything shortens the text, so the loop reaches a fixed
    point; at a fixed point every candidate of every pattern is left alone, which
    the rule for one candidate only does with texts that hold no card. *)

From stdpp Require Import base numbers list strings.
From S2P Require Import Prelude GoText GoRegexp Sanitize.

Local Open Scope Z_scope.

(** ** Replacing never lengthens *)

(** [b] is [a], or shorter. *)
Definition shrinks (a b : text) : Prop := b = a ∨ (length b < length a)%nat.

Lemma shrinks_refl a : shrinks a a.
Proof. by left. Qed.

Lemma shrinks_trans a b c : shrinks a b → shrinks b c → shrinks a c.
Proof. intros [->|?] [->|?]; [by left|by right..|right; lia]. Qed.

Lemma shrinks_app a1 a2 b1 b2 : shrinks a1 b1 → shrinks a2 b2 → shrinks (a1 ++ a2) (b1 ++ b2).
Proof. unfold shrinks. rewrite !length_app. intros [->|?] [->|?]; [by left|right; lia..]. Qed.

Lemma shrinks_le a b : shrinks a b → (length b ≤ length a)%nat.
Proof. intros [->|?]; lia. Qed.

Lemma shrinks_same a b : shrinks a b → length b = length a → b = a.
Proof. intros [->|?]; [done|lia]. Qed.

Lemma split3 (s : text) skip len : s = take skip s ++ take len (drop skip s) ++ drop (skip + len) s.
Proof. by rewrite <- drop_drop, take_drop, take_drop. Qed.

Lemma replace_shrinks r f s prev fuel : (∀ m cs, shrinks m (f m cs)) → shrinks s (replace_loop fuel r f prev s).
Proof.
  intros Hf. revert prev s. induction fuel as [|fuel IH]; intros prev s; cbn [replace_loop]; [by left|].
  destruct (search r prev s) as [[[skip len] cs]|]; [|by left]. destruct (Nat.eqb len 0); [by left|].
  rewrite (split3 s skip len) at 1. auto using shrinks_app, shrinks_refl.
Qed.

(** The texts of all the matches. *)
Fixpoint match_texts (fuel : nat) (r : re) (prev : option Z) (s : text) : list text :=
  match fuel with
  | O => []
  | S fuel =>
    match search r prev s with
    | None => []
    | Some (skip, len, cs) =>
      if Nat.eqb len 0 then []
      else take len (drop skip s) :: match_texts fuel r (last_or prev (take (skip + len) s)) (drop (skip + len) s)
    end
  end.

Definition candidates (r : re) (s : text) : list text := match_texts (S (length s)) r None s.

Lemma span_app (pre s : text) a b : span (pre ++ s) (length pre + a) (length pre + b) = span s a b.
Proof. unfold span. rewrite drop_app_add. by replace (length pre + b - (length pre + a))%nat with (b - a)%nat by lia. Qed.

Lemma find_loop_texts fuel r prev pre s :
  (λ m, span (pre ++ s) (f_start m) (f_end m)) <$> find_loop fuel r prev (length pre) s = match_texts fuel r prev s.
Proof.
  revert prev pre s. induction fuel as [|fuel IH]; intros prev pre s; cbn [find_loop match_texts]; [done|].
  destruct (search r prev s) as [[[skip len] cs]|] eqn:Hs; [|done]. destruct (Nat.eqb len 0); [done|]. cbn [fmap list_fmap].
  apply search_sound in Hs as (Hl & _ & _). f_equal.
  - cbn [shift f_start f_end]. rewrite <- Nat.add_assoc, span_app. unfold span. by replace (skip + len - skip)%nat with len by lia.
  - specialize (IH (last_or prev (take (skip + len) s)) (pre ++ take (skip + len) s) (drop (skip + len) s)).
    rewrite <- app_assoc, take_drop, length_app, length_take in IH. by rewrite Nat.min_l in IH by lia.
Qed.

(** They are what [FindAll] returns. *)
Lemma FindAll_texts r s : (λ m, span s (f_start m) (f_end m)) <$> FindAllIndex r s = candidates r s.
Proof. apply (find_loop_texts _ r None [] s). Qed.

(** Where replacing changes nothing, no match is changed. *)
Lemma replace_fixed r f s prev fuel : (∀ m cs, shrinks m (f m cs)) → replace_loop fuel r f prev s = s →
  ∀ m, m ∈ match_texts fuel r prev s → ∃ cs, f m cs = m.
Proof.
  intros Hf. revert prev s. induction fuel as [|fuel IH]; intros prev s Hr m Hm; cbn [replace_loop match_texts] in *;
    [by apply not_elem_of_nil in Hm|].
  destruct (search r prev s) as [[[skip len] cs]|] eqn:Hs; [|by apply not_elem_of_nil in Hm].
  destruct (Nat.eqb len 0); [by apply not_elem_of_nil in Hm|].
  pose proof (split3 s skip len) as Hs3. rewrite <- Hr in Hs3 at 1. apply app_inv_head in Hs3.
  pose proof (replace_shrinks r f (drop (skip + len) s) (last_or prev (take (skip + len) s)) fuel Hf) as Hsh.
  pose proof (Hf (take len (drop skip s)) cs) as Hmid.
  assert (Hlen := f_equal length Hs3). rewrite !length_app in Hlen.
  apply shrinks_le in Hsh as Hle1. apply shrinks_le in Hmid as Hle2.
  apply elem_of_cons in Hm as [->|Hm].
  - exists cs. apply shrinks_same; [done|lia].
  - apply shrinks_same in Hsh; [|lia]. by eapply IH.
Qed.

(** ** Groups of digits *)

(** Spans from left to right, between [lo] and [hi]. *)
Fixpoint ordered (lo hi : nat) (groups : list (nat * nat)) : Prop :=
  match groups with
  | [] => (lo ≤ hi)%nat
  | g :: rest => (lo ≤ g.1 < g.2)%nat ∧ ordered g.2 hi rest
  end.

Lemma find_loop_ordered fuel r prev n s :
  ordered n (n + length s) ((λ f, (f_start f, f_end f)) <$> find_loop fuel r prev n s).
Proof.
  revert prev n s. induction fuel as [|fuel IH]; intros prev n s; cbn [find_loop]; [simpl; lia|].
  destruct (search r prev s) as [[[skip len] cs]|] eqn:Hs; [|simpl; lia]. destruct (Nat.eqb_spec len 0); [simpl; lia|].
  apply search_sound in Hs as (Hl & _ & _). cbn [fmap list_fmap ordered shift f_start f_end fst snd]. split; [lia|].
  specialize (IH (last_or prev (take (skip + len) s)) (n + (skip + len))%nat (drop (skip + len) s)).
  rewrite length_drop in IH. rewrite <- (Nat.add_assoc n skip len).
  by replace (n + (skip + len) + (length s - (skip + len)))%nat with (n + length s)%nat in IH by lia.
Qed.

Lemma ordered_le lo hi groups : ordered lo hi groups → (lo ≤ hi)%nat.
Proof. revert lo. induction groups as [|g groups IH]; intros lo; simpl; [done|]. intros [? ?%IH]. lia. Qed.

Lemma ordered_drop lo hi groups n : ordered lo hi groups → ordered (match groups !! n with Some g => g.1 | None => hi end) hi (drop n groups).
Proof.
  revert lo groups. induction n as [|n IH]; intros lo groups Ho.
  - destruct groups as [|g groups]; simpl in *; [done|]. split; [lia|apply Ho].
  - destruct groups as [|g groups]; [simpl in *; done|]. destruct Ho as [_ Ho]. by apply IH in Ho.
Qed.

(** The sums of the lengths of the groups, between two of them. *)
Lemma prefix_sums_at n groups i : (i ≤ length groups)%nat →
  sum_at (prefix_sums n groups) i = n + foldr (λ g acc, Z.of_nat g.2 - Z.of_nat g.1 + acc) 0 (take i groups).
Proof.
  revert n i. induction groups as [|g groups IH]; intros n i Hi; simpl in Hi.
  - assert (i = O) as -> by lia. unfold sum_at. simpl. lia.
  - destruct i as [|i]; [unfold sum_at; simpl; lia|].
    change (sum_at (prefix_sums n (g :: groups)) (S i)) with (sum_at (prefix_sums (n + (Z.of_nat g.2 - Z.of_nat g.1)) groups) i).
    rewrite IH by lia. simpl. lia.
Qed.

Definition digits_in (groups : list (nat * nat)) : Z := foldr (λ g acc, Z.of_nat g.2 - Z.of_nat g.1 + acc) 0 groups.

Lemma digits_in_app a b : digits_in (a ++ b) = digits_in a + digits_in b.
Proof. induction a as [|g a IH]; simpl; [done|]. unfold digits_in in *. simpl. lia. Qed.

Lemma window_count groups i width : (i + width ≤ length groups)%nat →
  sum_at (prefix_sums 0 groups) (i + width) - sum_at (prefix_sums 0 groups) i = digits_in (take width (drop i groups)).
Proof.
  intros Hi. rewrite !prefix_sums_at by lia. fold (digits_in (take (i + width) groups)). fold (digits_in (take i groups)).
  rewrite <- take_take_drop, digits_in_app. lia.
Qed.

(** A window spans at least its digits, and has at least one per group. *)
Lemma window_span lo hi groups : ordered lo hi groups → groups ≠ [] →
  digits_in groups ≤ Z.of_nat (default (0, 0)%nat (last groups)).2 - Z.of_nat (default (0, 0)%nat (head groups)).1 ∧
  Z.of_nat (length groups) ≤ digits_in groups ∧ (lo ≤ (default (0, 0)%nat (head groups)).1)%nat ∧
  ((default (0, 0)%nat (last groups)).2 ≤ hi)%nat.
Proof.
  revert lo. induction groups as [|g groups IH]; intros lo Ho Hne; [done|]. destruct Ho as [Hg Ho]. unfold digits_in.
  destruct groups as [|g' groups]; [simpl in *; lia|]. destruct (IH _ Ho ltac:(done)) as (H1 & H2 & H3 & H4).
  unfold digits_in in *. change (last (g :: g' :: groups)) with (last (g' :: groups)). cbn [foldr length head] in *.
  simpl (default _ (Some _)) in *. lia.
Qed.

Lemma elem_of_windows n from i width : (i, width) ∈ windows n from ↔
  (2 ≤ width ∧ width ≤ n - from ∧ width ≤ 19 ∧ from ≤ i ∧ i + width ≤ n)%nat.
Proof.
  unfold windows. change (Z.to_nat maxCardDigits) with 19%nat. rewrite list_elem_of_bind. split.
  - intros (w & Hi & Hw). apply list_elem_of_fmap in Hi as (j & [= -> ->] & Hj). apply elem_of_reverse, elem_of_seq in Hw.
    apply elem_of_seq in Hj. lia.
  - intros (H1 & H2 & H3 & H4 & H5). exists width. split.
    + apply list_elem_of_fmap. exists i. split; [done|]. apply elem_of_seq. lia.
    + apply elem_of_reverse, elem_of_seq. lia.
Qed.

Lemma at_group_window groups i width : (0 < width)%nat → (i + width ≤ length groups)%nat →
  at_group groups i = default (0, 0)%nat (head (take width (drop i groups))) ∧
  at_group groups (i + width - 1) = default (0, 0)%nat (last (take width (drop i groups))) ∧
  take width (drop i groups) ≠ [].
Proof.
  intros Hw Hi. assert (Hl : length (take width (drop i groups)) = width) by (rewrite length_take, length_drop; lia).
  split_and!.
  - unfold at_group. rewrite head_lookup, lookup_take_lt, lookup_drop by lia. by rewrite Nat.add_0_r.
  - unfold at_group. rewrite last_lookup, Hl, lookup_take_lt, lookup_drop by lia. by replace (i + width - 1)%nat with (i + pred width)%nat by lia.
  - intros E. rewrite E in Hl. simpl in Hl. lia.
Qed.

(** A window of the run with the number of digits it has. *)
Lemma ordered_window lo hi groups i width : ordered lo hi groups → (0 < width)%nat → (i + width ≤ length groups)%nat →
  let count := digits_in (take width (drop i groups)) in
  let start := (at_group groups i).1 in let fin := (at_group groups (i + width - 1)).2 in
  count ≤ Z.of_nat fin - Z.of_nat start ∧ Z.of_nat width ≤ count ∧ (lo ≤ start)%nat ∧ ordered fin hi (drop (i + width) groups).
Proof.
  revert lo i. induction groups as [|g groups IH]; intros lo i Ho Hw Hi; [simpl in Hi; lia|]. destruct Ho as [Hg Ho].
  destruct i as [|i].
  - clear IH. cbn [drop Nat.add] in *. destruct (at_group_window (g :: groups) 0 width Hw Hi) as (E1 & E2 & Hne).
    cbn [drop Nat.add] in *. cbn zeta. rewrite E1, E2.
    assert (Ht : ∃ mid, ordered lo mid (take width (g :: groups)) ∧ mid = (default (0, 0)%nat (last (take width (g :: groups)))).2
      ∧ ordered mid hi (drop width (g :: groups))).
    { clear E1 E2 Hne. revert lo g groups Hg Ho Hi. induction Hw as [|width Hw IH]; intros lo g groups Hg Ho Hi.
      - exists g.2. simpl. repeat split; try lia. done.
      - destruct groups as [|g' groups]; [simpl in Hi; lia|]. destruct Ho as [Hg' Ho].
        destruct (IH g.2 g' groups Hg' Ho ltac:(simpl in *; lia)) as (mid & H1 & H2 & H3). exists mid.
        destruct width as [|width]; [lia|]. cbn [take drop ordered] in *. done. }
    destruct Ht as (mid & H1 & -> & H3). destruct (window_span _ _ _ H1 Hne) as (W1 & W2 & W3 & W4).
    rewrite length_take in W2. split; [lia|]. split; [lia|]. done.
  - specialize (IH g.2 i Ho Hw ltac:(simpl in Hi; lia)). cbn zeta in *. cbn [drop Nat.add] in *.
    replace (S (i + width) - 1)%nat with (S (i + width - 1))%nat by lia.
    change (at_group (g :: groups) (S i)) with (at_group groups i).
    change (at_group (g :: groups) (S (i + width - 1))) with (at_group groups (i + width - 1)).
    destruct IH as (H1 & H2 & H3 & H4). split_and!; [done..|lia|done].
Qed.

Lemma at_group_drop groups first i : (first ≤ i)%nat → at_group (drop first groups) (i - first) = at_group groups i.
Proof. intros Hi. unfold at_group. rewrite lookup_drop. by replace (first + (i - first))%nat with i by lia. Qed.

(** A window that is found: it lies behind [written], and is longer than the
    marker. *)
Lemma findCardWindow_Some run groups hi written first start fin next :
  ordered written hi (drop first groups) → findCardWindow run groups (prefix_sums 0 groups) first = Some (start, fin, next) →
  (written ≤ start)%nat ∧ 12 ≤ Z.of_nat fin - Z.of_nat start ∧ (first < next)%nat ∧ ordered fin hi (drop next groups).
Proof.
  intros Ho Hf. unfold findCardWindow in Hf. destruct (List.find _ _) as [[i width]|] eqn:E; [|done]. injection Hf as <- <- <-.
  apply find_some in E as [Hin Hc]. apply list_elem_of_In, elem_of_windows in Hin as (H1 & H2 & H3 & H4 & H5).
  unfold card_window in Hc. apply andb_true_iff in Hc as [Hc _]. rewrite window_count in Hc by lia.
  apply negb_true_iff, orb_false_iff in Hc as [Hc _]. apply bool_decide_eq_false in Hc. unfold minCardDigits in Hc.
  destruct (ordered_window written hi (drop first groups) (i - first) width Ho) as (W1 & W2 & W3 & W4); [lia|rewrite length_drop; lia|].
  replace (i - first + width - 1)%nat with (i + width - 1 - first)%nat in * by lia.
  rewrite drop_drop in W1, W2. rewrite drop_drop in W4. rewrite !at_group_drop in * by lia.
  replace (first + (i - first))%nat with i in * by lia. replace (first + (i - first + width))%nat with (i + width)%nat in * by lia.
  split; [done|]. split; [lia|]. split; [lia|done].
Qed.

Lemma span_drop (s : text) a b : (a ≤ b)%nat → drop a s = span s a b ++ drop b s.
Proof.
  intros Hab. unfold span. rewrite <- (take_drop (b - a) (drop a s)) at 1. rewrite drop_drop. by replace (a + (b - a))%nat with b by lia.
Qed.

Lemma length_span (s : text) a b : (b ≤ length s)%nat → length (span s a b) = (b - a)%nat.
Proof. intros. unfold span. rewrite length_take, length_drop. lia. Qed.

Lemma inside_shrinks fuel run groups written first :
  ordered written (length run) (drop first groups) →
  shrinks (drop written run) (inside_loop fuel run groups (prefix_sums 0 groups) written first).
Proof.
  revert written first. induction fuel as [|fuel IH]; intros written first Ho; cbn [inside_loop]; [by left|].
  case_bool_decide; [|by left]. destruct (findCardWindow _ _ _ _) as [[[start fin] next]|] eqn:E; [|by left].
  destruct (findCardWindow_Some _ _ _ _ _ _ _ _ Ho E) as (H1 & H2 & H3 & H4). apply ordered_le in H4 as H5.
  rewrite (span_drop run written start), (span_drop run start fin) by lia.
  apply shrinks_app; [by left|]. apply shrinks_app; [|by apply IH]. right. rewrite length_span by lia. simpl. lia.
Qed.

(** A run that is left alone has no window that is a card. *)
Lemma inside_fixed fuel run groups : ordered 0 (length run) groups → (0 < length groups)%nat →
  inside_loop (S fuel) run groups (prefix_sums 0 groups) 0 0 = run →
  findCardWindow run groups (prefix_sums 0 groups) 0 = None.
Proof.
  intros Ho Hg Hr. cbn [inside_loop] in Hr. rewrite bool_decide_true in Hr by done.
  destruct (findCardWindow _ _ _ _) as [[[start fin] next]|] eqn:E; [|done]. exfalso.
  destruct (findCardWindow_Some run groups (length run) 0 0 _ _ _ Ho E) as (H1 & H2 & H3 & H4).
  pose proof (shrinks_le _ _ (inside_shrinks fuel run groups fin next H4)) as Hs. apply ordered_le in H4.
  apply (f_equal length) in Hr. rewrite !length_app, length_span, length_drop in * by lia. simpl in Hr. lia.
Qed.

(** ** One candidate *)

Definition digit_groups (run : text) : list (nat * nat) := (λ f, (f_start f, f_end f)) <$> FindAllIndex digitGroupPattern run.

Lemma digit_groups_ordered run : ordered 0 (length run) (digit_groups run).
Proof. apply (find_loop_ordered _ digitGroupPattern None 0 run). Qed.

Lemma length_strip (s : text) : (length (strip_separators s) ≤ length s)%nat.
Proof. apply length_filter_le. Qed.

Lemma short_tail_head candidate m : FindSubmatchIndex cardShortTailPattern candidate = Some m →
  (5 ≤ length (group_text candidate (f_groups m) 1) ≤ length candidate)%nat.
Proof.
  unfold FindSubmatchIndex. assert (Hno : ∀ c s, search cardShortTailPattern (Some c) s = None).
  { intros c s. revert c. induction s as [|d s IH]; intros c; [done|]. cbn [search]. unfold match_at. cbn -[search]. by rewrite IH. }
  intros Hm. destruct (search cardShortTailPattern None candidate) as [[[skip len] cs]|] eqn:E; [|done]. injection Hm as <-.
  assert (Hat : match_at cardShortTailPattern None candidate = Some (len, cs) ∧ skip = O).
  { destruct candidate as [|c candidate]; cbn [search] in E; destruct (match_at _ _ _) as [[l cs']|]; simplify_eq; [done..|].
    by rewrite Hno in E. }
  destruct Hat as [Hat ->]. change (match_at cardShortTailPattern None candidate) with
    (match_at (Cap 1 (times 4 digit ⋅ group4 ⋅ group4) ⋅ Chr card_sep ⋅ between 1 3 digit ⋅ Eot)%re None candidate) in Hat.
  apply match_at_group in Hat as (n & Hn & Hg); [|done]. change (min_len _) with 14%nat in Hn.
  assert (Hg' : group (f_groups (shift 0 (0%nat, len, cs))) 1 = Some (0%nat, n)).
  { cbn [shift f_groups Nat.add]. rewrite <- Hg. unfold group. clear. induction cs as [|[j [a b]] cs IH]; [done|].
    cbn. by destruct (Nat.eqb j 1). }
  unfold group_text. match goal with |- context [group ?g 1] => change (group g 1) with (group (f_groups (shift 0 (0%nat, len, cs))) 1) end.
  rewrite Hg', length_span; lia.
Qed.

Lemma candidate_shrinks c : shrinks c (redactCardCandidate c).
Proof.
  unfold redactCardCandidate. pose proof (length_strip c). case_bool_decide as H19.
  - unfold redactCardInsideRun. fold (digit_groups c). case_bool_decide; [by left|].
    apply (inside_shrinks _ c (digit_groups c) 0 0), digit_groups_ordered.
  - destruct (bool_decide (Z.of_nat (length (strip_separators c)) < minCardDigits) || negb (passesLuhn (strip_separators c)))%bool eqn:E.
    + destruct (FindSubmatchIndex cardShortTailPattern c) as [m|] eqn:Hm; [|by left]. cbv zeta.
      destruct (passesLuhn (strip_separators (group_text c (f_groups m) 1))); [|by left].
      apply short_tail_head in Hm. right. rewrite length_app, length_drop. simpl. lia.
    + apply orb_false_iff in E as [E _]. apply bool_decide_eq_false in E. unfold minCardDigits in E. right. simpl. lia.
Qed.

(** A text that holds no card, for a candidate: read as one number it is no card;
    when it is too long for one, no stretch of whole groups is one; and the twelve
    digits in front of a short tail are none. *)
Record card_free (c : text) : Prop := {
  cf_whole : 12 ≤ Z.of_nat (length (strip_separators c)) ≤ 19 → passesLuhn (strip_separators c) = false;
  cf_window : ∀ i width, 19 < Z.of_nat (length (strip_separators c)) → (2 ≤ width)%nat → (i + width ≤ length (digit_groups c))%nat →
    12 ≤ digits_in (take width (drop i (digit_groups c))) ≤ 19 →
    passesLuhn (strip_separators (span c (at_group (digit_groups c) i).1 (at_group (digit_groups c) (i + width - 1)).2)) = false;
  cf_head : ∀ m, Z.of_nat (length (strip_separators c)) ≤ 19 → FindSubmatchIndex cardShortTailPattern c = Some m →
    passesLuhn (strip_separators (group_text c (f_groups m) 1)) = false;
}.

Lemma no_window run first i width : (first ≤ i)%nat →
  findCardWindow run (digit_groups run) (prefix_sums 0 (digit_groups run)) first = None →
  (2 ≤ width)%nat → (i + width ≤ length (digit_groups run))%nat → 12 ≤ digits_in (take width (drop i (digit_groups run))) ≤ 19 →
  passesLuhn (strip_separators (span run (at_group (digit_groups run) i).1 (at_group (digit_groups run) (i + width - 1)).2)) = false.
Proof.
  intros Hf Hn Hw Hi Hd. unfold findCardWindow in Hn. destruct (List.find _ _) as [[j w]|] eqn:E; [done|].
  destruct (ordered_window 0 (length run) (digit_groups run) i width (digit_groups_ordered run) ltac:(lia) Hi) as (_ & Hwd & _).
  assert (Hin : In (i, width) (windows (length (digit_groups run)) first)) by (apply list_elem_of_In, elem_of_windows; lia).
  apply (find_none _ _ E) in Hin. unfold card_window in Hin. rewrite window_count in Hin by lia.
  apply andb_false_iff in Hin as [Hin|Hin]; [|done]. apply negb_false_iff, orb_true_iff in Hin as [Hin|Hin];
    apply bool_decide_eq_true in Hin; unfold minCardDigits, maxCardDigits in Hin; lia.
Qed.

Lemma candidate_fixed c : redactCardCandidate c = c → card_free c.
Proof.
  unfold redactCardCandidate. pose proof (length_strip c) as Hl. case_bool_decide as H19; unfold maxCardDigits in H19.
  - intros Hr. split; [lia| |intros; lia]. intros i width _ Hw Hi Hd.
    apply (no_window c 0); try done; [lia|].
    unfold redactCardInsideRun in Hr. fold (digit_groups c) in Hr. rewrite bool_decide_false in Hr by lia.
    destruct (length (digit_groups c)) as [|fuel] eqn:Eg; [lia|]. eapply inside_fixed; [apply digit_groups_ordered|lia|exact Hr].
  - destruct (bool_decide (Z.of_nat (length (strip_separators c)) < minCardDigits) || negb (passesLuhn (strip_separators c)))%bool eqn:E.
    + intros Hr. split; [|intros; lia|].
      * intros Hd. apply orb_true_iff in E as [E|E]; [apply bool_decide_eq_true in E; unfold minCardDigits in E; lia|by apply negb_true_iff].
      * intros m _ Hm. rewrite Hm in Hr. cbv zeta in Hr.
        destruct (passesLuhn (strip_separators (group_text c (f_groups m) 1))); [|done]. exfalso.
        apply short_tail_head in Hm. apply (f_equal length) in Hr. rewrite length_app, length_drop in Hr. simpl in Hr. lia.
    + intros Hr. apply orb_false_iff in E as [E _]. apply bool_decide_eq_false in E. unfold minCardDigits in E.
      apply (f_equal length) in Hr. simpl in Hr. lia.
Qed.

(** ** The fixed point *)

Lemma pattern_shrinks s pattern : shrinks s (ReplaceAllFunc pattern (λ c _, redactCardCandidate c) s).
Proof. apply replace_shrinks. intros. apply candidate_shrinks. Qed.

Lemma foldl_shrinks {X} (f : text → X → text) xs s : (∀ s x, shrinks s (f s x)) → shrinks s (foldl f s xs).
Proof.
  intros Hf. revert s. induction xs as [|x xs IH]; intros s; simpl; [by left|]. eapply shrinks_trans; [apply Hf|apply IH].
Qed.

Lemma foldl_fixed {X} (f : text → X → text) xs s : (∀ s x, shrinks s (f s x)) → foldl f s xs = s → ∀ x, x ∈ xs → f s x = s.
Proof.
  intros Hf. induction xs as [|y xs IH]; simpl; intros Hs x Hx; [by apply not_elem_of_nil in Hx|].
  assert (Hy : f s y = s).
  { apply shrinks_same; [apply Hf|]. pose proof (shrinks_le _ _ (Hf s y)). pose proof (shrinks_le _ _ (foldl_shrinks f xs (f s y) Hf)) as Hl.
    rewrite Hs in Hl. lia. }
  apply elem_of_cons in Hx as [->|Hx]; [done|]. rewrite Hy in Hs. by apply IH.
Qed.

Lemma card_loop_fixed fuel s : (length s < fuel)%nat → card_pass (card_loop fuel s) = card_loop fuel s.
Proof.
  revert s. induction fuel as [|fuel IH]; intros s Hs; [lia|]. cbn [card_loop]. destruct (eqt (card_pass s) s) eqn:E.
  - by apply eqt_true in E.
  - apply IH. apply eqt_false in E. destruct (foldl_shrinks _ cardCandidatePatterns s pattern_shrinks) as [E'|Hl]; [done|].
    unfold card_pass. lia.
Qed.

Lemma redacted_candidates s pattern c : pattern ∈ cardCandidatePatterns → c ∈ candidates pattern (redactCardNumbers s) → card_free c.
Proof.
  intros Hp Hc. apply candidate_fixed. set (out := redactCardNumbers s) in *.
  assert (Hfix : card_pass out = out) by (apply card_loop_fixed; lia).
  pose proof (foldl_fixed _ _ _ pattern_shrinks Hfix pattern Hp) as Hr.
  destruct (replace_fixed pattern (λ c _, redactCardCandidate c) out None (S (length out))) with (m := c) as (_ & E); try done.
  intros. apply candidate_shrinks.
Qed.

(** ** Unbroken numbers *)

Definition run_pattern : re := (WordB ⋅ between 12 19 digit ⋅ WordB)%re.

Abbreviation digits := (Forall (λ c, is_digit c = true)).

Lemma last_or_cons p c w : last_or p (c :: w) = last_or (Some c) w.
Proof. change (c :: w) with ([c] ++ w). by rewrite last_or_app. Qed.

Lemma matches_times n p s p' s' : matches (times n digit) p s p' s' ↔ ∃ w, s = w ++ s' ∧ p' = last_or p w ∧ length w = n ∧ digits w.
Proof.
  revert p s p'. induction n as [|n IH]; intros p s p'; cbn [times].
  - split.
    + inversion 1; subst. by exists [].
    + intros ([|] & -> & -> & Hl & _); [|done]. constructor.
  - split.
    + inversion 1 as [| |? ? ? ? p1 s1 ? ? H1 H2| | | | | | | |]; subst. inversion H1; subst. apply IH in H2 as (w & -> & -> & <- & Hw).
      exists (c :: w). rewrite last_or_cons. repeat split. by constructor.
    + intros ([|c w] & -> & -> & Hl & Hw); [done|]. apply Forall_cons in Hw as [Hc Hw]. injection Hl as Hl.
      rewrite last_or_cons. econstructor; [by constructor|]. apply IH. by exists w.
Qed.

Lemma matches_upto n p s p' s' : matches (upto n digit) p s p' s' ↔ ∃ w, s = w ++ s' ∧ p' = last_or p w ∧ (length w ≤ n)%nat ∧ digits w.
Proof.
  revert p s p'. induction n as [|n IH]; intros p s p'; cbn [upto].
  - split.
    + inversion 1; subst. by exists [].
    + intros ([|] & -> & -> & Hl & _); [|simpl in Hl; lia]. constructor.
  - split.
    + inversion 1 as [| | |? ? ? ? ? ? H1|? ? ? ? ? ? H1| | | | | |]; subst.
      * inversion H1 as [| |? ? ? ? p1 s1 ? ? H2 H3| | | | | | | |]; subst. inversion H2; subst.
        apply IH in H3 as (w & -> & -> & Hl & Hw). exists (c :: w). rewrite last_or_cons.
        split_and!; [done|done|simpl; lia|by constructor].
      * inversion H1; subst. exists []. split_and!; [done|done|simpl; lia|constructor].
    + intros ([|c w] & -> & -> & Hl & Hw); [apply m_alt_r; constructor|]. apply Forall_cons in Hw as [Hc Hw]. simpl in Hl.
      rewrite last_or_cons. apply m_alt_l. econstructor; [by constructor|]. apply IH. exists w.
      split_and!; [done|done|lia|done].
Qed.

Lemma digit_word c : is_digit c = true → word c = true.
Proof. unfold word. intros ->. by rewrite orb_true_r. Qed.

Lemma last_digit p w : digits w → w ≠ [] → is_word (last_or p w) = true.
Proof.
  intros Hw Hne. unfold last_or. destruct (last w) as [c|] eqn:E; [|by apply last_None in E].
  simpl. apply digit_word. rewrite Forall_forall in Hw. apply Hw. by apply last_Some_elem_of.
Qed.

Lemma head_digit w b : digits w → w ≠ [] → is_word (head (w ++ b)) = true.
Proof. intros Hw Hne. destruct w as [|c w]; [done|]. simpl. apply digit_word. by apply Forall_cons in Hw as [? _]. Qed.

(** The pattern matches exactly the runs of 12 to 19 digits with no word on either
    side. *)
Lemma run_matches p s p' s' : matches run_pattern p s p' s' ↔ ∃ w, s = w ++ s' ∧ p' = last_or p w ∧
  (12 ≤ length w ≤ 19)%nat ∧ digits w ∧ is_word p = false ∧ is_word (head s') = false.
Proof.
  split.
  - inversion 1 as [| |? ? ? ? ? ? ? ? H1 H2| | | | | | | |]; subst. inversion H1 as [| | | | | | | | | |? ? Hb1]; subst.
    inversion H2 as [| |? ? ? ? p2 s2 ? ? H3 H4| | | | | | | |]; subst. inversion H4 as [| | | | | | | | | |? ? Hb2]; subst.
    inversion H3 as [| |? ? ? ? p3 s3 ? ? H5 H6| | | | | | | |]; subst.
    apply (matches_times 12) in H5 as (w1 & -> & -> & Hl1 & Hw1). apply (matches_upto 7) in H6 as (w2 & -> & -> & Hl2 & Hw2).
    rewrite <- last_or_app in *. exists (w1 ++ w2). rewrite app_assoc in *. rewrite length_app.
    assert (Hw : digits (w1 ++ w2)) by (by apply Forall_app).
    assert (Hne : w1 ++ w2 ≠ []) by (destruct w1; simpl in Hl1; [lia|done]).
    rewrite head_digit in Hb1 by done. rewrite last_digit in Hb2 by done. simpl in Hl2.
    split_and!; try done; try lia; [by destruct (is_word p1)|by destruct (is_word (head s'))].
  - intros (w & -> & -> & Hl & Hw & Hp & Hs). assert (Hne : w ≠ []) by (destruct w; simpl in Hl; [lia|done]).
    econstructor; [constructor; by rewrite Hp, head_digit|].
    econstructor; [|constructor; by rewrite last_digit, Hs].
    econstructor; [apply (matches_times 12 _ _ (last_or p (take 12 w)) (drop 12 w ++ s'))|apply (matches_upto 7)].
    + exists (take 12 w). rewrite app_assoc, take_drop. split_and!; [done|done|rewrite length_take; lia|by apply Forall_take].
    + exists (drop 12 w). rewrite <- last_or_app, take_drop. split_and!; [done|done|rewrite length_drop; lia|by apply Forall_drop].
Qed.

(** Every such run is a candidate of its own. *)
Lemma run_found fuel prev a w b : (length (a ++ w ++ b) < fuel)%nat → (12 ≤ length w ≤ 19)%nat → digits w →
  is_word (last_or prev a) = false → is_word (head b) = false → w ∈ match_texts fuel run_pattern prev (a ++ w ++ b).
Proof.
  intros Hf Hl Hw Ha Hb. revert prev a Hf Ha. induction fuel as [|fuel IH]; intros prev a Hf Ha; [lia|]. cbn [match_texts].
  assert (Hm : matches run_pattern (last_or prev a) (w ++ b) (last_or (last_or prev a) w) b) by (apply run_matches; by exists w).
  destruct (search run_pattern prev (a ++ w ++ b)) as [[[skip len] cs]|] eqn:E; [|by apply search_complete in Hm].
  apply search_sound in E as (Hsl & Hm' & Hmin). specialize (Hmin a (w ++ b) _ _ eq_refl Hm).
  apply run_matches in Hm' as (w' & Es & _ & Hl' & Hw' & Hp' & Hs').
  assert (Hlen : length w' = len).
  { apply (f_equal length) in Es. rewrite length_app, !length_drop in Es. lia. }
  assert (Ew : take len (drop skip (a ++ w ++ b)) = w') by (by rewrite Es, <- Hlen, take_app_length).
  rewrite Ew. destruct (Nat.eqb_spec len 0); [lia|]. destruct (decide (skip + len ≤ length a)%nat) as [Hle|Hgt].
  - right. rewrite drop_app_le, take_app_le by done. apply IH; [|rewrite <- last_or_app; by rewrite take_drop].
    rewrite length_app, length_drop. rewrite length_app in Hf. lia.
  - assert (skip = length a) as ->.
    { destruct (decide (skip < length a)%nat) as [Hlt|]; [exfalso|lia].
      destruct (last a) as [c|] eqn:Hc; [|apply last_None in Hc; subst; simpl in Hlt; lia].
      unfold last_or in Ha. rewrite Hc in Ha. simpl in Ha. rewrite <- not_true_iff_false in Ha. apply Ha, digit_word.
      rewrite Forall_forall in Hw'. apply Hw', (list_elem_of_lookup_2 _ (length a - 1 - skip)). rewrite <- Ew, lookup_take_lt, lookup_drop by lia.
      rewrite last_lookup in Hc. rewrite lookup_app_l by lia. rewrite <- Hc. f_equal. lia. }
    rewrite drop_app_length in Ew. rewrite drop_app_add in Hs'. enough (w' = w) as -> by (by left).
    destruct (Nat.lt_trichotomy len (length w)) as [Hlt|[Heq|Hlt]].
    + exfalso. rewrite drop_app_le in Hs' by lia. rewrite head_digit in Hs'; [done|by apply Forall_drop|].
      intros E. apply (f_equal length) in E. rewrite length_drop in E. simpl in E. lia.
    + by rewrite <- Ew, Heq, take_app_length.
    + exfalso. destruct b as [|c b]; [rewrite !length_app in Hsl; simpl in Hsl; lia|]. simpl in Hb. rewrite <- not_true_iff_false in Hb.
      apply Hb, digit_word. rewrite Forall_forall in Hw'. apply Hw', (list_elem_of_lookup_2 _ (length w)).
      rewrite <- Ew, lookup_take_lt by lia. by rewrite list_lookup_middle.
Qed.

(** C32: No card survives.  The loop of [redactCardNumbers] ends at a fixed point of
    all its patterns, and there every candidate is free of cards: no candidate of 12
    to 19 digits passes the Luhn check, no stretch of whole groups of a longer one
    does, and neither do the twelve digits in front of a short tail.  In particular
    no unbroken run of 12 to 19 digits that stands by itself and passes the check is
    left anywhere in the text. *)
Theorem no_card_survives s :
  card_pass (redactCardNumbers s) = redactCardNumbers s ∧
  (∀ pattern m, pattern ∈ cardCandidatePatterns → m ∈ FindAllIndex pattern (redactCardNumbers s) →
     card_free (span (redactCardNumbers s) (f_start m) (f_end m))) ∧
  (∀ a w b, redactCardNumbers s = a ++ w ++ b → digits w → (12 ≤ length w ≤ 19)%nat →
     is_word (last a) = false → is_word (head b) = false → passesLuhn w = false).
Proof.
  split; [apply card_loop_fixed; lia|]. split.
  - intros pattern m Hp Hm. apply (redacted_candidates s pattern); [exact Hp|]. rewrite <- FindAll_texts.
    by apply (list_elem_of_fmap_2 (λ m, span (redactCardNumbers s) (f_start m) (f_end m))).
  - intros a w b E Hw Hl Ha Hb. assert (Hc : card_free w).
    { eapply (redacted_candidates s run_pattern); [by right; right; left|]. rewrite E. apply run_found; try done; [lia|].
      unfold last_or. by destruct (last a). }
    assert (Es : strip_separators w = w).
    { unfold strip_separators. clear -Hw. induction Hw as [|c w Hc _ IH]; simpl; [done|]. rewrite IH.
      replace (card_sep c) with false; [done|]. symmetry. apply bool_decide_eq_true in Hc. apply bool_decide_eq_false.
      change (txt " .-") with [32; 46; 45]. rewrite !elem_of_cons, elem_of_nil. lia. }
    rewrite <- Es. apply (cf_whole _ Hc). rewrite Es. lia.
Qed.
