(* ===== verification/SanitizeWalk.v ===== *)
(** The walk over key=value pairs ends, and the userinfo of a URL is hidden.

    The walk has no pattern that consumes a pair and no measure that falls with
    every rewrite; what bounds its loops is that each step moves an offset
    forward.  With as much fuel as the text has runes every loop returns. *)

From stdpp Require Import base numbers list strings.
From S2P Require Import Prelude GoText GoRegexp Sanitize.

Local Open Scope Z_scope.

(** ** Where the groups of the patterns lie *)

(** A captured group inside the match. *)
Lemma group_cons n a b cs : group ((n, (a, b)) :: cs) n = Some (a, b).
Proof. unfold group. simpl. by rewrite Nat.eqb_refl. Qed.

Lemma group_other n m ab cs : m ≠ n → group ((m, ab) :: cs) n = group cs n.
Proof. intros Hn. unfold group. simpl. by rewrite (proj2 (Nat.eqb_neq m n) Hn). Qed.

Lemma pair_groups p s len cs : match_at keyValuePattern p s = Some (len, cs) →
  (len ≤ length s)%nat ∧ ∃ a b, group cs 3 = Some (a, b) ∧ (0 < a < b)%nat ∧ b = len.
Proof.
  unfold match_at. intros Hm. cbn [keyValuePattern keyValuePair run_re] in Hm. destruct (xorb _ _); [|done].
  apply run_re_sound in Hm as (p1 & s1 & cs1 & H1 & Hm & _). apply run_re_sound in Hm as (p2 & s2 & cs2 & H2 & Hm & _).
  apply run_re_sound in Hm as (p3 & s3 & cs3 & H3 & [= <- <-] & _). apply matches_min_len in H1, H2, H3.
  change (min_len keyValueName) with 1%nat in H1. change (min_len keyValueSeparator) with 1%nat in H2.
  change (min_len (Plus keyValueValue)) with 1%nat in H3. split; [lia|]. eexists _, _. rewrite group_cons. split; [done|]. lia.
Qed.

Lemma run_re_seq {X} a b (k : option Z → text → nat → captures → option X) p s n cs :
  run_re (Seq a b) k p s n cs = run_re a (run_re b k) p s n cs.
Proof. done. Qed.

Lemma run_re_cap {X} m a (k : option Z → text → nat → captures → option X) p s n cs :
  run_re (Cap m a) k p s n cs = run_re a (λ p' s' n' cs', k p' s' n' ((m, (n, n')) :: cs')) p s n cs.
Proof. done. Qed.

Lemma ahead_groups p s len cs : match_at bareValueAheadPattern p s = Some (len, cs) →
  (len ≤ length s)%nat ∧ ∃ a b, group cs 1 = Some (a, b) ∧ (a < b)%nat ∧ b = len.
Proof.
  unfold match_at, bareValueAheadPattern. rewrite run_re_seq. intros Hm.
  apply run_re_sound in Hm as (p1 & s1 & cs1 & H1 & Hm & _). inversion H1; subst. rewrite run_re_seq in Hm.
  apply run_re_sound in Hm as (p2 & s2 & cs2 & H2 & Hm & _).
  rewrite run_re_cap in Hm.
  apply run_re_sound in Hm as (p3 & s3 & cs3 & H3 & [= <- <-] & _). apply matches_min_len in H2, H3.
  change (min_len (Plus keyValueValue)) with 1%nat in H3. split; [lia|]. eexists _, _. rewrite group_cons. split; [done|]. lia.
Qed.

(** A pair found from [pos] on has its value behind [pos]. *)
Lemma pair_found s pos loc : shift pos <$> search keyValuePattern None (drop pos s) = Some loc → (pos ≤ length s)%nat →
  (pos < (group_span loc 3).1 < (group_span loc 3).2)%nat ∧ ((group_span loc 3).2 ≤ length s)%nat.
Proof.
  intros Hs Hp. apply fmap_Some in Hs as ([[skip len] cs] & E & ->).
  apply search_match_at in E as [Hl Hm]. apply pair_groups in Hm as (Hl' & a & b & Hg & Hab & ->).
  unfold group_span. rewrite group_shift, Hg. rewrite !length_drop in *. simpl. lia.
Qed.

Lemma ahead_found t m : FindSubmatchIndex bareValueAheadPattern t = Some m →
  ((group_span m 1).1 < (group_span m 1).2 ≤ length t)%nat.
Proof.
  unfold FindSubmatchIndex. intros Hs. apply fmap_Some in Hs as ([[skip len] cs] & E & ->).
  apply search_match_at in E as [Hl Hm]. apply ahead_groups in Hm as (Hl' & a & b & Hg & Hab & ->).
  unfold group_span. rewrite group_shift, Hg. rewrite !length_drop in *. simpl. lia.
Qed.

Lemma prefix_found t m : FindSubmatchIndex keyPrefixPattern t = Some m → (0 < f_end m ≤ length t)%nat.
Proof.
  unfold FindSubmatchIndex. intros Hs. apply fmap_Some in Hs as ([[skip len] cs] & E & ->).
  apply search_sound in E as (Hl & Hm & _). apply matches_min_len in Hm. rewrite !length_drop in Hm.
  change (min_len keyPrefixPattern) with 2%nat in Hm. simpl. lia.
Qed.

Section walk.
Context `{Taxonomy}.
Implicit Types (s : text) (a b : nat).

(** ** The chain behind a sensitive key *)

Lemma introduces_behind s a b chained after : introducesAValue s a b chained = Some after → (b ≤ after)%nat.
Proof. unfold introducesAValue. repeat case_match; intros; simplify_eq; lia. Qed.

Lemma value_end_ends fuel s a b chained : (b ≤ length s)%nat → (length s - b < fuel)%nat →
  ∃ fin, value_end_loop fuel s a b chained = Some fin ∧ (b ≤ fin ≤ length s)%nat.
Proof.
  revert a b chained. induction fuel as [|fuel IH]; intros a b chained Hb Hf; [lia|]. cbn [value_end_loop].
  destruct (introducesAValue s a b chained) as [after|] eqn:E; [|by eexists]. apply introduces_behind in E.
  destruct (FindSubmatchIndex bareValueAheadPattern (drop after s)) as [ahead|] eqn:Ea; [|by eexists].
  apply ahead_found in Ea as Hg. rewrite length_drop in Hg.
  destruct (IH (after + (group_span ahead 1).1)%nat (after + (group_span ahead 1).2)%nat true) as (fin & H1 & H2); [lia|lia|].
  exists fin. split; [done|lia].
Qed.

Lemma sensitiveValueEnd_behind s a b : (b ≤ length s)%nat → ∃ fin, sensitiveValueEnd s a b = Some fin ∧ (b ≤ fin ≤ length s)%nat.
Proof. intros Hb. apply value_end_ends; lia. Qed.

(** ** The chain of keys inside a value *)

Lemma prefixInside_found s a b loc : prefixInsideValue s a b = Some loc → (0 < f_end loc ≤ b - a)%nat.
Proof.
  unfold prefixInsideValue. destruct (negb _); [done|]. intros Hl%prefix_found. unfold span in Hl. rewrite length_take in Hl. lia.
Qed.

Definition resolution_end (r : resolution) : nat := match r with Redact _ fin _ => fin | Rewind start => start end.

Lemma resolve_ends fuel s key a b : (a < b ≤ length s)%nat → (b - a ≤ fuel)%nat →
  ∃ r, resolve_loop fuel s key a b = Some r ∧ (a ≤ resolution_end r ≤ length s)%nat.
Proof.
  revert key a. induction fuel as [|fuel IH]; intros key a Hab Hf; [lia|]. cbn [resolve_loop].
  destruct (isSensitiveFieldName key).
  { destruct (sensitiveValueEnd_behind s a b) as (fin & -> & Hfin); [lia|]. eexists. split; [done|]. simpl. lia. }
  destruct (prefixInsideValue s a b) as [loc|] eqn:E.
  - apply prefixInside_found in E. case_bool_decide; [|eexists; split; [done|simpl; lia]].
    destruct (IH (span s (a + (group_span loc 1).1) (a + (group_span loc 1).2)) (a + f_end loc)%nat) as (r & H1 & H2); [lia|lia|].
    exists r. split; [done|lia].
  - destruct (MatchString _ _); (eexists; split; [done|simpl; lia]).
Qed.

Lemma pair_ends fuel m key a b : (a < b)%nat → (b - a ≤ fuel)%nat → ∃ r, pair_loop fuel m key a b = Some r.
Proof.
  revert key a. induction fuel as [|fuel IH]; intros key a Hab Hf; [lia|]. cbn [pair_loop].
  destruct (isSensitiveFieldName key); [by eexists|].
  destruct (FindSubmatchIndex keyPrefixPattern (span m a b)) as [inner|] eqn:E; [|by eexists].
  apply prefix_found in E. unfold span in E. rewrite length_take in E. case_bool_decide; [by eexists|]. apply IH; lia.
Qed.

(** The value of a match is not empty and ends inside the text. *)
Lemma pair_span m loc : FindSubmatchIndex keyValuePattern m = Some loc →
  ((group_span loc 3).1 < (group_span loc 3).2 ≤ length m)%nat.
Proof.
  unfold FindSubmatchIndex. intros Hs. apply fmap_Some in Hs as ([[skip len] cs] & E & ->).
  apply search_match_at in E as [Hl Hm]. apply pair_groups in Hm as (Hl' & a & b & Hg & Hab & ->).
  unfold group_span. rewrite group_shift, Hg. rewrite !length_drop in *. simpl. lia.
Qed.

Lemma redactKeyValuePair_ends m : is_Some (redactKeyValuePair m).
Proof.
  unfold redactKeyValuePair. destruct (FindSubmatchIndex keyValuePattern m) as [loc|] eqn:E; [|done]. apply pair_span in E.
  apply pair_ends; lia.
Qed.

(** ** The walk *)

Lemma pairs_end fuel s pos : (pos ≤ length s)%nat → (length s - pos < fuel)%nat → is_Some (pairs_loop fuel s pos).
Proof.
  revert pos. induction fuel as [|fuel IH]; intros pos Hp Hf; [lia|]. cbn [pairs_loop].
  destruct (negb _); [done|]. destruct (shift pos <$> search keyValuePattern None (drop pos s)) as [loc|] eqn:E; [|done].
  apply pair_found in E as (Hg & Hle); [|done].
  destruct (resolve_ends (length s) s (group_text s (f_groups loc) 1) (group_span loc 3).1 (group_span loc 3).2) as (r & Hr & He); [lia|lia|].
  unfold resolvePair. rewrite Hr. cbn. destruct r as [start fin sensitive|start]; cbn [resolution_end] in He; apply fmap_is_Some, IH; lia.
Qed.

(** C33: The walk over key=value pairs ends. Each of its loops returns with as much fuel as the text has runes, one step of fuel for one round of the loop: the loop over the pairs of the text, the loops over the keys nested in a value, in the text and in a single match, and the loop over the values that a sensitive key introduces. Running out of fuel is not a result: a loop that has not ended has none. *)
Theorem walk_ends s fuel : (length s ≤ fuel)%nat →
  is_Some (pairs_loop (S fuel) s 0) ∧ is_Some (redactKeyValuePairs s) ∧ is_Some (redactKeyValuePair s) ∧
  ∀ key a b, (a < b ≤ length s)%nat →
    is_Some (resolve_loop fuel s key a b) ∧ is_Some (pair_loop fuel s key a b) ∧
    ∀ chained, is_Some (value_end_loop (S fuel) s a b chained).
Proof.
  intros Hf. split_and!; [apply pairs_end; lia..|apply redactKeyValuePair_ends|]. intros key a b Hab. split_and!.
  - destruct (resolve_ends fuel s key a b) as (r & -> & _); [lia..|done].
  - apply pair_ends; lia.
  - intros chained. destruct (value_end_ends (S fuel) s a b chained) as (r & -> & _); [lia..|done].
Qed.
End walk.

(** ** The userinfo of a URL *)

Lemma last_index_none c s : c ∉ s → last_index c s = None.
Proof.
  induction s as [|d s IH]; [done|]. intros [Hd Hs]%not_elem_of_cons. cbn [last_index]. rewrite IH by done.
  by rewrite bool_decide_eq_false_2 by congruence.
Qed.

Lemma last_index_app c a b : c ∉ b → last_index c (a ++ c :: b) = Some (length a).
Proof.
  intros Hb. induction a as [|d a IH]; cbn [last_index app].
  - rewrite last_index_none by done. by rewrite bool_decide_eq_true_2.
  - by rewrite IH.
Qed.

Definition in_authority (c : Z) : Prop := c ≠ 47 ∧ c ≠ 63.

Lemma authority_app a b : Forall in_authority a → authority (a ++ b) = a ++ authority b.
Proof.
  induction 1 as [|c a [H1 H2] _ IH]; [done|]. cbn [authority app]. rewrite bool_decide_eq_false_2 by lia. by rewrite IH.
Qed.

(** A user name and password before the last @ of the authority leave no trace but
    the presence of the colon: the text written is a function of the rest. *)
Lemma userinfo_is_hidden scheme userinfo tail : index_of (txt "://") (scheme ++ txt "://" ++ userinfo ++ 64 :: tail) = Some (length scheme) →
  Forall in_authority userinfo → 64 ∉ authority tail →
  redactOneURL (scheme ++ txt "://" ++ userinfo ++ 64 :: tail) =
  scheme ++ txt "://" ++ SecretRedactionMarker ++
    (if contains (txt ":") userinfo then txt ":" ++ SecretRedactionMarker else []) ++ 64 :: tail.
Proof.
  intros Hi Hu Ht. unfold redactOneURL. rewrite Hi.
  replace (length scheme + 3)%nat with (length (scheme ++ txt "://")) by (rewrite length_app; done).
  rewrite (app_assoc scheme), drop_app_length, take_app_length, authority_app by done.
  change (authority (64 :: tail)) with (64 :: authority tail). rewrite last_index_app by done.
  rewrite drop_app_length, take_app_length. destruct (contains (txt ":") userinfo); by rewrite <-!app_assoc.
Qed.
