(* ===== verification/SanitizeExample.v ===== *)
(** The sanitizer on concrete texts, under a small taxonomy of field names. *)

From stdpp Require Import base numbers list strings.
From S2P Require Import Prelude GoText GoRegexp Sanitize SanitizeWalk.

Local Open Scope Z_scope.

(** A field is sensitive when its name is one of a few words, or an extra. *)
Definition sample_names : list text := txt <$> ["password"; "token"; "secret"]%string.
#[export] Instance sample_taxonomy : Taxonomy := λ field extras, existsb (eqt field) (sample_names ++ extras).

Definition says (input output : string) : bool := eqt (Sanitized (txt input)) (txt output).

(** A card in groups, in a run of groups, of fifteen digits, and an identifier of
    sixteen digits without a check digit. *)
Example says_cards :
  (says "pan 4111 1111 1111 1111 x" "pan **** x" && says "0000 4741 8529 6307 4182" "0000 ****"
   && says "3782 822463 10005" "****" && says "id 1234567890123456" "id 1234567890123456")%bool = true.
Proof. vm_compute. reflexivity. Qed.

(** Userinfo, a query parameter, a pair, a pair behind a harmless one, and a text
    without any of them. *)
Example says_fields :
  (says "postgres://bob:hunter2@db:5432/x" "postgres://****:****@db:5432/x"
   && says "GET /x?token=abc&page=2" "GET /x?token=****&page=2"
   && says "host=db password=hunter2 port=1" "host=db password=**** port=1"
   && says "nothing to hide" "nothing to hide")%bool = true.
Proof. vm_compute. reflexivity. Qed.

Lemma walk_ends_witness :
  let s := txt "host=db password=hunter2" in
  (length s ≤ 30)%nat ∧ is_Some (pairs_loop 31 s 0) ∧ redactKeyValuePairs s = Some (txt "host=db password=****") ∧
  is_Some (resolve_loop 30 s (txt "password") 17 24).
Proof.
  assert (Hl : (length (txt "host=db password=hunter2") ≤ 30)%nat) by (vm_compute; lia).
  destruct (walk_ends (txt "host=db password=hunter2") 30 Hl) as (H1 & _ & _ & H2). cbv zeta.
  split; [exact Hl|]. split; [exact H1|]. split; [vm_compute; reflexivity|].
  apply H2. vm_compute. lia.
Defined.
