(* ===== verification/SignedCursor.v ===== *)
(** Signed pagination cursors
    ([src/commons/net/http/signedcursor/signedcursor.go]).

    A token is the JSON body of an [envelope] followed by its HMAC, in base64url.
    The MAC, its SHA-256 and the encodings are the executable definitions of
    [GoBytes] and [GoJSON], so a codec runs on concrete bytes.  Byte strings
    ([[]byte], the terms of a binding, the token) are lists of bytes; a nil
    payload is [None]. *)

From stdpp Require Import base numbers list strings sets.
From S2P Require Import Prelude GoText GoBytes GoJSON.

Local Open Scope Z_scope.

Definition KeySize : nat := 32.
Definition version : Z := 1.
Definition MaxPayloadLen : Z := 2048.
Definition MaxTokenLen : Z := 4096.
Definition fingerprintBytes : nat := 16.

Definition bodyDomain : bytes := txt "lc-signedcursor-body-v1".
Definition identityDomain : bytes := txt "lc-signedcursor-identity-v1".
Definition contextDomain : bytes := txt "lc-signedcursor-context-v1".

Inductive cursor_error :=
| ErrInvalidKey | ErrEmptyIdentity | ErrPayloadTooLarge
| ErrMalformed | ErrSignature | ErrVersion | ErrIdentityMismatch | ErrContextMismatch.

#[export] Instance cursor_error_eq_dec : EqDecision cursor_error.
Proof. solve_decision. Defined.

(** [errors.Is(err, ErrInvalidCursor)]: the faults that are the caller's *)
Definition is_ErrInvalidCursor (e : cursor_error) : bool :=
  match e with
  | ErrMalformed | ErrSignature | ErrVersion | ErrIdentityMismatch | ErrContextMismatch => true
  | ErrInvalidKey | ErrEmptyIdentity | ErrPayloadTooLarge => false
  end.

Record Binding := { Identity : list bytes; Context_ : list bytes }.

#[export] Instance Binding_eq_dec : EqDecision Binding.
Proof. solve_decision. Defined.

Record envelope := {
  env_Version : Z;
  env_Payload : option bytes;
  env_Identity : text;
  env_Context : text;
}.

Record Codec := { key : bytes }.

Definition New (k : bytes) : result cursor_error Codec :=
  if bool_decide (length k = KeySize) then Ok {| key := k |} else Err ErrInvalidKey.

(** A nil receiver is [None]. *)
Definition usable (c : option Codec) : result cursor_error Codec :=
  match c with
  | Some c => if bool_decide (length (key c) = KeySize) then Ok c else Err ErrInvalidKey
  | None => Err ErrInvalidKey
  end.

Definition hasIdentity (terms : list bytes) : bool := existsb (λ t, negb (is_empty t)) terms.

(** What [mac] writes into the HMAC. *)
Definition mac_message (domain : bytes) (parts : list bytes) : bytes :=
  domain ++ (parts ≫= λ part, be64 (Z.of_nat (length part)) ++ part).

Definition mac (c : Codec) (domain : bytes) (parts : list bytes) : bytes :=
  hmac_sha256 (key c) (mac_message domain parts).

Definition fingerprint (c : Codec) (domain : bytes) (terms : list bytes) : bytes :=
  b64_encode RawURLEncoding (take fingerprintBytes (mac c domain terms)).

(** [json.Marshal] and [json.Unmarshal] of an [envelope] *)
Definition envelope_json (e : envelope) : json :=
  JObj [(txt "v", JNum (Itoa (env_Version e)));
        (txt "p", match env_Payload e with Some b => JStr (b64_encode StdEncoding b) | None => JNull end);
        (txt "i", JStr (env_Identity e)); (txt "c", JStr (env_Context e))].

Definition marshal_envelope (e : envelope) : bytes := utf8_encode (json_print (envelope_json e)).

Definition zero_envelope : envelope := {| env_Version := 0; env_Payload := None; env_Identity := []; env_Context := [] |}.

#[export] Instance envelope_eta : Eta envelope :=
  λ e, {| env_Version := env_Version e; env_Payload := env_Payload e; env_Identity := env_Identity e; env_Context := env_Context e |}.

Definition field_v : field envelope := Field (txt "v") (read_int (λ v e, e <| env_Version := v |>%go)).
Definition field_p : field envelope := Field (txt "p") (read_bytes env_Payload (λ p e, e <| env_Payload := p |>%go)).
Definition field_i : field envelope := Field (txt "i") (read_string (λ i e, e <| env_Identity := i |>%go)).
Definition field_c : field envelope := Field (txt "c") (read_string (λ t e, e <| env_Context := t |>%go)).

Definition envelope_fields : list (field envelope) := [field_v; field_p; field_i; field_c].

Definition unmarshal_envelope (body : bytes) : option envelope := json_unmarshal envelope_fields zero_envelope body.

(** The body [Encode] signs. *)
Definition minted_envelope (c : Codec) (payload : option bytes) (binding : Binding) : envelope :=
  {| env_Version := version; env_Payload := payload;
     env_Identity := fingerprint c identityDomain (Identity binding);
     env_Context := fingerprint c contextDomain (Context_ binding) |}.

Definition Encode (c : option Codec) (payload : option bytes) (binding : Binding) : result cursor_error bytes :=
  c ← usable c;
  if negb (hasIdentity (Identity binding)) then Err ErrEmptyIdentity
  else if bool_decide (MaxPayloadLen < Z.of_nat (length (default [] payload))) then Err ErrPayloadTooLarge
  else let body := marshal_envelope (minted_envelope c payload binding) in
       Ok (b64_encode RawURLEncoding (body ++ mac c bodyDomain [body])).

Definition Decode (c : option Codec) (token : bytes) (binding : Binding) : result cursor_error (option bytes) :=
  c ← usable c;
  if negb (hasIdentity (Identity binding)) then Err ErrEmptyIdentity
  else if bool_decide (MaxTokenLen < Z.of_nat (length token)) then Err ErrMalformed
  else match b64_decode RawURLEncoding token with
  | None => Err ErrMalformed
  | Some raw =>
    if bool_decide (length raw ≤ 32)%nat then Err ErrMalformed
    else let body := take (length raw - 32) raw in let tag := drop (length raw - 32) raw in
    if negb (bool_decide (tag = mac c bodyDomain [body])) then Err ErrSignature
    else match unmarshal_envelope body with
    | None => Err ErrMalformed
    | Some env =>
      if negb (bool_decide (env_Version env = version)) then Err ErrVersion
      else if negb (bool_decide (utf8_encode (env_Identity env) = fingerprint c identityDomain (Identity binding)))
      then Err ErrIdentityMismatch
      else if negb (bool_decide (utf8_encode (env_Context env) = fingerprint c contextDomain (Context_ binding)))
      then Err ErrContextMismatch
      else Ok (env_Payload env)
    end
  end.

(** ** What is signed

    A label that is no prefix of another, then the parts, each with its length:
    no two inputs of [mac] are the same bytes. *)

(** A term, as a Go string or slice, is shorter than [2^63]. *)
Definition fits (part : bytes) : Prop := Z.of_nat (length part) < 2 ^ 63.

Lemma parts_inj ps qs : Forall fits ps → Forall fits qs →
  (ps ≫= λ part, be64 (Z.of_nat (length part)) ++ part) = (qs ≫= λ part, be64 (Z.of_nat (length part)) ++ part) → ps = qs.
Proof.
  intros Hp. revert qs. induction Hp as [|p ps Hp _ IH]; intros [|q qs] Hq E; [done| | |].
  - apply (f_equal length) in E. cbn [mbind list_bind] in E. rewrite !length_app in E. unfold be64 in E. rewrite be_bytes_length in E. simpl in E. lia.
  - apply (f_equal length) in E. cbn [mbind list_bind] in E. rewrite !length_app in E. unfold be64 in E. rewrite be_bytes_length in E. simpl in E. lia.
  - apply Forall_cons in Hq as [Hq Hqs]. cbn [mbind list_bind] in E. rewrite <- !app_assoc in E.
    apply app_inj_1 in E as [E1 E]; [|unfold be64; by rewrite !be_bytes_length].
    unfold fits in *. apply be64_inj in E1; [|lia..]. apply app_inj_1 in E as [-> E]; [|lia].
    f_equal. by apply IH.
Qed.

Lemma mac_message_inj d ps qs : Forall fits ps → Forall fits qs → mac_message d ps = mac_message d qs → ps = qs.
Proof. intros Hp Hq E. apply app_inv_head in E. by apply parts_inj. Qed.

Definition labels : list bytes := [bodyDomain; identityDomain; contextDomain].

Lemma body_label : bodyDomain ∈ labels.
Proof. left. Qed.

Lemma identity_label : identityDomain ∈ labels.
Proof. right. left. Qed.

Lemma context_label : contextDomain ∈ labels.
Proof. right. right. left. Qed.

(** The labels differ in their seventeenth byte. *)
Lemma mac_message_domain d : d ∈ labels → ∀ ps, mac_message d ps !! 16%nat = d !! 16%nat.
Proof.
  intros Hd ps. unfold mac_message. apply lookup_app_l. unfold labels in Hd. rewrite !elem_of_cons, elem_of_nil in Hd. destruct Hd as [->|[->|[->|[]]]]; vm_compute; lia.
Qed.

Lemma mac_inputs_disjoint d d' ps qs :
  d ∈ labels → d' ∈ labels →
  Forall fits ps → Forall fits qs → mac_message d ps = mac_message d' qs → d = d' ∧ ps = qs.
Proof.
  intros Hd Hd' Hp Hq E. assert (d = d') as <-.
  { apply (f_equal (.!! 16%nat)) in E. rewrite !mac_message_domain in E by done.
    unfold labels in *. rewrite !elem_of_cons, elem_of_nil in Hd, Hd'. destruct Hd as [->|[->|[->|[]]]], Hd' as [->|[->|[->|[]]]]; done. }
  split; [done|]. by eapply mac_message_inj.
Qed.

(** ** The envelope is read back *)

Lemma ascii_scalar s : Forall (λ r, 0 ≤ r < 128) s → Forall is_scalar s.
Proof. intros Hs. eapply Forall_impl; [exact Hs|]. intros r Hr. left. cbn in Hr. lia. Qed.

Lemma fingerprint_ascii c d ts : Forall (λ r, 0 ≤ r < 128) (fingerprint c d ts).
Proof. apply b64_ascii; [done..|]. apply Forall_take, hmac_bytes. Qed.

Definition payload_ok (payload : option bytes) : Prop := Forall is_byte (default [] payload).

Lemma envelope_flat c payload b :
  payload_ok payload → match envelope_json (minted_envelope c payload b) with JObj ms => Forall flat_member ms | _ => False end.
Proof.
  intros Hp. unfold envelope_json. rewrite !Forall_cons. cbn [minted_envelope env_Version env_Payload env_Identity env_Context].
  assert (∀ k, Forall (λ r, 0 ≤ r < 128) k → Forall is_scalar k) as Hs by apply ascii_scalar.
  split_and!; [split; [by apply (bool_decide_unpack _)|split; reflexivity]|split; [by apply (bool_decide_unpack _)|]..|done].
  - destruct payload; simpl; [|done]. apply Hs, b64_ascii; done.
  - apply Hs, fingerprint_ascii.
  - apply Hs, fingerprint_ascii.
Qed.

Lemma envelope_round_trip c payload b :
  payload_ok payload → unmarshal_envelope (marshal_envelope (minted_envelope c payload b)) = Some (minted_envelope c payload b).
Proof.
  intros Hp. unfold unmarshal_envelope, json_unmarshal, marshal_envelope, envelope_json.
  rewrite json_round_trip by by apply envelope_flat. cbn [mbind option_bind read_struct].
  rewrite (read_members_cons _ field_v _ _ _ _ (zero_envelope <| env_Version := version |>)%go) by reflexivity.
  rewrite (read_members_cons _ field_p _ _ _ _ (zero_envelope <| env_Version := version |> <| env_Payload := payload |>)%go).
  - reflexivity.
  - reflexivity.
  - destruct payload as [p|]; [|reflexivity]. by apply read_bytes_encoded.
Qed.

Lemma quote_ascii e b : 0 ≤ b64_62 e < 128 → 0 ≤ b64_63 e < 128 → b64_unescaped e = true → Forall is_byte b →
  Forall (λ r, 0 ≤ r < 128) (json_quote (b64_encode e b)) ∧
  length (json_quote (b64_encode e b)) = S (S (length (b64_encode e b))).
Proof.
  intros H1 H2 He Hb. rewrite json_quote_b64 by done. split; [|rewrite !length_app; simpl; lia].
  rewrite !Forall_app, !Forall_singleton. split; [lia|split; [by apply b64_ascii|lia]].
Qed.

(** The body is ASCII: at most four bytes for three of the payload, and 74 more. *)
Lemma body_shape c payload b : payload_ok payload →
  let body := marshal_envelope (minted_envelope c payload b) in
  Forall is_byte body ∧ Z.of_nat (length body) ≤ (Z.of_nat (length (default [] payload)) + 2) / 3 * 4 + 74.
Proof.
  intros Hp. cbn zeta. unfold marshal_envelope.
  set (p := match payload with Some x => JStr (b64_encode StdEncoding x) | None => JNull end).
  assert (Hq : Forall (λ r, 0 ≤ r < 128) (json_print p) ∧
               Z.of_nat (length (json_print p)) ≤ (Z.of_nat (length (default [] payload)) + 2) / 3 * 4 + 4).
  { destruct payload as [x|]; [|split; [by apply (bool_decide_unpack _)|done]]. change (default [] (Some x)) with x in *. subst p. cbn [json_print].
    destruct (quote_ascii StdEncoding x) as [? ->]; [done..|]. split; [done|]. pose proof (Std_length x). lia. }
  assert (Hf : ∀ d ts, Forall (λ r, 0 ≤ r < 128) (json_quote (fingerprint c d ts)) ∧ length (json_quote (fingerprint c d ts)) = 24%nat).
  { intros d ts. assert (Forall is_byte (take fingerprintBytes (mac c d ts))) as Hb by apply Forall_take, hmac_bytes.
    destruct (quote_ascii RawURLEncoding (take fingerprintBytes (mac c d ts))) as [Ha Hl]; [done..|]. split; [done|].
    unfold fingerprint. rewrite Hl. pose proof (RawURL_length (take fingerprintBytes (mac c d ts))) as E.
    unfold mac in E at 2. rewrite length_take, hmac_length in E. change (Z.of_nat (fingerprintBytes `min` 32)) with 16 in E.
    change ((16 * 4 + 2) / 3) with 22 in E. lia. }
  unfold envelope_json. cbn [minted_envelope env_Version env_Payload env_Identity env_Context json_print map commas]. fold p.
  destruct Hq as [Ha Hl], (Hf identityDomain (Identity b)) as [Hi Hil], (Hf contextDomain (Context_ b)) as [Hc Hcl].
  match goal with |- Forall is_byte (utf8_encode ?t) ∧ _ => assert (Ht : Forall (λ r, 0 ≤ r < 128) t) end.
  { rewrite !Forall_app. split_and!; first [done|by apply (bool_decide_unpack _)]. }
  rewrite utf8_encode_ascii by done. split; [eapply Forall_impl; [exact Ht|]; intros r Hr; unfold is_byte; cbn in Hr; lia|].
  rewrite !length_app, Hil, Hcl. change (length (json_quote (txt _))) with 3%nat. change (length (Itoa version)) with 1%nat.
  cbn [length]. lia.
Qed.

Lemma marshal_nonempty e : marshal_envelope e ≠ [].
Proof.
  unfold marshal_envelope, envelope_json, utf8_encode. cbn [json_print app mbind list_bind].
  change (utf8_rune 123) with [123]. done.
Qed.

Lemma split_tag (body tag : bytes) : length tag = 32%nat →
  take (length (body ++ tag) - 32) (body ++ tag) = body ∧ drop (length (body ++ tag) - 32) (body ++ tag) = tag.
Proof. intros Ht. rewrite length_app, Ht, Nat.add_sub. by rewrite take_app_length, drop_app_length. Qed.

(** ** Round trip *)

Section codec.
Context (c : Codec) (Hkey : length (key c) = KeySize).

Lemma usable_codec : usable (Some c) = Ok c.
Proof using Hkey. unfold usable. by rewrite bool_decide_true. Qed.

Lemma Encode_ok payload b token : Encode (Some c) payload b = Ok token →
  hasIdentity (Identity b) = true ∧ Z.of_nat (length (default [] payload)) ≤ MaxPayloadLen ∧
  let body := marshal_envelope (minted_envelope c payload b) in
  token = b64_encode RawURLEncoding (body ++ mac c bodyDomain [body]).
Proof using Hkey.
  unfold Encode. rewrite usable_codec. cbn [mbind result_bind].
  destruct (hasIdentity _); [|done]. cbn [negb]. case_bool_decide; [done|]. intros E. apply Ok_inj in E. split; [done|]. split; [lia|by symmetry].
Qed.

Lemma token_length payload b : payload_ok payload → Z.of_nat (length (default [] payload)) ≤ MaxPayloadLen →
  let body := marshal_envelope (minted_envelope c payload b) in
  Z.of_nat (length (b64_encode RawURLEncoding (body ++ mac c bodyDomain [body]))) ≤ MaxTokenLen.
Proof using Type.
  clear Hkey.
  intros Hp Hl body. rewrite RawURL_length, length_app. unfold mac. rewrite hmac_length.
  destruct (body_shape c payload b Hp) as [_ Hb]. fold body in Hb. unfold MaxPayloadLen, MaxTokenLen in *.
  rewrite Nat2Z.inj_add. apply Z.div_le_upper_bound; [lia|].
  assert ((Z.of_nat (length (default [] payload)) + 2) / 3 < 684) by (apply Z.div_lt_upper_bound; lia).
  change (Z.of_nat 32) with 32. lia.
Qed.

(** A token reaches the comparison of the fingerprints. *)
Lemma Decode_signed body b : Forall is_byte body → hasIdentity (Identity b) = true →
  let token := b64_encode RawURLEncoding (body ++ mac c bodyDomain [body]) in
  Z.of_nat (length token) ≤ MaxTokenLen → body ≠ [] →
  Decode (Some c) token b =
  match unmarshal_envelope body with
  | None => Err ErrMalformed
  | Some env =>
    if negb (bool_decide (env_Version env = version)) then Err ErrVersion
    else if negb (bool_decide (utf8_encode (env_Identity env) = fingerprint c identityDomain (Identity b)))
    then Err ErrIdentityMismatch
    else if negb (bool_decide (utf8_encode (env_Context env) = fingerprint c contextDomain (Context_ b)))
    then Err ErrContextMismatch
    else Ok (env_Payload env)
  end.
Proof using Hkey.
  intros Hb Hi token Hl Hne. unfold Decode. rewrite usable_codec. cbn [mbind result_bind]. rewrite Hi. cbn [negb].
  rewrite bool_decide_false by lia. unfold token.
  rewrite RawURL_round_trip by (apply Forall_app; split; [done|apply hmac_bytes]).
  destruct (split_tag body (mac c bodyDomain [body])) as [E1 E2]; [apply hmac_length|].
  rewrite bool_decide_false by (rewrite length_app; unfold mac; rewrite hmac_length; destruct body; simpl in *; [done|lia]).
  cbn zeta. rewrite E1, E2, (bool_decide_true (mac _ _ _ = _)) by done. done.
Qed.

Lemma minted_fingerprints payload b :
  utf8_encode (env_Identity (minted_envelope c payload b)) = fingerprint c identityDomain (Identity b) ∧
  utf8_encode (env_Context (minted_envelope c payload b)) = fingerprint c contextDomain (Context_ b).
Proof using Type. cbn [minted_envelope env_Identity env_Context]. by rewrite !utf8_encode_ascii by apply fingerprint_ascii. Qed.

(** ** Whom a token was minted for

    [history] is what the holders of the key have minted; [mac_messages] the
    messages they have computed a MAC of while doing so. *)

Definition mint : Type := option bytes * Binding.

Definition mint_ok (m : mint) : Prop :=
  payload_ok m.1 ∧ is_ok (Encode (Some c) m.1 m.2) = true ∧ Forall fits (Identity m.2) ∧ Forall fits (Context_ m.2).

Definition mint_messages (m : mint) : list bytes :=
  [mac_message bodyDomain [marshal_envelope (minted_envelope c m.1 m.2)];
   mac_message identityDomain (Identity m.2); mac_message contextDomain (Context_ m.2)].

Definition mac_messages (history : list mint) : list bytes := history ≫= mint_messages.

(** The token carries the MAC of a message that nobody has computed it of. *)
Definition forged (history : list mint) (token : bytes) : Prop :=
  ∃ body tag, b64_decode RawURLEncoding token = Some (body ++ tag) ∧
    tag = hmac_sha256 (key c) (mac_message bodyDomain [body]) ∧ mac_message bodyDomain [body] ∉ mac_messages history.

(** Two different lists of terms have the same sixteen bytes of MAC. *)
Definition terms_collide (domain : bytes) (ts us : list bytes) : Prop :=
  mac_message domain ts ≠ mac_message domain us ∧
  take fingerprintBytes (hmac_sha256 (key c) (mac_message domain ts)) =
  take fingerprintBytes (hmac_sha256 (key c) (mac_message domain us)).

Definition collides (history : list mint) (b : Binding) : Prop :=
  ∃ m, m ∈ history ∧
    (terms_collide identityDomain (Identity b) (Identity m.2) ∨ terms_collide contextDomain (Context_ b) (Context_ m.2)).

Lemma fingerprint_eq domain ts us :
  domain ∈ labels → Forall fits ts → Forall fits us →
  fingerprint c domain ts = fingerprint c domain us → ts = us ∨ terms_collide domain ts us.
Proof using Type.
  intros Hd Ht Hu E. destruct (decide (ts = us)) as [|Hne]; [by left|right]. split.
  - intros E'. apply mac_inputs_disjoint in E' as [_ E']; done.
  - unfold fingerprint in E. apply (f_equal (b64_decode RawURLEncoding)) in E.
    rewrite !RawURL_round_trip in E by apply Forall_take, hmac_bytes. by injection E.
Qed.

Lemma terms_collide_sym domain ts us : terms_collide domain ts us → terms_collide domain us ts.
Proof using Type. intros [H1 H2]. split; [by intros E; apply H1|done]. Qed.

(** A body that was signed is the body of a mint. *)
Lemma signed_body history body :
  Forall mint_ok history → fits body → mac_message bodyDomain [body] ∈ mac_messages history →
  ∃ m, m ∈ history ∧ body = marshal_envelope (minted_envelope c m.1 m.2).
Proof using Hkey.
  intros Hh Hb Hm. unfold mac_messages in Hm. apply list_elem_of_bind in Hm as (m & Hm & Hin). exists m. split; [done|].
  rewrite Forall_forall in Hh. destruct (Hh m Hin) as (Hp & He & Hi & Hc).
  destruct (Encode (Some c) m.1 m.2) as [token|] eqn:E; [|done]. apply Encode_ok in E as (_ & Hl & _).
  assert (fits (marshal_envelope (minted_envelope c m.1 m.2))).
  { destruct (body_shape c m.1 m.2 Hp) as [_ Hs]. unfold fits, MaxPayloadLen in *.
    assert ((Z.of_nat (length (default [] m.1)) + 2) / 3 < 684) by (apply Z.div_lt_upper_bound; lia). lia. }
  unfold mint_messages in Hm. rewrite !elem_of_cons, elem_of_nil in Hm.
  destruct Hm as [Hm|[Hm|[Hm|[]]]]; apply mac_inputs_disjoint in Hm as [Hd Hm];
    [|apply body_label|(apply body_label || apply identity_label || apply context_label)
     |by apply Forall_singleton|(done || by apply Forall_singleton)..].
  by injection Hm.
Qed.
End codec.

(** a token that [Encode] mints for a payload of at most [MaxPayloadLen] bytes
    is never longer than [Decode] admits, and [Decode] gives the payload back to
    the binding it was minted under. *)
Theorem signed_cursor_round_trip c payload b :
  length (key c) = KeySize → payload_ok payload →
  hasIdentity (Identity b) = true → Z.of_nat (length (default [] payload)) ≤ MaxPayloadLen →
  ∃ token, Encode (Some c) payload b = Ok token ∧ Z.of_nat (length token) ≤ MaxTokenLen ∧
    Decode (Some c) token b = Ok payload.
Proof.
  intros Hk Hp Hi Hl. pose proof (token_length c payload b Hp Hl) as Ht. cbn zeta in Ht.
  eexists. split; [|split; [exact Ht|]].
  - unfold Encode. rewrite usable_codec by done. cbn [mbind result_bind]. rewrite Hi. cbn [negb].
    by rewrite bool_decide_false by lia.
  - destruct (body_shape c payload b Hp) as [Hb _]. destruct (minted_fingerprints c payload b) as [E1 E2].
    rewrite Decode_signed; [|done|done|done|exact Ht|].
    + rewrite envelope_round_trip by done. rewrite E1, E2. rewrite !bool_decide_true by done. done.
    + apply marshal_nonempty.
Qed.

(** C23: whatever has been minted under the key, a token that [Decode] accepts for
    a binding either gives back a payload that was minted under exactly this
    binding, or carries the HMAC of a body nobody signed, or exhibits two different
    lists of terms whose truncated HMACs are equal: an edited, replayed or
    re-bound cursor is as hard to make as one of the latter two. *)
Theorem signed_cursor_is_bound c history token b payload :
  length (key c) = KeySize → Forall (mint_ok c) history → Forall fits (Identity b) → Forall fits (Context_ b) →
  Decode (Some c) token b = Ok payload →
  (payload, b) ∈ history ∨ forged c history token ∨ collides c history b.
Proof.
  intros Hk Hh Hi Hc. unfold Decode. rewrite usable_codec by done. cbn [mbind result_bind].
  destruct (hasIdentity _) eqn:Hid; [|done]. cbn [negb]. case_bool_decide as Hlen; [done|].
  destruct (b64_decode RawURLEncoding token) as [raw|] eqn:Er; [|done]. case_bool_decide as Hraw; [done|].
  set (body := take (length raw - 32) raw). set (tag := drop (length raw - 32) raw).
  assert (raw = body ++ tag) as Es by (unfold body, tag; by rewrite take_drop).
  case_bool_decide as Htag; [|done]. cbn [negb].
  destruct (decide (mac_message bodyDomain [body] ∈ mac_messages c history)) as [Hm|Hm].
  2: { intros _. right; left. exists body, tag. by rewrite <- Es. }
  apply signed_body in Hm as ([p' b'] & Hin & Eb); [|done|done|].
  2: { unfold fits. apply b64_decode_length in Er. unfold body, MaxTokenLen in *. rewrite length_take. lia. }
  cbn [fst snd] in Eb. rewrite Forall_forall in Hh. destruct (Hh _ Hin) as (Hp & _ & Hi' & Hc'). cbn [fst snd] in *.
  rewrite Eb, envelope_round_trip by done. destruct (minted_fingerprints c p' b') as [-> ->].
  case_bool_decide; [|done]. case_bool_decide as E1; [|done]. case_bool_decide as E2; [|done]. cbn [negb]. intros [= <-].
  apply fingerprint_eq in E1 as [E1|E1]; [|right; right; exists (p', b'); split; [done|by left; apply terms_collide_sym]|apply identity_label|done|done].
  apply fingerprint_eq in E2 as [E2|E2]; [|right; right; exists (p', b'); split; [done|by right; apply terms_collide_sym]|apply context_label|done|done].
  left. destruct b, b'. cbn [Identity Context_] in E1, E2. by rewrite <- E1, <- E2.
Qed.

(** A minted token that is presented under another binding is named for what it
    is: another identity first, whatever its context, then another context. *)
Lemma rebound_cursor_refused c payload b' token b :
  length (key c) = KeySize → payload_ok payload → Encode (Some c) payload b' = Ok token →
  hasIdentity (Identity b) = true → Forall fits (Identity b) → Forall fits (Context_ b) →
  Forall fits (Identity b') → Forall fits (Context_ b') → ¬ collides c [(payload, b')] b →
  Decode (Some c) token b =
  if negb (bool_decide (Identity b = Identity b')) then Err ErrIdentityMismatch
  else if negb (bool_decide (Context_ b = Context_ b')) then Err ErrContextMismatch else Ok payload.
Proof.
  intros Hk Hp He Hid Hi Hc Hi' Hc' Hn. apply Encode_ok in He as (_ & Hl & ->); [|done].
  pose proof (token_length c payload b' Hp Hl) as Ht. destruct (body_shape c payload b' Hp) as [Hb _].
  destruct (minted_fingerprints c payload b') as [E1 E2].
  rewrite Decode_signed; [|done|done|done|exact Ht|apply marshal_nonempty]. rewrite envelope_round_trip by done.
  rewrite E1, E2. rewrite (bool_decide_true (env_Version _ = _)) by done. cbn [negb env_Payload minted_envelope].
  assert (∀ d ts us, d ∈ labels → Forall fits ts → Forall fits us → ¬ terms_collide c d us ts →
    bool_decide (fingerprint c d ts = fingerprint c d us) = bool_decide (us = ts)) as Hf.
  { intros d ts us Hd Hts Hus Hnc. apply bool_decide_ext. split; [|by intros ->]. intros E.
    apply fingerprint_eq in E as [E|E]; [done| |done..]. by apply terms_collide_sym in E. }
  rewrite !Hf; [done|apply context_label|done|done| |apply identity_label|done|done|];
    intros Hcol; apply Hn; exists (payload, b'); (split; [left|]); [by right|by left].
Qed.

(** ** A codec at work *)

Definition sample_codec : Codec := {| key := seqZ 1 32 |}.
Definition tenant_a : Binding := {| Identity := [txt "tenant-a"; txt "ab"; txt "c"]; Context_ := [txt "2026-09-01T00:00:00Z"; txt "asc"] |}.
Definition tenant_b : Binding := {| Identity := [txt "tenant-a"; txt "a"; txt "bc"]; Context_ := [txt "2026-09-01T00:00:00Z"; txt "asc"] |}.
Definition last_row : option bytes := Some (txt "row-41").

(** The identities differ only in where one term ends. *)
Example rebound_sample :
  Encode (Some sample_codec) last_row tenant_a ≫= (λ t, Decode (Some sample_codec) t tenant_b) = Err ErrIdentityMismatch.
Proof. vm_compute. reflexivity. Qed.

Lemma signed_cursor_round_trip_witness :
  ∃ token, Encode (Some sample_codec) last_row tenant_a = Ok token ∧ Z.of_nat (length token) ≤ MaxTokenLen ∧
    Decode (Some sample_codec) token tenant_a = Ok last_row.
Proof.
  apply (signed_cursor_round_trip sample_codec last_row tenant_a);
    [reflexivity|refine (bool_decide_unpack _ _); vm_compute; exact I|reflexivity|vm_compute; discriminate].
Defined.

Definition sample_token : bytes := Eval vm_compute in from_ok [] (Encode (Some sample_codec) last_row tenant_a).

Lemma signed_cursor_is_bound_witness :
  Decode (Some sample_codec) sample_token tenant_a = Ok last_row ∧
  ((last_row, tenant_a) ∈ [(last_row, tenant_a)] ∨ forged sample_codec [(last_row, tenant_a)] sample_token ∨
   collides sample_codec [(last_row, tenant_a)] tenant_a).
Proof.
  assert (Hd : Decode (Some sample_codec) sample_token tenant_a = Ok last_row) by (vm_compute; reflexivity).
  assert (Hf : Forall fits (Identity tenant_a) ∧ Forall fits (Context_ tenant_a)) by (split; repeat constructor).
  split; [exact Hd|].
  apply (signed_cursor_is_bound sample_codec [(last_row, tenant_a)] sample_token tenant_a last_row);
    [reflexivity| |apply Hf|apply Hf|exact Hd].
  apply Forall_singleton. split; [refine (bool_decide_unpack _ _); vm_compute; exact I|].
  split; [vm_compute; reflexivity|exact Hf].
Defined.
