(* ===== verification/Pagination.v ===== *)
(** Pagination of list endpoints ([src/commons/net/http]): limits and offsets
    ([pagination.go]), cursors by id ([cursor.go]), by timestamp
    ([pagination_timestamp.go]) and by a sort column ([pagination_sort.go]).

    A cursor token is the base64 of a JSON object, by the executable definitions
    of [GoBytes] and [GoJSON]; the query of a request is a function from
    parameter names to values, with the empty text for one that is absent. *)

From stdpp Require Import base numbers list sorting strings sets.
From S2P Require Import Prelude GoText GoBytes GoJSON.

Local Open Scope Z_scope.

Definition DefaultLimit : Z := 20.
Definition DefaultOffset : Z := 0.
Definition MaxLimit : Z := 200.
Definition SortDirASC : text := txt "ASC".
Definition SortDirDESC : text := txt "DESC".
Definition CursorDirectionNext : text := txt "next".
Definition CursorDirectionPrev : text := txt "prev".

(** What makes a token an [ErrInvalidCursor]. *)
Inductive cursor_fault := EmptyID | DecodeFailed | UnmarshalFailed | MissingID | EmptyColumn | InvalidColumn | NilID | ParseFailed.

#[export] Instance cursor_fault_eq_dec : EqDecision cursor_fault.
Proof. solve_decision. Defined.

Inductive page_error :=
| ErrContextNotFound
| ErrLimitMustBePositive
| InvalidLimit
| InvalidOffset
| MarshalFailed
| ErrInvalidCursor (why : cursor_fault)
| ErrInvalidCursorDirection.

#[export] Instance page_error_eq_dec : EqDecision page_error.
Proof. solve_decision. Defined.

(** ** Limits and offsets *)

Definition ValidateLimit (limit defaultLimit maxLimit : Z) : Z :=
  if bool_decide (limit ≤ 0) then defaultLimit else if bool_decide (maxLimit < limit) then maxLimit else limit.

Definition ValidateLimitStrict (limit maxLimit : Z) : result page_error Z :=
  if bool_decide (limit ≤ 0) then Err ErrLimitMustBePositive
  else if bool_decide (maxLimit < limit) then Ok maxLimit else Ok limit.

(** A nil context is [None]. *)
Definition fiberCtx : Type := option (text → text).

Definition ParsePagination (ctx : fiberCtx) : result page_error (Z * Z) :=
  match ctx with
  | None => Err ErrContextNotFound
  | Some Query =>
    limit ← (if is_empty (Query (txt "limit")) then Ok DefaultLimit
             else match Atoi (Query (txt "limit")) with Some n => Ok n | None => Err InvalidLimit end);
    offset ← (if is_empty (Query (txt "offset")) then Ok DefaultOffset
              else match Atoi (Query (txt "offset")) with Some n => Ok n | None => Err InvalidOffset end);
    let limit := if bool_decide (limit ≤ 0) then DefaultLimit else limit in
    let limit := if bool_decide (MaxLimit < limit) then MaxLimit else limit in
    let offset := if bool_decide (offset < 0) then DefaultOffset else offset in
    Ok (limit, offset)
  end.

(** The limit of the cursor endpoints. *)
Definition query_limit (Query : text → text) : result page_error Z :=
  if is_empty (Query (txt "limit")) then Ok DefaultLimit
  else match Atoi (Query (txt "limit")) with
       | Some n => Ok (ValidateLimit n DefaultLimit MaxLimit)
       | None => Err InvalidLimit
       end.

Definition ParseOpaqueCursorPagination (ctx : fiberCtx) : result page_error (text * Z) :=
  match ctx with
  | None => Err ErrContextNotFound
  | Some Query => limit ← query_limit Query; Ok (Query (txt "cursor"), limit)
  end.

(** ** Cursors by id *)

Record Cursor := { ID : text; Direction : text }.

#[export] Instance Cursor_eq_dec : EqDecision Cursor.
Proof. solve_decision. Defined.

#[export] Instance Cursor_eta : Eta Cursor := λ c, {| ID := ID c; Direction := Direction c |}.

Record CursorPagination := { Next : bytes; Prev : bytes }.

#[export] Instance CursorPagination_eq_dec : EqDecision CursorPagination.
Proof. solve_decision. Defined.

Definition known_direction (d : text) : bool := (eqt d CursorDirectionNext || eqt d CursorDirectionPrev)%bool.

Definition cursor_json (c : Cursor) : json := JObj [(txt "id", JStr (ID c)); (txt "direction", JStr (Direction c))].

Definition EncodeCursor (c : Cursor) : result page_error bytes :=
  if is_empty (ID c) then Err (ErrInvalidCursor EmptyID)
  else if negb (known_direction (Direction c)) then Err ErrInvalidCursorDirection
  else Ok (b64_encode StdEncoding (utf8_encode (json_print (cursor_json c)))).

Definition field_id : field Cursor := Field (txt "id") (read_string (λ v c, c <| ID := v |>%go)).
Definition field_direction : field Cursor := Field (txt "direction") (read_string (λ v c, c <| Direction := v |>%go)).

Definition DecodeCursor (cursor : bytes) : result page_error Cursor :=
  match b64_decode StdEncoding cursor with
  | None => Err (ErrInvalidCursor DecodeFailed)
  | Some decoded =>
    match json_unmarshal [field_id; field_direction] {| ID := []; Direction := [] |} decoded with
    | None => Err (ErrInvalidCursor UnmarshalFailed)
    | Some cur =>
      if is_empty (ID cur) then Err (ErrInvalidCursor MissingID)
      else if negb (known_direction (Direction cur)) then Err ErrInvalidCursorDirection
      else Ok cur
    end
  end.

(** [unicode.ToUpper] as far as it meets ASCII: two letters outside it have an
    ASCII upper case. *)
Definition upper_rune (r : Z) : Z :=
  if bool_decide (97 ≤ r ≤ 122) then r - 32
  else if bool_decide (r = 0x17F) then 83 else if bool_decide (r = 0x131) then 73 else r.

Definition ValidateSortDirection (dir : text) : text :=
  if eqt (map upper_rune (TrimSpace dir)) SortDirDESC then SortDirDESC else SortDirASC.

(** The comparison operator and the effective order. *)
Definition CursorDirectionRules (requestedSortDirection cursorDirection : text) : result page_error (text * text) :=
  let order := ValidateSortDirection requestedSortDirection in
  if eqt cursorDirection CursorDirectionNext then
    if eqt order SortDirASC then Ok (txt ">", SortDirASC) else Ok (txt "<", SortDirDESC)
  else if eqt cursorDirection CursorDirectionPrev then
    if eqt order SortDirASC then Ok (txt "<", SortDirDESC) else Ok (txt ">", SortDirASC)
  else Err ErrInvalidCursorDirection.

(** [commons.Reverse]: two indices that meet, the elements swapped in place. *)
Fixpoint reverse_loop {T} (fuel : nat) (i j : nat) (s : list T) : list T :=
  match fuel with
  | O => s
  | S n =>
    if bool_decide (i < j)%nat then
      match s !! i, s !! j with
      | Some x, Some y => reverse_loop n (S i) (pred j) (<[j := x]> (<[i := y]> s))
      | _, _ => s
      end
    else s
  end.

Definition Reverse {T} (s : list T) : list T := reverse_loop (length s) 0 (pred (length s)) s.

Definition PaginateRecords {T} (isFirstPage hasPagination : bool) (cursorDirection : text) (items : list T) (limit : Z) : list T :=
  let len := Z.of_nat (length items) in
  let limit := if hasPagination then limit else len in
  let limit := if bool_decide (limit < 0) then 0 else limit in
  let limit := if bool_decide (len < limit) then len else limit in
  let paginated := take (Z.to_nat limit) items in
  if eqt cursorDirection CursorDirectionPrev then Reverse paginated else paginated.

Definition CalculateCursor (isFirstPage hasPagination : bool) (cursorDirection firstItemID lastItemID : text)
    : result page_error CursorPagination :=
  if negb (known_direction cursorDirection) then Err ErrInvalidCursorDirection else
  let isPrev := eqt cursorDirection CursorDirectionPrev in
  next ← (if (isPrev || hasPagination)%bool then EncodeCursor {| ID := lastItemID; Direction := CursorDirectionNext |} else Ok []);
  prev ← (if (negb isFirstPage && (negb isPrev || hasPagination))%bool
          then EncodeCursor {| ID := firstItemID; Direction := CursorDirectionPrev |} else Ok []);
  Ok {| Next := next; Prev := prev |}.

(** ** Cursors by a sort column *)

Record SortCursor := { SortColumn : text; SortValue : text; SortID : text; PointsNext : bool }.

#[export] Instance SortCursor_eq_dec : EqDecision SortCursor.
Proof. solve_decision. Defined.

#[export] Instance SortCursor_eta : Eta SortCursor :=
  λ c, {| SortColumn := SortColumn c; SortValue := SortValue c; SortID := SortID c; PointsNext := PointsNext c |}.

(** The regular expression of [sortColumnPattern]. *)
Definition is_letter_ (r : Z) : bool := (bool_decide (65 ≤ r ≤ 90) || bool_decide (97 ≤ r ≤ 122) || bool_decide (r = 95))%bool.

Definition sortColumnPattern (s : text) : bool :=
  match s with
  | [] => false
  | r :: rest => (is_letter_ r && forallb (λ x, is_letter_ x || is_digit x) rest)%bool
  end.

Definition sort_cursor_json (c : SortCursor) : json :=
  JObj [(txt "sc", JStr (SortColumn c)); (txt "sv", JStr (SortValue c)); (txt "i", JStr (SortID c)); (txt "pn", JBool (PointsNext c))].

Definition EncodeSortCursor (sortColumn sortValue id : text) (pointsNext : bool) : result page_error bytes :=
  if is_empty id then Err (ErrInvalidCursor EmptyID)
  else if is_empty sortColumn then Err (ErrInvalidCursor EmptyColumn)
  else let cursor := {| SortColumn := sortColumn; SortValue := sortValue; SortID := id; PointsNext := pointsNext |} in
       Ok (b64_encode StdEncoding (utf8_encode (json_print (sort_cursor_json cursor)))).

Definition field_sc : field SortCursor := Field (txt "sc") (read_string (λ v c, c <| SortColumn := v |>%go)).
Definition field_sv : field SortCursor := Field (txt "sv") (read_string (λ v c, c <| SortValue := v |>%go)).
Definition field_sort_id : field SortCursor := Field (txt "i") (read_string (λ v c, c <| SortID := v |>%go)).
Definition field_pn : field SortCursor := Field (txt "pn") (read_bool (λ v c, c <| PointsNext := v |>%go)).
Definition sort_cursor_fields : list (field SortCursor) := [field_sc; field_sv; field_sort_id; field_pn].

Definition DecodeSortCursor (cursor : bytes) : result page_error SortCursor :=
  match b64_decode StdEncoding cursor with
  | None => Err (ErrInvalidCursor DecodeFailed)
  | Some decoded =>
    match json_unmarshal sort_cursor_fields {| SortColumn := []; SortValue := []; SortID := []; PointsNext := false |} decoded with
    | None => Err (ErrInvalidCursor UnmarshalFailed)
    | Some sc =>
      if is_empty (SortID sc) then Err (ErrInvalidCursor MissingID)
      else if (is_empty (SortColumn sc) || negb (sortColumnPattern (SortColumn sc)))%bool then Err (ErrInvalidCursor InvalidColumn)
      else Ok sc
    end
  end.

(** [strings.EqualFold], against an ASCII text *)
Definition EqualFold (s t : text) : bool := eqt (map fold_rune s) (map fold_rune t).

Definition SortCursorDirection (requestedDir : text) (pointsNext : bool) : text * text :=
  let isAsc := EqualFold requestedDir SortDirASC in
  if pointsNext then if isAsc then (SortDirASC, txt ">") else (SortDirDESC, txt "<")
  else if isAsc then (SortDirDESC, txt "<") else (SortDirASC, txt ">").

Definition CalculateSortCursorPagination (isFirstPage hasPagination pointsNext : bool)
    (sortColumn firstSortValue firstID lastSortValue lastID : text) : result page_error (bytes * bytes) :=
  next ← (if (negb pointsNext || hasPagination)%bool then EncodeSortCursor sortColumn lastSortValue lastID true else Ok []);
  prev ← (if (negb isFirstPage && (pointsNext || hasPagination))%bool
          then EncodeSortCursor sortColumn firstSortValue firstID false else Ok []);
  Ok (next, prev).

Fixpoint ValidateSortColumn (column : text) (allowed : list text) (defaultColumn : text) : text :=
  match allowed with
  | [] => defaultColumn
  | a :: rest => if EqualFold column a then a else ValidateSortColumn column rest defaultColumn
  end.

(** ** Cursors by timestamp and by UUID *)

(** The text of a UUID ([google/uuid]), a 128-bit number here with [uuid.Nil] 0,
    and the RFC 3339 text of an instant as [encoding/json] writes and reads it (a
    time written with escapes is outside the model). *)
Class CursorText := {
  uuid_text : Z → text;
  uuid_of_text : text → option Z;
  time_text : gotime → text;
  time_of_text : text → option gotime;
}.

Class CursorTextLaws `{CursorText} := {
  uuid_of_uuid_text u : uuid_of_text (uuid_text u) = Some u;
  uuid_text_scalar u : Forall is_scalar (uuid_text u);
  time_of_time_text t : json_time t = true → time_of_text (time_text t) = Some t;
  time_text_scalar t : Forall is_scalar (time_text t);
}.

Record TimestampCursor := { Timestamp : gotime; TimestampID : Z }.

#[export] Instance TimestampCursor_eq_dec : EqDecision TimestampCursor.
Proof. solve_decision. Defined.

#[export] Instance TimestampCursor_eta : Eta TimestampCursor := λ c, {| Timestamp := Timestamp c; TimestampID := TimestampID c |}.

Section text.
Context `{CursorText}.

Definition timestamp_cursor_json (c : TimestampCursor) : json :=
  JObj [(txt "t", JStr (time_text (Timestamp c))); (txt "i", JStr (uuid_text (TimestampID c)))].

(** A time outside the years 0 to 9999 has no JSON. *)
Definition EncodeTimestampCursor (timestamp : gotime) (id : Z) : result page_error bytes :=
  if bool_decide (id = 0) then Err (ErrInvalidCursor NilID)
  else if negb (json_time timestamp) then Err MarshalFailed
  else Ok (b64_encode StdEncoding (utf8_encode (json_print (timestamp_cursor_json {| Timestamp := timestamp; TimestampID := id |})))).

Definition read_time {A} (set : gotime → A → A) (j : json) (a : A) : option A :=
  match j with JNull => Some a | JStr s => t ← time_of_text s; Some (set t a) | _ => None end.

Definition read_uuid {A} (set : Z → A → A) (j : json) (a : A) : option A :=
  match j with JNull => Some a | JStr s => u ← uuid_of_text s; Some (set u a) | _ => None end.

Definition field_t : field TimestampCursor := Field (txt "t") (read_time (λ v c, c <| Timestamp := v |>%go)).
Definition field_uuid : field TimestampCursor := Field (txt "i") (read_uuid (λ v c, c <| TimestampID := v |>%go)).

Definition DecodeTimestampCursor (cursor : bytes) : result page_error TimestampCursor :=
  match b64_decode StdEncoding cursor with
  | None => Err (ErrInvalidCursor DecodeFailed)
  | Some decoded =>
    match json_unmarshal [field_t; field_uuid] {| Timestamp := zero_time; TimestampID := 0 |} decoded with
    | None => Err (ErrInvalidCursor UnmarshalFailed)
    | Some tc => if bool_decide (TimestampID tc = 0) then Err (ErrInvalidCursor MissingID) else Ok tc
    end
  end.

(** The bytes of the [cursor] parameter. *)
Definition ParseTimestampCursorPagination (ctx : fiberCtx) : result page_error (option TimestampCursor * Z) :=
  match ctx with
  | None => Err ErrContextNotFound
  | Some Query =>
    limit ← query_limit Query;
    if is_empty (Query (txt "cursor")) then Ok (None, limit)
    else tc ← DecodeTimestampCursor (utf8_encode (Query (txt "cursor"))); Ok (Some tc, limit)
  end.

Definition EncodeUUIDCursor (id : Z) : bytes := b64_encode StdEncoding (utf8_encode (uuid_text id)).

Definition DecodeUUIDCursor (cursor : bytes) : result page_error Z :=
  match b64_decode StdEncoding cursor with
  | None => Err (ErrInvalidCursor DecodeFailed)
  | Some decoded =>
    match uuid_of_text (utf8_decode decoded) with
    | None => Err (ErrInvalidCursor ParseFailed)
    | Some id => Ok id
    end
  end.
End text.

Lemma ParsePagination_bounds ctx limit offset : ParsePagination ctx = Ok (limit, offset) → 1 ≤ limit ≤ MaxLimit ∧ 0 ≤ offset.
Proof.
  unfold ParsePagination. destruct ctx as [Query|]; [|done]. destruct (if is_empty (Query (txt "limit")) then _ else _) as [l|]; [|done].
  cbn [mbind result_bind]. destruct (if is_empty (Query (txt "offset")) then _ else _) as [o|]; [|done].
  cbn [mbind result_bind]. intros E. apply Ok_inj in E. injection E as <- <-. unfold MaxLimit, DefaultLimit, DefaultOffset.
  repeat case_bool_decide; lia.
Qed.

(** ** Reading tokens back *)

Lemma reverse_loop_spec {T} fuel (a m b : list T) : (length m ≤ fuel)%nat →
  reverse_loop fuel (length a) (pred (length a + length m)) (a ++ m ++ b) = a ++ reverse m ++ b.
Proof.
  revert a m b. induction fuel as [|n IH]; intros a m b Hm.
  - destruct m; [done|simpl in Hm; lia].
  - destruct m as [|x m]; [cbn; rewrite bool_decide_false by lia; done|].
    destruct m as [|y m _] using rev_ind; [cbn; rewrite bool_decide_false by lia; done|].
    cbn [reverse_loop]. rewrite bool_decide_true by (simpl; rewrite length_app; simpl; lia).
    assert (pred (length a + length (x :: m ++ [y])) = length (a ++ x :: m))%nat as -> by (rewrite !length_app; simpl; rewrite length_app; simpl; lia).
    assert ((a ++ (x :: m ++ [y]) ++ b) !! length a = Some x) as Hx by (by apply list_lookup_middle).
    assert ((a ++ (x :: m ++ [y]) ++ b) !! length (a ++ x :: m) = Some y) as Hy.
    { replace (a ++ (x :: m ++ [y]) ++ b) with ((a ++ x :: m) ++ y :: b) by (rewrite <- app_assoc; simpl; by rewrite <- app_assoc).
      by apply list_lookup_middle. }
    rewrite Hx, Hy. clear Hx Hy.
    cbn [length] in Hm. rewrite length_app in Hm. cbn [length] in Hm.
    assert (<[length (a ++ x :: m) := x]> (<[length a := y]> (a ++ (x :: m ++ [y]) ++ b)) = (a ++ [y]) ++ m ++ (x :: b)) as ->.
    { simpl. rewrite insert_app_r_alt by lia. rewrite Nat.sub_diag. cbn [insert list_insert].
      rewrite length_app. rewrite insert_app_r_alt by lia. replace (length a + length (x :: m) - length a)%nat with (S (length m)) by (simpl; lia).
      cbn [insert list_insert]. rewrite <- !app_assoc. cbn [app].
      assert (<[length m := x]> (m ++ y :: b) = m ++ x :: b) as Hi by (rewrite insert_app_r_alt by lia; by rewrite Nat.sub_diag).
      do 2 f_equal. exact Hi. }
    replace (S (length a)) with (length (a ++ [y])) by (rewrite length_app; simpl; lia).
    replace (pred (length (a ++ x :: m))) with (pred (length (a ++ [y]) + length m)) by (rewrite !length_app; simpl; lia).
    rewrite IH by lia. rewrite reverse_cons, reverse_app, <- !app_assoc. done.
Qed.

(** [Reverse] is list reversal. *)
Lemma Reverse_reverse {T} (s : list T) : Reverse s = reverse s.
Proof. pose proof (reverse_loop_spec (length s) [] s [] ltac:(lia)) as E. rewrite !app_nil_r in E. exact E. Qed.

Lemma known_direction_true d : known_direction d = true ↔ d = CursorDirectionNext ∨ d = CursorDirectionPrev.
Proof. unfold known_direction, eqt. rewrite orb_true_iff, !bool_decide_eq_true. done. Qed.

Lemma direction_scalar d : known_direction d = true → Forall is_scalar d.
Proof. rewrite known_direction_true. intros [->| ->]; by apply (bool_decide_unpack _). Qed.

Ltac scalar_literal := by apply (bool_decide_unpack _).

(** A token of a flat object: what the decoder sees. *)
Lemma token_read {A} (fs : list (field A)) zero ms :
  Forall flat_member ms →
  b64_decode StdEncoding (b64_encode StdEncoding (utf8_encode (json_print (JObj ms)))) = Some (utf8_encode (json_print (JObj ms))) ∧
  json_unmarshal fs zero (utf8_encode (json_print (JObj ms))) = read_members fs ms zero.
Proof.
  intros Hf. split; [apply Std_round_trip, utf8_encode_bytes; by apply print_scalar|].
  unfold json_unmarshal. by rewrite json_round_trip.
Qed.

Lemma cursor_round_trip c token : Forall is_scalar (ID c) → EncodeCursor c = Ok token → DecodeCursor token = Ok c.
Proof.
  intros Hs. unfold EncodeCursor. destruct (is_empty (ID c)) eqn:Hi; [done|].
  destruct (known_direction (Direction c)) eqn:Hd; [|done]. intros E. apply Ok_inj in E as <-.
  assert (Hf : Forall flat_member [(txt "id", JStr (ID c)); (txt "direction", JStr (Direction c))]).
  { repeat constructor; cbn [fst snd flat_value]; try scalar_literal; [done|by apply direction_scalar]. }
  unfold DecodeCursor, cursor_json. destruct (token_read [field_id; field_direction] {| ID := []; Direction := [] |} _ Hf) as [-> ->].
  rewrite (read_members_cons _ field_id _ _ _ _ {| ID := ID c; Direction := [] |}) by reflexivity.
  rewrite (read_members_cons _ field_direction _ _ _ _ c) by (reflexivity || by destruct c).
  cbn [read_members]. by rewrite Hi, Hd.
Qed.

Lemma timestamp_cursor_outcome `{CursorTextLaws} t id : id ≠ 0 → json_time t = true →
  ∃ token, EncodeTimestampCursor t id = Ok token ∧ DecodeTimestampCursor token = Ok {| Timestamp := t; TimestampID := id |}.
Proof.
  intros Hid Ht. unfold EncodeTimestampCursor. rewrite bool_decide_false, Ht by done. cbn [negb]. eexists. split; [done|].
  assert (Hf : Forall flat_member [(txt "t", JStr (time_text t)); (txt "i", JStr (uuid_text id))]).
  { rewrite !Forall_cons. split_and!; [split; cbn [fst snd flat_value]; [scalar_literal|]..|done];
      [apply time_text_scalar|apply uuid_text_scalar]. }
  unfold DecodeTimestampCursor, timestamp_cursor_json. cbn [Timestamp TimestampID].
  destruct (token_read [field_t; field_uuid] {| Timestamp := zero_time; TimestampID := 0 |} _ Hf) as [-> ->].
  rewrite (read_members_cons _ field_t _ _ _ _ {| Timestamp := t; TimestampID := 0 |}); [|reflexivity|].
  2: { cbn [f_read field_t read_time]. by rewrite time_of_time_text. }
  rewrite (read_members_cons _ field_uuid _ _ _ _ {| Timestamp := t; TimestampID := id |}); [|reflexivity|].
  2: { cbn [f_read field_uuid read_uuid]. by rewrite uuid_of_uuid_text. }
  cbn [read_members TimestampID]. by rewrite bool_decide_false.
Qed.

Lemma uuid_cursor_outcome `{CursorTextLaws} id : DecodeUUIDCursor (EncodeUUIDCursor id) = Ok id.
Proof.
  unfold DecodeUUIDCursor, EncodeUUIDCursor. rewrite Std_round_trip by apply utf8_encode_bytes, uuid_text_scalar.
  rewrite utf8_round_trip by apply uuid_text_scalar. by rewrite uuid_of_uuid_text.
Qed.

(** ** Walking a list

    [listPage] serves one request over [ids], stored in ascending order, the way
    the services do: one row more than the limit past the cursor, in the effective
    order. *)

Definition gt (a b : text) : bool := negb (lex_le a b).

(** From the rows past the cursor to the response. *)
Definition serve (isFirstPage : bool) (direction : text) (limit : Z) (rows : list text)
    : result page_error (list text * CursorPagination) :=
  let fetched := take (Z.to_nat (limit + 1)) rows in
  let hasPagination := bool_decide (limit < Z.of_nat (length fetched)) in
  let page := PaginateRecords isFirstPage hasPagination direction fetched limit in
  match head page, last page with
  | Some first, Some last =>
    pagination ← CalculateCursor isFirstPage hasPagination direction first last; Ok (page, pagination)
  | _, _ => Ok (page, {| Next := []; Prev := [] |})
  end.

Definition listPage (ids : list text) (sortOrder : text) (limit : Z) (cursor : bytes)
    : result page_error (list text * CursorPagination) :=
  cur ← (if is_empty cursor then Ok {| ID := []; Direction := CursorDirectionNext |} else DecodeCursor cursor);
  '(operator, order) ← CursorDirectionRules sortOrder (Direction cur);
  let fetched := List.filter (λ id, is_empty cursor || (eqt operator (txt ">") && gt id (ID cur))
                                    || (eqt operator (txt "<") && gt (ID cur) id))%bool ids in
  let fetched := if eqt order SortDirDESC then reverse fetched else fetched in
  serve (is_empty cursor) (Direction cur) limit fetched.

Inductive move := FollowNext | FollowPrev.

(** A client follows the cursor it was given; without one it stays. *)
Definition follow (ids : list text) (sortOrder : text) (limit : Z) (m : move) (response : list text * CursorPagination)
    : result page_error (list text * CursorPagination) :=
  let cursor := match m with FollowNext => Next response.2 | FollowPrev => Prev response.2 end in
  if is_empty cursor then Ok response else listPage ids sortOrder limit cursor.

Definition walk (ids : list text) (sortOrder : text) (limit : Z) (moves : list move) : result page_error (list text * CursorPagination) :=
  fold_left (λ r m, r ≫= follow ids sortOrder limit m) moves (listPage ids sortOrder limit []).

(** *** What a client should see: the [k]-th chunk of the ordered list *)

Definition descending (sortOrder : text) : bool := eqt (ValidateSortDirection sortOrder) SortDirDESC.

Definition ordered (ids : list text) (sortOrder : text) : list text := if descending sortOrder then reverse ids else ids.

Definition chunk (n k : nat) (l : list text) : list text := take n (drop (k * n) l).

Definition token (direction id : text) : bytes := from_ok [] (EncodeCursor {| ID := id; Direction := direction |}).

Definition page_response (n k : nat) (l : list text) : list text * CursorPagination :=
  let page := chunk n k l in
  (page, {| Next := if bool_decide (S k * n < length l)%nat then token CursorDirectionNext (default [] (last page)) else [];
            Prev := if bool_decide (0 < k)%nat then token CursorDirectionPrev (default [] (head page)) else [] |}).

Definition moved (n len k : nat) (m : move) : nat :=
  match m with
  | FollowNext => if bool_decide (S k * n < len)%nat then S k else k
  | FollowPrev => pred k
  end.

(** *** Rows before and after an element of a strictly ordered list *)

Section rows.
Context {A : Type} (before : A → A → bool).

Definition strictly_ordered (l : list A) : Prop := StronglySorted (λ x y, before x y = true ∧ before y x = false) l.

Lemma rows_after l1 x l2 : before x x = false → strictly_ordered (l1 ++ x :: l2) →
  List.filter (before x) (l1 ++ x :: l2) = l2 ∧ List.filter (λ y, before y x) (l1 ++ x :: l2) = l1.
Proof.
  intros Hx. induction l1 as [|y l1 IH]; simpl; intros Hs; apply StronglySorted_inv in Hs as [Hs Hy].
  - rewrite Hx. clear Hs. induction Hy as [|z l2 [H1 H2] _ [IH1 IH2]]; [done|]. simpl. rewrite H1, H2, IH1. by rewrite IH2.
  - destruct (IH Hs) as [E1 E2]. rewrite E1, E2.
    rewrite Forall_app, Forall_cons in Hy. destruct Hy as (_ & [H1 H2] & _). by rewrite H1, H2.
Qed.
End rows.

Lemma filter_reverse {A} (p : A → bool) l : List.filter p (reverse l) = reverse (List.filter p l).
Proof. induction l as [|x l IH]; [done|]. rewrite reverse_cons, List.filter_app, IH. simpl. destruct (p x); [by rewrite reverse_cons|by rewrite app_nil_r]. Qed.

Lemma gt_irrefl a : gt a a = false.
Proof. unfold gt. destruct (lex_le_total a a) as [-> | ->]; done. Qed.

Lemma gt_asym a b : gt a b = true → gt b a = false.
Proof. unfold gt. intros H. destruct (lex_le_total a b) as [E|E]; rewrite E in *; done. Qed.

Lemma StronglySorted_reverse {A} (R : A → A → Prop) l : StronglySorted R l → StronglySorted (flip R) (reverse l).
Proof.
  induction 1 as [|x l _ IH Hx]; [constructor|]. rewrite reverse_cons. apply StronglySorted_app.
  split_and!; [|done|repeat constructor]. intros y z Hy Hz. rewrite elem_of_reverse in Hy. apply list_elem_of_singleton in Hz as ->.
  rewrite Forall_forall in Hx. by apply Hx.
Qed.

Lemma StronglySorted_weaken {A} (R S : A → A → Prop) l : (∀ x y, R x y → S x y) → StronglySorted R l → StronglySorted S l.
Proof. intros Himp. induction 1 as [|x l _ IH Hx]; constructor; [done|]. eapply Forall_impl; [exact Hx|]. eauto. Qed.

Lemma rules_next s :
  CursorDirectionRules s CursorDirectionNext = Ok (if descending s then (txt "<", SortDirDESC) else (txt ">", SortDirASC)).
Proof. unfold CursorDirectionRules, descending, ValidateSortDirection. by destruct (eqt _ SortDirDESC). Qed.

Lemma rules_prev s :
  CursorDirectionRules s CursorDirectionPrev = Ok (if descending s then (txt ">", SortDirASC) else (txt "<", SortDirDESC)).
Proof. unfold CursorDirectionRules, descending, ValidateSortDirection. by destruct (eqt _ SortDirDESC). Qed.

(** The row filters of the two operators, and the orders. *)
Lemma op_greater x y : (false || eqt (txt ">") (txt ">") && gt x y || eqt (txt ">") (txt "<") && gt y x)%bool = gt x y.
Proof. change (eqt (txt ">") (txt ">")) with true. change (eqt (txt ">") (txt "<")) with false. cbn. by rewrite orb_false_r. Qed.

Lemma order_asc : eqt SortDirASC SortDirDESC = false.
Proof. done. Qed.

Lemma order_desc : eqt SortDirDESC SortDirDESC = true.
Proof. done. Qed.

Section walk.
Context (ids : list text) (sortOrder : text) (n : nat).
Context (Hsorted : StronglySorted (λ a b, gt b a = true) ids).
Context (Hids : Forall (λ id, id ≠ [] ∧ Forall is_scalar id) ids).
Context (Hn : (0 < n)%nat).

Definition precedes (x y : text) : bool := if descending sortOrder then gt x y else gt y x.

Local Abbreviation rows := (ordered ids sortOrder).

Lemma rows_ordered : strictly_ordered precedes rows.
Proof using Hsorted.
  unfold strictly_ordered, ordered, precedes. destruct (descending sortOrder).
  - apply StronglySorted_reverse in Hsorted. eapply StronglySorted_weaken; [|exact Hsorted]. intros x y H. simpl in H. auto using gt_asym.
  - eapply StronglySorted_weaken; [|exact Hsorted]. intros x y H. simpl in H. auto using gt_asym.
Qed.

Lemma precedes_irrefl x : precedes x x = false.
Proof using Type. unfold precedes. destruct (descending sortOrder); apply gt_irrefl. Qed.

Lemma listPage_first : listPage ids sortOrder (Z.of_nat n) [] = serve true CursorDirectionNext (Z.of_nat n) rows.
Proof using Type.
  unfold listPage, ordered. cbn [is_empty mbind result_bind Direction]. rewrite rules_next. cbn [mbind result_bind].
  destruct (descending sortOrder); rewrite ?order_asc, ?order_desc; rewrite filter_bool_all by (by apply Forall_true); done.
Qed.

(** The rows past a cursor, in the order they are fetched. *)
Lemma listPage_next cursor x l1 l2 :
  is_empty cursor = false → DecodeCursor cursor = Ok {| ID := x; Direction := CursorDirectionNext |} → rows = l1 ++ x :: l2 →
  listPage ids sortOrder (Z.of_nat n) cursor = serve false CursorDirectionNext (Z.of_nat n) l2.
Proof using Hsorted.
  intros Hc Hd E. pose proof rows_ordered as Ho. rewrite E in Ho. apply rows_after in Ho as [Ho _]; [|apply precedes_irrefl].
  rewrite <- E in Ho. unfold listPage. rewrite Hc, Hd. cbn [mbind result_bind Direction ID]. rewrite rules_next, <- Ho.
  cbn [mbind result_bind]. unfold ordered, precedes. destruct (descending sortOrder); rewrite ?order_asc, ?order_desc.
  - by rewrite filter_reverse.
  - f_equal. apply List.filter_ext. intros y. apply op_greater.
Qed.

Lemma listPage_prev cursor x l1 l2 :
  is_empty cursor = false → DecodeCursor cursor = Ok {| ID := x; Direction := CursorDirectionPrev |} → rows = l1 ++ x :: l2 →
  listPage ids sortOrder (Z.of_nat n) cursor = serve false CursorDirectionPrev (Z.of_nat n) (reverse l1).
Proof using Hsorted.
  intros Hc Hd E. pose proof rows_ordered as Ho. rewrite E in Ho. apply rows_after in Ho as [_ Ho]; [|apply precedes_irrefl].
  rewrite <- E in Ho. unfold listPage. rewrite Hc, Hd. cbn [mbind result_bind Direction ID]. rewrite rules_prev, <- Ho.
  cbn [mbind result_bind]. unfold ordered, precedes. destruct (descending sortOrder); rewrite ?order_asc, ?order_desc.
  - rewrite filter_reverse, reverse_involutive. f_equal. apply List.filter_ext. intros y. apply op_greater.
  - done.
Qed.

(** *** Tokens *)

Lemma token_ok d id : known_direction d = true → id ∈ ids →
  EncodeCursor {| ID := id; Direction := d |} = Ok (token d id) ∧ is_empty (token d id) = false ∧
  DecodeCursor (token d id) = Ok {| ID := id; Direction := d |}.
Proof using Hids.
  intros Hd Hid. rewrite Forall_forall in Hids. destruct (Hids id Hid) as [Hne Hs].
  assert (E : EncodeCursor {| ID := id; Direction := d |} = Ok (token d id)).
  { unfold token, EncodeCursor. cbn [ID Direction]. destruct id; [done|]. cbn [is_empty]. by rewrite Hd. }
  split; [done|]. pose proof (cursor_round_trip {| ID := id; Direction := d |} _ Hs E) as Hr. split; [|done].
  destruct (token d id) as [|? ?] eqn:Et; [|done]. vm_compute in Hr. discriminate Hr.
Qed.

(** *** One response *)

Lemma PaginateRecords_next first has (items : list text) :
  has = bool_decide (n < length items)%nat →
  PaginateRecords first has CursorDirectionNext items (Z.of_nat n) = take n items.
Proof using Type.
  clear Hn. intros ->. unfold PaginateRecords. change (eqt CursorDirectionNext CursorDirectionPrev) with false. cbn iota zeta.
  destruct (decide (n < length items)%nat) as [Hl|Hl].
  - rewrite (bool_decide_true (n < length items)%nat), (bool_decide_false (Z.of_nat n < 0)), bool_decide_false by lia. by rewrite Nat2Z.id.
  - rewrite (bool_decide_false (n < length items)%nat), (bool_decide_false (Z.of_nat (length items) < 0)), bool_decide_false by lia. by rewrite Nat2Z.id, !take_ge by lia.
Qed.

Lemma PaginateRecords_prev first has (items : list text) :
  has = bool_decide (n < length items)%nat →
  PaginateRecords first has CursorDirectionPrev items (Z.of_nat n) = reverse (take n items).
Proof using Type.
  intros Hh. rewrite <- (PaginateRecords_next first has) by done. unfold PaginateRecords.
  change (eqt CursorDirectionPrev CursorDirectionPrev) with true. change (eqt CursorDirectionNext CursorDirectionPrev) with false.
  cbn iota zeta. apply Reverse_reverse.
Qed.

Lemma page_ends (l : list text) : l ≠ [] → l ⊆ ids → ∃ f e, head l = Some f ∧ last l = Some e ∧ f ∈ ids ∧ e ∈ ids.
Proof using Type.
  intros Hne Hin. destruct l as [|f l]; [done|]. destruct (last (f :: l)) as [e|] eqn:E; [|by apply last_None in E].
  exists f, e. split_and!; [done|done|apply Hin; by left|apply Hin]. apply last_Some in E as [l' ->]. apply elem_of_app. right. by left.
Qed.

(** The tokens [CalculateCursor] gives for a page. *)
Lemma CalculateCursor_page first has d f e : known_direction d = true → f ∈ ids → e ∈ ids →
  CalculateCursor first has d f e =
  Ok {| Next := if (eqt d CursorDirectionPrev || has)%bool then token CursorDirectionNext e else [];
        Prev := if (negb first && (negb (eqt d CursorDirectionPrev) || has))%bool then token CursorDirectionPrev f else [] |}.
Proof using Hids.
  intros Hd Hf He. unfold CalculateCursor. rewrite Hd. cbn [negb].
  destruct (token_ok CursorDirectionNext e) as [-> _]; [done..|]. destruct (token_ok CursorDirectionPrev f) as [-> _]; [done..|].
  destruct (eqt d CursorDirectionPrev || has)%bool, (negb first && (negb (eqt d CursorDirectionPrev) || has))%bool; done.
Qed.

Lemma rows_in : rows ⊆ ids.
Proof using Type. intros x. unfold ordered. destruct (descending sortOrder); [|done]. by rewrite elem_of_reverse. Qed.

Lemma chunk_in m k (l : list text) : chunk m k l ⊆ l.
Proof using Type. unfold chunk. etrans; [apply subseteq_take|apply subseteq_drop]. Qed.

Lemma has_more (l : list text) :
  bool_decide (Z.of_nat n < Z.of_nat (length (take (S n) l))) = bool_decide (n < length l)%nat.
Proof using Type. clear Hn. apply bool_decide_ext. rewrite length_take. lia. Qed.

Lemma serve_next first k : (k = 0 ∧ first = true ∨ 0 < k ∧ first = false)%nat →
  (k * n < length rows ∨ k = 0)%nat →
  serve first CursorDirectionNext (Z.of_nat n) (drop (k * n) rows) = Ok (page_response n k rows).
Proof using Hids Hn.
  intros Hk Hl. unfold serve. replace (Z.to_nat (Z.of_nat n + 1)) with (S n) by lia. rewrite has_more.
  rewrite PaginateRecords_next by (apply bool_decide_ext; rewrite length_take; lia).
  rewrite take_take, Nat.min_l by lia. fold (chunk n k rows). unfold page_response.
  assert (bool_decide (n < length (drop (k * n) rows))%nat = bool_decide (S k * n < length rows)%nat) as ->
    by (apply bool_decide_ext; rewrite length_drop; lia).
  destruct (decide (chunk n k rows = [])) as [E|Hne].
  - assert (k = 0 ∧ length rows = 0)%nat as [-> E0].
    { apply (f_equal length) in E. unfold chunk in E. rewrite length_take, length_drop in E. simpl in E.
      assert (k * n ≥ length rows)%nat by lia. destruct Hl as [|Hl]; [lia|]. subst. split; [done|]. lia. }
    rewrite E. cbn [head last]. rewrite !bool_decide_false by lia. done.
  - destruct (page_ends (chunk n k rows)) as (f & e & Hf & He & Hfi & Hei); [done| |].
    { etrans; [apply chunk_in|apply rows_in]. }
    rewrite Hf, He, CalculateCursor_page by done. cbn [mbind result_bind default]. do 3 f_equal.
    destruct Hk as [[-> ->]|[Hk ->]]; [done|]. by rewrite (bool_decide_true (0 < k)%nat).
Qed.

Lemma serve_prev k : (S k * n < length rows)%nat →
  serve false CursorDirectionPrev (Z.of_nat n) (reverse (take (S k * n) rows)) = Ok (page_response n k rows).
Proof using Hids Hn.
  intros Hl. unfold serve. replace (Z.to_nat (Z.of_nat n + 1)) with (S n) by lia. rewrite has_more.
  rewrite PaginateRecords_prev by (apply bool_decide_ext; rewrite length_take; lia).
  rewrite take_take, Nat.min_l by lia.
  assert (Hlen : length (take (S k * n) rows) = (S k * n)%nat) by (rewrite length_take; lia).
  assert (reverse (take n (reverse (take (S k * n) rows))) = chunk n k rows) as ->.
  { rewrite take_reverse, reverse_involutive, Hlen. unfold chunk. replace (S k * n - n)%nat with (k * n)%nat by lia.
    rewrite take_drop_commute. do 2 f_equal. lia. }
  rewrite length_reverse, Hlen. unfold page_response.
  destruct (page_ends (chunk n k rows)) as (f & e & Hf & He & Hfi & Hei).
  { intros E. apply (f_equal length) in E. unfold chunk in E. rewrite length_take, length_drop in E. simpl in E. lia. }
  { etrans; [apply chunk_in|apply rows_in]. }
  rewrite Hf, He, CalculateCursor_page by done. cbn [mbind result_bind default].
  rewrite (bool_decide_true (S k * n < length rows)%nat) by done. do 3 f_equal.
  assert (bool_decide (n < S k * n)%nat = bool_decide (0 < k)%nat) as ->; [|done].
  apply bool_decide_ext. destruct k; nia.
Qed.

(** *** Following the cursors *)

Lemma row_split i : (i < length rows)%nat → ∃ x, rows = take i rows ++ x :: drop (S i) rows ∧ x ∈ ids.
Proof using Type.
  intros Hi. destruct (lookup_lt_is_Some_2 rows i Hi) as [x Hx]. exists x. split; [by rewrite take_drop_middle|].
  apply rows_in. by eapply list_elem_of_lookup_2.
Qed.

(** The last row of a page that is not the last one, and the first of a page that
    is not the first one. *)
Lemma chunk_last k x : (S k * n < length rows)%nat → rows !! pred (S k * n) = Some x → last (chunk n k rows) = Some x.
Proof using Hn.
  intros Hl Hx. rewrite last_lookup. unfold chunk. rewrite length_take, length_drop, Nat.min_l by lia.
  rewrite lookup_take_lt, lookup_drop by lia. rewrite <- Hx. f_equal. lia.
Qed.

Lemma chunk_first k x : rows !! (k * n)%nat = Some x → head (chunk n k rows) = Some x.
Proof using Hn.
  intros Hx. rewrite head_lookup. unfold chunk. rewrite lookup_take_lt, lookup_drop by lia. rewrite <- Hx. f_equal. lia.
Qed.

Definition on_list (k : nat) : Prop := (k * n < length rows ∨ k = 0)%nat.

Lemma follow_next k : on_list k →
  follow ids sortOrder (Z.of_nat n) FollowNext (page_response n k rows) = Ok (page_response n (moved n (length rows) k FollowNext) rows) ∧
  on_list (moved n (length rows) k FollowNext).
Proof using Hids Hn Hsorted.
  intros Hk. unfold follow, moved. cbn [page_response snd Next]. case_bool_decide as Hl; [|done]. split; [|by left].
  destruct (row_split (pred (S k * n))) as (x & E & Hx); [lia|].
  assert (rows !! pred (S k * n) = Some x) as Hlx.
  { rewrite E. rewrite lookup_app_r; rewrite length_take, Nat.min_l by lia; [by rewrite Nat.sub_diag|lia]. }
  rewrite (chunk_last k x Hl Hlx). cbn [default from_option id].
  destruct (token_ok CursorDirectionNext x) as (_ & He & Hd); [done..|]. rewrite He.
  rewrite (listPage_next _ _ _ _ He Hd E). replace (S (pred (S k * n))) with (S k * n)%nat by lia.
  apply serve_next; [right; split; [lia|done]|by left].
Qed.

Lemma follow_prev k : on_list k →
  follow ids sortOrder (Z.of_nat n) FollowPrev (page_response n k rows) = Ok (page_response n (moved n (length rows) k FollowPrev) rows) ∧
  on_list (moved n (length rows) k FollowPrev).
Proof using Hids Hn Hsorted.
  intros Hk. unfold follow, moved. cbn [page_response snd Prev]. case_bool_decide as H0.
  2: { replace k with 0%nat by lia. split; [done|by right]. }
  destruct k as [|k]; [lia|]. destruct Hk as [Hl|]; [|done]. cbn [pred]. split; [|left; lia].
  destruct (row_split (S k * n)) as (x & E & Hx); [lia|].
  assert (rows !! (S k * n)%nat = Some x) as Hlx.
  { rewrite E. rewrite lookup_app_r; rewrite length_take, Nat.min_l by lia; [by rewrite Nat.sub_diag|lia]. }
  rewrite (chunk_first (S k) x Hlx). cbn [default from_option id].
  destruct (token_ok CursorDirectionPrev x) as (_ & He & Hd); [done..|]. rewrite He.
  rewrite (listPage_prev _ _ _ _ He Hd E). by apply serve_prev.
Qed.

Lemma follow_page m k : on_list k →
  follow ids sortOrder (Z.of_nat n) m (page_response n k rows) = Ok (page_response n (moved n (length rows) k m) rows) ∧
  on_list (moved n (length rows) k m).
Proof using Hids Hn Hsorted. destruct m; [apply follow_next|apply follow_prev]. Qed.

Lemma walk_from k moves : on_list k →
  fold_left (λ r m, r ≫= follow ids sortOrder (Z.of_nat n) m) moves (Ok (page_response n k rows)) =
  Ok (page_response n (fold_left (moved n (length rows)) moves k) rows).
Proof using Hids Hn Hsorted.
  revert k. induction moves as [|m moves IH]; intros k Hk; [done|]. cbn [fold_left]. unfold mbind at 2, result_bind at 2.
  destruct (follow_page m k Hk) as [E Hm]. rewrite E. by apply IH.
Qed.
End walk.

(** C24: however a client walks, following the next and previous cursors it is
    given in any order, the response it holds is the one of a whole chunk of the
    list in the requested order: the page of the position it walked to, a next
    cursor exactly when rows follow and a previous one exactly when rows precede.
    No row is skipped or repeated, and a page looks the same from both sides. *)
Theorem cursor_walk_shows_chunks ids sortOrder n moves :
  StronglySorted (λ a b, gt b a = true) ids → Forall (λ id, id ≠ [] ∧ Forall is_scalar id) ids → (0 < n)%nat →
  walk ids sortOrder (Z.of_nat n) moves =
  Ok (page_response n (fold_left (moved n (length ids)) moves 0%nat) (ordered ids sortOrder)).
Proof.
  intros Hs Hi Hn. unfold walk. rewrite listPage_first. rewrite <- (drop_0 (ordered ids sortOrder)) at 1.
  change 0%nat with (0 * n)%nat at 1. rewrite serve_next; [|done|done|by left|by right].
  replace (length ids) with (length (ordered ids sortOrder)); [apply walk_from; [done..|by right]|].
  unfold ordered. destruct (descending sortOrder); [apply length_reverse|done].
Qed.

(** a sort cursor that is encoded decodes to itself exactly when its column is
    an identifier: the encoder takes any other column that is not empty, and the
    decoder refuses the token. *)
Theorem sort_cursor_read_back col v id next : id ≠ [] → col ≠ [] → Forall is_scalar (col ++ v ++ id) →
  ∃ token, EncodeSortCursor col v id next = Ok token ∧
    DecodeSortCursor token =
    if sortColumnPattern col then Ok {| SortColumn := col; SortValue := v; SortID := id; PointsNext := next |}
    else Err (ErrInvalidCursor InvalidColumn).
Proof.
  intros Hid Hcol Hs. apply Forall_app in Hs as [Hc Hs]. apply Forall_app in Hs as [Hv Hi].
  unfold EncodeSortCursor. destruct id as [|i0 id]; [done|]. destruct col as [|c0 col]; [done|]. cbn [is_empty].
  eexists. split; [done|].
  assert (Hf : Forall flat_member [(txt "sc", JStr (c0 :: col)); (txt "sv", JStr v); (txt "i", JStr (i0 :: id)); (txt "pn", JBool next)]).
  { rewrite !Forall_cons. split_and!; try (split; cbn [fst snd flat_value]; [scalar_literal|done]). constructor. }
  unfold DecodeSortCursor, sort_cursor_json. cbn [SortColumn SortValue SortID PointsNext].
  destruct (token_read sort_cursor_fields {| SortColumn := []; SortValue := []; SortID := []; PointsNext := false |} _ Hf) as [-> ->].
  rewrite (read_members_cons _ field_sc _ _ _ _ {| SortColumn := c0 :: col; SortValue := []; SortID := []; PointsNext := false |}) by reflexivity.
  rewrite (read_members_cons _ field_sv _ _ _ _ {| SortColumn := c0 :: col; SortValue := v; SortID := []; PointsNext := false |}) by reflexivity.
  rewrite (read_members_cons _ field_sort_id _ _ _ _ {| SortColumn := c0 :: col; SortValue := v; SortID := i0 :: id; PointsNext := false |}) by reflexivity.
  rewrite (read_members_cons _ field_pn _ _ _ _ {| SortColumn := c0 :: col; SortValue := v; SortID := i0 :: id; PointsNext := next |}) by reflexivity.
  cbn [read_members SortID SortColumn is_empty orb]. by destruct (sortColumnPattern (c0 :: col)).
Qed.

(** *** Examples *)

Definition sample_ids : list text := [txt "a"; txt "b"; txt "c"; txt "d"; txt "e"].

Lemma cursor_walk_shows_chunks_witness :
  walk sample_ids (txt "desc") 2 [FollowNext; FollowNext; FollowPrev] =
  Ok (page_response 2 1 [txt "e"; txt "d"; txt "c"; txt "b"; txt "a"]).
Proof.
  apply (cursor_walk_shows_chunks sample_ids (txt "desc") 2 [FollowNext; FollowNext; FollowPrev]).
  - repeat constructor.
  - unfold sample_ids. rewrite !Forall_cons. split_and!; (done || by apply (bool_decide_unpack _)).
  - lia.
Defined.

Lemma sort_cursor_read_back_witness :
  ∃ token, EncodeSortCursor (txt "t.created_at") (txt "2025-01-01") (txt "id-1") true = Ok token ∧
    DecodeSortCursor token = Err (ErrInvalidCursor InvalidColumn).
Proof. apply (sort_cursor_read_back (txt "t.created_at") (txt "2025-01-01") (txt "id-1") true); [done|done|by apply (bool_decide_unpack _)]. Defined.
