(* ===== verification/Ssrf.v ===== *)
(** Protection against server-side request forgery
    ([src/commons/security/ssrf]): which addresses and host names must not be
    contacted, and the resolution of a URL to one checked address.

    An address is its number.  Parsing of URLs and of addresses is a parameter;
    the parts the code takes out of a host are written out. *)

From stdpp Require Import base numbers list strings sets gmap.
From S2P Require Import Prelude GoText.

Local Open Scope Z_scope.

(** ** Addresses ([net/netip]) *)

Inductive addr := InvalidAddr | IPv4 (a : Z) | IPv6 (a : Z) (zone : text).

#[export] Instance addr_eq_dec : EqDecision addr.
Proof. solve_decision. Defined.

Definition addr_ok (x : addr) : Prop :=
  match x with InvalidAddr => True | IPv4 a => 0 ≤ a < 2 ^ 32 | IPv6 a _ => 0 ≤ a < 2 ^ 128 end.

(** [a.b.c.d], and an IPv6 address by its first four groups, the rest zero *)
Definition ip4 (a b c d : Z) : Z := ((a * 256 + b) * 256 + c) * 256 + d.
Definition ip6 (a b c d : Z) : Z := (((a * 65536 + b) * 65536 + c) * 65536 + d) * 2 ^ 64.

(** [Unmap] *)
Definition Unmap (x : addr) : addr :=
  match x with
  | IPv6 a _ => if bool_decide (Z.shiftr a 32 = 0xffff) then IPv4 (a mod 2 ^ 32) else x
  | _ => x
  end.

(** [WithZone("")] *)
Definition without_zone (x : addr) : addr := match x with IPv6 a _ => IPv6 a [] | _ => x end.

(** A prefix holds the addresses of its family, without a zone, that agree with it
    in the first [bits] bits. *)
Inductive prefix := Prefix4 (base bits : Z) | Prefix6 (base bits : Z).

Definition Contains (p : prefix) (x : addr) : bool :=
  match p, x with
  | Prefix4 base bits, IPv4 a => bool_decide (Z.shiftr a (32 - bits) = Z.shiftr base (32 - bits))
  | Prefix6 base bits, IPv6 a [] => bool_decide (Z.shiftr a (128 - bits) = Z.shiftr base (128 - bits))
  | _, _ => false
  end.

(** The predicates of the standard library, for an address that is not mapped. *)
Definition IsLoopback (x : addr) : bool :=
  match x with
  | IPv4 a => bool_decide (Z.shiftr a 24 = 127)
  | IPv6 a _ => bool_decide (a = 1)
  | InvalidAddr => false
  end.

Definition IsPrivate (x : addr) : bool :=
  match x with
  | IPv4 a => (bool_decide (Z.shiftr a 24 = 10) || bool_decide (Z.shiftr a 20 = 172 * 16 + 1) || bool_decide (Z.shiftr a 16 = 192 * 256 + 168))%bool
  | IPv6 a _ => bool_decide (Z.shiftr a 121 = 0x7e)
  | InvalidAddr => false
  end.

Definition IsLinkLocalUnicast (x : addr) : bool :=
  match x with
  | IPv4 a => bool_decide (Z.shiftr a 16 = 169 * 256 + 254)
  | IPv6 a _ => bool_decide (Z.shiftr a 118 = 0x3fa)
  | InvalidAddr => false
  end.

Definition IsLinkLocalMulticast (x : addr) : bool :=
  match x with
  | IPv4 a => bool_decide (Z.shiftr a 8 = 224 * 65536)
  | IPv6 a _ => bool_decide (Z.land (Z.shiftr a 112) 0xff0f = 0xff02)
  | InvalidAddr => false
  end.

Definition IsMulticast (x : addr) : bool :=
  match x with
  | IPv4 a => bool_decide (Z.shiftr a 28 = 14)
  | IPv6 a _ => bool_decide (Z.shiftr a 120 = 0xff)
  | InvalidAddr => false
  end.

Definition IsUnspecified (x : addr) : bool :=
  match x with IPv4 a => bool_decide (a = 0) | IPv6 a [] => bool_decide (a = 0) | _ => false end.

Definition blockedPrefixes : list prefix := [
  Prefix4 (ip4 0 0 0 0) 8; Prefix4 (ip4 100 64 0 0) 10; Prefix4 (ip4 192 0 0 0) 24; Prefix4 (ip4 192 0 2 0) 24;
  Prefix4 (ip4 198 18 0 0) 15; Prefix4 (ip4 198 51 100 0) 24; Prefix4 (ip4 203 0 113 0) 24; Prefix4 (ip4 240 0 0 0) 4;
  Prefix6 (ip6 0x2001 0xdb8 0 0) 32; Prefix6 (ip6 0x100 0 0 0) 64; Prefix6 (ip6 0x2001 0 0 0) 32;
  Prefix6 (ip6 0x64 0xff9b 1 0) 48].

Definition nat64WellKnown : prefix := Prefix6 (ip6 0x64 0xff9b 0 0) 96.
Definition sixToFour : prefix := Prefix6 (ip6 0x2002 0 0 0) 16.

(** The bytes 12 to 15, and 2 to 5, of the address. *)
Definition embeddedIPv4 (x : addr) : option Z :=
  let b := match x with IPv6 a _ => a | IPv4 a => 0xffff * 2 ^ 32 + a | InvalidAddr => 0 end in
  if Contains nat64WellKnown x then Some (b mod 2 ^ 32)
  else if Contains sixToFour x then Some (Z.shiftr b 80 mod 2 ^ 32)
  else None.

Definition predicates_block (x : addr) : bool :=
  (IsLoopback x || IsPrivate x || IsLinkLocalUnicast x || IsLinkLocalMulticast x || IsMulticast x || IsUnspecified x ||
   existsb (λ p, Contains p x) blockedPrefixes)%bool.

(** The embedded address is IPv4, and embeds none: one more call is enough. *)
Definition IsBlockedAddr (x : addr) : bool :=
  match x with
  | InvalidAddr => true
  | _ =>
    let x := without_zone (Unmap x) in
    match embeddedIPv4 x with
    | Some v4 => predicates_block (IPv4 v4)
    | None => predicates_block x
    end
  end.

(** A [net.IP] by its bytes; [None] is nil. *)
Definition AddrFromSlice (ip : list Z) : option addr :=
  let value := fold_left (λ acc b, acc * 256 + b) ip 0 in
  if bool_decide (length ip = 4%nat) then Some (IPv4 value)
  else if bool_decide (length ip = 16%nat) then Some (IPv6 value []) else None.

Definition IsBlockedIP (ip : option (list Z)) : bool :=
  match ip with
  | None => true
  | Some b => match AddrFromSlice b with Some x => IsBlockedAddr x | None => true end
  end.

(** ** Host names *)

Definition blockedHostnames : list text :=
  [txt "localhost"; txt "metadata.google.internal"; txt "metadata.gcp.internal"; txt "169.254.169.254"; txt "metadata.azure.internal"].

Definition blockedSuffixes : list text := [txt ".local"; txt ".internal"; txt ".cluster.local"].

(** [unicode.ToLower] as far as it meets ASCII *)
Definition lower_rune (r : Z) : Z :=
  if bool_decide (65 ≤ r ≤ 90) then r + 32
  else if bool_decide (r = 0x212A) then 107 else if bool_decide (r = 0x130) then 105 else r.

Definition ToLower (s : text) : text := map lower_rune s.

Definition DOT : Z := 46.

Definition normalizeHostname (hostname : text) : text := trim_right (λ r, bool_decide (r = DOT)) (ToLower hostname).

Definition has_suffix (suf s : text) : bool := has_prefix (rev suf) (rev s).

(** [allowed] is the membership test of [allowedHostnames]. *)
Definition blocked_name (allowed : text → bool) (hostname : text) : bool :=
  if is_empty hostname then true
  else let lower := normalizeHostname hostname in
       if is_empty lower then true
       else if allowed lower then false
       else (existsb (λ h, eqt h lower) blockedHostnames || existsb (λ s, has_suffix s lower) blockedSuffixes)%bool.

Definition IsBlockedHostname (hostname : text) : bool := blocked_name (λ _, false) hostname.

(** ** Options *)

Record config := { httpsOnly : bool; allowPrivate : bool; allowedHostnames : list text }.

#[export] Instance config_eta : Eta config :=
  λ c, {| httpsOnly := httpsOnly c; allowPrivate := allowPrivate c; allowedHostnames := allowedHostnames c |}.

Definition Option_ : Type := config → config.

Definition buildConfig (opts : list Option_) : config :=
  fold_left (λ c opt, opt c) opts {| httpsOnly := false; allowPrivate := false; allowedHostnames := [] |}.

Definition WithHTTPSOnly : Option_ := λ c, (c <| httpsOnly := true |>)%go.
Definition WithAllowPrivateNetwork : Option_ := λ c, (c <| allowPrivate := true |>)%go.
Definition WithAllowHostname (hostname : text) : Option_ := λ c, (c <| allowedHostnames := ToLower hostname :: allowedHostnames c |>)%go.

Definition isBlockedHostnameWithConfig (hostname : text) (cfg : config) : bool :=
  blocked_name (λ h, bool_decide (h ∈ allowedHostnames cfg)) hostname.

(** ** URLs *)

Inductive ssrf_error := ErrBlocked | ErrInvalidURL | ErrDNSFailed.

#[export] Instance ssrf_error_eq_dec : EqDecision ssrf_error.
Proof. solve_decision. Defined.

(** The scheme and the host of a URL; [u_rest] is everything else. *)
Record URL (R : Type) := { Scheme : text; Host : text; u_rest : R }.
Arguments Scheme {R} _.
Arguments Host {R} _.
Arguments u_rest {R} _.

Definition COLON : Z := 58.

(** [validOptionalPort]: a colon and digits, or nothing *)
Definition validOptionalPort (s : text) : bool :=
  match s with [] => true | c :: ds => (bool_decide (c = COLON) && forallb is_digit ds)%bool end.

(** What follows the last colon, when there is one. *)
Fixpoint last_colon (s : text) : option (text * text) :=
  match s with
  | [] => None
  | c :: rest =>
    match last_colon rest with
    | Some (a, b) => Some (c :: a, b)
    | None => if bool_decide (c = COLON) then Some ([], rest) else None
    end
  end.

Definition strip_brackets (s : text) : text :=
  if (has_prefix (txt "[") s && has_suffix (txt "]") s)%bool then take (length s - 2) (tail s) else s.

(** [splitHostPort] of [net/url], behind [Hostname] and [Port] *)
Definition splitHostPort (hostPort : text) : text * text :=
  match last_colon hostPort with
  | Some (host, port) => if validOptionalPort (COLON :: port) then (strip_brackets host, port) else (strip_brackets hostPort, [])
  | None => (strip_brackets hostPort, [])
  end.

Definition Hostname {R} (u : URL R) : text := (splitHostPort (Host u)).1.
Definition Port {R} (u : URL R) : text := (splitHostPort (Host u)).2.

(** [net.JoinHostPort] *)
Definition JoinHostPort (host port : text) : text :=
  if contains (txt ":") host then txt "[" ++ host ++ txt "]:" ++ port else host ++ txt ":" ++ port.

(** [url.Parse], [URL.String], [netip.ParseAddr] and [net.ParseIP]; an IP of the
    latter is an address here. *)
(** The host that a URL is pinned to. *)
Definition pinned_host (ip port : text) : text :=
  if negb (is_empty port) then JoinHostPort ip port
  else if contains (txt ":") ip then txt "[" ++ ip ++ txt "]" else ip.

Class Net := {
  url_rest : Type;
  url_parse : text → option (URL url_rest);
  url_string : URL url_rest → text;
  ParseAddr : text → option addr;
  ParseIP : text → option addr;
}.

Class NetLaws `{Net} := {
  (** A URL whose host was replaced by an address, in brackets where it has colons,
      keeps its scheme and this host when it is written and parsed again. *)
  url_reparse raw u ip u' : url_parse raw = Some u → Hostname u ≠ [] → is_Some (ParseAddr ip) →
    url_parse (url_string {| Scheme := Scheme u; Host := pinned_host ip (Port u); u_rest := u_rest u |}) = Some u' →
    Scheme u' = Scheme u ∧ Host u' = pinned_host ip (Port u);
  (** And it does parse, unless the address has a zone. *)
  url_reparses raw u ip : url_parse raw = Some u → Hostname u ≠ [] → is_Some (ParseAddr ip) → 37 ∉ ip →
    is_Some (url_parse (url_string {| Scheme := Scheme u; Host := pinned_host ip (Port u); u_rest := u_rest u |}));
  ParseAddr_valid s x : ParseAddr s = Some x → s ≠ [] ∧ x ≠ InvalidAddr ∧ addr_ok x;
  ParseIP_ParseAddr s x : ParseIP s = Some x → ParseAddr s = Some x;
}.

(** The state of a context when it is looked at. *)
Inductive ctx_state := NilCtx | EndedCtx | LiveCtx.

Definition validateContext (ctx : ctx_state) : result ssrf_error unit :=
  match ctx with LiveCtx => Ok tt | NilCtx | EndedCtx => Err ErrInvalidURL end.

Definition validateScheme (scheme : text) (cfg : config) : result ssrf_error unit :=
  let s := ToLower scheme in
  if httpsOnly cfg then if eqt s (txt "https") then Ok tt else Err ErrBlocked
  else if (negb (eqt s (txt "http")) && negb (eqt s (txt "https")))%bool then Err ErrBlocked else Ok tt.

Section net.
Context `{Net}.

Definition ValidateURL (ctx : ctx_state) (rawURL : text) (opts : list Option_) : result ssrf_error unit :=
  _ ← validateContext ctx;
  let cfg := buildConfig opts in
  match url_parse rawURL with
  | None => Err ErrInvalidURL
  | Some u =>
    _ ← validateScheme (Scheme u) cfg;
    let hostname := Hostname u in
    if is_empty hostname then Err ErrInvalidURL
    else if isBlockedHostnameWithConfig hostname cfg then Err ErrBlocked
    else if allowPrivate cfg then Ok tt
    else match ParseAddr hostname with
         | Some x => if IsBlockedAddr x then Err ErrBlocked else Ok tt
         | None => Ok tt
         end
  end.

Record ResolveResult := { PinnedURL : text; Authority : text; SNIHostname : text }.

(** The loop over the resolved addresses: any blocked one refuses them all. *)
Fixpoint first_safe (cfg : config) (ips : list text) (firstSafeIP : text) : result ssrf_error text :=
  match ips with
  | [] => if is_empty firstSafeIP then Err ErrInvalidURL else Ok firstSafeIP
  | ipStr :: rest =>
    match ParseAddr ipStr with
    | None => first_safe cfg rest firstSafeIP
    | Some x =>
      if (negb (allowPrivate cfg) && IsBlockedAddr x)%bool then Err ErrBlocked
      else first_safe cfg rest (if is_empty firstSafeIP then ipStr else firstSafeIP)
    end
  end.

(** [lookup] is the resolver, asked once. *)
Definition ResolveAndValidate (ctx : ctx_state) (lookup : text → option (list text)) (rawURL : text) (opts : list Option_)
    : result ssrf_error ResolveResult :=
  _ ← validateContext ctx;
  let cfg := buildConfig opts in
  match url_parse rawURL with
  | None => Err ErrInvalidURL
  | Some u =>
    _ ← validateScheme (Scheme u) cfg;
    let hostname := Hostname u in
    if is_empty hostname then Err ErrInvalidURL
    else if isBlockedHostnameWithConfig hostname cfg then Err ErrBlocked
    else match lookup hostname with
    | None => Err ErrDNSFailed
    | Some [] => Err ErrDNSFailed
    | Some ips =>
      ip ← first_safe cfg ips [];
      Ok {| PinnedURL := url_string {| Scheme := Scheme u; Host := pinned_host ip (Port u); u_rest := u_rest u |};
            Authority := Host u; SNIHostname := hostname |}
    end
  end.
End net.

(** ** Which addresses are blocked

    The special-purpose ranges, as intervals of numbers. *)

Definition special4 : list (Z * Z) := [
  (ip4 0 0 0 0, ip4 0 255 255 255); (ip4 10 0 0 0, ip4 10 255 255 255); (ip4 100 64 0 0, ip4 100 127 255 255);
  (ip4 127 0 0 0, ip4 127 255 255 255); (ip4 169 254 0 0, ip4 169 254 255 255); (ip4 172 16 0 0, ip4 172 31 255 255);
  (ip4 192 0 0 0, ip4 192 0 0 255); (ip4 192 0 2 0, ip4 192 0 2 255); (ip4 192 168 0 0, ip4 192 168 255 255);
  (ip4 198 18 0 0, ip4 198 19 255 255); (ip4 198 51 100 0, ip4 198 51 100 255); (ip4 203 0 113 0, ip4 203 0 113 255);
  (ip4 224 0 0 0, ip4 255 255 255 255)].

Definition special6 : list (Z * Z) := [
  (0, 1); (ip6 0x64 0xff9b 1 0, ip6 0x64 0xff9b 2 0 - 1); (ip6 0x100 0 0 0, ip6 0x100 0 0 1 - 1);
  (ip6 0x2001 0 0 0, ip6 0x2001 1 0 0 - 1); (ip6 0x2001 0xdb8 0 0, ip6 0x2001 0xdb9 0 0 - 1);
  (ip6 0xfc00 0 0 0, ip6 0xfe00 0 0 0 - 1); (ip6 0xfe80 0 0 0, ip6 0xfec0 0 0 0 - 1);
  (ip6 0xff00 0 0 0, ip6 0x10000 0 0 0 - 1)].

(** The IPv4 address that packets to an IPv6 address end up at: mapped, translated
    (NAT64) or tunnelled (6to4). *)
Definition inner4 (a : Z) : option Z :=
  if bool_decide (0xffff00000000 ≤ a < 0x1000000000000) then Some (a - 0xffff00000000)
  else if bool_decide (ip6 0x64 0xff9b 0 0 ≤ a < ip6 0x64 0xff9b 0 0 + 2 ^ 32) then Some (a - ip6 0x64 0xff9b 0 0)
  else if bool_decide (ip6 0x2002 0 0 0 ≤ a < ip6 0x2003 0 0 0) then Some ((a - ip6 0x2002 0 0 0) / 2 ^ 80)
  else None.

Definition in_ranges (l : list (Z * Z)) (a : Z) : Prop := Exists (λ '(lo, hi), lo ≤ a ≤ hi) l.

Definition unsafe (x : addr) : Prop :=
  match x with
  | InvalidAddr => True
  | IPv4 a => in_ranges special4 a
  | IPv6 a _ => match inner4 a with Some b => in_ranges special4 b | None => in_ranges special6 a end
  end.

Lemma shiftr_range a k c : 0 ≤ k → Z.shiftr a k = c ↔ c * 2 ^ k ≤ a < (c + 1) * 2 ^ k.
Proof.
  intros Hk. rewrite Z.shiftr_div_pow2 by lia. assert (0 < 2 ^ k) by (apply Z.pow_pos_nonneg; lia).
  split; [intros <-|intros Ha].
  - pose proof (Z.mul_div_le a (2 ^ k)). pose proof (Z.mul_succ_div_gt a (2 ^ k)). nia.
  - symmetry. apply (Z.div_unique a (2 ^ k) c (a - c * 2 ^ k)); lia.
Qed.

Lemma link_local_multicast a : 0 ≤ a < 2 ^ 128 → Z.land (Z.shiftr a 112) 0xff0f = 0xff02 → Z.shiftr a 120 = 0xff.
Proof.
  intros Ha E. apply (f_equal (λ z, Z.shiftr z 8)) in E. rewrite Z.shiftr_land, Z.shiftr_shiftr in E by lia.
  change (Z.shiftr 0xff0f 8) with (Z.ones 8) in E. change (Z.shiftr 0xff02 8) with 255 in E.
  change (112 + 8) with 120 in E. rewrite Z.land_ones in E by lia. rewrite Z.mod_small in E; [done|].
  rewrite Z.shiftr_div_pow2 by lia. split; [apply Z.div_pos; lia|apply Z.div_lt_upper_bound; lia].
Qed.

(** Evaluates the constants of a goal about ranges. *)
Ltac literals :=
  repeat match goal with
  | |- context [Z.shiftr (ip4 ?a ?b ?c ?d) ?n] => let x := constr:(Z.shiftr (ip4 a b c d) n) in let y := eval vm_compute in x in change x with y
  | |- context [Z.shiftr (ip6 ?a ?b ?c ?d) ?n] => let x := constr:(Z.shiftr (ip6 a b c d) n) in let y := eval vm_compute in x in change x with y
  | |- context [ip4 ?a ?b ?c ?d] => let x := constr:(ip4 a b c d) in let y := eval vm_compute in x in change x with y
  | |- context [ip6 ?a ?b ?c ?d] => let x := constr:(ip6 a b c d) in let y := eval vm_compute in x in change x with y
  end.

Lemma predicates_block4 a : 0 ≤ a < 2 ^ 32 → predicates_block (IPv4 a) = true ↔ in_ranges special4 a.
Proof.
  intros Ha. unfold predicates_block, in_ranges, special4, blockedPrefixes, IsLoopback, IsPrivate, IsLinkLocalUnicast,
    IsLinkLocalMulticast, IsMulticast, IsUnspecified. cbn [existsb Contains].
  rewrite !orb_true_iff, !Exists_cons, Exists_nil, !bool_decide_eq_true.
  literals. rewrite !shiftr_range by lia. lia.
Qed.

Lemma predicates_block6 a : 0 ≤ a < 2 ^ 128 → predicates_block (IPv6 a []) = true ↔ in_ranges special6 a.
Proof.
  intros Ha. unfold predicates_block, in_ranges, special6, blockedPrefixes, IsLoopback, IsPrivate, IsLinkLocalUnicast,
    IsLinkLocalMulticast, IsMulticast, IsUnspecified. cbn [existsb Contains].
  rewrite !orb_true_iff, !Exists_cons, Exists_nil, !bool_decide_eq_true. pose proof (link_local_multicast a Ha) as Hm.
  revert Hm. literals. rewrite !shiftr_range by lia. lia.
Qed.

Lemma Contains_nat64 a : 0 ≤ a → Contains nat64WellKnown (IPv6 a []) = bool_decide (ip6 0x64 0xff9b 0 0 ≤ a < ip6 0x64 0xff9b 0 0 + 2 ^ 32).
Proof. intros Ha. unfold nat64WellKnown. cbn [Contains]. apply bool_decide_ext. literals. rewrite shiftr_range by lia. lia. Qed.

Lemma Contains_6to4 a : 0 ≤ a → Contains sixToFour (IPv6 a []) = bool_decide (ip6 0x2002 0 0 0 ≤ a < ip6 0x2003 0 0 0).
Proof. intros Ha. unfold sixToFour. cbn [Contains]. apply bool_decide_ext. literals. rewrite shiftr_range by lia. lia. Qed.

(** The code judges the address that is reached. *)
Lemma reached_address a zone : 0 ≤ a < 2 ^ 128 →
  IsBlockedAddr (IPv6 a zone) = match inner4 a with Some b => predicates_block (IPv4 b) | None => predicates_block (IPv6 a []) end
  ∧ match inner4 a with Some b => 0 ≤ b < 2 ^ 32 | None => True end.
Proof.
  intros Ha. unfold IsBlockedAddr, Unmap, inner4.
  assert (bool_decide (Z.shiftr a 32 = 0xffff) = bool_decide (0xffff00000000 ≤ a < 0x1000000000000)) as ->.
  { apply bool_decide_ext. rewrite shiftr_range; lia. }
  case_bool_decide as Hm.
  - cbn [without_zone]. unfold embeddedIPv4. cbn [nat64WellKnown sixToFour Contains].
    assert (a mod 2 ^ 32 = a - 0xffff00000000) as -> by (symmetry; apply (Z.mod_unique _ _ 0xffff); lia). split; [done|lia].
  - cbn [without_zone]. unfold embeddedIPv4. rewrite Contains_nat64, Contains_6to4 by lia. case_bool_decide as Hn.
    + assert (a mod 2 ^ 32 = a - ip6 0x64 0xff9b 0 0) as ->; [|split; [done|lia]].
      symmetry. apply (Z.mod_unique _ _ (Z.shiftr (ip6 0x64 0xff9b 0 0) 32)); [lia|]. literals. lia.
    + case_bool_decide as Hs; [|done].
      assert (Z.shiftr a 80 mod 2 ^ 32 = (a - ip6 0x2002 0 0 0) / 2 ^ 80) as ->.
      { rewrite Z.shiftr_div_pow2 by lia. symmetry. apply (Z.mod_unique _ _ 0x2002).
        - left. split; [apply Z.div_pos; lia|]. apply Z.div_lt_upper_bound; [lia|]. revert Hs. literals. lia.
        - rewrite <- (Z.div_add_l 0x200200000000 (2 ^ 80)) by lia. f_equal. literals. lia. }
      split; [done|]. split; [apply Z.div_pos; lia|]. apply Z.div_lt_upper_bound; [lia|]. revert Hs. literals. lia.
Qed.

Lemma blocked_iff_unsafe x : addr_ok x → IsBlockedAddr x = true ↔ unsafe x.
Proof.
  destruct x as [|a|a zone]; intros Hok; cbn [addr_ok unsafe] in *.
  - done.
  - rewrite <- predicates_block4 by done. done.
  - destruct (reached_address a zone Hok) as [-> Hr]. destruct (inner4 a) as [b|].
    + by apply predicates_block4.
    + by apply predicates_block6.
Qed.

(** ** The host a pinned URL names *)

Definition bracket_free (s : text) : Prop := Forall (λ r, r ≠ 91 ∧ r ≠ 93) s.

Lemma last_colon_none s : COLON ∉ s → last_colon s = None.
Proof.
  induction s as [|c s IH]; [done|]. rewrite not_elem_of_cons. intros [Hc Hs]. cbn [last_colon]. rewrite IH by done.
  by rewrite bool_decide_false.
Qed.

Lemma last_colon_found s : COLON ∈ s → last_colon s ≠ None.
Proof.
  intros Hin. apply list_elem_of_split in Hin as (l1 & l2 & ->). induction l1 as [|c l IHl]; cbn [app last_colon].
  - destruct (last_colon l2) as [[??]|]; by rewrite ?bool_decide_true.
  - by destruct (last_colon (l ++ _)) as [[??]|].
Qed.

Lemma last_colon_app a b : COLON ∉ b → last_colon (a ++ COLON :: b) = Some (a, b).
Proof.
  intros Hb. induction a as [|c a IH]; cbn [app last_colon].
  - rewrite last_colon_none by done. by rewrite bool_decide_true.
  - by rewrite IH.
Qed.

Lemma last_colon_some s a b : last_colon s = Some (a, b) → s = a ++ COLON :: b ∧ COLON ∉ b.
Proof.
  revert a b. induction s as [|c s IH]; intros a b; cbn [last_colon]; [done|].
  destruct (last_colon s) as [[a' b']|] eqn:E.
  - intros [= <- <-]. destruct (IH _ _ eq_refl) as [-> Hb]. done.
  - case_bool_decide; [|done]. intros [= <- <-]. subst. split; [done|]. intros Hin.
    by apply last_colon_found in Hin.
Qed.

Lemma contains_colon s : contains (txt ":") s = bool_decide (COLON ∈ s).
Proof.
  induction s as [|c s IH]; [done|]. cbn [contains]. rewrite IH. change (txt ":") with [COLON]. cbn [has_prefix].
  rewrite andb_true_r. rewrite <- bool_decide_or. apply bool_decide_ext. rewrite elem_of_cons. naive_solver.
Qed.

Lemma strip_bracketed ip : strip_brackets (txt "[" ++ ip ++ txt "]") = ip.
Proof.
  change (txt "[") with [91]. change (txt "]") with [93]. unfold strip_brackets, has_suffix. cbn [app].
  change (rev (txt "]")) with [93]. change (txt "[") with [91]. cbn [rev]. rewrite rev_app_distr. cbn [rev app has_prefix].
  rewrite !bool_decide_true by done. cbn [andb tail length]. rewrite length_app. cbn [length].
  replace (S (length ip + 1) - 2)%nat with (length ip) by lia. by rewrite take_app_length.
Qed.

Lemma strip_plain ip : bracket_free ip → strip_brackets ip = ip.
Proof.
  intros Hb. unfold strip_brackets. change (txt "[") with [91]. destruct ip as [|c ip]; [done|]. apply Forall_cons in Hb as [[Hc _] _].
  cbn [has_prefix]. by rewrite bool_decide_false by congruence.
Qed.

Lemma digits_no_colon p : forallb is_digit p = true → COLON ∉ p.
Proof.
  intros Hp Hin. rewrite forallb_forall in Hp. apply list_elem_of_In, Hp in Hin. unfold is_digit, COLON in Hin.
  apply bool_decide_eq_true in Hin. lia.
Qed.

Lemma valid_port p : validOptionalPort (COLON :: p) = forallb is_digit p.
Proof. cbn [validOptionalPort]. by rewrite bool_decide_true. Qed.

Lemma split_pinned ip port : bracket_free ip → forallb is_digit port = true → splitHostPort (pinned_host ip port) = (ip, port).
Proof.
  intros Hb Hp. pose proof (digits_no_colon port Hp) as Hc. unfold pinned_host, JoinHostPort. rewrite contains_colon. destruct port as [|d port]; cbn [is_empty negb].
  - case_bool_decide as Hi; unfold splitHostPort.
    + destruct (last_colon ip) as [[a b]|] eqn:E.
      2: { by apply last_colon_found in Hi. }
      apply last_colon_some in E as [-> Hbc].
      assert (E : txt "[" ++ (a ++ COLON :: b) ++ txt "]" = (txt "[" ++ a) ++ COLON :: (b ++ txt "]")) by (by rewrite <- !app_assoc).
      rewrite E, last_colon_app, <- E, valid_port.
      2: { rewrite elem_of_app. intros [?|Hin]; [done|]. change (txt "]") with [93] in Hin. apply list_elem_of_singleton in Hin. done. }
      rewrite forallb_app. change (forallb is_digit (txt "]")) with false. rewrite andb_false_r. by rewrite strip_bracketed.
    + by rewrite last_colon_none, strip_plain.
  - unfold splitHostPort. case_bool_decide as Hi.
    + change (txt "]:") with (txt "]" ++ [COLON]).
      assert (E : txt "[" ++ ip ++ (txt "]" ++ [COLON]) ++ d :: port = (txt "[" ++ ip ++ txt "]") ++ COLON :: d :: port) by (by rewrite <- !app_assoc).
      rewrite E, last_colon_app, valid_port, Hp by done. by rewrite strip_bracketed.
    + change (txt ":") with [COLON]. cbn [app]. rewrite last_colon_app, valid_port, Hp by done. by rewrite strip_plain.
Qed.

Lemma Port_digits {R} (u : URL R) : forallb is_digit (Port u) = true.
Proof. unfold Port, splitHostPort. destruct (last_colon (Host u)) as [[a b]|]; [|done]. rewrite valid_port. by destruct (forallb is_digit b) eqn:?. Qed.

(** ** Resolution *)

Section resolve.
Context `{NetLaws}.

Lemma first_safe_ok cfg ips acc ip : first_safe cfg ips acc = Ok ip →
  (acc ≠ [] → ip = acc) ∧ (acc = [] → ip ∈ ips ∧ is_Some (ParseAddr ip)) ∧
  (allowPrivate cfg = false → Forall (λ s, ∀ x, ParseAddr s = Some x → IsBlockedAddr x = false) ips).
Proof.
  revert acc. induction ips as [|s ips IH]; intros acc; cbn [first_safe].
  - destruct acc; [done|]. intros [= <-]. done.
  - destruct (ParseAddr s) as [x|] eqn:Ex.
    + destruct (negb (allowPrivate cfg) && IsBlockedAddr x)%bool eqn:Eb; [done|]. intros E. destruct (IH _ E) as (H1 & H2 & H3).
      destruct (ParseAddr_valid s x Ex) as [Hs _].
      split_and!.
      * intros Ha. destruct acc; [done|]. by apply H1.
      * intros ->. cbn [is_empty] in *. rewrite (H1 Hs), Ex. split; [by left|done].
      * intros Hp. rewrite Hp in Eb. constructor; [|auto]. intros x' Hx'. rewrite Ex in Hx'. injection Hx' as <-. done.
    + intros E. destruct (IH _ E) as (H1 & H2 & H3). split_and!; [done| |].
      * intros Ha. destruct (H2 Ha). split; [by right|done].
      * intros Hp. constructor; [|auto]. intros x Hx. by rewrite Ex in Hx.
Qed.

(** What a successful resolution gives: one address the resolver returned, in
    place of the host, and the original host beside it. *)
Lemma ResolveAndValidate_ok ctx lookup raw opts r :
  ResolveAndValidate ctx lookup raw opts = Ok r →
  (∀ h ips, lookup h = Some ips → Forall bracket_free ips) →
  ∃ u ip x, url_parse raw = Some u ∧ (∃ ips, lookup (Hostname u) = Some ips ∧ ip ∈ ips) ∧ ParseAddr ip = Some x ∧
    (allowPrivate (buildConfig opts) = false → ¬ unsafe x) ∧
    isBlockedHostnameWithConfig (Hostname u) (buildConfig opts) = false ∧
    (ToLower (Scheme u) = txt "http" ∨ ToLower (Scheme u) = txt "https") ∧
    Authority r = Host u ∧ SNIHostname r = Hostname u ∧
    (∀ pinned, url_parse (PinnedURL r) = Some pinned → Hostname pinned = ip ∧ Port pinned = Port u ∧ Scheme pinned = Scheme u) ∧
    (37 ∉ ip → is_Some (url_parse (PinnedURL r))).
Proof.
  intros E Hl. unfold ResolveAndValidate in E. destruct (validateContext ctx); [|done]. cbn [mbind result_bind] in E.
  destruct (url_parse raw) as [u|] eqn:Eu; [|done]. destruct (validateScheme (Scheme u) (buildConfig opts)) as [[]|] eqn:Es; [|done].
  cbn [mbind result_bind] in E. destruct (is_empty (Hostname u)) eqn:Eh; [done|].
  destruct (isBlockedHostnameWithConfig (Hostname u) (buildConfig opts)) eqn:Ebl; [done|].
  destruct (lookup (Hostname u)) as [ips|] eqn:Eip; [|done]. destruct ips as [|i0 ips0] eqn:Eips; [done|]. rewrite <- Eips in *.
  destruct (first_safe (buildConfig opts) ips []) as [ip|] eqn:Ef; [|done]. cbn [mbind result_bind] in E.
  apply Ok_inj in E as <-. cbn [PinnedURL Authority SNIHostname].
  apply first_safe_ok in Ef as (_ & Hin & Hsafe). destruct (Hin eq_refl) as [Hi [x Hx]].
  assert (Hb : bracket_free ip) by (pose proof (Hl _ _ Eip) as Hf; rewrite Forall_forall in Hf; by apply Hf).
  pose proof (split_pinned ip (Port u) Hb (Port_digits u)) as Hsp.
  assert (Hostname u ≠ []) as Hne by (intros E; by rewrite E in Eh).
  exists u, ip, x. split_and!; try done.
  - eauto.
  - intros Hp. specialize (Hsafe Hp). rewrite Forall_forall in Hsafe. specialize (Hsafe ip Hi x Hx).
    rewrite <- blocked_iff_unsafe by (by apply (ParseAddr_valid ip x)). by rewrite Hsafe.
  - unfold validateScheme in Es. destruct (httpsOnly (buildConfig opts)).
    + right. destruct (eqt _ _) eqn:Et; [|done]. by apply bool_decide_eq_true in Et.
    + destruct (eqt (ToLower (Scheme u)) (txt "http")) eqn:E1; [left; by apply bool_decide_eq_true in E1|].
      destruct (eqt (ToLower (Scheme u)) (txt "https")) eqn:E2; [right; by apply bool_decide_eq_true in E2|]. done.
  - intros pin Hpin. destruct (url_reparse raw u ip pin Eu Hne (ex_intro _ x Hx) Hpin) as [Hps Hph].
    unfold Hostname at 1, Port at 1. by rewrite Hph, Hsp.
  - intros Hz. by apply (url_reparses raw u ip Eu Hne (ex_intro _ x Hx)).
Qed.
End resolve.
