(* ===== verification/Effects.v ===== *)
(** Programs that talk to the outside world.

    [eff R A] is a program that issues commands [c] and continues with an answer
    of type [R c].  [wp] says what holds of every run whatever the answers are,
    with a condition that holds after every command, so that a run may also stop
    anywhere.  A [world] is a number of programs that share a state; [step] lets
    one of them perform one command, so that lists of steps are all the
    interleavings. *)

From stdpp Require Import base numbers list.
From S2P Require Import Prelude.

(** ** Programs *)

Inductive eff {C : Type} (R : C → Type) (A : Type) : Type :=
| Done (a : A)
| Do (c : C) (k : R c → eff R A).
Arguments Done {C R A} a.
Arguments Do {C R A} c k.

#[export] Instance eff_ret {C} (R : C → Type) : MRet (eff R) := λ A, Done.

#[export] Instance eff_bind {C} (R : C → Type) : MBind (eff R) := λ A B f,
  fix bind p := match p with Done a => f a | Do c k => Do c (λ x, bind (k x)) end.

#[export] Instance eff_fmap {C} (R : C → Type) : FMap (eff R) := λ A B f p, p ≫= λ a, Done (f a).

Definition perform {C} {R : C → Type} (c : C) : eff R (R c) := Do c Done.
Arguments perform {C R} c : simpl never.

(** A command with the answer it got. *)
Record event {C} (R : C → Type) := Ev { ev_cmd : C; ev_answer : R ev_cmd }.
Arguments Ev {C R} ev_cmd ev_answer.
Arguments ev_cmd {C R} e.
Arguments ev_answer {C R} e.

(** ** Every run of a program *)

Section wp.
Context {C : Type} {R : C → Type}.
Implicit Types (tr : list (event R)) (I : list (event R) → Prop).

(** Every run of [p] after the events [tr] keeps [I] after each command and
    ends in a result that satisfies [Φ] together with all the events. *)
Fixpoint wp {A} (p : eff R A) I (Φ : list (event R) → A → Prop) tr : Prop :=
  I tr ∧ match p with
         | Done a => Φ tr a
         | Do c k => ∀ x, wp (k x) I Φ (tr ++ [Ev c x])
         end.

Lemma wp_here {A} (p : eff R A) I Φ tr : wp p I Φ tr → I tr.
Proof. destruct p; by intros []. Qed.

Lemma wp_perform c I Φ tr :
  I tr → (∀ x, I (tr ++ [Ev c x]) ∧ Φ (tr ++ [Ev c x]) x) → wp (perform c : eff R (R c)) I Φ tr.
Proof. intros H1 H2. unfold perform. simpl. split; [done|]. intros x. apply H2. Qed.

Lemma wp_weaken {A} (p : eff R A) I (Φ Ψ : list (event R) → A → Prop) tr :
  (∀ t a, I t → Φ t a → Ψ t a) → wp p I Φ tr → wp p I Ψ tr.
Proof. intros H. revert tr. induction p as [a|c k IH]; simpl; intros tr [??]; eauto. Qed.

Lemma wp_keeps_mono {A} (p : eff R A) I I' Φ tr : (∀ t, I t → I' t) → wp p I Φ tr → wp p I' Φ tr.
Proof. intros H. revert tr. induction p as [a|c k IH]; simpl; intros tr [??]; eauto. Qed.

Lemma wp_seq {A B} (p : eff R A) (f : A → eff R B) I Φ tr :
  wp p I (λ t a, wp (f a) I Φ t) tr → wp (p ≫= f) I Φ tr.
Proof. revert tr. induction p as [a|c k IH]; simpl; intros tr [? H]; [done|]. split; [done|]. intros x. apply IH, H. Qed.

(** Specifications: what a program needs before, and leaves after. *)
Definition spec {A} I (P : list (event R) → Prop) (p : eff R A) (Φ : list (event R) → A → Prop) : Prop :=
  ∀ tr, P tr → wp p I Φ tr.

Lemma spec_bind {A B} I P (p : eff R A) M (f : A → eff R B) Φ :
  spec I P p M → (∀ a, spec I (λ tr, M tr a) (f a) Φ) → spec I P (p ≫= f) Φ.
Proof.
  intros Hp Hf tr HP. apply wp_seq. eapply wp_weaken; [|by apply Hp]. intros t a _ HM. by apply Hf.
Qed.

Lemma spec_ret {A} I (P : _ → Prop) (a : A) (Φ : _ → _ → Prop) :
  (∀ tr, P tr → I tr ∧ Φ tr a) → spec I P (mret a) Φ.
Proof. intros H tr HP. by apply H. Qed.

Lemma spec_perform I (P : _ → Prop) c (Φ : _ → _ → Prop) :
  (∀ tr, P tr → I tr) → (∀ tr x, P tr → I (tr ++ [Ev c x]) ∧ Φ (tr ++ [Ev c x]) x) → spec I P (perform c) Φ.
Proof. intros H1 H2 tr HP. apply wp_perform; [by apply H1|]. intros x. by apply H2. Qed.

Lemma spec_conseq {A} I (P P' : _ → Prop) (p : eff R A) (Φ Φ' : list (event R) → A → Prop) :
  (∀ tr, P tr → P' tr) → (∀ tr a, Φ' tr a → Φ tr a) → spec I P' p Φ' → spec I P p Φ.
Proof. intros HP HΦ H tr Ht. eapply wp_weaken; [|by apply H, HP]. eauto. Qed.

Lemma spec_pre {A} I (P P' : _ → Prop) (p : eff R A) Φ : (∀ tr, P tr → P' tr) → spec I P' p Φ → spec I P p Φ.
Proof. intros HP H tr Ht. by apply H, HP. Qed.

Lemma spec_case {A} I P (X : Prop) (p : eff R A) Φ :
  (X → spec I P p Φ) → spec I (λ tr, X ∧ P tr) p Φ.
Proof. intros H tr [HX HP]. by apply H. Qed.
End wp.

(** ** Rely and guarantee

    [Rely] is what a program may expect of the answers it has got so far, and
    [G tr c] what it promises of a command [c] issued after [tr]. *)

Section guarantee.
Context {C : Type} {R : C → Type} (Rely : list (event R) → Prop) (G : list (event R) → C → Prop).
Implicit Types (tr : list (event R)).

(** Every command was issued under its guarantee. *)
Definition guarded tr : Prop := ∀ tr1 e, (tr1 ++ [e]) `prefix_of` tr → Rely tr1 → G tr1 (ev_cmd e).

Lemma guarded_nil : guarded [].
Proof. intros tr1 e Hp%prefix_nil_inv. by apply app_eq_nil in Hp as [_ ?]. Qed.

Lemma guarded_snoc tr e : guarded (tr ++ [e]) ↔ guarded tr ∧ (Rely tr → G tr (ev_cmd e)).
Proof.
  split.
  - intros Hg. split; [|by apply Hg]. intros tr1 e1 Hp. apply Hg. by apply prefix_app_r.
  - intros [Hg He] tr1 e1 [k E]. destruct k as [|e2 k _] using rev_ind.
    + rewrite app_nil_r in E. apply app_inj_tail in E as [-> ->]. done.
    + rewrite app_assoc in E. apply app_inj_tail in E as [-> _]. apply Hg. by exists k.
Qed.

Lemma guarded_at tr tr1 e tr2 : guarded tr → tr = tr1 ++ e :: tr2 → Rely tr1 → G tr1 (ev_cmd e).
Proof. intros Hg ->. apply Hg. exists tr2. by rewrite <- app_assoc. Qed.

(** [p], started when [A] is known of the events, keeps its guarantees, and
    leaves [B]. *)
Definition safely {X} (A : list (event R) → Prop) (p : eff R X) (B : X → list (event R) → Prop) : Prop :=
  spec guarded (λ tr, guarded tr ∧ (Rely tr → A tr)) p (λ tr x, guarded tr ∧ (Rely tr → B x tr)).

Lemma safely_ret {X} (A : _ → Prop) (x : X) B : (∀ tr, A tr → B x tr) → safely A (mret x) B.
Proof. intros HB. apply spec_ret. intros tr [Hg HA]. auto. Qed.

Lemma safely_bind {X Y} A (p : eff R X) M (f : X → eff R Y) B :
  safely A p M → (∀ x, safely (M x) (f x) B) → safely A (p ≫= f) B.
Proof. intros Hp Hf. eapply spec_bind; [exact Hp|]. exact Hf. Qed.

Lemma safely_weaken {X} (A A' : _ → Prop) (p : eff R X) (B B' : X → list (event R) → Prop) :
  (∀ tr, A tr → A' tr) → (∀ x tr, B' x tr → B x tr) → safely A' p B' → safely A p B.
Proof.
  intros HA HB Hp. eapply spec_conseq; [| |exact Hp].
  - intros tr [Hg Ht]. auto.
  - intros tr x [Hg Ht]. auto.
Qed.

Context (Rely_init : ∀ tr e, Rely (tr ++ [e]) → Rely tr).

Lemma safely_perform (A : _ → Prop) c (B : R c → list (event R) → Prop) :
  (∀ tr, A tr → G tr c) → (∀ tr x, A tr → Rely (tr ++ [Ev c x]) → B x (tr ++ [Ev c x])) → safely A (perform c) B.
Proof.
  intros HG HB. apply spec_perform; [by intros tr []|]. intros tr x [Hg HA].
  assert (guarded (tr ++ [Ev c x])) by (apply guarded_snoc; auto).
  split; [done|]. split; [done|]. intros Hr. apply HB; [|done]. eapply HA, Rely_init, Hr.
Qed.

(** Where the answers broke the rely, nothing has to be shown. *)
Lemma safely_rely {X} (A : _ → Prop) (p : eff R X) B :
  (∀ tr, guarded tr → Rely tr → A tr → wp p guarded (λ tr x, guarded tr ∧ (Rely tr → B x tr)) tr) → safely A p B.
Proof.
  intros Hp tr [Hg HA].
  assert (Rely tr → wp p guarded (λ tr x, guarded tr ∧ (Rely tr → B x tr)) tr) as Hw by auto.
  clear Hp HA. revert tr Hg Hw. induction p as [x|c k IH]; intros tr Hg Hw; simpl.
  - split; [done|]. split; [done|]. intros Hr. by apply Hw.
  - split; [done|]. intros x. apply IH.
    + apply guarded_snoc. split; [done|]. intros Hr. destruct (Hw Hr) as [_ Hk].
      specialize (Hk x). apply wp_here, guarded_snoc in Hk as [_ Hk]. by apply Hk.
    + intros Hr%Rely_init. by apply Hw.
Qed.

Lemma safely_pure {X} (Q : Prop) (A : _ → Prop) (p : eff R X) B :
  (Q → safely A p B) → safely (λ tr, Q ∧ A tr) p B.
Proof. intros Hp. apply safely_rely. intros tr Hg _ [HQ HA]. apply Hp; auto. Qed.

Lemma safely_exists {X Y} (A : Y → _ → Prop) (p : eff R X) B :
  (∀ y, safely (A y) p B) → safely (λ tr, ∃ y, A y tr) p B.
Proof. intros Hp. apply safely_rely. intros tr Hg _ [y HA]. apply (Hp y); auto. Qed.
End guarantee.

(** The same without a rely. *)
Section keeps.
Context {C : Type} {R : C → Type} {G : list (event R) → C → Prop}.
Implicit Types (tr : list (event R)).

Definition keeps {X} (A : list (event R) → Prop) (q : eff R X) (B : X → list (event R) → Prop) : Prop := safely (λ _, True) G A q B.

Lemma keeps_ask {X} c (A : _ → Prop) (B : R c → _ → Prop) (k : R c → eff R X) Φ :
  (∀ tr, A tr → G tr c) → (∀ x tr, A tr → B x (tr ++ [Ev c x])) → (∀ x, keeps (B x) (k x) Φ) → keeps A (perform c ≫= k) Φ.
Proof. intros HG HB Hk. eapply safely_bind; [|exact Hk]. apply safely_perform; [done|done|]. intros tr x HA _. by apply HB. Qed.

Lemma keeps_last c (A : _ → Prop) (Φ : R c → _ → Prop) :
  (∀ tr, A tr → G tr c) → (∀ x tr, A tr → Φ x (tr ++ [Ev c x])) → keeps A (perform c) Φ.
Proof. intros HG HB. apply safely_perform; [done|done|]. intros tr x HA _. by apply HB. Qed.

Lemma keeps_ret {X} (A : _ → Prop) (x : X) Φ : (∀ tr, A tr → Φ x tr) → keeps A (mret x) Φ.
Proof. apply safely_ret. Qed.

Lemma keeps_bind {X Y} A (q : eff R X) M (f : X → eff R Y) B : keeps A q M → (∀ x, keeps (M x) (f x) B) → keeps A (q ≫= f) B.
Proof. apply safely_bind. Qed.

Lemma keeps_pre {X} (A A' : _ → Prop) (q : eff R X) B : (∀ tr, A tr → A' tr) → keeps A' q B → keeps A q B.
Proof. intros HA. by apply safely_weaken. Qed.

Lemma keeps_pure {X} (Q : Prop) (A : _ → Prop) (q : eff R X) B : (Q → keeps A q B) → keeps (λ tr, Q ∧ A tr) q B.
Proof. by apply safely_pure. Qed.

Lemma keeps_wp {X} (A : _ → Prop) (q : eff R X) B : keeps A q B → A [] →
  wp q (guarded (λ _, True) G) (λ tr x, guarded (λ _, True) G tr ∧ B x tr) [].
Proof.
  intros Hq HA. eapply wp_weaken; [|apply Hq; split; [apply guarded_nil|done]]. intros tr r _ [Hg Hl]. split; [done|]. by apply Hl.
Qed.
End keeps.
Arguments keeps {C R} G {X} A q B.

(** ** Programs that share a state *)

Section world.
Context {C : Type} {R : C → Type} {St L A : Type}.

(** What a command does to the state and what it answers; [L] holds everything
    else the answer depends on. *)
Context (exec : L → ∀ c : C, St → R c * St).

Record thread := { th_trace : list (event R); th_rest : eff R A }.

Record world := { w_state : St; w_threads : list thread }.

Definition advance (l : L) (t : thread) (s : St) : thread * St :=
  match th_rest t with
  | Done _ => (t, s)
  | Do c k =>
    let '(x, s') := exec l c s in
    ({| th_trace := th_trace t ++ [Ev c x]; th_rest := k x |}, s')
  end.

Definition step (w : world) (il : nat * L) : world :=
  match w_threads w !! il.1 with
  | None => w
  | Some t => let '(t', s') := advance il.2 t (w_state w) in
              {| w_state := s'; w_threads := <[il.1 := t']> (w_threads w) |}
  end.

Definition interleave (w : world) (ls : list (nat * L)) : world := foldl step w ls.

(** The programs at their start. *)
Definition start (s : St) (ps : list (eff R A)) : world :=
  {| w_state := s; w_threads := (λ p, {| th_trace := []; th_rest := p |}) <$> ps |}.

(** All the events so far, thread by thread. *)
Definition events (w : world) : list (event R) := w_threads w ≫= th_trace.

Lemma events_start s ps : events (start s ps) = [].
Proof. unfold events, start. cbn [w_threads]. induction ps as [|p ps IH]; csimpl; done. Qed.

Definition finished (t : thread) : bool := match th_rest t with Done _ => true | Do _ _ => false end.

(** *** Invariants *)

Lemma interleave_ind (P : world → Prop) ls w :
  P w → (∀ w il, il ∈ ls → P w → P (step w il)) → P (interleave w ls).
Proof.
  unfold interleave. revert w. induction ls as [|il ls IH]; intros w H0 HS; simpl; [done|].
  apply IH; [by apply HS, H0; left|]. intros w' il' Hin. apply HS. by right.
Qed.

(** What holds of every run of a program holds of the thread that runs it. *)
Definition thread_ok (J : (list (event R) → Prop) * (list (event R) → A → Prop)) (t : thread) : Prop :=
  wp (th_rest t) J.1 J.2 (th_trace t).

Lemma start_threads Js s ps :
  Forall2 (λ J p, wp p J.1 J.2 []) Js ps → Forall2 thread_ok Js (w_threads (start s ps)).
Proof. intros H. simpl. apply Forall2_fmap_r. eapply Forall2_impl; [exact H|]. done. Qed.

(** The thread of a step that does something. *)
Lemma step_cases w i l : step w (i, l) = w ∨
  ∃ t c k, w_threads w !! i = Some t ∧ th_rest t = Do c k ∧
    step w (i, l) =
      {| w_state := (exec l c (w_state w)).2;
         w_threads := <[i := {| th_trace := th_trace t ++ [Ev c (exec l c (w_state w)).1];
                                th_rest := k (exec l c (w_state w)).1 |}]> (w_threads w) |}.
Proof.
  unfold step, advance. simpl. destruct (w_threads w !! i) as [t|] eqn:E; [|by left].
  destruct (th_rest t) as [a|c k] eqn:E1.
  - left. rewrite list_insert_id by done. by destruct w.
  - right. exists t, c, k. split_and!; [done..|]. by destruct (exec l c (w_state w)).
Qed.

(** *** Rely and guarantee

    [Q] is what the environment promises of its answers while the state satisfies
    [P], and [G] what the programs promise of their commands as long as all
    answers satisfied [Q]. *)
Lemma interleave_rely Js (P : St → Prop) (Q G : event R → Prop) s ps ls :
  (∀ i l c s, (i, l) ∈ ls → P s → Q (Ev c (exec l c s).1)) →
  (∀ i l c s, (i, l) ∈ ls → P s → G (Ev c (exec l c s).1) → P (exec l c s).2) →
  Forall (λ J, ∀ tr, J.1 tr → Forall Q tr → Forall G tr) Js →
  Forall2 (λ J p, wp p J.1 J.2 []) Js ps → P s →
  let w := interleave (start s ps) ls in P (w_state w) ∧ Forall Q (events w) ∧ Forall2 thread_ok Js (w_threads w).
Proof.
  intros HQ HG HJ Hps Hs. simpl.
  apply (interleave_ind (λ w, P (w_state w) ∧ Forall Q (events w) ∧ Forall2 thread_ok Js (w_threads w))).
  { split_and!; [done| |by apply start_threads].
    unfold events. simpl. apply Forall_bind, Forall_fmap, Forall_true. intros p. constructor. }
  intros w [i l] Hin (HP & HQs & HT). unfold step. simpl. destruct (w_threads w !! i) as [t|] eqn:E; [|done].
  destruct (Forall2_lookup_r _ _ _ _ _ HT E) as (J & HJi & Ht).
  unfold advance. destruct (th_rest t) as [a|c k] eqn:E1.
  { simpl. rewrite list_insert_id by done. done. }
  specialize (HQ i l c (w_state w) Hin HP). specialize (HG i l c (w_state w) Hin HP).
  destruct (exec l c (w_state w)) as [x s'] eqn:E2. simpl in *.
  unfold events in *. rewrite Forall_bind in HQs. assert (Htr := Forall_lookup_1 _ _ _ _ HQs E). simpl in Htr.
  assert (Hnew : Forall Q (th_trace t ++ [Ev c x])) by (apply Forall_app; split; [done|by constructor]).
  assert (Ht' : wp (k x) J.1 J.2 (th_trace t ++ [Ev c x])).
  { unfold thread_ok in Ht. rewrite E1 in Ht. destruct Ht as [_ Ht]. apply Ht. }
  assert (HGs : Forall G (th_trace t ++ [Ev c x])).
  { apply (Forall_lookup_1 _ _ _ _ HJ HJi); [by eapply wp_here|done]. }
  rewrite Forall_app, Forall_singleton in HGs. destruct HGs as [_ HGe].
  split_and!; [by apply HG| |].
  - apply Forall_bind, Forall_insert; done.
  - rewrite <- (list_insert_id Js i J HJi). by apply Forall2_insert.
Qed.

(** *** Balance

    When every command balances what the state holds against what its event
    takes and gives, so does every interleaving. *)

Context {X : Type} (holds owes : St → list X) (takes gives : event R → list X).

Definition balanced (s s' : St) (tr : list (event R)) : Prop :=
  holds s' ++ (tr ≫= takes) ++ owes s ≡ₚ holds s ++ (tr ≫= gives) ++ owes s'.

Lemma insert_thread_events (f : event R → list X) (ts : list thread) i t e rest :
  ts !! i = Some t →
  (<[i := {| th_trace := th_trace t ++ [e]; th_rest := rest |}]> ts ≫= th_trace) ≫= f ≡ₚ
  ((ts ≫= th_trace) ≫= f) ++ f e.
Proof.
  intros E. rewrite <- (list_insert_id ts i t E) at 2. rewrite !insert_take_drop by (by eapply lookup_lt_Some).
  rewrite !bind_app, !bind_cons. simpl. rewrite !bind_app. simpl. rewrite app_nil_r.
  rewrite <- !app_assoc. do 2 f_equiv. apply Permutation_app_comm.
Qed.

Lemma interleave_balanced w ls :
  (∀ i l c s, (i, l) ∈ ls → balanced s (exec l c s).2 [Ev c (exec l c s).1]) →
  events w = [] → balanced (w_state w) (w_state (interleave w ls)) (events (interleave w ls)).
Proof.
  intros HB H0.
  apply (interleave_ind (λ w', balanced (w_state w) (w_state w') (events w'))).
  { unfold balanced. rewrite H0. done. }
  intros w' [i l] Hin H. unfold step. simpl. destruct (w_threads w' !! i) as [t|] eqn:E; [|done].
  unfold advance. destruct (th_rest t) as [a|c k] eqn:E1.
  { simpl. by rewrite list_insert_id by done. }
  specialize (HB i l c (w_state w') Hin). destruct (exec l c (w_state w')) as [x s'] eqn:E2. simpl in *.
  unfold balanced, events in *. simpl in *. rewrite !app_nil_r in HB.
  rewrite !(insert_thread_events _ _ _ _ _ _ E).
  generalize dependent ((w_threads w' ≫= th_trace) ≫= takes).
  generalize dependent ((w_threads w' ≫= th_trace) ≫= gives).
  intros G T H.
  apply (Permutation_app_inv_l (holds (w_state w') ++ owes (w_state w'))).
  trans ((holds s' ++ takes (Ev c x) ++ owes (w_state w')) ++ (holds (w_state w') ++ T ++ owes (w_state w))).
  { solve_Permutation. }
  rewrite HB, H. solve_Permutation.
Qed.
End world.
Arguments thread {C} R A.
Arguments world {C} R St A.
Arguments Build_world {C R St A} w_state w_threads.

(** ** One program on its own

    The answers depend on [env n] at the [n]-th command. *)
Section alone.
Context {C : Type} {R : C → Type} {St L : Type} (exec : L → ∀ c : C, St → R c * St).

Fixpoint run {A} (p : eff R A) (env : nat → L) (s : St) : A * St * list (event R) :=
  match p with
  | Done a => (a, s, [])
  | Do c k =>
    let '(x, s1) := exec (env 0%nat) c s in
    let '(a, s2, tr) := run (k x) (λ n, env (S n)) s1 in
    (a, s2, Ev c x :: tr)
  end.

Lemma run_bind {A B} (p : eff R A) (f : A → eff R B) env s :
  run (p ≫= f) env s =
  let '(a, s1, tr1) := run p env s in
  let '(b, s2, tr2) := run (f a) (λ n, env (length tr1 + n)%nat) s1 in
  (b, s2, tr1 ++ tr2).
Proof.
  revert env s. induction p as [a|c k IH]; intros env s; simpl.
  - by destruct (run (f a) env s) as [[??]?].
  - destruct (exec (env 0%nat) c s) as [x s1]. specialize (IH x (λ n, env (S n)) s1).
    unfold mbind in IH. rewrite IH. destruct (run (k x) _ s1) as [[a s2] tr1]. simpl.
    by destruct (run (f a) _ s2) as [[??]?].
Qed.

(** The programs whose commands all satisfy [K]. *)
Fixpoint issues {A} (K : C → Prop) (p : eff R A) : Prop :=
  match p with Done _ => True | Do c k => K c ∧ ∀ x, issues K (k x) end.

Lemma issues_bind {A B} K (p : eff R A) (f : A → eff R B) :
  issues K p → (∀ a, issues K (f a)) → issues K (p ≫= f).
Proof.
  intros Hp Hf. induction p as [a|c k IH]; simpl in *; [apply Hf|]. destruct Hp as [Hc Hk]. split; [done|].
  intros x. by apply IH.
Qed.

Lemma issues_perform K c : K c → issues (A := R c) K (perform c).
Proof. unfold perform. simpl. auto. Qed.

Lemma issues_wp {A} K (p : eff R A) I tr :
  (∀ t c x, I t → K c → I (t ++ [Ev c x])) → issues K p → I tr → wp p I (λ _ _, True) tr.
Proof.
  intros HK. revert tr. induction p as [a|c k IH]; simpl; intros tr Hp Hi; [done|]. destruct Hp as [Hc Hk].
  split; [done|]. intros x. apply IH; auto.
Qed.

(** Every run, with surroundings that satisfy [E] at each command, ends in
    [Φ]. *)
Definition returns {A} (E : L → Prop) (p : eff R A) (s : St) (Φ : A → St → list (event R) → Prop) : Prop :=
  ∀ env, (∀ n, E (env n)) → let '(a, s', tr) := run p env s in Φ a s' tr.

Lemma returns_ret {A} E (a : A) s (Φ : _ → _ → _ → Prop) : Φ a s [] → returns E (mret a) s Φ.
Proof. by intros HΦ env HE. Qed.

Lemma returns_perform E c s (Φ : _ → _ → _ → Prop) :
  (∀ l, E l → Φ (exec l c s).1 (exec l c s).2 [Ev c (exec l c s).1]) → returns E (perform c) s Φ.
Proof.
  intros HΦ env HE. unfold perform. simpl. specialize (HΦ _ (HE 0%nat)).
  by destruct (exec (env 0%nat) c s) as [x s'].
Qed.

Lemma returns_bind {A B} E (p : eff R A) (f : A → eff R B) s Φ :
  returns E p s (λ a s1 tr1, returns E (f a) s1 (λ b s2 tr2, Φ b s2 (tr1 ++ tr2))) → returns E (p ≫= f) s Φ.
Proof.
  intros Hp env HE. rewrite run_bind. specialize (Hp env HE). destruct (run p env s) as [[a s1] tr1].
  specialize (Hp (λ n, env (length tr1 + n)%nat) (λ n, HE _)). by destruct (run (f a) _ s1) as [[b s2] tr2].
Qed.

Lemma returns_weaken {A} E (p : eff R A) s (Φ Ψ : A → St → list (event R) → Prop) :
  (∀ a s' tr, Φ a s' tr → Ψ a s' tr) → returns E p s Φ → returns E p s Ψ.
Proof. intros H Hp env HE. specialize (Hp env HE). destruct (run p env s) as [[a s1] tr1]. auto. Qed.

Lemma returns_env {A} (E E' : L → Prop) (p : eff R A) s Φ : (∀ l, E' l → E l) → returns E p s Φ → returns E' p s Φ.
Proof. intros H Hp env HE. apply Hp. auto. Qed.

(** A relation that all the commands of a program keep. *)
Lemma issues_returns {A} K (E : L → Prop) (P : St → Prop) (p : eff R A) s :
  (∀ l c s, E l → K c → P s → P (exec l c s).2) → issues K p → P s → returns E p s (λ _ s' _, P s').
Proof.
  intros HP Hp Hs env HE. revert env s HE Hs. induction p as [a|c k IH]; intros env s HE Hs; simpl in *; [done|].
  destruct Hp as [Hc Hk]. pose proof (HP _ c s (HE 0%nat) Hc Hs) as Hs1.
  destruct (exec (env 0%nat) c s) as [x s1]. specialize (IH x (Hk x) (λ n, env (S n)) s1 (λ n, HE _) Hs1).
  by destruct (run (k x) _ s1) as [[a s2] tr].
Qed.
End alone.

(** ** The complete runs of a program *)

Section runs.
Context {C : Type} {R : C → Type}.

(** [p] can issue the commands of [tr], get these answers and return [a]. *)
Fixpoint runs {A} (p : eff R A) (tr : list (event R)) (a : A) : Prop :=
  match p with
  | Done b => tr = [] ∧ a = b
  | Do c k => ∃ x tr', tr = Ev c x :: tr' ∧ runs (k x) tr' a
  end.

Lemma runs_ret {A} (a b : A) tr : runs (mret a : eff R A) tr b ↔ tr = [] ∧ b = a.
Proof. done. Qed.

Lemma runs_perform c tr x : runs (perform c : eff R (R c)) tr x ↔ tr = [Ev c x].
Proof. simpl. split; [by intros (y & ? & -> & -> & ->)|]. intros ->. eexists _, []. done. Qed.

Lemma runs_bind {A B} (p : eff R A) (f : A → eff R B) tr b :
  runs (p ≫= f) tr b ↔ ∃ tr1 a tr2, tr = tr1 ++ tr2 ∧ runs p tr1 a ∧ runs (f a) tr2 b.
Proof.
  revert tr. induction p as [a|c k IH]; intros tr; simpl.
  - split; [intros Hr; by exists [], a, tr|]. by intros (tr1 & a' & tr2 & -> & (-> & ->) & Hr).
  - split.
    + intros (x & tr' & -> & (tr1 & a & tr2 & -> & H1 & H2)%IH). exists (Ev c x :: tr1), a, tr2. split; [done|]. split; [by exists x, tr1|done].
    + intros (tr1 & a & tr2 & -> & (x & tr' & -> & H1) & H2). exists x, (tr' ++ tr2). split; [done|]. apply IH. by exists tr', a, tr2.
Qed.

Lemma run_runs {St L A} (exec : L → ∀ c : C, St → R c * St) (p : eff R A) env s :
  runs p (run exec p env s).2 (run exec p env s).1.1.
Proof.
  revert env s. induction p as [a|c k IH]; intros env s; simpl; [done|]. destruct (exec (env 0%nat) c s) as [x s1].
  specialize (IH x (λ n, env (S n)) s1). destruct (run exec (k x) _ s1) as [[a s2] tr]. simpl in *. by exists x, tr.
Qed.
End runs.

(** ** Threads that do not meet

    [confined Q K p Φ]: as long as the answers satisfy [Q], the commands of [p] all
    satisfy [K], and the result satisfies [Φ]. *)
Section confined.
Context {C : Type} {R : C → Type} (Q : event R → Prop).

Fixpoint confined {A} (K : C → Prop) (p : eff R A) (Φ : A → Prop) : Prop :=
  match p with
  | Done a => Φ a
  | Do c k => K c ∧ ∀ x, Q (Ev c x) → confined K (k x) Φ
  end.

Lemma confined_ret {A} K (a : A) (Φ : A → Prop) : Φ a → confined K (mret a) Φ.
Proof. done. Qed.

Lemma confined_perform K c (Φ : R c → Prop) : K c → (∀ x, Q (Ev c x) → Φ x) → confined K (perform c) Φ.
Proof. unfold perform. simpl. auto. Qed.

Lemma confined_weaken {A} (K K' : C → Prop) (p : eff R A) (Φ Ψ : A → Prop) :
  (∀ c, K c → K' c) → (∀ a, Φ a → Ψ a) → confined K p Φ → confined K' p Ψ.
Proof. intros HK HΦ. induction p as [a|c k IH]; simpl; [auto|]. intros [??]. split; [auto|]. intros x Hx. apply IH; auto. Qed.

Lemma confined_bind {A B} K (p : eff R A) (f : A → eff R B) Φ Ψ :
  confined K p Φ → (∀ a, Φ a → confined K (f a) Ψ) → confined K (p ≫= f) Ψ.
Proof.
  intros Hp Hf. induction p as [a|c k IH]; simpl in *; [by apply Hf|]. destruct Hp as [Hc Hk].
  split; [done|]. intros x Hx. by apply IH, Hk.
Qed.
End confined.

(** [same s s'] says that the two states agree on what is seen by the threads that
    satisfy [mine].  When their commands depend on nothing else, and the commands of
    the others leave it alone, the steps of the others can be left out. *)
Section apart.
Context {C : Type} {R : C → Type} {St L A : Type} (exec : L → ∀ c : C, St → R c * St).
Context (P : St → Prop) (Q : event R → Prop) (same : St → St → Prop) (mine : nat → bool) (K K' : C → Prop).
Context `{!Equivalence same} (exec_P : ∀ l c s, P s → P (exec l c s).2)
        (exec_Q : ∀ l c s, P s → Q (Ev c (exec l c s).1))
        (exec_mine : ∀ l c s s', K c → P s → P s' → same s s' →
           (exec l c s).1 = (exec l c s').1 ∧ same (exec l c s).2 (exec l c s').2)
        (exec_other : ∀ l c s, K' c → P s → same s (exec l c s).2).
Implicit Types (w : world R St A).

Definition side (i : nat) : C → Prop := if mine i then K else K'.

Definition apart_ok w : Prop :=
  P (w_state w) ∧ ∀ i t, w_threads w !! i = Some t → confined Q (side i) (th_rest t) (λ _, True).

Definition alike w w' : Prop :=
  same (w_state w) (w_state w') ∧ ∀ i, mine i = true → w_threads w !! i = w_threads w' !! i.

Lemma step_ok w il : apart_ok w → apart_ok (step exec w il).
Proof using exec_P exec_Q.
  destruct il as [i l]. intros [HP HT]. destruct (step_cases exec w i l) as [->|(t & c & k & Ht & Hr & ->)]; [done|].
  specialize (HT i t Ht) as Hc. rewrite Hr in Hc. destruct Hc as [_ Hk]. split; simpl; [by apply exec_P|].
  intros j t' Hj. apply list_lookup_insert_Some in Hj as [(<- & <- & _)|(_ & Hj)]; [|by apply HT].
  simpl. by apply Hk, exec_Q.
Qed.

Lemma step_other w i l : mine i = false → apart_ok w → alike w (step exec w (i, l)).
Proof using exec_other Equivalence0.
  intros Hm [HP HT]. destruct (step_cases exec w i l) as [->|(t & c & k & Ht & Hr & ->)]; [done|].
  specialize (HT i t Ht) as Hc. rewrite Hr in Hc. unfold side in Hc. rewrite Hm in Hc. destruct Hc as [Hc _].
  split; simpl; [by apply exec_other|]. intros j Hj. by rewrite list_lookup_insert_ne by congruence.
Qed.

Lemma step_mine w w' i l : mine i = true → apart_ok w → apart_ok w' → alike w w' →
  alike (step exec w (i, l)) (step exec w' (i, l)).
Proof using exec_mine.
  intros Hm [HP HT] [HP' _] [Hv Ht]. unfold step. simpl. rewrite <- (Ht i Hm).
  destruct (w_threads w !! i) as [t|] eqn:E; [|done]. unfold advance. specialize (HT i t E).
  assert (Hi : (i < length (w_threads w) ∧ i < length (w_threads w'))%nat).
  { split; eapply lookup_lt_Some; [done|]. by rewrite <- (Ht i Hm). }
  destruct (th_rest t) as [a|c k].
  - split; [done|]. simpl. intros j Hj. destruct (decide (i = j)) as [<-|]; [by rewrite !list_lookup_insert_eq by lia|].
    rewrite !list_lookup_insert_ne by done. by apply Ht.
  - unfold side in HT. rewrite Hm in HT. destruct HT as [Hc _].
    destruct (exec_mine l c (w_state w) (w_state w') Hc HP HP' Hv) as [E1 E2].
    destruct (exec l c (w_state w)) as [x s1], (exec l c (w_state w')) as [x' s1']. simpl in *. subst x'.
    split; [done|]. simpl. intros j Hj. destruct (decide (i = j)) as [<-|]; [by rewrite !list_lookup_insert_eq by lia|].
    rewrite !list_lookup_insert_ne by done. by apply Ht.
Qed.

Lemma interleave_alike ls w w' : apart_ok w → apart_ok w' → alike w w' →
  alike (interleave exec w ls) (interleave exec w' (filter (λ il, mine il.1) ls)).
Proof using exec_P exec_Q exec_mine exec_other Equivalence0.
  unfold interleave. revert w w'. induction ls as [|[i l] ls IH]; intros w w' Hw Hw' Ha; [done|].
  rewrite filter_cons. simpl. destruct (mine i) eqn:Hm; simpl.
  - apply IH; [by apply step_ok..|by apply step_mine].
  - apply IH; [by apply step_ok|done|]. destruct (step_other w i l Hm Hw) as [E1 E2]. destruct Ha as [E3 E4].
    split; [by rewrite <- E1|]. intros j Hj. rewrite <- E2 by done. by apply E4.
Qed.
End apart.

(** ** Commands that wait *)

(** A command that is not enabled is not executed: its thread waits. *)
Section waiting.
Context {C : Type} {R : C → Type} {St L A : Type}.
Context (exec : L → ∀ c : C, St → R c * St) (enabled : C → St → bool).
Implicit Types (w : world R St A) (t : thread R A).

Definition step_when w (il : nat * L) : world R St A :=
  match w_threads w !! il.1 with
  | Some t => match th_rest t with
              | Do c _ => if enabled c (w_state w) then step exec w il else w
              | Done _ => w
              end
  | None => w
  end.

Definition interleave_when w (ls : list (nat * L)) : world R St A := foldl step_when w ls.

Lemma step_when_cases w i l : step_when w (i, l) = w ∨
  ∃ t c k, w_threads w !! i = Some t ∧ th_rest t = Do c k ∧ enabled c (w_state w) = true ∧
    step_when w (i, l) =
      {| w_state := (exec l c (w_state w)).2;
         w_threads := <[i := {| th_trace := th_trace t ++ [Ev c (exec l c (w_state w)).1];
                                th_rest := k (exec l c (w_state w)).1 |}]> (w_threads w) |}.
Proof.
  unfold step_when. simpl. destruct (w_threads w !! i) as [t|] eqn:E; [|by left]. destruct (th_rest t) as [a|c k] eqn:E1; [by left|].
  destruct (enabled c (w_state w)) eqn:Ee; [|by left]. right. exists t, c, k. split_and!; [done..|].
  unfold step, advance. simpl. rewrite E, E1. by destruct (exec l c (w_state w)).
Qed.

(** A thread that may go on does. *)
Lemma step_when_do w i l tr c k : w_threads w !! i = Some {| th_trace := tr; th_rest := Do c k |} → enabled c (w_state w) = true →
  step_when w (i, l) =
    {| w_state := (exec l c (w_state w)).2;
       w_threads := <[i := {| th_trace := tr ++ [Ev c (exec l c (w_state w)).1]; th_rest := k (exec l c (w_state w)).1 |}]> (w_threads w) |}.
Proof. intros Hi He. unfold step_when, step, advance. simpl. rewrite Hi. simpl. rewrite He. by destruct (exec l c (w_state w)). Qed.

Lemma interleave_when_ind (P : world R St A → Prop) ls w :
  P w → (∀ w il, P w → P (step_when w il)) → P (interleave_when w ls).
Proof. intros H0 HS. unfold interleave_when. revert w H0. induction ls as [|il ls IH]; intros w H0; [done|]. apply IH. by apply HS. Qed.

(** The same, counting the steps. *)
Lemma interleave_when_count (P : nat → world R St A → Prop) ls n w :
  P n w → (∀ n w il, P n w → P (S n) (step_when w il)) → P (n + length ls)%nat (interleave_when w ls).
Proof.
  intros H0 HS. unfold interleave_when. revert n w H0. induction ls as [|il ls IH]; intros n w H0; simpl.
  - by rewrite Nat.add_0_r.
  - rewrite Nat.add_succ_r. apply (IH (S n)). by apply HS.
Qed.

(** What the programs keep, their threads keep. *)
Lemma threads_advance (Js : list ((list (event R) → Prop) * (list (event R) → A → Prop))) (ts : list (thread R A)) i t c k x :
  Forall2 thread_ok Js ts → ts !! i = Some t → th_rest t = Do c k →
  Forall2 thread_ok Js (<[i := {| th_trace := th_trace t ++ [Ev c x]; th_rest := k x |}]> ts).
Proof.
  intros Ht Hi Hr. destruct (Forall2_lookup_r _ _ _ _ _ Ht Hi) as (J & HJ & Htj). rewrite <- (list_insert_id Js i J HJ).
  apply Forall2_insert; [done|]. unfold thread_ok in *. rewrite Hr in Htj. apply Htj.
Qed.
(** Threads whose commands satisfy [K] as long as the answers satisfy [Q], in a
    state that satisfies [P]. *)
Context (P : St → Prop) (Q : event R → Prop) (K : C → Prop) (Φs : list (A → Prop)).

Definition within w : Prop :=
  P (w_state w) ∧ ∀ i t, w_threads w !! i = Some t → ∃ Φ, Φs !! i = Some Φ ∧ confined Q K (th_rest t) Φ.

Lemma within_start s ps : P s → Forall2 (confined Q K) ps Φs → within (start s ps).
Proof.
  intros Hs Hp. split; [done|]. intros i t Hi. apply list_lookup_fmap_Some in Hi as (p & -> & Hi).
  destruct (Forall2_lookup_l _ _ _ _ _ Hp Hi) as (Φ & HΦ & Hc). by exists Φ.
Qed.

Lemma within_step (ls : list (nat * L)) w il : il ∈ ls →
  (∀ i l c s, (i, l) ∈ ls → P s → K c → Q (Ev c (exec l c s).1)) → (∀ i l c s, (i, l) ∈ ls → P s → K c → P (exec l c s).2) → within w → within (step_when w il).
Proof.
  intros Hin HQ HP [Hs Ht]. destruct il as [i l]. destruct (step_when_cases w i l) as [->|(t & c & k & Hi & Hr & _ & ->)]; [done|].
  destruct (Ht i t Hi) as (Φ & HΦ & Hc). rewrite Hr in Hc. destruct Hc as [HK Hk]. split; [by eapply HP|].
  intros j t' Hj. apply list_lookup_insert_Some in Hj as [(<- & <- & _)|(_ & Hj)]; [|by apply Ht].
  exists Φ. split; [done|]. apply Hk. by eapply HQ.
Qed.

Lemma within_interleave (ls : list (nat * L)) w :
  (∀ i l c s, (i, l) ∈ ls → P s → K c → Q (Ev c (exec l c s).1)) → (∀ i l c s, (i, l) ∈ ls → P s → K c → P (exec l c s).2) →
  within w → within (interleave_when w ls).
Proof.
  intros HQ HP. unfold interleave_when. revert w HQ HP. induction ls as [|il ls IH]; intros w HQ HP Hw; [done|]. simpl.
  apply IH; [intros i l c s Hin; apply (HQ i l); by right|intros i l c s Hin; apply (HP i l); by right|]. apply (within_step (il :: ls)); [by left|done..].
Qed.
End waiting.
