(* ===== verification/Decimal.v ===== *)
(** Interface to [github.com/shopspring/decimal], which is not part of this
    repository: the operations the code calls, and the documented laws the
    theorems rely on.  A decimal denotes a rational; addition, subtraction,
    multiplication and comparison are exact.  Nothing is assumed about
    division, whose result the code always re-checks.

    [dec] is a concrete coefficient/exponent implementation that satisfies the
    laws; the witnesses of the components evaluate it. *)

From stdpp Require Import base numbers list.
From Stdlib Require Import ZArith QArith Qpower Lqa Lia.
From S2P Require Import Prelude.

Local Open Scope Z_scope.

Class DecimalOps (D : Type) := {
  dzero : D;                       (* decimal.Zero and the zero value of Decimal *)
  dof_int : Z → D;                 (* decimal.NewFromInt *)
  dadd : D → D → D;                (* d.Add(e) *)
  dsub : D → D → D;                (* d.Sub(e) *)
  dmul : D → D → D;                (* d.Mul(e) *)
  ddiv : D → D → D;                (* d.Div(e); panics in Go when e is zero *)
  ddiv_round : D → D → Z → D;      (* d.DivRound(e, places) *)
  dcmp : D → D → comparison;       (* d.Cmp(e) *)
  dexponent : D → Z;               (* d.Exponent() *)
  dnum_digits : D → Z;             (* d.NumDigits() *)
}.

(** The rational a decimal stands for. *)
Class DecimalDenotation (D : Type) := dval : D → Q.

Class DecimalLaws (D : Type) `{DecimalOps D, DecimalDenotation D} : Prop := {
  dval_zero : (dval dzero == 0)%Q;
  dval_of_int z : (dval (dof_int z) == inject_Z z)%Q;
  dval_add a b : (dval (dadd a b) == dval a + dval b)%Q;
  dval_sub a b : (dval (dsub a b) == dval a - dval b)%Q;
  dval_mul a b : (dval (dmul a b) == dval a * dval b)%Q;
  dcmp_spec a b : dcmp a b = (dval a ?= dval b)%Q;
}.

(** The comparison methods, defined from [Cmp] as the library documents. *)
Section comparisons.
Context {D : Type} `{DecimalOps D}.

Definition dequal (a b : D) : bool := match dcmp a b with Eq => true | _ => false end.
Definition dless (a b : D) : bool := match dcmp a b with Lt => true | _ => false end.
Definition dgreater (a b : D) : bool := match dcmp a b with Gt => true | _ => false end.
Definition dis_positive (a : D) : bool := dgreater a dzero.
Definition dis_negative (a : D) : bool := dless a dzero.
Definition dis_zero (a : D) : bool := dequal a dzero.
End comparisons.

Section comparison_laws.
Context {D : Type} `{DecimalOps D, DecimalDenotation D, !DecimalLaws D}.
Implicit Types a b : D.

Lemma dequal_true a b : dequal a b = true ↔ (dval a == dval b)%Q.
Proof.
  unfold dequal. rewrite dcmp_spec. destruct (Qcompare_spec (dval a) (dval b)) as [E|E|E].
  - done.
  - split; [done|]. intros ?. lra.
  - split; [done|]. intros ?. lra.
Qed.

Lemma dless_true a b : dless a b = true ↔ (dval a < dval b)%Q.
Proof.
  unfold dless. rewrite dcmp_spec. destruct (Qcompare_spec (dval a) (dval b)) as [E|E|E].
  - split; [done|]. intros ?. lra.
  - done.
  - split; [done|]. intros ?. lra.
Qed.

Lemma dless_false a b : dless a b = false ↔ (dval b <= dval a)%Q.
Proof.
  rewrite <- not_true_iff_false, dless_true. split; intros ?; [by apply Qnot_lt_le|lra].
Qed.

Lemma dgreater_true a b : dgreater a b = true ↔ (dval b < dval a)%Q.
Proof.
  unfold dgreater. rewrite dcmp_spec. destruct (Qcompare_spec (dval a) (dval b)) as [E|E|E].
  - split; [done|]. intros ?. lra.
  - split; [done|]. intros ?. lra.
  - done.
Qed.

Lemma dis_positive_true a : dis_positive a = true ↔ (0 < dval a)%Q.
Proof. unfold dis_positive. rewrite dgreater_true, dval_zero. done. Qed.

Lemma dis_negative_false a : dis_negative a = false ↔ (0 <= dval a)%Q.
Proof. unfold dis_negative. rewrite dless_false, dval_zero. done. Qed.

Lemma dis_zero_true a : dis_zero a = true ↔ (dval a == 0)%Q.
Proof. unfold dis_zero. rewrite dequal_true, dval_zero. done. Qed.
End comparison_laws.

(** ** A concrete implementation: coefficient times a power of ten *)

Record dec := Dec { coeff : Z; expo : Z }.

Definition dec_val (d : dec) : Q := (inject_Z (coeff d) * (inject_Z 10) ^ expo d)%Q.

Definition rescale (d : dec) (e : Z) : Z := coeff d * 10 ^ (expo d - e).

Definition dec_add (a b : dec) : dec :=
  let e := Z.min (expo a) (expo b) in Dec (rescale a e + rescale b e) e.

Definition dec_sub (a b : dec) : dec :=
  let e := Z.min (expo a) (expo b) in Dec (rescale a e - rescale b e) e.

Definition dec_mul (a b : dec) : dec := Dec (coeff a * coeff b) (expo a + expo b).

(** Quotient rounded half away from zero to [places] decimals. *)
Definition dec_div_round (a b : dec) (places : Z) : dec :=
  let s := expo a - expo b + places in
  let n := if bool_decide (0 ≤ s) then coeff a * 10 ^ s else coeff a in
  let m := if bool_decide (0 ≤ s) then coeff b else coeff b * 10 ^ (- s) in
  let q := (2 * Z.abs n + Z.abs m) / (2 * Z.abs m) in
  Dec (Z.sgn n * Z.sgn m * q) (- places).

Fixpoint digits_fuel (fuel : nat) (z : Z) : Z :=
  match fuel with
  | O => 1
  | S f => if bool_decide (z < 10) then 1 else 1 + digits_fuel f (z / 10)
  end.

#[export] Instance dec_ops : DecimalOps dec := {|
  dzero := Dec 0 0;
  dof_int z := Dec z 0;
  dadd := dec_add;
  dsub := dec_sub;
  dmul := dec_mul;
  ddiv a b := dec_div_round a b 16;
  ddiv_round := dec_div_round;
  dcmp a b := let e := Z.min (expo a) (expo b) in rescale a e ?= rescale b e;
  dexponent := expo;
  dnum_digits d := digits_fuel (Z.to_nat (Z.log2 (Z.abs (coeff d)) + 1)) (Z.abs (coeff d));
|}.

#[export] Instance dec_denotation : DecimalDenotation dec := dec_val.

Lemma ten_nz : ~ (inject_Z 10 == 0)%Q.
Proof. discriminate. Qed.

Lemma rescale_val d e : e ≤ expo d → (dec_val d == inject_Z (rescale d e) * (inject_Z 10) ^ e)%Q.
Proof.
  intros He. unfold dec_val, rescale. rewrite inject_Z_mult, Zpower_Qpower by lia.
  rewrite <- Qmult_assoc, <- Qpower_plus by apply ten_nz.
  by replace (expo d - e + e) with (expo d) by lia.
Qed.

Lemma pow10_pos e : (0 < (inject_Z 10) ^ e)%Q.
Proof. by apply Qpower_0_lt. Qed.

#[export] Instance dec_laws : DecimalLaws dec.
Proof.
  split.
  - reflexivity.
  - intros z. unfold dval, dec_denotation, dec_val. simpl. lra.
  - intros a b. unfold dval, dec_denotation.
    rewrite (rescale_val a (Z.min (expo a) (expo b))), (rescale_val b (Z.min (expo a) (expo b))) by lia.
    unfold dec_val. simpl. rewrite inject_Z_plus. ring.
  - intros a b. unfold dval, dec_denotation.
    rewrite (rescale_val a (Z.min (expo a) (expo b))), (rescale_val b (Z.min (expo a) (expo b))) by lia.
    unfold dec_val. simpl. unfold Z.sub. rewrite inject_Z_plus, inject_Z_opp. ring.
  - intros a b. unfold dval, dec_denotation, dec_val. simpl.
    rewrite inject_Z_mult, Qpower_plus by apply ten_nz. ring.
  - intros a b. unfold dval, dec_denotation. simpl.
    set (e := Z.min (expo a) (expo b)).
    rewrite (rescale_val a e), (rescale_val b e) by (unfold e; lia).
    pose proof (pow10_pos e) as He. set (p := ((inject_Z 10) ^ e)%Q) in *. clearbody p.
    generalize (rescale a e) (rescale b e). intros x y. symmetry.
    destruct (Z.compare_spec x y) as [->|Hxy|Hxy].
    + apply Qeq_alt. reflexivity.
    + apply Qlt_alt. apply Qmult_lt_compat_r; [done|]. by rewrite <- Zlt_Qlt.
    + apply Qgt_alt. apply Qmult_lt_compat_r; [done|]. by rewrite <- Zlt_Qlt.
Qed.
