(* ===== verification/Safe.v ===== *)
(** Panic-free arithmetic and slice access: [safe/math.go], [safe/decimal.go]
    and [safe/slice.go]. *)

From stdpp Require Import base numbers list.
From Stdlib Require Import QArith Lia SpecFloat.
From S2P Require Import Prelude GoText GoFloat Decimal.

Local Open Scope Z_scope.

Inductive safe_error :=
| ErrDivisionByZero
| ErrDecimalOutOfBounds
| ErrEmptySlice
| ErrIndexOutOfBounds
| ErrDecimalSyntax.   (* the error of decimal.NewFromString *)

#[export] Instance safe_error_eq_dec : EqDecision safe_error.
Proof. solve_decision. Defined.

Section decimal.
Context {D : Type} `{DecimalOps D}.

Definition hundredDecimal : D := dof_int 100.

Definition Divide (numerator denominator : D) : result safe_error D :=
  if dis_zero denominator then Err ErrDivisionByZero else Ok (ddiv numerator denominator).

Definition DivideRound (numerator denominator : D) (places : Z) : result safe_error D :=
  if dis_zero denominator then Err ErrDivisionByZero
  else Ok (ddiv_round numerator denominator places).

Definition DivideOrZero (numerator denominator : D) : D :=
  if dis_zero denominator then dzero else ddiv numerator denominator.

Definition DivideOrDefault (numerator denominator defaultValue : D) : D :=
  if dis_zero denominator then defaultValue else ddiv numerator denominator.

Definition Percentage (numerator denominator : D) : result safe_error D :=
  if dis_zero denominator then Err ErrDivisionByZero
  else Ok (dmul (ddiv numerator denominator) hundredDecimal).

Definition PercentageOrZero (numerator denominator : D) : D :=
  if dis_zero denominator then dzero
  else dmul (ddiv numerator denominator) hundredDecimal.

Definition MaxDecimalExponent : Z := 1000.
Definition MaxDecimalDigits : Z := 1000.
Definition MaxDecimalTextLength : Z := 1024.

Definition CheckDecimal (d : D) : result safe_error unit :=
  if (bool_decide (dexponent d > MaxDecimalExponent)
      || bool_decide (dexponent d < - MaxDecimalExponent))%bool
  then Err ErrDecimalOutOfBounds
  else if bool_decide (dnum_digits d > MaxDecimalDigits) then Err ErrDecimalOutOfBounds
  else Ok tt.

(** [parse] is [decimal.NewFromString] ([None] is its error); [s] is the
    byte sequence of the text, whose length bounds the work of parsing. *)
Definition ParseDecimal (parse : list Z → option D) (s : list Z) : result safe_error D :=
  if bool_decide (Z.of_nat (length s) > MaxDecimalTextLength) then Err ErrDecimalOutOfBounds
  else match parse s with
       | None => Err ErrDecimalSyntax
       | Some d => match CheckDecimal d with Err e => Err e | Ok _ => Ok d end
       end.

Lemma CheckDecimal_ok d :
  CheckDecimal d = Ok tt ↔ - 1000 ≤ dexponent d ≤ 1000 ∧ dnum_digits d ≤ 1000.
Proof.
  unfold CheckDecimal, MaxDecimalExponent, MaxDecimalDigits.
  repeat case_bool_decide; simpl; split; intros; try discriminate; try lia; done.
Qed.
End decimal.

(** Division of floats: an infinite or undefined quotient of a zero denominator
    never comes out. *)
Definition DivideFloat64 (numerator denominator : float64) : result safe_error float64 :=
  if feq denominator (of_int 0) then Err ErrDivisionByZero else Ok (fdiv numerator denominator).

Definition DivideFloat64OrZero (numerator denominator : float64) : float64 :=
  if feq denominator (of_int 0) then of_int 0 else fdiv numerator denominator.

Section slices.
Context {T : Type}.

Definition First (slice : list T) : result safe_error T :=
  match slice with [] => Err ErrEmptySlice | x :: _ => Ok x end.

Definition Last (slice : list T) : result safe_error T :=
  match last slice with None => Err ErrEmptySlice | Some x => Ok x end.

Definition At (slice : list T) (index : Z) : result safe_error T :=
  if (bool_decide (index < 0) || bool_decide (Z.of_nat (length slice) ≤ index))%bool
  then Err ErrIndexOutOfBounds
  else match slice !! Z.to_nat index with Some x => Ok x | None => Err ErrIndexOutOfBounds end.

Definition FirstOrDefault (slice : list T) (defaultValue : T) : T :=
  match slice with [] => defaultValue | x :: _ => x end.

Definition LastOrDefault (slice : list T) (defaultValue : T) : T :=
  match last slice with None => defaultValue | Some x => x end.

Definition AtOrDefault (slice : list T) (index : Z) (defaultValue : T) : T :=
  if (bool_decide (index < 0) || bool_decide (Z.of_nat (length slice) ≤ index))%bool
  then defaultValue
  else match slice !! Z.to_nat index with Some x => x | None => defaultValue end.

(** The bounds check is exact: the read behind it never misses. *)
Lemma At_spec slice index x :
  At slice index = Ok x ↔ 0 ≤ index ∧ slice !! Z.to_nat index = Some x.
Proof.
  unfold At. repeat case_bool_decide; simpl; (split; [|intros [? Hx]]); try lia; try done.
  - apply lookup_lt_Some in Hx. lia.
  - destruct (slice !! _); intros; simplify_eq. auto with lia.
  - by rewrite Hx.
Qed.

Lemma At_in_range slice index :
  0 ≤ index < Z.of_nat (length slice) → ∃ x, At slice index = Ok x.
Proof.
  intros Hi. destruct (lookup_lt_is_Some_2 slice (Z.to_nat index)) as [x Hx]; [lia|].
  exists x. apply At_spec. auto with lia.
Qed.
End slices.
