(* ===== verification/SafeRegex.v ===== *)
(** Compiled regular expressions behind a cache: [safe/regex.go].

    [compile] and [compilePOSIX] are the two compilers of [regexp], on which nothing
    here depends; [matches] and [find] are the methods of what they return.  The two
    sections under the lock are the commands of a program of [Effects]. *)

From stdpp Require Import base numbers list gmap fin_maps strings.
From S2P Require Import Prelude GoText Effects.

Local Open Scope Z_scope.
Local Open Scope go_scope.

Definition maxCacheSize : nat := 1024.
Definition evictionFraction : nat := 4.

(** [ErrInvalidRegex] *)
Inductive regex_error := ErrInvalidRegex.

Section regex.
Context {re : Type} (compile compilePOSIX : text → option re) (matches : re → text → bool) (find : re → text → text).

Abbreviation cache := (gmap text re).

(** [iterate] is the order in which the map happens to be walked. *)
Definition cacheStore (iterate : list text → list text) (key : text) (r : re) (c : cache) : cache :=
  let c :=
    if bool_decide (maxCacheSize ≤ size c)%nat then
      let evictCount := (size c / evictionFraction)%nat in
      let evictCount := if bool_decide (evictCount = 0%nat) then 1%nat else evictCount in
      foldr delete c (take evictCount (iterate (map_to_list c).*1))
    else c in
  <[key := r]> c.

Inductive cmd := CacheLoad (key : text) | CacheStore (key : text) (r : re) | Clear.
Definition answer (c : cmd) : Type := match c with CacheLoad _ => option re | _ => unit end.

Definition prog := eff answer.
Definition ask (c : cmd) : prog (answer c) := perform c.

Definition exec (iterate : list text → list text) (c : cmd) (s : cache) : answer c * cache :=
  match c with
  | CacheLoad key => (s !! key, s)
  | CacheStore key r => (tt, cacheStore iterate key r s)
  | Clear => (tt, ∅)
  end.

Definition Compile (pattern : text) : prog (result regex_error re) :=
  cached ← ask (CacheLoad pattern);
  match cached with
  | Some r => mret (Ok r)
  | None => match compile pattern with
            | None => mret (Err ErrInvalidRegex)
            | Some r => _ ← ask (CacheStore pattern r); mret (Ok r)
            end
  end.

Definition POSIX : text := txt "posix:".

Definition CompilePOSIX (pattern : text) : prog (result regex_error re) :=
  let cacheKey := POSIX ++ pattern in
  cached ← ask (CacheLoad cacheKey);
  match cached with
  | Some r => mret (Ok r)
  | None => match compilePOSIX pattern with
            | None => mret (Err ErrInvalidRegex)
            | Some r => _ ← ask (CacheStore cacheKey r); mret (Ok r)
            end
  end.

Definition MatchString (pattern input : text) : prog (result regex_error bool) :=
  x ← Compile pattern;
  mret (match x with Err e => Err e | Ok r => Ok (matches r input) end).

Definition FindString (pattern input : text) : prog (result regex_error text) :=
  x ← Compile pattern;
  mret (match x with Err e => Err e | Ok r => Ok (find r input) end).

Definition ClearCache : prog unit := ask Clear.

(** ** Calls *)

Inductive call := CallCompile (p : text) | CallPOSIX (p : text) | CallMatch (p s : text) | CallFind (p s : text) | CallClear.
Inductive outcome := Compiled (x : result regex_error re) | Matched (x : result regex_error bool) | Found (x : result regex_error text) | Cleared.

Definition call_program (c : call) : prog outcome :=
  match c with
  | CallCompile p => x ← Compile p; mret (Compiled x)
  | CallPOSIX p => x ← CompilePOSIX p; mret (Compiled x)
  | CallMatch p s => x ← MatchString p s; mret (Matched x)
  | CallFind p s => x ← FindString p s; mret (Found x)
  | CallClear => _ ← ClearCache; mret Cleared
  end.

(** What a call returns without a cache. *)
Definition compiled (o : option re) : result regex_error re := match o with Some r => Ok r | None => Err ErrInvalidRegex end.
Definition without_cache (c : call) : outcome :=
  match c with
  | CallCompile p => Compiled (compiled (compile p))
  | CallPOSIX p => Compiled (compiled (compilePOSIX p))
  | CallMatch p s => Matched (match compile p with Some r => Ok (matches r s) | None => Err ErrInvalidRegex end)
  | CallFind p s => Found (match compile p with Some r => Ok (find r s) | None => Err ErrInvalidRegex end)
  | CallClear => Cleared
  end.

(** The pattern is not one that looks like the key of a POSIX pattern. *)
Definition plain (p : text) : Prop := has_prefix POSIX p = false.
Definition plain_call (c : call) : Prop := match c with CallCompile p | CallMatch p _ | CallFind p _ => plain p | _ => True end.

(** The entry is what its key stands for. *)
Definition entry_ok (k : text) (r : re) : Prop :=
  (plain k → compile k = Some r) ∧ ∀ p, k = POSIX ++ p → compilePOSIX p = Some r.
Definition cache_ok (s : cache) : Prop := map_Forall entry_ok s ∧ (size s ≤ maxCacheSize)%nat.

Definition answer_ok (e : event answer) : Prop := match e with Ev (CacheLoad k) x => ∀ r, x = Some r → entry_ok k r | _ => True end.
Definition command_ok (c : cmd) : Prop := match c with CacheStore k r => entry_ok k r | _ => True end.

Abbreviation stays := (confined answer_ok command_ok).

Lemma Compile_stays p : plain p → stays (Compile p) (λ x, x = compiled (compile p)).
Proof.
  intros Hp. unfold Compile. apply (confined_bind _ _ _ _ (λ x, ∀ r, x = Some r → entry_ok p r)); [by apply confined_perform|].
  intros [r|] Hr; [apply confined_ret; by rewrite (proj1 (Hr r eq_refl) Hp)|].
  destruct (compile p) as [r|] eqn:E; [|done]. apply (confined_bind _ _ _ _ (λ _, True)); [|by intros].
  apply confined_perform; [|done]. split; [done|]. intros q ->. unfold plain in Hp. by rewrite has_prefix_app in Hp.
Qed.

Lemma CompilePOSIX_stays p : stays (CompilePOSIX p) (λ x, x = compiled (compilePOSIX p)).
Proof.
  unfold CompilePOSIX. apply (confined_bind _ _ _ _ (λ x, ∀ r, x = Some r → entry_ok (POSIX ++ p) r)); [by apply confined_perform|].
  intros [r|] Hr; [apply confined_ret; by rewrite (proj2 (Hr r eq_refl) p eq_refl)|].
  destruct (compilePOSIX p) as [r|] eqn:E; [|done]. apply (confined_bind _ _ _ _ (λ _, True)); [|by intros].
  apply confined_perform; [|done]. split; [unfold plain; by rewrite has_prefix_app|]. by intros q ->%(inj (app POSIX)).
Qed.

Lemma regex_call_stays c : plain_call c → stays (call_program c) (λ x, x = without_cache c).
Proof.
  intros Hc. destruct c as [p|p|p s|p s|]; cbn [call_program without_cache].
  - eapply confined_bind; [by apply Compile_stays|]. by intros x ->.
  - eapply confined_bind; [by apply CompilePOSIX_stays|]. by intros x ->.
  - apply (confined_bind _ _ _ _ (λ x, x = match compile p with Some r => Ok (matches r s) | None => Err ErrInvalidRegex end)); [|by intros x ->].
    eapply confined_bind; [by apply Compile_stays|]. intros x ->. apply confined_ret. by destruct (compile p).
  - apply (confined_bind _ _ _ _ (λ x, x = match compile p with Some r => Ok (find r s) | None => Err ErrInvalidRegex end)); [|by intros x ->].
    eapply confined_bind; [by apply Compile_stays|]. intros x ->. apply confined_ret. by destruct (compile p).
  - apply (confined_bind _ _ _ _ (λ _, True)); [by apply confined_perform|by intros].
Qed.

(** *** The cache *)

Lemma foldr_delete_entry (s : cache) ks k r : foldr delete s ks !! k = Some r → s !! k = Some r ∧ k ∉ ks.
Proof.
  induction ks as [|k0 ks IH]; simpl; [intros H; split; [done|apply not_elem_of_nil]|]. intros [Hne H]%lookup_delete_Some. destruct (IH H) as [H1 H2]. set_solver.
Qed.

Lemma cacheStore_entry it k r s k' r' : cacheStore it k r s !! k' = Some r' → (k' = k ∧ r' = r) ∨ s !! k' = Some r'.
Proof.
  unfold cacheStore. intros [[-> ->]|[_ H]]%lookup_insert_Some; [by left|]. right. case_bool_decide; [|done].
  by apply foldr_delete_entry in H as [H _].
Qed.

Lemma cacheStore_size it k r s : (∀ l, it l ≡ₚ l) → (size s ≤ maxCacheSize)%nat → (size (cacheStore it k r s) ≤ maxCacheSize)%nat.
Proof.
  intros Hit Hs. unfold cacheStore. cbv zeta. set (s' := if bool_decide _ then _ else _).
  enough (size s' < maxCacheSize)%nat as Hlt.
  { rewrite map_size_insert. destruct (s' !! k); unfold id; lia. }
  unfold s'. case_bool_decide as Hfull; [|lia]. set (n := if bool_decide _ then _ else _).
  assert (0 < n)%nat as Hn by (unfold n; case_bool_decide; lia).
  destruct (it (map_to_list s).*1) as [|k0 ks] eqn:E.
  { apply (f_equal length) in E. rewrite (Permutation_length (Hit _)), length_fmap, length_map_to_list in E. simpl in E. unfold maxCacheSize in Hfull. lia. }
  destruct n as [|n]; [lia|]. cbn [take foldr]. assert (is_Some (s !! k0)) as Hk0.
  { assert (k0 ∈ (map_to_list s).*1) as ([k1 r1] & -> & Hin)%list_elem_of_fmap by (rewrite <- (Hit _), E; by left).
    apply elem_of_map_to_list in Hin. by eexists. }
  assert (size (delete k0 (foldr delete s (take n ks))) ≤ size (delete k0 s))%nat as Hle.
  { apply map_subseteq_size, map_subseteq_spec. intros k' r' [Hne H]%lookup_delete_Some. apply foldr_delete_entry in H as [H _].
    by apply lookup_delete_Some. }
  rewrite (map_size_delete_Some k0 s) in Hle by done. destruct (size s) eqn:Es; [unfold maxCacheSize in Hfull; lia|]. simpl in Hle. lia.
Qed.

Lemma cache_ok_empty : cache_ok ∅.
Proof. split; [apply map_Forall_empty|]. rewrite map_size_empty. unfold maxCacheSize. lia. Qed.

Lemma exec_cache_ok it c s : (∀ l, it l ≡ₚ l) → cache_ok s → command_ok c → cache_ok (exec it c s).2.
Proof.
  intros Hit [H1 H2] Hc. destruct c as [k|k r|]; [done| |apply cache_ok_empty].
  split; [|by apply cacheStore_size]. intros k' r' [[-> ->]|H]%cacheStore_entry; [done|by apply H1].
Qed.

(** The cache is transparent: whatever calls interleave, also while entries are
    evicted and the cache is cleared, each returns what it would return without a
    cache, as long as no pattern begins with [posix:]; and the cache never has more
    than [maxCacheSize] entries. *)
Theorem regex_cache_is_transparent calls (ls : list (nat * (list text → list text))) :
  Forall plain_call calls → (∀ i it l, (i, it) ∈ ls → it l ≡ₚ l) →
  let w := interleave_when exec (λ _ _, true) (start ∅ (call_program <$> calls)) ls in
  (size (w_state w) ≤ maxCacheSize)%nat ∧
  ∀ i c th x, calls !! i = Some c → w_threads w !! i = Some th → th_rest th = Done x → x = without_cache c.
Proof.
  intros Hc Hit w.
  assert (H : within cache_ok answer_ok command_ok ((λ c x, x = without_cache c) <$> calls) w).
  { apply within_interleave.
    - intros i it c s _ [Hs _] _. destruct c as [k|k r|]; [|done..]. intros r Hr. by apply Hs.
    - intros i it c s Hin. apply exec_cache_ok. intros l. by eapply Hit.
    - apply within_start; [apply cache_ok_empty|].
      apply Forall2_fmap_2, Forall_Forall2_diag. eapply Forall_impl; [exact Hc|]. intros c. apply regex_call_stays. }
  destruct H as [[_ H1] H2]. split; [done|]. intros j c th x Hj Ht Hr. destruct (H2 j th Ht) as (Φ & HΦ & Hx).
  apply list_lookup_fmap_Some in HΦ as (c' & -> & Hj'). rewrite Hr in Hx. simpl in Hx. congruence.
Qed.

(** The keys of the two compilers meet: once a POSIX pattern has been compiled,
    compiling [posix:] followed by it returns that expression, whatever the other
    compiler makes of it. *)
Theorem posix_prefix_is_confused pattern r : compilePOSIX pattern = Some r →
  let w := interleave_when exec (λ _ _, true) (start ∅ (call_program <$> [CallPOSIX pattern; CallCompile (POSIX ++ pattern)]))
    [(0%nat, λ l, l); (0%nat, λ l, l); (1%nat, λ l, l)] in
  th_rest <$> w_threads w = [Done (Compiled (Ok r)); Done (Compiled (Ok r))].
Proof.
  intros Hr w. unfold w, interleave_when. cbn [fmap list_fmap call_program foldl]. unfold CompilePOSIX, Compile, ask, perform. rewrite Hr.
  generalize (POSIX ++ pattern). intros key. cbv beta zeta.
  erewrite (step_when_do _ _ (start _ _)) by done. cbn [exec fst snd w_state start]. rewrite lookup_empty.
  erewrite step_when_do by done. cbn [exec fst snd w_state start].
  assert (cacheStore (λ l, l) key r ∅ !! key = Some r) as Hk by (unfold cacheStore; by rewrite lookup_insert_eq).
  erewrite step_when_do by done. cbn [exec fst snd w_state]. by rewrite Hk.
Qed.
End regex.
