(* ===== verification/Backoff.v ===== *)
(** Exponential backoff with full jitter: [backoff/backoff.go].  Integers are
    kept at their width: every [int64] product is wrapped. *)

From stdpp Require Import base numbers list.
From Stdlib Require Import Lia.
From S2P Require Import Prelude.

Local Open Scope Z_scope.

Definition maxShift : Z := 62.

Definition Exponential (base : duration) (attempt : Z) : duration :=
  if bool_decide (base ≤ 0) then 0
  else
    let attempt :=
      if bool_decide (attempt < 0) then 0
      else if bool_decide (attempt > maxShift) then maxShift else attempt in
    let multiplier := wrap64 (Z.shiftl 1 attempt) in
    let baseInt := base in
    if bool_decide (baseInt > Z.quot MaxInt64 multiplier) then MaxInt64
    else wrap64 (baseInt * multiplier).

(** Sources of randomness: [crypto/rand.Int], [crypto/rand.Read] of an 8-byte
    seed ([None] is an error), and the seeded [math/rand/v2] generator. *)
Record entropy := {
  rand_int : Z → option Z;
  rand_read : option Z;
  pcg_int64n : Z → Z → Z;
}.

(** Documented ranges of the three: a value in [0, max). *)
Record entropy_ok (g : entropy) : Prop := {
  rand_int_range m n : 0 < m → rand_int g m = Some n → 0 ≤ n < m;
  pcg_range s m : 0 < m → 0 ≤ pcg_int64n g s m < m;
}.

Definition fallbackDivisor : Z := 2.

Definition cryptoFallbackRand (g : entropy) (maxValue : Z) : Z :=
  match rand_read g with
  | None => Z.quot maxValue fallbackDivisor
  | Some seed => pcg_int64n g seed maxValue
  end.

Definition FullJitter (g : entropy) (delay : duration) : duration :=
  if bool_decide (delay ≤ 0) then 0
  else match rand_int g delay with
       | None => cryptoFallbackRand g delay
       | Some n => n
       end.

Definition ExponentialWithJitter (g : entropy) (base : duration) (attempt : Z) : duration :=
  FullJitter g (Exponential base attempt).

(** [WaitContext]: [ctx_err] is [ctx.Err()] on entry; [race] is the outcome of
    the [select], [Some e] when the context ends before the timer. *)
Definition WaitContext {E : Type} (ctx_err race : option E) (d : duration) : option E :=
  if bool_decide (d ≤ 0) then ctx_err
  else race.

(** ** Lemmas *)

(** The shift actually applied, and the exact product it stands for. *)
Definition clamp_attempt (attempt : Z) : Z := Z.max 0 (Z.min attempt maxShift).

Lemma clamp_attempt_spec attempt :
  (if bool_decide (attempt < 0) then 0
   else if bool_decide (attempt > maxShift) then maxShift else attempt) = clamp_attempt attempt.
Proof. unfold clamp_attempt, maxShift. repeat case_bool_decide; lia. Qed.

Lemma pow2_clamp_range attempt : 1 ≤ 2 ^ clamp_attempt attempt ≤ 2 ^ 62.
Proof.
  unfold clamp_attempt, maxShift. split.
  - pose proof (Z.pow_pos_nonneg 2 (Z.max 0 (Z.min attempt 62))). lia.
  - apply Z.pow_le_mono_r; lia.
Qed.

Lemma Exponential_saturates base attempt :
  0 < base ≤ MaxInt64 →
  Exponential base attempt = Z.min MaxInt64 (base * 2 ^ clamp_attempt attempt).
Proof.
  intros Hb. unfold Exponential. rewrite bool_decide_false by lia. rewrite clamp_attempt_spec.
  pose proof (pow2_clamp_range attempt) as Hp. rewrite Z.shiftl_1_l.
  rewrite (wrap64_id (2 ^ _)) by (unfold in_int64, MinInt64, MaxInt64; lia).
  set (m := 2 ^ clamp_attempt attempt) in *. clearbody m.
  rewrite Z.quot_div_nonneg by (unfold MaxInt64; lia).
  pose proof (Z.mul_div_le MaxInt64 m). pose proof (Z.mul_succ_div_gt MaxInt64 m).
  case_bool_decide.
  - rewrite Z.min_l; [done|]. nia.
  - rewrite wrap64_id, Z.min_r; [done|nia|]. unfold in_int64, MinInt64 in *. nia.
Qed.

Lemma Exponential_nonneg base attempt : base ≤ MaxInt64 → 0 ≤ Exponential base attempt ≤ MaxInt64.
Proof.
  intros Hb. destruct (decide (base ≤ 0)).
  - unfold Exponential. rewrite bool_decide_true by lia. unfold MaxInt64. lia.
  - rewrite Exponential_saturates by lia. pose proof (pow2_clamp_range attempt).
    unfold MaxInt64. nia.
Qed.

Lemma FullJitter_range g d :
  entropy_ok g → 0 ≤ FullJitter g d ∧ (FullJitter g d < d ∨ (d ≤ 0 ∧ FullJitter g d = 0)).
Proof.
  intros [Hr Hp]. unfold FullJitter, cryptoFallbackRand, fallbackDivisor.
  case_bool_decide; [lia|]. destruct (rand_int g d) as [n|] eqn:E.
  - apply Hr in E; lia.
  - destruct (rand_read g) as [s|]; [specialize (Hp s d); lia|].
    rewrite Z.quot_div_nonneg by lia. pose proof (Z.div_lt d 2). pose proof (Z.div_pos d 2). lia.
Qed.

(** ** Claims *)

(** For a positive base the delay is [base * 2^attempt] computed without
    any wrap-around: the shift is clamped to 0..62 and the product saturates
    at the largest duration; the delay never decreases from one attempt to the
    next. *)
Theorem Exponential_spec (base attempt : Z) :
  0 < base ≤ MaxInt64 →
  Exponential base attempt = Z.min MaxInt64 (base * 2 ^ Z.max 0 (Z.min attempt 62)) ∧
  Exponential base attempt ≤ Exponential base (attempt + 1).
Proof.
  intros Hb. rewrite !Exponential_saturates by done. split; [done|].
  assert (2 ^ clamp_attempt attempt ≤ 2 ^ clamp_attempt (attempt + 1)).
  { unfold clamp_attempt, maxShift. apply Z.pow_le_mono_r; lia. }
  nia.
Qed.

Lemma Exponential_spec_witness :
  Exponential (200 * Millisecond) 2 = 800 * Millisecond ∧
  Exponential (200 * Millisecond) 2 ≤ Exponential (200 * Millisecond) (2 + 1).
Proof.
  destruct (Exponential_spec (200 * Millisecond) 2) as [H1 H2]; [unfold Millisecond, MaxInt64; lia|].
  split; [rewrite H1; reflexivity|exact H2].
Defined.

(** The jittered delay of a retry is a duration in [0, base * 2^attempt)
    (0 when that interval is empty), whichever of the three randomness
    fallbacks produced it. *)
Theorem jittered_delay_in_range (g : entropy) (base attempt : Z) :
  entropy_ok g → base ≤ MaxInt64 →
  0 ≤ ExponentialWithJitter g base attempt ∧
  ExponentialWithJitter g base attempt ≤ Z.max 0 (Exponential base attempt - 1) ∧
  Exponential base attempt ≤ MaxInt64.
Proof.
  intros Hg Hb. unfold ExponentialWithJitter.
  pose proof (FullJitter_range g (Exponential base attempt) Hg).
  pose proof (Exponential_nonneg base attempt Hb). lia.
Qed.

(** A machine whose crypto source is exhausted: every call takes the midpoint. *)
Definition exhausted : entropy :=
  {| rand_int := λ _, None; rand_read := None; pcg_int64n := λ _ _, 0 |}.

Lemma jittered_delay_in_range_witness :
  0 ≤ ExponentialWithJitter exhausted (30 * Second) 3 ∧
  ExponentialWithJitter exhausted (30 * Second) 3 ≤ Z.max 0 (Exponential (30 * Second) 3 - 1) ∧
  Exponential (30 * Second) 3 ≤ MaxInt64.
Proof.
  apply jittered_delay_in_range; [|unfold Second, MaxInt64; lia].
  split; simpl; [done|lia].
Defined.
