(* ===== verification/Webhook.v ===== *)
(** Webhook delivery ([src/commons/webhook]): signatures, and the delivery of an
    event to an endpoint with address checks and retries.

    A delivery is a program over the commands [cmd]: the resolver as it is when it
    is asked, the randomness of a delay, waiting, one HTTP request, one metric.
    Payloads, secrets and signatures are byte strings. *)

From stdpp Require Import base numbers list strings sets.
From S2P Require Import Prelude GoText GoBytes GoJSON Effects Backoff Ssrf.

Local Open Scope Z_scope.

(** ** Signatures ([signature.go]) *)

Definition SignatureVersion : Type := Z.
Definition SignatureV0 : SignatureVersion := 0.
Definition SignatureV1 : SignatureVersion := 1.

Definition computeHMAC (payload secret : bytes) : text := hex_encode (hmac_sha256 secret payload).

(** What the HMAC of version 1 covers. *)
Definition v1_input (payload : bytes) (timestamp : Z) : bytes := txt "v1:" ++ Itoa timestamp ++ txt "." ++ payload.

Definition computeHMACv1 (payload : bytes) (timestamp : Z) (secret : bytes) : text :=
  txt "v1,sha256=" ++ hex_encode (hmac_sha256 secret (v1_input payload timestamp)).

Inductive signature_error := V1Mismatch | V0Mismatch | Unrecognized | V1Required | OutsideTolerance.

#[export] Instance signature_error_eq_dec : EqDecision signature_error.
Proof. solve_decision. Defined.

Definition VerifySignature (payload : bytes) (timestamp : Z) (secret : bytes) (signature : text) : result signature_error unit :=
  if has_prefix (txt "v1,") signature then
    if eqt signature (computeHMACv1 payload timestamp secret) then Ok tt else Err V1Mismatch
  else if has_prefix (txt "sha256=") signature then
    if eqt signature (txt "sha256=" ++ computeHMAC payload secret) then Ok tt else Err V0Mismatch
  else Err Unrecognized.

Definition VerifySignatureV1 (payload : bytes) (timestamp : Z) (secret : bytes) (signature : text) : result signature_error unit :=
  if negb (has_prefix (txt "v1,") signature) then Err V1Required else VerifySignature payload timestamp secret signature.

(** [Duration.Abs] *)
Definition duration_abs (d : duration) : duration := if bool_decide (d = MinInt64) then MaxInt64 else Z.abs d.

(** [time.Unix(timestamp, 0)] *)
Definition time_unix (timestamp : Z) : gotime := unix_epoch + timestamp * Second.

Definition stale (timestamp : Z) (tolerance : duration) (now : gotime) : bool :=
  bool_decide (tolerance < duration_abs (time_sub now (time_unix timestamp))).

Definition verifySignatureWithFreshnessAt (payload : bytes) (timestamp : Z) (secret : bytes) (signature : text)
    (tolerance : duration) (now : gotime) : result signature_error unit :=
  _ ← VerifySignature payload timestamp secret signature;
  if (has_prefix (txt "v1,") signature && stale timestamp tolerance now)%bool then Err OutsideTolerance else Ok tt.

Definition verifySignatureV1WithFreshnessAt (payload : bytes) (timestamp : Z) (secret : bytes) (signature : text)
    (tolerance : duration) (now : gotime) : result signature_error unit :=
  _ ← VerifySignatureV1 payload timestamp secret signature;
  if stale timestamp tolerance now then Err OutsideTolerance else Ok tt.

(** ** Types ([types.go], [errors.go]) *)

Record Endpoint := { ep_ID : text; ep_URL : text; ep_Secret : text; ep_Active : bool }.

Record Event := { ev_Type : text; ev_Payload : bytes; ev_Timestamp : Z }.

Inductive target_error := ErrSSRFBlocked | ErrInvalidTarget.

#[warnings="-register-all"]
Inductive delivery_error :=
| Blocked (cause : target_error)
| NoDecryptor
| DecryptFailed
| BackoffCancelled
| BuildRequest
| HttpRequest
| RedirectStatus (status : Z)
| ClientStatus (status : Z)
| ListFailed
| ErrDeliveryFailed (last : option delivery_error).

Record DeliveryResult := {
  EndpointID : text;
  StatusCode : Z;
  Success : bool;
  Error_ : option delivery_error;
  Attempts : Z;
}.

#[export] Instance DeliveryResult_eta : Eta DeliveryResult := λ r,
  {| EndpointID := EndpointID r; StatusCode := StatusCode r; Success := Success r; Error_ := Error_ r; Attempts := Attempts r |}.

(** ** The deliverer ([deliverer.go]) *)

Definition defaultMaxConcurrency : Z := 20.
Definition defaultMaxRetries : Z := 3.
Definition defaultBaseDelay : duration := Second.

(** The [Transport] of an [http.Client]: nil, which is [http.DefaultTransport]; an
    [http.Transport] with the minimal TLS version of its configuration, if it has one;
    or another implementation. *)
Inductive transport := NilTransport | HttpTransport (tls : option Z) | OtherTransport.

(** Of an [http.Client], its transport and whether it follows redirects. *)
Record http_client := { Transport : transport; follows_redirects : bool }.

Record Deliverer := {
  client : http_client;
  decryptor : option (text → option text);
  maxConc : Z;
  maxRetries : Z;
  sigVersion : SignatureVersion;
  allowPrivateNetwork : bool;
}.

#[export] Instance Deliverer_eta : Eta Deliverer := λ d,
  {| client := client d; decryptor := decryptor d; maxConc := maxConc d; maxRetries := maxRetries d;
     sigVersion := sigVersion d; allowPrivateNetwork := allowPrivateNetwork d |}.

Definition Option_ : Type := Deliverer → Deliverer.

Definition WithMaxConcurrency (n : Z) : Option_ := λ d, if bool_decide (0 < n) then (d <| maxConc := n |>)%go else d.
Definition WithMaxRetries (n : Z) : Option_ := λ d, if bool_decide (0 < n) then (d <| maxRetries := n |>)%go else d.

(** A clone with redirects blocked; a nil client is ignored. *)
Definition WithHTTPClient (c : option http_client) : Option_ := λ d,
  match c with Some c => (d <| client := {| Transport := Transport c; follows_redirects := false |} |>)%go | None => d end.

Definition WithSecretDecryptor (fn : option (text → option text)) : Option_ := λ d,
  match fn with Some f => (d <| decryptor := Some f |>)%go | None => d end.

Definition WithSignatureVersion (v : SignatureVersion) : Option_ := λ d, (d <| sigVersion := v |>)%go.

(** [env] is [commons.AllowWebhookPrivateNet()]. *)
Definition WithAllowPrivateNetwork (env : bool) : Option_ := λ d, if env then (d <| allowPrivateNetwork := true |>)%go else d.

Definition defaultHTTPClient : http_client := {| Transport := HttpTransport None; follows_redirects := false |}.

Definition NewDeliverer (nil_lister : bool) (opts : list Option_) : option Deliverer :=
  if nil_lister then None
  else Some (fold_left (λ d opt, opt d) opts
    {| client := defaultHTTPClient; decryptor := None; maxConc := defaultMaxConcurrency; maxRetries := defaultMaxRetries;
       sigVersion := SignatureV0; allowPrivateNetwork := false |}).

Definition filterActive (endpoints : list Endpoint) : list Endpoint := List.filter ep_Active endpoints.

(** [commons] of the process: the resolver, the randomness, the wait under a
    context ([false] when the context ends first), the network. *)
Record tls_config := { ServerName : text; MinVersion : Z }.

Record request := {
  rq_url : text;
  rq_host : text;
  rq_tls : option tls_config;       (* set for this request; otherwise the transport's own *)
  rq_headers : list (text * text);
  rq_body : bytes;
  rq_follows_redirects : bool;
}.

Inductive cmd :=
| AskResolver
| AskEntropy
| Wait (d : duration)
| Post (r : request)
| RecordDelivery (endpointID : text) (success : bool) (statusCode attempts : Z).

Definition answer (c : cmd) : Type :=
  match c with
  | AskResolver => text → option (list text)
  | AskEntropy => entropy
  | Wait _ => bool
  | Post _ => option Z
  | RecordDelivery _ _ _ _ => unit
  end.

Section net.
Context `{Net}.

(** *** Target validation ([ssrf.go]) *)

Definition mapSSRFError (e : ssrf_error) : target_error :=
  match e with ErrInvalidURL => ErrInvalidTarget | ErrBlocked | ErrDNSFailed => ErrSSRFBlocked end.

Definition resolveAndValidateIP (ctx : ctx_state) (lookup : text → option (list text)) (rawURL : text) (opts : list Ssrf.Option_)
    : result target_error ResolveResult :=
  match ResolveAndValidate ctx lookup rawURL opts with Ok r => Ok r | Err e => Err (mapSSRFError e) end.

Definition isPrivateNetworkIPLiteral (rawURL : text) : bool :=
  match url_parse rawURL with
  | None => false
  | Some parsed =>
    match ParseIP (Hostname parsed) with
    | None => false
    | Some ip => (IsLoopback (Unmap ip) || IsPrivate (Unmap ip))%bool
    end
  end.

Definition resolveAndValidateWebhookTarget (ctx : ctx_state) (lookup : text → option (list text)) (rawURL : text)
    (allowPrivateNetwork : bool) (opts : list Ssrf.Option_) : result target_error ResolveResult :=
  if (negb allowPrivateNetwork || negb (isPrivateNetworkIPLiteral rawURL))%bool then resolveAndValidateIP ctx lookup rawURL opts
  else resolveAndValidateIP ctx lookup rawURL (opts ++ [Ssrf.WithAllowPrivateNetwork]).

(** *** One request *)

Definition resolveSecret (d : Deliverer) (raw : text) : result delivery_error text :=
  if is_empty raw then Ok []
  else if negb (has_prefix (txt "enc:") raw) then Ok raw
  else match decryptor d with
       | None => Err NoDecryptor
       | Some f => match f (drop 4 raw) with Some plaintext => Ok plaintext | None => Err DecryptFailed end
       end.

Definition computeSignature (d : Deliverer) (payload : bytes) (timestamp : Z) (secret : bytes) : text :=
  if bool_decide (sigVersion d = SignatureV1) then computeHMACv1 payload timestamp secret
  else txt "sha256=" ++ computeHMAC payload secret.

Definition webhook_headers (d : Deliverer) (event : Event) (secret : text) : list (text * text) :=
  [(txt "Content-Type", txt "application/json"); (txt "X-Webhook-Event", ev_Type event);
   (txt "X-Webhook-Timestamp", Itoa (ev_Timestamp event))] ++
  if is_empty secret then []
  else [(txt "X-Webhook-Signature", computeSignature d (ev_Payload event) (ev_Timestamp event) (utf8_encode secret))].

Definition VersionTLS12 : Z := 0x0303.

(** The TLS configuration of the client for a pinned address; a transport that is not an
    [http.Transport] keeps its own. *)
Definition httpsClientForPinnedIP (c : http_client) (originalHost : text) : option tls_config :=
  let pinned (tls : option Z) :=
    Some {| ServerName := originalHost;
            MinVersion := match tls with
                          | None => VersionTLS12
                          | Some v => if bool_decide (v < VersionTLS12) then VersionTLS12 else v
                          end |} in
  match Transport c with
  | NilTransport => pinned None
  | HttpTransport tls => pinned tls
  | OtherTransport => None
  end.

(** A URL that does not parse builds no request. *)
Definition doHTTP (d : Deliverer) (r : ResolveResult) (event : Event) (secret : text) : eff answer (result delivery_error Z) :=
  match url_parse (PinnedURL r) with
  | None => mret (Err BuildRequest)
  | Some pinned =>
    status ← perform (R := answer) (Post {|
      rq_url := PinnedURL r;
      rq_host := if is_empty (Authority r) then Host pinned else Authority r;
      rq_tls := if (negb (is_empty (SNIHostname r)) && has_prefix (txt "https://") (PinnedURL r))%bool
                then httpsClientForPinnedIP (client d) (SNIHostname r) else None;
      rq_headers := webhook_headers d event secret;
      rq_body := ev_Payload event;
      rq_follows_redirects := follows_redirects (client d) |});
    mret (match status with Some s => Ok s | None => Err HttpRequest end)
  end.

(** *** The retry loop: [budget] requests may still be made. *)

Fixpoint attempts (d : Deliverer) (ep : Endpoint) (event : Event) (r : ResolveResult) (secret : text)
    (budget : nat) (attempt : Z) (res : DeliveryResult) : eff answer DeliveryResult :=
  match budget with
  | O =>
    let res := (res <| Error_ := Some (ErrDeliveryFailed (Error_ res)) |>)%go in
    _ ← perform (R := answer) (RecordDelivery (ep_ID ep) false (StatusCode res) (Attempts res));
    mret res
  | S budget =>
    let res := (res <| Attempts := attempt + 1 |>)%go in
    waited ← (if bool_decide (0 < attempt) then
                g ← perform (R := answer) AskEntropy;
                perform (R := answer) (Wait (ExponentialWithJitter g defaultBaseDelay (attempt - 1)))
              else mret true);
    if negb waited then mret (res <| Error_ := Some BackoffCancelled |>)%go else
    o ← doHTTP d r event secret;
    match o with
    | Err err => attempts d ep event r secret budget (attempt + 1) (res <| StatusCode := 0 |> <| Error_ := Some err |>)%go
    | Ok statusCode =>
      let res := (res <| StatusCode := statusCode |>)%go in
      if bool_decide (200 ≤ statusCode < 300) then
        _ ← perform (R := answer) (RecordDelivery (ep_ID ep) true statusCode (Attempts res));
        mret (res <| Success := true |>)%go
      else if bool_decide (300 ≤ statusCode < 400) then
        _ ← perform (R := answer) (RecordDelivery (ep_ID ep) false statusCode (Attempts res));
        mret (res <| Error_ := Some (RedirectStatus statusCode) |>)%go
      else if bool_decide (400 ≤ statusCode < 500 ∧ statusCode ≠ 429) then
        _ ← perform (R := answer) (RecordDelivery (ep_ID ep) false statusCode (Attempts res));
        mret (res <| Error_ := Some (ClientStatus statusCode) |>)%go
      else attempts d ep event r secret budget (attempt + 1) res
    end
  end.

Definition no_result (id : text) : DeliveryResult := {| EndpointID := id; StatusCode := 0; Success := false; Error_ := None; Attempts := 0 |}.

(** The context is detached from its parent: it never ends. *)
Definition deliverToEndpoint (d : Deliverer) (event : Event) (ep : Endpoint) : eff answer DeliveryResult :=
  lookup ← perform (R := answer) AskResolver;
  match resolveAndValidateWebhookTarget LiveCtx lookup (ep_URL ep) (allowPrivateNetwork d) [] with
  | Err e => mret ((no_result (ep_ID ep)) <| Error_ := Some (Blocked e) |>)%go
  | Ok r =>
    match resolveSecret d (ep_Secret ep) with
    | Err e => mret ((no_result (ep_ID ep)) <| Error_ := Some e |>)%go
    | Ok secret => attempts d ep event r secret (Z.to_nat (wrap64 (maxRetries d + 1))) 0 (no_result (ep_ID ep))
    end
  end.

(** *** All endpoints

    One goroutine per endpoint, started in order, each holding a slot of the
    semaphore until it is done. *)

Record fan := { fan_waiting : list Endpoint; fan_threads : list (thread answer DeliveryResult) }.

Inductive fan_move :=
| Spawn
| Advance (i : nat) (answers : ∀ c, answer c).

(** The next command of a goroutine, with its answer. *)
Definition answered (answers : ∀ c, answer c) (t : thread answer DeliveryResult) : thread answer DeliveryResult :=
  (advance (λ (l : ∀ c, answer c) c (s : unit), (l c, s)) answers t tt).1.

Definition in_flight (f : fan) : nat := length (List.filter (λ t, negb (finished t)) (fan_threads f)).

Definition fan_step (d : Deliverer) (event : Event) (f : fan) (m : fan_move) : fan :=
  match m with
  | Spawn =>
    match fan_waiting f with
    | ep :: rest =>
      if bool_decide (Z.of_nat (in_flight f) < maxConc d) then
        {| fan_waiting := rest; fan_threads := fan_threads f ++ [{| th_trace := []; th_rest := deliverToEndpoint d event ep |}] |}
      else f
    | [] => f
    end
  | Advance i answers =>
    match fan_threads f !! i with
    | Some t => {| fan_waiting := fan_waiting f;
                   fan_threads := <[i := answered answers t]> (fan_threads f) |}
    | None => f
    end
  end.

Definition fanOut (d : Deliverer) (event : Event) (endpoints : list Endpoint) (moves : list fan_move) : fan :=
  fold_left (fan_step d event) moves {| fan_waiting := endpoints; fan_threads := [] |}.

(** The results by endpoint, once every goroutine is done. *)
Definition fan_result (t : thread answer DeliveryResult) : option DeliveryResult :=
  match th_rest t with Done r => Some r | Do _ _ => None end.

(** [listed] is the answer of [ListActiveEndpoints]: what is returned at once, or
    the endpoints to deliver to. *)
Definition Deliver (d : option Deliverer) (event : option Event) (listed : option (list Endpoint))
    : result text (option (Deliverer * Event * list Endpoint)) :=
  match d, event with
  | None, _ => Err (txt "webhook: nil deliverer")
  | Some _, None => Err (txt "webhook: nil event")
  | Some d, Some event =>
    match listed with
    | None => Err (txt "webhook: list endpoints")
    | Some endpoints =>
      let active := filterActive endpoints in
      if bool_decide (length active = 0%nat) then Ok None else Ok (Some (d, event, active))
    end
  end.

Definition DeliverWithResults (d : option Deliverer) (event : option Event) (listed : option (list Endpoint))
    : result (list DeliveryResult) (Deliverer * Event * list Endpoint) :=
  match d, event with
  | None, _ | _, None => Err []
  | Some d, Some event =>
    match listed with
    | None => Err [((no_result []) <| Error_ := Some ListFailed |>)%go]
    | Some endpoints =>
      let active := filterActive endpoints in
      if bool_decide (length active = 0%nat) then Err [] else Ok (d, event, active)
    end
  end.
End net.

(** ** What a signature proves *)

(** The bytes a sender signs, by the version it is configured for. *)
Definition signed_message (m : SignatureVersion * bytes * Z) : bytes :=
  let '(v, payload, timestamp) := m in if bool_decide (v = SignatureV1) then v1_input payload timestamp else payload.

(** A payload of version 0 is JSON: it does not start like the input of version 1. *)
Definition sent_ok (m : SignatureVersion * bytes * Z) : Prop :=
  let '(v, payload, timestamp) := m in in_int64 timestamp ∧ (v ≠ SignatureV1 → has_prefix (txt "v1:") payload = false).

(** The HMAC of a message no sender has signed. *)
Definition forged_signature (secret : bytes) (history : list (SignatureVersion * bytes * Z)) (signature : text) : Prop :=
  ∃ msg, ¬ (msg ∈ signed_message <$> history) ∧ signature = txt "v1,sha256=" ++ hex_encode (hmac_sha256 secret msg).

Lemma v1_input_inj p t p' t' : in_int64 t → in_int64 t' → v1_input p t = v1_input p' t' → p = p' ∧ t = t'.
Proof.
  intros Ht Ht' E. unfold v1_input in E. apply app_inv_head in E. change (txt ".") with [46] in E. cbn [app] in E.
  apply split_at_first in E as [E ->]; [|by apply Itoa_plain..]. split; [done|].
  apply (f_equal Atoi) in E. rewrite !Atoi_Itoa in E by done. by injection E.
Qed.

Lemma stale_false timestamp tolerance now : tolerance < MaxInt64 → stale timestamp tolerance now = false →
  now - tolerance ≤ time_unix timestamp ≤ now + tolerance.
Proof.
  unfold stale, duration_abs, time_sub, MinInt64, MaxInt64. intros Ht Hs. apply bool_decide_eq_false in Hs.
  revert Hs. case_bool_decide; lia.
Qed.

(** a receiver that accepts a version 1 signature within the tolerance has a
    payload and a timestamp that a sender has signed together, with a timestamp
    near the present, or it was shown the HMAC of a message that no sender ever
    signed: neither the payload nor the timestamp of a captured request can be
    changed, and a captured request is of no use after the tolerance. *)
Theorem webhook_signature_binds secret history payload timestamp signature tolerance now :
  in_int64 timestamp → Forall sent_ok history → tolerance < MaxInt64 →
  verifySignatureV1WithFreshnessAt payload timestamp secret signature tolerance now = Ok tt →
  now - tolerance ≤ time_unix timestamp ≤ now + tolerance ∧
  ((SignatureV1, payload, timestamp) ∈ history ∨ forged_signature secret history signature).
Proof.
  intros Ht Hh Htol. unfold verifySignatureV1WithFreshnessAt, VerifySignatureV1, VerifySignature.
  destruct (has_prefix (txt "v1,") signature); [|done]. cbn [negb].
  destruct (eqt signature _) eqn:E; [|done]. apply bool_decide_eq_true in E. cbn [mbind result_bind].
  destruct (stale timestamp tolerance now) eqn:Es; [done|]. intros _. split; [by apply stale_false|].
  destruct (decide (v1_input payload timestamp ∈ signed_message <$> history)) as [Hin|Hin].
  2: { right. by exists (v1_input payload timestamp). }
  left. apply list_elem_of_fmap in Hin as ([[v p] t] & Em & Hin). rewrite Forall_forall in Hh. destruct (Hh _ Hin) as [Ht' Hv].
  cbn [signed_message] in Em. case_bool_decide as Hv1.
  - subst v. apply v1_input_inj in Em as [-> ->]; done.
  - specialize (Hv Hv1). rewrite <- Em in Hv. done.
Qed.
