(* ===== verification/WebhookDelivery.v ===== *)
(** What a webhook delivery does, whatever the network answers: where its requests
    go, how often they are made, and what its result says. *)

From stdpp Require Import base numbers list strings sets.
From S2P Require Import Prelude GoText GoBytes GoJSON Effects Backoff Ssrf Webhook.

Local Open Scope Z_scope.

(** ** Requests and waits of a run *)

Definition post_of (e : event answer) : option (request * option Z) :=
  match e with
  | Ev c x => match c return answer c → option (request * option Z) with Post r => λ a, Some (r, a) | _ => λ _, None end x
  end.

Definition posts (tr : list (event answer)) : list (request * option Z) := omap post_of tr.

(** A detached context does not end, so a wait is always completed. *)
Definition waited (e : event answer) : Prop :=
  match e with
  | Ev c x => match c return answer c → Prop with Wait _ => λ b, b = true | _ => λ _, True end x
  end.

Definition succeeded (a : option Z) : bool := match a with Some s => bool_decide (200 ≤ s < 300) | None => false end.

(** A failed transport, a server error, or "too many requests". *)
Definition retryable (a : option Z) : bool :=
  match a with
  | None => true
  | Some s => negb (bool_decide (200 ≤ s < 300) || bool_decide (300 ≤ s < 400) || bool_decide (400 ≤ s < 500 ∧ s ≠ 429))
  end.

(** The result of a delivery that may make [n] requests, by the answers they got. *)
Record delivered (id : text) (n : nat) (answers : list (option Z)) (res : DeliveryResult) : Prop := {
  dl_id : EndpointID res = id;
  dl_attempts : Attempts res = Z.of_nat (length answers);
  dl_bound : (length answers ≤ n)%nat;
  dl_early : ∀ init a, answers = init ++ [a] → forallb retryable init = true;
  dl_status : StatusCode res = default 0 (default None (last answers));
  dl_success : Success res = succeeded (default None (last answers));
  dl_last : retryable (default None (last answers)) = true → length answers = n;
  dl_error : Error_ res = None ↔ Success res = true ∧ None ∉ answers;
}.

Lemma wp_do {A} (c : cmd) (f : answer c → eff answer A) I Φ tr :
  I tr → (∀ x, wp (f x) I Φ (tr ++ [Ev c x])) → wp (perform (R := answer) c ≫= f) I Φ tr.
Proof. intros Hi Hf. apply wp_seq, wp_perform; [done|]. intros x. split; [by eapply wp_here|done]. Qed.

Lemma posts_app tr tr' : posts (tr ++ tr') = posts tr ++ posts tr'.
Proof. apply omap_app. Qed.

(** ** The retry loop *)

Section loop.
Context `{Net} (d : Deliverer) (ep : Endpoint) (event : Event) (r : ResolveResult) (secret : text) (n : nat).
Context (pinned : URL url_rest) (Hpinned : url_parse (PinnedURL r) = Some pinned).
Context (I : list (Effects.event answer) → Prop).

(** Every attempt makes the same request. *)
Definition the_request : request := {|
  rq_url := PinnedURL r;
  rq_host := if is_empty (Authority r) then Host pinned else Authority r;
  rq_tls := if (negb (is_empty (SNIHostname r)) && has_prefix (txt "https://") (PinnedURL r))%bool
            then httpsClientForPinnedIP (client d) (SNIHostname r) else None;
  rq_headers := webhook_headers d event secret;
  rq_body := ev_Payload event;
  rq_follows_redirects := follows_redirects (client d) |}.

(** Commands that are not requests keep [I], and so does [the_request]. *)
Context (HI : ∀ tr c x, I tr → (∀ q, c = Post q → q = the_request) → I (tr ++ [Ev c x])).

(** Before an attempt: the answers so far are all retryable. *)
Record going (answers : list (option Z)) (res : DeliveryResult) : Prop := {
  go_id : EndpointID res = ep_ID ep;
  go_attempts : Attempts res = Z.of_nat (length answers);
  go_retry : forallb retryable answers = true;
  go_status : StatusCode res = default 0 (default None (last answers));
  go_success : Success res = false;
  go_error : Error_ res = None ↔ None ∉ answers;
}.

Definition answers_of (tr : list (Effects.event answer)) : list (option Z) := (posts tr).*2.

Definition done_with (tr : list (Effects.event answer)) (res : DeliveryResult) : Prop :=
  Forall waited tr → delivered (ep_ID ep) n (answers_of tr) res.
Lemma answers_snoc tr c x : answers_of (tr ++ [Ev c x]) =
  answers_of tr ++ match post_of (Ev c x) with Some (_, a) => [a] | None => [] end.
Proof. unfold answers_of. rewrite posts_app, fmap_app. f_equal. unfold posts. cbn [omap list_omap]. destruct (post_of (Ev c x)) as [[??]|]; done. Qed.

Lemma not_success a : retryable a = true → succeeded a = false.
Proof. destruct a as [s|]; [|done]. simpl. by case_bool_decide. Qed.

Lemma last_retryable answers : forallb retryable answers = true → retryable (default None (last answers)) = true.
Proof.
  intros Hf. destruct (last answers) as [a|] eqn:E; [|done]. apply last_Some in E as [l ->].
  rewrite forallb_app in Hf. apply andb_true_iff in Hf as [_ Hf]. simpl in *. by rewrite andb_true_r in Hf.
Qed.

(** The end of the budget. *)
Lemma exhausted_delivered answers res : going answers res → length answers = n →
  delivered (ep_ID ep) n answers (res <| Error_ := Some (ErrDeliveryFailed (Error_ res)) |>)%go.
Proof.
  intros [H1 H2 H3 H4 H5 H6] Hn. constructor; cbn [EndpointID Attempts StatusCode Success Error_ set_to]; try done.
  - lia.
  - intros init a ->. rewrite forallb_app in H3. by apply andb_true_iff in H3 as [? _].
  - rewrite H5. symmetry. apply not_success. by apply last_retryable.
  - rewrite H5. split; [done|by intros [? _]].
Qed.

(** An answer that ends the delivery. *)
Lemma final_delivered answers res s ok err : going answers res → (length answers < n)%nat → retryable (Some s) = false →
  ok = succeeded (Some s) → (err = None ↔ ok = true ∧ None ∉ answers) →
  delivered (ep_ID ep) n (answers ++ [Some s])
    {| EndpointID := EndpointID res; StatusCode := s; Success := ok; Error_ := err; Attempts := Z.of_nat (length answers) + 1 |}.
Proof.
  intros [H1 H2 H3 H4 H5 H6] Hn Hr Hok He. constructor; cbn [EndpointID Attempts StatusCode Success Error_]; rewrite ?last_snoc, ?length_app; simpl; try done.
  - lia.
  - lia.
  - by intros init a [-> _]%app_inj_tail.
  - change (retryable (Some s) = true → (length answers + 1)%nat = n). by rewrite Hr.
  - rewrite He, not_elem_of_app, list_elem_of_singleton. naive_solver.
Qed.

(** An answer after which the next attempt is made. *)
Lemma going_on answers res a : going answers res → retryable a = true →
  going (answers ++ [a])
    {| EndpointID := EndpointID res; StatusCode := default 0 a; Success := Success res;
       Error_ := match a with None => Some HttpRequest | Some _ => Error_ res end; Attempts := Z.of_nat (length answers) + 1 |}.
Proof.
  intros [H1 H2 H3 H4 H5 H6] Ha. constructor; cbn [EndpointID Attempts StatusCode Success Error_]; rewrite ?last_snoc, ?length_app; simpl; try done.
  - lia.
  - by rewrite forallb_app, H3, andb_true_l; simpl; rewrite Ha.
  - rewrite not_elem_of_app, list_elem_of_singleton. destruct a; [rewrite H6; naive_solver|naive_solver].
Qed.

Lemma finish_wp id ok s n' res tr : I tr → (Forall waited tr → delivered (ep_ID ep) n (answers_of tr) res) →
  wp (perform (R := answer) (RecordDelivery id ok s n') ≫= λ _, mret res) I done_with tr.
Proof using HI.
  intros Hi Hd. apply wp_do; [done|]. intros x. split; [by apply HI|]. intros Hw. apply Forall_app in Hw as [Hw _].
  rewrite answers_snoc. cbn [post_of]. rewrite app_nil_r. auto.
Qed.

Lemma wait_wp k tr : I tr →
  wp (if bool_decide (0 < k) then
        g ← perform (R := answer) AskEntropy; perform (R := answer) (Wait (ExponentialWithJitter g defaultBaseDelay (k - 1)))
      else mret true) I (λ t b, answers_of t = answers_of tr ∧ (Forall waited t → Forall waited tr ∧ b = true)) tr.
Proof using HI.
  intros Hi. case_bool_decide; [|split; [done|]; split; [done|]; by intros Hw].
  apply wp_do; [done|]. intros g. assert (I (tr ++ [Ev AskEntropy g])) as Hi1 by (by apply HI). apply (wp_perform (R := answer) (Wait _)); [done|]. intros b. split; [by apply HI|].
  rewrite !answers_snoc. cbn [post_of]. rewrite !app_nil_r. split; [done|]. rewrite !Forall_app. intros [[Hw _] Hb].
  split; [done|]. rewrite Forall_singleton in Hb. exact Hb.
Qed.

Lemma attempts_wp budget : ∀ res tr, I tr → (Forall waited tr → going (answers_of tr) res) →
  (length (answers_of tr) + budget)%nat = n →
  wp (attempts d ep event r secret budget (Z.of_nat (length (answers_of tr))) res) I done_with tr.
Proof using Hpinned HI.
  induction budget as [|budget IH]; intros res tr Hi Hg Hn.
  - cbn [attempts]. apply wp_do; [done|]. intros x. split; [by apply HI|]. intros Hw. apply Forall_app in Hw as [Hw _].
    rewrite answers_snoc. cbn [post_of]. rewrite app_nil_r. apply exhausted_delivered; [by apply Hg|lia].
  - cbn [attempts]. set (k := Z.of_nat (length (answers_of tr))). apply wp_seq.
    eapply (wp_weaken _ I (λ t b, answers_of t = answers_of tr ∧ (Forall waited t → Forall waited tr ∧ b = true))).
    2: { by apply wait_wp. }
    intros t b Ht [Ea Hw]. destruct b; cbn [negb]; [|split; [done|]; intros Hwt; by apply Hw in Hwt as [_ ?]].
    apply wp_seq. unfold doHTTP. rewrite Hpinned. apply wp_do; [done|]. intros a. cbn [answer] in a.
    assert (I (t ++ [Ev (Post the_request) a])) as Hi' by (apply HI; [done|]; by intros q [= <-]).
    assert (answers_of (t ++ [Ev (Post the_request) a]) = answers_of tr ++ [a]) as Ea' by (by rewrite answers_snoc, Ea).
    assert (Forall waited (t ++ [Ev (Post the_request) a]) → going (answers_of tr) res) as Hg'.
    { intros Hwt. apply Forall_app in Hwt as [Hwt _]. apply Hg. by apply Hw. }
    split; [done|]. fold the_request. set (t' := t ++ [Ev (Post the_request) a]) in *.
    assert (k + 1 = Z.of_nat (length (answers_of t'))) as Ek by (rewrite Ea', length_app; simpl; lia).
    assert ((length (answers_of t') + budget)%nat = n) as Hn' by (rewrite Ea', length_app; simpl; lia).
    destruct a as [s|].
    + case_bool_decide as H2; [|case_bool_decide as H3; [|case_bool_decide as H4]].
      * apply finish_wp; [done|]. intros Hwt. rewrite Ea'. apply (final_delivered _ res s true (Error_ res)); [auto|lia| | |].
        -- simpl. by rewrite bool_decide_true.
        -- simpl. by rewrite bool_decide_true.
        -- rewrite (go_error _ _ (Hg' Hwt)). naive_solver.
      * apply finish_wp; [done|]. intros Hwt. rewrite Ea'.
        apply (final_delivered _ res s (Success res)); [auto|lia| | |rewrite (go_success _ _ (Hg' Hwt)); naive_solver].
        -- simpl. by rewrite (bool_decide_true (300 ≤ s < 400)), orb_true_r by done.
        -- rewrite (go_success _ _ (Hg' Hwt)). simpl. by rewrite bool_decide_false.
      * apply finish_wp; [done|]. intros Hwt. rewrite Ea'.
        apply (final_delivered _ res s (Success res)); [auto|lia| | |rewrite (go_success _ _ (Hg' Hwt)); naive_solver].
        -- simpl. by rewrite (bool_decide_true (400 ≤ s < 500 ∧ s ≠ 429)), orb_true_r by done.
        -- rewrite (go_success _ _ (Hg' Hwt)). simpl. by rewrite bool_decide_false.
      * rewrite Ek at 1. apply IH; [done| |done]. intros Hwt. rewrite Ea'. apply (going_on _ res (Some s)); [auto|].
        simpl. by rewrite !bool_decide_false.
    + rewrite Ek at 1. apply IH; [done| |done]. intros Hwt. rewrite Ea'. apply (going_on _ res None); auto.
Qed.
End loop.

(** ** Where requests go *)

(** The options of the package. *)
Inductive known_option : Webhook.Option_ → Prop :=
| OptConcurrency n : known_option (WithMaxConcurrency n)
| OptRetries n : known_option (WithMaxRetries n)
| OptClient c : known_option (WithHTTPClient c)
| OptDecryptor f : known_option (WithSecretDecryptor f)
| OptSignature v : known_option (WithSignatureVersion v)
| OptPrivate env : known_option (WithAllowPrivateNetwork env).

Lemma NewDeliverer_sane opts d : Forall known_option opts → NewDeliverer false opts = Some d →
  follows_redirects (client d) = false ∧ 0 < maxRetries d ∧ 0 < maxConc d.
Proof.
  intros Ho. unfold NewDeliverer. intros E. injection E as <-.
  match goal with |- context [fold_left _ opts ?d0] =>
    assert (follows_redirects (client d0) = false ∧ 0 < maxRetries d0 ∧ 0 < maxConc d0) as Hd by done; revert Hd; generalize d0 end.
  induction Ho as [|o opts Ho _ IH]; intros d0 Hd; [done|]. cbn [fold_left]. apply IH. destruct Hd as (H1 & H2 & H3).
  destruct Ho as [n|n|[c|]|[f|]|v|[]]; cbv beta delta [WithMaxConcurrency WithMaxRetries WithHTTPClient WithSecretDecryptor WithSignatureVersion WithAllowPrivateNetwork];
    try case_bool_decide; done.
Qed.

Section delivery.
Context `{NetLaws}.

(** [net.Resolver.LookupHost]: addresses without brackets, and an address literal
    is its own answer. *)
Definition resolver_ok (lookup : text → option (list text)) : Prop :=
  (∀ h ips, lookup h = Some ips → Forall bracket_free ips) ∧ (∀ h x, ParseIP h = Some x → lookup h = Some [h]).

(** No address with a zone, as [fe80::1%eth0]. *)
Definition zone_free (lookup : text → option (list text)) : Prop := ∀ h ips, lookup h = Some ips → Forall (λ ip, 37 ∉ ip) ips.

Record checked (d : Deliverer) (event : Event) (ep : Endpoint) (lookup : text → option (list text)) (q : request) : Prop := {
  ck_target : ∃ u pinned x ips, url_parse (ep_URL ep) = Some u ∧ url_parse (rq_url q) = Some pinned ∧
    lookup (Hostname u) = Some ips ∧ Hostname pinned ∈ ips ∧ Port pinned = Port u ∧ ParseAddr (Hostname pinned) = Some x ∧
    (¬ unsafe x ∨ allowPrivateNetwork d = true ∧ (IsLoopback (Unmap x) || IsPrivate (Unmap x))%bool = true) ∧
    rq_host q = Host u ∧
    (has_prefix (txt "https://") (rq_url q) = true → Transport (client d) ≠ OtherTransport →
       ∃ v, rq_tls q = Some {| ServerName := Hostname u; MinVersion := v |} ∧ VersionTLS12 ≤ v);
  ck_redirects : rq_follows_redirects q = false;
  ck_body : rq_body q = ev_Payload event;
}.

(** The resolver is asked first, and once; every request after it is checked
    against its answer. *)
Definition run_checked (d : Deliverer) (event : Event) (ep : Endpoint) (tr : list (Effects.event answer)) : Prop :=
  match tr with
  | [] => True
  | Ev c x :: rest =>
    match c return answer c → Prop with
    | AskResolver => λ lookup, resolver_ok lookup → Forall (λ qa, checked d event ep lookup qa.1) (posts rest)
    | _ => λ _, False
    end x
  end.

(** Nothing was sent, or what was sent explains the result. *)
Definition run_outcome (d : Deliverer) (ep : Endpoint) (tr : list (Effects.event answer)) (res : DeliveryResult) : Prop :=
  match tr with
  | [] => False
  | Ev c x :: rest =>
    match c return answer c → Prop with
    | AskResolver => λ lookup, resolver_ok lookup → zone_free lookup → Forall waited rest →
      (posts rest = [] ∧ EndpointID res = ep_ID ep ∧ Success res = false ∧ Attempts res = 0 ∧ is_Some (Error_ res)) ∨
      delivered (ep_ID ep) (Z.to_nat (maxRetries d + 1)) (answers_of rest) res
    | _ => λ _, False
    end x
  end.

Lemma target_checked d event ep lookup r secret pinned :
  follows_redirects (client d) = false → resolver_ok lookup →
  resolveAndValidateWebhookTarget LiveCtx lookup (ep_URL ep) (allowPrivateNetwork d) [] = Ok r →
  url_parse (PinnedURL r) = Some pinned → checked d event ep lookup (the_request d event r secret pinned).
Proof.
  intros Hf [Hb Hl] Hr Hp. unfold resolveAndValidateWebhookTarget, resolveAndValidateIP in Hr.
  set (opts := if (negb (allowPrivateNetwork d) || negb (isPrivateNetworkIPLiteral (ep_URL ep)))%bool then [] else [Ssrf.WithAllowPrivateNetwork]).
  assert (ResolveAndValidate LiveCtx lookup (ep_URL ep) opts = Ok r) as E.
  { unfold opts. destruct (negb _ || negb _)%bool; cbn [app] in Hr; destruct (ResolveAndValidate _ _ _ _); try done; by injection Hr as <-. }
  apply ResolveAndValidate_ok in E as (u & ip & x & Hu & (ips & Hips & Hin) & Hx & Hsafe & Hname & Hhttp & Hau & Hsni & Hpin & _); [|done].
  destruct (Hpin pinned Hp) as (<- & Hport & _). constructor; [|done|done].
  exists u, pinned, x, ips. cbn [the_request rq_url rq_host rq_tls]. rewrite Hau, Hsni.
  assert (Hostname u ≠ []) as Hne.
  { intros E. unfold isBlockedHostnameWithConfig, blocked_name in Hname. by rewrite E in Hname. }
  split_and!; try done.
  - subst opts. destruct (negb (allowPrivateNetwork d) || negb (isPrivateNetworkIPLiteral (ep_URL ep)))%bool eqn:Ea; [left; by apply Hsafe|right].
    apply orb_false_iff in Ea as [Ea1 Ea2]. apply negb_false_iff in Ea1, Ea2. split; [done|].
    unfold isPrivateNetworkIPLiteral in Ea2. rewrite Hu in Ea2. destruct (ParseIP (Hostname u)) as [ip|] eqn:Eip; [|done].
    rewrite (Hl _ _ Eip) in Hips. injection Hips as <-. apply list_elem_of_singleton in Hin. rewrite Hin in Hx.
    apply ParseIP_ParseAddr in Eip. rewrite Hx in Eip. by injection Eip as <-.
  - destruct (is_empty (Host u)) eqn:Eh; [|done]. destruct (Host u) eqn:Eh'; [|done]. exfalso. apply Hne. unfold Hostname. by rewrite Eh'.
  - destruct (is_empty (Hostname u)) eqn:En; [by apply is_empty_true in En|]. cbn [negb andb]. intros -> Ht.
    unfold httpsClientForPinnedIP. destruct (Transport (client d)) as [|[v|]|]; [..|done]; eexists; (split; [reflexivity|]); [done| |done].
    case_bool_decide; lia.
Qed.

(** A pinned URL that would not parse is never requested. *)
Lemma attempts_silent d ep event r secret : url_parse (PinnedURL r) = None →
  ∀ budget k res, issues (λ c, ∀ q, c ≠ Post q) (attempts d ep event r secret budget k res).
Proof.
  intros Hp. induction budget as [|budget IH]; intros k res; cbn [attempts].
  - apply issues_bind; [by apply (issues_perform (R := answer))|done].
  - apply issues_bind.
    + case_bool_decide; [|done]. apply issues_bind; [by apply (issues_perform (R := answer))|]. intros g.
      by apply (issues_perform (R := answer) _ (Wait _)).
    + intros []; [|done]. cbn [negb]. unfold doHTTP. rewrite Hp. apply issues_bind; [done|].
      intros [s|err]; [|apply IH]. repeat case_bool_decide; try apply IH; (apply issues_bind; [by apply (issues_perform (R := answer))|done]).
Qed.

Lemma run_checked_snoc d event ep lookup rest c x :
  run_checked d event ep (Ev AskResolver lookup :: rest) →
  (∀ q, c = Post q → resolver_ok lookup → checked d event ep lookup q) →
  run_checked d event ep (Ev AskResolver lookup :: rest ++ [Ev c x]).
Proof.
  intros Hr Hc Hok. rewrite posts_app, Forall_app. split; [by apply Hr|].
  unfold posts. cbn [omap list_omap]. destruct c; cbn [post_of]; constructor; [|done]. by apply Hc.
Qed.

(** A resolution that succeeds with an address without a zone gives a URL that parses. *)
Lemma pinned_parses d ep lookup r : resolver_ok lookup → zone_free lookup →
  resolveAndValidateWebhookTarget LiveCtx lookup (ep_URL ep) (allowPrivateNetwork d) [] = Ok r → is_Some (url_parse (PinnedURL r)).
Proof.
  intros [Hb _] Hz Hr. unfold resolveAndValidateWebhookTarget, resolveAndValidateIP in Hr.
  destruct (negb _ || negb _)%bool; (destruct (ResolveAndValidate _ _ _ _) as [r'|] eqn:E; [|done]; injection Hr as ->;
    apply ResolveAndValidate_ok in E as (u & ip & x & Hu & (ips & Hips & Hin) & _ & _ & _ & _ & _ & _ & _ & Hp); [|done];
    apply Hp; specialize (Hz _ _ Hips); rewrite Forall_forall in Hz; by apply Hz).
Qed.

Lemma deliver_wp d event ep : follows_redirects (client d) = false → 0 < maxRetries d < MaxInt64 →
  wp (deliverToEndpoint d event ep) (run_checked d event ep) (run_outcome d ep) [].
Proof.
  intros Hf Hm. unfold deliverToEndpoint. apply wp_do; [done|]. intros lookup. cbn [app answer] in *.
  assert (run_checked d event ep [Ev AskResolver lookup]) as Hstart by (intros _; constructor).
  assert (∀ res, EndpointID res = ep_ID ep → Success res = false → Attempts res = 0 → is_Some (Error_ res) →
    wp (mret res) (run_checked d event ep) (run_outcome d ep) [Ev AskResolver lookup]) as Hend.
  { intros res ????. split; [done|]. intros _ _ _. by left. }
  destruct (resolveAndValidateWebhookTarget _ lookup _ _ _) as [r|e] eqn:Er; [|apply Hend; done].
  destruct (resolveSecret d (ep_Secret ep)) as [secret|e] eqn:Es; [|apply Hend; done].
  assert (Hn : wrap64 (maxRetries d + 1) = maxRetries d + 1) by (apply wrap64_id; unfold in_int64, MinInt64, MaxInt64 in *; lia).
  rewrite Hn. set (J := λ tr, ∃ rest, tr = Ev AskResolver lookup :: rest ∧ run_checked d event ep tr).
  apply (wp_keeps_mono _ J); [by intros t (rest & _ & Ht)|].
  destruct (url_parse (PinnedURL r)) as [pinned|] eqn:Ep.
  - eapply (wp_weaken _ J (done_with ep (Z.to_nat (maxRetries d + 1)))).
    { intros t res (rest & -> & _) Hd _ _ Hw. right. apply Hd. by constructor. }
    apply (attempts_wp d ep event r secret (Z.to_nat (maxRetries d + 1)) pinned Ep J) with (tr := [Ev AskResolver lookup]).
    + intros t c x (rest & -> & Ht) Hc. exists (rest ++ [Ev c x]). split; [done|]. apply run_checked_snoc; [done|].
      intros q Hq Hok. rewrite (Hc q Hq). by apply target_checked.
    + by exists [].
    + intros _. constructor; try done. simpl. set_solver.
    + done.
  - eapply wp_weaken; [|apply (issues_wp (λ c, ∀ q, c ≠ Post q)); [|by apply attempts_silent|by exists []]].
    + intros t res (rest & -> & _) _ Hok Hz. destruct (pinned_parses d ep lookup r Hok Hz Er) as [? E]. by rewrite Ep in E.
    + intros t c x (rest & -> & Ht) Hc. exists (rest ++ [Ev c x]). split; [done|]. apply run_checked_snoc; [done|].
      intros q Hq. by destruct (Hc q).
Qed.
End delivery.

(** ** All endpoints at once *)

Section fan.
Context `{HN : NetLaws} (d : Deliverer) (event : Event).
Context (Hf : follows_redirects (client d) = false) (Hm : 0 < maxRetries d < MaxInt64).

(** A goroutine somewhere in its delivery. *)
Definition delivering (ep : Endpoint) (t : thread answer DeliveryResult) : Prop :=
  wp (th_rest t) (run_checked d event ep) (run_outcome d ep) (th_trace t).

Record fan_ok (active : list Endpoint) (f : fan) : Prop := {
  fo_threads : ∃ started, active = started ++ fan_waiting f ∧ Forall2 delivering started (fan_threads f);
  fo_cap : Z.of_nat (in_flight f) ≤ Z.max 0 (maxConc d);
}.

Lemma advance_delivering ep t answers : delivering ep t →
  delivering ep (answered answers t).
Proof using Type.
  unfold delivering, answered, advance. destruct (th_rest t) as [a|c k] eqn:E; [intros Ht; cbn [fst]; by rewrite E|].
  intros [_ Hk]. cbn. apply Hk.
Qed.

Lemma finished_advance t answers : finished t = true → answered answers t = t.
Proof using Type. unfold finished, answered, advance. by destruct (th_rest t). Qed.

Lemma in_flight_insert (ts : list (thread answer DeliveryResult)) i t t' : ts !! i = Some t → (finished t = true → finished t' = true) →
  (length (List.filter (λ t, negb (finished t)) (<[i := t']> ts)) ≤ length (List.filter (λ t, negb (finished t)) ts))%nat.
Proof using Type.
  revert i. induction ts as [|u ts IH]; intros [|i] E Ht; simplify_eq/=.
  - destruct (finished t), (finished t'); simpl; try lia; by specialize (Ht eq_refl).
  - specialize (IH i E Ht). destruct (negb (finished u)); simpl; lia.
Qed.

Lemma fan_step_ok active f m : fan_ok active f → fan_ok active (fan_step d event f m).
Proof using HN Hf Hm.
  intros [(st & E & Ht) Hc]. destruct m as [|i answers]; cbn [fan_step].
  - destruct (fan_waiting f) as [|ep rest] eqn:Ew; [constructor; [exists st; by rewrite Ew|done]|].
    case_bool_decide as Hcap; [|constructor; [exists st; by rewrite Ew|done]]. constructor; cbn [fan_waiting fan_threads].
    + exists (st ++ [ep]). split; [by rewrite <- app_assoc|]. apply Forall2_app; [done|]. constructor; [|constructor].
      by apply deliver_wp.
    + unfold in_flight in *. cbn [fan_threads]. rewrite List.filter_app, length_app. cbn [List.filter].
      destruct (negb _); simpl; lia.
  - destruct (fan_threads f !! i) as [t|] eqn:Ei; [|constructor; [by exists st|done]]. constructor; cbn [fan_waiting fan_threads].
    + exists st. split; [done|]. destruct (Forall2_lookup_r _ _ _ _ _ Ht Ei) as (ep & He & Hd).
      rewrite <- (list_insert_id st i ep He). apply Forall2_insert; [done|]. by apply advance_delivering.
    + unfold in_flight in *. cbn [fan_threads]. etrans; [|exact Hc]. apply Nat2Z.inj_le. apply (in_flight_insert _ _ t); [done|].
      intros Hfin. by rewrite finished_advance.
Qed.

Lemma fanOut_ok active moves : fan_ok active (fanOut d event active moves).
Proof using HN Hf Hm.
  unfold fanOut. assert (fan_ok active {| fan_waiting := active; fan_threads := [] |}) as H0'.
  { constructor; [by exists []|]. unfold in_flight. simpl. lia. }
  revert H0'. generalize {| fan_waiting := active; fan_threads := [] |} as f. induction moves as [|m moves IH]; intros f Hok; [done|].
  cbn [fold_left]. by apply IH, fan_step_ok.
Qed.
End fan.


(** the result of a delivery says what happened: it was refused before any
    request, or the requests are at most one more than the retries, each but the
    last was answered by a failed transport, a server error or 429, the status is
    that of the last one, success is a last status of 2xx, and a delivery without
    success has used its retries unless the last answer forbids them.  The error is
    absent exactly when the delivery succeeded without any failed transport. *)
Theorem webhook_delivery_outcome `{NetLaws} opts d event ep :
  Forall known_option opts → NewDeliverer false opts = Some d → maxRetries d < MaxInt64 →
  wp (deliverToEndpoint d event ep) (λ _, True) (run_outcome d ep) [].
Proof.
  intros Ho Hd Hm. destruct (NewDeliverer_sane opts d Ho Hd) as (H1 & H2 & _).
  eapply wp_keeps_mono; [|by apply deliver_wp]. done.
Qed.
