(* ===== verification/WebhookExample.v ===== *)
(** A concrete network for the webhook theorems: URLs of the form
    [scheme://host/path], dotted IPv4 addresses. *)

From stdpp Require Import base numbers list strings sets.
From S2P Require Import Prelude GoText GoBytes GoJSON Effects Backoff Ssrf Webhook WebhookDelivery.

Local Open Scope Z_scope.

Definition SLASH : Z := 47.

Definition octet (s : text) : option Z :=
  if (all_digits s && bool_decide (length s ≤ 3)%nat)%bool then
    match Atoi s with Some n => if bool_decide (0 ≤ n ≤ 255) then Some n else None | None => None end
  else None.

Definition parse_ip4 (s : text) : option addr :=
  match map octet (split_on DOT s) with
  | [Some a; Some b; Some c; Some d] => Some (IPv4 (ip4 a b c d))
  | _ => None
  end.

Definition parse_url (s : text) : option (URL (option text)) :=
  match split_first COLON s with
  | (scheme, Some (x :: y :: r)) =>
    if (bool_decide (x = SLASH) && bool_decide (y = SLASH))%bool then
      let '(host, path) := split_first SLASH r in Some {| Scheme := scheme; Host := host; u_rest := path |}
    else None
  | _ => None
  end.

Definition print_url (u : URL (option text)) : text :=
  Scheme u ++ COLON :: SLASH :: SLASH :: Host u ++ match u_rest u with Some p => SLASH :: p | None => [] end.

#[export] Instance plain_net : Net := {|
  url_rest := option text; url_parse := parse_url; url_string := print_url; ParseAddr := parse_ip4; ParseIP := parse_ip4 |}.

Lemma split_first_none c a : c ∉ a → split_first c a = (a, None).
Proof.
  induction a as [|r a IH]; cbn [split_first]; [done|]. rewrite not_elem_of_cons. intros [Hr Ha].
  rewrite bool_decide_false by congruence. by rewrite IH.
Qed.

Lemma split_first_fst c s : c ∉ (split_first c s).1.
Proof.
  induction s as [|r s IH]; cbn [split_first]; [by intros ?%not_elem_of_nil|]. case_bool_decide; [by intros ?%not_elem_of_nil|].
  destruct (split_first c s) as [a b]. cbn [fst] in *. rewrite not_elem_of_cons. split; [congruence|done].
Qed.

Lemma octet_range s n : octet s = Some n → 0 ≤ n ≤ 255 ∧ Forall (λ r, is_digit r = true) s.
Proof.
  unfold octet. destruct (all_digits s && _)%bool eqn:E; [|done]. apply andb_true_iff in E as [E _].
  destruct (Atoi s) as [m|]; [|done]. case_bool_decide; [|done]. intros [= <-]. split; [done|]. unfold all_digits in E. apply andb_true_iff in E as [_ E].
  apply Forall_forall. intros x Hx. rewrite forallb_forall in E. by apply E, list_elem_of_In.
Qed.

Lemma split_on_chars c s x : x ∈ s → x = c ∨ ∃ f, f ∈ split_on c s ∧ x ∈ f.
Proof.
  induction s as [|r s IH]; [by intros ?%not_elem_of_nil|]. rewrite elem_of_cons. intros [->|Hx]; cbn [split_on].
  - case_bool_decide; [by left|right]. destruct (split_on c s) as [|f fs]; eexists; (split; [by left|by left]).
  - destruct (IH Hx) as [|(f & Hf & Hxf)]; [by left|right]. case_bool_decide; [exists f; split; [by right|done]|].
    destruct (split_on c s) as [|g fs]; [by apply not_elem_of_nil in Hf|]. apply elem_of_cons in Hf as [->|Hf].
    + exists (r :: g). split; [by left|by right].
    + exists f. split; [by right|done].
Qed.

Lemma parse_ip4_ok s x : parse_ip4 s = Some x → s ≠ [] ∧ x ≠ InvalidAddr ∧ addr_ok x ∧ SLASH ∉ s.
Proof.
  unfold parse_ip4. destruct (split_on DOT s) as [|f1 [|f2 [|f3 [|f4 [|? ?]]]]] eqn:E; try done; cbn [map]; repeat case_match; try done.
  intros [= <-]. repeat match goal with Ho : octet _ = Some _ |- _ => apply octet_range in Ho as [? ?] end.
  split_and!; [intros ->; discriminate E|done|cbn [addr_ok]; unfold ip4; lia|].
  intros Hin. apply (split_on_chars DOT) in Hin as [?|(f & Hf & Hx)]; [done|]. rewrite E in Hf.
  rewrite !elem_of_cons, elem_of_nil in Hf.
  assert (∀ g, Forall (λ r, is_digit r = true) g → SLASH ∈ g → False) as Hg
    by (intros g Hg Hs; rewrite Forall_forall in Hg; apply Hg in Hs; done).
  naive_solver.
Qed.

Lemma pinned_host_reparses raw u ip : parse_url raw = Some u → is_Some (parse_ip4 ip) →
  ∃ u', parse_url (print_url {| Scheme := Scheme u; Host := pinned_host ip (Port u); u_rest := u_rest u |}) = Some u' ∧
    Scheme u' = Scheme u ∧ Host u' = pinned_host ip (Port u).
Proof.
  intros Hu [x Hx]. set (host := pinned_host ip (Port u)).
  assert (SLASH ∉ host) as Hh.
  { intros Hin. unfold host in Hin. assert (SLASH ∉ ip) as Hi by (by apply parse_ip4_ok in Hx as (_ & _ & _ & ?)).
    assert (SLASH ∉ Port u) as Hp.
    { intros Hp. pose proof (Port_digits u) as Hd. rewrite forallb_forall in Hd. apply list_elem_of_In, Hd in Hp. done. }
    unfold pinned_host, JoinHostPort in Hin. change (txt "[") with [91] in Hin. change (txt "]") with [93] in Hin.
    repeat case_match; unfold SLASH, COLON in *; set_solver. }
  unfold parse_url in Hu. pose proof (split_first_fst COLON raw) as Hc. destruct (split_first COLON raw) as [scheme [[|a [|b r]]|]]; try done.
  destruct (bool_decide _ && bool_decide _)%bool; [|done]. destruct (split_first SLASH r) as [h p]. injection Hu as <-. cbn [Scheme u_rest fst] in *.
  unfold parse_url, print_url. cbn [Scheme Host u_rest]. rewrite split_first_app by done. rewrite !bool_decide_true by done. cbn [andb].
  destruct p as [p|]; [rewrite split_first_app by done|rewrite app_nil_r, split_first_none by done]; by eexists.
Qed.

#[export] Instance plain_net_laws : NetLaws.
Proof.
  constructor.
  - intros raw u ip u' Hu _ Hx E. destruct (pinned_host_reparses raw u ip Hu Hx) as (u1 & E1 & H1 & H2).
    assert (Some u1 = Some u') as [= <-] by (etrans; [symmetry; exact E1|exact E]). done.
  - intros raw u ip Hu _ Hx _. destruct (pinned_host_reparses raw u ip Hu Hx) as (u1 & E1 & _). by exists u1.
  - intros s x Hs. apply parse_ip4_ok in Hs as (? & ? & ? & _). done.
  - done.
Qed.

(** ** A delivery *)

Definition sample_deliverer : Deliverer :=
  {| client := {| Transport := HttpTransport (Some 0); follows_redirects := false |}; decryptor := None; maxConc := 2; maxRetries := 3; sigVersion := SignatureV1; allowPrivateNetwork := false |}.

Definition sample_options : list Webhook.Option_ :=
  [WithMaxConcurrency 2; WithHTTPClient (Some {| Transport := HttpTransport (Some 0); follows_redirects := true |}); WithSignatureVersion SignatureV1].

Definition sample_event : Event := {| ev_Type := txt "order.created"; ev_Payload := txt "{}"; ev_Timestamp := 1700000000 |}.

Definition sample_endpoint : Endpoint :=
  {| ep_ID := txt "ep-1"; ep_URL := txt "https://hooks.example.com:8443/in"; ep_Secret := txt "s3cret"; ep_Active := true |}.

Definition idle_endpoint : Endpoint :=
  {| ep_ID := txt "ep-2"; ep_URL := txt "https://hooks.example.com/in"; ep_Secret := []; ep_Active := false |}.

(** Names resolve to one public address, literals to themselves. *)
Definition sample_lookup (h : text) : option (list text) :=
  match parse_ip4 h with Some _ => Some [h] | None => Some [txt "93.184.216.34"] end.

Lemma sample_lookup_ok : resolver_ok sample_lookup.
Proof.
  assert (bracket_free (txt "93.184.216.34")) as Hp by (by apply (bool_decide_unpack _)).
  split.
  - intros h ips. unfold sample_lookup. destruct (parse_ip4 h) as [x|] eqn:E; intros [= <-]; apply Forall_singleton; [|done].
    apply Forall_forall. intros r Hr. unfold parse_ip4 in E.
    assert (r = DOT ∨ is_digit r = true) as Hc.
    { apply (split_on_chars DOT) in Hr as [?|(f & Hf & Hx)]; [by left|right].
      destruct (split_on DOT h) as [|f1 [|f2 [|f3 [|f4 [|? ?]]]]]; try done; cbn [map] in E; repeat case_match; try done.
      repeat match goal with Ho : octet _ = Some _ |- _ => apply octet_range in Ho as [_ ?] end.
      rewrite !elem_of_cons, elem_of_nil in Hf.
      assert (∀ g, Forall (λ r, is_digit r = true) g → r ∈ g → is_digit r = true) as Hg by (intros g Hg Hs; rewrite Forall_forall in Hg; by apply Hg).
      naive_solver. }
    destruct Hc as [->|Hc]; [done|]. unfold is_digit in Hc. apply bool_decide_eq_true in Hc. lia.
  - intros h x E. unfold sample_lookup. cbn [ParseIP plain_net] in E. by rewrite E.
Qed.

Definition sample_answers (status : option Z) (c : cmd) : answer c :=
  match c with
  | AskResolver => sample_lookup
  | AskEntropy => {| rand_int := λ _, Some 0; rand_read := None; pcg_int64n := λ _ _, 0 |}
  | Wait _ => true
  | Post _ => status
  | RecordDelivery _ _ _ _ => tt
  end.

(** The first request fails in transport, the second one is answered. *)
Definition sample_moves : list fan_move :=
  Spawn :: Spawn :: replicate 2 (Advance 0 (sample_answers None)) ++ replicate 4 (Advance 0 (sample_answers (Some 204))).

Definition sample_fan : fan := fanOut sample_deliverer sample_event (filterActive [sample_endpoint; idle_endpoint]) sample_moves.

(** The delivery succeeded, and still reports the error of its first attempt. *)
Example delivered_with_stale_error :
  map fan_result (fan_threads sample_fan) =
  [Some {| EndpointID := txt "ep-1"; StatusCode := 204; Success := true; Error_ := Some HttpRequest; Attempts := 2 |}].
Proof. vm_compute. reflexivity. Qed.

Example requests_of_sample :
  map (λ t, map (λ qa, (rq_url qa.1, rq_host qa.1)) (posts (th_trace t))) (fan_threads sample_fan) =
  [replicate 2 (txt "https://93.184.216.34:8443/in", txt "hooks.example.com:8443")].
Proof. vm_compute. reflexivity. Qed.

Lemma sample_known : Forall known_option sample_options.
Proof. repeat constructor. Qed.


Lemma webhook_delivery_outcome_witness :
  wp (deliverToEndpoint sample_deliverer sample_event sample_endpoint) (λ _, True) (run_outcome sample_deliverer sample_endpoint) [].
Proof. apply (webhook_delivery_outcome sample_options); [apply sample_known|reflexivity|done]. Defined.

Definition sample_signature : text := Eval vm_compute in computeHMACv1 (txt "{}") 1700000000 (txt "s3cret").

Lemma webhook_signature_binds_witness :
  verifySignatureV1WithFreshnessAt (txt "{}") 1700000000 (txt "s3cret") sample_signature (5 * Minute) (time_unix 1700000100) = Ok tt ∧
  time_unix 1700000100 - 5 * Minute ≤ time_unix 1700000000 ≤ time_unix 1700000100 + 5 * Minute ∧
  ((SignatureV1, txt "{}", 1700000000) ∈ [(SignatureV0, txt "[]", 5); (SignatureV1, txt "{}", 1700000000)] ∨
   forged_signature (txt "s3cret") [(SignatureV0, txt "[]", 5); (SignatureV1, txt "{}", 1700000000)] sample_signature).
Proof.
  assert (Hv : verifySignatureV1WithFreshnessAt (txt "{}") 1700000000 (txt "s3cret") sample_signature (5 * Minute) (time_unix 1700000100) = Ok tt)
    by (vm_compute; reflexivity).
  split; [exact Hv|].
  apply (webhook_signature_binds (txt "s3cret") [(SignatureV0, txt "[]", 5); (SignatureV1, txt "{}", 1700000000)] (txt "{}") 1700000000
           sample_signature (5 * Minute) (time_unix 1700000100)); [by split| |done|exact Hv].
  repeat constructor; (done || by split).
Defined.
