(* ===== verification/Transaction.v ===== *)
(** Transaction planning and posting: [transaction/transaction.go] and
    [transaction/validations.go].  Decimals are the interface of [Decimal];
    [D] is the decimal type and [M] the type of a balance's metadata values.

    A [DomainError] is modelled by its code and field; the human-readable
    message is left out. *)

From stdpp Require Import base numbers list gmap strings pretty.
From Stdlib Require Import QArith Lqa Lia.
From S2P Require Import Prelude GoText Decimal Safe.

Local Open Scope Z_scope.
Local Open Scope go_scope.

(** ** Data *)

Definition OperationDebit : text := txt "DEBIT".
Definition OperationCredit : text := txt "CREDIT".
Definition OperationOnHold : text := txt "ON_HOLD".
Definition OperationRelease : text := txt "RELEASE".

Definition StatusCreated : text := txt "CREATED".
Definition StatusApproved : text := txt "APPROVED".
Definition StatusPending : text := txt "PENDING".
Definition StatusCanceled : text := txt "CANCELED".

Definition AccountTypeInternal : text := txt "internal".
Definition AccountTypeExternal : text := txt "external".

Inductive ErrorCode :=
| ErrorInsufficientFunds
| ErrorAccountIneligibility
| ErrorAccountStatusTransactionRestriction
| ErrorAssetCodeNotFound
| ErrorTransactionValueMismatch
| ErrorTransactionAmbiguous
| ErrorOnHoldExternalAccount
| ErrorDataCorruption
| ErrorInvalidInput
| ErrorInvalidStateTransition
| ErrorCrossScope.

#[export] Instance ErrorCode_eq_dec : EqDecision ErrorCode.
Proof. solve_decision. Defined.

Record DomainError := NewDomainError { Code : ErrorCode; Field : text }.

Record LedgerTarget := { AccountID : text; BalanceID : text }.

(** [fmt.Sprintf("%s[%d]", side, i)] *)
Definition indexed (side : text) (i : nat) : text :=
  side ++ txt "[" ++ txt (pretty i) ++ txt "]".

Definition validate (t : LedgerTarget) (field : text) : result DomainError unit :=
  if is_empty (TrimSpace (AccountID t)) then Err (NewDomainError ErrorInvalidInput (field ++ txt ".accountId"))
  else if is_empty (TrimSpace (BalanceID t)) then Err (NewDomainError ErrorInvalidInput (field ++ txt ".balanceId"))
  else Ok tt.

Section Transaction.
Context {D : Type} `{DecimalOps D}.
Context {M : Type}.

Record Balance := {
  bID : text;
  bOrganizationID : text;
  bLedgerID : text;
  bAccountID : text;
  bAsset : text;
  bAvailable : D;
  bOnHold : D;
  bVersion : Z;
  bAccountType : text;
  bAllowSending : bool;
  bAllowReceiving : bool;
  bCreatedAt : gotime;
  bUpdatedAt : gotime;
  bDeletedAt : option gotime;
  bMetadata : option M;
}.

Definition set_amounts (b : Balance) (available onHold : D) : Balance :=
  {| bID := bID b; bOrganizationID := bOrganizationID b; bLedgerID := bLedgerID b;
     bAccountID := bAccountID b; bAsset := bAsset b;
     bAvailable := available; bOnHold := onHold;
     bVersion := bVersion b; bAccountType := bAccountType b;
     bAllowSending := bAllowSending b; bAllowReceiving := bAllowReceiving b;
     bCreatedAt := bCreatedAt b; bUpdatedAt := bUpdatedAt b; bDeletedAt := bDeletedAt b;
     bMetadata := bMetadata b |}.

Definition set_version (b : Balance) (version : Z) : Balance :=
  {| bID := bID b; bOrganizationID := bOrganizationID b; bLedgerID := bLedgerID b;
     bAccountID := bAccountID b; bAsset := bAsset b;
     bAvailable := bAvailable b; bOnHold := bOnHold b;
     bVersion := version; bAccountType := bAccountType b;
     bAllowSending := bAllowSending b; bAllowReceiving := bAllowReceiving b;
     bCreatedAt := bCreatedAt b; bUpdatedAt := bUpdatedAt b; bDeletedAt := bDeletedAt b;
     bMetadata := bMetadata b |}.

Record Allocation := {
  aTarget : LedgerTarget;
  aAmount : option D;
  aShare : option D;
  aRemainder : bool;
  aRoute : text;
}.

Record TransactionIntentInput := {
  iAsset : text;
  iTotal : D;
  iPending : bool;
  iSources : list Allocation;
  iDestinations : list Allocation;
}.

Record Posting := {
  pTarget : LedgerTarget;
  pAsset : text;
  pAmount : D;
  pOperation : text;
  pStatus : text;
  pRoute : text;
}.

Definition set_amount (p : Posting) (amount : D) : Posting :=
  {| pTarget := pTarget p; pAsset := pAsset p; pAmount := amount;
     pOperation := pOperation p; pStatus := pStatus p; pRoute := pRoute p |}.

Record IntentPlan := {
  plAsset : text;
  plTotal : D;
  plPending : bool;
  plSources : list Posting;
  plDestinations : list Posting;
}.

(** ** Planning *)

Definition oneHundred : D := dof_int 100.

Definition checkBounds (value : D) (field : text) : result DomainError unit :=
  match CheckDecimal value with
  | Err _ => Err (NewDomainError ErrorInvalidInput field)
  | Ok _ => Ok tt
  end.

Definition ResolveOperation (pending isSource : bool) (status : text) : result DomainError text :=
  if pending then
    if (status =t StatusPending) then Ok (if isSource then OperationOnHold else OperationCredit)
    else if (status =t StatusCanceled) then Ok (if isSource then OperationRelease else OperationDebit)
    else if (status =t StatusApproved) then Ok (if isSource then OperationDebit else OperationCredit)
    else Err (NewDomainError ErrorInvalidStateTransition (txt "status"))
  else
    if (status =t StatusCreated) then Ok (if isSource then OperationDebit else OperationCredit)
    else Err (NewDomainError ErrorInvalidStateTransition (txt "status")).

Definition validateAllocationStrategy (a : Allocation) (field : text) : result DomainError unit :=
  let strategyCount :=
    (if aAmount a is Some _ then 1 else 0) + (if aShare a is Some _ then 1 else 0)
    + (if aRemainder a then 1 else 0) in
  if bool_decide (strategyCount ≠ 1) then Err (NewDomainError ErrorInvalidInput field) else Ok tt.

(** The amount, and whether the allocation takes the remainder. *)
Definition resolveAllocationAmount (total : D) (a : Allocation) (field : text)
    : result DomainError (D * bool) :=
  match aAmount a with
  | Some amount =>
      _ ← checkBounds amount (field ++ txt ".amount");
      if negb (dis_positive amount) then Err (NewDomainError ErrorInvalidInput (field ++ txt ".amount"))
      else Ok (amount, false)
  | None =>
      match aShare a with
      | Some share =>
          _ ← checkBounds share (field ++ txt ".share");
          if (negb (dis_positive share) || dgreater share oneHundred)%bool
          then Err (NewDomainError ErrorInvalidInput (field ++ txt ".share"))
          else
            let amount := dmul total (ddiv share oneHundred) in
            if negb (dis_positive amount)
            then Err (NewDomainError ErrorInvalidInput (field ++ txt ".share"))
            else Ok (amount, false)
      | None =>
          if aRemainder a then Ok (dzero, true)
          else Err (NewDomainError ErrorInvalidInput field)
      end
  end.

Definition buildPostingFromAllocation (asset : text) (total : D) (pending : bool) (status : text)
    (isSource : bool) (a : Allocation) (field : text) : result DomainError (Posting * D * bool) :=
  _ ← validate (aTarget a) (field ++ txt ".target");
  _ ← validateAllocationStrategy a field;
  operation ← ResolveOperation pending isSource status;
  let posting := {| pTarget := aTarget a; pAsset := asset; pAmount := dzero;
                    pOperation := operation; pStatus := status; pRoute := aRoute a |} in
  '(amount, usesRemainder) ← resolveAllocationAmount total a field;
  if (usesRemainder : bool) then Ok (posting, dzero, true)
  else Ok (set_amount posting amount, amount, false).

Definition computeRemainderAllocation (total allocated : D) : result DomainError D :=
  let remainder := dsub total allocated in
  if negb (dis_positive remainder)
  then Err (NewDomainError ErrorTransactionValueMismatch (txt "allocations"))
  else Ok remainder.

Definition validateAllocatedTotal (allocated total : D) : result DomainError unit :=
  if negb (dequal allocated total)
  then Err (NewDomainError ErrorTransactionValueMismatch (txt "allocations"))
  else Ok tt.

(** State of the allocation loop: postings built so far, the total allocated
    and the index of the remainder allocation (-1: none). *)
Fixpoint build_loop (asset : text) (total : D) (pending : bool) (status side : text)
    (isSource : bool) (i : nat) (allocations : list Allocation)
    (postings : list Posting) (allocated : D) (remainderIndex : Z)
    : result DomainError (list Posting * D * Z) :=
  match allocations with
  | [] => Ok (postings, allocated, remainderIndex)
  | a :: rest =>
      let field := indexed side i in
      '(posting, amount, usesRemainder) ←
        buildPostingFromAllocation asset total pending status isSource a field;
      let postings := postings ++ [posting] in
      if (usesRemainder : bool) then
        if bool_decide (0 ≤ remainderIndex)
        then Err (NewDomainError ErrorInvalidInput (field ++ txt ".remainder"))
        else build_loop asset total pending status side isSource (S i) rest postings allocated (Z.of_nat i)
      else build_loop asset total pending status side isSource (S i) rest postings
             (dadd allocated amount) remainderIndex
  end.

Definition buildPostings (asset : text) (total : D) (pending : bool) (status : text)
    (allocations : list Allocation) (isSource : bool) : result DomainError (list Posting) :=
  let side := if isSource then txt "sources" else txt "destinations" in
  '(postings, allocated, remainderIndex) ←
    build_loop asset total pending status side isSource 0 allocations [] dzero (-1);
  if bool_decide (0 ≤ remainderIndex) then
    remainder ← computeRemainderAllocation total allocated;
    let postings := alter (λ p, set_amount p remainder) (Z.to_nat remainderIndex) postings in
    _ ← validateAllocatedTotal (dadd allocated remainder) total;
    Ok postings
  else
    _ ← validateAllocatedTotal allocated total;
    Ok postings.

Definition sumPostings (postings : list Posting) : D :=
  fold_left (λ total p, dadd total (pAmount p)) postings dzero.

Definition BuildIntentPlan (input : TransactionIntentInput) (status : text)
    : result DomainError IntentPlan :=
  if is_empty (TrimSpace (iAsset input)) then Err (NewDomainError ErrorInvalidInput (txt "asset")) else
  _ ← checkBounds (iTotal input) (txt "total");
  if negb (dis_positive (iTotal input)) then Err (NewDomainError ErrorInvalidInput (txt "total")) else
  if bool_decide (length (iSources input) = 0%nat) then Err (NewDomainError ErrorInvalidInput (txt "sources")) else
  if bool_decide (length (iDestinations input) = 0%nat) then Err (NewDomainError ErrorInvalidInput (txt "destinations")) else
  sources ← buildPostings (iAsset input) (iTotal input) (iPending input) status (iSources input) true;
  destinations ← buildPostings (iAsset input) (iTotal input) (iPending input) status (iDestinations input) false;
  let sourceTotal := sumPostings sources in
  let destinationTotal := sumPostings destinations in
  if (negb (dequal sourceTotal (iTotal input)) || negb (dequal destinationTotal (iTotal input)))%bool
  then Err (NewDomainError ErrorTransactionValueMismatch (txt "total")) else
  let sourceIDs := map (λ p, BalanceID (pTarget p)) sources in
  if existsb (λ p, bool_decide (BalanceID (pTarget p) ∈ sourceIDs)) destinations
  then Err (NewDomainError ErrorTransactionAmbiguous (txt "destinations")) else
  Ok {| plAsset := iAsset input; plTotal := iTotal input; plPending := iPending input;
        plSources := sources; plDestinations := destinations |}.

(** ** Eligibility *)

(** [validateScope], with the two reference strings as threaded state. *)
Definition validateScope (ref : text * text) (b : Balance) (field : text)
    : result DomainError (text * text) :=
  let '(refOrgID, refLedgerID) := ref in
  if (negb (is_empty (bOrganizationID b)) || negb (is_empty (bLedgerID b)))%bool then
    if (is_empty refOrgID && is_empty refLedgerID)%bool
    then Ok (bOrganizationID b, bLedgerID b)
    else if negb (bOrganizationID b =t refOrgID) then Err (NewDomainError ErrorCrossScope field)
    else if negb (bLedgerID b =t refLedgerID) then Err (NewDomainError ErrorCrossScope field)
    else Ok ref
  else Ok ref.

Definition validateSourcePosting (plan : IntentPlan) (posting : Posting) (balances : gmap text Balance)
    (ref : text * text) : result DomainError (text * text) :=
  let field := txt "sources" in
  match balances !! BalanceID (pTarget posting) with
  | None => Err (NewDomainError ErrorAccountIneligibility field)
  | Some b =>
      if negb (bAccountID b =t AccountID (pTarget posting))
      then Err (NewDomainError ErrorAccountIneligibility field) else
      ref ← validateScope ref b field;
      if negb (bAsset b =t plAsset plan) then Err (NewDomainError ErrorAssetCodeNotFound field) else
      if negb (bAllowSending b) then Err (NewDomainError ErrorAccountStatusTransactionRestriction field) else
      _ ← checkBounds (pAmount posting) field;
      if (bAllowSending b && dless (bAvailable b) (pAmount posting))%bool
      then Err (NewDomainError ErrorInsufficientFunds field) else
      if (plPending plan && (bAccountType b =t AccountTypeExternal))%bool
      then Err (NewDomainError ErrorOnHoldExternalAccount field) else
      Ok ref
  end.

Definition validateExternalDestinationBalance (b : Balance) : result DomainError unit :=
  if negb (bAccountType b =t AccountTypeExternal) then Ok tt
  else if dis_negative (bAvailable b) then Err (NewDomainError ErrorDataCorruption (txt "balance"))
  else if dis_positive (bAvailable b) then Err (NewDomainError ErrorInsufficientFunds (txt "destinations"))
  else Ok tt.

Definition validateDestinationPosting (plan : IntentPlan) (posting : Posting)
    (balances : gmap text Balance) (ref : text * text) : result DomainError (text * text) :=
  let field := txt "destinations" in
  match balances !! BalanceID (pTarget posting) with
  | None => Err (NewDomainError ErrorAccountIneligibility field)
  | Some b =>
      if negb (bAccountID b =t AccountID (pTarget posting))
      then Err (NewDomainError ErrorAccountIneligibility field) else
      ref ← validateScope ref b field;
      if negb (bAsset b =t plAsset plan) then Err (NewDomainError ErrorAssetCodeNotFound field) else
      if negb (bAllowReceiving b) then Err (NewDomainError ErrorAccountStatusTransactionRestriction field) else
      _ ← validateExternalDestinationBalance b;
      Ok ref
  end.

Fixpoint validate_postings
    (check : Posting → text * text → result DomainError (text * text))
    (postings : list Posting) (ref : text * text) : result DomainError (text * text) :=
  match postings with
  | [] => Ok ref
  | p :: rest => ref ← check p ref; validate_postings check rest ref
  end.

Definition ValidateBalanceEligibility (plan : IntentPlan) (balances : gmap text Balance)
    : result DomainError unit :=
  if bool_decide (size balances = 0%nat)
  then Err (NewDomainError ErrorAccountIneligibility (txt "balances")) else
  ref ← validate_postings (λ p, validateSourcePosting plan p balances) (plSources plan) ([], []);
  _ ← validate_postings (λ p, validateDestinationPosting plan p balances) (plDestinations plan) ref;
  Ok tt.

(** ** Posting *)

Definition validatePostingAgainstBalance (b : Balance) (p : Posting) : result DomainError unit :=
  _ ← validate (pTarget p) (txt "posting.target");
  if negb (bID b =t BalanceID (pTarget p))
  then Err (NewDomainError ErrorAccountIneligibility (txt "posting.target.balanceId")) else
  if negb (bAccountID b =t AccountID (pTarget p))
  then Err (NewDomainError ErrorAccountIneligibility (txt "posting.target.accountId")) else
  if negb (bAsset b =t pAsset p)
  then Err (NewDomainError ErrorAssetCodeNotFound (txt "posting.asset")) else
  _ ← checkBounds (pAmount p) (txt "posting.amount");
  if negb (dis_positive (pAmount p))
  then Err (NewDomainError ErrorInvalidInput (txt "posting.amount")) else
  Ok tt.

Definition status_error : result DomainError Balance :=
  Err (NewDomainError ErrorInvalidStateTransition (txt "posting.status")).

Definition applyOnHold (b : Balance) (p : Posting) : result DomainError Balance :=
  if negb (pStatus p =t StatusPending) then status_error
  else Ok (set_amounts b (dsub (bAvailable b) (pAmount p)) (dadd (bOnHold b) (pAmount p))).

Definition applyRelease (b : Balance) (p : Posting) : result DomainError Balance :=
  if negb (pStatus p =t StatusCanceled) then status_error
  else Ok (set_amounts b (dadd (bAvailable b) (pAmount p)) (dsub (bOnHold b) (pAmount p))).

Definition applyDebit (b : Balance) (p : Posting) : result DomainError Balance :=
  if (pStatus p =t StatusApproved)
  then Ok (set_amounts b (bAvailable b) (dsub (bOnHold b) (pAmount p)))
  else if ((pStatus p =t StatusCreated) || (pStatus p =t StatusCanceled))%bool
  then Ok (set_amounts b (dsub (bAvailable b) (pAmount p)) (bOnHold b))
  else status_error.

Definition applyCredit (b : Balance) (p : Posting) : result DomainError Balance :=
  if ((pStatus p =t StatusCreated) || (pStatus p =t StatusApproved) || (pStatus p =t StatusPending))%bool
  then Ok (set_amounts b (dadd (bAvailable b) (pAmount p)) (bOnHold b))
  else status_error.

Definition applyPostingOperation (b : Balance) (p : Posting) : result DomainError Balance :=
  if (pOperation p =t OperationOnHold) then applyOnHold b p
  else if (pOperation p =t OperationRelease) then applyRelease b p
  else if (pOperation p =t OperationDebit) then applyDebit b p
  else if (pOperation p =t OperationCredit) then applyCredit b p
  else Err (NewDomainError ErrorInvalidInput (txt "posting.operation")).

Definition validatePostingResult (b : Balance) : result DomainError unit :=
  if dis_negative (bAvailable b) then Err (NewDomainError ErrorInsufficientFunds (txt "posting.amount"))
  else if dis_negative (bOnHold b) then Err (NewDomainError ErrorInsufficientFunds (txt "posting.amount"))
  else Ok tt.

Definition ApplyPosting (balance : Balance) (posting : Posting) : result DomainError Balance :=
  _ ← validatePostingAgainstBalance balance posting;
  updated ← applyPostingOperation balance posting;
  _ ← validatePostingResult updated;
  Ok (set_version updated (wrap64 (bVersion updated + 1))).
End Transaction.

Arguments Balance D M : clear implicits.
Arguments Allocation D : clear implicits.
Arguments TransactionIntentInput D : clear implicits.
Arguments Posting D : clear implicits.
Arguments IntentPlan D : clear implicits.

(** ** Specification of plans and effects *)

Section spec.
Context {D : Type} `{DecimalOps D, DecimalDenotation D}.
Context {M : Type}.
Local Open Scope Q_scope.

Definition amount (p : Posting D) : Q := dval (pAmount p).

Definition qsum (ps : list (Posting D)) : Q := foldr (λ p acc, amount p + acc) 0 ps.

Definition target_ok (t : LedgerTarget) : Prop :=
  TrimSpace (AccountID t) ≠ [] ∧ TrimSpace (BalanceID t) ≠ [].

(** A posting of one side of a plan, apart from its amount. *)
Record posting_ok (asset : text) (pending isSource : bool) (status : text) (p : Posting D) : Prop := {
  po_target : target_ok (pTarget p);
  po_asset : pAsset p = asset;
  po_status : pStatus p = status;
  po_operation : ResolveOperation pending isSource status = Ok (pOperation p);
}.

(** One side of a plan: a posting per allocation, in order, all amounts
    positive, adding up to the total. *)
Record side_ok (asset : text) (total : D) (pending isSource : bool) (status : text)
    (allocs : list (Allocation D)) (ps : list (Posting D)) : Prop := {
  so_postings : Forall (posting_ok asset pending isSource status) ps;
  so_positive : Forall (λ p, 0 < amount p) ps;
  so_sum : qsum ps == dval total;
  so_targets : Forall2 (λ a p, pTarget p = aTarget a ∧ pRoute p = aRoute a) allocs ps;
}.

Record plan_ok (input : TransactionIntentInput D) (status : text) (plan : IntentPlan D) : Prop := {
  pk_asset : plAsset plan = iAsset input ∧ TrimSpace (plAsset plan) ≠ [];
  pk_total : plTotal plan = iTotal input ∧ 0 < dval (plTotal plan);
  pk_pending : plPending plan = iPending input;
  pk_sources : side_ok (iAsset input) (iTotal input) (iPending input) true status
                 (iSources input) (plSources plan) ∧ plSources plan ≠ [];
  pk_destinations : side_ok (iAsset input) (iTotal input) (iPending input) false status
                 (iDestinations input) (plDestinations plan) ∧ plDestinations plan ≠ [];
  pk_disjoint : ∀ p q, p ∈ plSources plan → q ∈ plDestinations plan →
                 BalanceID (pTarget p) ≠ BalanceID (pTarget q);
}.

(** What a posting does to the money of its balance: the change of available
    and of on-hold funds. [None]: the pair of operation and status is refused. *)
Definition effect (operation status : text) (a : Q) : option (Q * Q) :=
  if (operation =t OperationOnHold) then
    if (status =t StatusPending) then Some (- a, a) else None
  else if (operation =t OperationRelease) then
    if (status =t StatusCanceled) then Some (a, - a) else None
  else if (operation =t OperationDebit) then
    if (status =t StatusApproved) then Some (0, - a)
    else if ((status =t StatusCreated) || (status =t StatusCanceled))%bool then Some (- a, 0)
    else None
  else if (operation =t OperationCredit) then
    if ((status =t StatusCreated) || (status =t StatusApproved) || (status =t StatusPending))%bool
    then Some (a, 0) else None
  else None.

(** Change of the money held (available plus on-hold) by all the balances a
    list of postings touches. *)
Definition net (ps : list (Posting D)) : Q :=
  foldr (λ p acc, match effect (pOperation p) (pStatus p) (amount p) with
                  | Some (da, dh) => da + dh + acc
                  | None => acc
                  end) 0 ps.

Definition plan_net (plan : IntentPlan D) : Q := net (plSources plan) + net (plDestinations plan).

Definition solvent (b : Balance D M) : Prop := 0 <= dval (bAvailable b) ∧ 0 <= dval (bOnHold b).
End spec.

(** ** Lemmas *)

Section lemmas.
Context {D : Type} `{DecimalOps D, DecimalDenotation D, !DecimalLaws D}.
Context {M : Type}.
Local Open Scope Q_scope.
Implicit Types (ps : list (Posting D)) (b : Balance D M).

Lemma validate_ok t f : validate t f = Ok tt ↔ target_ok t.
Proof.
  unfold validate, target_ok. rewrite <- !is_empty_false.
  destruct (is_empty (TrimSpace (AccountID t))), (is_empty (TrimSpace (BalanceID t))); naive_solver.
Qed.

Lemma fold_sum ps (z : D) :
  dval (fold_left (λ t p, dadd t (pAmount p)) ps z) == dval z + qsum ps.
Proof.
  revert z. induction ps as [|p ps IH]; intros z; simpl; [lra|].
  rewrite IH, dval_add. unfold amount. lra.
Qed.

Lemma sumPostings_val ps : dval (sumPostings ps) == qsum ps.
Proof. unfold sumPostings. rewrite fold_sum, dval_zero. lra. Qed.

Lemma qsum_app ps qs : qsum (ps ++ qs) == qsum ps + qsum qs.
Proof. induction ps as [|p ps IH]; simpl; [lra|]. rewrite IH. lra. Qed.

Lemma qsum_alter ps k p r :
  ps !! k = Some p →
  qsum (alter (λ q, set_amount q r) k ps) == qsum ps - amount p + dval r.
Proof.
  revert k. induction ps as [|q ps IH]; intros [|k] Hk; simplify_eq/=; try done.
  - unfold amount. simpl. lra.
  - rewrite (IH k Hk). lra.
Qed.

(** The invariant of the allocation loop. *)
Definition loop_inv (i : nat) ps (allocated : D) (rem : Z) : Prop :=
  length ps = i ∧ (-1 ≤ rem < Z.of_nat i)%Z ∧ dval allocated == qsum ps ∧
  ∀ k p, ps !! k = Some p → if bool_decide (Z.of_nat k = rem) then amount p == 0 else 0 < amount p.

Lemma resolveAllocationAmount_ok total a f amt u :
  resolveAllocationAmount total a f = Ok (amt, u) →
  if (u : bool) then True else 0 < dval amt.
Proof.
  unfold resolveAllocationAmount. intros Hr. inv_ok; simplify_eq/=; try done.
  all: bool_to_prop; by apply dis_positive_true.
Qed.

Lemma buildPosting_ok asset total pending status isSource a f p amt u :
  buildPostingFromAllocation asset total pending status isSource a f = Ok (p, amt, u) →
  posting_ok asset pending isSource status p ∧ pTarget p = aTarget a ∧ pRoute p = aRoute a ∧
  (if (u : bool) then amount p == 0 else 0 < amount p ∧ pAmount p = amt).
Proof.
  unfold buildPostingFromAllocation. intros Hb. inv_ok; simplify_eq/=;
    (match goal with Hr : resolveAllocationAmount _ _ _ = Ok _ |- _ =>
      apply resolveAllocationAmount_ok in Hr end);
    (split; [split; simpl; try done; destruct a0; by eapply validate_ok|]);
    unfold amount; simpl; [repeat split; apply dval_zero|by auto].
Qed.

Lemma build_loop_inv asset total pending status side isSource i allocs ps alloc rem ps' alloc' rem' :
  build_loop asset total pending status side isSource i allocs ps alloc rem = Ok (ps', alloc', rem') →
  loop_inv i ps alloc rem →
  ∃ qs, ps' = ps ++ qs ∧ loop_inv (i + length allocs) ps' alloc' rem' ∧
    Forall (posting_ok asset pending isSource status) qs ∧
    Forall2 (λ a p, pTarget p = aTarget a ∧ pRoute p = aRoute a) allocs qs.
Proof.
  revert i ps alloc rem. induction allocs as [|a allocs IH]; intros i ps alloc rem Hb Hinv; simpl in Hb.
  { simplify_eq. exists []. rewrite app_nil_r, Nat.add_0_r. by auto. }
  unfold mbind, result_bind in Hb.
  destruct (buildPostingFromAllocation _ _ _ _ _ _ _) as [[[p amt] u]|e] eqn:Hp; [|done].
  apply buildPosting_ok in Hp as (Hok & Ht & Hr & Hamt).
  destruct Hinv as (Hlen & Hrem & Hsum & Hall).
  assert (Hstep : ∃ alloc2 rem2,
    build_loop asset total pending status side isSource (S i) allocs (ps ++ [p]) alloc2 rem2
      = Ok (ps', alloc', rem') ∧ loop_inv (S i) (ps ++ [p]) alloc2 rem2).
  { destruct u; [destruct (bool_decide (0 <= rem)%Z) eqn:Hr0; [done|]; bool_to_prop|];
      (eexists _, _; split; [exact Hb|]); repeat split;
      try (rewrite length_app; simpl; lia); try lia.
    - rewrite qsum_app, Hsum. simpl. rewrite Hamt. lra.
    - intros k q Hk. apply lookup_app_Some in Hk as [Hk|[Hk1 Hk2]].
      + pose proof (lookup_lt_Some _ _ _ Hk). specialize (Hall _ _ Hk).
        rewrite bool_decide_false in Hall by lia. by rewrite bool_decide_false by lia.
      + apply list_lookup_singleton_Some in Hk2 as [? <-]. by rewrite bool_decide_true by lia.
    - destruct Hamt as [Hpos <-]. rewrite qsum_app, dval_add, Hsum. simpl. unfold amount. lra.
    - destruct Hamt as [Hpos Ha]. intros k q Hk. apply lookup_app_Some in Hk as [Hk|[Hk1 Hk2]].
      + by apply Hall.
      + apply list_lookup_singleton_Some in Hk2 as [? <-]. by rewrite bool_decide_false by lia. }
  destruct Hstep as (alloc2 & rem2 & Hb2 & Hinv2).
  destruct (IH _ _ _ _ Hb2 Hinv2) as (qs & -> & Hinv' & Hok' & H2).
  exists (p :: qs). rewrite <- app_assoc. split; [done|].
  replace (i + length (a :: allocs))%nat with (S i + length allocs)%nat by (simpl; lia).
  rewrite <- app_assoc in Hinv'. auto.
Qed.

Lemma buildPostings_side asset total pending status allocs isSource ps :
  buildPostings asset total pending status allocs isSource = Ok ps →
  side_ok asset total pending isSource status allocs ps.
Proof.
  unfold buildPostings, mbind, result_bind. intros Hb.
  destruct (build_loop _ _ _ _ _ _ _ _ _ _ _) as [[[qs alloc] rem]|] eqn:Hl; [|done].
  apply build_loop_inv in Hl as (qs' & -> & (Hlen & Hrem & Hsum & Hall) & Hok & H2).
  2:{ repeat split; simpl; try lia; [apply dval_zero|]. intros k p Hk. by rewrite lookup_nil in Hk. }
  simpl in *. destruct (bool_decide (0 <= rem)%Z) eqn:Hr; bool_to_prop.
  - unfold computeRemainderAllocation in Hb.
    destruct (negb (dis_positive _)) eqn:Hpos; [done|]. bool_to_prop. apply dis_positive_true in Hpos.
    unfold validateAllocatedTotal in Hb. destruct (negb _) eqn:Heq; [done|]. simplify_eq. bool_to_prop.
    apply dequal_true in Heq. rewrite dval_add in Heq.
    destruct (lookup_lt_is_Some_2 qs' (Z.to_nat rem)) as [p Hp]; [lia|].
    pose proof (Hall _ _ Hp) as H0p. rewrite bool_decide_true in H0p by lia.
    split.
    + apply Forall_alter; [done|]. intros x _ []. by split.
    + apply Forall_lookup. intros k q Hk. rewrite list_lookup_alter in Hk.
      destruct (decide (Z.to_nat rem = k)) as [<-|Hne].
      * rewrite Hp in Hk. simplify_eq/=. by unfold amount.
      * specialize (Hall _ _ Hk). by rewrite bool_decide_false in Hall by lia.
    + rewrite (qsum_alter _ _ _ _ Hp), <- Heq, Hsum. lra.
    + by apply Forall2_alter_r.
  - unfold validateAllocatedTotal in Hb. destruct (negb _) eqn:Heq; [done|]. simplify_eq. bool_to_prop.
    apply dequal_true in Heq. split; try done.
    + apply Forall_lookup. intros k q Hk. specialize (Hall _ _ Hk).
      by rewrite bool_decide_false in Hall by lia.
    + by rewrite <- Hsum.
Qed.

Lemma BuildIntentPlan_plan_ok input status plan :
  BuildIntentPlan input status = Ok plan → plan_ok input status plan.
Proof.
  unfold BuildIntentPlan. intros Hb. inv_ok.
  repeat match goal with Hp : buildPostings _ _ _ _ _ _ = Ok _ |- _ => apply buildPostings_side in Hp end.
  bool_to_prop.
  assert (Hne : ∀ isSource allocs ps, length allocs ≠ 0%nat →
    side_ok (iAsset input) (iTotal input) (iPending input) isSource status allocs ps → ps ≠ []).
  { intros isS allocs ps Hl Hs ->. destruct Hs as [_ _ _ Ht]. apply Forall2_length in Ht. by destruct allocs. }
  split; simpl; eauto.
  - split; [done|]. by apply is_empty_false.
  - split; [done|]. by apply dis_positive_true.
  - intros p q Hp Hq E. match goal with Hx : existsb _ _ = false |- _ => apply not_true_iff_false in Hx; apply Hx end.
    apply existsb_exists. exists q. rewrite <- list_elem_of_In. split; [done|].
    rewrite bool_decide_eq_true, <- E. apply list_elem_of_fmap. eauto.
Qed.

Lemma applyPostingOperation_effect b (p : Posting D) :
  match effect (pOperation p) (pStatus p) (amount p) with
  | Some (da, dh) => ∃ av oh, applyPostingOperation b p = Ok (set_amounts b av oh) ∧
      dval av == dval (bAvailable b) + da ∧ dval oh == dval (bOnHold b) + dh
  | None => ∃ e, applyPostingOperation b p = Err e
  end.
Proof.
  unfold effect, applyPostingOperation, applyOnHold, applyRelease, applyDebit, applyCredit, status_error, amount.
  repeat (destruct (_ =t _); simpl); eauto;
    (eexists _, _; split; [done|]; rewrite ?dval_add, ?dval_sub; split; lra).
Qed.

(** When a posting may be applied to a balance. *)
Record applicable b (p : Posting D) (da dh : Q) : Prop := {
  ap_target : target_ok (pTarget p);
  ap_balance : bID b = BalanceID (pTarget p);
  ap_account : bAccountID b = AccountID (pTarget p);
  ap_asset : bAsset b = pAsset p;
  ap_bounds : CheckDecimal (pAmount p) = Ok tt;
  ap_positive : 0 < amount p;
  ap_effect : effect (pOperation p) (pStatus p) (amount p) = Some (da, dh);
  ap_available : 0 <= dval (bAvailable b) + da;
  ap_onhold : 0 <= dval (bOnHold b) + dh;
}.

(** [b'] is [b] with the two amounts changed and the version advanced. *)
Record posted b b' (da dh : Q) : Prop := {
  ps_frame : b' = set_version (set_amounts b (bAvailable b') (bOnHold b')) (wrap64 (bVersion b + 1));
  ps_available : dval (bAvailable b') == dval (bAvailable b) + da;
  ps_onhold : dval (bOnHold b') == dval (bOnHold b) + dh;
  ps_solvent : solvent b';
}.

Lemma validatePostingAgainstBalance_ok b (p : Posting D) :
  validatePostingAgainstBalance b p = Ok tt ↔
  target_ok (pTarget p) ∧ bID b = BalanceID (pTarget p) ∧ bAccountID b = AccountID (pTarget p) ∧
  bAsset b = pAsset p ∧ CheckDecimal (pAmount p) = Ok tt ∧ 0 < amount p.
Proof.
  unfold validatePostingAgainstBalance, checkBounds, mbind, result_bind.
  rewrite <- (validate_ok _ (txt "posting.target")), <- !eqt_true.
  unfold amount. rewrite <- dis_positive_true.
  destruct (validate _ _) as [[]|]; [|naive_solver].
  destruct (bID b =t _); simpl; [|naive_solver].
  destruct (bAccountID b =t _); simpl; [|naive_solver].
  destruct (bAsset b =t _); simpl; [|naive_solver].
  destruct (CheckDecimal _) as [[]|]; simpl; [|naive_solver].
  destruct (dis_positive _); naive_solver.
Qed.

Lemma validatePostingResult_ok b : validatePostingResult b = Ok tt ↔ solvent b.
Proof.
  unfold validatePostingResult, solvent. rewrite <- !dis_negative_false.
  destruct (dis_negative (bAvailable b)), (dis_negative (bOnHold b)); naive_solver.
Qed.

Lemma ApplyPosting_applicable b (p : Posting D) da dh :
  applicable b p da dh → ∃ b', ApplyPosting b p = Ok b' ∧ posted b b' da dh.
Proof.
  intros Ha. unfold ApplyPosting, mbind, result_bind.
  rewrite (proj2 (validatePostingAgainstBalance_ok b p)) by (destruct Ha; auto 10).
  pose proof (applyPostingOperation_effect b p) as He. rewrite (ap_effect _ _ _ _ Ha) in He.
  destruct He as (av & oh & -> & Hav & Hoh).
  pose proof (ap_available _ _ _ _ Ha). pose proof (ap_onhold _ _ _ _ Ha).
  assert (Hs : solvent (set_amounts b av oh)) by (split; simpl; lra).
  rewrite (proj2 (validatePostingResult_ok _) Hs). eexists. split; [done|]. by split.
Qed.

Lemma ApplyPosting_Ok_inv b (p : Posting D) b' :
  ApplyPosting b p = Ok b' → ∃ da dh, applicable b p da dh ∧ posted b b' da dh.
Proof.
  unfold ApplyPosting, mbind, result_bind. intros Hb.
  destruct (validatePostingAgainstBalance b p) as [[]|] eqn:Hv; [|done].
  apply validatePostingAgainstBalance_ok in Hv as (?&?&?&?&?&?).
  pose proof (applyPostingOperation_effect b p) as He.
  destruct (effect _ _ _) as [[da dh]|] eqn:Ee; [|destruct He as [e He]; by rewrite He in Hb].
  destruct He as (av & oh & He & Hav & Hoh). rewrite He in Hb.
  destruct (validatePostingResult _) as [[]|] eqn:Hr; [|done].
  apply validatePostingResult_ok in Hr as [Hs1 Hs2]. simplify_eq/=. simpl in Hs1, Hs2.
  exists da, dh. split; split; try done; lra.
Qed.

(** *** Ledgers: postings applied to a list of balances *)

Definition holdings (ledger : list (Balance D M)) : Q :=
  foldr (λ b acc, dval (bAvailable b) + dval (bOnHold b) + acc) 0 ledger.

Fixpoint post (ledger : list (Balance D M)) (p : Posting D) : result DomainError (list (Balance D M)) :=
  match ledger with
  | [] => Err (NewDomainError ErrorAccountIneligibility (txt "balances"))
  | b :: rest =>
      if (bID b =t BalanceID (pTarget p)) then b' ← ApplyPosting b p; Ok (b' :: rest)
      else rest' ← post rest p; Ok (b :: rest')
  end.

Fixpoint post_all (ledger : list (Balance D M)) (ps : list (Posting D)) : result DomainError (list (Balance D M)) :=
  match ps with
  | [] => Ok ledger
  | p :: rest => ledger' ← post ledger p; post_all ledger' rest
  end.

Definition run_plan (ledger : list (Balance D M)) (plan : IntentPlan D) : result DomainError (list (Balance D M)) :=
  post_all ledger (plSources plan ++ plDestinations plan).

Lemma post_holdings ledger p ledger' :
  post ledger p = Ok ledger' → holdings ledger' == holdings ledger + net [p].
Proof.
  revert ledger'. induction ledger as [|b rest IH]; intros ledger' Hp; simpl in Hp; [done|].
  unfold mbind, result_bind in Hp. destruct (bID b =t _).
  - destruct (ApplyPosting b p) as [b'|] eqn:Hb; [|done]. simplify_eq.
    apply ApplyPosting_Ok_inv in Hb as (da & dh & Ha & Hpost). simpl.
    rewrite (ap_effect _ _ _ _ Ha), (ps_available _ _ _ _ Hpost), (ps_onhold _ _ _ _ Hpost). lra.
  - destruct (post rest p) as [rest'|]; [|done]. simplify_eq. simpl. rewrite (IH rest') by done. simpl. lra.
Qed.

Lemma net_app ps qs : net (ps ++ qs) == net ps + net qs.
Proof.
  induction ps as [|p ps IH]; simpl; [lra|]. destruct (effect _ _ _) as [[da dh]|]; rewrite IH; lra.
Qed.

Lemma post_all_holdings ps ledger ledger' :
  post_all ledger ps = Ok ledger' → holdings ledger' == holdings ledger + net ps.
Proof.
  revert ledger. induction ps as [|p ps IH]; intros ledger Hp; simpl in Hp.
  - simplify_eq. simpl. lra.
  - unfold mbind, result_bind in Hp. destruct (post ledger p) as [l1|] eqn:H1; [|done].
    rewrite (IH _ Hp), (post_holdings _ _ _ H1). change (p :: ps) with ([p] ++ ps).
    rewrite net_app. lra.
Qed.

Lemma run_plan_holdings plan ledger ledger' :
  run_plan ledger plan = Ok ledger' → holdings ledger' == holdings ledger + plan_net plan.
Proof. intros Hr%post_all_holdings. rewrite Hr, net_app. unfold plan_net. lra. Qed.

(** All postings of a side carry one operation and status, so the side's net
    effect is a multiple of the plan's total. *)
Lemma net_scale (o st : text) (k : Q) ps :
  (∀ a, match effect o st a with Some (da, dh) => da + dh == k * a | None => False end) →
  Forall (λ p, pOperation p = o ∧ pStatus p = st) ps → net ps == k * qsum ps.
Proof.
  intros He. induction 1 as [|p ps [Ho Hs] _ IH]; simpl; [lra|].
  rewrite Ho, Hs. specialize (He (amount p)). destruct (effect o st (amount p)) as [[da dh]|]; [|done].
  rewrite IH. lra.
Qed.

Lemma side_net asset total pending isSource status allocs ps o k :
  side_ok asset total pending isSource status allocs ps →
  ResolveOperation pending isSource status = Ok o →
  (∀ a, match effect o status a with Some (da, dh) => da + dh == k * a | None => False end) →
  net ps == k * dval total.
Proof.
  intros Hs Ho He. rewrite <- (so_sum _ _ _ _ _ _ _ Hs). apply (net_scale o status k); [done|].
  eapply Forall_impl; [apply (so_postings _ _ _ _ _ _ _ Hs)|]. intros p [_ _ Hst Hop].
  rewrite Ho in Hop. by simplify_eq.
Qed.

Lemma plan_net_coef input status plan os od ks kd :
  BuildIntentPlan input status = Ok plan →
  ResolveOperation (iPending input) true status = Ok os →
  ResolveOperation (iPending input) false status = Ok od →
  (∀ a, match effect os status a with Some (da, dh) => da + dh == ks * a | None => False end) →
  (∀ a, match effect od status a with Some (da, dh) => da + dh == kd * a | None => False end) →
  plan_net plan == (ks + kd) * dval (iTotal input).
Proof.
  intros Hb%BuildIntentPlan_plan_ok Hos Hod Hs Hd. unfold plan_net.
  rewrite (side_net _ _ _ _ _ _ _ _ ks (proj1 (pk_sources _ _ _ Hb)) Hos Hs).
  rewrite (side_net _ _ _ _ _ _ _ _ kd (proj1 (pk_destinations _ _ _ Hb)) Hod Hd). lra.
Qed.

Ltac plan_coef Hp Hb ks kd :=
  erewrite (plan_net_coef _ _ _ _ _ ks kd Hb);
    [lra|rewrite Hp; reflexivity|rewrite Hp; reflexivity|intros ?; simpl; lra|intros ?; simpl; lra].

Lemma created_net input plan :
  iPending input = false → BuildIntentPlan input StatusCreated = Ok plan → plan_net plan == 0.
Proof. intros Hp Hb. plan_coef Hp Hb (-1) 1. Qed.

Lemma pending_net input plan :
  iPending input = true → BuildIntentPlan input StatusPending = Ok plan →
  plan_net plan == dval (iTotal input).
Proof. intros Hp Hb. plan_coef Hp Hb 0 1. Qed.

Lemma canceled_net input plan :
  iPending input = true → BuildIntentPlan input StatusCanceled = Ok plan →
  plan_net plan == - dval (iTotal input).
Proof. intros Hp Hb. plan_coef Hp Hb 0 (-1). Qed.

Lemma approved_net input plan :
  iPending input = true → BuildIntentPlan input StatusApproved = Ok plan → plan_net plan == 0.
Proof. intros Hp Hb. plan_coef Hp Hb (-1) 1. Qed.

(** *** Eligibility *)

Definition scoped b : Prop := bOrganizationID b ≠ [] ∨ bLedgerID b ≠ [].

Definition in_scope (ref : text * text) b : Prop :=
  scoped b → bOrganizationID b = ref.1 ∧ bLedgerID b = ref.2.

Lemma validateScope_ok ref b f ref' :
  validateScope ref b f = Ok ref' →
  in_scope ref' b ∧ ∀ b0, in_scope ref b0 → in_scope ref' b0.
Proof.
  unfold validateScope, in_scope, scoped. destruct ref as [o l]. intros Hv.
  destruct (negb (is_empty (bOrganizationID b)) || negb (is_empty (bLedgerID b)))%bool eqn:Hs.
  - destruct (is_empty o && is_empty l)%bool eqn:He.
    + simplify_eq/=. split; [done|]. bool_to_prop. rewrite is_empty_true in *. subst. naive_solver.
    + destruct (negb (bOrganizationID b =t o)) eqn:Ho; [done|].
      destruct (negb (bLedgerID b =t l)) eqn:Hl; [done|]. simplify_eq/=. bool_to_prop.
      rewrite eqt_true in *. split; [done|naive_solver].
  - simplify_eq/=. bool_to_prop. rewrite is_empty_true in *. split; naive_solver.
Qed.

Definition at_target (balances : gmap text (Balance D M)) (p : Posting D) (P : Balance D M → Prop) : Prop :=
  ∃ b, balances !! BalanceID (pTarget p) = Some b ∧ P b.

Definition source_eligible (plan : IntentPlan D) (p : Posting D) b : Prop :=
  bAccountID b = AccountID (pTarget p) ∧ bAsset b = plAsset plan ∧ bAllowSending b = true ∧
  CheckDecimal (pAmount p) = Ok tt ∧ amount p <= dval (bAvailable b) ∧
  (plPending plan = true → bAccountType b ≠ AccountTypeExternal).

Definition destination_eligible (plan : IntentPlan D) (p : Posting D) b : Prop :=
  bAccountID b = AccountID (pTarget p) ∧ bAsset b = plAsset plan ∧ bAllowReceiving b = true ∧
  (bAccountType b = AccountTypeExternal → dval (bAvailable b) == 0).

Lemma validateSourcePosting_ok plan p balances ref ref' :
  validateSourcePosting plan p balances ref = Ok ref' →
  at_target balances p (source_eligible plan p) ∧ at_target balances p (in_scope ref') ∧
  ∀ b0, in_scope ref b0 → in_scope ref' b0.
Proof.
  unfold validateSourcePosting, checkBounds, at_target, mbind, result_bind. intros Hv.
  destruct (balances !! _) as [b|]; [|done].
  destruct (negb (bAccountID b =t _)) eqn:?; [done|].
  destruct (validateScope ref b _) as [r|] eqn:Hs; [|done]. apply validateScope_ok in Hs as [Hs1 Hs2].
  destruct (negb (bAsset b =t _)) eqn:?; [done|]. destruct (bAllowSending b) eqn:?; [|done].
  destruct (CheckDecimal _) as [[]|] eqn:?; [|done]. simpl in Hv.
  destruct (dless _ _) eqn:Hl; [done|]. destruct (plPending plan && _)%bool eqn:Hx; [done|].
  simplify_eq. bool_to_prop. rewrite eqt_true in *. apply dless_false in Hl.
  split; [|eauto]. exists b. split; [done|]. split_and!; try done.
  intros Hp. rewrite Hp in Hx. by apply eqt_false in Hx.
Qed.

Lemma validateDestinationPosting_ok plan p balances ref ref' :
  validateDestinationPosting plan p balances ref = Ok ref' →
  at_target balances p (destination_eligible plan p) ∧ at_target balances p (in_scope ref') ∧
  ∀ b0, in_scope ref b0 → in_scope ref' b0.
Proof.
  unfold validateDestinationPosting, validateExternalDestinationBalance, at_target, mbind, result_bind.
  intros Hv. destruct (balances !! _) as [b|]; [|done].
  destruct (negb (bAccountID b =t _)) eqn:?; [done|].
  destruct (validateScope ref b _) as [r|] eqn:Hs; [|done]. apply validateScope_ok in Hs as [Hs1 Hs2].
  destruct (negb (bAsset b =t _)) eqn:?; [done|]. destruct (bAllowReceiving b) eqn:?; [|done]. simpl in Hv.
  assert (Hx : (bAccountType b = AccountTypeExternal → dval (bAvailable b) == 0) ∧ r = ref').
  { destruct (bAccountType b =t AccountTypeExternal) eqn:Ht; simpl in Hv.
    - destruct (dis_negative _) eqn:Hn; [done|]. destruct (dis_positive _) eqn:Hp; [done|].
      simplify_eq. split; [|done]. intros _. apply dis_negative_false in Hn.
      apply not_true_iff_false in Hp. rewrite dis_positive_true in Hp. lra.
    - simplify_eq. split; [|done]. by apply eqt_false in Ht. }
  destruct Hx as [Hx ->]. bool_to_prop. rewrite eqt_true in *. split; [|eauto].
  exists b. by split_and!.
Qed.

Lemma validate_postings_ok balances (P : Posting D → Balance D M → Prop) chk ps ref ref' :
  (∀ p r r', chk p r = Ok r' →
    at_target balances p (P p) ∧ at_target balances p (in_scope r') ∧ ∀ b0, in_scope r b0 → in_scope r' b0) →
  validate_postings chk ps ref = Ok ref' →
  Forall (λ p, at_target balances p (P p)) ps ∧ Forall (λ p, at_target balances p (in_scope ref')) ps ∧
  ∀ b0, in_scope ref b0 → in_scope ref' b0.
Proof.
  intros Hc. revert ref. induction ps as [|p ps IH]; intros ref Hv; simpl in Hv; [by simplify_eq|].
  unfold mbind, result_bind in Hv. destruct (chk p ref) as [r|] eqn:Hp; [|done].
  apply Hc in Hp as (Hp1 & Hp2 & Hp3). destruct (IH _ Hv) as (H1 & H2 & H3).
  split; [by constructor|]. split; [|by auto]. constructor; [|done].
  destruct Hp2 as (b & Hb & Hs). exists b. auto.
Qed.

Record eligible (plan : IntentPlan D) (balances : gmap text (Balance D M)) : Prop := {
  el_sources : Forall (λ p, at_target balances p (source_eligible plan p)) (plSources plan);
  el_destinations : Forall (λ p, at_target balances p (destination_eligible plan p)) (plDestinations plan);
  el_scope : ∃ ref, Forall (λ p, at_target balances p (in_scope ref)) (plSources plan ++ plDestinations plan);
}.

Lemma ValidateBalanceEligibility_eligible plan balances :
  ValidateBalanceEligibility plan balances = Ok tt → eligible plan balances.
Proof.
  unfold ValidateBalanceEligibility, mbind, result_bind. case_bool_decide as Hz; [done|]. intros Hv.
  destruct (validate_postings (λ p, validateSourcePosting plan p balances) _ _) as [r1|] eqn:H1; [|done].
  destruct (validate_postings (λ p, validateDestinationPosting plan p balances) _ _) as [r2|] eqn:H2; [|done].
  eapply (validate_postings_ok balances (source_eligible plan)) in H1 as (Hs1 & Hs2 & Hs3).
  2:{ intros p r r'. apply validateSourcePosting_ok. }
  eapply (validate_postings_ok balances (destination_eligible plan)) in H2 as (Hd1 & Hd2 & Hd3).
  2:{ intros p r r'. apply validateDestinationPosting_ok. }
  split; [done|done|]. exists r2. apply Forall_app. split; [|done].
  eapply Forall_impl; [exact Hs2|]. intros p (b & Hb & Hsc). exists b. auto.
Qed.

(** The status a new intent is planned with. *)
Definition initial_status (pending : bool) : text := if pending then StatusPending else StatusCreated.

(** Every balance is filed under its own id and holds no negative amount. *)
Definition catalog_ok (balances : gmap text (Balance D M)) : Prop :=
  ∀ k b, balances !! k = Some b → bID b = k ∧ solvent b.

Lemma eligible_source_applies input plan balances p :
  BuildIntentPlan input (initial_status (iPending input)) = Ok plan →
  eligible plan balances → catalog_ok balances → p ∈ plSources plan →
  ∃ b b', balances !! BalanceID (pTarget p) = Some b ∧ ApplyPosting b p = Ok b'.
Proof.
  intros Hb%BuildIntentPlan_plan_ok [Hs _ _] Hc Hp.
  destruct (pk_sources _ _ _ Hb) as [[Hok Hpos _ _] _].
  rewrite Forall_forall in Hs, Hok, Hpos. specialize (Hs _ Hp) as (b & Hbl & Hel).
  specialize (Hok _ Hp) as [Ht Ha Hst Hop]. specialize (Hpos _ Hp).
  destruct Hel as (E1 & E2 & E3 & E4 & E5 & E6). destruct (Hc _ _ Hbl) as [Hid [S1 S2]].
  pose proof (proj1 (pk_asset _ _ _ Hb)) as Has.
  assert (He : ∃ da dh, effect (pOperation p) (pStatus p) (amount p) = Some (da, dh) ∧
    0 <= dval (bAvailable b) + da ∧ 0 <= dval (bOnHold b) + dh).
  { rewrite Hst. destruct (iPending input); simpl in Hop; simplify_eq; rewrite <- Hop; simpl;
      (eexists _, _; split; [done|split; lra]). }
  destruct He as (da & dh & He & Hav & Hoh).
  destruct (ApplyPosting_applicable b p da dh) as (b' & Hb' & _).
  { split; try done. by rewrite E2, Has. }
  by exists b, b'.
Qed.

Lemma eligible_destination_applies input plan balances p :
  BuildIntentPlan input (initial_status (iPending input)) = Ok plan →
  eligible plan balances → catalog_ok balances → p ∈ plDestinations plan →
  CheckDecimal (pAmount p) = Ok tt →
  ∃ b b', balances !! BalanceID (pTarget p) = Some b ∧ ApplyPosting b p = Ok b'.
Proof.
  intros Hb%BuildIntentPlan_plan_ok [_ Hs _] Hc Hp Hbd.
  destruct (pk_destinations _ _ _ Hb) as [[Hok Hpos _ _] _].
  rewrite Forall_forall in Hs, Hok, Hpos. specialize (Hs _ Hp) as (b & Hbl & Hel).
  specialize (Hok _ Hp) as [Ht Ha Hst Hop]. specialize (Hpos _ Hp).
  destruct Hel as (E1 & E2 & E3 & E4). destruct (Hc _ _ Hbl) as [Hid [S1 S2]].
  pose proof (proj1 (pk_asset _ _ _ Hb)) as Has.
  destruct (ApplyPosting_applicable b p (amount p) 0) as (b' & Hb' & _); [|by exists b, b'].
  split; try done; try lra; [by rewrite E2, Has|].
  rewrite Hst. destruct (iPending input); simpl in Hop; simplify_eq; by rewrite <- Hop.
Qed.
End lemmas.

(** ** A concrete ledger for the witnesses *)

Definition usd : text := txt "USD".
Definition ledger_balance (id : text) (available onHold : Z) : Balance dec unit :=
  {| bID := id; bOrganizationID := txt "org"; bLedgerID := txt "main"; bAccountID := txt "acc-" ++ id;
     bAsset := usd; bAvailable := Dec available 0; bOnHold := Dec onHold 0; bVersion := 7;
     bAccountType := AccountTypeInternal; bAllowSending := true; bAllowReceiving := true;
     bCreatedAt := 1; bUpdatedAt := 1; bDeletedAt := None; bMetadata := None |}.
Definition target_of (id : text) : LedgerTarget := {| AccountID := txt "acc-" ++ id; BalanceID := id |}.
Definition alloc_amount (id : text) (z : Z) : Allocation dec :=
  {| aTarget := target_of id; aAmount := Some (Dec z 0); aShare := None; aRemainder := false; aRoute := [] |}.
Definition alloc_share (id : text) (z : Z) : Allocation dec :=
  {| aTarget := target_of id; aAmount := None; aShare := Some (Dec z 0); aRemainder := false; aRoute := [] |}.
Definition alloc_rest (id : text) : Allocation dec :=
  {| aTarget := target_of id; aAmount := None; aShare := None; aRemainder := true; aRoute := [] |}.

(** 100.00 USD: 60 from alice and the rest from bob; 25% to carol, the rest to dave. *)
Definition sample_input (pending : bool) : TransactionIntentInput dec :=
  {| iAsset := usd; iTotal := Dec 10000 (-2); iPending := pending;
     iSources := [alloc_amount (txt "alice") 60; alloc_rest (txt "bob")];
     iDestinations := [alloc_share (txt "carol") 25; alloc_rest (txt "dave")] |}.
Definition empty_plan : IntentPlan dec :=
  {| plAsset := []; plTotal := Dec 0 0; plPending := false; plSources := []; plDestinations := [] |}.
Definition sample_plan (pending : bool) (status : text) : IntentPlan dec :=
  from_ok empty_plan (BuildIntentPlan (sample_input pending) status).
Definition sample_ledger : list (Balance dec unit) :=
  [ledger_balance (txt "alice") 80 0; ledger_balance (txt "bob") 50 0;
   ledger_balance (txt "carol") 0 0; ledger_balance (txt "dave") 5 0].
Definition sample_run (l : list (Balance dec unit)) (p : IntentPlan dec) : list (Balance dec unit) :=
  from_ok [] (run_plan l p).
Definition sample_catalog : gmap text (Balance dec unit) :=
  list_to_map (map (λ b, (bID b, b)) sample_ledger).

Lemma from_ok_is_ok {E A} (d : A) (r : result E A) : is_ok r = true → r = Ok (from_ok d r).
Proof. by destruct r. Qed.

(** ** Claims *)

Section claims.
Context {D : Type} `{DecimalOps D, DecimalDenotation D, !DecimalLaws D}.
Context {M : Type}.
Local Open Scope Q_scope.

(** C6: A plan that [BuildIntentPlan] returns is balanced and well formed:
    one posting per allocation in order, every amount positive, sources and
    destinations each adding up to exactly the requested total whichever mix
    of amounts, shares and one remainder was used, the operation of every
    posting the one [ResolveOperation] gives its side, and no balance on both
    sides. *)
Theorem BuildIntentPlan_balanced (input : TransactionIntentInput D) (status : text) (plan : IntentPlan D) :
  BuildIntentPlan input status = Ok plan → plan_ok input status plan.
Proof. apply BuildIntentPlan_plan_ok. Qed.

(** [ApplyPosting] succeeds exactly on applicable postings (well-formed
    matching target, matching asset, bounded positive amount, an operation
    and status that go together, and no amount driven negative), and then
    changes only the two amounts, by the exact effect of the operation, and
    the version. *)
Theorem ApplyPosting_exact (b : Balance D M) (p : Posting D) :
  (∀ b', ApplyPosting b p = Ok b' → ∃ da dh, applicable b p da dh ∧ posted b b' da dh) ∧
  (∀ da dh, applicable b p da dh → ∃ b', ApplyPosting b p = Ok b' ∧ posted b b' da dh).
Proof.
  split; [apply ApplyPosting_Ok_inv|]. intros da dh. apply ApplyPosting_applicable.
Qed.

(** A hold can always be undone: after an ON_HOLD posting was applied to
    a solvent balance, the RELEASE of the same amount applies and gives back
    the available and on-hold amounts the balance had. *)
Theorem hold_then_release (b b1 : Balance D M) (hold release : Posting D) :
  solvent b → ApplyPosting b hold = Ok b1 → pOperation hold = OperationOnHold →
  pTarget release = pTarget hold → pAsset release = pAsset hold → pAmount release = pAmount hold →
  pOperation release = OperationRelease → pStatus release = StatusCanceled →
  ∃ b2, ApplyPosting b1 release = Ok b2 ∧
    dval (bAvailable b2) == dval (bAvailable b) ∧ dval (bOnHold b2) == dval (bOnHold b).
Proof.
  intros [S1 S2] Hh Hop Ht Ha Hamt Hop' Hst'.
  apply ApplyPosting_Ok_inv in Hh as (da & dh & Hap & Hpo). destruct Hap, Hpo.
  rewrite Hop in ap_effect0. unfold effect in ap_effect0. simpl in ap_effect0.
  destruct (pStatus hold =t StatusPending); simplify_eq/=.
  destruct (ApplyPosting_applicable b1 release (amount release) (- amount release)) as (b2 & Hb2 & Hp2).
  - unfold amount in *. rewrite ps_frame0. split; simpl; rewrite ?Ht, ?Ha, ?Hamt; try done;
      unfold amount; rewrite ?Hop', ?Hst', ?Hamt; done || lra.
  - exists b2. split; [done|]. destruct Hp2. unfold amount in *. rewrite Hamt in *. split; lra.
Qed.

(** C5: Money is conserved by a direct (CREATED) transaction, and by a
    pending one that is held and then cancelled: applying the postings of the
    plans to a ledger leaves the sum of available and on-hold funds as it was. *)
Theorem plans_conserve_money (ledger ledger1 ledger2 : list (Balance D M))
    (direct pending : TransactionIntentInput D) (plan hold cancel : IntentPlan D) :
  iPending direct = false → BuildIntentPlan direct StatusCreated = Ok plan →
  iPending pending = true → BuildIntentPlan pending StatusPending = Ok hold →
  BuildIntentPlan pending StatusCanceled = Ok cancel →
  (run_plan ledger plan = Ok ledger1 → holdings ledger1 == holdings ledger) ∧
  (run_plan ledger hold = Ok ledger1 → run_plan ledger1 cancel = Ok ledger2 →
   holdings ledger2 == holdings ledger).
Proof.
  intros Hd Hplan Hp Hhold Hcancel. split.
  - intros Hr%run_plan_holdings. rewrite Hr, (created_net _ _ Hd Hplan). lra.
  - intros H1%run_plan_holdings H2%run_plan_holdings.
    rewrite H2, H1, (pending_net _ _ Hp Hhold), (canceled_net _ _ Hp Hcancel). lra.
Qed.

(** C40: A pending transaction that is held and then approved does not
    conserve money: [ResolveOperation] credits the destinations both at
    PENDING and at APPROVED, so the ledger ends with the transaction's total
    on top of what it held. *)
Theorem approved_pending_credits_twice (ledger ledger1 ledger2 : list (Balance D M))
    (input : TransactionIntentInput D) (hold settle : IntentPlan D) :
  iPending input = true →
  BuildIntentPlan input StatusPending = Ok hold → BuildIntentPlan input StatusApproved = Ok settle →
  run_plan ledger hold = Ok ledger1 → run_plan ledger1 settle = Ok ledger2 →
  holdings ledger2 == holdings ledger + dval (iTotal input) ∧ holdings ledger < holdings ledger2.
Proof.
  intros Hp Hh Hs H1%run_plan_holdings H2%run_plan_holdings.
  pose proof (proj2 (pk_total _ _ _ (BuildIntentPlan_plan_ok _ _ _ Hh))) as Hpos.
  rewrite (proj1 (pk_total _ _ _ (BuildIntentPlan_plan_ok _ _ _ Hh))) in Hpos.
  rewrite (pending_net _ _ Hp Hh) in H1. rewrite (approved_net _ _ Hp Hs) in H2. split; lra.
Qed.

(** [ValidateBalanceEligibility] accepts a plan only when every posting's
    balance exists, belongs to the posting's account, has the plan's asset
    and the permission its side needs, every source can cover its posting and
    is not external in a pending plan, external destinations are at zero, and
    all balances that name an organization or ledger name the same one. *)
Theorem eligibility_sound (plan : IntentPlan D) (balances : gmap text (Balance D M)) :
  ValidateBalanceEligibility plan balances = Ok tt → eligible plan balances.
Proof. apply ValidateBalanceEligibility_eligible. Qed.

(** A plan that was built for a new intent and found eligible can be
    executed: against a catalog of solvent balances every source posting
    applies, and so does every destination posting whose amount is within the
    decimal bounds (which eligibility checks for sources only). *)
Theorem eligible_plan_applies (input : TransactionIntentInput D) (plan : IntentPlan D)
    (balances : gmap text (Balance D M)) :
  BuildIntentPlan input (initial_status (iPending input)) = Ok plan →
  ValidateBalanceEligibility plan balances = Ok tt → catalog_ok balances →
  (∀ p, p ∈ plSources plan →
     ∃ b b', balances !! BalanceID (pTarget p) = Some b ∧ ApplyPosting b p = Ok b') ∧
  (∀ p, p ∈ plDestinations plan → CheckDecimal (pAmount p) = Ok tt →
     ∃ b b', balances !! BalanceID (pTarget p) = Some b ∧ ApplyPosting b p = Ok b').
Proof.
  intros Hb He%ValidateBalanceEligibility_eligible Hc. split; intros p Hp.
  - by eapply eligible_source_applies.
  - intros Hbd. by eapply eligible_destination_applies.
Qed.
End claims.

Lemma BuildIntentPlan_balanced_witness :
  plan_ok (sample_input false) StatusCreated (sample_plan false StatusCreated).
Proof. apply BuildIntentPlan_balanced. vm_compute. reflexivity. Defined.

Lemma ApplyPosting_exact_witness :
  let b := ledger_balance (txt "alice") 80 0 in
  let p := List.hd {| pTarget := target_of []; pAsset := []; pAmount := Dec 0 0; pOperation := []; pStatus := []; pRoute := [] |}
             (plSources (sample_plan false StatusCreated)) in
  ∃ b', ApplyPosting b p = Ok b' ∧ posted b b' (- amount p)%Q 0%Q.
Proof.
  intros b p. apply (proj2 (ApplyPosting_exact b p)).
  split; try (vm_compute; reflexivity); try (vm_compute; discriminate).
  split; vm_compute; discriminate.
Defined.

Lemma hold_then_release_witness :
  let b := ledger_balance (txt "alice") 80 5 in
  let hold := {| pTarget := target_of (txt "alice"); pAsset := usd; pAmount := Dec 60 0;
                 pOperation := OperationOnHold; pStatus := StatusPending; pRoute := [] |} in
  let release := {| pTarget := target_of (txt "alice"); pAsset := usd; pAmount := Dec 60 0;
                 pOperation := OperationRelease; pStatus := StatusCanceled; pRoute := [] |} in
  let b1 := from_ok b (ApplyPosting b hold) in
  ∃ b2, ApplyPosting b1 release = Ok b2 ∧
    (dval (bAvailable b2) == 80)%Q ∧ (dval (bOnHold b2) == 5)%Q.
Proof.
  intros b hold release b1.
  destruct (hold_then_release b b1 hold release) as (b2 & H1 & H2 & H3);
    [split; vm_compute; discriminate|vm_compute; reflexivity|try reflexivity..].
  exists b2. split; [exact H1|]. split; [rewrite H2|rewrite H3]; reflexivity.
Defined.

Lemma plans_conserve_money_witness :
  (holdings (sample_run sample_ledger (sample_plan false StatusCreated)) == holdings sample_ledger)%Q ∧
  (holdings (sample_run (sample_run sample_ledger (sample_plan true StatusPending))
     (sample_plan true StatusCanceled)) == holdings sample_ledger)%Q.
Proof.
  split.
  - refine (proj1 (plans_conserve_money sample_ledger _ [] (sample_input false) (sample_input true)
      (sample_plan false StatusCreated) (sample_plan true StatusPending) (sample_plan true StatusCanceled)
      _ _ _ _ _) _); vm_compute; reflexivity.
  - refine (proj2 (plans_conserve_money sample_ledger (sample_run sample_ledger (sample_plan true StatusPending))
      _ (sample_input false) (sample_input true)
      (sample_plan false StatusCreated) (sample_plan true StatusPending) (sample_plan true StatusCanceled)
      _ _ _ _ _) _ _); vm_compute; reflexivity.
Defined.

Lemma approved_pending_credits_twice_witness :
  let l1 := sample_run sample_ledger (sample_plan true StatusPending) in
  let l2 := sample_run l1 (sample_plan true StatusApproved) in
  (holdings sample_ledger == 135)%Q ∧ (holdings l2 == 235)%Q.
Proof.
  intros l1 l2. split; [reflexivity|].
  refine (Qeq_trans _ _ _ (proj1 (approved_pending_credits_twice sample_ledger l1 l2 (sample_input true)
    (sample_plan true StatusPending) (sample_plan true StatusApproved) _ _ _ _ _)) _);
    vm_compute; reflexivity.
Defined.

Lemma eligibility_sound_witness : eligible (sample_plan false StatusCreated) sample_catalog.
Proof. apply eligibility_sound. vm_compute. reflexivity. Defined.

Lemma eligible_plan_applies_witness :
  length (plSources (sample_plan true StatusPending)) = 2%nat ∧
  ∀ p, p ∈ plSources (sample_plan true StatusPending) →
  ∃ b b', sample_catalog !! BalanceID (pTarget p) = Some b ∧ ApplyPosting b p = Ok b'.
Proof.
  split; [vm_compute; reflexivity|].
  refine (proj1 (eligible_plan_applies (sample_input true) (sample_plan true StatusPending) sample_catalog _ _ _)).
  - vm_compute. reflexivity.
  - vm_compute. reflexivity.
  - intros k b Hk. apply elem_of_list_to_map_2 in Hk.
    repeat (apply elem_of_cons in Hk as [Hk|Hk]; [simplify_eq/=; split; [done|split; vm_compute; discriminate]|]).
    by apply elem_of_nil in Hk.
Defined.
