(* ===== verification/OutboxLastError.v ===== *)
(** The accumulated [last_error] of an outbox row: [outbox/last_error.go], the
    bounding half of [outbox/sanitizer.go], and the SQL expression with which
    [outbox/postgres] mirrors the rule inside one UPDATE. *)

From stdpp Require Import base numbers list option strings sets.
From S2P Require Import Prelude GoText.

Local Open Scope Z_scope.

(** [utf8.RuneCountInString], [char_length] in SQL *)
Definition rune_count (s : text) : Z := Z.of_nat (length s).

(** ** Model of outbox/last_error.go *)

Definition MaxLastErrorLength : Z := 512.

Definition LastErrorTruncationMarker : text :=
  LF :: txt "... (later causes truncated)".

Definition lastErrorCauseSeparator : text := [LF].

Definition StuckInProcessingCause : text :=
  txt "abandoned in processing with no dispatch attempts left".

Definition LastErrorCauseBudget : Z :=
  MaxLastErrorLength - rune_count LastErrorTruncationMarker.

(** The replacer of [normalizeCause]: CRLF, LF and CR each become one space. *)
Fixpoint fold_newlines (s : text) : text :=
  match s with
  | [] => []
  | a :: s' =>
      if bool_decide (a = CR) then
        match s' with
        | b :: s'' => if bool_decide (b = LF) then SP :: fold_newlines s'' else SP :: fold_newlines s'
        | [] => [SP]
        end
      else if bool_decide (a = LF) then SP :: fold_newlines s'
      else a :: fold_newlines s'
  end.

Definition is_newline (r : Z) : bool := (bool_decide (r = CR) || bool_decide (r = LF))%bool.

Definition normalizeCause (cause : text) : text :=
  let cause := if existsb is_newline cause then fold_newlines cause else cause in
  TrimSpace cause.

(** The loop of [truncateToRuneBudget]: stop in front of the rune that would
    make the count exceed the budget. *)
Fixpoint truncate_loop (count budget : Z) (s : text) : text :=
  match s with
  | [] => []
  | r :: s' => if bool_decide (count = budget) then [] else r :: truncate_loop (count + 1) budget s'
  end.

Definition truncateToRuneBudget (s : text) (budget : Z) : text :=
  if bool_decide (rune_count s ≤ budget) then s else truncate_loop 0 budget s.

Definition hasCause (existing cause : text) : bool :=
  bool_decide (cause ∈ split_on LF existing).

Definition BoundErrorCause (cause : text) : text :=
  let cause := normalizeCause cause in
  if bool_decide (rune_count cause ≤ LastErrorCauseBudget) then cause
  else truncateToRuneBudget cause LastErrorCauseBudget ++ LastErrorTruncationMarker.

Definition AppendErrorCause (existing cause : text) : text :=
  let cause := normalizeCause cause in
  if is_empty cause then existing
  else if is_empty (TrimSpace existing) then BoundErrorCause cause
  else if hasCause existing cause then existing
  else if contains LastErrorTruncationMarker existing then existing
  else if bool_decide (rune_count existing + 1 + rune_count cause ≤ LastErrorCauseBudget)
       then existing ++ lastErrorCauseSeparator ++ cause
  else truncateToRuneBudget existing LastErrorCauseBudget ++ LastErrorTruncationMarker.

(** ** The same rule in SQL

    The [last_error = CASE ... END] expression of [MarkFailed] on a row whose
    column holds [last_error] ([None] is NULL), with [$4] the bounded cause,
    [$5] the marker and [$6] the budget.  [btrim] strips ASCII spaces only. *)
Definition sql_last_error (last_error : option text) (c : text) : text :=
  match last_error with
  | None => c
  | Some e =>
      if is_empty (trim_by (λ r, bool_decide (r = SP)) e) then c
      else if is_empty c then e
      else if contains (LF :: c ++ [LF]) (LF :: e ++ [LF]) then e
      else if contains LastErrorTruncationMarker e then e
      else if bool_decide (rune_count e + 1 + rune_count c ≤ LastErrorCauseBudget)
           then e ++ LF :: c
      else firstn (Z.to_nat LastErrorCauseBudget) e ++ LastErrorTruncationMarker
  end.

(** The CASE of [markStuckEventsInvalid] has no branch for an empty cause. *)
Definition sql_last_error_stuck (last_error : option text) (c : text) : text :=
  match last_error with
  | None => c
  | Some e =>
      if is_empty (trim_by (λ r, bool_decide (r = SP)) e) then c
      else if contains (LF :: c ++ [LF]) (LF :: e ++ [LF]) then e
      else if contains LastErrorTruncationMarker e then e
      else if bool_decide (rune_count e + 1 + rune_count c ≤ LastErrorCauseBudget)
           then e ++ LF :: c
      else firstn (Z.to_nat LastErrorCauseBudget) e ++ LastErrorTruncationMarker
  end.

(** ** The bounding half of outbox/sanitizer.go *)

Definition maxErrorLength : Z := 512.
Definition errorTruncatedSuffix : text := txt "... (truncated)".

Definition truncateError (msg : text) (maxRunes : Z) (suffix : text) : text :=
  if bool_decide (rune_count msg ≤ maxRunes) then msg
  else if bool_decide (maxRunes ≤ rune_count suffix) then firstn (Z.to_nat maxRunes) msg
  else firstn (Z.to_nat (maxRunes - rune_count suffix)) msg ++ suffix.

(** [redactSensitiveData] is a parameter: its regular expressions are not
    modelled, and nothing below depends on what they replace. *)
Definition SanitizeErrorMessageForStorage (redact : text → text) (msg : text) : text :=
  truncateError (redact (TrimSpace msg)) maxErrorLength errorTruncatedSuffix.

(** ** Lemmas on the pieces *)

Lemma budget_val : LastErrorCauseBudget = 483.
Proof. vm_compute. reflexivity. Qed.

Lemma marker_len : rune_count LastErrorTruncationMarker = 29.
Proof. vm_compute. reflexivity. Qed.

Lemma rune_count_app s t : rune_count (s ++ t) = rune_count s + rune_count t.
Proof. unfold rune_count. rewrite length_app. lia. Qed.

Lemma rune_count_nonneg s : 0 ≤ rune_count s.
Proof. unfold rune_count. lia. Qed.

Lemma truncate_loop_take n b s : truncate_loop n (n + Z.of_nat b) s = firstn b s.
Proof.
  revert n b. induction s as [|r s IH]; intros n b; simpl; [by destruct b|].
  destruct b as [|b]; simpl; [rewrite bool_decide_true by lia; done|].
  rewrite bool_decide_false by lia. f_equal.
  replace (n + Z.of_nat (S b)) with (n + 1 + Z.of_nat b) by lia. apply IH.
Qed.

Lemma truncateToRuneBudget_take s b : 0 ≤ b → truncateToRuneBudget s b = firstn (Z.to_nat b) s.
Proof.
  intros Hb. unfold truncateToRuneBudget, rune_count. case_bool_decide.
  - by rewrite firstn_all2 by lia.
  - replace b with (0 + Z.of_nat (Z.to_nat b)) at 1 by lia. apply truncate_loop_take.
Qed.

Lemma rune_count_truncate s b : 0 ≤ b → rune_count (truncateToRuneBudget s b) ≤ b.
Proof.
  intros. rewrite truncateToRuneBudget_take by done. unfold rune_count.
  rewrite length_firstn. lia.
Qed.

Lemma fold_newlines_no_lf s : LF ∉ fold_newlines s.
Proof.
  remember (length s) as n eqn:Hn. revert s Hn.
  induction (lt_wf n) as [n _ IH]. intros [|a s] ->; simpl; [set_solver|].
  assert (IH1 : LF ∉ fold_newlines s) by (apply (IH (length s)); simpl; auto with lia).
  repeat case_bool_decide; [|rewrite not_elem_of_cons; done..].
  destruct s as [|b s]; [rewrite not_elem_of_cons; split; [done|set_solver]|].
  case_bool_decide; rewrite not_elem_of_cons; split; try done.
  apply (IH (length s)); simpl; auto with lia.
Qed.

Lemma normalizeCause_no_lf c : LF ∉ normalizeCause c.
Proof.
  unfold normalizeCause, TrimSpace. intros H%elem_of_trim_by. destruct (existsb _ c) eqn:E.
  - by apply fold_newlines_no_lf in H.
  - apply not_true_iff_false in E. apply E. rewrite existsb_exists.
    exists LF. by rewrite <- list_elem_of_In.
Qed.

(** CR never survives normalisation either, so normalising twice is once. *)
Lemma fold_newlines_no_cr s : CR ∉ fold_newlines s.
Proof.
  remember (length s) as n eqn:Hn. revert s Hn.
  induction (lt_wf n) as [n _ IH]. intros [|a s] ->; simpl; [set_solver|].
  assert (IH1 : CR ∉ fold_newlines s) by (apply (IH (length s)); simpl; auto with lia).
  repeat case_bool_decide; [|rewrite not_elem_of_cons; done..].
  destruct s as [|b s]; [rewrite not_elem_of_cons; split; [done|set_solver]|].
  case_bool_decide; rewrite not_elem_of_cons; split; try done.
  apply (IH (length s)); simpl; auto with lia.
Qed.

Lemma normalizeCause_no_newline c : existsb is_newline (normalizeCause c) = false.
Proof.
  apply not_true_iff_false. rewrite existsb_exists. intros [r [Hr Hn]].
  unfold is_newline in Hn. apply orb_true_iff in Hn as [->%bool_decide_eq_true| ->%bool_decide_eq_true].
  - rewrite <- list_elem_of_In in Hr. unfold normalizeCause, TrimSpace in Hr.
    apply elem_of_trim_by in Hr. destruct (existsb _ c) eqn:E; [by apply fold_newlines_no_cr in Hr|].
    apply not_true_iff_false in E. apply E. rewrite existsb_exists. exists CR. by rewrite <- list_elem_of_In.
  - rewrite <- list_elem_of_In in Hr. by apply normalizeCause_no_lf in Hr.
Qed.

Lemma normalizeCause_idem c : normalizeCause (normalizeCause c) = normalizeCause c.
Proof.
  unfold normalizeCause at 1. rewrite normalizeCause_no_newline.
  unfold normalizeCause. apply TrimSpace_idem.
Qed.

Lemma BoundErrorCause_normalize c : BoundErrorCause (normalizeCause c) = BoundErrorCause c.
Proof. unfold BoundErrorCause. by rewrite normalizeCause_idem. Qed.

Lemma rune_count_bound c : rune_count (BoundErrorCause c) ≤ MaxLastErrorLength.
Proof.
  unfold BoundErrorCause. pose proof marker_len. pose proof budget_val.
  unfold MaxLastErrorLength. case_bool_decide; [lia|].
  rewrite rune_count_app. pose proof (rune_count_truncate (normalizeCause c) LastErrorCauseBudget). lia.
Qed.

Lemma not_blank_app_l s t : TrimSpace s ≠ [] → TrimSpace (s ++ t) ≠ [].
Proof. rewrite !TrimSpace_nil, Forall_app. tauto. Qed.

Lemma not_blank_app_r s t : TrimSpace t ≠ [] → TrimSpace (s ++ t) ≠ [].
Proof. rewrite !TrimSpace_nil, Forall_app. tauto. Qed.

Lemma marker_not_blank : TrimSpace LastErrorTruncationMarker ≠ [].
Proof. vm_compute. discriminate. Qed.

Lemma blank_spaces_only s : Forall (λ r, bool_decide (r = SP) = true) s → TrimSpace s = [].
Proof.
  intros H. apply TrimSpace_nil. apply (Forall_impl _ _ _ H).
  intros r ->%bool_decide_eq_true. reflexivity.
Qed.

(** A value this rule can have produced: never blank unless empty, and within
    the cause budget unless it already carries the marker. *)
Definition recorded (e : text) : Prop :=
  (TrimSpace e = [] → e = []) ∧
  (rune_count e ≤ LastErrorCauseBudget ∨ contains LastErrorTruncationMarker e = true).

Lemma recorded_nil : recorded [].
Proof. split; [done|left; vm_compute; discriminate]. Qed.

Lemma TrimSpace_normalize c : TrimSpace (normalizeCause c) = normalizeCause c.
Proof. apply TrimSpace_idem. Qed.

Lemma firstn_not_blank n s : (0 < n)%nat →
  match s with [] => False | r :: _ => is_space r = false end → TrimSpace (firstn n s) ≠ [].
Proof.
  destruct s as [|r s], n as [|n]; try done; try lia. intros _ Hr. simpl.
  rewrite TrimSpace_nil, Forall_cons. intros [H _]. by rewrite Hr in H.
Qed.

Lemma normalizeCause_hd c :
  normalizeCause c ≠ [] → match normalizeCause c with [] => False | r :: _ => is_space r = false end.
Proof.
  intros H. pose proof (trim_by_hd is_space (if existsb is_newline c then fold_newlines c else c)) as Hd.
  change (trim_by is_space _) with (normalizeCause c) in Hd. by destruct (normalizeCause c).
Qed.

(** What [BoundErrorCause] stores: the whole normalised cause when it fits the
    budget, and otherwise a marked prefix of it. *)
Lemma BoundErrorCause_cases c :
  BoundErrorCause c =
    if bool_decide (rune_count (normalizeCause c) ≤ LastErrorCauseBudget) then normalizeCause c
    else firstn (Z.to_nat LastErrorCauseBudget) (normalizeCause c) ++ LastErrorTruncationMarker.
Proof.
  unfold BoundErrorCause. case_bool_decide; [done|].
  by rewrite truncateToRuneBudget_take by (vm_compute; discriminate).
Qed.

Lemma BoundErrorCause_nil c : BoundErrorCause c = [] ↔ normalizeCause c = [].
Proof.
  rewrite BoundErrorCause_cases. case_bool_decide as H; [done|]. split; intros E.
  - apply app_eq_nil in E as [_ E]. discriminate E.
  - rewrite E in H. exfalso. apply H. vm_compute. discriminate.
Qed.

Lemma recorded_bound c : recorded (BoundErrorCause c).
Proof.
  rewrite BoundErrorCause_cases. case_bool_decide as H; split.
  - by rewrite TrimSpace_normalize.
  - by left.
  - intros E. exfalso. revert E. apply not_blank_app_r, marker_not_blank.
  - right. apply contains_refl.
Qed.

Lemma AppendErrorCause_recorded e c : recorded e → recorded (AppendErrorCause e c).
Proof.
  intros He. unfold AppendErrorCause.
  destruct (is_empty (normalizeCause c)); [done|].
  destruct (is_empty (TrimSpace e)) eqn:Eb.
  { rewrite BoundErrorCause_normalize. apply recorded_bound. }
  apply is_empty_false in Eb.
  destruct (hasCause _ _); [done|]. destruct (contains _ e); [done|].
  case_bool_decide; split.
  - intros E. exfalso. revert E. by apply not_blank_app_l.
  - left. rewrite !rune_count_app. change (rune_count lastErrorCauseSeparator) with 1. lia.
  - intros E. exfalso. revert E. apply not_blank_app_r, marker_not_blank.
  - right. apply contains_refl.
Qed.

Lemma AppendErrorCause_marked e c :
  TrimSpace e ≠ [] → contains LastErrorTruncationMarker e = true → AppendErrorCause e c = e.
Proof.
  intros H1%is_empty_false H2. unfold AppendErrorCause.
  destruct (is_empty (normalizeCause c)); [done|]. rewrite H1, H2. by destruct (hasCause _ _).
Qed.

(** ** Properties *)

Lemma AppendErrorCause_le_max e c :
  rune_count e ≤ MaxLastErrorLength → rune_count (AppendErrorCause e c) ≤ MaxLastErrorLength.
Proof.
  intros He. unfold AppendErrorCause.
  destruct (is_empty (normalizeCause c)); [done|].
  destruct (is_empty (TrimSpace e)); [apply rune_count_bound|].
  destruct (hasCause _ _); [done|]. destruct (contains _ e); [done|].
  pose proof marker_len. pose proof budget_val. unfold MaxLastErrorLength.
  case_bool_decide.
  - rewrite !rune_count_app. change (rune_count lastErrorCauseSeparator) with 1. lia.
  - rewrite rune_count_app. pose proof (rune_count_truncate e LastErrorCauseBudget). lia.
Qed.

(** Any history of causes recorded from an empty column. *)
Definition record_causes (causes : list text) : text :=
  fold_left AppendErrorCause causes [].

Lemma record_causes_recorded causes : recorded (record_causes causes).
Proof.
  unfold record_causes. generalize recorded_nil. generalize (@nil Z).
  induction causes as [|c cs IH]; intros e He; simpl; [done|].
  by apply IH, AppendErrorCause_recorded.
Qed.

(** SQL sees the same membership, emptiness and length questions. *)
Lemma btrim_blank e : recorded e →
  is_empty (trim_by (λ r, bool_decide (r = SP)) e) = is_empty (TrimSpace e).
Proof.
  intros [Hb _]. apply eq_true_iff_eq. rewrite !is_empty_true, trim_by_nil. split.
  - apply blank_spaces_only.
  - intros E. by rewrite (Hb E).
Qed.

Lemma sql_membership e c : recorded e →
  normalizeCause c ≠ [] →
  (contains (LF :: BoundErrorCause c ++ [LF]) (LF :: e ++ [LF]) || contains LastErrorTruncationMarker e)%bool
  = (hasCause e (normalizeCause c) || contains LastErrorTruncationMarker e)%bool.
Proof.
  intros [_ Hr] Hc. destruct (contains LastErrorTruncationMarker e) eqn:Em; [by rewrite !orb_true_r|].
  destruct Hr as [Hr|]; [|done]. rewrite !orb_false_r. apply eq_true_iff_eq.
  unfold hasCause. rewrite bool_decide_eq_true.
  rewrite BoundErrorCause_cases. case_bool_decide as Hn.
  - rewrite (split_on_elem LF) by apply normalizeCause_no_lf. done.
  - pose proof marker_len. pose proof budget_val. split; intros H'; exfalso.
    + apply contains_length in H'. rewrite !length_cons, !length_app, length_firstn in H'.
      unfold rune_count in *. change (length [LF]) with 1%nat in H'. lia.
    + apply split_on_length in H'. unfold rune_count in *. lia.
Qed.

(** On every value the rule itself can have stored, the CASE expression of the
    UPDATE computes exactly [AppendErrorCause]. *)
Lemma sql_last_error_mirror e c : recorded e →
  sql_last_error (Some e) (BoundErrorCause c) = AppendErrorCause e c.
Proof.
  intros He. unfold sql_last_error, AppendErrorCause. rewrite (btrim_blank e He).
  destruct (is_empty (normalizeCause c)) eqn:Ec.
  { apply is_empty_true, BoundErrorCause_nil in Ec. rewrite Ec.
    destruct (is_empty (TrimSpace e)) eqn:Eb; [|done].
    apply is_empty_true in Eb. destruct He as [He _]. by rewrite He. }
  rewrite BoundErrorCause_normalize. destruct (is_empty (TrimSpace e)); [done|].
  apply is_empty_false in Ec.
  rewrite (proj2 (is_empty_false _)) by (by rewrite BoundErrorCause_nil).
  pose proof (sql_membership e c He Ec) as Hm.
  destruct (contains (LF :: _) _), (hasCause _ _), (contains _ e) eqn:Em; simpl in Hm; try done.
  destruct He as [_ [He|]]; [|congruence].
  rewrite truncateToRuneBudget_take by (vm_compute; discriminate).
  rewrite BoundErrorCause_cases. pose proof budget_val. pose proof marker_len.
  pose proof (rune_count_nonneg e).
  destruct (decide (rune_count (normalizeCause c) ≤ LastErrorCauseBudget)) as [Hn|Hn];
    [by rewrite (bool_decide_true _ Hn)|].
  rewrite (bool_decide_false _ Hn), !bool_decide_false; [done|lia|].
  rewrite rune_count_app. unfold rune_count in *. rewrite length_firstn. lia.
Qed.

Lemma sql_last_error_null c : sql_last_error None (BoundErrorCause c) = AppendErrorCause [] c.
Proof.
  unfold sql_last_error, AppendErrorCause. simpl.
  destruct (is_empty (normalizeCause c)) eqn:Ec; [|by rewrite BoundErrorCause_normalize].
  by apply BoundErrorCause_nil, is_empty_true.
Qed.

Lemma sql_last_error_stuck_mirror e :
  recorded e → sql_last_error_stuck (Some e) StuckInProcessingCause = AppendErrorCause e StuckInProcessingCause.
Proof.
  intros He. rewrite <- (sql_last_error_mirror e StuckInProcessingCause He).
  by replace (BoundErrorCause StuckInProcessingCause) with StuckInProcessingCause by (vm_compute; reflexivity).
Qed.

Lemma sql_last_error_stuck_null :
  sql_last_error_stuck None StuckInProcessingCause = AppendErrorCause [] StuckInProcessingCause.
Proof. vm_compute. reflexivity. Qed.

(** *** The record as the list of distinct causes *)

Fixpoint join_lf (es : list text) : text :=
  match es with
  | [] => []
  | [e] => e
  | e :: es' => e ++ LF :: join_lf es'
  end.

Definition add_cause (es : list text) (c : text) : list text :=
  let n := normalizeCause c in
  if (is_empty n || bool_decide (n ∈ es))%bool then es else es ++ [n].

(** The distinct non-empty causes, in order of first occurrence. *)
Definition distinct_causes (causes : list text) : list text := fold_left add_cause causes [].

(** An entry the record can hold: normalised, not blank, not the marker's text. *)
Definition entry_ok (e : text) : Prop :=
  (LF ∉ e) ∧ TrimSpace e ≠ [] ∧ has_prefix (tail LastErrorTruncationMarker) e = false.

Lemma join_lf_cons e e' es : join_lf (e :: e' :: es) = e ++ LF :: join_lf (e' :: es).
Proof. done. Qed.

Lemma join_lf_snoc es n : es ≠ [] → join_lf (es ++ [n]) = join_lf es ++ LF :: n.
Proof.
  induction es as [|e [|e' es] IH]; [done|done|]. intros _.
  rewrite <- !app_comm_cons. rewrite !join_lf_cons, <- app_assoc. f_equal.
  rewrite app_comm_cons, IH by done. done.
Qed.

Lemma split_join es : es ≠ [] → Forall (λ e, LF ∉ e) es → split_on LF (join_lf es) = es.
Proof.
  induction es as [|e [|e' es] IH]; [done| |]; intros _ H; inversion_clear H.
  - by apply split_on_plain.
  - rewrite join_lf_cons, split_on_app by done. f_equal. by apply IH.
Qed.

Lemma has_prefix_sep sep m e r : sep ∉ m → has_prefix m (e ++ sep :: r) = true → has_prefix m e = true.
Proof.
  revert m. induction e as [|a e IH]; intros [|b m] Hm; simpl; try done.
  - rewrite andb_true_iff, bool_decide_eq_true. intros [-> _]. set_solver.
  - rewrite !andb_true_iff. intros [? ?]. split; [done|]. apply IH; [set_solver|done].
Qed.

Lemma join_no_marker es : Forall entry_ok es → contains LastErrorTruncationMarker (join_lf es) = false.
Proof.
  change LastErrorTruncationMarker with (LF :: tail LastErrorTruncationMarker).
  set (m := tail LastErrorTruncationMarker).
  assert (Hm : LF ∉ m) by (refine (proj1 (bool_decide_eq_false (LF ∈ m)) _); vm_compute; reflexivity).
  assert (Hone : ∀ e, LF ∉ e → contains (LF :: m) e = false).
  { intros e He. rewrite <- (app_nil_r e), contains_skip by done. done. }
  induction es as [|e [|e' es] IH]; intros H; inversion_clear H as [|? ? [He [Hb Hp]] Hes].
  - done.
  - by apply Hone.
  - rewrite join_lf_cons, contains_skip by done.
    assert (E : contains (LF :: m) (LF :: join_lf (e' :: es))
      = (has_prefix m (join_lf (e' :: es)) || contains (LF :: m) (join_lf (e' :: es)))%bool) by done.
    rewrite E, IH, orb_false_r by done. apply not_true_iff_false. intros Hx.
    inversion_clear Hes as [|? ? [_ [_ Hp']] _]. apply not_true_iff_false in Hp'. apply Hp'.
    destruct es as [|e'' es]; [done|]. rewrite join_lf_cons in Hx. by apply has_prefix_sep in Hx.
Qed.

Lemma join_not_blank es : es ≠ [] → Forall entry_ok es → TrimSpace (join_lf es) ≠ [].
Proof.
  destruct es as [|e [|e' es]]; [done| |]; intros _ H; inversion_clear H as [|? ? [_ [Hb _]] _]; [done|].
  rewrite join_lf_cons. by apply not_blank_app_l.
Qed.

(** One recording step on a value that is still a plain list of causes. *)
Lemma AppendErrorCause_join es c :
  Forall entry_ok es → entry_ok (normalizeCause c) ∨ normalizeCause c = [] →
  rune_count (join_lf (add_cause es c)) ≤ LastErrorCauseBudget →
  AppendErrorCause (join_lf es) c = join_lf (add_cause es c).
Proof.
  intros Hes Hc Hlen. unfold AppendErrorCause, add_cause in *.
  destruct (is_empty (normalizeCause c)) eqn:Ec; simpl in *; [done|].
  destruct (decide (es = [])) as [->|Hne].
  { rewrite bool_decide_false in * by set_solver. simpl in *.
    unfold BoundErrorCause. rewrite normalizeCause_idem. by rewrite bool_decide_true. }
  rewrite (proj2 (is_empty_false _)) by (by apply join_not_blank).
  unfold hasCause. rewrite split_join; [|done|].
  2:{ eapply Forall_impl; [done|]. by intros ? [? _]. }
  case_bool_decide; [done|]. rewrite join_no_marker by done.
  rewrite join_lf_snoc in * by done.
  rewrite bool_decide_true; [done|].
  rewrite rune_count_app in Hlen. unfold rune_count in *. simpl in Hlen. lia.
Qed.

Lemma add_cause_entries es c :
  Forall entry_ok es → entry_ok (normalizeCause c) ∨ normalizeCause c = [] →
  Forall entry_ok (add_cause es c).
Proof.
  intros Hes Hc. unfold add_cause. destruct (is_empty _) eqn:E; simpl; [done|].
  case_bool_decide; [done|]. apply Forall_app. split; [done|]. apply is_empty_false in E.
  constructor; [by destruct Hc|constructor].
Qed.

Lemma add_cause_length es c : rune_count (join_lf es) ≤ rune_count (join_lf (add_cause es c)).
Proof.
  unfold add_cause. destruct (_ || _)%bool; [lia|].
  destruct (decide (es = [])) as [->|Hne]; [apply rune_count_nonneg|].
  rewrite join_lf_snoc, rune_count_app by done.
  pose proof (rune_count_nonneg (LF :: normalizeCause c)). lia.
Qed.

Lemma record_causes_distinct causes :
  Forall (λ c, entry_ok (normalizeCause c) ∨ normalizeCause c = []) causes →
  rune_count (join_lf (distinct_causes causes)) ≤ LastErrorCauseBudget →
  record_causes causes = join_lf (distinct_causes causes) ∧ Forall entry_ok (distinct_causes causes).
Proof.
  unfold record_causes, distinct_causes.
  induction causes as [|c cs IH] using rev_ind; [done|].
  rewrite !fold_left_app. simpl. intros [Hcs Hc]%Forall_app Hlen.
  rewrite Forall_singleton in Hc. set (es := fold_left add_cause cs []) in *.
  pose proof (add_cause_length es c).
  destruct IH as [IH1 IH2]; [done|lia|]. rewrite IH1. split.
  - by apply AppendErrorCause_join.
  - by apply add_cause_entries.
Qed.

(** Every step keeps the budgeted prefix of what was there. *)
Lemma AppendErrorCause_keeps e c :
  TrimSpace e ≠ [] →
  TrimSpace (AppendErrorCause e c) ≠ [] ∧
  ∃ k, AppendErrorCause e c = firstn (Z.to_nat LastErrorCauseBudget) e ++ k.
Proof.
  intros Hb. assert (Hkeep : ∃ k, e = firstn (Z.to_nat LastErrorCauseBudget) e ++ k).
  { exists (skipn (Z.to_nat LastErrorCauseBudget) e). by rewrite firstn_skipn. }
  unfold AppendErrorCause. destruct (is_empty (normalizeCause c)); [done|].
  rewrite (proj2 (is_empty_false _) Hb).
  destruct (hasCause _ _); [done|]. destruct (contains _ _); [done|]. case_bool_decide; split.
  - by apply not_blank_app_l.
  - destruct Hkeep as [k Hk]. eexists. rewrite Hk at 1. by rewrite <- app_assoc.
  - apply not_blank_app_r, marker_not_blank.
  - eexists. by rewrite truncateToRuneBudget_take by (vm_compute; discriminate).
Qed.

Lemma firstn_firstn_app {A} n (s k : list A) : ∃ k', firstn n (firstn n s ++ k) = firstn n s ++ k'.
Proof.
  exists (firstn (n - length (firstn n s)) k).
  rewrite firstn_app, firstn_firstn, Nat.min_id. done.
Qed.

Lemma record_keeps_prefix n cs e :
  TrimSpace e ≠ [] → (∃ k, e = firstn (Z.to_nat LastErrorCauseBudget) n ++ k) →
  ∃ k, fold_left AppendErrorCause cs e = firstn (Z.to_nat LastErrorCauseBudget) n ++ k.
Proof.
  revert e. induction cs as [|c cs IH]; intros e Hb [k Hk]; simpl; [by exists k|].
  destruct (AppendErrorCause_keeps e c Hb) as [Hb' [k' Hk']]. apply IH; [done|].
  rewrite Hk', Hk. destruct (firstn_firstn_app (Z.to_nat LastErrorCauseBudget) n k) as [k'' ->].
  exists (k'' ++ k'). by rewrite <- app_assoc.
Qed.

(** The column over a history of failed attempts, as the UPDATEs compute it. *)
Definition sql_history (causes : list text) : option text :=
  fold_left (λ le c, Some (sql_last_error le (BoundErrorCause c))) causes None.

Lemma sql_history_cases causes :
  sql_history causes = match causes with [] => None | _ => Some (record_causes causes) end.
Proof.
  unfold sql_history. induction causes as [|c cs IH] using rev_ind; [done|].
  rewrite fold_left_app. simpl. rewrite IH. unfold record_causes. rewrite fold_left_app. simpl.
  destruct cs as [|c0 cs'].
  - by rewrite sql_last_error_null.
  - rewrite <- app_comm_cons. f_equal.
    rewrite sql_last_error_mirror; [done|]. apply (record_causes_recorded (c0 :: cs')).
Qed.

(** ** Claims *)

(** However many causes are appended to a value that fits the
    [last_error VARCHAR(512)] column, the value still fits it, so no UPDATE
    can be rejected for width. *)
Theorem last_error_fits_column (e : text) (causes : list text) :
  rune_count e ≤ MaxLastErrorLength →
  rune_count (fold_left AppendErrorCause causes e) ≤ MaxLastErrorLength.
Proof.
  revert e. induction causes as [|c cs IH]; intros e He; simpl; [done|].
  by apply IH, AppendErrorCause_le_max.
Qed.

Lemma last_error_fits_column_witness :
  rune_count (fold_left AppendErrorCause [txt "timeout"; txt "broker down"] (repeat 97 512))
  ≤ MaxLastErrorLength.
Proof. apply last_error_fits_column. vm_compute. discriminate. Defined.

(** While the distinct causes fit the budget, the stored value is exactly
    the newline-separated list of the distinct normalised causes in order of
    first occurrence: repeats and blank causes change nothing and no distinct
    cause is lost (a cause that itself starts with the marker's text is the
    one excluded input). *)
Theorem last_error_accumulates (causes : list text) :
  Forall (λ c, entry_ok (normalizeCause c) ∨ normalizeCause c = []) causes →
  rune_count (join_lf (distinct_causes causes)) ≤ LastErrorCauseBudget →
  record_causes causes = join_lf (distinct_causes causes).
Proof. intros H1 H2. by destruct (record_causes_distinct causes H1 H2). Qed.

Lemma last_error_accumulates_witness :
  record_causes [txt "request timeout"; txt " timeout"; txt "request timeout"; txt ""]
  = txt "request timeout" ++ LF :: txt "timeout".
Proof.
  refine (eq_trans (last_error_accumulates _ _ _) _); [|vm_compute; discriminate|reflexivity].
  repeat (apply Forall_cons; split); try apply Forall_nil; try done;
    try (right; reflexivity); left;
    (split; [refine (proj1 (bool_decide_eq_false _) _); vm_compute; reflexivity|];
     split; [vm_compute; discriminate|vm_compute; reflexivity]).
Defined.

(** The first recorded cause is never evicted: whatever follows, the value
    starts with that cause (its first 483 runes when it is longer). *)
Theorem first_cause_survives (c : text) (cs : list text) :
  normalizeCause c ≠ [] →
  ∃ k, record_causes (c :: cs) = firstn (Z.to_nat LastErrorCauseBudget) (normalizeCause c) ++ k.
Proof.
  intros Hc. unfold record_causes. simpl.
  replace (AppendErrorCause [] c) with (BoundErrorCause c).
  2:{ unfold AppendErrorCause. rewrite (proj2 (is_empty_false _) Hc). simpl.
      by rewrite BoundErrorCause_normalize. }
  apply record_keeps_prefix.
  - intros E. destruct (recorded_bound c) as [Hb _]. apply Hc, BoundErrorCause_nil, Hb, E.
  - rewrite BoundErrorCause_cases. case_bool_decide as Hn; [|eauto].
    exists (skipn (Z.to_nat LastErrorCauseBudget) (normalizeCause c)). by rewrite firstn_skipn.
Qed.

Lemma first_cause_survives_witness :
  ∃ k, record_causes [txt "handler not registered"; repeat 98 600; txt "timeout"]
       = firstn (Z.to_nat LastErrorCauseBudget) (normalizeCause (txt "handler not registered")) ++ k.
Proof. apply first_cause_survives. vm_compute. discriminate. Defined.

(** C34: Over any history of failures of a row, the SQL expression that
    [MarkFailed] runs inside its UPDATE stores exactly what [AppendErrorCause]
    computes in Go. *)
Theorem sql_mirrors_AppendErrorCause (causes : list text) (c : text) :
  sql_last_error (sql_history causes) (BoundErrorCause c) = record_causes (causes ++ [c]).
Proof.
  pose proof (sql_history_cases (causes ++ [c])) as H.
  unfold sql_history in *. rewrite fold_left_app in H. simpl in H.
  destruct (causes ++ [c]) eqn:E; [by destruct causes|]. by injection H.
Qed.

(** Outside those histories the two expressions differ: a row written
    before the rule existed can hold one cause longer than the budget (here
    500 runes, no marker), and when the same cause is reported again Go leaves
    the value alone while the UPDATE trims it and appends the marker. *)
Theorem sql_mirror_differs_on_legacy_rows :
  let c := repeat 97 500 in
  AppendErrorCause c c = c ∧
  sql_last_error (Some c) (BoundErrorCause c) = firstn 483 c ++ LastErrorTruncationMarker.
Proof. split; vm_compute; reflexivity. Qed.
