(* ===== verification/OutboxEvent.v ===== *)
(** Outbox events: lifecycle states ([outbox/status.go]), construction
    ([outbox/event.go]), the handler registry ([outbox/handler.go],
    [outbox/classifier.go]) and the tenant carried by a context
    ([outbox/tenant.go], [tenant-manager/core/validation.go]). *)

From stdpp Require Import base numbers list gmap strings.
From S2P Require Import Prelude GoText.

Local Open Scope Z_scope.
Local Open Scope go_scope.

(** A [uuid.UUID] is its 128-bit value; [uuid.Nil] is 0. *)
Abbreviation uuid := Z (only parsing).
Definition uuid_nil : uuid := 0.
Definition is_nil (id : uuid) : bool := bool_decide (id = uuid_nil).

(** The sentinel errors of [outbox/errors.go] and [outbox/tenant.go]. *)
Inductive outbox_error :=
| ErrOutboxEventRequired
| ErrOutboxRepositoryRequired
| ErrOutboxDispatcherRequired
| ErrOutboxDispatcherRunning
| ErrOutboxEventPayloadRequired
| ErrOutboxEventPayloadTooLarge
| ErrOutboxEventPayloadNotJSON
| ErrHandlerRegistryRequired
| ErrEventTypeRequired
| ErrEventHandlerRequired
| ErrHandlerAlreadyRegistered
| ErrHandlerNotRegistered
| ErrTenantIDRequired
| ErrOutboxStatusInvalid
| ErrOutboxTransitionInvalid
| ErrReplayConflict
| ErrStuckAttemptsExhausted
| ErrOutboxRetentionConfigInvalid
| ErrOutboxRetentionUnsupported
| ErrTenantIDWhitespace
| ErrInvalidTenantID
| ErrAssertion.   (* the error of a failed assertion of lib-observability *)

#[export] Instance outbox_error_eq_dec : EqDecision outbox_error.
Proof. solve_decision. Defined.

(** ** Lifecycle states *)

Definition OutboxStatusPending : text := txt "PENDING".
Definition OutboxStatusProcessing : text := txt "PROCESSING".
Definition OutboxStatusPublished : text := txt "PUBLISHED".
Definition OutboxStatusFailed : text := txt "FAILED".
Definition OutboxStatusInvalid : text := txt "INVALID".

Definition IsValid (status : text) : bool :=
  ((status =t OutboxStatusPending) || (status =t OutboxStatusProcessing)
   || (status =t OutboxStatusPublished) || (status =t OutboxStatusFailed)
   || (status =t OutboxStatusInvalid))%bool.

Definition ParseOutboxEventStatus (raw : text) : result outbox_error text :=
  if negb (IsValid raw) then Err ErrOutboxStatusInvalid else Ok raw.

Definition CanTransitionTo (status next : text) : bool :=
  if (status =t OutboxStatusPending) then (next =t OutboxStatusProcessing)
  else if (status =t OutboxStatusFailed) then (next =t OutboxStatusProcessing)
  else if (status =t OutboxStatusProcessing) then
    ((next =t OutboxStatusProcessing) || (next =t OutboxStatusPublished)
     || (next =t OutboxStatusFailed) || (next =t OutboxStatusInvalid))%bool
  else if ((status =t OutboxStatusPublished) || (status =t OutboxStatusInvalid))%bool then false
  else false.

Definition ValidateOutboxTransition (fromRaw toRaw : text) : result outbox_error unit :=
  from ← ParseOutboxEventStatus fromRaw;
  to ← ParseOutboxEventStatus toRaw;
  if negb (CanTransitionTo from to) then Err ErrOutboxTransitionInvalid else Ok tt.

(** *** The lifecycle as a state machine *)

Inductive phase := Pending | Processing | Published | Failed | Invalid.

#[export] Instance phase_eq_dec : EqDecision phase.
Proof. solve_decision. Defined.

Definition phase_text (p : phase) : text :=
  match p with
  | Pending => OutboxStatusPending
  | Processing => OutboxStatusProcessing
  | Published => OutboxStatusPublished
  | Failed => OutboxStatusFailed
  | Invalid => OutboxStatusInvalid
  end.

Inductive phase_step : phase → phase → Prop :=
| step_claim : phase_step Pending Processing
| step_retry : phase_step Failed Processing
| step_reclaim : phase_step Processing Processing
| step_publish : phase_step Processing Published
| step_fail : phase_step Processing Failed
| step_invalidate : phase_step Processing Invalid.

#[export] Hint Constructors phase_step : commons.

#[export] Instance phase_text_inj : Inj (=) (=) phase_text.
Proof. intros [] [] E; first [reflexivity | vm_compute in E; discriminate E]. Qed.

Lemma IsValid_phase s : IsValid s = true ↔ ∃ p, s = phase_text p.
Proof.
  unfold IsValid. rewrite !orb_true_iff, !eqt_true. split.
  - intros [[[[->| ->]| ->]| ->]| ->];
      [exists Pending|exists Processing|exists Published|exists Failed|exists Invalid]; done.
  - intros [[] ->]; simpl; tauto.
Qed.

Lemma CanTransitionTo_phase p q : CanTransitionTo (phase_text p) (phase_text q) = true ↔ phase_step p q.
Proof.
  split.
  - destruct p, q; vm_compute; intros; first [discriminate | constructor].
  - by destruct 1.
Qed.

(** The validated transitions are the steps of the state machine. *)
Lemma ValidateOutboxTransition_phase a b :
  ValidateOutboxTransition a b = Ok tt ↔
  ∃ p q, a = phase_text p ∧ b = phase_text q ∧ phase_step p q.
Proof.
  unfold ValidateOutboxTransition, ParseOutboxEventStatus, mbind, result_bind. split.
  - intros Hv. destruct (IsValid a) eqn:Ha; [|done]. destruct (IsValid b) eqn:Hb; [|done]. simpl in Hv.
    apply IsValid_phase in Ha as [p ->]. apply IsValid_phase in Hb as [q ->].
    exists p, q. split_and!; [done..|]. apply CanTransitionTo_phase.
    by destruct (CanTransitionTo _ _).
  - intros (p & q & -> & -> & Hs%CanTransitionTo_phase).
    rewrite (proj2 (IsValid_phase _)), (proj2 (IsValid_phase _)) by eauto. simpl. by rewrite Hs.
Qed.

(** ** Events *)

Record OutboxEvent := {
  ID : uuid;
  EventType : text;
  AggregateID : uuid;
  Payload : list Z;           (* bytes *)
  Status : text;
  Attempts : Z;
  PublishedAt : option gotime;
  LastError : text;
  CreatedAt : gotime;
  UpdatedAt : gotime;
}.

#[export] Instance OutboxEvent_eq_dec : EqDecision OutboxEvent.
Proof. solve_decision. Defined.

Definition DefaultMaxPayloadBytes : Z := Z.shiftl 1 20.

Definition payload_len (payload : list Z) : Z := Z.of_nat (length payload).

Section construction.
(** [json.Valid] of the standard library, on bytes. *)
Context (json_valid : list Z → bool).

Definition NewOutboxEventWithID (now : gotime) (eventID : uuid) (eventType : text)
    (aggregateID : uuid) (payload : list Z) : result outbox_error OutboxEvent :=
  if is_nil eventID then Err ErrAssertion else
  let eventType := TrimSpace eventType in
  if is_empty eventType then Err ErrAssertion else
  if is_nil aggregateID then Err ErrAssertion else
  if negb (bool_decide (payload_len payload > 0)) then Err ErrAssertion else
  if negb (bool_decide (payload_len payload ≤ DefaultMaxPayloadBytes)) then Err ErrOutboxEventPayloadTooLarge else
  if negb (json_valid payload) then Err ErrOutboxEventPayloadNotJSON else
  Ok {| ID := eventID; EventType := eventType; AggregateID := aggregateID; Payload := payload;
        Status := OutboxStatusPending; Attempts := 0; PublishedAt := None; LastError := [];
        CreatedAt := now; UpdatedAt := now |}.

(** [uuid.New()] supplies [fresh]. *)
Definition NewOutboxEvent (now : gotime) (fresh : uuid) (eventType : text)
    (aggregateID : uuid) (payload : list Z) : result outbox_error OutboxEvent :=
  NewOutboxEventWithID now fresh eventType aggregateID payload.
End construction.

(** ** Handler registry *)

Section registry.
(** [H] is the type of handlers; a nil handler is [None]. *)
Context {H : Type}.

Definition Register (handlers : gmap text H) (eventType : text) (handler : option H)
    : result outbox_error unit * gmap text H :=
  let normalizedType := TrimSpace eventType in
  if is_empty normalizedType then (Err ErrEventTypeRequired, handlers)
  else match handler with
  | None => (Err ErrEventHandlerRequired, handlers)
  | Some h =>
      match handlers !! normalizedType with
      | Some _ => (Err ErrHandlerAlreadyRegistered, handlers)
      | None => (Ok tt, <[normalizedType := h]> handlers)
      end
  end.

(** The handler [Handle] runs for an event, or why it runs none. *)
Definition Handle (handlers : gmap text H) (event : OutboxEvent) : result outbox_error H :=
  let eventType := TrimSpace (EventType event) in
  if is_empty eventType then Err ErrEventTypeRequired
  else match handlers !! eventType with
       | None => Err ErrHandlerNotRegistered
       | Some h => Ok h
       end.
End registry.

(** [RetryClassifierFunc.IsNonRetryable]: a nil classifier retries everything. *)
Definition IsNonRetryable {E : Type} (fn : option (E → bool)) (err : E) : bool :=
  match fn with None => false | Some f => f err end.

(** ** Tenant identity *)

Definition MaxTenantIDLength : Z := 256.

Definition isTenantIDAlnum (c : Z) : bool :=
  (bool_decide (48 ≤ c ≤ 57) || bool_decide (97 ≤ c ≤ 122) || bool_decide (65 ≤ c ≤ 90))%bool.

Definition IsValidTenantID (id : text) : bool :=
  match id with
  | [] => false
  | c :: rest =>
      if bool_decide (Z.of_nat (length id) > MaxTenantIDLength) then false
      else (isTenantIDAlnum c
            && forallb (λ c, isTenantIDAlnum c || bool_decide (c = 45) || bool_decide (c = 95)) rest)%bool
  end.

(** The two context values the tenant is read from: the tenant-manager one and
    the deprecated outbox one. *)
Record Ctx := { core_tenant : option text; outbox_tenant : option text }.

Definition Background : Ctx := {| core_tenant := None; outbox_tenant := None |}.

Definition GetTenantIDContext (ctx : Ctx) : text :=
  match core_tenant ctx with Some id => id | None => [] end.

Definition ContextWithTenantID (ctx : Ctx) (tenantID : text) : Ctx :=
  let trimmed := TrimSpace tenantID in
  if is_empty trimmed then ctx
  else {| core_tenant := Some trimmed; outbox_tenant := Some trimmed |}.

Definition ContextWithTenantIDStrict (ctx : Ctx) (tenantID : text) : Ctx * result outbox_error unit :=
  let trimmed := TrimSpace tenantID in
  if is_empty trimmed then (ctx, Ok tt)
  else if negb (IsValidTenantID trimmed) then (ctx, Err ErrInvalidTenantID)
  else
    let ctx := {| core_tenant := Some trimmed; outbox_tenant := Some trimmed |} in
    if negb (trimmed =t tenantID) then (ctx, Err ErrTenantIDWhitespace) else (ctx, Ok tt).

Definition TenantIDFromContext (ctx : Ctx) : option text :=
  let trimmed := TrimSpace (GetTenantIDContext ctx) in
  if negb (is_empty trimmed) then Some trimmed
  else match outbox_tenant ctx with
       | None => None
       | Some tenantID =>
           let trimmed := TrimSpace tenantID in
           if is_empty trimmed then None else Some trimmed
       end.

(** ** Lemmas *)

Lemma TenantIDFromContext_with ctx id :
  TrimSpace id ≠ [] → TenantIDFromContext (ContextWithTenantID ctx id) = Some (TrimSpace id).
Proof.
  intros Hid. unfold ContextWithTenantID. rewrite (proj2 (is_empty_false _) Hid).
  unfold TenantIDFromContext, GetTenantIDContext. simpl. rewrite TrimSpace_idem.
  by rewrite (proj2 (is_empty_false _) Hid).
Qed.

Lemma TenantIDFromContext_trimmed ctx id :
  TenantIDFromContext ctx = Some id → id ≠ [] ∧ TrimSpace id = id.
Proof.
  unfold TenantIDFromContext. destruct (is_empty (TrimSpace (GetTenantIDContext ctx))) eqn:E; simpl.
  - destruct (outbox_tenant ctx) as [t|]; [|done]. destruct (is_empty (TrimSpace t)) eqn:E'; [done|].
    intros; simplify_eq. by rewrite TrimSpace_idem, <- is_empty_false.
  - intros; simplify_eq. by rewrite TrimSpace_idem, <- is_empty_false.
Qed.

Lemma NewOutboxEventWithID_ok json_valid now id ty agg payload e :
  NewOutboxEventWithID json_valid now id ty agg payload = Ok e →
  ID e = id ∧ id ≠ uuid_nil ∧ EventType e = TrimSpace ty ∧ EventType e ≠ [] ∧
  0 < payload_len (Payload e) ≤ DefaultMaxPayloadBytes ∧ json_valid (Payload e) = true ∧
  Status e = OutboxStatusPending ∧ Attempts e = 0.
Proof.
  unfold NewOutboxEventWithID, is_nil. intros He.
  destruct (bool_decide (id = _)) eqn:Hid; [discriminate|].
  destruct (is_empty (TrimSpace ty)) eqn:Hty; [discriminate|].
  destruct (bool_decide (agg = _)) eqn:Hagg; [discriminate|].
  destruct (bool_decide (payload_len payload > 0)) eqn:Hp; [|discriminate].
  destruct (bool_decide (payload_len payload ≤ _)) eqn:Hm; [|discriminate].
  destruct (json_valid payload) eqn:Hj; [|discriminate].
  injection He as <-. bool_to_prop. apply is_empty_false in Hty.
  cbn [ID EventType Payload Status Attempts]. split_and!; auto; lia.
Qed.

(** A registered handler is the one that runs, for any spelling of the type
    that trims to the same text, and a second registration changes nothing. *)
Lemma Register_Handle {H} (hs hs' : gmap text H) ty h e :
  Register hs ty (Some h) = (Ok tt, hs') → TrimSpace (EventType e) = TrimSpace ty →
  Handle hs' e = Ok h ∧
  (∀ ty' h', TrimSpace ty' = TrimSpace ty → Register hs' ty' (Some h') = (Err ErrHandlerAlreadyRegistered, hs')) ∧
  (∀ e', TrimSpace (EventType e') ≠ TrimSpace ty → Handle hs' e' = Handle hs e').
Proof.
  unfold Register, Handle. intros Hr Ht. destruct (is_empty (TrimSpace ty)) eqn:He; [done|].
  destruct (hs !! TrimSpace ty) eqn:Hl; simplify_eq/=. rewrite Ht, He. split_and!.
  - by rewrite lookup_insert_eq.
  - intros ty' h' ->. by rewrite He, lookup_insert_eq.
  - intros e' Hne. by rewrite lookup_insert_ne.
Qed.
