(* ===== verification/OutboxPostgres.v ===== *)
(** The PostgreSQL outbox repository: [outbox/postgres/repository.go],
    [state_transitions.go], [pending_types.go], [retention.go], [batch.go],
    [event_helpers.go] and [result_helpers.go].

    The table is the list of its rows; the order of the list is the physical
    order, which settles ties of an ORDER BY, so a statement about every table
    covers every tie-break.  One [Tx] value describes what the environment does
    during one call: driver faults, rows locked by other transactions, the
    clock.  In schema-per-tenant and pool-per-tenant modes the table is the one
    the tenant resolver routes the transaction to; in column-per-tenant mode
    rows of all tenants share it and carry [r_tenant]. *)

From stdpp Require Import base numbers list gmap strings sorting.
From S2P Require Import Prelude GoText OutboxLastError OutboxEvent.

Local Open Scope Z_scope.
Local Open Scope go_scope.

(** ** Rows, errors, environment *)

Record Row := {
  r_id : uuid;
  r_tenant : text;
  r_event_type : text;
  r_aggregate_id : uuid;
  r_payload : list Z;
  r_status : text;
  r_attempts : Z;
  r_published_at : option gotime;
  r_last_error : option text;
  r_created_at : gotime;
  r_updated_at : gotime;
}.

#[export] Instance Row_eq_dec : EqDecision Row.
Proof. solve_decision. Defined.

Abbreviation table := (list Row).

(** The columns an UPDATE of this repository assigns. *)
Definition upd (r : Row) (status : text) (attempts : Z) (published : option gotime)
    (last_error : option text) (updated : gotime) : Row :=
  {| r_id := r_id r; r_tenant := r_tenant r; r_event_type := r_event_type r;
     r_aggregate_id := r_aggregate_id r; r_payload := r_payload r; r_status := status;
     r_attempts := attempts; r_published_at := published; r_last_error := last_error;
     r_created_at := r_created_at r; r_updated_at := updated |}.

(** Column widths of the shipped migrations: [event_type VARCHAR(255)] and
    [last_error VARCHAR(512)]; a longer value is rejected, not truncated. *)
Definition row_fits (r : Row) : bool :=
  (bool_decide (rune_count (r_event_type r) ≤ 255)
   && match r_last_error r with None => true | Some e => bool_decide (rune_count e ≤ 512) end)%bool.

Inductive pg_error :=
| ErrStateTransitionConflict
| ErrRepositoryNotInitialized
| ErrLimitMustBePositive
| ErrIDRequired
| ErrAggregateIDRequired
| ErrMaxAttemptsMustBePositive
| ErrPgEventTypeRequired
| ErrNoRows                       (* sql.ErrNoRows *)
| ErrDatabase                     (* any other driver error *)
| ErrBatch                        (* the consistency errors of orderCreatedEvents *)
| OutboxErr (e : outbox_error).

#[export] Instance pg_error_eq_dec : EqDecision pg_error.
Proof. solve_decision. Defined.

Record Repository := {
  repo_initialized : bool;
  tenantColumn : text;
  requireTenant : bool;
}.

Inductive commit_outcome :=
| CommitOk
| CommitFailed     (* error, nothing committed *)
| CommitLost.      (* error, but the server had committed *)

Inductive table_presence := TablePresent | TableMissing | ProbeFailed.

Record Tx := {
  tx_primary : bool;               (* primaryDB resolves *)
  tx_begin : bool;                 (* BeginTx succeeds *)
  tx_apply : text → bool;          (* TenantResolver.ApplyTenant succeeds *)
  tx_stmt : nat → bool;            (* the n-th statement reaches the server *)
  tx_commit : commit_outcome;
  tx_locked : Row → bool;          (* held by another transaction *)
  tx_presence : table_presence;    (* tenantOutboxTableMissing *)
  tx_now : gotime;                 (* time.Now().UTC() *)
}.

(** ** Transactions *)

(** Code running inside a transaction: it sees and changes the table, and an
    error carries no table because the transaction is rolled back. *)
Definition txm (A : Type) : Type := table → result pg_error (A * table).

#[export] Instance txm_ret : MRet txm := λ A a tbl, Ok (a, tbl).

#[export] Instance txm_bind : MBind txm := λ A B f m tbl,
  match m tbl with Ok (a, tbl') => f a tbl' | Err e => Err e end.

Definition lift {A} (r : result pg_error A) : txm A := λ tbl,
  match r with Ok a => Ok (a, tbl) | Err e => Err e end.

Definition fail {A} (e : pg_error) : txm A := λ _, Err e.

(** UPDATE ... SET f WHERE p, answering the number of rows affected. *)
Definition sql_update (tx : Tx) (n : nat) (p : Row → bool) (f : Row → Row) : txm Z := λ tbl,
  if negb (tx_stmt tx n) then Err ErrDatabase
  else if existsb (λ r, p r && negb (row_fits (f r)))%bool tbl then Err ErrDatabase
  else Ok (Z.of_nat (length (List.filter p tbl)), map (λ r, if p r then f r else r) tbl).

(** ORDER BY a lexicographic key. *)
Definition order_by (key : Row → list Z) : relation Row := λ a b, Is_true (lex_le (key a) (key b)).

#[export] Instance order_by_dec key : RelDecision (order_by key).
Proof. intros a b. unfold order_by. apply _. Defined.

(** SELECT ... WHERE p ORDER BY key LIMIT limit *)
Definition select_rows (p : Row → bool) (key : Row → list Z) (limit : Z) (tbl : table) : list Row :=
  firstn (Z.to_nat limit) (merge_sort (order_by key) (List.filter p tbl)).

Definition scanOutboxEvent (r : Row) : OutboxEvent :=
  {| ID := r_id r; EventType := r_event_type r; AggregateID := r_aggregate_id r;
     Payload := r_payload r; Status := r_status r; Attempts := r_attempts r;
     PublishedAt := r_published_at r;
     LastError := match r_last_error r with Some e => e | None => [] end;
     CreatedAt := r_created_at r; UpdatedAt := r_updated_at r |}.

(** [queryOutboxEvents]; with [forUpdate], FOR UPDATE SKIP LOCKED. *)
Definition queryOutboxEvents (tx : Tx) (n : nat) (forUpdate : bool) (p : Row → bool)
    (key : Row → list Z) (limit : Z) : txm (list OutboxEvent) := λ tbl,
  if negb (tx_stmt tx n) then Err ErrDatabase
  else
    let p := λ r, (p r && negb (forUpdate && tx_locked tx r))%bool in
    Ok (map scanOutboxEvent (select_rows p key limit tbl), tbl).

Definition ensureRowsAffected (rows : Z) : result pg_error unit :=
  if bool_decide (rows = 0) then Err ErrStateTransitionConflict else Ok tt.

Definition ensureRowsAffectedExact (rows expected : Z) : result pg_error unit :=
  if bool_decide (rows ≠ expected) then Err ErrStateTransitionConflict else Ok tt.

(** ** Tenant scoping *)

Definition tenantIDFromContext (repo : Repository) (ctx : Ctx) : result pg_error text :=
  match TenantIDFromContext ctx with
  | None =>
      if (negb (is_empty (tenantColumn repo)) || requireTenant repo)%bool
      then Err (OutboxErr ErrTenantIDRequired) else Ok []
  | Some tenantID =>
      if ((negb (is_empty (tenantColumn repo)) || requireTenant repo) && is_empty tenantID)%bool
      then Err (OutboxErr ErrTenantIDRequired) else
      let tenantID := TrimSpace tenantID in
      if is_empty tenantID then Err (OutboxErr ErrTenantIDRequired)
      else if negb (IsValidTenantID tenantID) then Err (OutboxErr ErrInvalidTenantID)
      else Ok tenantID
  end.

(** The [AND tenant_column = $n] clause as the predicate it adds. *)
Definition tenantFilterClause (repo : Repository) (tenantID : text) : result pg_error (Row → bool) :=
  if is_empty (tenantColumn repo) then Ok (λ _, true)
  else if is_empty tenantID then Err (OutboxErr ErrTenantIDRequired)
  else Ok (λ r, r_tenant r =t tenantID).

Definition RequiresTenant (repo : Repository) : bool :=
  (requireTenant repo || negb (is_empty (tenantColumn repo)))%bool.

(** [withTenantTxOrExisting]; [existing] is [tx != nil]: the function then runs
    on the caller's transaction, whose table state is handed back as it is. *)
Definition withTenantTxOrExisting {T} (repo : Repository) (ctx : Ctx) (tx : Tx) (existing : bool)
    (fn : txm T) (tbl : table) : result pg_error T * table :=
  if existing then
    match tenantIDFromContext repo ctx with
    | Err e => (Err e, tbl)
    | Ok tenantID =>
        if negb (tx_apply tx tenantID) then (Err ErrDatabase, tbl)
        else match fn tbl with Ok (a, tbl') => (Ok a, tbl') | Err e => (Err e, tbl) end
    end
  else if negb (tx_primary tx) then (Err ErrDatabase, tbl)
  else if negb (tx_begin tx) then (Err ErrDatabase, tbl)
  else
    match tenantIDFromContext repo ctx with
    | Err e => (Err e, tbl)
    | Ok tenantID =>
        if negb (tx_apply tx tenantID) then (Err ErrDatabase, tbl)
        else match fn tbl with
             | Err e => (Err e, tbl)
             | Ok (a, tbl') =>
                 match tx_commit tx with
                 | CommitOk => (Ok a, tbl')
                 | CommitFailed => (Err ErrDatabase, tbl)
                 | CommitLost => (Err ErrDatabase, tbl')
                 end
             end
    end.

(** ** Creating *)

Section create.
(** [json.Valid], and what a JSONB column stores for a document: equal
    documents are stored as the same value. *)
Context (json_valid : list Z → bool) (jsonb : list Z → list Z).

Definition validateCreateEvent (event : OutboxEvent) : result pg_error unit :=
  if is_nil (ID event) then Err ErrIDRequired
  else if is_empty (TrimSpace (EventType event)) then Err ErrPgEventTypeRequired
  else if is_nil (AggregateID event) then Err ErrAggregateIDRequired
  else if bool_decide (payload_len (Payload event) = 0) then Err (OutboxErr ErrOutboxEventPayloadRequired)
  else if bool_decide (payload_len (Payload event) > DefaultMaxPayloadBytes)
  then Err (OutboxErr ErrOutboxEventPayloadTooLarge)
  else if negb (json_valid (Payload event)) then Err (OutboxErr ErrOutboxEventPayloadNotJSON)
  else Ok tt.

(** The values an INSERT writes for an event, as a row of [tenantID]. *)
Definition normalizedCreateValues (event : OutboxEvent) (now : gotime) (tenantID : text) : Row :=
  let createdAt := if time_is_zero (CreatedAt event) then now else CreatedAt event in
  let updatedAt :=
    if (time_is_zero (UpdatedAt event) || time_before (UpdatedAt event) createdAt)%bool
    then createdAt else UpdatedAt event in
  {| r_id := ID event; r_tenant := tenantID; r_event_type := TrimSpace (EventType event);
     r_aggregate_id := AggregateID event; r_payload := jsonb (Payload event);
     r_status := OutboxStatusPending; r_attempts := 0; r_published_at := None;
     r_last_error := Some []; r_created_at := createdAt; r_updated_at := updatedAt |}.

(** Two rows with the same primary key: [(id)], or [(tenant_id, id)] in
    column-per-tenant mode. *)
Definition same_key (repo : Repository) (a b : Row) : bool :=
  (bool_decide (r_id a = r_id b)
   && (is_empty (tenantColumn repo) || (r_tenant a =t r_tenant b)))%bool.

(** INSERT INTO ... VALUES ... RETURNING *)
Definition sql_insert (repo : Repository) (tx : Tx) (n : nat) (row : Row) : txm Row := λ tbl,
  if negb (tx_stmt tx n) then Err ErrDatabase
  else if negb (row_fits row) then Err ErrDatabase
  else if existsb (same_key repo row) tbl then Err ErrDatabase
  else Ok (row, tbl ++ [row]).

Definition insert_tenant (repo : Repository) (ctx : Ctx) : result pg_error text :=
  if negb (is_empty (tenantColumn repo)) then tenantIDFromContext repo ctx else Ok [].

Definition create (repo : Repository) (ctx : Ctx) (tx : Tx) (existing : bool) (event : OutboxEvent)
    (tbl : table) : result pg_error OutboxEvent * table :=
  if negb (repo_initialized repo) then (Err ErrRepositoryNotInitialized, tbl) else
  match validateCreateEvent event with
  | Err e => (Err e, tbl)
  | Ok _ =>
      withTenantTxOrExisting repo ctx tx existing (
        (tenantID ← lift (insert_tenant repo ctx);
         row ← sql_insert repo tx 0 (normalizedCreateValues event (tx_now tx) tenantID);
         mret (scanOutboxEvent row)) : txm OutboxEvent) tbl
  end.

(** INSERT ... ON CONFLICT key DO UPDATE SET id = EXCLUDED.id WHERE content
    is equal RETURNING: the stored row, or no row on divergent content. *)
Definition sql_upsert (repo : Repository) (tx : Tx) (n : nat) (row : Row) : txm (option Row) := λ tbl,
  if negb (tx_stmt tx n) then Err ErrDatabase
  else if negb (row_fits row) then Err ErrDatabase
  else match List.find (same_key repo row) tbl with
       | None => Ok (Some row, tbl ++ [row])
       | Some stored =>
           if ((r_event_type stored =t r_event_type row)
               && bool_decide (r_aggregate_id stored = r_aggregate_id row)
               && (r_payload stored =t r_payload row))%bool
           then Ok (Some stored, tbl) else Ok (None, tbl)
       end.

Definition CreateIdempotentWithTx (repo : Repository) (ctx : Ctx) (tx : Tx) (existing : bool)
    (event : OutboxEvent) (tbl : table) : result pg_error OutboxEvent * table :=
  if negb (repo_initialized repo) then (Err ErrRepositoryNotInitialized, tbl) else
  match validateCreateEvent event with
  | Err e => (Err e, tbl)
  | Ok _ =>
      withTenantTxOrExisting repo ctx tx existing (
        (tenantID ← lift (insert_tenant repo ctx);
         stored ← sql_upsert repo tx 0 (normalizedCreateValues event (tx_now tx) tenantID);
         match stored with
         | Some row => mret (scanOutboxEvent row)
         | None => fail (OutboxErr ErrReplayConflict)
         end) : txm OutboxEvent) tbl
  end.

(** [Create] runs in a transaction of its own; [CreateWithTx] joins the
    caller's one when it is given. *)
Definition Create (repo : Repository) (ctx : Ctx) (tx : Tx) (event : OutboxEvent) (tbl : table)
    : result pg_error OutboxEvent * table := create repo ctx tx false event tbl.

Definition CreateWithTx (repo : Repository) (ctx : Ctx) (tx : Tx) (existing : bool) (event : OutboxEvent)
    (tbl : table) : result pg_error OutboxEvent * table := create repo ctx tx existing event tbl.

(** The validation loop of [CreateManyWithTx]. *)
Fixpoint validate_all (events : list OutboxEvent) : result pg_error unit :=
  match events with
  | [] => Ok tt
  | event :: rest => match validateCreateEvent event with Err e => Err e | Ok _ => validate_all rest end
  end.

(** INSERT INTO ... VALUES (...), (...), ... RETURNING: one statement, so a
    row that is refused refuses them all. *)
Fixpoint insert_all (repo : Repository) (rows : list Row) (tbl : table) : option table :=
  match rows with
  | [] => Some tbl
  | row :: rest =>
      if (negb (row_fits row) || existsb (same_key repo row) tbl)%bool then None
      else insert_all repo rest (tbl ++ [row])
  end.

Definition sql_insert_many (repo : Repository) (tx : Tx) (n : nat) (rows : list Row) : txm (list Row) := λ tbl,
  if negb (tx_stmt tx n) then Err ErrDatabase
  else match insert_all repo rows tbl with None => Err ErrDatabase | Some tbl' => Ok (rows, tbl') end.

(** The two loops of [orderCreatedEvents]. *)
Fixpoint index_by_id (byID : gmap Z OutboxEvent) (inserted : list OutboxEvent)
    : result pg_error (gmap Z OutboxEvent) :=
  match inserted with
  | [] => Ok byID
  | event :: rest =>
      match byID !! ID event with
      | Some _ => Err ErrBatch
      | None => index_by_id (<[ID event := event]> byID) rest
      end
  end.

Fixpoint pick_in_order (byID : gmap Z OutboxEvent) (input : list OutboxEvent)
    : result pg_error (list OutboxEvent) :=
  match input with
  | [] => Ok []
  | event :: rest =>
      match byID !! ID event with
      | None => Err ErrBatch
      | Some created => ordered ← pick_in_order byID rest; Ok (created :: ordered)
      end
  end.

Definition orderCreatedEvents (input inserted : list OutboxEvent) : result pg_error (list OutboxEvent) :=
  if bool_decide (length inserted ≠ length input) then Err ErrBatch else
  byID ← index_by_id ∅ inserted;
  pick_in_order byID input.

Definition CreateManyWithTx (repo : Repository) (ctx : Ctx) (tx : Tx) (existing : bool)
    (events : list OutboxEvent) (tbl : table) : result pg_error (list OutboxEvent) * table :=
  if negb (repo_initialized repo) then (Err ErrRepositoryNotInitialized, tbl)
  else if bool_decide (length events = 0%nat) then (Ok [], tbl)
  else match validate_all events with
  | Err e => (Err e, tbl)
  | Ok _ =>
      withTenantTxOrExisting repo ctx tx existing (
        (tenantID ← lift (insert_tenant repo ctx);
         rows ← sql_insert_many repo tx 0 (map (λ e, normalizedCreateValues e (tx_now tx) tenantID) events);
         lift (orderCreatedEvents events (map scanOutboxEvent rows))) : txm (list OutboxEvent)) tbl
  end.
End create.

(** ** Claiming *)

Definition collectEventIDs (events : list OutboxEvent) : list uuid :=
  map ID (List.filter (λ e, negb (is_nil (ID e))) events).

Definition set_processing (e : OutboxEvent) (now : gotime) : OutboxEvent :=
  {| ID := ID e; EventType := EventType e; AggregateID := AggregateID e; Payload := Payload e;
     Status := OutboxStatusProcessing; Attempts := Attempts e; PublishedAt := PublishedAt e;
     LastError := LastError e; CreatedAt := CreatedAt e; UpdatedAt := now |}.

Definition applyProcessingState (events : list OutboxEvent) (now : gotime) : list OutboxEvent :=
  map (λ e, set_processing e now) events.

Definition id_in (ids : list uuid) (r : Row) : bool := bool_decide (r_id r ∈ ids).

Definition lift_outbox {A} (r : result outbox_error A) : result pg_error A :=
  match r with Ok a => Ok a | Err e => Err (OutboxErr e) end.

Definition markEventsWithStatus (repo : Repository) (tx : Tx) (n : nat) (now : gotime) (status : text)
    (ids : list uuid) (tenantID fromStatus : text) : txm unit :=
  _ ← lift (lift_outbox (ValidateOutboxTransition fromStatus status));
  filter ← lift (tenantFilterClause repo tenantID);
  rows ← sql_update tx n
    (λ r, id_in ids r && (r_status r =t fromStatus) && filter r)%bool
    (λ r, upd r status (r_attempts r) (r_published_at r) (r_last_error r) now);
  lift (ensureRowsAffectedExact rows (Z.of_nat (length ids))).

Definition markEventsProcessing (repo : Repository) (tx : Tx) (n : nat) (now : gotime)
    (ids : list uuid) (tenantID fromStatus : text) : txm unit :=
  markEventsWithStatus repo tx n now OutboxStatusProcessing ids tenantID fromStatus.

(** The body shared by the claims: select, mark PROCESSING, mirror in memory. *)
Definition claim (repo : Repository) (ctx : Ctx) (tx : Tx) (fromStatus : text)
    (p : Row → bool) (key : Row → list Z) (limit : Z) : txm (list OutboxEvent) :=
  tenantID ← lift (tenantIDFromContext repo ctx);
  filter ← lift (tenantFilterClause repo tenantID);
  events ← queryOutboxEvents tx 0 true
    (λ r, (r_status r =t fromStatus) && p r && filter r)%bool key limit;
  if bool_decide (length events = 0%nat) then mret events else
  let ids := collectEventIDs events in
  if bool_decide (length ids = 0%nat) then mret events else
  let now := tx_now tx in
  tenantID ← lift (tenantIDFromContext repo ctx);
  _ ← markEventsProcessing repo tx 1 now ids tenantID fromStatus;
  mret (applyProcessingState events now).

Definition by_created (r : Row) : list Z := [r_created_at r].
Definition by_updated (r : Row) : list Z := [r_updated_at r].

(** The gate before a dispatch query in pool-per-tenant mode. *)
Definition gated {T} (tx : Tx) (empty : T) (run : table → result pg_error T * table) (tbl : table)
    : result pg_error T * table :=
  match tx_presence tx with
  | ProbeFailed => (Err ErrDatabase, tbl)
  | TableMissing => (Ok empty, tbl)
  | TablePresent => run tbl
  end.

Definition ListPending (repo : Repository) (ctx : Ctx) (tx : Tx) (limit : Z) (tbl : table)
    : result pg_error (list OutboxEvent) * table :=
  if negb (repo_initialized repo) then (Err ErrRepositoryNotInitialized, tbl)
  else if bool_decide (limit ≤ 0) then (Err ErrLimitMustBePositive, tbl)
  else gated tx [] (withTenantTxOrExisting repo ctx tx false
         (claim repo ctx tx OutboxStatusPending (λ _, true) by_created limit)) tbl.

Definition ListPendingByType (repo : Repository) (ctx : Ctx) (tx : Tx) (eventType : text) (limit : Z)
    (tbl : table) : result pg_error (list OutboxEvent) * table :=
  if negb (repo_initialized repo) then (Err ErrRepositoryNotInitialized, tbl)
  else if bool_decide (limit ≤ 0) then (Err ErrLimitMustBePositive, tbl)
  else
    let eventType := TrimSpace eventType in
    if is_empty eventType then (Err ErrPgEventTypeRequired, tbl)
    else gated tx [] (withTenantTxOrExisting repo ctx tx false
           (claim repo ctx tx OutboxStatusPending (λ r, r_event_type r =t eventType) by_created limit)) tbl.

(** First occurrences, trimmed, blanks dropped. *)
Fixpoint normalize_types_loop (seen : list text) (eventTypes : list text) : list text :=
  match eventTypes with
  | [] => []
  | eventType :: rest =>
      let eventType := TrimSpace eventType in
      if is_empty eventType then normalize_types_loop seen rest
      else if bool_decide (eventType ∈ seen) then normalize_types_loop seen rest
      else eventType :: normalize_types_loop (eventType :: seen) rest
  end.

Definition normalizeEventTypes (eventTypes : list text) : list text := normalize_types_loop [] eventTypes.

(** CASE event_type WHEN $2 THEN 0 WHEN $3 THEN 1 ... ELSE n END *)
Fixpoint type_rank (types : list text) (ty : text) : Z :=
  match types with
  | [] => 0
  | t :: rest => if (ty =t t) then 0 else 1 + type_rank rest ty
  end.

Definition by_rank_created_id (types : list text) (r : Row) : list Z :=
  [type_rank types (r_event_type r); r_created_at r; r_id r].

Definition ListPendingByTypes (repo : Repository) (ctx : Ctx) (tx : Tx) (eventTypes : list text) (limit : Z)
    (tbl : table) : result pg_error (list OutboxEvent) * table :=
  if negb (repo_initialized repo) then (Err ErrRepositoryNotInitialized, tbl)
  else if bool_decide (limit ≤ 0) then (Err ErrLimitMustBePositive, tbl)
  else
    let types := normalizeEventTypes eventTypes in
    if bool_decide (length types = 0%nat) then (Err ErrPgEventTypeRequired, tbl)
    else gated tx [] (withTenantTxOrExisting repo ctx tx false
           (claim repo ctx tx OutboxStatusPending (λ r, bool_decide (r_event_type r ∈ types))
              (by_rank_created_id types) limit)) tbl.

(** Rows of [listFailedForRetryRows]. *)
Definition retry_eligible (failedBefore : gotime) (maxAttempts : Z) (r : Row) : bool :=
  (bool_decide (r_attempts r < maxAttempts) && bool_decide (r_updated_at r ≤ failedBefore))%bool.

Definition ListFailedForRetry (repo : Repository) (ctx : Ctx) (tx : Tx) (limit : Z) (failedBefore : gotime)
    (maxAttempts : Z) (tbl : table) : result pg_error (list OutboxEvent) * table :=
  if negb (repo_initialized repo) then (Err ErrRepositoryNotInitialized, tbl)
  else if bool_decide (limit ≤ 0) then (Err ErrLimitMustBePositive, tbl)
  else if bool_decide (maxAttempts ≤ 0) then (Err ErrMaxAttemptsMustBePositive, tbl)
  else withTenantTxOrExisting repo ctx tx false (
    (tenantID ← lift (tenantIDFromContext repo ctx);
     filter ← lift (tenantFilterClause repo tenantID);
     queryOutboxEvents tx 0 false
       (λ r, (r_status r =t OutboxStatusFailed) && retry_eligible failedBefore maxAttempts r && filter r)%bool
       by_updated limit) : txm (list OutboxEvent)) tbl.

Definition ResetForRetry (repo : Repository) (ctx : Ctx) (tx : Tx) (limit : Z) (failedBefore : gotime)
    (maxAttempts : Z) (tbl : table) : result pg_error (list OutboxEvent) * table :=
  if negb (repo_initialized repo) then (Err ErrRepositoryNotInitialized, tbl)
  else if bool_decide (limit ≤ 0) then (Err ErrLimitMustBePositive, tbl)
  else if bool_decide (maxAttempts ≤ 0) then (Err ErrMaxAttemptsMustBePositive, tbl)
  else gated tx [] (withTenantTxOrExisting repo ctx tx false
         (claim repo ctx tx OutboxStatusFailed (retry_eligible failedBefore maxAttempts) by_updated limit)) tbl.

(** ** Reclaiming stuck events *)

(** [splitStuckEvents]: (retry, exhausted) *)
Definition splitStuckEvents (events : list OutboxEvent) (maxAttempts : Z) : list OutboxEvent * list OutboxEvent :=
  let live := List.filter (λ e, negb (is_nil (ID e))) events in
  (List.filter (λ e, negb (bool_decide (maxAttempts ≤ Attempts e + 1))) live,
   List.filter (λ e, bool_decide (maxAttempts ≤ Attempts e + 1)) live).

Definition set_stuck (e : OutboxEvent) (status lastError : text) (now : gotime) : OutboxEvent :=
  {| ID := ID e; EventType := EventType e; AggregateID := AggregateID e; Payload := Payload e;
     Status := status; Attempts := Attempts e + 1; PublishedAt := PublishedAt e;
     LastError := lastError; CreatedAt := CreatedAt e; UpdatedAt := now |}.

Definition applyStuckReprocessingState (events : list OutboxEvent) (now : gotime) : list OutboxEvent :=
  map (λ e, set_stuck e OutboxStatusProcessing (LastError e) now) events.

Definition applyStuckInvalidState (events : list OutboxEvent) (now : gotime) : list OutboxEvent :=
  map (λ e, set_stuck e OutboxStatusInvalid (AppendErrorCause (LastError e) StuckInProcessingCause) now) events.

Definition markStuckEventsReprocessing (repo : Repository) (tx : Tx) (n : nat) (now : gotime)
    (ids : list uuid) (tenantID : text) : txm unit :=
  _ ← lift (lift_outbox (ValidateOutboxTransition OutboxStatusProcessing OutboxStatusProcessing));
  filter ← lift (tenantFilterClause repo tenantID);
  rows ← sql_update tx n
    (λ r, id_in ids r && (r_status r =t OutboxStatusProcessing) && filter r)%bool
    (λ r, upd r OutboxStatusProcessing (r_attempts r + 1) (r_published_at r) (r_last_error r) now);
  lift (ensureRowsAffectedExact rows (Z.of_nat (length ids))).

Definition markStuckEventsInvalid (repo : Repository) (tx : Tx) (n : nat) (now : gotime)
    (ids : list uuid) (tenantID : text) : txm unit :=
  _ ← lift (lift_outbox (ValidateOutboxTransition OutboxStatusProcessing OutboxStatusInvalid));
  filter ← lift (tenantFilterClause repo tenantID);
  rows ← sql_update tx n
    (λ r, id_in ids r && (r_status r =t OutboxStatusProcessing) && filter r)%bool
    (λ r, upd r OutboxStatusInvalid (r_attempts r + 1) (r_published_at r)
            (Some (sql_last_error_stuck (r_last_error r) StuckInProcessingCause)) now);
  lift (ensureRowsAffectedExact rows (Z.of_nat (length ids))).

(** The transaction of [ReclaimStuckProcessing]: (retry, invalid). *)
Definition reclaim (repo : Repository) (ctx : Ctx) (tx : Tx) (limit : Z) (processingBefore : gotime)
    (maxAttempts : Z) : txm (list OutboxEvent * list OutboxEvent) :=
  tenantID ← lift (tenantIDFromContext repo ctx);
  filter ← lift (tenantFilterClause repo tenantID);
  events ← queryOutboxEvents tx 0 true
    (λ r, (r_status r =t OutboxStatusProcessing) && bool_decide (r_updated_at r ≤ processingBefore) && filter r)%bool
    by_updated limit;
  tenantID ← lift (tenantIDFromContext repo ctx);
  let '(retryEvents, exhaustedEvents) := splitStuckEvents events maxAttempts in
  let now := tx_now tx in
  let retryIDs := collectEventIDs retryEvents in
  _ ← (if bool_decide (0 < length retryIDs)%nat
       then markStuckEventsReprocessing repo tx 1 now retryIDs tenantID else mret tt : txm unit);
  let retryEvents :=
    if bool_decide (0 < length retryIDs)%nat then applyStuckReprocessingState retryEvents now else retryEvents in
  let exhaustedIDs := collectEventIDs exhaustedEvents in
  _ ← (if bool_decide (0 < length exhaustedIDs)%nat
       then markStuckEventsInvalid repo tx 2 now exhaustedIDs tenantID else mret tt : txm unit);
  let exhaustedEvents :=
    if bool_decide (0 < length exhaustedIDs)%nat then applyStuckInvalidState exhaustedEvents now else exhaustedEvents in
  mret (retryEvents, exhaustedEvents).

Definition ReclaimStuckProcessing (repo : Repository) (ctx : Ctx) (tx : Tx) (limit : Z)
    (processingBefore : gotime) (maxAttempts : Z) (tbl : table)
    : result pg_error (list OutboxEvent * list OutboxEvent) * table :=
  if negb (repo_initialized repo) then (Err ErrRepositoryNotInitialized, tbl)
  else if bool_decide (limit ≤ 0) then (Err ErrLimitMustBePositive, tbl)
  else if bool_decide (maxAttempts ≤ 0) then (Err ErrMaxAttemptsMustBePositive, tbl)
  else gated tx ([], []) (withTenantTxOrExisting repo ctx tx false
         (reclaim repo ctx tx limit processingBefore maxAttempts)) tbl.

Definition ResetStuckProcessing (repo : Repository) (ctx : Ctx) (tx : Tx) (limit : Z)
    (processingBefore : gotime) (maxAttempts : Z) (tbl : table) : result pg_error (list OutboxEvent) * table :=
  let '(r, tbl') := ReclaimStuckProcessing repo ctx tx limit processingBefore maxAttempts tbl in
  (match r with Ok (retry, _) => Ok retry | Err e => Err e end, tbl').

(** ** Finishing *)

Section finish.
(** [redactSensitiveData] of the outbox package. *)
Context (redact : text → text).

Definition mark (repo : Repository) (ctx : Ctx) (tx : Tx) (id : uuid) (f : Row → Row) : txm unit :=
  tenantID ← lift (tenantIDFromContext repo ctx);
  filter ← lift (tenantFilterClause repo tenantID);
  rows ← sql_update tx 0
    (λ r, bool_decide (r_id r = id) && (r_status r =t OutboxStatusProcessing) && filter r)%bool f;
  lift (ensureRowsAffected rows).

Definition MarkPublished (repo : Repository) (ctx : Ctx) (tx : Tx) (id : uuid) (publishedAt : gotime)
    (tbl : table) : result pg_error unit * table :=
  if negb (repo_initialized repo) then (Err ErrRepositoryNotInitialized, tbl) else
  match ValidateOutboxTransition OutboxStatusProcessing OutboxStatusPublished with
  | Err e => (Err (OutboxErr e), tbl)
  | Ok _ =>
      if is_nil id then (Err ErrIDRequired, tbl) else
      withTenantTxOrExisting repo ctx tx false
        (mark repo ctx tx id (λ r, upd r OutboxStatusPublished (r_attempts r) (Some publishedAt)
                                     (r_last_error r) (tx_now tx))) tbl
  end.

Definition MarkFailed (repo : Repository) (ctx : Ctx) (tx : Tx) (id : uuid) (errMsg : text)
    (maxAttempts : Z) (tbl : table) : result pg_error unit * table :=
  if negb (repo_initialized repo) then (Err ErrRepositoryNotInitialized, tbl) else
  match ValidateOutboxTransition OutboxStatusProcessing OutboxStatusFailed with
  | Err e => (Err (OutboxErr e), tbl)
  | Ok _ =>
      match ValidateOutboxTransition OutboxStatusProcessing OutboxStatusInvalid with
      | Err e => (Err (OutboxErr e), tbl)
      | Ok _ =>
          if is_nil id then (Err ErrIDRequired, tbl) else
          if bool_decide (maxAttempts ≤ 0) then (Err ErrMaxAttemptsMustBePositive, tbl) else
          let errMsg := BoundErrorCause (SanitizeErrorMessageForStorage redact errMsg) in
          withTenantTxOrExisting repo ctx tx false
            (mark repo ctx tx id (λ r,
               upd r (if bool_decide (maxAttempts ≤ r_attempts r + 1) then OutboxStatusInvalid else OutboxStatusFailed)
                 (r_attempts r + 1) (r_published_at r)
                 (Some (sql_last_error (r_last_error r) errMsg)) (tx_now tx))) tbl
      end
  end.

Definition MarkInvalid (repo : Repository) (ctx : Ctx) (tx : Tx) (id : uuid) (errMsg : text)
    (tbl : table) : result pg_error unit * table :=
  if negb (repo_initialized repo) then (Err ErrRepositoryNotInitialized, tbl) else
  match ValidateOutboxTransition OutboxStatusProcessing OutboxStatusInvalid with
  | Err e => (Err (OutboxErr e), tbl)
  | Ok _ =>
      if is_nil id then (Err ErrIDRequired, tbl) else
      let errMsg := SanitizeErrorMessageForStorage redact errMsg in
      withTenantTxOrExisting repo ctx tx false
        (mark repo ctx tx id (λ r, upd r OutboxStatusInvalid (r_attempts r) (r_published_at r)
                                     (Some errMsg) (tx_now tx))) tbl
  end.
End finish.

(** SELECT ... WHERE id = $1 AND filter, one row *)
Definition sql_get (tx : Tx) (n : nat) (p : Row → bool) : txm OutboxEvent := λ tbl,
  if negb (tx_stmt tx n) then Err ErrDatabase
  else match List.find p tbl with
       | None => Err ErrNoRows
       | Some r => Ok (scanOutboxEvent r, tbl)
       end.

Definition GetByID (repo : Repository) (ctx : Ctx) (tx : Tx) (id : uuid) (tbl : table)
    : result pg_error OutboxEvent * table :=
  if negb (repo_initialized repo) then (Err ErrRepositoryNotInitialized, tbl)
  else if is_nil id then (Err ErrIDRequired, tbl)
  else withTenantTxOrExisting repo ctx tx false (
    (tenantID ← lift (tenantIDFromContext repo ctx);
     filter ← lift (tenantFilterClause repo tenantID);
     sql_get tx 0 (λ r, bool_decide (r_id r = id) && filter r)%bool) : txm OutboxEvent) tbl.

(** ** Retention *)

Definition agedClause (status : text) (before : gotime) (keepEventTypes : list text) (r : Row) : bool :=
  ((r_status r =t status) && bool_decide (r_updated_at r < before)
   && negb (bool_decide (r_event_type r ∈ normalizeEventTypes keepEventTypes)))%bool.

Definition by_updated_id (r : Row) : list Z := [r_updated_at r; r_id r].

(** DELETE ... WHERE id IN (SELECT id ... LIMIT n) AND filter *)
Definition sql_delete_aged (tx : Tx) (n : nat) (p filter : Row → bool) (limit : Z) : txm Z := λ tbl,
  if negb (tx_stmt tx n) then Err ErrDatabase
  else
    let ids := map r_id (select_rows (λ r, p r && filter r)%bool by_updated_id limit tbl) in
    let doomed := λ r, (id_in ids r && filter r)%bool in
    Ok (Z.of_nat (length (List.filter doomed tbl)), List.filter (λ r, negb (doomed r)) tbl).

Definition deleteAgedBefore (repo : Repository) (ctx : Ctx) (tx : Tx) (status : text) (before : gotime)
    (keepEventTypes : list text) (limit : Z) (tbl : table) : result pg_error Z * table :=
  if negb (repo_initialized repo) then (Err ErrRepositoryNotInitialized, tbl)
  else if bool_decide (limit ≤ 0) then (Ok 0, tbl)
  else gated tx 0 (withTenantTxOrExisting repo ctx tx false (
    (tenantID ← lift (tenantIDFromContext repo ctx);
     filter ← lift (tenantFilterClause repo tenantID);
     sql_delete_aged tx 0 (agedClause status before keepEventTypes) filter limit) : txm Z)) tbl.

Definition DeletePublishedBefore (repo : Repository) (ctx : Ctx) (tx : Tx) (before : gotime)
    (keepEventTypes : list text) (limit : Z) (tbl : table) : result pg_error Z * table :=
  deleteAgedBefore repo ctx tx OutboxStatusPublished before keepEventTypes limit tbl.

Definition DeleteInvalidBefore (repo : Repository) (ctx : Ctx) (tx : Tx) (before : gotime)
    (keepEventTypes : list text) (limit : Z) (tbl : table) : result pg_error Z * table :=
  deleteAgedBefore repo ctx tx OutboxStatusInvalid before keepEventTypes limit tbl.

(** [scanTenantIDs]: trimmed, blanks dropped, first occurrences kept. *)
Fixpoint scanTenantIDs (seen : list text) (rows : list text) : result pg_error (list text) :=
  match rows with
  | [] => Ok []
  | tenant :: rest =>
      let tenant := TrimSpace tenant in
      if is_empty tenant then scanTenantIDs seen rest
      else if negb (IsValidTenantID tenant) then Err (OutboxErr ErrInvalidTenantID)
      else if bool_decide (tenant ∈ seen) then scanTenantIDs seen rest
      else tenants ← scanTenantIDs (tenant :: seen) rest; Ok (tenant :: tenants)
  end.

(** [listTenantsAgedBefore] with [queryTenantsAgedBefore]: a SELECT DISTINCT
    over every tenant's rows, outside any tenant scope. *)
Definition listTenantsAgedBefore (repo : Repository) (tx : Tx) (status : text) (before : gotime)
    (keepEventTypes : list text) (tbl : table) : result pg_error (list text) :=
  if negb (repo_initialized repo) then Err ErrRepositoryNotInitialized
  else if is_empty (tenantColumn repo) then Ok []
  else if negb (tx_primary tx) then Err ErrDatabase
  else if negb (tx_stmt tx 0) then Err ErrDatabase
  else scanTenantIDs [] (map r_tenant (List.filter (agedClause status before keepEventTypes) tbl)).
