(* ===== verification/OutboxLifecycle.v ===== *)
(** The outbox table under arbitrary sequences of repository calls.

    [row_step] and [table_step] are the abstract lifecycle: what may happen to
    one event, and to the table, in one call.  The operations of
    [OutboxPostgres] are shown to refine it, whatever the database does during
    the call, and the invariants of the table follow by induction on the
    sequence of calls. *)

From stdpp Require Import base numbers list gmap strings sorting relations.
From S2P Require Import Prelude GoText OutboxLastError OutboxEvent OutboxPostgres.

Local Open Scope Z_scope.
Local Open Scope go_scope.

(** ** Abstract lifecycle *)

Section lifecycle.
Context (redact : text → text) (m : Z).

(** One event: [m] is the attempt budget, [MaxDispatchAttempts]. *)
Inductive row_step (r : Row) : Row → Prop :=
| rs_claim now : r_status r = OutboxStatusPending →
    row_step r (upd r OutboxStatusProcessing (r_attempts r) (r_published_at r) (r_last_error r) now)
| rs_retry now : r_status r = OutboxStatusFailed → r_attempts r < m →
    row_step r (upd r OutboxStatusProcessing (r_attempts r) (r_published_at r) (r_last_error r) now)
| rs_reclaim now : r_status r = OutboxStatusProcessing → r_attempts r + 1 < m →
    row_step r (upd r OutboxStatusProcessing (r_attempts r + 1) (r_published_at r) (r_last_error r) now)
| rs_stuck now : r_status r = OutboxStatusProcessing → m ≤ r_attempts r + 1 →
    row_step r (upd r OutboxStatusInvalid (r_attempts r + 1) (r_published_at r)
                  (Some (sql_last_error_stuck (r_last_error r) StuckInProcessingCause)) now)
| rs_publish at_ now : r_status r = OutboxStatusProcessing →
    row_step r (upd r OutboxStatusPublished (r_attempts r) (Some at_) (r_last_error r) now)
| rs_fail cause now : r_status r = OutboxStatusProcessing → r_attempts r + 1 < m →
    row_step r (upd r OutboxStatusFailed (r_attempts r + 1) (r_published_at r)
                  (Some (sql_last_error (r_last_error r) (BoundErrorCause cause))) now)
| rs_exhaust cause now : r_status r = OutboxStatusProcessing → m ≤ r_attempts r + 1 →
    row_step r (upd r OutboxStatusInvalid (r_attempts r + 1) (r_published_at r)
                  (Some (sql_last_error (r_last_error r) (BoundErrorCause cause))) now)
| rs_invalidate cause now : r_status r = OutboxStatusProcessing →
    row_step r (upd r OutboxStatusInvalid (r_attempts r) (r_published_at r)
                  (Some (SanitizeErrorMessageForStorage redact cause)) now).

Definition terminal (r : Row) : Prop :=
  r_status r = OutboxStatusPublished ∨ r_status r = OutboxStatusInvalid.

(** A row as an INSERT writes it. *)
Definition fresh_row (r : Row) : Prop :=
  r_id r ≠ uuid_nil ∧ r_event_type r ≠ [] ∧ r_status r = OutboxStatusPending ∧ r_attempts r = 0 ∧
  r_published_at r = None ∧ r_last_error r = Some [].

(** The table: some rows step, or fresh rows are inserted, or terminal rows
    past their retention are purged.  [scope] is the part of the table the
    caller may touch. *)
Inductive table_step (scope : Row → bool) (aged : Row → Prop) (repo : Repository) (tbl : table)
    : table → Prop :=
| ts_update tbl' :
    Forall2 (λ r r', r' = r ∨ (scope r = true ∧ row_step r r')) tbl tbl' → table_step scope aged repo tbl tbl'
| ts_insert rows tbl' :
    Forall (λ r, fresh_row r ∧ scope r = true) rows → insert_all repo rows tbl = Some tbl' →
    table_step scope aged repo tbl tbl'
| ts_purge p : (∀ r, r ∈ tbl → p r = true → terminal r ∧ aged r ∧ scope r = true) →
    table_step scope aged repo tbl (List.filter (λ r, negb (p r)) tbl).

(** *** Invariant *)

Definition phase_ok (p : phase) (r : Row) : Prop :=
  match p with
  | Pending => r_attempts r = 0 ∧ r_published_at r = None
  | Processing => 0 ≤ r_attempts r < m ∧ r_published_at r = None
  | Failed => 1 ≤ r_attempts r < m ∧ r_published_at r = None
  | Published => 0 ≤ r_attempts r < m ∧ r_published_at r ≠ None
  | Invalid => 0 ≤ r_attempts r ≤ m ∧ r_published_at r = None
  end.

Record row_ok (r : Row) : Prop := {
  ok_id : r_id r ≠ uuid_nil;
  ok_type : r_event_type r ≠ [];
  ok_fits : row_fits r = true;
  ok_phase : ∃ p, r_status r = phase_text p ∧ phase_ok p r;
  ok_error : r_status r ≠ OutboxStatusInvalid → ∀ e, r_last_error r = Some e → recorded e;
}.

Definition row_key (repo : Repository) (r : Row) : text * Z :=
  (if is_empty (tenantColumn repo) then [] else r_tenant r, r_id r).

Record table_ok (repo : Repository) (tbl : table) : Prop := {
  ok_keys : NoDup (map (row_key repo) tbl);
  ok_rows : Forall row_ok tbl;
}.
End lifecycle.

(** ** Sequences of calls *)

Inductive op :=
| OpCreate (existing : bool) (event : OutboxEvent)
| OpCreateIdempotent (existing : bool) (event : OutboxEvent)
| OpCreateMany (existing : bool) (events : list OutboxEvent)
| OpGetByID (id : uuid)
| OpListPending (limit : Z)
| OpListPendingByType (eventType : text) (limit : Z)
| OpListPendingByTypes (eventTypes : list text) (limit : Z)
| OpListFailedForRetry (limit : Z) (failedBefore : gotime)
| OpResetForRetry (limit : Z) (failedBefore : gotime)
| OpReclaimStuck (limit : Z) (processingBefore : gotime)
| OpMarkPublished (id : uuid) (publishedAt : gotime)
| OpMarkFailed (id : uuid) (errMsg : text)
| OpMarkInvalid (id : uuid) (errMsg : text)
| OpDeletePublished (before : gotime) (keep : list text) (limit : Z)
| OpDeleteInvalid (before : gotime) (keep : list text) (limit : Z).

Record call := { call_op : op; call_ctx : Ctx; call_tx : Tx }.

Section runs.
Context (json_valid : list Z → bool) (jsonb : list Z → list Z) (redact : text → text).
Context (m : Z) (repo : Repository).

(** The table after one call; every call of a run uses the same budget. *)
Definition exec (tbl : table) (c : call) : table :=
  let ctx := call_ctx c in
  let tx := call_tx c in
  match call_op c with
  | OpCreate existing e => (create json_valid jsonb repo ctx tx existing e tbl).2
  | OpCreateIdempotent existing e => (CreateIdempotentWithTx json_valid jsonb repo ctx tx existing e tbl).2
  | OpCreateMany existing es => (CreateManyWithTx json_valid jsonb repo ctx tx existing es tbl).2
  | OpGetByID id => (GetByID repo ctx tx id tbl).2
  | OpListPending limit => (ListPending repo ctx tx limit tbl).2
  | OpListPendingByType ty limit => (ListPendingByType repo ctx tx ty limit tbl).2
  | OpListPendingByTypes tys limit => (ListPendingByTypes repo ctx tx tys limit tbl).2
  | OpListFailedForRetry limit before => (ListFailedForRetry repo ctx tx limit before m tbl).2
  | OpResetForRetry limit before => (ResetForRetry repo ctx tx limit before m tbl).2
  | OpReclaimStuck limit before => (ReclaimStuckProcessing repo ctx tx limit before m tbl).2
  | OpMarkPublished id at_ => (MarkPublished repo ctx tx id at_ tbl).2
  | OpMarkFailed id msg => (MarkFailed redact repo ctx tx id msg m tbl).2
  | OpMarkInvalid id msg => (MarkInvalid redact repo ctx tx id msg tbl).2
  | OpDeletePublished before keep limit => (DeletePublishedBefore repo ctx tx before keep limit tbl).2
  | OpDeleteInvalid before keep limit => (DeleteInvalidBefore repo ctx tx before keep limit tbl).2
  end.

(** The rows a call may purge: those of the status it is given whose age passed the
    cutoff and whose type is not kept. *)
Definition purgeable (status : text) (before : gotime) (keep : list text) (r : Row) : Prop :=
  r_status r = status ∧ r_updated_at r < before ∧
  ∀ k, k ∈ keep → TrimSpace k ≠ [] → TrimSpace k ≠ r_event_type r.

Definition call_ages (c : call) (r : Row) : Prop :=
  match call_op c with
  | OpDeletePublished before keep _ => purgeable OutboxStatusPublished before keep r
  | OpDeleteInvalid before keep _ => purgeable OutboxStatusInvalid before keep r
  | _ => False
  end.

Definition run (tbl : table) (calls : list call) : table := foldl exec tbl calls.
End runs.

(** ** SELECT: what a bounded ordered query returns *)

Section select.
Implicit Types (r : Row) (tbl : table) (p : Row → bool) (key : Row → list Z).

#[local] Instance order_by_total key : Total (order_by key).
Proof. intros a b. unfold order_by. rewrite !Is_true_true. apply lex_le_total. Qed.

#[local] Instance order_by_trans key : Transitive (order_by key).
Proof. intros a b c. unfold order_by. rewrite !Is_true_true. apply lex_le_trans. Qed.

(** The query returns [sel] and leaves [rest] out. *)
Lemma select_rows_split p key limit tbl :
  ∃ rest, let sel := select_rows p key limit tbl in
    sel ++ rest ≡ₚ List.filter p tbl ∧
    StronglySorted (order_by key) sel ∧
    length sel = Nat.min (Z.to_nat limit) (length (List.filter p tbl)) ∧
    (∀ r r', r ∈ sel → r' ∈ rest → order_by key r r').
Proof.
  unfold select_rows. set (s := merge_sort (order_by key) (List.filter p tbl)).
  assert (Hs : StronglySorted (order_by key) s) by apply (StronglySorted_merge_sort _).
  exists (skipn (Z.to_nat limit) s). rewrite (firstn_skipn (Z.to_nat limit) s). simpl.
  split_and!.
  - apply merge_sort_Permutation.
  - rewrite <- (firstn_skipn (Z.to_nat limit) s) in Hs. by apply StronglySorted_app_1_l in Hs.
  - rewrite length_firstn. f_equal. apply Permutation_length, merge_sort_Permutation.
  - intros r r' Hr Hr'. rewrite <- (firstn_skipn (Z.to_nat limit) s) in Hs.
    eapply StronglySorted_app_1_elem_of; eauto.
Qed.

Lemma select_rows_submseteq p key limit tbl : select_rows p key limit tbl ⊆+ List.filter p tbl.
Proof.
  destruct (select_rows_split p key limit tbl) as [rest (H & _)]. rewrite <- H.
  by apply submseteq_inserts_r.
Qed.

Lemma select_rows_elem p key limit tbl r :
  r ∈ select_rows p key limit tbl → p r = true ∧ r ∈ tbl.
Proof. intros H. apply elem_of_filter_bool. by eapply elem_of_submseteq, select_rows_submseteq. Qed.

Lemma NoDup_select {A} (f : Row → A) p key limit tbl :
  NoDup (map f (List.filter p tbl)) → NoDup (map f (select_rows p key limit tbl)).
Proof.
  destruct (select_rows_split p key limit tbl) as [rest (H & _)].
  rewrite <- (Permutation_map f H), map_app, NoDup_app. by intros [? _].
Qed.
End select.

(** ** Keys and visibility *)

Section keys.
Context (repo : Repository).

Lemma same_key_spec a b : same_key repo a b = true ↔ row_key repo a = row_key repo b.
Proof.
  unfold same_key, row_key. rewrite andb_true_iff, bool_decide_eq_true.
  destruct (is_empty (tenantColumn repo)); simpl; [|rewrite eqt_true]; split; intros;
    destruct_and?; simplify_eq; auto with congruence.
Qed.

Lemma existsb_same_key row tbl :
  existsb (same_key repo row) tbl = false ↔ row_key repo row ∉ map (row_key repo) tbl.
Proof.
  rewrite <- not_true_iff_false, existsb_exists. setoid_rewrite same_key_spec.
  rewrite list_elem_of_fmap. setoid_rewrite list_elem_of_In. apply not_iff_compat.
  split; intros [x [H1 H2]]; exists x; auto.
Qed.

(** The rows a tenant-filtered statement sees share the tenant part of the
    key, so among them the id alone names a row. *)
Definition visible (tenantID : text) (r : Row) : bool :=
  (is_empty (tenantColumn repo) || (r_tenant r =t tenantID))%bool.

Lemma tenantFilterClause_visible tenantID f :
  tenantFilterClause repo tenantID = Ok f → ∀ r, f r = visible tenantID r.
Proof.
  unfold tenantFilterClause, visible. destruct (is_empty (tenantColumn repo)); [by intros [= <-]|].
  destruct (is_empty tenantID); [done|]. by intros [= <-].
Qed.

Lemma visible_key tenantID r : visible tenantID r = true →
  row_key repo r = (if is_empty (tenantColumn repo) then [] else tenantID, r_id r).
Proof.
  unfold visible, row_key. destruct (is_empty (tenantColumn repo)); simpl; [done|].
  by intros ->%eqt_true.
Qed.

Lemma visible_ids_NoDup tenantID p tbl :
  NoDup (map (row_key repo) tbl) → (∀ r, p r = true → visible tenantID r = true) →
  NoDup (map r_id (List.filter p tbl)).
Proof.
  intros Hk Hp. induction tbl as [|r tbl IH]; simpl; [constructor|].
  apply NoDup_cons in Hk as [Hr Hk]. destruct (p r) eqn:E; simpl; [|auto].
  apply NoDup_cons; split; [|auto]. rewrite list_elem_of_fmap. intros [r' [Hid Hr']].
  apply elem_of_filter_bool in Hr' as [E' Hr']. apply Hr, list_elem_of_fmap. exists r'.
  rewrite !(visible_key tenantID) by auto. by rewrite Hid.
Qed.

Lemma visible_id_inj tenantID tbl r r' :
  NoDup (map (row_key repo) tbl) → r ∈ tbl → r' ∈ tbl →
  visible tenantID r = true → visible tenantID r' = true → r_id r = r_id r' → r = r'.
Proof.
  intros Hk Hr Hr' Hv Hv' Hid. apply list_elem_of_lookup in Hr as [i Hi], Hr' as [j Hj].
  assert (i = j) as ->; [|congruence].
  eapply NoDup_lookup; [exact Hk| |]; rewrite list_lookup_fmap; [by rewrite Hi|].
  rewrite Hj. simpl. by rewrite !(visible_key tenantID), Hid by done.
Qed.
End keys.

(** ** UPDATE of a selection *)

(** The rows of [tbl] that belong to [sel] become their image under [g]. *)
Definition mark_rows (sel : list Row) (g : Row → Row) (tbl : table) : table :=
  map (λ r, if bool_decide (r ∈ sel) then g r else r) tbl.

Lemma mark_rows_nil g tbl : mark_rows [] g tbl = tbl.
Proof.
  apply map_cond_id. apply Forall_true. intros r. apply bool_decide_eq_false. apply not_elem_of_nil.
Qed.

Lemma mark_rows_key repo sel g tbl : (∀ r, row_key repo (g r) = row_key repo r) →
  map (row_key repo) (mark_rows sel g tbl) = map (row_key repo) tbl.
Proof. apply map_cond_fix. Qed.

Lemma row_key_upd repo r st a pa le now : row_key repo (upd r st a pa le now) = row_key repo r.
Proof. done. Qed.

Section update.
Context (repo : Repository) (tenantID : text) (f : Row → bool).
Hypothesis Hf : ∀ r, f r = visible repo tenantID r.

(** [sel]: rows of the table in status [from], visible to the tenant. *)
Definition selection (from : text) (sel : list Row) (tbl : table) : Prop :=
  NoDup (map r_id sel) ∧ ∀ r, r ∈ sel → r ∈ tbl ∧ r_status r = from ∧ f r = true.

Lemma selection_test from sel tbl r :
  NoDup (map (row_key repo) tbl) → selection from sel tbl → r ∈ tbl →
  (id_in (map r_id sel) r && (r_status r =t from) && f r)%bool = bool_decide (r ∈ sel).
Proof.
  intros Hk [_ Hsel] Hr. apply eq_true_iff_eq. unfold id_in.
  rewrite !andb_true_iff, !bool_decide_eq_true, eqt_true. split.
  - intros [[Hid Hst] Hv]. apply list_elem_of_fmap in Hid as [r' [Hid Hr']].
    destruct (Hsel r' Hr') as (Hin & _ & Hv').
    by rewrite (visible_id_inj repo tenantID tbl r r') by (rewrite <- ?Hf; auto).
  - intros Hs. destruct (Hsel r Hs) as (_ & ? & ?). split_and!; auto.
    apply list_elem_of_fmap. eauto.
Qed.

Lemma sql_update_selection tx n from sel g tbl :
  NoDup (map (row_key repo) tbl) → selection from sel tbl →
  (∀ r, r ∈ sel → row_fits (g r) = true) → tx_stmt tx n = true →
  sql_update tx n (λ r, id_in (map r_id sel) r && (r_status r =t from) && f r)%bool g tbl
  = Ok (Z.of_nat (length sel), mark_rows sel g tbl).
Proof.
  intros Hk Hsel Hfit Hn. unfold sql_update. rewrite Hn. cbn [negb].
  assert (Ht : ∀ r, r ∈ tbl → (id_in (map r_id sel) r && (r_status r =t from) && f r)%bool
                              = bool_decide (r ∈ sel)) by (intros; by apply (selection_test _ _ tbl)).
  rewrite (proj1 (not_true_iff_false (existsb _ _))).
  2:{ rewrite existsb_exists. intros [r [Hr%list_elem_of_In Hp]]. rewrite Ht in Hp by done.
      bool_to_prop. by rewrite Hfit in * by done. }
  f_equal. f_equal; [f_equal|].
  - apply Permutation_length, NoDup_Permutation.
    + eapply sublist_NoDup; [|apply sublist_filter_bool]. by apply NoDup_fmap_1 in Hk.
    + destruct Hsel as [Hid _]. by apply NoDup_fmap_1 in Hid.
    + intros r. rewrite elem_of_filter_bool. split.
      * intros [Hp Hr]. rewrite Ht in Hp by done. by bool_to_prop.
      * intros Hs. destruct (proj2 Hsel r Hs) as [Hr _]. rewrite Ht by done.
        split; [by apply bool_decide_eq_true|done].
  - apply map_ext_in. intros r Hr%list_elem_of_In. by rewrite Ht.
Qed.
End update.

Lemma collectEventIDs_scan rows :
  Forall (λ r, r_id r ≠ uuid_nil) rows → collectEventIDs (map scanOutboxEvent rows) = map r_id rows.
Proof.
  unfold collectEventIDs. induction 1 as [|r rows Hr _ IH]; simpl; [done|].
  unfold is_nil at 1. simpl. rewrite bool_decide_false by done. simpl. by rewrite IH.
Qed.

(** ** The stored cause under the invariant *)

Lemma rune_count_sanitize redact msg : rune_count (SanitizeErrorMessageForStorage redact msg) ≤ MaxLastErrorLength.
Proof.
  unfold SanitizeErrorMessageForStorage, truncateError. case_bool_decide as H1.
  - etrans; [exact H1|]. vm_compute. discriminate.
  - case_bool_decide as H2; rewrite ?rune_count_app; unfold rune_count; rewrite length_firstn;
      unfold MaxLastErrorLength, maxErrorLength, rune_count in *; lia.
Qed.

Definition stored_cause (r : Row) : text := match r_last_error r with Some e => e | None => [] end.

Definition recorded_row (r : Row) : Prop := ∀ e, r_last_error r = Some e → recorded e.

Lemma stored_cause_recorded r : recorded_row r → recorded (stored_cause r).
Proof. unfold recorded_row, stored_cause. destruct (r_last_error r); [auto|]. intros _. apply recorded_nil. Qed.

Lemma sql_last_error_row r c : recorded_row r →
  sql_last_error (r_last_error r) (BoundErrorCause c) = AppendErrorCause (stored_cause r) c.
Proof.
  unfold recorded_row, stored_cause. destruct (r_last_error r) as [e|]; intros H.
  - by apply sql_last_error_mirror, H.
  - apply sql_last_error_null.
Qed.

Lemma sql_last_error_stuck_row r : recorded_row r →
  sql_last_error_stuck (r_last_error r) StuckInProcessingCause
  = AppendErrorCause (stored_cause r) StuckInProcessingCause.
Proof.
  unfold recorded_row, stored_cause. destruct (r_last_error r) as [e|]; intros H.
  - by apply sql_last_error_stuck_mirror, H.
  - apply sql_last_error_stuck_null.
Qed.

Lemma stored_cause_fits r : row_fits r = true → rune_count (stored_cause r) ≤ MaxLastErrorLength.
Proof.
  unfold row_fits, stored_cause. intros H. bool_to_prop. destruct (r_last_error r); [by bool_to_prop|].
  vm_compute. discriminate.
Qed.

Lemma row_fits_upd r st a pa e now : row_fits r = true → rune_count e ≤ MaxLastErrorLength →
  row_fits (upd r st a pa (Some e) now) = true.
Proof.
  unfold row_fits. intros H He. bool_to_prop. simpl. rewrite !bool_decide_true by done. done.
Qed.

(** ** Steps keep the invariant *)

Section step_invariant.
Context (redact : text → text) (m : Z).

Lemma phase_unique (r : Row) p : (∃ q, r_status r = phase_text q ∧ phase_ok m q r) →
  r_status r = phase_text p → phase_ok m p r.
Proof. intros [q [Hq Hok]] Hp. rewrite Hq in Hp. by apply phase_text_inj in Hp as ->. Qed.

Lemma row_step_ok r r' : 0 < m → row_ok m r → row_step redact m r r' → row_ok m r'.
Proof.
  intros Hm [Hid Hty Hfit Hph Herr] Hs.
  assert (Hrec : r_status r = OutboxStatusProcessing → recorded_row r).
  { intros Hp e. apply Herr. rewrite Hp. discriminate. }
  destruct Hs as [now Hst|now Hst ?|now Hst ?|now Hst ?|at_ now Hst|c now Hst ?|c now Hst ?|c now Hst].
  1: apply (phase_unique _ Pending) in Hph; [|done].
  2: apply (phase_unique _ Failed) in Hph; [|done].
  3-8: apply (phase_unique _ Processing) in Hph; [|done].
  all: destruct Hph as [Ha Hp].
  all: constructor; cbn [upd r_id r_event_type r_status r_last_error]; try done.
  all: try (apply row_fits_upd; [done|]).
  all: try apply rune_count_sanitize.
  all: rewrite ?sql_last_error_row, ?sql_last_error_stuck_row by auto.
  all: try (by apply AppendErrorCause_le_max, stored_cause_fits).
  all: try (intros _ e [= <-]; by apply AppendErrorCause_recorded, stored_cause_recorded, Hrec).
  all: try (intros _; apply Herr; rewrite Hst; discriminate).
  1-3: exists Processing. 4: exists Invalid. 5: exists Published. 6: exists Failed. 7-8: exists Invalid.
  all: (split; [reflexivity|]); simpl; split; [lia|done].
Qed.

Lemma row_step_key repo r r' : row_step redact m r r' → row_key repo r' = row_key repo r.
Proof. by destruct 1. Qed.

Lemma row_step_terminal r r' : row_step redact m r r' → ¬ terminal r.
Proof. intros Hs [Ht|Ht]; destruct Hs as [? Hst|? Hst|? Hst|? Hst|? ? Hst|? ? Hst|? ? Hst|? ? Hst];
    rewrite Ht in Hst; discriminate Hst. Qed.

Lemma fresh_row_ok r : 0 < m → fresh_row r → row_fits r = true → row_ok m r.
Proof.
  intros Hm (Hid & Hty & Hst & Ha & Hp & He) Hfit. constructor; auto.
  - exists Pending. by rewrite Hst.
  - intros _ e. rewrite He. intros [= <-]. apply recorded_nil.
Qed.

Lemma insert_all_ok repo rows tbl tbl' : 0 < m → Forall fresh_row rows →
  insert_all repo rows tbl = Some tbl' → table_ok m repo tbl → table_ok m repo tbl'.
Proof.
  intros Hm Hrows. revert tbl. induction Hrows as [|r rows Hr _ IH]; intros tbl; simpl; [by intros [= ->]|].
  destruct (row_fits r) eqn:Hfit; [|done]. destruct (existsb _ tbl) eqn:Hk; [done|]. simpl.
  intros Hins [Hkeys Hok]. apply (IH (tbl ++ [r])); [done|]. apply existsb_same_key in Hk. constructor.
  - rewrite map_app. apply NoDup_app. split_and!; [done| |apply NoDup_singleton].
    intros k Hin Hin'. apply list_elem_of_singleton in Hin' as ->. auto.
  - apply Forall_app; split; [done|]. by apply Forall_singleton, fresh_row_ok.
Qed.

Lemma table_step_ok scope aged repo tbl tbl' : 0 < m →
  table_step redact m scope aged repo tbl tbl' → table_ok m repo tbl → table_ok m repo tbl'.
Proof.
  intros Hm [tbl'' Hu|rows tbl'' Hr Hi|p Hp].
  - intros [Hk Hok]. constructor.
    + replace (map (row_key repo) tbl'') with (map (row_key repo) tbl); [done|].
      induction Hu as [|r r' l l' [->|[_ Hs]] _ IH]; simpl; [done|..]; f_equal;
        try (apply IH; [by inversion Hk|by inversion Hok]). symmetry. by apply row_step_key.
    + clear Hk. induction Hu as [|r r' l l' [->|[_ Hs]] _ IH]; [done|..]; inversion Hok; subst;
        constructor; auto. by eapply row_step_ok.
  - apply insert_all_ok with rows; [done| |done]. eapply Forall_impl; [exact Hr|]. by intros r [? _].
  - intros [Hk Hok]. constructor; [|auto with commons].
    eapply sublist_NoDup; [exact Hk|]. apply (fmap_sublist _), sublist_filter_bool.
Qed.
End step_invariant.

(** ** What a claim and a reclaim do *)

(** The rows a claiming SELECT ... FOR UPDATE SKIP LOCKED returns. *)
Definition claimed (tx : Tx) (tenantID from : text) (repo : Repository) (p : Row → bool)
    (key : Row → list Z) (limit : Z) (tbl : table) : list Row :=
  select_rows (λ r, (r_status r =t from) && p r && visible repo tenantID r && negb (tx_locked tx r))%bool
    key limit tbl.

Definition to_processing (now : gotime) (r : Row) : Row :=
  upd r OutboxStatusProcessing (r_attempts r) (r_published_at r) (r_last_error r) now.

Definition to_reprocessing (now : gotime) (r : Row) : Row :=
  upd r OutboxStatusProcessing (r_attempts r + 1) (r_published_at r) (r_last_error r) now.

Definition to_stuck_invalid (now : gotime) (r : Row) : Row :=
  upd r OutboxStatusInvalid (r_attempts r + 1) (r_published_at r)
    (Some (sql_last_error_stuck (r_last_error r) StuckInProcessingCause)) now.

Lemma select_rows_ext p q key limit tbl : (∀ r, p r = q r) → select_rows p key limit tbl = select_rows q key limit tbl.
Proof. intros H. unfold select_rows. by rewrite (filter_ext p q). Qed.

Section claiming.
Context (m : Z) (repo : Repository) (tbl : table).
Hypothesis Hok : table_ok m repo tbl.
Context (ctx : Ctx) (tx : Tx) (tenantID : text).
Hypothesis Htenant : tenantIDFromContext repo ctx = Ok tenantID.

Lemma tenantFilterClause_ok : ∃ f, tenantFilterClause repo tenantID = Ok f.
Proof.
  unfold tenantFilterClause. destruct (is_empty (tenantColumn repo)) eqn:Hc; [eauto|].
  destruct (is_empty tenantID) eqn:He; [|eauto]. exfalso. revert Htenant.
  unfold tenantIDFromContext. rewrite Hc. simpl. destruct (TenantIDFromContext ctx) as [t|]; [|done].
  destruct (is_empty t); [done|]. destruct (is_empty (TrimSpace t)) eqn:Ht; [done|].
  destruct (negb _); [done|]. intros [= <-]. by rewrite He in Ht.
Qed.

Lemma ids_not_nil sel : (∀ r, r ∈ sel → r ∈ tbl) → Forall (λ r, r_id r ≠ uuid_nil) sel.
Proof.
  intros Hsel. apply Forall_forall. intros r Hr. apply (ok_id m).
  eapply Forall_forall; [apply (ok_rows _ _ _ Hok)|auto].
Qed.

Lemma selection_of_query f from q key limit :
  (∀ r, f r = visible repo tenantID r) → (∀ r, q r = true → r_status r = from ∧ f r = true) →
  selection f from (select_rows q key limit tbl) tbl.
Proof.
  intros Hf Hq. split.
  - apply NoDup_select, (visible_ids_NoDup repo tenantID); [apply Hok|].
    intros r Hr. rewrite <- Hf. by apply Hq.
  - intros r [Hr Hin]%select_rows_elem. split; [done|]. by apply Hq.
Qed.

(** A claim returns the selected rows as PROCESSING events and marks exactly
    those rows; the only other outcome is a statement that fails. *)
Lemma claim_eq from p key limit :
  from = OutboxStatusPending ∨ from = OutboxStatusFailed →
  claim repo ctx tx from p key limit tbl =
    let sel := claimed tx tenantID from repo p key limit tbl in
    if negb (tx_stmt tx 0) then Err ErrDatabase
    else if bool_decide (length sel = 0%nat) then Ok ([], tbl)
    else if negb (tx_stmt tx 1) then Err ErrDatabase
    else Ok (applyProcessingState (map scanOutboxEvent sel) (tx_now tx),
             mark_rows sel (to_processing (tx_now tx)) tbl).
Proof.
  intros Hfrom. unfold claim, lift, mbind, txm_bind. rewrite Htenant.
  destruct tenantFilterClause_ok as [f Hclause]. pose proof (tenantFilterClause_visible _ _ _ Hclause) as Hf.
  rewrite Hclause. unfold queryOutboxEvents. destruct (tx_stmt tx 0); cbn [negb]; [|done].
  set (sel := claimed _ _ _ _ _ _ _ _).
  rewrite (select_rows_ext _ (λ r, (r_status r =t from) && p r && visible repo tenantID r && negb (tx_locked tx r))%bool)
    by (intros r; by rewrite Hf).
  change (select_rows _ key limit tbl) with sel. rewrite length_map. cbn zeta.
  assert (Hsel : selection f from sel tbl).
  { apply selection_of_query; [done|]. intros r Hr. bool_to_prop. rewrite Hf. split; [by apply eqt_true|done]. }
  rewrite collectEventIDs_scan by (apply ids_not_nil; intros r Hr; by apply (proj2 Hsel)).
  rewrite length_map. case_bool_decide as Hlen.
  { by rewrite (nil_length_inv _ Hlen). }
  unfold markEventsProcessing, markEventsWithStatus, lift, mbind, txm_bind.
  replace (ValidateOutboxTransition from OutboxStatusProcessing) with (Ok (E := outbox_error) tt)
    by (destruct Hfrom as [-> | ->]; reflexivity).
  cbn [lift_outbox]. rewrite Hclause. destruct (tx_stmt tx 1) eqn:Hn; cbn [negb].
  - rewrite (sql_update_selection repo tenantID f Hf tx 1 from sel (to_processing (tx_now tx)));
      [|apply Hok|done| |done].
    + unfold ensureRowsAffectedExact. rewrite length_map, bool_decide_false by tauto. done.
    + intros r Hr. destruct (proj2 Hsel r Hr) as [Hin _].
      change (row_fits r = true). apply (ok_fits m).
      eapply Forall_forall; [apply (ok_rows _ _ _ Hok)|auto].
  - unfold sql_update. by rewrite Hn.
Qed.

(** A reclaim splits the stuck rows by the remaining budget; the events it
    returns are the rows it wrote. *)
Definition stuck_rows (processingBefore : gotime) (limit : Z) : list Row :=
  claimed tx tenantID OutboxStatusProcessing repo (λ r, bool_decide (r_updated_at r ≤ processingBefore))
    by_updated limit tbl.

Definition within_budget (r : Row) : bool := negb (bool_decide (m ≤ r_attempts r + 1)).
Definition out_of_budget (r : Row) : bool := bool_decide (m ≤ r_attempts r + 1).

Lemma splitStuckEvents_scan sel : Forall (λ r, r_id r ≠ uuid_nil) sel →
  splitStuckEvents (map scanOutboxEvent sel) m =
  (map scanOutboxEvent (List.filter within_budget sel), map scanOutboxEvent (List.filter out_of_budget sel)).
Proof.
  intros Hid. unfold splitStuckEvents.
  rewrite (filter_bool_all _ (map scanOutboxEvent sel)).
  - cbn zeta. by rewrite !filter_bool_map.
  - apply Forall_map. eapply Forall_impl; [exact Hid|]. intros r Hr. unfold is_nil. simpl.
    by rewrite bool_decide_false.
Qed.

Lemma selection_filter f from q sel : selection f from sel tbl → selection f from (List.filter q sel) tbl.
Proof.
  intros [Hd Hs]. split.
  - eapply sublist_NoDup; [exact Hd|]. apply (fmap_sublist _), sublist_filter_bool.
  - intros r [_ Hr]%elem_of_filter_bool. auto.
Qed.

(** The two marking statements on any table that still holds the selection. *)
Lemma markStuckEventsReprocessing_eq n now ids tbl1 sel f : tenantFilterClause repo tenantID = Ok f →
  NoDup (map (row_key repo) tbl1) → selection f OutboxStatusProcessing sel tbl1 → ids = map r_id sel →
  (∀ r, r ∈ sel → row_fits r = true) →
  markStuckEventsReprocessing repo tx n now ids tenantID tbl1 =
    if negb (tx_stmt tx n) then Err ErrDatabase else Ok (tt, mark_rows sel (to_reprocessing now) tbl1).
Proof.
  intros Hclause Hk Hsel -> Hfit. pose proof (tenantFilterClause_visible _ _ _ Hclause) as Hf.
  unfold markStuckEventsReprocessing, mbind, txm_bind, lift.
  change (ValidateOutboxTransition OutboxStatusProcessing OutboxStatusProcessing) with (Ok (E := outbox_error) tt).
  rewrite Hclause. cbn [lift_outbox].
  destruct (tx_stmt tx n) eqn:Hn; [|unfold sql_update; by rewrite Hn]. cbn [negb].
  rewrite (sql_update_selection repo tenantID f Hf) by auto.
  unfold ensureRowsAffectedExact. by rewrite length_map, bool_decide_false by tauto.
Qed.

Lemma markStuckEventsInvalid_eq n now ids tbl1 sel f : tenantFilterClause repo tenantID = Ok f →
  NoDup (map (row_key repo) tbl1) → selection f OutboxStatusProcessing sel tbl1 → ids = map r_id sel →
  (∀ r, r ∈ sel → row_fits (to_stuck_invalid now r) = true) →
  markStuckEventsInvalid repo tx n now ids tenantID tbl1 =
    if negb (tx_stmt tx n) then Err ErrDatabase else Ok (tt, mark_rows sel (to_stuck_invalid now) tbl1).
Proof.
  intros Hclause Hk Hsel -> Hfit. pose proof (tenantFilterClause_visible _ _ _ Hclause) as Hf.
  unfold markStuckEventsInvalid, mbind, txm_bind, lift.
  change (ValidateOutboxTransition OutboxStatusProcessing OutboxStatusInvalid) with (Ok (E := outbox_error) tt).
  rewrite Hclause. cbn [lift_outbox].
  destruct (tx_stmt tx n) eqn:Hn; [|unfold sql_update; by rewrite Hn]. cbn [negb].
  rewrite (sql_update_selection repo tenantID f Hf) by auto.
  unfold ensureRowsAffectedExact. by rewrite length_map, bool_decide_false by tauto.
Qed.

Lemma guarded_mark sel g n (act : txm unit) tbl1 :
  act tbl1 = (if negb (tx_stmt tx n) then Err ErrDatabase else Ok (tt, mark_rows sel g tbl1)) →
  (if bool_decide (0 < length sel)%nat then act else mret tt) tbl1 =
  if (bool_decide (0 < length sel)%nat && negb (tx_stmt tx n))%bool then Err ErrDatabase
  else Ok (tt, mark_rows sel g tbl1).
Proof.
  intros Hact. case_bool_decide as Hl; simpl; [done|].
  by rewrite (nil_length_inv sel), mark_rows_nil by lia.
Qed.

Lemma mark_rows_keep sel g r tbl1 : r ∈ tbl1 → r ∉ sel → r ∈ mark_rows sel g tbl1.
Proof.
  intros Hr Hn. apply list_elem_of_fmap. exists r. split; [|done]. by rewrite bool_decide_false.
Qed.

Lemma exhausted_selection f sel g : selection f OutboxStatusProcessing sel tbl →
  selection f OutboxStatusProcessing (List.filter out_of_budget sel)
    (mark_rows (List.filter within_budget sel) g tbl).
Proof.
  intros Hsel. destruct (selection_filter _ _ out_of_budget _ Hsel) as [Hd Hs]. split; [done|].
  intros r Hr. destruct (Hs r Hr) as (Hin & ? & ?). split_and!; auto.
  apply mark_rows_keep; [done|]. rewrite elem_of_filter_bool. apply elem_of_filter_bool in Hr as [Ho _].
  unfold within_budget, out_of_budget in *. rewrite Ho. by intros [? _].
Qed.

Lemma processing_recorded r : r ∈ tbl → r_status r = OutboxStatusProcessing → row_fits r = true ∧ recorded_row r.
Proof.
  intros Hr Hst. pose proof (ok_rows _ _ _ Hok) as Hall. eapply Forall_forall in Hall; [|exact Hr].
  split; [apply Hall|]. intros e. apply (ok_error _ _ Hall). rewrite Hst. discriminate.
Qed.

Lemma stuck_invalid_fits now r : row_fits r = true → recorded_row r → row_fits (to_stuck_invalid now r) = true.
Proof.
  intros Hfit Hrec. apply row_fits_upd; [done|]. rewrite sql_last_error_stuck_row by done.
  by apply AppendErrorCause_le_max, stored_cause_fits.
Qed.

Lemma stuck_invalid_mirror now r : recorded_row r →
  set_stuck (scanOutboxEvent r) OutboxStatusInvalid
    (AppendErrorCause (LastError (scanOutboxEvent r)) StuckInProcessingCause) now
  = scanOutboxEvent (to_stuck_invalid now r).
Proof. intros Hrec. unfold to_stuck_invalid. rewrite sql_last_error_stuck_row by done. reflexivity. Qed.

Lemma reclaim_eq limit processingBefore :
  let sel := stuck_rows processingBefore limit in
  let retry := List.filter within_budget sel in
  let exhausted := List.filter out_of_budget sel in
  let now := tx_now tx in
  reclaim repo ctx tx limit processingBefore m tbl =
    if negb (tx_stmt tx 0) then Err ErrDatabase
    else if (bool_decide (0 < length retry)%nat && negb (tx_stmt tx 1))%bool then Err ErrDatabase
    else if (bool_decide (0 < length exhausted)%nat && negb (tx_stmt tx 2))%bool then Err ErrDatabase
    else Ok (map (λ r, scanOutboxEvent (to_reprocessing now r)) retry,
             map (λ r, scanOutboxEvent (to_stuck_invalid now r)) exhausted,
             mark_rows exhausted (to_stuck_invalid now) (mark_rows retry (to_reprocessing now) tbl)).
Proof.
  intros sel retry exhausted now. unfold reclaim, mbind, txm_bind, lift. rewrite Htenant.
  destruct tenantFilterClause_ok as [f Hclause]. pose proof (tenantFilterClause_visible _ _ _ Hclause) as Hf.
  rewrite Hclause. unfold queryOutboxEvents. destruct (tx_stmt tx 0); cbn [negb]; [|done].
  rewrite (select_rows_ext _ (λ r, (r_status r =t OutboxStatusProcessing)
    && bool_decide (r_updated_at r ≤ processingBefore) && visible repo tenantID r && negb (tx_locked tx r))%bool)
    by (intros r; by rewrite Hf).
  change (select_rows _ by_updated limit tbl) with sel.
  assert (Hsel : selection f OutboxStatusProcessing sel tbl).
  { apply selection_of_query; [done|]. intros r Hr. bool_to_prop. rewrite Hf. split; [by apply eqt_true|done]. }
  assert (Hin : ∀ q r, r ∈ List.filter q sel → r ∈ tbl ∧ row_fits r = true ∧ recorded_row r).
  { intros q r [_ Hr]%elem_of_filter_bool. destruct (proj2 Hsel r Hr) as (? & ? & ?).
    split; [done|]. by apply processing_recorded. }
  rewrite splitStuckEvents_scan by (apply ids_not_nil; intros r Hr; by apply (proj2 Hsel)).
  fold retry exhausted. cbn zeta.
  rewrite !collectEventIDs_scan by (apply ids_not_nil; intros r Hr; by eapply Hin).
  rewrite !length_map.
  rewrite (guarded_mark retry (to_reprocessing now) 1).
  2:{ eapply markStuckEventsReprocessing_eq; [exact Hclause|apply Hok|by apply selection_filter|done|].
      intros r Hr. by eapply Hin. }
  destruct (_ && _)%bool; [done|].
  rewrite (guarded_mark exhausted (to_stuck_invalid now) 2).
  2:{ eapply markStuckEventsInvalid_eq; [exact Hclause| |by apply exhausted_selection|done|].
      - rewrite mark_rows_key by done. apply Hok.
      - intros r Hr. destruct (Hin _ _ Hr) as (_ & ? & ?). by apply stuck_invalid_fits. }
  destruct (_ && _)%bool; [done|]. unfold mret, txm_ret. f_equal. f_equal. f_equal.
  - case_bool_decide; [apply map_map|]. by rewrite (nil_length_inv retry) by lia.
  - case_bool_decide; [|by rewrite (nil_length_inv exhausted) by lia].
    unfold applyStuckInvalidState. rewrite map_map. apply map_ext_in. intros r Hr%list_elem_of_In.
    apply stuck_invalid_mirror. by eapply Hin.
Qed.
End claiming.

(** ** The operations refine the lifecycle *)

Lemma withTenantTx_effect {T} repo ctx tx existing (fn : txm T) tbl :
  let tbl' := (withTenantTxOrExisting repo ctx tx existing fn tbl).2 in
  tbl' = tbl ∨ ∃ a tenantID, tenantIDFromContext repo ctx = Ok tenantID ∧ fn tbl = Ok (a, tbl').
Proof.
  unfold withTenantTxOrExisting. destruct existing.
  - destruct (tenantIDFromContext repo ctx) as [t|] eqn:?; [|by left]. destruct (negb _); [by left|].
    destruct (fn tbl) as [[a tbl']|]; [right; eauto|by left].
  - do 2 (destruct (negb _); [by left|]).
    destruct (tenantIDFromContext repo ctx) as [t|] eqn:?; [|by left]. destruct (negb _); [by left|].
    destruct (fn tbl) as [[a tbl']|]; [|by left].
    destruct (tx_commit tx); [right; eauto|by left|right; eauto].
Qed.

Lemma gated_effect {T} tx (empty : T) (exec : table → result pg_error T * table) tbl :
  (gated tx empty exec tbl).2 = tbl ∨ (gated tx empty exec tbl).2 = (exec tbl).2.
Proof. unfold gated. destruct (tx_presence tx); auto. Qed.

(** Early returns leave the table alone. *)
Ltac skip_guards :=
  repeat first
    [ case_bool_decide; [done|]
    | match goal with
      | |- rtc _ _ (snd (if ?b then _ else _)) => destruct b; [done|]
      | |- rtc _ _ (snd (match ?v with _ => _ end)) => destruct v; [|done]
      | |- rtc _ _ (snd (let _ := _ in _)) => cbv zeta
      end ].

Lemma normalize_types_elem x seen types :
  x ∈ normalize_types_loop seen types ↔ x ∉ seen ∧ x ≠ [] ∧ ∃ k, k ∈ types ∧ TrimSpace k = x.
Proof.
  revert seen. induction types as [|k types IH]; intros seen; cbn [normalize_types_loop].
  { split; [by intros ?%not_elem_of_nil|]. intros (_ & _ & k & []%not_elem_of_nil & _). }
  assert (∀ P : text → Prop, (∃ k', k' ∈ k :: types ∧ P k') ↔ P k ∨ ∃ k', k' ∈ types ∧ P k') as Hcons.
  { intros P. setoid_rewrite elem_of_cons. naive_solver. }
  rewrite Hcons. destruct (is_empty (TrimSpace k)) eqn:E; [apply is_empty_true in E; rewrite IH; naive_solver|]. apply is_empty_false in E.
  case_bool_decide as Hin; [rewrite IH; naive_solver|]. rewrite elem_of_cons, IH, not_elem_of_cons.
  destruct (decide (x = TrimSpace k)) as [->|]; naive_solver.
Qed.

Lemma agedClause_purgeable status before keep r : agedClause status before keep r = true ↔ purgeable status before keep r.
Proof.
  unfold agedClause, purgeable, normalizeEventTypes. rewrite !andb_true_iff, negb_true_iff, bool_decide_eq_true, bool_decide_eq_false, eqt_true, normalize_types_elem.
  split.
  - intros [[H1 H2] H3]. split_and!; [done..|]. intros k Hk Hne Heq. apply H3. split_and!; [apply not_elem_of_nil|congruence|eauto].
  - intros (H1 & H2 & H3). split_and!; [done..|]. intros (_ & Hne & k & Hk & Heq). apply (H3 k); congruence.
Qed.

Section refinement.
Context (redact : text → text).
Context (m : Z) (repo : Repository) (scope : Row → bool) (aged : Row → Prop).
Abbreviation step := (table_step redact m scope aged repo).

(** The calls of [ctx] stay inside [scope]. *)
Definition scoped (ctx : Ctx) : Prop :=
  ∀ tenantID, tenantIDFromContext repo ctx = Ok tenantID → ∀ r, visible repo tenantID r = true → scope r = true.

Lemma table_step_refl tbl : step tbl tbl.
Proof. apply ts_update, Forall_Forall2_diag, Forall_true. auto. Qed.

Lemma table_step_map tbl (p : Row → bool) (g : Row → Row) :
  (∀ r, r ∈ tbl → p r = true → scope r = true ∧ row_step redact m r (g r)) →
  step tbl (map (λ r, if p r then g r else r) tbl).
Proof.
  intros H. apply ts_update. rewrite <- (list_fmap_id tbl) at 1.
  apply Forall2_fmap, Forall_Forall2_diag, Forall_forall. intros r Hr. simpl.
  destruct (p r) eqn:E; auto.
Qed.

Lemma mark_rows_step sel g tbl :
  (∀ r, r ∈ sel → scope r = true ∧ row_step redact m r (g r)) → step tbl (mark_rows sel g tbl).
Proof. intros H. apply table_step_map. intros r _ Hr. apply H. by bool_to_prop. Qed.

(** Whatever the transaction wrapper does, the table is the old one or the
    one its body produced. *)
Lemma tx_refines {T} ctx tx existing (fn : txm T) tbl :
  (∀ a tbl' tenantID, tenantIDFromContext repo ctx = Ok tenantID → fn tbl = Ok (a, tbl') → rtc step tbl tbl') →
  rtc step tbl (withTenantTxOrExisting repo ctx tx existing fn tbl).2.
Proof.
  intros H. destruct (withTenantTx_effect repo ctx tx existing fn tbl) as [-> | (a & t & Ht & Hf)]; [done|].
  by eapply H.
Qed.

Lemma gated_refines {T} tx (empty : T) exec tbl :
  rtc step tbl (exec tbl).2 → rtc step tbl (gated tx empty exec tbl).2.
Proof. intros H. destruct (gated_effect tx empty exec tbl) as [-> | ->]; done. Qed.

Lemma claim_refines ctx tx from p key limit tbl a tbl' tenantID :
  scoped ctx → table_ok m repo tbl → tenantIDFromContext repo ctx = Ok tenantID →
  from = OutboxStatusPending ∨ (from = OutboxStatusFailed ∧ ∀ r, p r = true → r_attempts r < m) →
  claim repo ctx tx from p key limit tbl = Ok (a, tbl') → rtc step tbl tbl'.
Proof.
  intros Hsc Hok Ht Hfrom. rewrite (claim_eq m repo tbl Hok ctx tx tenantID Ht) by tauto. cbn zeta.
  destruct (negb _); [done|]. case_bool_decide; [by intros [= _ <-]|]. destruct (negb _); [done|].
  intros [= _ <-]. apply rtc_once, mark_rows_step. intros r [Hr _]%select_rows_elem. bool_to_prop.
  split; [by apply (Hsc tenantID)|].
  destruct Hfrom as [-> | [-> Hp]]; [apply rs_claim; by apply eqt_true|apply rs_retry; [by apply eqt_true|auto]].
Qed.

Lemma reclaim_refines ctx tx limit before tbl a tbl' tenantID :
  scoped ctx → table_ok m repo tbl → tenantIDFromContext repo ctx = Ok tenantID →
  reclaim repo ctx tx limit before m tbl = Ok (a, tbl') → rtc step tbl tbl'.
Proof.
  intros Hsc Hok Ht. rewrite (reclaim_eq m repo tbl Hok ctx tx tenantID Ht). cbn zeta.
  destruct (negb _); [done|]. do 2 (destruct (_ && _)%bool; [done|]). intros [= _ <-].
  eapply rtc_l; [|apply rtc_once]; apply mark_rows_step; intros r [Hb [Hr _]%select_rows_elem]%elem_of_filter_bool;
    unfold within_budget, out_of_budget in Hb; bool_to_prop; (split; [by apply (Hsc tenantID)|]).
  - apply rs_reclaim; [by apply eqt_true|lia].
  - apply rs_stuck; [by apply eqt_true|lia].
Qed.

Lemma mark_refines ctx tx id g tbl a tbl' :
  scoped ctx → (∀ r, r_status r = OutboxStatusProcessing → row_step redact m r (g r)) →
  mark repo ctx tx id g tbl = Ok (a, tbl') → rtc step tbl tbl'.
Proof.
  intros Hsc Hg. unfold mark, mbind, txm_bind, lift.
  destruct (tenantIDFromContext repo ctx) as [t|] eqn:Ht; [|done].
  destruct (tenantFilterClause repo t) as [f|] eqn:Hclause; [|done].
  unfold sql_update. destruct (negb _); [done|]. destruct (existsb _ _); [done|].
  destruct (ensureRowsAffected _); [|done]. intros [= _ <-]. apply rtc_once, table_step_map.
  intros r _ Hr. bool_to_prop. split; [|apply Hg; by apply eqt_true].
  apply (Hsc t); [done|]. by rewrite <- (tenantFilterClause_visible _ _ _ Hclause).
Qed.

Context (json_valid : list Z → bool) (jsonb : list Z → list Z).

Lemma validateCreateEvent_fresh event now tenantID :
  validateCreateEvent json_valid event = Ok tt → fresh_row (normalizedCreateValues jsonb event now tenantID).
Proof.
  unfold validateCreateEvent, is_nil. intros He.
  destruct (bool_decide (ID event = _)) eqn:Hid; [discriminate|].
  destruct (is_empty (TrimSpace (EventType event))) eqn:Hty; [discriminate|].
  bool_to_prop. apply is_empty_false in Hty. repeat split; auto.
Qed.

Lemma insert_scoped ctx t tenantID event now : scoped ctx →
  tenantIDFromContext repo ctx = Ok t → insert_tenant repo ctx = Ok tenantID →
  scope (normalizedCreateValues jsonb event now tenantID) = true.
Proof.
  intros Hsc Ht Hi. apply (Hsc t Ht). unfold insert_tenant, visible in *.
  destruct (is_empty (tenantColumn repo)); [done|]. simpl in *.
  rewrite Ht in Hi. injection Hi as <-. apply eqt_refl.
Qed.

Lemma insert_refines rows tbl tbl' :
  Forall (λ r, fresh_row r ∧ scope r = true) rows → insert_all repo rows tbl = Some tbl' → rtc step tbl tbl'.
Proof. intros. eapply rtc_once, ts_insert; eauto. Qed.

Lemma create_refines ctx tx existing event tbl : scoped ctx →
  rtc step tbl (create json_valid jsonb repo ctx tx existing event tbl).2.
Proof.
  intros Hsc. unfold create. destruct (negb _); [done|]. destruct (validateCreateEvent json_valid event) as [[]|] eqn:Hv; [|done].
  apply tx_refines. intros a tbl' t0 Ht0. unfold mbind, txm_bind, lift, sql_insert.
  destruct (insert_tenant repo ctx) as [t|] eqn:Hten; [|done]. destruct (negb _); [done|].
  destruct (row_fits _) eqn:Hfit; [|done]. destruct (existsb _ _) eqn:Hk; [done|]. intros [= _ <-].
  eapply (insert_refines [_]); [apply Forall_singleton; split; [by apply validateCreateEvent_fresh|by eapply insert_scoped]|].
  simpl. by rewrite Hfit, Hk.
Qed.

Lemma create_idempotent_refines ctx tx existing event tbl : scoped ctx →
  rtc step tbl (CreateIdempotentWithTx json_valid jsonb repo ctx tx existing event tbl).2.
Proof.
  intros Hsc. unfold CreateIdempotentWithTx. destruct (negb _); [done|].
  destruct (validateCreateEvent json_valid event) as [[]|] eqn:Hv; [|done].
  apply tx_refines. intros a tbl' t0 Ht0. unfold mbind, txm_bind, lift, sql_upsert.
  destruct (insert_tenant repo ctx) as [t|] eqn:Hten; [|done]. destruct (negb _); [done|].
  destruct (row_fits _) eqn:Hfit; [|done]. simpl. destruct (List.find _ _) as [stored|] eqn:Hk.
  - destruct (_ && _)%bool; [|done]. by intros [= _ <-].
  - intros [= _ <-]. eapply (insert_refines [_]); [apply Forall_singleton; split; [by apply validateCreateEvent_fresh|by eapply insert_scoped]|].
    simpl. rewrite Hfit. simpl. rewrite (proj1 (not_true_iff_false (existsb _ _))); [done|].
    rewrite existsb_exists. intros [r [Hr He]]. pose proof (find_none _ _ Hk r Hr). congruence.
Qed.

Lemma create_many_refines ctx tx existing events tbl : scoped ctx →
  rtc step tbl (CreateManyWithTx json_valid jsonb repo ctx tx existing events tbl).2.
Proof.
  intros Hsc. unfold CreateManyWithTx. destruct (negb _); [done|]. case_bool_decide; [done|].
  destruct (validate_all json_valid events) as [[]|] eqn:Hv; [|done].
  apply tx_refines. intros a tbl' t0 Ht0. unfold mbind, txm_bind, lift, sql_insert_many.
  destruct (insert_tenant repo ctx) as [t|] eqn:Hten; [|done]. destruct (negb _); [done|].
  destruct (insert_all _ _ _) as [tbl''|] eqn:Hi; [|done].
  destruct (orderCreatedEvents _ _); [|done]. intros [= _ <-]. eapply insert_refines; [|exact Hi].
  clear -Hv Hten Ht0 Hsc. induction events as [|e events IH]; simpl in *; [constructor|].
  destruct (validateCreateEvent json_valid e) as [[]|] eqn:He; [|done].
  constructor; [split; [by apply validateCreateEvent_fresh|by eapply insert_scoped]|auto].
Qed.

(** A retention call removes rows of its status whose age passed the cutoff, and
    nothing else. *)
Lemma delete_purges ctx tx status before keep limit tbl :
  scoped ctx → table_ok m repo tbl → status = OutboxStatusPublished ∨ status = OutboxStatusInvalid →
  let tbl' := (deleteAgedBefore repo ctx tx status before keep limit tbl).2 in
  tbl' = tbl ∨ ∃ p, (∀ r, r ∈ tbl → p r = true → terminal r ∧ purgeable status before keep r ∧ scope r = true) ∧
    tbl' = List.filter (λ r, negb (p r)) tbl.
Proof.
  intros Hsc Hok Hst. cbv zeta. unfold deleteAgedBefore. destruct (negb _); [by left|]. case_bool_decide; [by left|].
  lazymatch goal with |- context [gated ?tx ?e ?f ?t] => destruct (gated_effect tx e f t) as [-> | ->]; [by left|] end.
  lazymatch goal with |- context [withTenantTxOrExisting ?r ?c ?x ?e ?f ?t] =>
    destruct (withTenantTx_effect r c x e f t) as [-> | (a & tenantID & Ht & Hf)]; [by left|];
    revert Hf; generalize (withTenantTxOrExisting r c x e f t).2 end.
  intros tbl'. unfold mbind, txm_bind, lift, sql_delete_aged.
  rewrite Ht. destruct (tenantFilterClause repo tenantID) as [f|] eqn:Hclause; [|done].
  pose proof (tenantFilterClause_visible _ _ _ Hclause) as Hf.
  destruct (negb _); [done|]. intros [= _ <-]. right. eexists. split; [|reflexivity]. cbv beta. intros r Hr Hd.
  unfold id_in in Hd. bool_to_prop. apply list_elem_of_fmap in H0 as [r' [Hid [Hp Hr']%select_rows_elem]].
  bool_to_prop.
  assert (r = r') as -> by (eapply (visible_id_inj repo tenantID); rewrite <- ?Hf; eauto; apply Hok).
  split_and!; [|by apply agedClause_purgeable|apply (Hsc tenantID); [done|by rewrite <- Hf]]. unfold agedClause, terminal in *. bool_to_prop.
  destruct Hst as [-> | ->]; [left|right]; by apply eqt_true.
Qed.

Lemma delete_refines ctx tx status before keep limit tbl :
  scoped ctx → table_ok m repo tbl → status = OutboxStatusPublished ∨ status = OutboxStatusInvalid →
  (∀ r, purgeable status before keep r → aged r) →
  rtc step tbl (deleteAgedBefore repo ctx tx status before keep limit tbl).2.
Proof.
  intros Hsc Hok Hst Haged. destruct (delete_purges ctx tx status before keep limit tbl Hsc Hok Hst) as [-> | (p & Hp & ->)]; [done|].
  apply rtc_once, ts_purge. intros r Hr Hd. destruct (Hp r Hr Hd) as (? & ? & ?). auto.
Qed.

Lemma GetByID_refines ctx tx id tbl : rtc step tbl (GetByID repo ctx tx id tbl).2.
Proof.
  unfold GetByID. skip_guards. apply tx_refines. intros a tbl' t Ht.
  unfold mbind, txm_bind, lift, sql_get. rewrite Ht. destruct (tenantFilterClause repo t); [|done].
  destruct (negb _); [done|]. destruct (List.find _ _); [|done]. by intros [= _ <-].
Qed.

Lemma ListFailedForRetry_refines ctx tx limit before max tbl :
  rtc step tbl (ListFailedForRetry repo ctx tx limit before max tbl).2.
Proof.
  unfold ListFailedForRetry. skip_guards. apply tx_refines. intros a tbl' t Ht.
  unfold mbind, txm_bind, lift, queryOutboxEvents. rewrite Ht. destruct (tenantFilterClause repo t); [|done].
  destruct (negb _); [done|]. by intros [= _ <-].
Qed.

Lemma ListPending_refines ctx tx limit tbl : scoped ctx →
  table_ok m repo tbl → rtc step tbl (ListPending repo ctx tx limit tbl).2.
Proof.
  intros Hsc Hok. unfold ListPending. skip_guards. apply gated_refines, tx_refines.
  intros a tbl' t Ht. eapply claim_refines; eauto.
Qed.

Lemma ListPendingByType_refines ctx tx ty limit tbl : scoped ctx →
  table_ok m repo tbl → rtc step tbl (ListPendingByType repo ctx tx ty limit tbl).2.
Proof.
  intros Hsc Hok. unfold ListPendingByType. skip_guards. apply gated_refines, tx_refines.
  intros a tbl' t Ht. eapply claim_refines; eauto.
Qed.

Lemma ListPendingByTypes_refines ctx tx tys limit tbl : scoped ctx →
  table_ok m repo tbl → rtc step tbl (ListPendingByTypes repo ctx tx tys limit tbl).2.
Proof.
  intros Hsc Hok. unfold ListPendingByTypes. skip_guards. apply gated_refines, tx_refines.
  intros a tbl' t Ht. eapply claim_refines; eauto.
Qed.

Lemma ResetForRetry_refines ctx tx limit before tbl : scoped ctx →
  table_ok m repo tbl → rtc step tbl (ResetForRetry repo ctx tx limit before m tbl).2.
Proof.
  intros Hsc Hok. unfold ResetForRetry. skip_guards. apply gated_refines, tx_refines.
  intros a tbl' t Ht. eapply claim_refines; eauto. right. split; [done|].
  unfold retry_eligible. intros r Hr. by bool_to_prop.
Qed.

Lemma ReclaimStuck_refines ctx tx limit before tbl : scoped ctx →
  table_ok m repo tbl → rtc step tbl (ReclaimStuckProcessing repo ctx tx limit before m tbl).2.
Proof.
  intros Hsc Hok. unfold ReclaimStuckProcessing. skip_guards. apply gated_refines, tx_refines.
  intros a tbl' t Ht. by eapply reclaim_refines.
Qed.

Lemma MarkPublished_refines ctx tx id at_ tbl : scoped ctx → rtc step tbl (MarkPublished repo ctx tx id at_ tbl).2.
Proof.
  intros Hsc. unfold MarkPublished. skip_guards. apply tx_refines. intros ? tbl' t _.
  apply mark_refines; [done|]. intros r Hr. by apply rs_publish.
Qed.

Lemma MarkFailed_refines ctx tx id msg tbl : scoped ctx → rtc step tbl (MarkFailed redact repo ctx tx id msg m tbl).2.
Proof.
  intros Hsc. unfold MarkFailed. skip_guards. apply tx_refines. intros ? tbl' t _.
  apply mark_refines; [done|]. intros r Hr. case_bool_decide; [by apply rs_exhaust|apply rs_fail; [done|lia]].
Qed.

Lemma MarkInvalid_refines ctx tx id msg tbl : scoped ctx → rtc step tbl (MarkInvalid redact repo ctx tx id msg tbl).2.
Proof.
  intros Hsc. unfold MarkInvalid. skip_guards. apply tx_refines. intros ? tbl' t _.
  apply mark_refines; [done|]. intros r Hr. by apply rs_invalidate.
Qed.

(** Every call, whatever the environment does, is a path of lifecycle steps. *)
Lemma exec_refines tbl c : 0 < m → table_ok m repo tbl → scoped (call_ctx c) →
  (∀ r, call_ages c r → aged r) →
  rtc step tbl (exec json_valid jsonb redact m repo tbl c).
Proof.
  intros Hm Hok Hsc. unfold exec, call_ages. destruct (call_op c); intros Haged.
  - by apply create_refines.
  - by apply create_idempotent_refines.
  - by apply create_many_refines.
  - apply GetByID_refines.
  - by apply ListPending_refines.
  - by apply ListPendingByType_refines.
  - by apply ListPendingByTypes_refines.
  - apply ListFailedForRetry_refines.
  - by apply ResetForRetry_refines.
  - by apply ReclaimStuck_refines.
  - by apply MarkPublished_refines.
  - by apply MarkFailed_refines.
  - by apply MarkInvalid_refines.
  - apply delete_refines; auto.
  - apply delete_refines; auto.
Qed.
End refinement.

Section traces.
Context (json_valid : list Z → bool) (jsonb : list Z → list Z) (redact : text → text).
Context (m : Z) (repo : Repository) (scope : Row → bool).

Definition trace_ages (calls : list call) (r : Row) : Prop := ∃ c, c ∈ calls ∧ call_ages c r.

Lemma rtc_step_ok aged tbl tbl' : 0 < m →
  rtc (table_step redact m scope aged repo) tbl tbl' → table_ok m repo tbl → table_ok m repo tbl'.
Proof. intros Hm. induction 1 as [|x y z Hs _ IH]; [done|]. intros Hok. eapply IH, table_step_ok; eauto. Qed.

Lemma run_refines aged tbl calls : 0 < m → table_ok m repo tbl →
  (∀ c, c ∈ calls → scoped repo scope (call_ctx c)) → (∀ r, trace_ages calls r → aged r) →
  rtc (table_step redact m scope aged repo) tbl (run json_valid jsonb redact m repo tbl calls).
Proof.
  intros Hm. revert tbl. induction calls as [|c calls IH]; intros tbl Hok Hsc Haged; simpl; [done|].
  assert (Hc : rtc (table_step redact m scope aged repo) tbl (exec json_valid jsonb redact m repo tbl c)).
  { apply exec_refines; [done..|apply Hsc; left|]. intros r Hr. apply Haged. exists c. split; [left|done]. }
  etrans; [exact Hc|]. apply IH; [by eapply rtc_step_ok|intros c' Hc'; apply Hsc; by right|].
  intros r (c' & Hin & Hr). apply Haged. exists c'. split; [by right|done].
Qed.

Lemma table_ok_nil : table_ok m repo [].
Proof. constructor; constructor. Qed.

(** One row along a path of the table. *)
Lemma step_row aged tbl tbl' r : table_step redact m scope aged repo tbl tbl' → r ∈ tbl →
  (∃ r', r' ∈ tbl' ∧ (r' = r ∨ row_step redact m r r')) ∨ (terminal r ∧ aged r).
Proof.
  intros [tbl'' Hu|rows tbl'' Hr Hi|p Hp] Hin.
  - left. apply list_elem_of_lookup in Hin as [i Hi].
    destruct (Forall2_lookup_l _ _ _ _ _ Hu Hi) as (r' & Hr' & Hs).
    exists r'. split; [by eapply list_elem_of_lookup_2|tauto].
  - left. exists r. split; [|by left]. clear Hr. revert tbl Hi Hin.
    induction rows as [|row rows IH]; intros tbl; simpl; [by intros [= ->]|].
    destruct (_ || _)%bool; [done|]. intros Hi Hin. apply (IH (tbl ++ [row])); [done|].
    apply elem_of_app. by left.
  - destruct (p r) eqn:E; [right; by destruct (Hp r Hin E) as (? & ? & _)|]. left. exists r. split; [|by left].
    apply elem_of_filter_bool. by rewrite E.
Qed.

Lemma rtc_row aged tbl tbl' r : rtc (table_step redact m scope aged repo) tbl tbl' → r ∈ tbl →
  (∃ r', r' ∈ tbl' ∧ rtc (row_step redact m) r r') ∨
  (∃ r', rtc (row_step redact m) r r' ∧ terminal r' ∧ aged r').
Proof.
  intros Hs. revert r. induction Hs as [|x y z Hs _ IH]; intros r Hin; [left; eauto using rtc_refl|].
  destruct (step_row _ _ _ _ Hs Hin) as [(r' & Hr' & Hrr)|[Ht Ha]]; [|right; eauto using rtc_refl].
  assert (Hrtc : rtc (row_step redact m) r r') by (destruct Hrr as [-> |]; eauto using rtc_refl, rtc_once).
  destruct (IH r' Hr') as [(r'' & ? & ?)|(r'' & ? & ?)]; [left|right]; exists r'';
    (split; [|done]) || (split; [done|]); by etrans.
Qed.

Lemma rtc_row_key r r' : rtc (row_step redact m) r r' → row_key repo r' = row_key repo r.
Proof. induction 1 as [|x y z Hs _ IH]; [done|]. by rewrite IH, (row_step_key _ _ _ _ _ Hs). Qed.

Lemma rtc_row_terminal r r' : rtc (row_step redact m) r r' → terminal r → r' = r.
Proof. intros [|x y z Hs _] Ht; [done|]. by apply row_step_terminal in Hs. Qed.

Lemma rtc_row_attempts r r' : rtc (row_step redact m) r r' → r_attempts r ≤ r_attempts r'.
Proof. induction 1 as [|x y z Hs _ IH]; [done|]. etrans; [|exact IH]. destruct Hs; simpl; lia. Qed.
End traces.
