(* ===== verification/OutboxGuarantees.v ===== *)
(** What the PostgreSQL outbox repository guarantees its callers: the lifecycle
    over arbitrary call sequences, tenant isolation, and the functional
    behaviour of claiming, finishing, reclaiming and idempotent creation when
    the database answers. *)

From stdpp Require Import base numbers list gmap strings sorting relations.
From S2P Require Import Prelude GoText OutboxLastError OutboxEvent OutboxPostgres OutboxLifecycle.

Local Open Scope Z_scope.
Local Open Scope go_scope.

(** A call during which the database and the resolver answer. *)
Definition healthy (tx : Tx) : Prop :=
  tx_primary tx = true ∧ tx_begin tx = true ∧ (∀ t, tx_apply tx t = true) ∧ (∀ n, tx_stmt tx n = true) ∧
  tx_commit tx = CommitOk ∧ tx_presence tx = TablePresent.

(** A repository in column-per-tenant mode, a tenant's context and a healthy
    transaction, for the concrete instances below. *)
Definition demo_repo : Repository :=
  {| repo_initialized := true; tenantColumn := txt "tenant_id"; requireTenant := true |}.

Definition demo_ctx : Ctx := ContextWithTenantID Background (txt "acme").

Definition demo_tx (now : gotime) : Tx :=
  {| tx_primary := true; tx_begin := true; tx_apply := λ _, true; tx_stmt := λ _, true;
     tx_commit := CommitOk; tx_locked := λ _, false; tx_presence := TablePresent; tx_now := now |}.

Definition demo_event (id : Z) : OutboxEvent :=
  {| ID := id; EventType := txt "payment.created"; AggregateID := 7; Payload := [123; 125];
     Status := OutboxStatusPending; Attempts := 0; PublishedAt := None; LastError := [];
     CreatedAt := 100 + id; UpdatedAt := 100 + id |}.

Definition demo_call (o : op) (now : gotime) : call :=
  {| call_op := o; call_ctx := demo_ctx; call_tx := demo_tx now |}.

Definition demo_run (calls : list call) : table :=
  run (λ _, true) (λ b, b) (λ s, s) 2 demo_repo [] calls.

(** Three events; the first two are claimed and one of them fails. *)
Definition demo_calls : list call :=
  [demo_call (OpCreate false (demo_event 1)) 200; demo_call (OpCreate false (demo_event 2)) 201;
   demo_call (OpCreate false (demo_event 3)) 202; demo_call (OpListPending 2) 300;
   demo_call (OpMarkFailed 1 (txt "broker down")) 310].

Lemma healthy_demo now : healthy (demo_tx now).
Proof. by repeat split. Qed.

Section guarantees.
Context (json_valid : list Z → bool) (jsonb : list Z → list Z) (redact : text → text).
Context (m : Z) (repo : Repository).

Lemma scoped_true ctx : scoped repo (λ _, true) ctx.
Proof. done. Qed.

Lemma run_refines_all tbl calls : 0 < m → table_ok m repo tbl →
  rtc (table_step redact m (λ _, true) (trace_ages calls) repo) tbl (run json_valid jsonb redact m repo tbl calls).
Proof. intros. by apply run_refines. Qed.

Lemma run_ok tbl calls : 0 < m → table_ok m repo tbl →
  table_ok m repo (run json_valid jsonb redact m repo tbl calls).
Proof. intros Hm Hok. eapply rtc_step_ok; [done| |exact Hok]. by apply run_refines_all. Qed.

Lemma step_outside scope aged tbl tbl' :
  (∀ r r', r_tenant r = r_tenant r' → scope r = scope r') →
  table_step redact m scope aged repo tbl tbl' →
  List.filter (λ r, negb (scope r)) tbl' = List.filter (λ r, negb (scope r)) tbl.
Proof.
  intros Hsc [tbl'' Hu|rows tbl'' Hr Hi|p Hp].
  - induction Hu as [|r r' l l' Hs _ IH]; simpl; [done|]. rewrite IH.
    destruct Hs as [-> | [Hs Hrs]]; [done|].
    rewrite (Hsc r' r) by (by destruct Hrs). by rewrite Hs.
  - revert tbl Hi. induction Hr as [|row rows [_ Hrow] _ IH]; intros tbl; simpl; [by intros [= ->]|].
    destruct (_ || _)%bool; [done|]. intros Hi. rewrite (IH _ Hi), List.filter_app. simpl.
    by rewrite Hrow, app_nil_r.
  - induction tbl as [|r tbl IH]; simpl; [done|].
    destruct (p r) eqn:E; simpl.
    + destruct (Hp r) as (_ & _ & ->); [left|done|]. simpl. apply IH. intros; apply Hp; [by right|done].
    + destruct (negb (scope r)); [f_equal|]; apply IH; intros; apply Hp; try done; by right.
Qed.

Lemma withTenantTx_healthy {T} ctx tx tenantID (fn : txm T) tbl :
  healthy tx → tenantIDFromContext repo ctx = Ok tenantID →
  withTenantTxOrExisting repo ctx tx false fn tbl =
    match fn tbl with Ok (a, tbl') => (Ok a, tbl') | Err e => (Err e, tbl) end.
Proof.
  intros (H1 & H2 & H3 & _ & H5 & _) Ht. unfold withTenantTxOrExisting.
  rewrite H1, H2, Ht, H3, H5. simpl. by destruct (fn tbl) as [[]|].
Qed.

Lemma gated_healthy {T} tx (empty : T) exec tbl : healthy tx → gated tx empty exec tbl = exec tbl.
Proof. intros (_ & _ & _ & _ & _ & H). unfold gated. by rewrite H. Qed.

(** C4: Every sequence of repository calls from the empty table, under any
    database faults, lost commits and lock conflicts, is a path of the abstract
    lifecycle; so at the end keys are unique, every status is one of the five,
    attempts stay within the budget (a PROCESSING or FAILED event always has
    budget left), [published_at] is set exactly on PUBLISHED events, and the
    columns fit their widths. *)
Theorem outbox_runs_follow_lifecycle (calls : list call) : 0 < m →
  let tbl := run json_valid jsonb redact m repo [] calls in
  rtc (table_step redact m (λ _, true) (trace_ages calls) repo) [] tbl ∧ table_ok m repo tbl.
Proof.
  intros Hm tbl. split; [apply run_refines_all|apply run_ok]; auto using table_ok_nil.
Qed.

Lemma row_key_inj tbl r r' : NoDup (map (row_key repo) tbl) → r ∈ tbl → r' ∈ tbl → row_key repo r = row_key repo r' → r = r'.
Proof.
  intros Hn [i Hi]%list_elem_of_lookup [j Hj]%list_elem_of_lookup Hk.
  assert (i = j) as ->; [|congruence]. eapply NoDup_lookup; [exact Hn|..]; rewrite list_lookup_fmap; [by rewrite Hi|by rewrite Hj, Hk].
Qed.

(** One row through one retention call. *)
Lemma purge_row tbl tbl' (aged : Row → Prop) r : table_ok m repo tbl → r ∈ tbl →
  tbl' = tbl ∨ (∃ p, (∀ r, r ∈ tbl → p r = true → terminal r ∧ aged r) ∧ tbl' = List.filter (λ r, negb (p r)) tbl) →
  r ∈ tbl' ∨ (terminal r ∧ aged r ∧ ∀ r', r' ∈ tbl' → row_key repo r' ≠ row_key repo r).
Proof.
  intros Hok Hin [-> |(q & Hq & ->)]; [by left|]. destruct (q r) eqn:E; [right|left; apply elem_of_filter_bool; by rewrite E].
  destruct (Hq r Hin E) as [Ht Ha]. split_and!; [done..|]. intros r' [Hr' Hin']%elem_of_filter_bool Hk.
  assert (r' = r) as ->; [|by rewrite E in Hr']. by eapply row_key_inj; [apply Hok|..].
Qed.

(** One row through one call. *)
Lemma exec_row tbl c r : 0 < m → table_ok m repo tbl → r ∈ tbl →
  (∃ r', r' ∈ exec json_valid jsonb redact m repo tbl c ∧ rtc (row_step redact m) r r') ∨
  (terminal r ∧ call_ages c r ∧ ∀ r', r' ∈ exec json_valid jsonb redact m repo tbl c → row_key repo r' ≠ row_key repo r).
Proof.
  intros Hm Hok Hin. destruct (rtc_row redact m repo (λ _, true) (call_ages c) tbl (exec json_valid jsonb redact m repo tbl c) r) as [|(r' & _ & _ & Ha)].
  - by apply exec_refines.
  - done.
  - by left.
  - unfold exec, call_ages in *. destruct (call_op c); try done.
    all: rename before into cutoff.
    + destruct (purge_row tbl (DeletePublishedBefore repo (call_ctx c) (call_tx c) cutoff keep limit tbl).2
        (purgeable OutboxStatusPublished cutoff keep) r) as [|]; [done..| |left; exists r; by split|by right].
      destruct (delete_purges m repo (λ _, true) (call_ctx c) (call_tx c) OutboxStatusPublished cutoff keep limit tbl) as [|(p & Hp & E)];
        [done|done|by left|by left|right; exists p; split; [|done]]. intros r1 H1 H2. by destruct (Hp r1 H1 H2) as (? & ? & _).
    + destruct (purge_row tbl (DeleteInvalidBefore repo (call_ctx c) (call_tx c) cutoff keep limit tbl).2
        (purgeable OutboxStatusInvalid cutoff keep) r) as [|]; [done..| |left; exists r; by split|by right].
      destruct (delete_purges m repo (λ _, true) (call_ctx c) (call_tx c) OutboxStatusInvalid cutoff keep limit tbl) as [|(p & Hp & E)];
        [done|done|by right|by left|right; exists p; split; [|done]]. intros r1 H1 H2. by destruct (Hp r1 H1 H2) as (? & ? & _).
Qed.

(** C7: No event is lost: after any sequence of calls an event of the table is still there under the same key, having moved only along lifecycle steps and never spent fewer attempts; or one of the calls removed it, and then that call was a retention call, and the row it found in the table at that moment, the event after the calls before it, was PUBLISHED or INVALID, whichever the call deletes, older than its cutoff and of a type it does not keep. A PUBLISHED or INVALID event does not change at all while it is there. *)
Theorem no_event_lost (tbl : table) (calls : list call) (r : Row) :
  0 < m → table_ok m repo tbl → r ∈ tbl →
  (∃ r', r' ∈ run json_valid jsonb redact m repo tbl calls ∧ row_key repo r' = row_key repo r ∧
         rtc (row_step redact m) r r' ∧ r_attempts r ≤ r_attempts r' ∧ (terminal r → r' = r)) ∨
  (∃ before c after r', calls = before ++ c :: after ∧
     r' ∈ run json_valid jsonb redact m repo tbl before ∧ row_key repo r' = row_key repo r ∧
     rtc (row_step redact m) r r' ∧ terminal r' ∧ call_ages c r' ∧
     ∀ r'', r'' ∈ run json_valid jsonb redact m repo tbl (before ++ [c]) → row_key repo r'' ≠ row_key repo r).
Proof.
  intros Hm Hok Hin. enough ((∃ r', r' ∈ run json_valid jsonb redact m repo tbl calls ∧ rtc (row_step redact m) r r') ∨
    (∃ before c after r', calls = before ++ c :: after ∧ r' ∈ run json_valid jsonb redact m repo tbl before ∧
      rtc (row_step redact m) r r' ∧ terminal r' ∧ call_ages c r' ∧
      ∀ r'', r'' ∈ run json_valid jsonb redact m repo tbl (before ++ [c]) → row_key repo r'' ≠ row_key repo r'))
    as [(r' & Hr' & Hs)|(before & c & after & r' & -> & Hr' & Hs & Ht & Ha & Hgone)]; [left|right|].
  - exists r'. split_and!; [done|by eapply rtc_row_key|done|by eapply rtc_row_attempts|]. by apply rtc_row_terminal with redact m.
  - assert (row_key repo r' = row_key repo r) as Hk by by eapply rtc_row_key. exists before, c, after, r'. split_and!; try done.
    intros r''. rewrite <- Hk. apply Hgone.
  - revert tbl r Hok Hin. induction calls as [|c calls IH]; intros tbl r Hok Hin; [left; exists r; by split|].
    destruct (exec_row tbl c r) as [(r1 & Hr1 & Hs1)|(Ht & Ha & Hgone)]; [done..| |right; by exists [], c, calls, r].
    destruct (IH (exec json_valid jsonb redact m repo tbl c) r1) as [(r' & Hr' & Hs)|(before & c' & after & r' & -> & Hr' & Hs & Hrest)];
      [by apply (run_ok tbl [c])|done|left; exists r'; split; [done|by etrans]|right].
    exists (c :: before), c', after, r'. split; [done|]. split; [done|]. split; [by etrans|done].
Qed.

(** C8: Tenants are isolated: in column-per-tenant mode, calls made for other
    tenants, or without a valid tenant, leave the rows of a tenant exactly as
    they were, in the same order. *)
Theorem tenant_isolation (tbl : table) (calls : list call) (tenant : text) :
  0 < m → table_ok m repo tbl → tenantColumn repo ≠ [] →
  (∀ c, c ∈ calls → tenantIDFromContext repo (call_ctx c) ≠ Ok tenant) →
  List.filter (λ r, r_tenant r =t tenant) (run json_valid jsonb redact m repo tbl calls)
  = List.filter (λ r, r_tenant r =t tenant) tbl.
Proof.
  intros Hm Hok Hcol Hcalls. set (scope := λ r, negb (r_tenant r =t tenant)).
  assert (Hrun : rtc (table_step redact m scope (trace_ages calls) repo) tbl
            (run json_valid jsonb redact m repo tbl calls)).
  { apply run_refines; auto. intros c Hc t Ht r. unfold visible, scope.
    rewrite (proj2 (is_empty_false _) Hcol). simpl. intros ->%eqt_true.
    apply negb_true_iff, eqt_false. intros ->. by apply (Hcalls c Hc). }
  clear Hok. induction Hrun as [|x y z Hs _ IH]; [done|]. rewrite IH.
  apply step_outside in Hs; [|by intros ?? Hr; unfold scope; rewrite Hr].
  rewrite (filter_ext (λ r, negb (scope r)) (λ r, r_tenant r =t tenant)) in Hs
    by (intros; apply negb_involutive).
  by rewrite (filter_ext (λ r, negb (scope r)) (λ r, r_tenant r =t tenant)) in Hs
    by (intros; apply negb_involutive).
Qed.

(** *** Claims *)

Lemma applyProcessingState_scan sel now :
  applyProcessingState (map scanOutboxEvent sel) now = map (λ r, scanOutboxEvent (to_processing now r)) sel.
Proof. unfold applyProcessingState. by rewrite map_map. Qed.

(** The claim of a healthy call, and of any call that answered. *)
Lemma claim_healthy ctx tx tenantID from p key limit tbl :
  table_ok m repo tbl → healthy tx → tenantIDFromContext repo ctx = Ok tenantID →
  from = OutboxStatusPending ∨ from = OutboxStatusFailed →
  let sel := claimed tx tenantID from repo p key limit tbl in
  gated tx [] (withTenantTxOrExisting repo ctx tx false (claim repo ctx tx from p key limit)) tbl
  = (Ok (map (λ r, scanOutboxEvent (to_processing (tx_now tx) r)) sel),
     mark_rows sel (to_processing (tx_now tx)) tbl).
Proof.
  intros Hok Hh Ht Hfrom sel. rewrite gated_healthy by done. rewrite (withTenantTx_healthy ctx tx tenantID) by done.
  rewrite (claim_eq m repo tbl Hok ctx tx tenantID Ht) by done. destruct Hh as (_ & _ & _ & Hs & _). rewrite !Hs.
  cbn zeta. fold sel. simpl. case_bool_decide as Hl.
  - by rewrite (nil_length_inv sel Hl), mark_rows_nil.
  - by rewrite applyProcessingState_scan.
Qed.

Lemma claim_answered ctx tx from p key limit tbl es tbl' :
  table_ok m repo tbl → from = OutboxStatusPending ∨ from = OutboxStatusFailed →
  gated tx [] (withTenantTxOrExisting repo ctx tx false (claim repo ctx tx from p key limit)) tbl = (Ok es, tbl') →
  es = [] ∨ ∃ tenantID, tenantIDFromContext repo ctx = Ok tenantID ∧
    let sel := claimed tx tenantID from repo p key limit tbl in
    es = map (λ r, scanOutboxEvent (to_processing (tx_now tx) r)) sel ∧
    tbl' = mark_rows sel (to_processing (tx_now tx)) tbl.
Proof.
  intros Hok Hfrom. unfold gated. destruct (tx_presence tx); [|by intros [= <-]; left|done].
  unfold withTenantTxOrExisting. do 2 (destruct (negb _); [done|]).
  destruct (tenantIDFromContext repo ctx) as [t|] eqn:Ht; [|done]. destruct (negb _); [done|].
  rewrite (claim_eq m repo tbl Hok ctx tx t Ht) by done. cbn zeta.
  destruct (negb _); [done|]. case_bool_decide; [destruct (tx_commit tx); intros; simplify_eq; by left|].
  destruct (negb _); [done|]. destruct (tx_commit tx); intros; simplify_eq.
  right. exists t. by rewrite applyProcessingState_scan.
Qed.

(** With a database that answers, [ListPending] hands out the oldest
    unlocked PENDING events of the tenant, oldest first and at most [limit] of
    them, each once and already PROCESSING; it marks exactly those rows and
    touches nothing else; an eligible event is left out only when the limit is
    reached, and then it is no older than any event handed out. *)
Theorem ListPending_claims_oldest (tbl : table) (ctx : Ctx) (tx : Tx) (tenantID : text) (limit : Z) :
  table_ok m repo tbl → repo_initialized repo = true → 0 < limit → healthy tx →
  tenantIDFromContext repo ctx = Ok tenantID →
  ∃ sel,
    ListPending repo ctx tx limit tbl =
      (Ok (map (λ r, scanOutboxEvent (to_processing (tx_now tx) r)) sel),
       mark_rows sel (to_processing (tx_now tx)) tbl) ∧
    NoDup (map r_id sel) ∧ StronglySorted (order_by by_created) sel ∧ Z.of_nat (length sel) ≤ limit ∧
    (∀ r, r ∈ sel → r ∈ tbl ∧ r_status r = OutboxStatusPending ∧
                    visible repo tenantID r = true ∧ tx_locked tx r = false) ∧
    (∀ r, r ∈ tbl → r_status r = OutboxStatusPending → visible repo tenantID r = true →
          tx_locked tx r = false → r ∉ sel →
          Z.of_nat (length sel) = limit ∧ ∀ s, s ∈ sel → r_created_at s ≤ r_created_at r).
Proof using m repo.
  clear json_valid jsonb redact.
  intros Hok Hinit Hlim Hh Ht.
  exists (claimed tx tenantID OutboxStatusPending repo (λ _, true) by_created limit tbl).
  split; [unfold ListPending; rewrite Hinit, bool_decide_false by lia; by apply claim_healthy; auto|].
  unfold claimed. set (q := λ r, _).
  assert (Hq : ∀ r, q r = true ↔ r_status r = OutboxStatusPending ∧ visible repo tenantID r = true ∧
                                 tx_locked tx r = false).
  { intros r. unfold q. rewrite !andb_true_iff, negb_true_iff, eqt_true. tauto. }
  destruct (select_rows_split q by_created limit tbl) as [rest (Hperm & Hsort & Hlen & Hrest)].
  split_and!; [|done|lia| |].
  - apply NoDup_select, (visible_ids_NoDup repo tenantID); [apply Hok|]. intros r. rewrite Hq. tauto.
  - intros r [Hr Hin]%select_rows_elem. apply Hq in Hr. tauto.
  - intros r Hin Hst Hv Hl Hn.
    assert (Hrr : r ∈ rest).
    { assert (Hr : r ∈ List.filter q tbl) by (apply elem_of_filter_bool; rewrite Hq; tauto).
      rewrite <- Hperm, elem_of_app in Hr. tauto. }
    split.
    + apply Permutation_length in Hperm. rewrite length_app in Hperm.
      destruct rest; [by apply elem_of_nil in Hrr|]. simpl in Hperm. lia.
    + intros s Hs. specialize (Hrest s r Hs Hrr). unfold order_by, by_created in Hrest.
      apply Is_true_true in Hrest. simpl in Hrest. repeat case_bool_decide; try lia; done.
Qed.

(** An event is handed to one worker only: two claims of a tenant in a row,
    under any faults, never return the same event. *)
Theorem consecutive_claims_disjoint (tbl tbl1 tbl2 : table) (ctx1 ctx2 : Ctx) (tx1 tx2 : Tx)
    (tenantID : text) (limit1 limit2 : Z) (es1 es2 : list OutboxEvent) :
  table_ok m repo tbl → 0 < m →
  tenantIDFromContext repo ctx1 = Ok tenantID → tenantIDFromContext repo ctx2 = Ok tenantID →
  ListPending repo ctx1 tx1 limit1 tbl = (Ok es1, tbl1) →
  ListPending repo ctx2 tx2 limit2 tbl1 = (Ok es2, tbl2) →
  ∀ e1 e2, e1 ∈ es1 → e2 ∈ es2 → ID e1 ≠ ID e2.
Proof using m repo.
  clear json_valid jsonb redact.
  intros Hok Hm Ht1 Ht2 H1 H2 e1 e2 He1 He2 Hid.
  assert (Hok1 : table_ok m repo tbl1).
  { replace tbl1 with (ListPending repo ctx1 tx1 limit1 tbl).2 by (by rewrite H1).
    eapply (rtc_step_ok (λ s, s) m repo (λ _, true) (λ _, True)); [done| |exact Hok].
    apply ListPending_refines; [apply scoped_true|exact Hok]. }
  unfold ListPending in H1, H2.
  destruct (negb _); [done|]. case_bool_decide; [done|]. case_bool_decide; [done|].
  apply claim_answered in H1 as [-> |(t1 & Ht1' & -> & ->)]; auto; [by apply elem_of_nil in He1|].
  apply claim_answered in H2 as [-> |(t2 & Ht2' & -> & _)]; auto; [by apply elem_of_nil in He2|].
  rewrite Ht1 in Ht1'. injection Ht1' as <-. rewrite Ht2 in Ht2'. injection Ht2' as <-.
  apply list_elem_of_fmap in He1 as [r1 [-> Hr1]], He2 as [r2 [-> Hr2]].
  simpl in Hid. pose proof Hr1 as [Hp1 Hin1]%select_rows_elem. apply select_rows_elem in Hr2 as [Hp2 Hin2].
  bool_to_prop.
  assert (Hin1' : to_processing (tx_now tx1) r1 ∈ mark_rows
    (claimed tx1 tenantID OutboxStatusPending repo (λ _, true) by_created limit1 tbl) (to_processing (tx_now tx1)) tbl).
  { apply list_elem_of_fmap. exists r1. split; [by rewrite bool_decide_true|done]. }
  assert (to_processing (tx_now tx1) r1 = r2) as <-
    by (eapply (visible_id_inj repo tenantID); eauto; apply Hok1).
  done.
Qed.

(** *** Finishing *)

Lemma sql_update_ext tx n p q g tbl : (∀ r, p r = q r) → sql_update tx n p g tbl = sql_update tx n q g tbl.
Proof.
  intros H. unfold sql_update. rewrite (filter_ext p q H).
  replace (existsb (λ r, p r && negb (row_fits (g r)))%bool tbl)
    with (existsb (λ r, q r && negb (row_fits (g r)))%bool tbl)
    by (induction tbl as [|r tbl IH]; simpl; [done|]; by rewrite IH, H).
  by rewrite (map_ext (λ r, if p r then g r else r) (λ r, if q r then g r else r)) by (intros; by rewrite H).
Qed.

Lemma mark_rows_ext sel g g' tbl : (∀ r, r ∈ sel → g r = g' r) → mark_rows sel g tbl = mark_rows sel g' tbl.
Proof. intros H. apply map_ext. intros r. case_bool_decide; auto. Qed.

(** A finishing UPDATE hits the one visible PROCESSING row of that id, or
    reports the conflict. *)
Lemma mark_hit ctx tx tenantID g tbl r :
  table_ok m repo tbl → healthy tx → tenantIDFromContext repo ctx = Ok tenantID →
  r ∈ tbl → visible repo tenantID r = true → r_status r = OutboxStatusProcessing → row_fits (g r) = true →
  mark repo ctx tx (r_id r) g tbl = Ok (tt, mark_rows [r] g tbl).
Proof.
  intros Hok (_ & _ & _ & Hs & _) Ht Hin Hv Hst Hfit. unfold mark, mbind, txm_bind, lift. rewrite Ht.
  destruct (tenantFilterClause_ok repo ctx tenantID Ht) as [f Hclause].
  pose proof (tenantFilterClause_visible _ _ _ Hclause) as Hf. rewrite Hclause.
  rewrite (sql_update_ext _ _ _ (λ r', id_in (map r_id [r]) r' && (r_status r' =t OutboxStatusProcessing) && f r')%bool).
  2:{ intros r'. do 2 f_equal. unfold id_in. apply bool_decide_ext. simpl. by rewrite list_elem_of_singleton. }
  rewrite (sql_update_selection repo tenantID f Hf); [done|apply Hok| | |done].
  - split; [apply NoDup_singleton|]. intros r' ->%list_elem_of_singleton. by rewrite Hf.
  - by intros r' ->%list_elem_of_singleton.
Qed.

Lemma mark_miss ctx tx tenantID id g tbl :
  healthy tx → tenantIDFromContext repo ctx = Ok tenantID →
  (∀ r, r ∈ tbl → r_id r = id → visible repo tenantID r = true → r_status r ≠ OutboxStatusProcessing) →
  mark repo ctx tx id g tbl = Err ErrStateTransitionConflict.
Proof.
  intros (_ & _ & _ & Hs & _) Ht Hno. unfold mark, mbind, txm_bind, lift. rewrite Ht.
  destruct (tenantFilterClause_ok repo ctx tenantID Ht) as [f Hclause].
  pose proof (tenantFilterClause_visible _ _ _ Hclause) as Hf. rewrite Hclause.
  assert (Hp : ∀ r, r ∈ tbl → (bool_decide (r_id r = id) && (r_status r =t OutboxStatusProcessing) && f r)%bool = false).
  { intros r Hr. apply not_true_iff_false. intros E. bool_to_prop. rewrite Hf in *.
    eapply Hno; eauto. by apply eqt_true. }
  unfold sql_update. rewrite Hs. cbn [negb].
  rewrite (proj1 (not_true_iff_false (existsb _ _))).
  2:{ rewrite existsb_exists. intros [r [Hr%list_elem_of_In E]]. by rewrite Hp in E. }
  rewrite (nil_length_inv (List.filter _ tbl)); [done|]. destruct (List.filter _ tbl) as [|r l] eqn:E; [done|].
  exfalso. assert (Hr : r ∈ List.filter (λ r, bool_decide (r_id r = id)
    && (r_status r =t OutboxStatusProcessing) && f r)%bool tbl) by (rewrite E; left).
  apply elem_of_filter_bool in Hr as [E' Hr]. by rewrite Hp in E'.
Qed.

Lemma MarkFailed_hit ctx tx tenantID msg tbl r :
  table_ok m repo tbl → 0 < m → repo_initialized repo = true → healthy tx →
  tenantIDFromContext repo ctx = Ok tenantID →
  r ∈ tbl → visible repo tenantID r = true → r_status r = OutboxStatusProcessing →
  MarkFailed redact repo ctx tx (r_id r) msg m tbl =
    (Ok tt, mark_rows [r] (λ r, upd r
       (if bool_decide (r_attempts r + 1 = m) then OutboxStatusInvalid else OutboxStatusFailed)
       (r_attempts r + 1) None
       (Some (AppendErrorCause (stored_cause r) (SanitizeErrorMessageForStorage redact msg))) (tx_now tx)) tbl).
Proof.
  intros Hok Hm Hinit Hh Ht Hin Hv Hst. unfold MarkFailed. rewrite Hinit. unfold is_nil.
  pose proof (ok_rows _ _ _ Hok) as Hall. eapply Forall_forall in Hall; [|exact Hin].
  rewrite (bool_decide_false (r_id r = uuid_nil)), (bool_decide_false (m ≤ 0)) by (apply Hall || lia).
  change (ValidateOutboxTransition OutboxStatusProcessing OutboxStatusFailed) with (Ok (E := outbox_error) tt).
  change (ValidateOutboxTransition OutboxStatusProcessing OutboxStatusInvalid) with (Ok (E := outbox_error) tt).
  cbn [negb]. rewrite (withTenantTx_healthy ctx tx tenantID) by done.
  destruct (processing_recorded m repo tbl Hok r Hin Hst) as [Hfit Hrec].
  rewrite (mark_hit ctx tx tenantID) with (r := r); [|done..|].
  2:{ apply row_fits_upd; [done|]. rewrite sql_last_error_row by done. by apply AppendErrorCause_le_max, stored_cause_fits. }
  f_equal. apply mark_rows_ext. intros r' ->%list_elem_of_singleton. rewrite sql_last_error_row by done.
  destruct (phase_unique m r Processing) as [Hatt ->]; [apply Hall|done|].
  by rewrite (bool_decide_ext (m ≤ r_attempts r + 1) (r_attempts r + 1 = m)) by lia.
Qed.

Lemma MarkPublished_hit ctx tx tenantID at_ tbl r :
  table_ok m repo tbl → repo_initialized repo = true → healthy tx → tenantIDFromContext repo ctx = Ok tenantID →
  r ∈ tbl → visible repo tenantID r = true → r_status r = OutboxStatusProcessing →
  MarkPublished repo ctx tx (r_id r) at_ tbl =
    (Ok tt, mark_rows [r] (λ r, upd r OutboxStatusPublished (r_attempts r) (Some at_) (r_last_error r) (tx_now tx)) tbl).
Proof.
  intros Hok Hinit Hh Ht Hin Hv Hst. unfold MarkPublished. rewrite Hinit. unfold is_nil.
  pose proof (ok_rows _ _ _ Hok) as Hall. eapply Forall_forall in Hall; [|exact Hin].
  rewrite (bool_decide_false (r_id r = uuid_nil)) by apply Hall.
  change (ValidateOutboxTransition OutboxStatusProcessing OutboxStatusPublished) with (Ok (E := outbox_error) tt).
  cbn [negb]. rewrite (withTenantTx_healthy ctx tx tenantID) by done.
  rewrite (mark_hit ctx tx tenantID) with (r := r); [done|done..|]. exact (ok_fits _ _ Hall).
Qed.

Lemma MarkInvalid_hit ctx tx tenantID msg tbl r :
  table_ok m repo tbl → repo_initialized repo = true → healthy tx → tenantIDFromContext repo ctx = Ok tenantID →
  r ∈ tbl → visible repo tenantID r = true → r_status r = OutboxStatusProcessing →
  MarkInvalid redact repo ctx tx (r_id r) msg tbl =
    (Ok tt, mark_rows [r] (λ r, upd r OutboxStatusInvalid (r_attempts r) (r_published_at r)
       (Some (SanitizeErrorMessageForStorage redact msg)) (tx_now tx)) tbl).
Proof.
  intros Hok Hinit Hh Ht Hin Hv Hst. unfold MarkInvalid. rewrite Hinit. unfold is_nil.
  pose proof (ok_rows _ _ _ Hok) as Hall. eapply Forall_forall in Hall; [|exact Hin].
  rewrite (bool_decide_false (r_id r = uuid_nil)) by apply Hall.
  change (ValidateOutboxTransition OutboxStatusProcessing OutboxStatusInvalid) with (Ok (E := outbox_error) tt).
  cbn [negb]. rewrite (withTenantTx_healthy ctx tx tenantID) by done.
  rewrite (mark_hit ctx tx tenantID) with (r := r); [done|done..|].
  apply row_fits_upd; [exact (ok_fits _ _ Hall)|apply rune_count_sanitize].
Qed.

(** With a database that answers, [MarkFailed] on a PROCESSING event always
    takes effect, whatever the error text: one attempt is spent, the sanitised
    cause is appended to the recorded causes, and the event becomes INVALID
    exactly when the attempt was the last of its budget; no other row changes.
    On any other event it reports a state-transition conflict and changes
    nothing. *)
Theorem MarkFailed_outcome (tbl : table) (ctx : Ctx) (tx : Tx) (tenantID : text) (id : uuid) (msg : text) :
  table_ok m repo tbl → 0 < m → repo_initialized repo = true → healthy tx →
  tenantIDFromContext repo ctx = Ok tenantID → id ≠ uuid_nil →
  (∀ r, r ∈ tbl → r_id r = id → visible repo tenantID r = true → r_status r = OutboxStatusProcessing →
    MarkFailed redact repo ctx tx id msg m tbl =
      (Ok tt, mark_rows [r] (λ r, upd r
         (if bool_decide (r_attempts r + 1 = m) then OutboxStatusInvalid else OutboxStatusFailed)
         (r_attempts r + 1) None
         (Some (AppendErrorCause (stored_cause r) (SanitizeErrorMessageForStorage redact msg))) (tx_now tx)) tbl)) ∧
  ((∀ r, r ∈ tbl → r_id r = id → visible repo tenantID r = true → r_status r ≠ OutboxStatusProcessing) →
    MarkFailed redact repo ctx tx id msg m tbl = (Err ErrStateTransitionConflict, tbl)).
Proof using redact m repo.
  clear json_valid jsonb.
  intros Hok Hm Hinit Hh Ht Hid. split.
  - intros r Hin <- Hv Hst. by apply (MarkFailed_hit ctx tx tenantID).
  - intros Hno. unfold MarkFailed. rewrite Hinit. unfold is_nil.
    rewrite (bool_decide_false (id = uuid_nil)), (bool_decide_false (m ≤ 0)) by (done || lia).
    change (ValidateOutboxTransition OutboxStatusProcessing OutboxStatusFailed) with (Ok (E := outbox_error) tt).
    change (ValidateOutboxTransition OutboxStatusProcessing OutboxStatusInvalid) with (Ok (E := outbox_error) tt).
    cbn [negb]. by rewrite (withTenantTx_healthy ctx tx tenantID), (mark_miss ctx tx tenantID).
Qed.

(** *** Reclaiming *)

Definition stuck (tx : Tx) (tenantID : text) (before : gotime) (r : Row) : Prop :=
  r_status r = OutboxStatusProcessing ∧ visible repo tenantID r = true ∧ tx_locked tx r = false ∧
  r_updated_at r ≤ before.

Lemma Reclaim_healthy ctx tx tenantID limit before tbl :
  table_ok m repo tbl → 0 < m → repo_initialized repo = true → 0 < limit → healthy tx →
  tenantIDFromContext repo ctx = Ok tenantID →
  let sel := stuck_rows repo tbl tx tenantID before limit in
  let retry := List.filter (within_budget m) sel in
  let exhausted := List.filter (out_of_budget m) sel in
  ReclaimStuckProcessing repo ctx tx limit before m tbl =
    (Ok (map (λ r, scanOutboxEvent (to_reprocessing (tx_now tx) r)) retry,
         map (λ r, scanOutboxEvent (to_stuck_invalid (tx_now tx) r)) exhausted),
     mark_rows exhausted (to_stuck_invalid (tx_now tx)) (mark_rows retry (to_reprocessing (tx_now tx)) tbl)).
Proof.
  intros Hok Hm Hinit Hlim Hh Ht sel retry exhausted. unfold ReclaimStuckProcessing.
  rewrite Hinit, !bool_decide_false by lia. cbn [negb].
  rewrite gated_healthy, (withTenantTx_healthy ctx tx tenantID) by done.
  rewrite (reclaim_eq m repo tbl Hok ctx tx tenantID Ht). cbn zeta.
  destruct Hh as (_ & _ & _ & Hs & _). by rewrite !Hs, !andb_false_r.
Qed.

(** With a database that answers, [ReclaimStuckProcessing] takes at most
    [limit] stuck events of the tenant, the longest stuck first, charges each
    one attempt and splits them by the budget: those with attempts left go on
    as PROCESSING and are returned for another try, the others become INVALID
    with the stuck cause recorded and are returned as invalid; the events
    returned are the rows as they were written, and nothing else changes. *)
Theorem ReclaimStuckProcessing_splits_by_budget (tbl : table) (ctx : Ctx) (tx : Tx) (tenantID : text)
    (limit : Z) (before : gotime) :
  table_ok m repo tbl → 0 < m → repo_initialized repo = true → 0 < limit → healthy tx →
  tenantIDFromContext repo ctx = Ok tenantID →
  ∃ retry exhausted,
    ReclaimStuckProcessing repo ctx tx limit before m tbl =
      (Ok (map (λ r, scanOutboxEvent (to_reprocessing (tx_now tx) r)) retry,
           map (λ r, scanOutboxEvent (to_stuck_invalid (tx_now tx) r)) exhausted),
       mark_rows exhausted (to_stuck_invalid (tx_now tx)) (mark_rows retry (to_reprocessing (tx_now tx)) tbl)) ∧
    NoDup (map r_id (retry ++ exhausted)) ∧ Z.of_nat (length (retry ++ exhausted)) ≤ limit ∧
    (∀ r, r ∈ retry → r ∈ tbl ∧ stuck tx tenantID before r ∧ r_attempts r + 1 < m) ∧
    (∀ r, r ∈ exhausted → r ∈ tbl ∧ stuck tx tenantID before r ∧ r_attempts r + 1 = m) ∧
    (∀ r, r ∈ tbl → stuck tx tenantID before r → r ∉ retry ++ exhausted →
       Z.of_nat (length (retry ++ exhausted)) = limit ∧
       ∀ s, s ∈ retry ++ exhausted → r_updated_at s ≤ r_updated_at r).
Proof using m repo.
  clear json_valid jsonb redact.
  intros Hok Hm Hinit Hlim Hh Ht.
  set (q := λ r, ((r_status r =t OutboxStatusProcessing) && bool_decide (r_updated_at r ≤ before)
                  && visible repo tenantID r && negb (tx_locked tx r))%bool).
  set (sel := select_rows q by_updated limit tbl).
  exists (List.filter (within_budget m) sel), (List.filter (out_of_budget m) sel).
  assert (Hperm : List.filter (within_budget m) sel ++ List.filter (out_of_budget m) sel ≡ₚ sel).
  { apply filter_bool_split. intros r. unfold within_budget, out_of_budget. apply negb_involutive. }
  split.
  { by apply (Reclaim_healthy ctx tx tenantID limit before tbl). }
  assert (Hq : ∀ r, q r = true ↔ stuck tx tenantID before r).
  { intros r. unfold q, stuck. rewrite !andb_true_iff, negb_true_iff, eqt_true, bool_decide_eq_true. tauto. }
  assert (Hsel : ∀ r, r ∈ sel → r ∈ tbl ∧ stuck tx tenantID before r)
    by (intros r [Hr Hin]%select_rows_elem; by rewrite <- Hq).
  destruct (select_rows_split q by_updated limit tbl) as [rest (Hp & _ & Hlen & Hrest)]. fold sel in Hp, Hlen, Hrest.
  rewrite Hperm. split_and!.
  - apply NoDup_select, (visible_ids_NoDup repo tenantID); [apply Hok|].
    intros r. rewrite Hq. by intros (_ & ? & _).
  - lia.
  - intros r [Hb Hr]%elem_of_filter_bool. unfold within_budget in Hb. bool_to_prop.
    destruct (Hsel r Hr) as [? ?]. split_and!; [done..|lia].
  - intros r [Hb Hr]%elem_of_filter_bool. unfold out_of_budget in Hb. bool_to_prop.
    destruct (Hsel r Hr) as [Hin Hst]. split_and!; [done..|].
    assert (phase_ok m Processing r) as [Hatt _]; [|lia].
    apply phase_unique; [|apply Hst]. pose proof (ok_rows _ _ _ Hok) as Hall.
    eapply Forall_forall in Hall; [|exact Hin]. apply Hall.
  - intros r Hin Hst Hn. rewrite Hperm in Hn.
    assert (Hrr : r ∈ rest).
    { assert (Hr : r ∈ List.filter q tbl) by (apply elem_of_filter_bool; by rewrite Hq).
      rewrite <- Hp, elem_of_app in Hr. tauto. }
    split.
    + rewrite Hperm. apply Permutation_length in Hp. rewrite length_app in Hp.
      destruct rest; [by apply elem_of_nil in Hrr|]. simpl in Hp. lia.
    + intros s Hs. rewrite Hperm in Hs. specialize (Hrest s r Hs Hrr). unfold order_by, by_updated in Hrest.
      apply Is_true_true in Hrest. simpl in Hrest. repeat case_bool_decide; try lia; done.
Qed.

(** *** Idempotent creation *)

(** With a database that answers, [CreateIdempotentWithTx] of a valid event
    whose key is new stores it as PENDING; for a key that is taken it changes
    nothing, whatever became of the stored event: it answers the stored event
    when type, aggregate and JSON payload are the same and a replay conflict
    when they are not. *)
Theorem CreateIdempotent_outcome (tbl : table) (ctx : Ctx) (tx : Tx) (tenantID : text) (event : OutboxEvent) :
  table_ok m repo tbl → repo_initialized repo = true → healthy tx →
  tenantIDFromContext repo ctx = Ok tenantID → validateCreateEvent json_valid event = Ok tt →
  rune_count (TrimSpace (EventType event)) ≤ 255 →
  let tenant := if is_empty (tenantColumn repo) then [] else tenantID in
  let row := normalizedCreateValues jsonb event (tx_now tx) tenant in
  let create := CreateIdempotentWithTx json_valid jsonb repo ctx tx false event tbl in
  ((∀ r, r ∈ tbl → r_id r = ID event → visible repo tenantID r = false) →
     create = (Ok (scanOutboxEvent row), tbl ++ [row])) ∧
  (∀ r, r ∈ tbl → r_id r = ID event → visible repo tenantID r = true →
     create = (if bool_decide (r_event_type r = TrimSpace (EventType event) ∧
                               r_aggregate_id r = AggregateID event ∧ r_payload r = jsonb (Payload event))
               then Ok (scanOutboxEvent r) else Err (OutboxErr ErrReplayConflict), tbl)).
Proof using json_valid jsonb m repo.
  clear redact.
  intros Hok Hinit Hh Ht Hv Hty tenant row create. subst create. unfold CreateIdempotentWithTx.
  rewrite Hinit, Hv. cbn [negb]. rewrite (withTenantTx_healthy ctx tx tenantID) by done.
  unfold mbind, txm_bind, lift, sql_upsert.
  assert (Hten : insert_tenant repo ctx = Ok tenant).
  { unfold insert_tenant, tenant. by destruct (is_empty (tenantColumn repo)). }
  rewrite Hten. fold row. destruct Hh as (_ & _ & _ & Hs & _). rewrite Hs. cbn [negb].
  assert (Hfit : row_fits row = true).
  { unfold row_fits. cbn [row normalizedCreateValues r_event_type r_last_error].
    rewrite !bool_decide_true; [done|vm_compute; discriminate|done]. }
  rewrite Hfit. cbn [negb].
  assert (Hkey : ∀ r, same_key repo row r = (bool_decide (r_id r = ID event) && visible repo tenantID r)%bool).
  { intros r. unfold same_key, visible, row, tenant. simpl. f_equal; [by apply bool_decide_ext|].
    destruct (is_empty (tenantColumn repo)); [done|]. simpl. apply eqt_sym. }
  split.
  - intros Hno. destruct (List.find (same_key repo row) tbl) as [r|] eqn:E; [|done].
    apply find_some in E as [Hin%list_elem_of_In E]. rewrite Hkey in E. bool_to_prop.
    rewrite Hno in * by done. done.
  - intros r Hin Hid Hvis. destruct (List.find (same_key repo row) tbl) as [r'|] eqn:E.
    2:{ apply list_elem_of_In in Hin. pose proof (find_none _ _ E r Hin) as En.
        rewrite Hkey, Hvis, bool_decide_true in En; done. }
    apply find_some in E as [Hin'%list_elem_of_In E]. rewrite Hkey in E. bool_to_prop.
    assert (r' = r) as -> by (eapply (visible_id_inj repo tenantID); [apply Hok|..]; eauto; congruence).
    unfold eqt. rewrite !bool_decide_and, !andb_assoc.
    destruct (_ && _)%bool; done.
Qed.
End guarantees.

(** ** Concrete instances *)

Definition demo_row (id : Z) : Row := normalizedCreateValues (λ b, b) (demo_event id) 0 (txt "acme").

(** The same three events with the first claim, before anything failed. *)
Definition demo_table : table := demo_run (firstn 4 demo_calls).

Lemma demo_run_ok calls : table_ok 2 demo_repo (demo_run calls).
Proof. apply run_ok; [lia|apply table_ok_nil]. Qed.

Lemma demo_tenant : tenantIDFromContext demo_repo demo_ctx = Ok (txt "acme").
Proof. reflexivity. Qed.

Lemma outbox_runs_follow_lifecycle_witness :
  table_ok 2 demo_repo (demo_run demo_calls) ∧
  map r_status (demo_run demo_calls) = [OutboxStatusFailed; OutboxStatusProcessing; OutboxStatusPending].
Proof.
  split; [|vm_compute; reflexivity].
  apply (outbox_runs_follow_lifecycle (λ _, true) (λ b, b) (λ s, s) 2 demo_repo demo_calls). lia.
Defined.

(** A row that is published and purged. *)
Definition purge_calls : list call :=
  [demo_call (OpListPending 1) 300; demo_call (OpMarkPublished 1 310) 310; demo_call (OpDeletePublished 400 [] 10) 500].

Lemma no_event_lost_witness :
  let tbl := demo_run (firstn 3 demo_calls) in
  ¬ (∃ r', r' ∈ run (λ _, true) (λ b, b) (λ s, s) 2 demo_repo tbl purge_calls ∧ row_key demo_repo r' = row_key demo_repo (demo_row 1)) ∧
  ∃ before c after r', purge_calls = before ++ c :: after ∧
     r' ∈ run (λ _, true) (λ b, b) (λ s, s) 2 demo_repo tbl before ∧ row_key demo_repo r' = row_key demo_repo (demo_row 1) ∧
     rtc (row_step (λ s, s) 2) (demo_row 1) r' ∧ terminal r' ∧ call_ages c r' ∧
     ∀ r'', r'' ∈ run (λ _, true) (λ b, b) (λ s, s) 2 demo_repo tbl (before ++ [c]) → row_key demo_repo r'' ≠ row_key demo_repo (demo_row 1).
Proof.
  intros tbl.
  assert (Hgone : ¬ (∃ r', r' ∈ run (λ _, true) (λ b, b) (λ s, s) 2 demo_repo tbl purge_calls ∧ row_key demo_repo r' = row_key demo_repo (demo_row 1))).
  { assert (HF : Forall (λ r, row_key demo_repo r ≠ row_key demo_repo (demo_row 1)) (run (λ _, true) (λ b, b) (λ s, s) 2 demo_repo tbl purge_calls))
      by (apply (bool_decide_unpack _); vm_compute; exact I).
    intros (r' & Hin & Hk). rewrite Forall_forall in HF. exact (HF r' Hin Hk). }
  split; [exact Hgone|].
  destruct (no_event_lost (λ _, true) (λ b, b) (λ s, s) 2 demo_repo tbl purge_calls (demo_row 1)) as [(r' & Hin & Hk & _)|H].
  - lia.
  - apply demo_run_ok.
  - apply (bool_decide_eq_true_1 (demo_row 1 ∈ tbl)). vm_compute. reflexivity.
  - destruct Hgone. exists r'. split; [exact Hin|exact Hk].
  - exact H.
Defined.

Lemma tenant_isolation_witness :
  let other := ContextWithTenantID Background (txt "globex") in
  let calls := [{| call_op := OpListPending 10; call_ctx := other; call_tx := demo_tx 400 |};
                {| call_op := OpMarkPublished 1 400; call_ctx := Background; call_tx := demo_tx 400 |}] in
  List.filter (λ r, r_tenant r =t txt "acme")
    (run (λ _, true) (λ b, b) (λ s, s) 2 demo_repo (demo_run demo_calls) calls)
  = List.filter (λ r, r_tenant r =t txt "acme") (demo_run demo_calls).
Proof.
  intros other calls. apply tenant_isolation; [lia|apply demo_run_ok|vm_compute; discriminate|].
  intros c [-> | [-> | []%elem_of_nil]%elem_of_cons]%elem_of_cons; vm_compute; discriminate.
Defined.

Lemma ListPending_claims_oldest_witness :
  ∃ sel,
    ListPending demo_repo demo_ctx (demo_tx 400) 5 (demo_run demo_calls) =
      (Ok (map (λ r, scanOutboxEvent (to_processing 400 r)) sel),
       mark_rows sel (to_processing 400) (demo_run demo_calls)) ∧ Z.of_nat (length sel) ≤ 5.
Proof.
  destruct (ListPending_claims_oldest 2 demo_repo (demo_run demo_calls) demo_ctx (demo_tx 400) (txt "acme") 5)
    as (sel & H & _ & _ & Hl & _); [apply demo_run_ok|reflexivity|lia|apply healthy_demo|reflexivity|].
  exists sel. split; [exact H|exact Hl].
Defined.

Lemma consecutive_claims_disjoint_witness :
  let first := ListPending demo_repo demo_ctx (demo_tx 400) 2 (demo_run (firstn 3 demo_calls)) in
  let second := ListPending demo_repo demo_ctx (demo_tx 401) 2 first.2 in
  ∃ es1 es2, first.1 = Ok es1 ∧ second.1 = Ok es2 ∧ map ID es1 = [1; 2] ∧ map ID es2 = [3] ∧
    ∀ e1 e2, e1 ∈ es1 → e2 ∈ es2 → ID e1 ≠ ID e2.
Proof.
  intros first second.
  assert (H1 : first.1 = Ok (from_ok [] first.1)) by (vm_compute; reflexivity).
  assert (H2 : second.1 = Ok (from_ok [] second.1)) by (vm_compute; reflexivity).
  exists (from_ok [] first.1), (from_ok [] second.1).
  split; [exact H1|]. split; [exact H2|]. split; [vm_compute; reflexivity|]. split; [vm_compute; reflexivity|].
  apply (consecutive_claims_disjoint 2 demo_repo (demo_run (firstn 3 demo_calls))
           first.2 second.2 demo_ctx demo_ctx (demo_tx 400) (demo_tx 401) (txt "acme") 2 2);
    [apply demo_run_ok|lia|reflexivity|reflexivity| |].
  - rewrite <- H1. apply surjective_pairing.
  - rewrite <- H2. apply surjective_pairing.
Defined.

Lemma MarkFailed_outcome_witness :
  let r := to_processing 300 (demo_row 2) in
  MarkFailed (λ s, s) demo_repo demo_ctx (demo_tx 320) 2 (txt "broker down") 2 demo_table =
  (Ok tt, mark_rows [r] (λ r, upd r
     (if bool_decide (r_attempts r + 1 = 2) then OutboxStatusInvalid else OutboxStatusFailed)
     (r_attempts r + 1) None
     (Some (AppendErrorCause (stored_cause r) (SanitizeErrorMessageForStorage (λ s, s) (txt "broker down")))) 320)
     demo_table).
Proof.
  intros r. refine (proj1 (MarkFailed_outcome (λ s, s) 2 demo_repo demo_table demo_ctx (demo_tx 320) (txt "acme") 2
    (txt "broker down") _ _ _ _ _ _) r _ _ _ _).
  - apply demo_run_ok.
  - lia.
  - reflexivity.
  - apply healthy_demo.
  - reflexivity.
  - discriminate.
  - apply (bool_decide_eq_true_1 (r ∈ demo_table)). vm_compute. reflexivity.
  - reflexivity.
  - reflexivity.
  - reflexivity.
Defined.

Lemma ReclaimStuckProcessing_splits_by_budget_witness :
  ∃ retry exhausted,
    ReclaimStuckProcessing demo_repo demo_ctx (demo_tx 900) 10 800 2 demo_table =
      (Ok (map (λ r, scanOutboxEvent (to_reprocessing 900 r)) retry,
           map (λ r, scanOutboxEvent (to_stuck_invalid 900 r)) exhausted),
       mark_rows exhausted (to_stuck_invalid 900) (mark_rows retry (to_reprocessing 900) demo_table)).
Proof.
  destruct (ReclaimStuckProcessing_splits_by_budget 2 demo_repo demo_table demo_ctx (demo_tx 900) (txt "acme") 10 800)
    as (retry & exhausted & H & _); [apply demo_run_ok|lia|reflexivity|lia|apply healthy_demo|reflexivity|].
  exists retry, exhausted. exact H.
Defined.

Lemma CreateIdempotent_outcome_witness :
  CreateIdempotentWithTx (λ _, true) (λ b, b) demo_repo demo_ctx (demo_tx 500) false (demo_event 3) demo_table
  = (Ok (scanOutboxEvent (demo_row 3)), demo_table).
Proof.
  refine (eq_trans (proj2 (CreateIdempotent_outcome (λ _, true) (λ b, b) 2 demo_repo demo_table demo_ctx (demo_tx 500)
    (txt "acme") (demo_event 3) _ _ _ _ _ _) (demo_row 3) _ _ _) _).
  - apply demo_run_ok.
  - reflexivity.
  - apply healthy_demo.
  - reflexivity.
  - vm_compute. reflexivity.
  - vm_compute. discriminate.
  - apply (bool_decide_eq_true_1 (demo_row 3 ∈ demo_table)). vm_compute. reflexivity.
  - reflexivity.
  - reflexivity.
  - vm_compute. reflexivity.
Defined.
