(* ===== verification/OutboxConfig.v ===== *)
(** Dispatcher configuration: [outbox/config.go] with the validation order of
    [NewDispatcher] and [bindRetention] of [outbox/dispatcher.go].

    Callbacks are recorded by presence (a nil function is [false]); what a
    dispatcher does with them is in [OutboxDispatcher].  The meter provider is
    not modelled. *)

From stdpp Require Import base numbers list gmap strings.
From S2P Require Import Prelude GoText OutboxEvent.

Local Open Scope Z_scope.
Local Open Scope go_scope.

Record DispatcherConfig := {
  DispatchInterval : duration;
  ColdDispatchInterval : duration;
  BatchSize : Z;
  PublishMaxAttempts : Z;
  PublishBackoff : duration;
  ListPendingFailureThreshold : Z;
  RetryWindow : duration;
  MaxDispatchAttempts : Z;
  ProcessingTimeout : duration;
  PriorityBudget : Z;
  MaxFailedPerBatch : Z;
  PriorityEventTypes : list text;
  IncludeTenantMetrics : bool;
  MaxTenantMetricDimensions : Z;
  MaxTrackedListPendingFailureTenants : Z;
  OnInvalid : bool;
  OnFailed : bool;
  RetentionPublished : duration;
  RetentionInvalid : duration;
  RetentionSweepInterval : duration;
  RetentionBatchSize : Z;
  RetentionKeepEventTypes : list text;
}.

Definition defaultPublishMaxAttempts : Z := 3.
Definition defaultPublishBackoff : duration := 200 * Millisecond.
Definition defaultRetentionSweepInterval : duration := Hour.
Definition defaultRetentionBatchSize : Z := 500.
Definition defaultTenantFailureCounterFallback : text := txt "_default".

Definition DefaultDispatcherConfig : DispatcherConfig :=
  {| DispatchInterval := 2 * Second;
     ColdDispatchInterval := Minute;
     BatchSize := 50;
     PublishMaxAttempts := defaultPublishMaxAttempts;
     PublishBackoff := defaultPublishBackoff;
     ListPendingFailureThreshold := 3;
     RetryWindow := 5 * Minute;
     MaxDispatchAttempts := 10;
     ProcessingTimeout := 10 * Minute;
     PriorityBudget := 10;
     MaxFailedPerBatch := 25;
     PriorityEventTypes := [];
     IncludeTenantMetrics := false;
     MaxTenantMetricDimensions := 1000;
     MaxTrackedListPendingFailureTenants := 4096;
     OnInvalid := false;
     OnFailed := false;
     RetentionPublished := 0;
     RetentionInvalid := 0;
     RetentionSweepInterval := 0;
     RetentionBatchSize := 0;
     RetentionKeepEventTypes := [] |}.

(** Assignments to one field. *)
Definition set_DispatchInterval (v : duration) (c : DispatcherConfig) : DispatcherConfig :=
  {| DispatchInterval := v; ColdDispatchInterval := ColdDispatchInterval c; BatchSize := BatchSize c;
     PublishMaxAttempts := PublishMaxAttempts c; PublishBackoff := PublishBackoff c;
     ListPendingFailureThreshold := ListPendingFailureThreshold c; RetryWindow := RetryWindow c;
     MaxDispatchAttempts := MaxDispatchAttempts c; ProcessingTimeout := ProcessingTimeout c; PriorityBudget
     := PriorityBudget c; MaxFailedPerBatch := MaxFailedPerBatch c; PriorityEventTypes := PriorityEventTypes
     c; IncludeTenantMetrics := IncludeTenantMetrics c; MaxTenantMetricDimensions :=
     MaxTenantMetricDimensions c; MaxTrackedListPendingFailureTenants := MaxTrackedListPendingFailureTenants
     c; OnInvalid := OnInvalid c; OnFailed := OnFailed c; RetentionPublished := RetentionPublished c;
     RetentionInvalid := RetentionInvalid c; RetentionSweepInterval := RetentionSweepInterval c;
     RetentionBatchSize := RetentionBatchSize c; RetentionKeepEventTypes := RetentionKeepEventTypes c |}.
Definition set_ColdDispatchInterval (v : duration) (c : DispatcherConfig) : DispatcherConfig :=
  {| DispatchInterval := DispatchInterval c; ColdDispatchInterval := v; BatchSize := BatchSize c;
     PublishMaxAttempts := PublishMaxAttempts c; PublishBackoff := PublishBackoff c;
     ListPendingFailureThreshold := ListPendingFailureThreshold c; RetryWindow := RetryWindow c;
     MaxDispatchAttempts := MaxDispatchAttempts c; ProcessingTimeout := ProcessingTimeout c; PriorityBudget
     := PriorityBudget c; MaxFailedPerBatch := MaxFailedPerBatch c; PriorityEventTypes := PriorityEventTypes
     c; IncludeTenantMetrics := IncludeTenantMetrics c; MaxTenantMetricDimensions :=
     MaxTenantMetricDimensions c; MaxTrackedListPendingFailureTenants := MaxTrackedListPendingFailureTenants
     c; OnInvalid := OnInvalid c; OnFailed := OnFailed c; RetentionPublished := RetentionPublished c;
     RetentionInvalid := RetentionInvalid c; RetentionSweepInterval := RetentionSweepInterval c;
     RetentionBatchSize := RetentionBatchSize c; RetentionKeepEventTypes := RetentionKeepEventTypes c |}.
Definition set_BatchSize (v : Z) (c : DispatcherConfig) : DispatcherConfig :=
  {| DispatchInterval := DispatchInterval c; ColdDispatchInterval := ColdDispatchInterval c; BatchSize := v;
     PublishMaxAttempts := PublishMaxAttempts c; PublishBackoff := PublishBackoff c;
     ListPendingFailureThreshold := ListPendingFailureThreshold c; RetryWindow := RetryWindow c;
     MaxDispatchAttempts := MaxDispatchAttempts c; ProcessingTimeout := ProcessingTimeout c; PriorityBudget
     := PriorityBudget c; MaxFailedPerBatch := MaxFailedPerBatch c; PriorityEventTypes := PriorityEventTypes
     c; IncludeTenantMetrics := IncludeTenantMetrics c; MaxTenantMetricDimensions :=
     MaxTenantMetricDimensions c; MaxTrackedListPendingFailureTenants := MaxTrackedListPendingFailureTenants
     c; OnInvalid := OnInvalid c; OnFailed := OnFailed c; RetentionPublished := RetentionPublished c;
     RetentionInvalid := RetentionInvalid c; RetentionSweepInterval := RetentionSweepInterval c;
     RetentionBatchSize := RetentionBatchSize c; RetentionKeepEventTypes := RetentionKeepEventTypes c |}.
Definition set_PublishMaxAttempts (v : Z) (c : DispatcherConfig) : DispatcherConfig :=
  {| DispatchInterval := DispatchInterval c; ColdDispatchInterval := ColdDispatchInterval c; BatchSize :=
     BatchSize c; PublishMaxAttempts := v; PublishBackoff := PublishBackoff c; ListPendingFailureThreshold :=
     ListPendingFailureThreshold c; RetryWindow := RetryWindow c; MaxDispatchAttempts := MaxDispatchAttempts
     c; ProcessingTimeout := ProcessingTimeout c; PriorityBudget := PriorityBudget c; MaxFailedPerBatch :=
     MaxFailedPerBatch c; PriorityEventTypes := PriorityEventTypes c; IncludeTenantMetrics :=
     IncludeTenantMetrics c; MaxTenantMetricDimensions := MaxTenantMetricDimensions c;
     MaxTrackedListPendingFailureTenants := MaxTrackedListPendingFailureTenants c; OnInvalid := OnInvalid c;
     OnFailed := OnFailed c; RetentionPublished := RetentionPublished c; RetentionInvalid := RetentionInvalid
     c; RetentionSweepInterval := RetentionSweepInterval c; RetentionBatchSize := RetentionBatchSize c;
     RetentionKeepEventTypes := RetentionKeepEventTypes c |}.
Definition set_PublishBackoff (v : duration) (c : DispatcherConfig) : DispatcherConfig :=
  {| DispatchInterval := DispatchInterval c; ColdDispatchInterval := ColdDispatchInterval c; BatchSize :=
     BatchSize c; PublishMaxAttempts := PublishMaxAttempts c; PublishBackoff := v;
     ListPendingFailureThreshold := ListPendingFailureThreshold c; RetryWindow := RetryWindow c;
     MaxDispatchAttempts := MaxDispatchAttempts c; ProcessingTimeout := ProcessingTimeout c; PriorityBudget
     := PriorityBudget c; MaxFailedPerBatch := MaxFailedPerBatch c; PriorityEventTypes := PriorityEventTypes
     c; IncludeTenantMetrics := IncludeTenantMetrics c; MaxTenantMetricDimensions :=
     MaxTenantMetricDimensions c; MaxTrackedListPendingFailureTenants := MaxTrackedListPendingFailureTenants
     c; OnInvalid := OnInvalid c; OnFailed := OnFailed c; RetentionPublished := RetentionPublished c;
     RetentionInvalid := RetentionInvalid c; RetentionSweepInterval := RetentionSweepInterval c;
     RetentionBatchSize := RetentionBatchSize c; RetentionKeepEventTypes := RetentionKeepEventTypes c |}.
Definition set_ListPendingFailureThreshold (v : Z) (c : DispatcherConfig) : DispatcherConfig :=
  {| DispatchInterval := DispatchInterval c; ColdDispatchInterval := ColdDispatchInterval c; BatchSize :=
     BatchSize c; PublishMaxAttempts := PublishMaxAttempts c; PublishBackoff := PublishBackoff c;
     ListPendingFailureThreshold := v; RetryWindow := RetryWindow c; MaxDispatchAttempts :=
     MaxDispatchAttempts c; ProcessingTimeout := ProcessingTimeout c; PriorityBudget := PriorityBudget c;
     MaxFailedPerBatch := MaxFailedPerBatch c; PriorityEventTypes := PriorityEventTypes c;
     IncludeTenantMetrics := IncludeTenantMetrics c; MaxTenantMetricDimensions := MaxTenantMetricDimensions
     c; MaxTrackedListPendingFailureTenants := MaxTrackedListPendingFailureTenants c; OnInvalid := OnInvalid
     c; OnFailed := OnFailed c; RetentionPublished := RetentionPublished c; RetentionInvalid :=
     RetentionInvalid c; RetentionSweepInterval := RetentionSweepInterval c; RetentionBatchSize :=
     RetentionBatchSize c; RetentionKeepEventTypes := RetentionKeepEventTypes c |}.
Definition set_RetryWindow (v : duration) (c : DispatcherConfig) : DispatcherConfig :=
  {| DispatchInterval := DispatchInterval c; ColdDispatchInterval := ColdDispatchInterval c; BatchSize :=
     BatchSize c; PublishMaxAttempts := PublishMaxAttempts c; PublishBackoff := PublishBackoff c;
     ListPendingFailureThreshold := ListPendingFailureThreshold c; RetryWindow := v; MaxDispatchAttempts :=
     MaxDispatchAttempts c; ProcessingTimeout := ProcessingTimeout c; PriorityBudget := PriorityBudget c;
     MaxFailedPerBatch := MaxFailedPerBatch c; PriorityEventTypes := PriorityEventTypes c;
     IncludeTenantMetrics := IncludeTenantMetrics c; MaxTenantMetricDimensions := MaxTenantMetricDimensions
     c; MaxTrackedListPendingFailureTenants := MaxTrackedListPendingFailureTenants c; OnInvalid := OnInvalid
     c; OnFailed := OnFailed c; RetentionPublished := RetentionPublished c; RetentionInvalid :=
     RetentionInvalid c; RetentionSweepInterval := RetentionSweepInterval c; RetentionBatchSize :=
     RetentionBatchSize c; RetentionKeepEventTypes := RetentionKeepEventTypes c |}.
Definition set_MaxDispatchAttempts (v : Z) (c : DispatcherConfig) : DispatcherConfig :=
  {| DispatchInterval := DispatchInterval c; ColdDispatchInterval := ColdDispatchInterval c; BatchSize :=
     BatchSize c; PublishMaxAttempts := PublishMaxAttempts c; PublishBackoff := PublishBackoff c;
     ListPendingFailureThreshold := ListPendingFailureThreshold c; RetryWindow := RetryWindow c;
     MaxDispatchAttempts := v; ProcessingTimeout := ProcessingTimeout c; PriorityBudget := PriorityBudget c;
     MaxFailedPerBatch := MaxFailedPerBatch c; PriorityEventTypes := PriorityEventTypes c;
     IncludeTenantMetrics := IncludeTenantMetrics c; MaxTenantMetricDimensions := MaxTenantMetricDimensions
     c; MaxTrackedListPendingFailureTenants := MaxTrackedListPendingFailureTenants c; OnInvalid := OnInvalid
     c; OnFailed := OnFailed c; RetentionPublished := RetentionPublished c; RetentionInvalid :=
     RetentionInvalid c; RetentionSweepInterval := RetentionSweepInterval c; RetentionBatchSize :=
     RetentionBatchSize c; RetentionKeepEventTypes := RetentionKeepEventTypes c |}.
Definition set_ProcessingTimeout (v : duration) (c : DispatcherConfig) : DispatcherConfig :=
  {| DispatchInterval := DispatchInterval c; ColdDispatchInterval := ColdDispatchInterval c; BatchSize :=
     BatchSize c; PublishMaxAttempts := PublishMaxAttempts c; PublishBackoff := PublishBackoff c;
     ListPendingFailureThreshold := ListPendingFailureThreshold c; RetryWindow := RetryWindow c;
     MaxDispatchAttempts := MaxDispatchAttempts c; ProcessingTimeout := v; PriorityBudget := PriorityBudget
     c; MaxFailedPerBatch := MaxFailedPerBatch c; PriorityEventTypes := PriorityEventTypes c;
     IncludeTenantMetrics := IncludeTenantMetrics c; MaxTenantMetricDimensions := MaxTenantMetricDimensions
     c; MaxTrackedListPendingFailureTenants := MaxTrackedListPendingFailureTenants c; OnInvalid := OnInvalid
     c; OnFailed := OnFailed c; RetentionPublished := RetentionPublished c; RetentionInvalid :=
     RetentionInvalid c; RetentionSweepInterval := RetentionSweepInterval c; RetentionBatchSize :=
     RetentionBatchSize c; RetentionKeepEventTypes := RetentionKeepEventTypes c |}.
Definition set_PriorityBudget (v : Z) (c : DispatcherConfig) : DispatcherConfig :=
  {| DispatchInterval := DispatchInterval c; ColdDispatchInterval := ColdDispatchInterval c; BatchSize :=
     BatchSize c; PublishMaxAttempts := PublishMaxAttempts c; PublishBackoff := PublishBackoff c;
     ListPendingFailureThreshold := ListPendingFailureThreshold c; RetryWindow := RetryWindow c;
     MaxDispatchAttempts := MaxDispatchAttempts c; ProcessingTimeout := ProcessingTimeout c; PriorityBudget
     := v; MaxFailedPerBatch := MaxFailedPerBatch c; PriorityEventTypes := PriorityEventTypes c;
     IncludeTenantMetrics := IncludeTenantMetrics c; MaxTenantMetricDimensions := MaxTenantMetricDimensions
     c; MaxTrackedListPendingFailureTenants := MaxTrackedListPendingFailureTenants c; OnInvalid := OnInvalid
     c; OnFailed := OnFailed c; RetentionPublished := RetentionPublished c; RetentionInvalid :=
     RetentionInvalid c; RetentionSweepInterval := RetentionSweepInterval c; RetentionBatchSize :=
     RetentionBatchSize c; RetentionKeepEventTypes := RetentionKeepEventTypes c |}.
Definition set_MaxFailedPerBatch (v : Z) (c : DispatcherConfig) : DispatcherConfig :=
  {| DispatchInterval := DispatchInterval c; ColdDispatchInterval := ColdDispatchInterval c; BatchSize :=
     BatchSize c; PublishMaxAttempts := PublishMaxAttempts c; PublishBackoff := PublishBackoff c;
     ListPendingFailureThreshold := ListPendingFailureThreshold c; RetryWindow := RetryWindow c;
     MaxDispatchAttempts := MaxDispatchAttempts c; ProcessingTimeout := ProcessingTimeout c; PriorityBudget
     := PriorityBudget c; MaxFailedPerBatch := v; PriorityEventTypes := PriorityEventTypes c;
     IncludeTenantMetrics := IncludeTenantMetrics c; MaxTenantMetricDimensions := MaxTenantMetricDimensions
     c; MaxTrackedListPendingFailureTenants := MaxTrackedListPendingFailureTenants c; OnInvalid := OnInvalid
     c; OnFailed := OnFailed c; RetentionPublished := RetentionPublished c; RetentionInvalid :=
     RetentionInvalid c; RetentionSweepInterval := RetentionSweepInterval c; RetentionBatchSize :=
     RetentionBatchSize c; RetentionKeepEventTypes := RetentionKeepEventTypes c |}.
Definition set_PriorityEventTypes (v : list text) (c : DispatcherConfig) : DispatcherConfig :=
  {| DispatchInterval := DispatchInterval c; ColdDispatchInterval := ColdDispatchInterval c; BatchSize :=
     BatchSize c; PublishMaxAttempts := PublishMaxAttempts c; PublishBackoff := PublishBackoff c;
     ListPendingFailureThreshold := ListPendingFailureThreshold c; RetryWindow := RetryWindow c;
     MaxDispatchAttempts := MaxDispatchAttempts c; ProcessingTimeout := ProcessingTimeout c; PriorityBudget
     := PriorityBudget c; MaxFailedPerBatch := MaxFailedPerBatch c; PriorityEventTypes := v;
     IncludeTenantMetrics := IncludeTenantMetrics c; MaxTenantMetricDimensions := MaxTenantMetricDimensions
     c; MaxTrackedListPendingFailureTenants := MaxTrackedListPendingFailureTenants c; OnInvalid := OnInvalid
     c; OnFailed := OnFailed c; RetentionPublished := RetentionPublished c; RetentionInvalid :=
     RetentionInvalid c; RetentionSweepInterval := RetentionSweepInterval c; RetentionBatchSize :=
     RetentionBatchSize c; RetentionKeepEventTypes := RetentionKeepEventTypes c |}.
Definition set_IncludeTenantMetrics (v : bool) (c : DispatcherConfig) : DispatcherConfig :=
  {| DispatchInterval := DispatchInterval c; ColdDispatchInterval := ColdDispatchInterval c; BatchSize :=
     BatchSize c; PublishMaxAttempts := PublishMaxAttempts c; PublishBackoff := PublishBackoff c;
     ListPendingFailureThreshold := ListPendingFailureThreshold c; RetryWindow := RetryWindow c;
     MaxDispatchAttempts := MaxDispatchAttempts c; ProcessingTimeout := ProcessingTimeout c; PriorityBudget
     := PriorityBudget c; MaxFailedPerBatch := MaxFailedPerBatch c; PriorityEventTypes := PriorityEventTypes
     c; IncludeTenantMetrics := v; MaxTenantMetricDimensions := MaxTenantMetricDimensions c;
     MaxTrackedListPendingFailureTenants := MaxTrackedListPendingFailureTenants c; OnInvalid := OnInvalid c;
     OnFailed := OnFailed c; RetentionPublished := RetentionPublished c; RetentionInvalid := RetentionInvalid
     c; RetentionSweepInterval := RetentionSweepInterval c; RetentionBatchSize := RetentionBatchSize c;
     RetentionKeepEventTypes := RetentionKeepEventTypes c |}.
Definition set_MaxTenantMetricDimensions (v : Z) (c : DispatcherConfig) : DispatcherConfig :=
  {| DispatchInterval := DispatchInterval c; ColdDispatchInterval := ColdDispatchInterval c; BatchSize :=
     BatchSize c; PublishMaxAttempts := PublishMaxAttempts c; PublishBackoff := PublishBackoff c;
     ListPendingFailureThreshold := ListPendingFailureThreshold c; RetryWindow := RetryWindow c;
     MaxDispatchAttempts := MaxDispatchAttempts c; ProcessingTimeout := ProcessingTimeout c; PriorityBudget
     := PriorityBudget c; MaxFailedPerBatch := MaxFailedPerBatch c; PriorityEventTypes := PriorityEventTypes
     c; IncludeTenantMetrics := IncludeTenantMetrics c; MaxTenantMetricDimensions := v;
     MaxTrackedListPendingFailureTenants := MaxTrackedListPendingFailureTenants c; OnInvalid := OnInvalid c;
     OnFailed := OnFailed c; RetentionPublished := RetentionPublished c; RetentionInvalid := RetentionInvalid
     c; RetentionSweepInterval := RetentionSweepInterval c; RetentionBatchSize := RetentionBatchSize c;
     RetentionKeepEventTypes := RetentionKeepEventTypes c |}.
Definition set_MaxTrackedListPendingFailureTenants (v : Z) (c : DispatcherConfig) : DispatcherConfig :=
  {| DispatchInterval := DispatchInterval c; ColdDispatchInterval := ColdDispatchInterval c; BatchSize :=
     BatchSize c; PublishMaxAttempts := PublishMaxAttempts c; PublishBackoff := PublishBackoff c;
     ListPendingFailureThreshold := ListPendingFailureThreshold c; RetryWindow := RetryWindow c;
     MaxDispatchAttempts := MaxDispatchAttempts c; ProcessingTimeout := ProcessingTimeout c; PriorityBudget
     := PriorityBudget c; MaxFailedPerBatch := MaxFailedPerBatch c; PriorityEventTypes := PriorityEventTypes
     c; IncludeTenantMetrics := IncludeTenantMetrics c; MaxTenantMetricDimensions :=
     MaxTenantMetricDimensions c; MaxTrackedListPendingFailureTenants := v; OnInvalid := OnInvalid c;
     OnFailed := OnFailed c; RetentionPublished := RetentionPublished c; RetentionInvalid := RetentionInvalid
     c; RetentionSweepInterval := RetentionSweepInterval c; RetentionBatchSize := RetentionBatchSize c;
     RetentionKeepEventTypes := RetentionKeepEventTypes c |}.
Definition set_OnInvalid (v : bool) (c : DispatcherConfig) : DispatcherConfig :=
  {| DispatchInterval := DispatchInterval c; ColdDispatchInterval := ColdDispatchInterval c; BatchSize :=
     BatchSize c; PublishMaxAttempts := PublishMaxAttempts c; PublishBackoff := PublishBackoff c;
     ListPendingFailureThreshold := ListPendingFailureThreshold c; RetryWindow := RetryWindow c;
     MaxDispatchAttempts := MaxDispatchAttempts c; ProcessingTimeout := ProcessingTimeout c; PriorityBudget
     := PriorityBudget c; MaxFailedPerBatch := MaxFailedPerBatch c; PriorityEventTypes := PriorityEventTypes
     c; IncludeTenantMetrics := IncludeTenantMetrics c; MaxTenantMetricDimensions :=
     MaxTenantMetricDimensions c; MaxTrackedListPendingFailureTenants := MaxTrackedListPendingFailureTenants
     c; OnInvalid := v; OnFailed := OnFailed c; RetentionPublished := RetentionPublished c; RetentionInvalid
     := RetentionInvalid c; RetentionSweepInterval := RetentionSweepInterval c; RetentionBatchSize :=
     RetentionBatchSize c; RetentionKeepEventTypes := RetentionKeepEventTypes c |}.
Definition set_OnFailed (v : bool) (c : DispatcherConfig) : DispatcherConfig :=
  {| DispatchInterval := DispatchInterval c; ColdDispatchInterval := ColdDispatchInterval c; BatchSize :=
     BatchSize c; PublishMaxAttempts := PublishMaxAttempts c; PublishBackoff := PublishBackoff c;
     ListPendingFailureThreshold := ListPendingFailureThreshold c; RetryWindow := RetryWindow c;
     MaxDispatchAttempts := MaxDispatchAttempts c; ProcessingTimeout := ProcessingTimeout c; PriorityBudget
     := PriorityBudget c; MaxFailedPerBatch := MaxFailedPerBatch c; PriorityEventTypes := PriorityEventTypes
     c; IncludeTenantMetrics := IncludeTenantMetrics c; MaxTenantMetricDimensions :=
     MaxTenantMetricDimensions c; MaxTrackedListPendingFailureTenants := MaxTrackedListPendingFailureTenants
     c; OnInvalid := OnInvalid c; OnFailed := v; RetentionPublished := RetentionPublished c; RetentionInvalid
     := RetentionInvalid c; RetentionSweepInterval := RetentionSweepInterval c; RetentionBatchSize :=
     RetentionBatchSize c; RetentionKeepEventTypes := RetentionKeepEventTypes c |}.
Definition set_RetentionPublished (v : duration) (c : DispatcherConfig) : DispatcherConfig :=
  {| DispatchInterval := DispatchInterval c; ColdDispatchInterval := ColdDispatchInterval c; BatchSize :=
     BatchSize c; PublishMaxAttempts := PublishMaxAttempts c; PublishBackoff := PublishBackoff c;
     ListPendingFailureThreshold := ListPendingFailureThreshold c; RetryWindow := RetryWindow c;
     MaxDispatchAttempts := MaxDispatchAttempts c; ProcessingTimeout := ProcessingTimeout c; PriorityBudget
     := PriorityBudget c; MaxFailedPerBatch := MaxFailedPerBatch c; PriorityEventTypes := PriorityEventTypes
     c; IncludeTenantMetrics := IncludeTenantMetrics c; MaxTenantMetricDimensions :=
     MaxTenantMetricDimensions c; MaxTrackedListPendingFailureTenants := MaxTrackedListPendingFailureTenants
     c; OnInvalid := OnInvalid c; OnFailed := OnFailed c; RetentionPublished := v; RetentionInvalid :=
     RetentionInvalid c; RetentionSweepInterval := RetentionSweepInterval c; RetentionBatchSize :=
     RetentionBatchSize c; RetentionKeepEventTypes := RetentionKeepEventTypes c |}.
Definition set_RetentionInvalid (v : duration) (c : DispatcherConfig) : DispatcherConfig :=
  {| DispatchInterval := DispatchInterval c; ColdDispatchInterval := ColdDispatchInterval c; BatchSize :=
     BatchSize c; PublishMaxAttempts := PublishMaxAttempts c; PublishBackoff := PublishBackoff c;
     ListPendingFailureThreshold := ListPendingFailureThreshold c; RetryWindow := RetryWindow c;
     MaxDispatchAttempts := MaxDispatchAttempts c; ProcessingTimeout := ProcessingTimeout c; PriorityBudget
     := PriorityBudget c; MaxFailedPerBatch := MaxFailedPerBatch c; PriorityEventTypes := PriorityEventTypes
     c; IncludeTenantMetrics := IncludeTenantMetrics c; MaxTenantMetricDimensions :=
     MaxTenantMetricDimensions c; MaxTrackedListPendingFailureTenants := MaxTrackedListPendingFailureTenants
     c; OnInvalid := OnInvalid c; OnFailed := OnFailed c; RetentionPublished := RetentionPublished c;
     RetentionInvalid := v; RetentionSweepInterval := RetentionSweepInterval c; RetentionBatchSize :=
     RetentionBatchSize c; RetentionKeepEventTypes := RetentionKeepEventTypes c |}.
Definition set_RetentionSweepInterval (v : duration) (c : DispatcherConfig) : DispatcherConfig :=
  {| DispatchInterval := DispatchInterval c; ColdDispatchInterval := ColdDispatchInterval c; BatchSize :=
     BatchSize c; PublishMaxAttempts := PublishMaxAttempts c; PublishBackoff := PublishBackoff c;
     ListPendingFailureThreshold := ListPendingFailureThreshold c; RetryWindow := RetryWindow c;
     MaxDispatchAttempts := MaxDispatchAttempts c; ProcessingTimeout := ProcessingTimeout c; PriorityBudget
     := PriorityBudget c; MaxFailedPerBatch := MaxFailedPerBatch c; PriorityEventTypes := PriorityEventTypes
     c; IncludeTenantMetrics := IncludeTenantMetrics c; MaxTenantMetricDimensions :=
     MaxTenantMetricDimensions c; MaxTrackedListPendingFailureTenants := MaxTrackedListPendingFailureTenants
     c; OnInvalid := OnInvalid c; OnFailed := OnFailed c; RetentionPublished := RetentionPublished c;
     RetentionInvalid := RetentionInvalid c; RetentionSweepInterval := v; RetentionBatchSize :=
     RetentionBatchSize c; RetentionKeepEventTypes := RetentionKeepEventTypes c |}.
Definition set_RetentionBatchSize (v : Z) (c : DispatcherConfig) : DispatcherConfig :=
  {| DispatchInterval := DispatchInterval c; ColdDispatchInterval := ColdDispatchInterval c; BatchSize :=
     BatchSize c; PublishMaxAttempts := PublishMaxAttempts c; PublishBackoff := PublishBackoff c;
     ListPendingFailureThreshold := ListPendingFailureThreshold c; RetryWindow := RetryWindow c;
     MaxDispatchAttempts := MaxDispatchAttempts c; ProcessingTimeout := ProcessingTimeout c; PriorityBudget
     := PriorityBudget c; MaxFailedPerBatch := MaxFailedPerBatch c; PriorityEventTypes := PriorityEventTypes
     c; IncludeTenantMetrics := IncludeTenantMetrics c; MaxTenantMetricDimensions :=
     MaxTenantMetricDimensions c; MaxTrackedListPendingFailureTenants := MaxTrackedListPendingFailureTenants
     c; OnInvalid := OnInvalid c; OnFailed := OnFailed c; RetentionPublished := RetentionPublished c;
     RetentionInvalid := RetentionInvalid c; RetentionSweepInterval := RetentionSweepInterval c;
     RetentionBatchSize := v; RetentionKeepEventTypes := RetentionKeepEventTypes c |}.
Definition set_RetentionKeepEventTypes (v : list text) (c : DispatcherConfig) : DispatcherConfig :=
  {| DispatchInterval := DispatchInterval c; ColdDispatchInterval := ColdDispatchInterval c; BatchSize :=
     BatchSize c; PublishMaxAttempts := PublishMaxAttempts c; PublishBackoff := PublishBackoff c;
     ListPendingFailureThreshold := ListPendingFailureThreshold c; RetryWindow := RetryWindow c;
     MaxDispatchAttempts := MaxDispatchAttempts c; ProcessingTimeout := ProcessingTimeout c; PriorityBudget
     := PriorityBudget c; MaxFailedPerBatch := MaxFailedPerBatch c; PriorityEventTypes := PriorityEventTypes
     c; IncludeTenantMetrics := IncludeTenantMetrics c; MaxTenantMetricDimensions :=
     MaxTenantMetricDimensions c; MaxTrackedListPendingFailureTenants := MaxTrackedListPendingFailureTenants
     c; OnInvalid := OnInvalid c; OnFailed := OnFailed c; RetentionPublished := RetentionPublished c;
     RetentionInvalid := RetentionInvalid c; RetentionSweepInterval := RetentionSweepInterval c;
     RetentionBatchSize := RetentionBatchSize c; RetentionKeepEventTypes := v |}.

Definition retentionEnabled (c : DispatcherConfig) : bool :=
  (bool_decide (RetentionPublished c > 0) || bool_decide (RetentionInvalid c > 0))%bool.

Definition validate (c : DispatcherConfig) : result outbox_error unit :=
  if bool_decide (RetentionPublished c < 0) then Err ErrOutboxRetentionConfigInvalid
  else if bool_decide (RetentionInvalid c < 0) then Err ErrOutboxRetentionConfigInvalid
  else if (retentionEnabled c && bool_decide (RetentionBatchSize c < 0))%bool
  then Err ErrOutboxRetentionConfigInvalid
  else Ok tt.

(** [if cfg.Field <= 0 { cfg.Field = defaults.Field }] *)
Definition default_if_not_positive (v d : Z) : Z := if bool_decide (v ≤ 0) then d else v.

Definition normalizeRetention (c : DispatcherConfig) : DispatcherConfig :=
  if negb (retentionEnabled c) then c else
  let c := if bool_decide (RetentionSweepInterval c ≤ 0)
           then set_RetentionSweepInterval defaultRetentionSweepInterval c else c in
  if bool_decide (RetentionBatchSize c = 0) then set_RetentionBatchSize defaultRetentionBatchSize c else c.

Definition normalize (c : DispatcherConfig) : DispatcherConfig :=
  let d := DefaultDispatcherConfig in
  let c := set_DispatchInterval (default_if_not_positive (DispatchInterval c) (DispatchInterval d)) c in
  let c := set_ColdDispatchInterval (default_if_not_positive (ColdDispatchInterval c) (ColdDispatchInterval d)) c in
  let c := if bool_decide (ColdDispatchInterval c < DispatchInterval c)
           then set_ColdDispatchInterval (DispatchInterval c) c else c in
  let c := set_BatchSize (default_if_not_positive (BatchSize c) (BatchSize d)) c in
  let c := set_PublishMaxAttempts (default_if_not_positive (PublishMaxAttempts c) (PublishMaxAttempts d)) c in
  let c := set_PublishBackoff (default_if_not_positive (PublishBackoff c) (PublishBackoff d)) c in
  let c := set_ListPendingFailureThreshold (default_if_not_positive (ListPendingFailureThreshold c) (ListPendingFailureThreshold d)) c in
  let c := set_RetryWindow (default_if_not_positive (RetryWindow c) (RetryWindow d)) c in
  let c := set_MaxDispatchAttempts (default_if_not_positive (MaxDispatchAttempts c) (MaxDispatchAttempts d)) c in
  let c := set_ProcessingTimeout (default_if_not_positive (ProcessingTimeout c) (ProcessingTimeout d)) c in
  let c := set_PriorityBudget (default_if_not_positive (PriorityBudget c) (PriorityBudget d)) c in
  let c := set_MaxFailedPerBatch (default_if_not_positive (MaxFailedPerBatch c) (MaxFailedPerBatch d)) c in
  let c := set_MaxTenantMetricDimensions (default_if_not_positive (MaxTenantMetricDimensions c) (MaxTenantMetricDimensions d)) c in
  let c := set_MaxTrackedListPendingFailureTenants (default_if_not_positive (MaxTrackedListPendingFailureTenants c) (MaxTrackedListPendingFailureTenants d)) c in
  normalizeRetention c.

(** ** Options *)

Abbreviation DispatcherOption := (DispatcherConfig → DispatcherConfig) (only parsing).

(** Options that ignore a value that is not positive. *)
Definition if_positive (v : Z) (set : Z → DispatcherConfig → DispatcherConfig) : DispatcherOption :=
  λ c, if bool_decide (v > 0) then set v c else c.

Definition WithBatchSize (size : Z) : DispatcherOption := if_positive size set_BatchSize.
Definition WithDispatchInterval (interval : Z) : DispatcherOption := if_positive interval set_DispatchInterval.
Definition WithColdDispatchInterval (interval : Z) : DispatcherOption := if_positive interval set_ColdDispatchInterval.
Definition WithPublishMaxAttempts (maxAttempts : Z) : DispatcherOption := if_positive maxAttempts set_PublishMaxAttempts.
Definition WithPublishBackoff (backoff : Z) : DispatcherOption := if_positive backoff set_PublishBackoff.
Definition WithRetryWindow (retryWindow : Z) : DispatcherOption := if_positive retryWindow set_RetryWindow.
Definition WithMaxDispatchAttempts (attempts : Z) : DispatcherOption := if_positive attempts set_MaxDispatchAttempts.
Definition WithProcessingTimeout (timeout : Z) : DispatcherOption := if_positive timeout set_ProcessingTimeout.
Definition WithListPendingFailureThreshold (threshold : Z) : DispatcherOption := if_positive threshold set_ListPendingFailureThreshold.
Definition WithPriorityBudget (budget : Z) : DispatcherOption := if_positive budget set_PriorityBudget.
Definition WithMaxFailedPerBatch (maxFailed : Z) : DispatcherOption := if_positive maxFailed set_MaxFailedPerBatch.
Definition WithMaxTenantMetricDimensions (maxDimensions : Z) : DispatcherOption := if_positive maxDimensions set_MaxTenantMetricDimensions.
Definition WithMaxTrackedListPendingFailureTenants (maxTenants : Z) : DispatcherOption := if_positive maxTenants set_MaxTrackedListPendingFailureTenants.

Definition trim_types (eventTypes : list text) : list text :=
  List.filter (λ t, negb (is_empty t)) (map TrimSpace eventTypes).

Definition WithPriorityEventTypes (eventTypes : list text) : DispatcherOption :=
  set_PriorityEventTypes (trim_types eventTypes).
Definition WithRetentionKeepEventTypes (eventTypes : list text) : DispatcherOption :=
  set_RetentionKeepEventTypes (trim_types eventTypes).
Definition WithTenantMetricAttributes (enabled : bool) : DispatcherOption := set_IncludeTenantMetrics enabled.
Definition WithOnInvalid (fn : bool) : DispatcherOption := set_OnInvalid fn.
Definition WithOnFailed (fn : bool) : DispatcherOption := set_OnFailed fn.
Definition WithRetentionPublished (retention : duration) : DispatcherOption := set_RetentionPublished retention.
Definition WithRetentionInvalid (retention : duration) : DispatcherOption := set_RetentionInvalid retention.
Definition WithRetentionSweepInterval (interval : duration) : DispatcherOption := set_RetentionSweepInterval interval.
Definition WithRetentionBatchSize (size : Z) : DispatcherOption := set_RetentionBatchSize size.

(** ** Construction *)

(** [bindRetention]: each enabled retention needs its repository capability. *)
Definition bindRetention (publishedPurger invalidPurger : bool) (c : DispatcherConfig) : result outbox_error unit :=
  if (bool_decide (RetentionPublished c > 0) && negb publishedPurger)%bool then Err ErrOutboxRetentionUnsupported
  else if (bool_decide (RetentionInvalid c > 0) && negb invalidPurger)%bool then Err ErrOutboxRetentionUnsupported
  else Ok tt.

(** The configuration [NewDispatcher] leaves in a dispatcher: defaults, then the
    options in order, validated before they are normalised. *)
Definition configure (publishedPurger invalidPurger : bool) (opts : list DispatcherOption)
    : result outbox_error DispatcherConfig :=
  let c := foldl (λ c opt, opt c) DefaultDispatcherConfig opts in
  _ ← validate c;
  _ ← bindRetention publishedPurger invalidPurger c;
  Ok (normalize c).

(** ** What every dispatcher can rely on *)

Record config_ok (c : DispatcherConfig) : Prop := {
  ok_interval : 0 < DispatchInterval c ≤ ColdDispatchInterval c;
  ok_batch : 0 < BatchSize c;
  ok_publish_attempts : 0 < PublishMaxAttempts c;
  ok_backoff : 0 < PublishBackoff c;
  ok_threshold : 0 < ListPendingFailureThreshold c;
  ok_retry_window : 0 < RetryWindow c;
  ok_dispatch_attempts : 0 < MaxDispatchAttempts c;
  ok_timeout : 0 < ProcessingTimeout c;
  ok_priority : 0 < PriorityBudget c;
  ok_failed : 0 < MaxFailedPerBatch c;
  ok_dimensions : 0 < MaxTenantMetricDimensions c;
  ok_tracked : 0 < MaxTrackedListPendingFailureTenants c;
  ok_windows : 0 ≤ RetentionPublished c ∧ 0 ≤ RetentionInvalid c;
  ok_retention : retentionEnabled c = true → 0 < RetentionSweepInterval c ∧ 0 < RetentionBatchSize c;
}.

Lemma default_positive v d : 0 < d → 0 < default_if_not_positive v d.
Proof. unfold default_if_not_positive. case_bool_decide; lia. Qed.

Lemma default_keeps v d : 0 < v → default_if_not_positive v d = v.
Proof. unfold default_if_not_positive. intros. rewrite bool_decide_false by lia. done. Qed.

(** The part of [normalize] before the retention settings. *)
Definition normalize_dispatch (c : DispatcherConfig) : DispatcherConfig :=
  let d := DefaultDispatcherConfig in
  let dispatch := default_if_not_positive (DispatchInterval c) (DispatchInterval d) in
  let cold := default_if_not_positive (ColdDispatchInterval c) (ColdDispatchInterval d) in
  {| DispatchInterval := dispatch;
     ColdDispatchInterval := Z.max cold dispatch;
     BatchSize := default_if_not_positive (BatchSize c) (BatchSize d);
     PublishMaxAttempts := default_if_not_positive (PublishMaxAttempts c) (PublishMaxAttempts d);
     PublishBackoff := default_if_not_positive (PublishBackoff c) (PublishBackoff d);
     ListPendingFailureThreshold := default_if_not_positive (ListPendingFailureThreshold c) (ListPendingFailureThreshold d);
     RetryWindow := default_if_not_positive (RetryWindow c) (RetryWindow d);
     MaxDispatchAttempts := default_if_not_positive (MaxDispatchAttempts c) (MaxDispatchAttempts d);
     ProcessingTimeout := default_if_not_positive (ProcessingTimeout c) (ProcessingTimeout d);
     PriorityBudget := default_if_not_positive (PriorityBudget c) (PriorityBudget d);
     MaxFailedPerBatch := default_if_not_positive (MaxFailedPerBatch c) (MaxFailedPerBatch d);
     PriorityEventTypes := PriorityEventTypes c; IncludeTenantMetrics := IncludeTenantMetrics c;
     MaxTenantMetricDimensions := default_if_not_positive (MaxTenantMetricDimensions c) (MaxTenantMetricDimensions d);
     MaxTrackedListPendingFailureTenants :=
       default_if_not_positive (MaxTrackedListPendingFailureTenants c) (MaxTrackedListPendingFailureTenants d);
     OnInvalid := OnInvalid c; OnFailed := OnFailed c;
     RetentionPublished := RetentionPublished c; RetentionInvalid := RetentionInvalid c;
     RetentionSweepInterval := RetentionSweepInterval c; RetentionBatchSize := RetentionBatchSize c;
     RetentionKeepEventTypes := RetentionKeepEventTypes c |}.

Lemma normalize_split c : normalize c = normalizeRetention (normalize_dispatch c).
Proof.
  unfold normalize. cbv zeta. f_equal. unfold normalize_dispatch.
  cbn [set_DispatchInterval set_ColdDispatchInterval DispatchInterval ColdDispatchInterval].
  case_bool_decide as H; [rewrite Z.max_r by lia|rewrite Z.max_l by lia]; reflexivity.
Qed.

Lemma normalize_dispatch_fix c : config_ok c → normalize_dispatch c = c.
Proof.
  intros []. unfold normalize_dispatch. rewrite !default_keeps by lia.
  rewrite Z.max_l by lia. by destruct c.
Qed.

Lemma normalizeRetention_fix c : config_ok c → normalizeRetention c = c.
Proof.
  intros []. unfold normalizeRetention. destruct (retentionEnabled c); [|done]. cbn [negb].
  destruct ok_retention0 as [H1 H2]; [done|].
  rewrite (bool_decide_false (RetentionSweepInterval c ≤ 0)) by lia. cbv zeta.
  by rewrite (bool_decide_false (RetentionBatchSize c = 0)) by lia.
Qed.

Lemma normalizeRetention_ok c :
  let c' := normalizeRetention c in
  (RetentionPublished c' = RetentionPublished c ∧ RetentionInvalid c' = RetentionInvalid c) ∧
  (retentionEnabled c = true → 0 ≤ RetentionBatchSize c → 0 < RetentionSweepInterval c' ∧ 0 < RetentionBatchSize c').
Proof.
  unfold normalizeRetention. destruct (retentionEnabled c); cbn [negb]; [|done].
  case_bool_decide as H1; cbv zeta; case_bool_decide as H2; simpl in *; (split; [done|]); intros _ ?;
    unfold defaultRetentionSweepInterval, defaultRetentionBatchSize, Hour, Minute, Second; lia.
Qed.

Lemma normalize_ok c : validate c = Ok tt → config_ok (normalize c).
Proof.
  intros Hv. rewrite normalize_split.
  destruct (normalizeRetention_ok (normalize_dispatch c)) as [Hw Hr].
  assert (He : retentionEnabled (normalizeRetention (normalize_dispatch c)) = retentionEnabled c).
  { unfold retentionEnabled. by destruct Hw as [-> ->]. }
  unfold validate in Hv. destruct (bool_decide (RetentionPublished c < 0)) eqn:H1; [done|].
  destruct (bool_decide (RetentionInvalid c < 0)) eqn:H2; [done|].
  destruct (retentionEnabled c && bool_decide (RetentionBatchSize c < 0))%bool eqn:H3; [done|].
  bool_to_prop.
  assert (Hret : retentionEnabled c = true → 0 < RetentionSweepInterval (normalizeRetention (normalize_dispatch c)) ∧
    0 < RetentionBatchSize (normalizeRetention (normalize_dispatch c))).
  { intros E. apply Hr; [done|]. rewrite E in H3. simpl in H3. bool_to_prop. simpl. lia. }
  constructor; [..|rewrite (proj1 Hw), (proj2 Hw); simpl; lia|by rewrite He].
  all: unfold normalizeRetention; repeat case_match; cbn; try apply default_positive; try (vm_compute; done).
  all: split; [apply default_positive; vm_compute; done|lia].
Qed.

(** Whatever options a dispatcher is built with, construction either refuses
    the retention settings or yields a configuration every later step can rely
    on: all intervals, sizes and budgets are positive, cold polling is never
    faster than hot polling, an enabled retention has a positive sweep interval
    and batch size and a repository able to delete, and normalising again
    changes nothing. *)
Theorem configured_dispatcher_is_sane (publishedPurger invalidPurger : bool) (opts : list DispatcherOption)
    (c : DispatcherConfig) :
  configure publishedPurger invalidPurger opts = Ok c →
  config_ok c ∧ normalize c = c ∧
  (0 < RetentionPublished c → publishedPurger = true) ∧ (0 < RetentionInvalid c → invalidPurger = true).
Proof.
  unfold configure, mbind, result_bind. set (c0 := foldl _ _ _).
  destruct (validate c0) as [[]|] eqn:Hv; [|done].
  destruct (bindRetention publishedPurger invalidPurger c0) as [[]|] eqn:Hb; [|done]. intros [= <-].
  pose proof (normalize_ok c0 Hv) as Hok. split; [done|]. split.
  { by rewrite (normalize_split (normalize c0)), normalize_dispatch_fix, normalizeRetention_fix. }
  rewrite normalize_split. destruct (normalizeRetention_ok (normalize_dispatch c0)) as [[-> ->] _]. simpl.
  unfold bindRetention in Hb.
  split; intros Hpos.
  - rewrite (bool_decide_true (RetentionPublished c0 > 0)) in Hb by lia. by destruct publishedPurger.
  - rewrite (bool_decide_true (RetentionInvalid c0 > 0)) in Hb by lia.
    destruct invalidPurger; [done|]. by destruct (bool_decide (RetentionPublished c0 > 0) && negb publishedPurger)%bool.
Qed.

Lemma configured_dispatcher_is_sane_witness :
  let c := normalize (set_RetentionPublished (24 * Hour) (set_BatchSize 100 DefaultDispatcherConfig)) in
  config_ok c ∧ normalize c = c ∧ (0 < RetentionPublished c → true = true) ∧ (0 < RetentionInvalid c → false = true).
Proof.
  intros c. apply (configured_dispatcher_is_sane true false
    [WithBatchSize 100; WithBatchSize (-3); WithRetentionPublished (24 * Hour)]). reflexivity.
Defined.
