(* ===== verification/OutboxDispatcher.v ===== *)
(** The outbox dispatcher: [outbox/dispatcher.go].

    The dispatcher is written against the repository interface
    ([outbox/repository.go]) as a class of operations on an abstract repository
    state, and against an environment that answers clock readings, context
    cancellations, handler outcomes and random numbers.  A dispatch step is a
    state transformer; every externally visible action is appended to a trace. *)

From stdpp Require Import base numbers list gmap strings.
From S2P Require Import Prelude GoText Backoff OutboxLastError OutboxEvent OutboxConfig.

Local Open Scope Z_scope.
Local Open Scope go_scope.

(** [TenantDispatchScope]: (TenantID, PoolKey) *)
Abbreviation TenantDispatchScope := (text * text)%type.

(** ** Repository interface *)

(** [OutboxRepository] and the optional interfaces a dispatcher looks for by
    type assertion; an interface the repository lacks is [None]. *)
Class OutboxRepository (S R : Type) := {
  op_ListPending : Ctx → Z → S → result R (list OutboxEvent) * S;
  op_ListPendingByType : Ctx → text → Z → S → result R (list OutboxEvent) * S;
  op_ListTenants : Ctx → S → result R (list text) * S;
  op_MarkPublished : Ctx → uuid → gotime → S → result R unit * S;
  op_MarkFailed : Ctx → uuid → text → Z → S → result R unit * S;
  op_MarkInvalid : Ctx → uuid → text → S → result R unit * S;
  op_ResetForRetry : Ctx → Z → gotime → Z → S → result R (list OutboxEvent) * S;
  op_ResetStuckProcessing : Ctx → Z → gotime → Z → S → result R (list OutboxEvent) * S;
  (* StuckReclaimer *)
  op_ReclaimStuckProcessing :
    option (Ctx → Z → gotime → Z → S → result R (list OutboxEvent * list OutboxEvent) * S);
  (* MultiTypePendingRepository *)
  op_ListPendingByTypes : option (Ctx → list text → Z → S → result R (list OutboxEvent) * S);
  (* PublishedPurger, PublishedTenantLister, InvalidPurger *)
  op_DeletePublishedBefore : option (Ctx → gotime → list text → Z → S → result R Z * S);
  op_ListTenantsWithPublishedBefore : option (Ctx → gotime → list text → S → result R (list text) * S);
  op_InvalidPurger : option ((Ctx → gotime → list text → Z → S → result R Z * S)
                             * (Ctx → gotime → list text → S → result R (list text) * S));
  (* TenantDispatchScopeRepository *)
  op_TenantDispatchScopes :
    option ((Ctx → S → result R (list TenantDispatchScope) * S) * (Ctx → TenantDispatchScope → Ctx));
  (* tenantRequirementReporter *)
  op_RequiresTenant : option bool;
}.

(** ** Errors, effects, environment, state *)

Inductive publish_error (E : Type) :=
| PubHandler (e : E)                                        (* the handler's own error *)
| PubOutbox (e : outbox_error)                              (* a sentinel of the package *)
| PubAttempt (attempt maxAttempts : Z) (e : publish_error E) (* publish attempt %d/%d failed: %w *)
| PubWait.                                                  (* publish retry wait interrupted: %w *)
Arguments PubHandler {E} e.
Arguments PubOutbox {E} e.
Arguments PubAttempt {E} attempt maxAttempts e.
Arguments PubWait {E}.

Inductive effect (E : Type) :=
| Handled (event : OutboxEvent) (outcome : option (publish_error E))
| Waited (d : duration)
| MarkedPublished (id : uuid) (ok : bool)
| MarkedFailed (id : uuid) (ok : bool)
| MarkedInvalid (id : uuid) (ok : bool)
| CalledOnInvalid (event : OutboxEvent) (err : publish_error E)
| CalledOnFailed (event : OutboxEvent) (err : publish_error E).
Arguments Handled {E} event outcome.
Arguments Waited {E} d.
Arguments MarkedPublished {E} id ok.
Arguments MarkedFailed {E} id ok.
Arguments MarkedInvalid {E} id ok.
Arguments CalledOnInvalid {E} event err.
Arguments CalledOnFailed {E} event err.

(** What the outside world answers; the index counts the questions asked. *)
Record Env (H E : Type) := {
  env_now : nat → gotime;
  env_ctx_done : nat → bool;
  env_handle : nat → H → OutboxEvent → option E;
  env_entropy : nat → entropy;
}.
Arguments env_now {H E} e n.
Arguments env_ctx_done {H E} e n.
Arguments env_handle {H E} e n h event.
Arguments env_entropy {H E} e n.

(** The mutable fields of a [Dispatcher]. *)
Record dispatchScopeActivity := { lastWorkAt : gotime; nextPollAt : gotime }.

Record Dispatcher := {
  listPendingFailureCounts : gmap text Z;
  tenantMetricKeys : gset text;
  scopeActivity : gmap TenantDispatchScope dispatchScopeActivity;
  retentionSweptAt : gmap TenantDispatchScope gotime;
  retentionPrunedAt : gotime;
  retentionListedAt : gotime;
  tenantTurn : Z;
  running : bool;
  stop_closed : bool;   (* the stop channel is closed, and stopOnce spent *)
}.

Record DispatchResult := { Processed : Z; Published_ : Z; Failed_ : Z; StateUpdateFailed : Z }.

(** ** Pieces that only touch the dispatcher's own state *)

Section dispatcher_state.
Context (cfg : DispatcherConfig).

Definition set_counts (c : gmap text Z) (d : Dispatcher) : Dispatcher :=
  {| listPendingFailureCounts := c; tenantMetricKeys := tenantMetricKeys d; scopeActivity := scopeActivity d;
     retentionSweptAt := retentionSweptAt d; retentionPrunedAt := retentionPrunedAt d;
     retentionListedAt := retentionListedAt d; tenantTurn := tenantTurn d; running := running d;
     stop_closed := stop_closed d |}.
Definition set_metric_keys (k : gset text) (d : Dispatcher) : Dispatcher :=
  {| listPendingFailureCounts := listPendingFailureCounts d; tenantMetricKeys := k; scopeActivity := scopeActivity d;
     retentionSweptAt := retentionSweptAt d; retentionPrunedAt := retentionPrunedAt d;
     retentionListedAt := retentionListedAt d; tenantTurn := tenantTurn d; running := running d;
     stop_closed := stop_closed d |}.
Definition set_activity (a : gmap TenantDispatchScope dispatchScopeActivity) (d : Dispatcher) : Dispatcher :=
  {| listPendingFailureCounts := listPendingFailureCounts d; tenantMetricKeys := tenantMetricKeys d; scopeActivity := a;
     retentionSweptAt := retentionSweptAt d; retentionPrunedAt := retentionPrunedAt d;
     retentionListedAt := retentionListedAt d; tenantTurn := tenantTurn d; running := running d;
     stop_closed := stop_closed d |}.
Definition set_retention (swept : gmap TenantDispatchScope gotime) (pruned listed : gotime) (d : Dispatcher) : Dispatcher :=
  {| listPendingFailureCounts := listPendingFailureCounts d; tenantMetricKeys := tenantMetricKeys d;
     scopeActivity := scopeActivity d; retentionSweptAt := swept; retentionPrunedAt := pruned;
     retentionListedAt := listed; tenantTurn := tenantTurn d; running := running d;
     stop_closed := stop_closed d |}.
Definition set_turn (t : Z) (d : Dispatcher) : Dispatcher :=
  {| listPendingFailureCounts := listPendingFailureCounts d; tenantMetricKeys := tenantMetricKeys d;
     scopeActivity := scopeActivity d; retentionSweptAt := retentionSweptAt d;
     retentionPrunedAt := retentionPrunedAt d; retentionListedAt := retentionListedAt d; tenantTurn := t;
     running := running d; stop_closed := stop_closed d |}.
Definition set_run (r closed : bool) (d : Dispatcher) : Dispatcher :=
  {| listPendingFailureCounts := listPendingFailureCounts d; tenantMetricKeys := tenantMetricKeys d;
     scopeActivity := scopeActivity d; retentionSweptAt := retentionSweptAt d;
     retentionPrunedAt := retentionPrunedAt d; retentionListedAt := retentionListedAt d;
     tenantTurn := tenantTurn d; running := r; stop_closed := closed |}.

(** [NewDispatcher] with [ensureFailureCounterFallback]. *)
Definition new_dispatcher : Dispatcher :=
  {| listPendingFailureCounts := {[ defaultTenantFailureCounterFallback := 0 ]}; tenantMetricKeys := ∅;
     scopeActivity := ∅; retentionSweptAt := ∅; retentionPrunedAt := zero_time; retentionListedAt := zero_time;
     tenantTurn := 0; running := false; stop_closed := false |}.

(** *** Metric dimensions *)

Definition overflowTenantMetricLabel : text := txt "_other".

Definition boundedTenantMetricKey (tenantKey : text) (d : Dispatcher) : text * Dispatcher :=
  let tenantKey := if is_empty tenantKey then defaultTenantFailureCounterFallback else tenantKey in
  if bool_decide (tenantKey ∈ tenantMetricKeys d) then (tenantKey, d)
  else if bool_decide (Z.of_nat (size (tenantMetricKeys d)) < MaxTenantMetricDimensions cfg)
  then (tenantKey, set_metric_keys ({[ tenantKey ]} ∪ tenantMetricKeys d) d)
  else (overflowTenantMetricLabel, d).

(** [tenantMetricAttribute], for its effect on the key set. *)
Definition tenantMetricAttribute (tenantKey : text) (d : Dispatcher) : option text * Dispatcher :=
  if negb (IncludeTenantMetrics cfg) then (None, d)
  else let '(k, d) := boundedTenantMetricKey tenantKey d in (Some k, d).

(** *** Failure counters *)

(** [m[k]++] and reading [m[k]], on a map whose missing entries read 0 *)
Definition read_count (m : gmap text Z) (k : text) : Z := default 0 (m !! k).
Definition bump (m : gmap text Z) (k : text) : gmap text Z := <[k := read_count m k + 1]> m.

(** The counting part of [handleListPendingError]: the new state, and whether
    the threshold alarm is logged. *)
Definition handleListPendingError (tenantKey : text) (d : Dispatcher) : bool * Dispatcher :=
  let counts := listPendingFailureCounts d in
  let maxTracked := MaxTrackedListPendingFailureTenants cfg in
  let counterTenantKey :=
    if bool_decide (maxTracked ≤ 1) then defaultTenantFailureCounterFallback
    else match counts !! tenantKey with
         | Some _ => tenantKey
         | None => if bool_decide (maxTracked ≤ Z.of_nat (size counts))
                   then defaultTenantFailureCounterFallback else tenantKey
         end in
  let counts := bump counts counterTenantKey in
  (bool_decide (ListPendingFailureThreshold cfg ≤ read_count counts counterTenantKey), set_counts counts d).

Definition clearListPendingFailureCount (tenantKey : text) (d : Dispatcher) : Dispatcher :=
  let counts := listPendingFailureCounts d in
  if (is_empty tenantKey || (tenantKey =t defaultTenantFailureCounterFallback))%bool
  then set_counts (<[defaultTenantFailureCounterFallback := 0]> counts) d
  else match counts !! tenantKey with
       | None => set_counts (<[defaultTenantFailureCounterFallback := 0]> counts) d
       | Some _ => set_counts (delete tenantKey counts) d
       end.

(** *** Polling schedule *)

Definition shouldDispatchScope (scope : TenantDispatchScope) (now : gotime) (d : Dispatcher) : bool :=
  match scopeActivity d !! scope with
  | None => true
  | Some activity => negb (time_before now (nextPollAt activity))
  end.

Definition recordScopeActivity (scope : TenantDispatchScope) (result : DispatchResult) (now : gotime)
    (d : Dispatcher) : Dispatcher :=
  let last :=
    if bool_decide (Processed result > 0) then now
    else match scopeActivity d !! scope with Some a => lastWorkAt a | None => zero_time end in
  let interval :=
    if (negb (time_is_zero last) && bool_decide (time_sub now last < ColdDispatchInterval cfg))%bool
    then DispatchInterval cfg else ColdDispatchInterval cfg in
  set_activity (<[scope := {| lastWorkAt := last; nextPollAt := time_add now interval |}]> (scopeActivity d)) d.

Definition reconcileScopeActivity (scopes : list TenantDispatchScope) (d : Dispatcher) : Dispatcher :=
  set_activity (filter (λ kv, kv.1 ∈ scopes) (scopeActivity d)) d.

Definition resetScopePollSchedule (d : Dispatcher) : Dispatcher :=
  set_activity ((λ a, {| lastWorkAt := lastWorkAt a; nextPollAt := zero_time |}) <$> scopeActivity d) d.

(** *** Scope order *)

Fixpoint normalize_scopes_loop (seen : list TenantDispatchScope) (scopes : list TenantDispatchScope)
    : list TenantDispatchScope :=
  match scopes with
  | [] => []
  | scope :: rest =>
      let scope := (TrimSpace scope.1, TrimSpace scope.2) in
      if is_empty scope.1 then normalize_scopes_loop seen rest
      else if bool_decide (scope ∈ seen) then normalize_scopes_loop seen rest
      else scope :: normalize_scopes_loop (scope :: seen) rest
  end.

Definition normalizeTenantDispatchScopes (scopes : list TenantDispatchScope) : list TenantDispatchScope :=
  normalize_scopes_loop [] scopes.

Definition tenantDispatchScopeOrder (scopes : list TenantDispatchScope) (d : Dispatcher)
    : list TenantDispatchScope * Dispatcher :=
  if bool_decide (length scopes ≤ 1)%nat then (scopes, d)
  else
    let n := Z.of_nat (length scopes) in
    let start := Z.to_nat (tenantTurn d `rem` n) in
    (skipn start scopes ++ firstn start scopes, set_turn ((tenantTurn d + 1) `rem` n) d).

(** *** Retention claims *)

Definition claimRetentionSweep (scope : TenantDispatchScope) (now : gotime) (d : Dispatcher) : bool * Dispatcher :=
  let interval := RetentionSweepInterval cfg in
  let due := match retentionSweptAt d !! scope with
             | Some last => negb (bool_decide (time_sub now last < interval))
             | None => true
             end in
  if negb due then (false, d)
  else
    let prune := (time_is_zero (retentionPrunedAt d)
                  || bool_decide (interval ≤ time_sub now (retentionPrunedAt d)))%bool in
    let swept := if prune then filter (λ kv, time_sub now kv.2 < interval) (retentionSweptAt d)
                 else retentionSweptAt d in
    let pruned := if prune then now else retentionPrunedAt d in
    (true, set_retention (<[scope := now]> swept) pruned (retentionListedAt d) d).

(** *** Run state *)

Definition registerRun (d : Dispatcher) : bool * Dispatcher :=
  if running d then (false, d) else (true, set_run true false d).

Definition clearRun (d : Dispatcher) : Dispatcher := set_run false (stop_closed d) d.

(** [Stop]; the answer says whether a running dispatch was cancelled. *)
Definition Stop (d : Dispatcher) : bool * Dispatcher :=
  if stop_closed d then (false, d) else (running d, set_run (running d) true d).
End dispatcher_state.

(** ** Dispatching *)

Section dispatch.
Context {S R H E : Type} `{repo : OutboxRepository S R}.
Context (env : Env H E) (cfg : DispatcherConfig) (handlers : gmap text H)
  (retryClassifier : option (publish_error E → bool))
  (error_text : publish_error E → text) (redact : text → text).

(** A retention the dispatcher was bound to. *)
Record retentionTarget := {
  window : duration;
  target_delete : Ctx → gotime → list text → Z → S → result R Z * S;
  target_list : option (Ctx → gotime → list text → S → result R (list text) * S);
}.

Record World := {
  w_repo : S;
  w_disp : Dispatcher;
  w_tick : nat;
  w_trace : list (effect E);
}.

Definition dm (A : Type) : Type := World → A * World.

#[local] Instance dm_ret : MRet dm := λ A a w, (a, w).
#[local] Instance dm_bind : MBind dm := λ A B f m w, let '(a, w') := m w in f a w'.

Definition ask {A} (f : nat → A) : dm A := λ w,
  (f (w_tick w), {| w_repo := w_repo w; w_disp := w_disp w; w_tick := Datatypes.S (w_tick w); w_trace := w_trace w |}).
Definition emit (e : effect E) : dm unit := λ w,
  (tt, {| w_repo := w_repo w; w_disp := w_disp w; w_tick := w_tick w; w_trace := w_trace w ++ [e] |}).
Definition on_repo {A} (f : S → A * S) : dm A := λ w,
  let '(a, s) := f (w_repo w) in
  (a, {| w_repo := s; w_disp := w_disp w; w_tick := w_tick w; w_trace := w_trace w |}).
Definition on_disp {A} (f : Dispatcher → A * Dispatcher) : dm A := λ w,
  let '(a, d) := f (w_disp w) in
  (a, {| w_repo := w_repo w; w_disp := d; w_tick := w_tick w; w_trace := w_trace w |}).
Definition update_disp (f : Dispatcher → Dispatcher) : dm unit := on_disp (λ d, (tt, f d)).

Definition now : dm gotime := ask (env_now env).
Definition ctx_done : dm bool := ask (env_ctx_done env).

Definition tenantKeyFromContext (ctx : Ctx) : text :=
  match TenantIDFromContext ctx with
  | Some tenantID => if is_empty tenantID then defaultTenantFailureCounterFallback else tenantID
  | None => defaultTenantFailureCounterFallback
  end.

(** The metric recorders: they record nothing for a count that is not
    positive, and otherwise touch the bounded key set. *)
Definition recordMetric (tenantKey : text) : dm unit :=
  update_disp (λ d, (tenantMetricAttribute cfg tenantKey d).2).
Definition addMetric (tenantKey : text) (count : Z) : dm unit :=
  if bool_decide (count ≤ 0) then mret tt else recordMetric tenantKey.

Definition isNonRetryableError (err : publish_error E) : bool := IsNonRetryable retryClassifier err.

Definition sanitizeErrorForStorage (err : publish_error E) : text :=
  SanitizeErrorMessageForStorage redact (error_text err).

Definition invokeOnInvalid (event : OutboxEvent) (err : publish_error E) : dm unit :=
  if negb (OnInvalid cfg) then mret tt else emit (CalledOnInvalid event err).
Definition invokeOnFailed (event : OutboxEvent) (err : publish_error E) : dm unit :=
  if negb (OnFailed cfg) then mret tt else emit (CalledOnFailed event err).

(** *** Collecting *)

Fixpoint dedup_loop (seen : list uuid) (events : list OutboxEvent) : list OutboxEvent :=
  match events with
  | [] => []
  | event :: rest =>
      if bool_decide (ID event ∈ seen) then dedup_loop seen rest
      else event :: dedup_loop (ID event :: seen) rest
  end.

Definition deduplicateEvents (events : list OutboxEvent) : list OutboxEvent := dedup_loop [] events.

(** An error is logged and counts as no events. *)
Definition or_none {A} (r : result R (list A)) : list A := from_ok [] r.

Fixpoint priority_loop (ctx : Ctx) (budget : Z) (types : list text) (result : list OutboxEvent)
    : dm (list OutboxEvent) :=
  match types with
  | [] => mret result
  | eventType :: rest =>
      let remaining := budget - Z.of_nat (length result) in
      if bool_decide (remaining ≤ 0) then mret result else
      events ← on_repo (op_ListPendingByType ctx eventType remaining);
      priority_loop ctx budget rest (result ++ or_none events)
  end.

Definition collectPriorityEvents (ctx : Ctx) (budget : Z) : dm (list OutboxEvent) :=
  if (bool_decide (budget ≤ 0) || bool_decide (length (PriorityEventTypes cfg) = 0%nat))%bool then mret []
  else match op_ListPendingByTypes with
       | Some listByTypes =>
           events ← on_repo (listByTypes ctx (PriorityEventTypes cfg) budget);
           mret (or_none events)
       | None => priority_loop ctx budget (PriorityEventTypes cfg) []
       end.

Fixpoint fire_invalid (events : list OutboxEvent) : dm unit :=
  match events with
  | [] => mret tt
  | event :: rest => _ ← invokeOnInvalid event (PubOutbox ErrStuckAttemptsExhausted); fire_invalid rest
  end.

Definition resetStuckProcessing (ctx : Ctx) (limit : Z) (processingBefore : gotime) : dm (result R (list OutboxEvent)) :=
  match op_ReclaimStuckProcessing with
  | None => on_repo (op_ResetStuckProcessing ctx limit processingBefore (MaxDispatchAttempts cfg))
  | Some reclaim =>
      r ← on_repo (reclaim ctx limit processingBefore (MaxDispatchAttempts cfg));
      match r with
      | Ok (retry, invalid) => _ ← fire_invalid invalid; mret (Ok retry)
      | Err e => mret (Err e)
      end
  end.

Definition collectEvents (ctx : Ctx) : dm (list OutboxEvent) :=
  t1 ← now;
  let failedBefore := time_add t1 (- RetryWindow cfg) in
  t2 ← now;
  let processingBefore := time_add t2 (- ProcessingTimeout cfg) in
  let priorityBudget := Z.min (PriorityBudget cfg) (BatchSize cfg) in
  priorityEvents ← collectPriorityEvents ctx priorityBudget;
  if (bool_decide (is_Some op_ListPendingByTypes) && bool_decide (0 < length (PriorityEventTypes cfg))%nat)%bool
  then mret (deduplicateEvents priorityEvents) else
  let collected := Z.of_nat (length priorityEvents) in
  let stuckLimit := BatchSize cfg - collected in
  if bool_decide (stuckLimit ≤ 0) then mret (deduplicateEvents priorityEvents) else
  stuck ← resetStuckProcessing ctx stuckLimit processingBefore;
  let stuckEvents := or_none stuck in
  let collected := collected + Z.of_nat (length stuckEvents) in
  let failedLimit := Z.min (BatchSize cfg - collected) (MaxFailedPerBatch cfg) in
  if bool_decide (failedLimit ≤ 0) then mret (deduplicateEvents (priorityEvents ++ stuckEvents)) else
  failed ← on_repo (op_ResetForRetry ctx failedLimit failedBefore (MaxDispatchAttempts cfg));
  let failedEvents := or_none failed in
  let collected := collected + Z.of_nat (length failedEvents) in
  let remaining := BatchSize cfg - collected in
  if bool_decide (remaining ≤ 0)
  then mret (deduplicateEvents (priorityEvents ++ stuckEvents ++ failedEvents)) else
  pending ← on_repo (op_ListPending ctx remaining);
  match pending with
  | Err _ =>
      _ ← on_disp (handleListPendingError cfg (tenantKeyFromContext ctx));
      mret (deduplicateEvents (priorityEvents ++ stuckEvents ++ failedEvents))
  | Ok pendingEvents =>
      _ ← update_disp (clearListPendingFailureCount (tenantKeyFromContext ctx));
      mret (deduplicateEvents (priorityEvents ++ stuckEvents ++ failedEvents ++ pendingEvents))
  end.

(** *** Publishing *)

Definition publishEvent (event : OutboxEvent) : dm (option (publish_error E)) :=
  if bool_decide (length (Payload event) = 0%nat) then mret (Some (PubOutbox ErrOutboxEventPayloadRequired)) else
  match Handle handlers event with
  | Err e => mret (Some (PubOutbox e))
  | Ok handler =>
      outcome ← ask (λ n, env_handle env n handler event);
      let outcome := PubHandler <$> outcome in
      _ ← emit (Handled event outcome);
      mret outcome
  end.

(** [for attempt := range maxAttempts], [fuel] iterations left. *)
Fixpoint retry_loop (event : OutboxEvent) (maxAttempts : Z) (publishBackoff : duration) (fuel : nat) (attempt : Z)
    (lastErr : option (publish_error E)) : dm (option (publish_error E)) :=
  match fuel with
  | O => mret lastErr
  | Datatypes.S fuel =>
      err ← publishEvent event;
      match err with
      | None => mret None
      | Some err =>
          let lastErr := PubAttempt (attempt + 1) maxAttempts err in
          if (isNonRetryableError err || bool_decide (attempt = maxAttempts - 1))%bool then mret (Some lastErr) else
          g ← ask (env_entropy env);
          let delay := ExponentialWithJitter g publishBackoff attempt in
          done ← ctx_done;
          _ ← emit (Waited delay);
          let ctx_err := if (done : bool) then Some tt else None in
          match WaitContext ctx_err ctx_err delay with
          | Some _ => mret (Some PubWait)
          | None => retry_loop event maxAttempts publishBackoff fuel (attempt + 1) (Some lastErr)
          end
      end
  end.

Definition publishEventWithRetry (event : OutboxEvent) : dm (option (publish_error E)) :=
  let maxAttempts := if bool_decide (PublishMaxAttempts cfg ≤ 0) then defaultPublishMaxAttempts
                     else PublishMaxAttempts cfg in
  let publishBackoff := if bool_decide (PublishBackoff cfg ≤ 0) then defaultPublishBackoff
                        else PublishBackoff cfg in
  retry_loop event maxAttempts publishBackoff (Z.to_nat maxAttempts) 0 None.

Definition handlePublishError (ctx : Ctx) (event : OutboxEvent) (err : publish_error E) : dm unit :=
  if isNonRetryableError err then
    markErr ← on_repo (op_MarkInvalid ctx (ID event) (sanitizeErrorForStorage err));
    _ ← emit (MarkedInvalid (ID event) (is_ok markErr));
    if negb (is_ok markErr) then mret tt else invokeOnInvalid event err
  else
    markErr ← on_repo (op_MarkFailed ctx (ID event) (sanitizeErrorForStorage err) (MaxDispatchAttempts cfg));
    _ ← emit (MarkedFailed (ID event) (is_ok markErr));
    if negb (is_ok markErr) then mret tt
    else if bool_decide (MaxDispatchAttempts cfg ≤ Attempts event + 1) then invokeOnInvalid event err
    else invokeOnFailed event err.

(** *** One cycle *)

Fixpoint dispatch_loop (ctx : Ctx) (tenantKey : text) (events : list OutboxEvent) (r : DispatchResult) : dm DispatchResult :=
  match events with
  | [] => mret r
  | event :: rest =>
      done ← ctx_done;
      if (done : bool) then mret r else
      err ← publishEventWithRetry event;
      match err with
      | Some err =>
          _ ← handlePublishError ctx event err;
          dispatch_loop ctx tenantKey rest
            {| Processed := Processed r + 1; Published_ := Published_ r; Failed_ := Failed_ r + 1;
               StateUpdateFailed := StateUpdateFailed r |}
      | None =>
          t ← now;
          markErr ← on_repo (op_MarkPublished ctx (ID event) t);
          _ ← emit (MarkedPublished (ID event) (is_ok markErr));
          _ ← (if is_ok markErr then mret tt else addMetric tenantKey 1 : dm unit);
          dispatch_loop ctx tenantKey rest
            {| Processed := Processed r + 1; Published_ := Published_ r + 1; Failed_ := Failed_ r;
               StateUpdateFailed := StateUpdateFailed r + (if is_ok markErr then 0 else 1) |}
      end
  end.

Definition no_result : DispatchResult :=
  {| Processed := 0; Published_ := 0; Failed_ := 0; StateUpdateFailed := 0 |}.

Definition DispatchOnceResult (ctx : Ctx) : dm DispatchResult :=
  events ← collectEvents ctx;
  let tenantKey := tenantKeyFromContext ctx in
  _ ← recordMetric tenantKey;
  r ← dispatch_loop ctx tenantKey events no_result;
  _ ← addMetric tenantKey (Published_ r);
  _ ← addMetric tenantKey (Failed_ r);
  _ ← recordMetric tenantKey;
  mret r.

Definition DispatchOnce (ctx : Ctx) : dm Z := r ← DispatchOnceResult ctx; mret (Processed r).

(** *** Retention sweeps *)

Definition retention_targets : list retentionTarget :=
  (if bool_decide (0 < RetentionPublished cfg) then
     match op_DeletePublishedBefore with
     | Some del => [{| window := RetentionPublished cfg; target_delete := del;
                       target_list := op_ListTenantsWithPublishedBefore |}]
     | None => []
     end else []) ++
  (if bool_decide (0 < RetentionInvalid cfg) then
     match op_InvalidPurger with
     | Some (del, list) => [{| window := RetentionInvalid cfg; target_delete := del; target_list := Some list |}]
     | None => []
     end else []).

Fixpoint sweep_targets (ctx : Ctx) (t : gotime) (targets : list retentionTarget) : dm unit :=
  match targets with
  | [] => mret tt
  | target :: rest =>
      deleted ← on_repo (target_delete target ctx (time_add t (- window target))
                           (RetentionKeepEventTypes cfg) (RetentionBatchSize cfg));
      _ ← match deleted with
          | Err _ => mret tt
          | Ok n => addMetric (tenantKeyFromContext ctx) n
          end;
      sweep_targets ctx t rest
  end.

Definition sweepRetention (ctx : Ctx) (scope : TenantDispatchScope) (t : gotime) : dm unit :=
  if bool_decide (length retention_targets = 0%nat) then mret tt else
  done ← ctx_done;
  if (done : bool) then mret tt else
  claimed ← on_disp (claimRetentionSweep cfg scope t);
  if negb claimed then mret tt else sweep_targets ctx t retention_targets.

Fixpoint sweep_tenants (ctx : Ctx) (t : gotime) (tenants : list text) : dm unit :=
  match tenants with
  | [] => mret tt
  | tenantID :: rest =>
      _ ← sweepRetention (ContextWithTenantID ctx tenantID) (tenantID, []) t;
      sweep_tenants ctx t rest
  end.

Fixpoint sweep_listed (ctx : Ctx) (t : gotime) (targets : list retentionTarget) : dm unit :=
  match targets with
  | [] => mret tt
  | target :: rest =>
      _ ← match target_list target with
          | None => mret tt
          | Some list =>
              tenants ← on_repo (list ctx (time_add t (- window target)) (RetentionKeepEventTypes cfg));
              match tenants with Err _ => mret tt | Ok tenants => sweep_tenants ctx t tenants end
          end;
      sweep_listed ctx t rest
  end.

(** The once-per-interval gate of [sweepListedTenants]. *)
Definition claimListing (t : gotime) (d : Dispatcher) : bool * Dispatcher :=
  let due := (time_is_zero (retentionListedAt d)
              || bool_decide (RetentionSweepInterval cfg ≤ time_sub t (retentionListedAt d)))%bool in
  (due, if due then set_retention (retentionSweptAt d) (retentionPrunedAt d) t d else d).

Definition sweepListedTenants (ctx : Ctx) : dm unit :=
  if bool_decide (length retention_targets = 0%nat) then mret tt else
  done ← ctx_done;
  if (done : bool) then mret tt else
  t ← now;
  due ← on_disp (claimListing t);
  if negb due then mret tt else sweep_listed ctx t retention_targets.

(** *** Across tenants *)

Definition listTenantDispatchScopes (ctx : Ctx) : dm (result R (list TenantDispatchScope)) :=
  match op_TenantDispatchScopes with
  | Some (listScopes, _) => on_repo (listScopes ctx)
  | None =>
      tenants ← on_repo (op_ListTenants ctx);
      mret (match tenants with Err e => Err e | Ok tenants => Ok (map (λ t, (t, [])) tenants) end)
  end.

Definition dispatchWithoutDiscoveredTenant (ctx : Ctx) : dm unit :=
  match TenantIDFromContext ctx with
  | Some tenantID =>
      _ ← DispatchOnceResult ctx;
      t ← now;
      sweepRetention ctx (tenantID, []) t
  | None =>
      if default true op_RequiresTenant then mret tt else
      _ ← DispatchOnceResult ctx;
      t ← now;
      sweepRetention ctx ([], []) t
  end.

Definition scope_ctx (ctx : Ctx) (scope : TenantDispatchScope) : Ctx :=
  let ctx := match op_TenantDispatchScopes with Some (_, contextFor) => contextFor ctx scope | None => ctx end in
  ContextWithTenantID ctx scope.1.

Fixpoint dispatch_scopes (ctx : Ctx) (scopes : list TenantDispatchScope) : dm unit :=
  match scopes with
  | [] => mret tt
  | scope :: rest =>
      done ← ctx_done;
      if (done : bool) then mret tt else
      t ← now;
      due ← on_disp (λ d, (shouldDispatchScope scope t d, d));
      if negb due then dispatch_scopes ctx rest else
      let tenantCtx := scope_ctx ctx scope in
      result ← DispatchOnceResult tenantCtx;
      _ ← update_disp (recordScopeActivity cfg scope result t);
      _ ← sweepRetention tenantCtx scope t;
      dispatch_scopes ctx rest
  end.

Definition dispatchAcrossTenants (ctx : Ctx) : dm unit :=
  done ← ctx_done;
  if (done : bool) then mret tt else
  scopes ← listTenantDispatchScopes ctx;
  match scopes with
  | Err _ => mret tt
  | Ok scopes =>
      let normalizedScopes := normalizeTenantDispatchScopes scopes in
      _ ← update_disp (reconcileScopeActivity normalizedScopes);
      orderedScopes ← on_disp (tenantDispatchScopeOrder normalizedScopes);
      if bool_decide (length orderedScopes = 0%nat) then
        _ ← dispatchWithoutDiscoveredTenant ctx; sweepListedTenants ctx
      else
        _ ← dispatch_scopes ctx orderedScopes; sweepListedTenants ctx
  end.

(** *** The run loop *)

(** What the [select] of the loop receives. *)
Inductive signal := TickSignal | StopSignal | CtxDoneSignal.

(** [RunContext] on the signals it receives until it returns; a tick that
    finds the stop channel closed returns as well. *)
Fixpoint run_signals (ctx : Ctx) (signals : list signal) : dm unit :=
  match signals with
  | [] => mret tt
  | TickSignal :: rest =>
      closed ← on_disp (λ d, (stop_closed d, d));
      if (closed : bool) then mret tt else
      _ ← dispatchAcrossTenants ctx; run_signals ctx rest
  | _ :: _ => mret tt
  end.

Definition RunContext (ctx : Ctx) (signals : list signal) : dm (result outbox_error unit) :=
  started ← on_disp registerRun;
  if negb started then mret (Err ErrOutboxDispatcherRunning) else
  _ ← update_disp resetScopePollSchedule;
  _ ← dispatchAcrossTenants ctx;
  _ ← run_signals ctx signals;
  _ ← update_disp clearRun;
  mret (Ok tt).
End dispatch.
