(* ===== verification/OutboxScheduling.v ===== *)
(** The dispatcher's own bookkeeping over long runs: memory bounds of its maps,
    fairness of the tenant rotation, spacing of retention sweeps. *)

From stdpp Require Import base numbers list gmap strings fin_map_dom sorting.
From S2P Require Import Prelude GoText OutboxEvent OutboxConfig OutboxDispatcher.

Local Open Scope Z_scope.
Local Open Scope go_scope.

(** ** Bounded maps *)

(** The bookkeeping steps of a run, in any order and for any tenant. *)
Inductive bookkeeping :=
| ListFailed (tenantKey : text)
| ListSucceeded (tenantKey : text)
| MetricRecorded (tenantKey : text).

Definition bookkeep (cfg : DispatcherConfig) (d : Dispatcher) (b : bookkeeping) : Dispatcher :=
  match b with
  | ListFailed k => (handleListPendingError cfg k d).2
  | ListSucceeded k => clearListPendingFailureCount k d
  | MetricRecorded k => (tenantMetricAttribute cfg k d).2
  end.

Section memory.
Context (cfg : DispatcherConfig).

Record memory_ok (d : Dispatcher) : Prop := {
  ok_fallback : defaultTenantFailureCounterFallback ∈ dom (listPendingFailureCounts d);
  ok_counts : Z.of_nat (size (listPendingFailureCounts d)) ≤ Z.max 1 (MaxTrackedListPendingFailureTenants cfg);
  ok_keys : Z.of_nat (size (tenantMetricKeys d)) ≤ Z.max 0 (MaxTenantMetricDimensions cfg);
}.

Lemma size_bump_present (m : gmap text Z) k : k ∈ dom m → size (bump m k) = size m.
Proof. intros [v Hv]%elem_of_dom. unfold bump. rewrite map_size_insert. by rewrite Hv. Qed.

Lemma size_bump_le (m : gmap text Z) k : (size (bump m k) ≤ 1 + size m)%nat.
Proof. unfold bump. rewrite map_size_insert. destruct (m !! k); simpl; lia. Qed.

Lemma bookkeep_ok d b : memory_ok d → memory_ok (bookkeep cfg d b).
Proof.
  intros [Hf Hc Hk]. destruct b as [k|k|k]; simpl.
  - unfold handleListPendingError. set (key := if bool_decide _ then _ else _). constructor; simpl; [| |done].
    + unfold bump. rewrite dom_insert. set_solver.
    + assert (key ∈ dom (listPendingFailureCounts d) ∨
        Z.of_nat (size (listPendingFailureCounts d)) < MaxTrackedListPendingFailureTenants cfg) as [Hin|Hlt].
      { unfold key. case_bool_decide; [by left|]. destruct (listPendingFailureCounts d !! k) eqn:E.
        - left. by apply elem_of_dom_2 in E.
        - case_bool_decide; [by left|right; lia]. }
      * by rewrite size_bump_present.
      * pose proof (size_bump_le (listPendingFailureCounts d) key). lia.
  - assert (Hz : memory_ok (set_counts (<[defaultTenantFailureCounterFallback:=0]> (listPendingFailureCounts d)) d)).
    { constructor; simpl; [rewrite dom_insert; set_solver| |done].
      rewrite map_size_insert. apply elem_of_dom in Hf as [v ->]. done. }
    unfold clearListPendingFailureCount. destruct (_ || _)%bool eqn:E; [done|].
    destruct (listPendingFailureCounts d !! k) eqn:El; [|done]. constructor; simpl; [| |done].
    + rewrite dom_delete. apply orb_false_iff in E as [_ E]. apply eqt_false in E. set_solver.
    + rewrite map_size_delete, El. simpl. lia.
  - unfold tenantMetricAttribute, boundedTenantMetricKey. destruct (negb _); [done|].
    case_bool_decide; [done|]. case_bool_decide; [|done]. constructor; simpl; [done|done|].
    rewrite size_union by set_solver. rewrite size_singleton. lia.
Qed.

Lemma new_dispatcher_memory : memory_ok new_dispatcher.
Proof.
  constructor; unfold new_dispatcher; cbn [listPendingFailureCounts tenantMetricKeys].
  - rewrite dom_singleton. set_solver.
  - rewrite map_size_singleton. lia.
  - rewrite size_empty. lia.
Qed.

(** The dispatcher's per-tenant memory is bounded whatever tenants come and
    go: after any sequence of failed and successful listings and recorded
    metrics, at most [MaxTrackedListPendingFailureTenants] failure counters and
    [MaxTenantMetricDimensions] metric labels are kept, and the shared
    fallback counter is always among them. *)
Theorem dispatcher_memory_bounded (steps : list bookkeeping) : config_ok cfg →
  let d := foldl (bookkeep cfg) new_dispatcher steps in
  Z.of_nat (size (listPendingFailureCounts d)) ≤ MaxTrackedListPendingFailureTenants cfg ∧
  Z.of_nat (size (tenantMetricKeys d)) ≤ MaxTenantMetricDimensions cfg ∧
  is_Some (listPendingFailureCounts d !! defaultTenantFailureCounterFallback).
Proof.
  intros Hcfg d. assert (Hd : memory_ok d).
  { subst d. pose proof new_dispatcher_memory as H0. revert H0. generalize new_dispatcher.
    induction steps as [|b steps IH]; intros d Hd; simpl; [done|]. by apply IH, bookkeep_ok. }
  destruct Hd as [Hf Hc Hk], Hcfg. split_and!; [lia|lia|]. by apply elem_of_dom.
Qed.
End memory.

(** ** Fairness of the rotation *)

(** The orders of [k] consecutive cycles over the same scopes. *)
Fixpoint orders (k : nat) (scopes : list TenantDispatchScope) (d : Dispatcher) : list (list TenantDispatchScope) :=
  match k with
  | O => []
  | S k => let '(o, d') := tenantDispatchScopeOrder scopes d in o :: orders k scopes d'
  end.

Definition rotation (start : Z) (scopes : list TenantDispatchScope) : list TenantDispatchScope :=
  skipn (Z.to_nat start) scopes ++ firstn (Z.to_nat start) scopes.

Lemma rotation_perm start scopes : rotation start scopes ≡ₚ scopes.
Proof. unfold rotation. rewrite Permutation_app_comm. by rewrite firstn_skipn. Qed.

Lemma rotation_head start scopes i s :
  scopes !! i = Some s → start = Z.of_nat i → head (rotation start scopes) = Some s.
Proof.
  intros Hi ->. unfold rotation. rewrite Nat2Z.id. by erewrite drop_S.
Qed.

Lemma scope_order_rotation scopes d : 0 ≤ tenantTurn d →
  let n := Z.of_nat (length scopes) in
  0 < n →
  let '(o, d') := tenantDispatchScopeOrder scopes d in
  o = rotation (tenantTurn d `mod` n) scopes ∧ 0 ≤ tenantTurn d' ∧
  tenantTurn d' `mod` n = (tenantTurn d + 1) `mod` n.
Proof.
  intros Ht n Hn. unfold tenantDispatchScopeOrder. case_bool_decide as Hl.
  - assert (n = 1) as -> by lia. rewrite !Z.mod_1_r. split_and!; [|done|done].
    unfold rotation. simpl. by rewrite app_nil_r.
  - fold n. simpl. rewrite !Z.rem_mod_nonneg by lia. split_and!; [done| |by rewrite Z.mod_mod by lia].
    apply Z.mod_pos_bound. lia.
Qed.

Lemma orders_lookup k scopes d j : 0 ≤ tenantTurn d →
  let n := Z.of_nat (length scopes) in
  0 < n → (j < k)%nat →
  orders k scopes d !! j = Some (rotation ((tenantTurn d + Z.of_nat j) `mod` n) scopes).
Proof.
  intros Ht n Hn. revert d j Ht. induction k as [|k IH]; intros d j Ht Hj; [lia|]. simpl.
  pose proof (scope_order_rotation scopes d Ht Hn) as Hs. fold n in Hs.
  destruct (tenantDispatchScopeOrder scopes d) as [o d']. destruct Hs as (-> & Ht' & Hmod).
  destruct j as [|j]; simpl; [by rewrite Z.add_0_r|]. rewrite IH by (lia || done). do 2 f_equal.
  rewrite <- Z.add_mod_idemp_l, Hmod, Z.add_mod_idemp_l by lia. f_equal. lia.
Qed.

(** The rotation is fair: every cycle dispatches each scope exactly as often
    as it was discovered, and over as many consecutive cycles as there are
    scopes every scope goes first in one of them, wherever the rotation started;
    so a slow tenant cannot keep the others behind it. *)
Theorem rotation_fair (scopes : list TenantDispatchScope) (d : Dispatcher) :
  0 ≤ tenantTurn d →
  (∀ o, o ∈ orders (length scopes) scopes d → o ≡ₚ scopes) ∧
  (∀ s, s ∈ scopes → ∃ o, o ∈ orders (length scopes) scopes d ∧ head o = Some s).
Proof.
  intros Ht. destruct scopes as [|s0 scopes0]; [split; intros ? []%elem_of_nil|].
  set (scopes := s0 :: scopes0). set (n := Z.of_nat (length scopes)).
  assert (Hn : 0 < n) by (subst n scopes; simpl; lia). split.
  - intros o [j Hj]%list_elem_of_lookup.
    assert (Hlt : (j < length scopes)%nat).
    { apply lookup_lt_Some in Hj. clear -Hj.
      enough (∀ k d, length (orders k scopes d) = k) as E by (by rewrite E in Hj).
      clear. induction k as [|k IH]; intros d; simpl; [done|].
      destruct (tenantDispatchScopeOrder scopes d). simpl. by rewrite IH. }
    rewrite (orders_lookup _ scopes d j Ht Hn Hlt) in Hj. injection Hj as <-. apply rotation_perm.
  - intros s [i Hi]%list_elem_of_lookup. pose proof (lookup_lt_Some _ _ _ Hi) as Hlt.
    set (j := Z.to_nat ((Z.of_nat i - tenantTurn d) `mod` n)).
    assert (Hj : Z.of_nat j = (Z.of_nat i - tenantTurn d) `mod` n).
    { subst j. rewrite Z2Nat.id; [done|]. apply Z.mod_pos_bound. lia. }
    assert (Hjn : (j < length scopes)%nat) by (pose proof (Z.mod_pos_bound (Z.of_nat i - tenantTurn d) n); lia).
    exists (rotation ((tenantTurn d + Z.of_nat j) `mod` n) scopes). split.
    + eapply list_elem_of_lookup_2. by apply orders_lookup.
    + apply (rotation_head _ _ i); [done|]. rewrite Hj, Z.add_mod_idemp_r by lia.
      replace (tenantTurn d + (Z.of_nat i - tenantTurn d)) with (Z.of_nat i) by lia.
      apply Z.mod_small. lia.
Qed.

(** ** Retention sweeps *)

(** The claims of a run: which were granted, and the dispatcher afterwards. *)
Fixpoint sweep_claims (cfg : DispatcherConfig) (claims : list (TenantDispatchScope * gotime)) (d : Dispatcher)
    : list bool * Dispatcher :=
  match claims with
  | [] => ([], d)
  | (scope, t) :: rest =>
      let '(granted, d) := claimRetentionSweep cfg scope t d in
      let '(gs, d) := sweep_claims cfg rest d in
      (granted :: gs, d)
  end.

(** The specification: a log of every sweep ever granted, from which nothing is
    forgotten; a scope is due when its last sweep is an interval old. *)
Definition due_by_log (interval : duration) (log : list (TenantDispatchScope * gotime))
    (scope : TenantDispatchScope) (t : gotime) : bool :=
  forallb (λ '(s, last), negb (bool_decide (s = scope ∧ t - last < interval))) log.

Fixpoint sweeps_by_log (interval : duration) (log : list (TenantDispatchScope * gotime))
    (claims : list (TenantDispatchScope * gotime)) : list bool :=
  match claims with
  | [] => []
  | (scope, t) :: rest =>
      let granted := due_by_log interval log scope t in
      granted :: sweeps_by_log interval (if granted then (scope, t) :: log else log) rest
  end.

Section retention.
Context (cfg : DispatcherConfig).
Abbreviation I := (RetentionSweepInterval cfg).
Hypothesis HI : 0 < I ≤ MaxInt64.

(** [d] represents [log] as seen at time [T]. *)
Record represents (log : list (TenantDispatchScope * gotime)) (T : gotime) (d : Dispatcher) : Prop := {
  rep_sound : ∀ s l, retentionSweptAt d !! s = Some l → (s, l) ∈ log;
  rep_recent : ∀ s l, (s, l) ∈ log → T - l < I → retentionSweptAt d !! s = Some l;
  rep_past : ∀ s l, (s, l) ∈ log → l ≤ T;
  rep_pruned_past : retentionPrunedAt d ≤ T;
  rep_pruned : time_is_zero (retentionPrunedAt d) = true → retentionSweptAt d = ∅;
  rep_age : ∀ s l, retentionSweptAt d !! s = Some l →
    retentionPrunedAt d - l < I ∧ l - retentionPrunedAt d < I;
}.

Lemma sub_lt_interval t u : time_sub t u < I ↔ t - u < I.
Proof. rewrite time_sub_lt; unfold in_int64, MinInt64, MaxInt64 in *; lia. Qed.

Lemma due_by_log_spec log s t : due_by_log I log s t = true ↔ ∀ l, (s, l) ∈ log → I ≤ t - l.
Proof.
  unfold due_by_log. rewrite forallb_forall. split.
  - intros H l Hl%list_elem_of_In. specialize (H _ Hl). simpl in H. bool_to_prop.
    destruct (decide (t - l < I)); [exfalso; auto|lia].
  - intros H [s' l] Hl%list_elem_of_In. apply negb_true_iff, bool_decide_eq_false.
    intros [-> Hlt]. specialize (H _ Hl). lia.
Qed.

Lemma represents_due log T d s t : represents log T d → T ≤ t →
  match retentionSweptAt d !! s with
  | Some last => negb (bool_decide (time_sub t last < I))
  | None => true
  end = due_by_log I log s t.
Proof.
  intros Hr Ht. apply eq_true_iff_eq. rewrite due_by_log_spec. split.
  - intros Hd l Hl. destruct (decide (T - l < I)) as [HT|]; [|lia].
    rewrite (rep_recent _ _ _ Hr _ _ Hl HT) in Hd. bool_to_prop. rewrite sub_lt_interval in Hd. lia.
  - intros Hl. destruct (retentionSweptAt d !! s) as [l|] eqn:E; [|done].
    apply negb_true_iff, bool_decide_eq_false. rewrite sub_lt_interval.
    apply (rep_sound _ _ _ Hr) in E. specialize (Hl _ E). lia.
Qed.

Lemma represents_later log T t d : represents log T d → T ≤ t → represents log t d.
Proof.
  intros [H1 H2 H3 H4 H5 H6] Ht. constructor; auto.
  - intros s l Hl HT. apply H2; [done|lia].
  - intros s l Hl. specialize (H3 _ _ Hl). lia.
  - lia.
Qed.

Lemma represents_claim log T d s t : represents log T d → T ≤ t → 0 < t →
  let '(granted, d') := claimRetentionSweep cfg s t d in
  granted = due_by_log I log s t ∧ represents (if granted then (s, t) :: log else log) t d'.
Proof.
  intros Hr Ht Hpos. unfold claimRetentionSweep. rewrite (represents_due log T d s t Hr Ht).
  destruct (due_by_log I log s t) eqn:Hdue; simpl; [|split; [done|by eapply represents_later]].
  split; [done|]. rewrite due_by_log_spec in Hdue.
  set (prune := (time_is_zero (retentionPrunedAt d) || _)%bool).
  set (swept := if prune then _ else _).
  assert (Hsub : ∀ s' l, swept !! s' = Some l → retentionSweptAt d !! s' = Some l).
  { intros s' l. subst swept. destruct prune; [|done]. by intros [? _]%map_lookup_filter_Some. }
  assert (Hkeep : ∀ s' l, retentionSweptAt d !! s' = Some l → t - l < I → swept !! s' = Some l).
  { intros s' l Hl Hlt. subst swept. destruct prune; [|done]. apply map_lookup_filter_Some.
    split; [done|]. simpl. by rewrite sub_lt_interval. }
  constructor; cbn [retentionSweptAt retentionPrunedAt set_retention].
  - intros s' l [[-> ->]|[_ Hl]]%lookup_insert_Some; [left|].
    right. by eapply (rep_sound _ _ _ Hr), Hsub.
  - intros s' l Hl HT. apply elem_of_cons in Hl as [[= -> ->]|Hl]; [apply lookup_insert_eq|].
    destruct (decide (s' = s)) as [->|Hne]; [specialize (Hdue _ Hl); lia|].
    rewrite lookup_insert_ne by done. apply Hkeep; [|done]. apply (rep_recent _ _ _ Hr); [done|lia].
  - intros s' l Hl. apply elem_of_cons in Hl as [[= -> ->]|Hl]; [lia|].
    pose proof (rep_past _ _ _ Hr _ _ Hl). lia.
  - pose proof (rep_pruned_past _ _ _ Hr). destruct prune; lia.
  - destruct prune eqn:Hp; unfold time_is_zero, zero_time; intros Hz; [bool_to_prop; lia|].
    subst prune. apply orb_false_iff in Hp as [Hp _]. unfold time_is_zero, zero_time in Hp. congruence.
  - intros s' l Hl. destruct prune eqn:Hp.
    + apply lookup_insert_Some in Hl as [[-> ->]|[_ Hl]]; [lia|].
      pose proof (rep_past _ _ _ Hr _ _ (rep_sound _ _ _ Hr _ _ (Hsub _ _ Hl))).
      subst swept. apply map_lookup_filter_Some in Hl as [_ Hl]. simpl in Hl. rewrite sub_lt_interval in Hl. lia.
    + subst prune. apply orb_false_iff in Hp as [Hz Hp]. bool_to_prop. rewrite time_sub_ge in Hp by lia.
      apply lookup_insert_Some in Hl as [[-> ->]|[_ Hl]]; [|by apply (rep_age _ _ _ Hr s'), Hsub].
      pose proof (rep_pruned_past _ _ _ Hr). lia.
Qed.

Lemma represents_run log T d claims : represents log T d →
  StronglySorted (λ a b, a.2 ≤ b.2) claims → Forall (λ c, T ≤ c.2 ∧ 0 < c.2) claims →
  let '(gs, d') := sweep_claims cfg claims d in
  gs = sweeps_by_log I log claims ∧ ∃ log' T', represents log' T' d'.
Proof.
  revert log T d. induction claims as [|[s t] claims IH]; intros log T d Hr Hs Hf; simpl; [eauto|].
  inversion Hs as [|? ? Hs' Hle]; subst. inversion Hf as [|? ? [HT Hpos] Hf']; subst. simpl in *.
  pose proof (represents_claim log T d s t Hr HT Hpos) as Hc.
  destruct (claimRetentionSweep cfg s t d) as [granted d1]. destruct Hc as [-> Hr1].
  specialize (IH _ _ _ Hr1 Hs'). destruct (sweep_claims cfg claims d1) as [gs d2].
  destruct IH as [-> Hrep]; [|done].
  apply Forall_forall. intros c Hc. split; [by eapply Forall_forall in Hle|].
  by eapply Forall_forall in Hf' as [_ ?].
Qed.

(** Retention sweeps are throttled exactly as if every sweep ever granted
    were remembered: with a clock that does not go back, a sweep of a scope is
    granted if and only if the scope was not swept within the last
    [RetentionSweepInterval], although entries are pruned; and the map holds
    only scopes swept within two intervals of one another. *)
Theorem retention_sweeps_spaced (claims : list (TenantDispatchScope * gotime)) :
  StronglySorted (λ a b, a.2 ≤ b.2) claims → Forall (λ c, 0 < c.2) claims →
  let '(gs, d) := sweep_claims cfg claims new_dispatcher in
  gs = sweeps_by_log I [] claims ∧
  ∀ s l s' l', retentionSweptAt d !! s = Some l → retentionSweptAt d !! s' = Some l' → l' - l < 2 * I.
Proof.
  intros Hs Hf. assert (H0 : represents [] zero_time new_dispatcher).
  { constructor; cbn; try done; try (intros ? ? []%elem_of_nil). }
  pose proof (represents_run [] zero_time new_dispatcher claims H0 Hs) as Hrun.
  destruct (sweep_claims cfg claims new_dispatcher) as [gs d].
  destruct Hrun as [-> (log & T & Hr)].
  { eapply Forall_impl; [exact Hf|]. intros c Hc. cbv beta in *. unfold zero_time. lia. }
  split; [done|]. intros s l s' l' Hl Hl'.
  pose proof (rep_age _ _ _ Hr _ _ Hl). pose proof (rep_age _ _ _ Hr _ _ Hl'). lia.
Qed.
End retention.

(** ** Concrete instances *)

Definition sched_config : DispatcherConfig :=
  normalize (set_MaxTrackedListPendingFailureTenants 2 (set_RetentionPublished Hour DefaultDispatcherConfig)).

Lemma sched_config_ok : config_ok sched_config.
Proof. apply normalize_ok. vm_compute. reflexivity. Qed.

Lemma dispatcher_memory_bounded_witness :
  let steps := [ListFailed (txt "a"); ListFailed (txt "b"); ListFailed (txt "c"); ListSucceeded (txt "a");
                MetricRecorded (txt "a"); ListFailed (txt "b")] in
  let d := foldl (bookkeep sched_config) new_dispatcher steps in
  Z.of_nat (size (listPendingFailureCounts d)) ≤ 2.
Proof.
  intros steps d. apply (dispatcher_memory_bounded sched_config steps). apply sched_config_ok.
Defined.

Lemma rotation_fair_witness :
  let scopes := [(txt "a", []); (txt "b", []); (txt "c", txt "pool-2")] in
  ∃ o, o ∈ orders 3 scopes (set_turn 7 new_dispatcher) ∧ head o = Some (txt "b", []).
Proof.
  intros scopes. apply (rotation_fair scopes (set_turn 7 new_dispatcher)); [vm_compute; discriminate|].
  right. left.
Defined.

Lemma retention_sweeps_spaced_witness :
  (sweep_claims sched_config
    [((txt "a", []), Hour); ((txt "b", []), Hour); ((txt "a", []), Hour + Minute); ((txt "a", []), 2 * Hour)]
    new_dispatcher).1 = [true; true; false; true].
Proof.
  pose proof (retention_sweeps_spaced sched_config ltac:(vm_compute; split; [reflexivity|discriminate])
    [((txt "a", []), Hour); ((txt "b", []), Hour); ((txt "a", []), Hour + Minute); ((txt "a", []), 2 * Hour)]) as H.
  destruct (sweep_claims _ _ _) as [gs d].
  destruct H as [-> _]; [|repeat constructor|vm_compute; reflexivity].
  repeat constructor; vm_compute; discriminate.
Defined.
