(* ===== verification/OutboxDelivery.v ===== *)
(** One dispatch cycle against any repository: the size of the batch, the order
    of handler calls, state changes and callbacks, and the counters. *)

From stdpp Require Import base numbers list gmap strings.
From S2P Require Import Prelude GoText Backoff OutboxLastError OutboxEvent OutboxConfig OutboxDispatcher.

Local Open Scope Z_scope.
Local Open Scope go_scope.

(** What a dispatcher relies on: a listing never returns more than its limit. *)
Class BoundedRepository (S R : Type) `{repo : OutboxRepository S R} : Prop := {
  bounded_ListPending ctx n s es s' :
    op_ListPending ctx n s = (Ok es, s') → 0 < n → Z.of_nat (length es) ≤ n;
  bounded_ListPendingByType ctx ty n s es s' :
    op_ListPendingByType ctx ty n s = (Ok es, s') → 0 < n → Z.of_nat (length es) ≤ n;
  bounded_ListPendingByTypes f ctx tys n s es s' :
    op_ListPendingByTypes = Some f → f ctx tys n s = (Ok es, s') → 0 < n → Z.of_nat (length es) ≤ n;
  bounded_ResetForRetry ctx n t m s es s' :
    op_ResetForRetry ctx n t m s = (Ok es, s') → 0 < n → Z.of_nat (length es) ≤ n;
  bounded_ResetStuckProcessing ctx n t m s es s' :
    op_ResetStuckProcessing ctx n t m s = (Ok es, s') → 0 < n → Z.of_nat (length es) ≤ n;
  bounded_ReclaimStuckProcessing f ctx n t m s retry invalid s' :
    op_ReclaimStuckProcessing = Some f → f ctx n t m s = (Ok (retry, invalid), s') → 0 < n →
    Z.of_nat (length retry) ≤ n;
}.

Arguments World S E : clear implicits.
Arguments dm S E A : clear implicits.

(** ** Weakest preconditions of dispatcher code *)

Section wp.
Context {S E : Type}.

Definition wp {A} (m : dm S E A) (Q : A → World S E → Prop) : World S E → Prop :=
  λ w, let '(a, w') := m w in Q a w'.

(** The result is the program's own. *)
Lemma wp_result {A} (m : dm S E A) (Q : A → World S E → Prop) w : wp m Q w → wp m (λ a w', Q a w' ∧ m w = (a, w')) w.
Proof. unfold wp. by destruct (m w). Qed.

Lemma wp_ret {A} (a : A) (Q : A → World S E → Prop) w : Q a w → wp (mret (MRet := dm_ret) a) Q w.
Proof. done. Qed.

Lemma wp_bind {A B} (m : dm S E A) (f : A → dm S E B) (Q : B → World S E → Prop) w :
  wp m (λ a w', wp (f a) Q w') w → wp (mbind (MBind := dm_bind) f m) Q w.
Proof. unfold wp, mbind, dm_bind. by destruct (m w). Qed.

Lemma wp_ask {A} (f : nat → A) (Q : A → World S E → Prop) w :
  (∀ a w', w_repo w' = w_repo w → w_disp w' = w_disp w → w_trace w' = w_trace w → Q a w') → wp (ask f) Q w.
Proof. unfold wp, ask. auto. Qed.

Lemma wp_repo {A} (f : S → A * S) (Q : A → World S E → Prop) w :
  (∀ a s w', f (w_repo w) = (a, s) → w_repo w' = s → w_disp w' = w_disp w → w_trace w' = w_trace w → Q a w') →
  wp (on_repo f) Q w.
Proof. unfold wp, on_repo. destruct (f (w_repo w)) eqn:?. eauto. Qed.

Lemma wp_disp {A} (f : Dispatcher → A * Dispatcher) (Q : A → World S E → Prop) w :
  (∀ a w', w_repo w' = w_repo w → w_trace w' = w_trace w → Q a w') → wp (on_disp f) Q w.
Proof. unfold wp, on_disp. destruct (f (w_disp w)). auto. Qed.

Lemma wp_emit (e : effect E) (Q : unit → World S E → Prop) w :
  (∀ w', w_repo w' = w_repo w → w_trace w' = w_trace w ++ [e] → Q tt w') → wp (emit e) Q w.
Proof. unfold wp, emit. auto. Qed.

Lemma wp_mono {A} (m : dm S E A) (P Q : A → World S E → Prop) w :
  wp m P w → (∀ a w', P a w' → Q a w') → wp m Q w.
Proof. unfold wp. destruct (m w). auto. Qed.
End wp.

Ltac wp_step :=
  lazymatch goal with
  | |- wp (mbind _ _) _ _ => apply wp_bind
  | |- wp (mret _) _ _ => apply wp_ret
  | |- wp (now _) _ _ => apply wp_ask; intros ? ? ? ? ?
  | |- wp (ctx_done _) _ _ => apply wp_ask; intros ? ? ? ? ?
  | |- wp (ask _) _ _ => apply wp_ask; intros ? ? ? ? ?
  | |- wp (on_repo _) _ _ => apply wp_repo; intros ? ? ? ? ? ? ?
  | |- wp (on_disp _) _ _ => apply wp_disp; intros ? ? ? ?
  | |- wp (update_disp _) _ _ => apply wp_disp; intros ? ? ? ?
  | |- wp (emit _) _ _ => apply wp_emit; intros ? ? ?
  | |- wp (if ?b then _ else _) _ _ => destruct b eqn:?
  end; cbv beta.

(** Follow the equations of the traces back to the initial one. *)
Ltac trace_eq :=
  repeat match goal with Hx : w_trace ?a = _ |- context [w_trace ?a] => rewrite Hx; clear Hx end;
  rewrite <- ?app_assoc.

(** ** Deduplication *)

Lemma dedup_loop_sublist seen es : dedup_loop seen es `sublist_of` es.
Proof.
  revert seen. induction es as [|e es IH]; intros seen; simpl; [done|].
  case_bool_decide; by constructor.
Qed.

Lemma dedup_loop_NoDup seen es :
  NoDup (map ID (dedup_loop seen es)) ∧ ∀ e, e ∈ dedup_loop seen es → ID e ∉ seen.
Proof.
  revert seen. induction es as [|e es IH]; intros seen; simpl; [split; [constructor|intros ? []%elem_of_nil]|].
  case_bool_decide as Hin; [apply IH|]. destruct (IH (ID e :: seen)) as [Hd Hn]. split.
  - simpl. apply NoDup_cons; split; [|done]. rewrite list_elem_of_fmap. intros [e' [Heq He']].
    apply (Hn e' He'). rewrite <- Heq. left.
  - intros e' [->|He']%elem_of_cons; [done|]. intros H. apply (Hn e' He'). by right.
Qed.

Lemma deduplicate_NoDup es : NoDup (map ID (deduplicateEvents es)).
Proof. apply dedup_loop_NoDup. Qed.

Lemma deduplicate_length es : (length (deduplicateEvents es) ≤ length es)%nat.
Proof. apply sublist_length, dedup_loop_sublist. Qed.

Lemma deduplicate_id es : NoDup (map ID es) → deduplicateEvents es = es.
Proof.
  unfold deduplicateEvents. assert (∀ seen, (∀ e, e ∈ es → ID e ∉ seen) → NoDup (map ID es) → dedup_loop seen es = es) as H.
  { induction es as [|e es IH]; intros seen Hs Hd; simpl; [done|]. apply NoDup_cons in Hd as [Hn Hd].
    rewrite bool_decide_false by (apply Hs; left). f_equal. apply IH; [|done].
    intros e' He' [Heq|Hin]%elem_of_cons; [|by apply (Hs e'); [right|]].
    apply Hn, list_elem_of_fmap. eauto. }
  intros Hd. apply H; [|done]. intros e _ []%elem_of_nil.
Qed.

(** ** Collecting *)

Section delivery.
Context {S R H E : Type} `{repo : OutboxRepository S R} `{!BoundedRepository S R}.
Context (env : Env H E) (cfg : DispatcherConfig) (handlers : gmap text H)
  (retryClassifier : option (publish_error E → bool))
  (error_text : publish_error E → text) (redact : text → text).

(** The callback fired for an event a reclaim found out of budget. *)
Definition stuck_callback (eff : effect E) : Prop :=
  ∃ e, eff = CalledOnInvalid e (PubOutbox ErrStuckAttemptsExhausted).

(** Only stuck callbacks were fired since [w]. *)
Definition only_stuck (w w' : World S E) : Prop :=
  ∃ cbs, w_trace w' = w_trace w ++ cbs ∧ Forall stuck_callback cbs.

Lemma only_stuck_same w w' : w_trace w' = w_trace w → only_stuck w w'.
Proof. intros Ht. exists []. by rewrite app_nil_r. Qed.

Lemma only_stuck_trans w w' w'' : only_stuck w w' → only_stuck w' w'' → only_stuck w w''.
Proof.
  intros (l & H1 & Hl) (l' & H2 & Hl'). exists (l ++ l'). rewrite H2, H1, app_assoc. split; [done|].
  by apply Forall_app.
Qed.

Lemma or_none_bound (r : result R (list OutboxEvent)) n : 0 ≤ n → (∀ es, r = Ok es → Z.of_nat (length es) ≤ n) →
  Z.of_nat (length (or_none r)) ≤ n.
Proof. intros Hn Hr. destruct r; simpl; [by apply Hr|lia]. Qed.

Lemma wp_priority_loop ctx budget types acc (w : World S E) :
  Z.of_nat (length acc) ≤ budget →
  wp (priority_loop ctx budget types acc)
     (λ es w', Z.of_nat (length es) ≤ budget ∧ w_trace w' = w_trace w) w.
Proof.
  revert acc w. induction types as [|ty types IH]; intros acc w Hacc; simpl; [by apply wp_ret|].
  wp_step; [by apply wp_ret|]. bool_to_prop. repeat wp_step.
  eapply wp_mono; [apply IH|].
  - rewrite length_app. pose proof (or_none_bound a (budget - Z.of_nat (length acc))). destruct a; simpl in *; [|lia].
    assert (Z.of_nat (length a) ≤ budget - Z.of_nat (length acc)) by (eapply bounded_ListPendingByType; eauto; lia). lia.
  - simpl. intros es w'' [? Ht]. split; [done|congruence].
Qed.

Lemma wp_collectPriority ctx budget (w : World S E) : 0 ≤ budget →
  wp (collectPriorityEvents cfg ctx budget) (λ es w', Z.of_nat (length es) ≤ budget ∧ w_trace w' = w_trace w) w.
Proof.
  intros Hb. unfold collectPriorityEvents. wp_step; [apply wp_ret; simpl; split; [lia|done]|].
  apply orb_false_iff in Heqb as [Hp _]. bool_to_prop. destruct op_ListPendingByTypes as [f|] eqn:Hf.
  - repeat wp_step. split; [|done]. apply or_none_bound; [done|]. intros es ->.
    eapply bounded_ListPendingByTypes; eauto. lia.
  - apply wp_priority_loop. simpl. lia.
Qed.

Lemma wp_fire_invalid es (w : World S E) :
  wp (fire_invalid cfg es) (λ _ w', only_stuck w w' ∧ w_repo w' = w_repo w) w.
Proof.
  revert w. induction es as [|e es IH]; intros w; simpl; [apply wp_ret; split; [by apply only_stuck_same|done]|].
  wp_step. unfold invokeOnInvalid. wp_step; repeat wp_step.
  - apply IH.
  - eapply wp_mono; [apply IH|]. simpl. intros _ w'' [Hs Hr]. split; [|congruence].
    eapply only_stuck_trans; [|exact Hs].
    eexists. split; [eassumption|]. apply Forall_singleton. by eexists.
Qed.

Lemma wp_resetStuck ctx limit before (w : World S E) : 0 < limit →
  wp (resetStuckProcessing cfg ctx limit before)
     (λ r w', Z.of_nat (length (or_none r)) ≤ limit ∧ only_stuck w w') w.
Proof.
  intros Hl. unfold resetStuckProcessing. destruct op_ReclaimStuckProcessing as [f|] eqn:Hf.
  - repeat wp_step. destruct a as [[retry invalid]|]; [|apply wp_ret; simpl; split; [lia|by apply only_stuck_same]].
    wp_step. eapply wp_mono; [apply wp_fire_invalid|]. simpl. intros _ w'' [Hs _]. apply wp_ret. simpl. split.
    + eapply bounded_ReclaimStuckProcessing; eauto.
    + eapply only_stuck_trans; [|exact Hs]. by apply only_stuck_same.
  - wp_step. split; [|by apply only_stuck_same]. apply or_none_bound; [lia|]. intros es ->.
    eapply bounded_ResetStuckProcessing; eauto.
Qed.

Definition batch_ok (w : World S E) (es : list OutboxEvent) (w' : World S E) : Prop :=
  NoDup (map ID es) ∧ Z.of_nat (length es) ≤ BatchSize cfg ∧ only_stuck w w'.

Lemma batch_ok_dedup w es w' : Z.of_nat (length es) ≤ BatchSize cfg → only_stuck w w' →
  batch_ok w (deduplicateEvents es) w'.
Proof.
  intros Hl Hs. split_and!; [apply deduplicate_NoDup| |done].
  pose proof (deduplicate_length es). lia.
Qed.

Lemma only_stuck_step w w1 w2 : only_stuck w w1 → w_trace w2 = w_trace w1 → only_stuck w w2.
Proof. intros Hs Ht. eapply only_stuck_trans; [exact Hs|]. by apply only_stuck_same. Qed.

Lemma wp_collectEvents ctx w : config_ok cfg → wp (collectEvents env cfg ctx) (λ es w', batch_ok w es w') w.
Proof.
  intros Hcfg. pose proof (ok_batch _ Hcfg). pose proof (ok_priority _ Hcfg).
  unfold collectEvents. do 5 wp_step. eapply wp_mono; [apply wp_collectPriority; lia|].
  intros prio w2 [Hp Ht2]. assert (Hs2 : only_stuck w w2) by (apply only_stuck_same; congruence).
  wp_step; [apply wp_ret, batch_ok_dedup; [lia|done]|].
  wp_step; [apply wp_ret, batch_ok_dedup; [lia|done]|]. bool_to_prop.
  wp_step. eapply wp_mono; [apply wp_resetStuck; lia|]. intros stuck w3 [Hst Hs3'].
  assert (Hs3 : only_stuck w w3) by (by eapply only_stuck_trans).
  wp_step; [apply wp_ret, batch_ok_dedup; [rewrite length_app; lia|done]|]. bool_to_prop.
  do 2 wp_step. assert (Hf : Z.of_nat (length (or_none a1)) ≤
    Z.min (BatchSize cfg - (Z.of_nat (length prio) + Z.of_nat (length (or_none stuck)))) (MaxFailedPerBatch cfg)).
  { apply or_none_bound; [lia|]. intros es ->. eapply bounded_ResetForRetry; eauto. lia. }
  wp_step; [apply wp_ret, batch_ok_dedup; [rewrite !length_app; lia|by eapply only_stuck_step]|]. bool_to_prop.
  do 2 wp_step. destruct a2 as [pending|].
  - do 2 wp_step. apply wp_ret, batch_ok_dedup; [|do 3 (eapply only_stuck_step; [|eassumption]); done].
    assert (Z.of_nat (length pending) ≤ BatchSize cfg - (Z.of_nat (length prio) + Z.of_nat (length (or_none stuck))
      + Z.of_nat (length (or_none a1)))) by (eapply bounded_ListPending; eauto; lia).
    rewrite !length_app. lia.
  - do 2 wp_step. apply wp_ret, batch_ok_dedup; [rewrite !length_app; lia|].
    do 3 (eapply only_stuck_step; [|eassumption]). done.
Qed.

(** *** Publishing one event *)

Definition failed_try (e : OutboxEvent) (eff : effect E) : Prop :=
  (∃ err, eff = Handled e (Some err)) ∨ (∃ d, eff = Waited d).

Definition is_handled (eff : effect E) : bool := match eff with Handled _ _ => true | _ => false end.
Definition handler_calls (l : list (effect E)) : Z := Z.of_nat (length (List.filter is_handled l)).

Lemma handler_calls_app l l' : handler_calls (l ++ l') = handler_calls l + handler_calls l'.
Proof. unfold handler_calls. rewrite List.filter_app, length_app. lia. Qed.

(** The ways the processing of an event can end, and the effects it leaves. *)
Inductive outcome := Delivered (persisted : bool) | Undelivered.

Inductive delivery (e : OutboxEvent) : outcome → list (effect E) → Prop :=
| delivered tries ok :
    Forall (failed_try e) tries → handler_calls tries < PublishMaxAttempts cfg →
    delivery e (Delivered ok) (tries ++ [Handled e None; MarkedPublished (ID e) ok])
| invalidated tries err ok :
    Forall (failed_try e) tries → handler_calls tries ≤ PublishMaxAttempts cfg →
    isNonRetryableError retryClassifier err = true →
    delivery e Undelivered (tries ++ [MarkedInvalid (ID e) ok]
      ++ (if (ok && OnInvalid cfg)%bool then [CalledOnInvalid e err] else []))
| failed tries err ok :
    Forall (failed_try e) tries → handler_calls tries ≤ PublishMaxAttempts cfg →
    isNonRetryableError retryClassifier err = false →
    delivery e Undelivered (tries ++ [MarkedFailed (ID e) ok]
      ++ (if negb ok then []
          else if bool_decide (MaxDispatchAttempts cfg ≤ Attempts e + 1)
          then (if OnInvalid cfg then [CalledOnInvalid e err] else [])
          else (if OnFailed cfg then [CalledOnFailed e err] else []))).

(** What a publish loop with [n] tries left can have done. *)
Definition tried (e : OutboxEvent) (n : Z) (w w' : World S E) (err : option (publish_error E)) : Prop :=
  w_repo w' = w_repo w ∧ ∃ tries, Forall (failed_try e) tries ∧
    match err with
    | None => w_trace w' = w_trace w ++ tries ++ [Handled e None] ∧ handler_calls tries < n
    | Some _ => w_trace w' = w_trace w ++ tries ∧ handler_calls tries ≤ n
    end.

Lemma wp_publishEvent e w :
  wp (publishEvent env handlers e) (λ err w', tried e 1 w w' err) w.
Proof.
  unfold publishEvent. assert (Hnone : ∀ err, tried e 1 w w (Some err)).
  { intros err. split; [done|]. exists []. rewrite app_nil_r. split_and!; [constructor|done|done]. }
  wp_step; [by apply wp_ret|]. destruct (Handle handlers e) as [h|]; [|by apply wp_ret].
  do 4 wp_step. wp_step. split; [congruence|]. destruct a as [err|]; simpl in *.
  - exists [Handled e (Some (PubHandler err))]. split; [apply Forall_singleton; left; eauto|]. split; [congruence|done].
  - exists []. split; [done|]. split; [simpl; congruence|done].
Qed.

Lemma tried_later e n w w1 w2 err tries : w_repo w1 = w_repo w → w_trace w1 = w_trace w ++ tries →
  Forall (failed_try e) tries → tried e n w1 w2 err → tried e (n + handler_calls tries) w w2 err.
Proof.
  intros Hr Ht Hf (Hr' & tries' & Hf' & Hm). split; [congruence|]. exists (tries ++ tries').
  split; [by apply Forall_app|]. rewrite handler_calls_app.
  destruct err; destruct Hm as [Ht' Hn]; (split; [|lia]); rewrite Ht', Ht, <- !app_assoc; done.
Qed.

Lemma wp_retry_loop e maxAttempts bo fuel attempt last w :
  attempt + Z.of_nat fuel = maxAttempts → (0 < fuel)%nat →
  wp (retry_loop env handlers retryClassifier e maxAttempts bo fuel attempt last)
     (λ err w', tried e (Z.of_nat fuel) w w' err) w.
Proof.
  revert attempt last w. induction fuel as [|fuel IH]; intros attempt last w Hsum Hpos; [lia|].
  cbn [retry_loop]. wp_step. eapply wp_mono; [apply wp_publishEvent|].
  intros err w1 (Hr & tries & Hf & Hm). destruct err as [err|]; destruct Hm as [Ht Hn].
  2:{ apply wp_ret. split; [done|]. exists tries. split_and!; [done|done|lia]. }
  wp_step; [apply wp_ret; split; [done|]; exists tries; split_and!; [done|done|lia]|].
  apply orb_false_iff in Heqb as [_ Hlast]. bool_to_prop.
  do 6 wp_step.
  assert (Hstep : w_repo w'1 = w_repo w ∧ w_trace w'1 = w_trace w ++ tries ++ [Waited (ExponentialWithJitter a bo attempt)] ∧
    Forall (failed_try e) (tries ++ [Waited (ExponentialWithJitter a bo attempt)]) ∧
    handler_calls (tries ++ [Waited (ExponentialWithJitter a bo attempt)]) ≤ 1).
  { split_and!; [congruence| | |rewrite handler_calls_app; unfold handler_calls at 2; simpl; lia].
    - rewrite app_assoc. congruence.
    - apply Forall_app; split; [done|]. apply Forall_singleton. right. eauto. }
  destruct Hstep as (Hr1 & Ht1 & Hf1 & Hn1). destruct (WaitContext _ _ _).
  - wp_step. split; [done|]. eexists. split_and!; [exact Hf1|exact Ht1|lia].
  - eapply wp_mono; [apply IH; lia|]. simpl. intros err' w2 Htr.
    pose proof (tried_later e _ w _ w2 err' _ Hr1 Ht1 Hf1 Htr) as (Hr2 & tries2 & Hf2 & Hm2).
    split; [done|]. exists tries2. split; [done|]. destruct err'; destruct Hm2; (split; [done|lia]).
Qed.

Lemma wp_publishEventWithRetry e w : config_ok cfg →
  wp (publishEventWithRetry env cfg handlers retryClassifier e)
     (λ err w', tried e (PublishMaxAttempts cfg) w w' err) w.
Proof.
  intros Hcfg. pose proof (ok_publish_attempts _ Hcfg). unfold publishEventWithRetry.
  rewrite (bool_decide_false (PublishMaxAttempts cfg ≤ 0)) by lia.
  eapply wp_mono; [apply wp_retry_loop; lia|]. simpl. intros err w'. by rewrite Z2Nat.id by lia.
Qed.

Lemma wp_invokeOnInvalid e err (w : World S E) :
  wp (invokeOnInvalid cfg e err)
     (λ _ w', w_repo w' = w_repo w ∧
        w_trace w' = w_trace w ++ (if OnInvalid cfg then [CalledOnInvalid e err] else [])) w.
Proof.
  unfold invokeOnInvalid. destruct (OnInvalid cfg); simpl; wp_step; [done|by rewrite app_nil_r].
Qed.

Lemma wp_invokeOnFailed e err (w : World S E) :
  wp (invokeOnFailed cfg e err)
     (λ _ w', w_repo w' = w_repo w ∧
        w_trace w' = w_trace w ++ (if OnFailed cfg then [CalledOnFailed e err] else [])) w.
Proof.
  unfold invokeOnFailed. destruct (OnFailed cfg); simpl; wp_step; [done|by rewrite app_nil_r].
Qed.

Lemma wp_handlePublishError ctx e err w tries (w0 : World S E) :
  Forall (failed_try e) tries → handler_calls tries ≤ PublishMaxAttempts cfg → w_trace w = w_trace w0 ++ tries →
  wp (handlePublishError cfg retryClassifier error_text redact ctx e err)
     (λ _ w', ∃ seg, delivery e Undelivered seg ∧ w_trace w' = w_trace w0 ++ seg) w.
Proof.
  intros Hf Hn Ht. unfold handlePublishError.
  destruct (isNonRetryableError retryClassifier err) eqn:Hnr; do 4 wp_step; destruct (is_ok a) eqn:Hok; simpl.
  - eapply wp_mono; [apply wp_invokeOnInvalid|]. simpl. intros _ w'' [_ Hw]. eexists.
    split; [by apply (invalidated e tries err true)|]. trace_eq. simpl.
    by destruct (OnInvalid cfg).
  - wp_step. eexists. split; [by apply (invalidated e tries err false)|].
    trace_eq. done.
  - wp_step; (eapply wp_mono; [first [apply wp_invokeOnInvalid|apply wp_invokeOnFailed]|]); simpl; intros _ w'' [_ Hw]; eexists.
    + split; [by apply (failed e tries err true)|]. trace_eq. by rewrite Heqb.
    + split; [by apply (failed e tries err true)|]. trace_eq. by rewrite Heqb.
  - wp_step. eexists. split; [by apply (failed e tries err false)|].
    trace_eq. done.
Qed.

Lemma wp_recordMetric key (w : World S E) : wp (recordMetric cfg key) (λ _ w', w_trace w' = w_trace w) w.
Proof. unfold recordMetric. by wp_step. Qed.

Lemma wp_addMetric key n (w : World S E) : wp (addMetric cfg key n) (λ _ w', w_trace w' = w_trace w) w.
Proof. unfold addMetric. wp_step; [by wp_step|apply wp_recordMetric]. Qed.

(** *** The loop over the batch *)

Definition is_delivered (o : outcome) : bool := match o with Delivered _ => true | Undelivered => false end.
Definition is_lost (o : outcome) : bool := match o with Delivered false => true | _ => false end.
Definition count_if (p : outcome → bool) (os : list outcome) : Z := Z.of_nat (length (List.filter p os)).

Definition add_outcome (r : DispatchResult) (o : outcome) : DispatchResult :=
  {| Processed := Processed r + 1;
     Published_ := Published_ r + (if is_delivered o then 1 else 0);
     Failed_ := Failed_ r + (if is_delivered o then 0 else 1);
     StateUpdateFailed := StateUpdateFailed r + (if is_lost o then 1 else 0) |}.

Lemma wp_dispatch_loop ctx key es r w : config_ok cfg →
  wp (dispatch_loop env cfg handlers retryClassifier error_text redact ctx key es r)
     (λ r' w', ∃ n os segs, (n ≤ length es)%nat ∧ Forall3 delivery (firstn n es) os segs ∧
        w_trace w' = w_trace w ++ concat segs ∧ r' = foldl add_outcome r os) w.
Proof.
  intros Hcfg. revert r w. induction es as [|e es IH]; intros r w.
  { apply wp_ret. exists 0%nat, [], []. split_and!; [done|constructor|by rewrite app_nil_r|done]. }
  cbn [dispatch_loop]. do 2 wp_step. destruct a.
  { wp_step. exists 0%nat, [], []. split_and!; [lia|constructor|simpl; by rewrite app_nil_r|done]. }
  wp_step. eapply wp_mono; [by apply wp_publishEventWithRetry|].
  intros err w1 (Hr1 & tries & Hf & Hm).
  assert (Hcont : ∀ o seg r1 w2, delivery e o seg → w_trace w2 = w_trace w ++ seg → r1 = add_outcome r o →
    wp (dispatch_loop env cfg handlers retryClassifier error_text redact ctx key es r1)
      (λ r' w', ∃ n os segs, (n ≤ length (e :: es))%nat ∧ Forall3 delivery (firstn n (e :: es)) os segs ∧
        w_trace w' = w_trace w ++ concat segs ∧ r' = foldl add_outcome r os) w2).
  { intros o seg r1 w2 Hd Ht2 ->. eapply wp_mono; [apply IH|]. simpl. intros r' w3 (n & os & segs & Hn & Hall & Ht3 & ->).
    exists (Datatypes.S n), (o :: os), (seg :: segs). split_and!; [lia|by constructor| |done].
    simpl. by rewrite Ht3, Ht2, <- app_assoc. }
  destruct err as [err|]; destruct Hm as [Ht Hn].
  all: replace (w_trace w') with (w_trace w) in Ht by congruence.
  - wp_step. eapply wp_mono; [eapply (wp_handlePublishError _ _ _ _ _ w Hf Hn Ht)|].
    simpl. intros _ w2 (seg & Hd & Ht2). apply (Hcont Undelivered seg); [done|done|].
    unfold add_outcome. simpl. f_equal; lia.
  - assert (Hd : ∀ ok, delivery e (Delivered ok) (tries ++ [Handled e None; MarkedPublished (ID e) ok]))
      by (intros; by apply delivered).
    do 8 wp_step.
    + wp_step. eapply Hcont; [apply (Hd true)| |unfold add_outcome; simpl; f_equal; lia].
      trace_eq. done.
    + eapply wp_mono; [apply wp_addMetric|]. simpl. intros _ w3 Ht3.
      eapply Hcont; [apply (Hd false)| |unfold add_outcome; simpl; f_equal; lia].
      trace_eq. done.
Qed.

Lemma foldl_add_outcome os r :
  let r' := foldl add_outcome r os in
  Processed r' = Processed r + Z.of_nat (length os) ∧
  Published_ r' = Published_ r + count_if is_delivered os ∧
  Failed_ r' = Failed_ r + (Z.of_nat (length os) - count_if is_delivered os) ∧
  StateUpdateFailed r' = StateUpdateFailed r + count_if is_lost os.
Proof.
  unfold count_if. revert r. induction os as [|o os IH]; intros r; simpl; [lia|].
  destruct (IH (add_outcome r o)) as (-> & -> & -> & ->). unfold add_outcome; simpl.
  destruct o as [[]|]; simpl; lia.
Qed.

(** One dispatch cycle against any repository that respects its limits:
    the batch has at most [BatchSize] events and no event twice; the events are
    processed one after the other in batch order (all of them, or a prefix when
    the context is cancelled), each tried at most [PublishMaxAttempts] times;
    an event is marked PUBLISHED only right after its handler succeeded, and
    otherwise marked INVALID if the error is non-retryable and FAILED if not,
    with the OnInvalid or OnFailed callback fired after a state change that was
    persisted and never otherwise; and the counters count exactly these
    outcomes. *)
Theorem dispatch_cycle_order (ctx : Ctx) (w : World S E) : config_ok cfg →
  let '(r, w') := DispatchOnceResult env cfg handlers retryClassifier error_text redact ctx w in
  ∃ es n os cbs segs,
    NoDup (map ID es) ∧ Z.of_nat (length es) ≤ BatchSize cfg ∧ (n ≤ length es)%nat ∧
    Forall stuck_callback cbs ∧ Forall3 delivery (firstn n es) os segs ∧
    w_trace w' = w_trace w ++ cbs ++ concat segs ∧
    Processed r = Z.of_nat n ∧ Published_ r = count_if is_delivered os ∧
    Failed_ r = Processed r - Published_ r ∧ StateUpdateFailed r = count_if is_lost os.
Proof.
  intros Hcfg. change (wp (DispatchOnceResult env cfg handlers retryClassifier error_text redact ctx)
    (λ r w', ∃ es n os cbs segs,
      NoDup (map ID es) ∧ Z.of_nat (length es) ≤ BatchSize cfg ∧ (n ≤ length es)%nat ∧
      Forall stuck_callback cbs ∧ Forall3 delivery (firstn n es) os segs ∧
      w_trace w' = w_trace w ++ cbs ++ concat segs ∧
      Processed r = Z.of_nat n ∧ Published_ r = count_if is_delivered os ∧
      Failed_ r = Processed r - Published_ r ∧ StateUpdateFailed r = count_if is_lost os) w).
  unfold DispatchOnceResult. wp_step. eapply wp_mono; [by apply wp_collectEvents|].
  intros es w1 (Hd & Hl & cbs & Ht1 & Hcbs). wp_step. eapply wp_mono; [apply wp_recordMetric|]; cbv beta; intros _ w2 Ht2.
  wp_step. eapply wp_mono; [by apply wp_dispatch_loop|]. simpl. intros r w3 (n & os & segs & Hn & Hall & Ht3 & ->).
  wp_step. eapply wp_mono; [apply wp_addMetric|]; cbv beta; intros _ w4 Ht4.
  wp_step. eapply wp_mono; [apply wp_addMetric|]; cbv beta; intros _ w5 Ht5.
  wp_step. eapply wp_mono; [apply wp_recordMetric|]; cbv beta; intros _ w6 Ht6. wp_step.
  exists es, n, os, cbs, segs. destruct (foldl_add_outcome os no_result) as (-> & -> & -> & ->).
  pose proof (Forall3_length_lm _ _ _ _ Hall) as Hlen. rewrite length_take in Hlen.
  split_and!; try done; [by trace_eq|simpl; lia..].
Qed.
End delivery.
