(* ===== verification/OutboxService.v ===== *)
(** The dispatcher running on the PostgreSQL repository: the repository as an
    instance of the dispatcher's interface, the laws the dispatcher relies on,
    and what one cycle does to the table end to end. *)

From stdpp Require Import base numbers list gmap strings sorting relations.
From S2P Require Import Prelude GoText Backoff OutboxLastError OutboxEvent OutboxPostgres OutboxLifecycle OutboxGuarantees OutboxConfig OutboxDispatcher OutboxDelivery.

Local Open Scope Z_scope.
Local Open Scope go_scope.

(** The table and the number of calls made so far. *)
Record PgState := { ps_table : table; ps_calls : nat }.

Section instance.
(** [txs n] is what the database does during the [n]-th call.  The tenant
    sources are injected interfaces: a [TenantDiscoverer], the listing of an
    optional [TenantPoolResolver], and the module-aware listing such a resolver
    may offer. *)
Record TenantSources := {
  discover : nat → result pg_error (list text);
  explicitDiscoverer : bool;
  pool_tenants : option (nat → result pg_error (list text));
  pool_scopes : option (nat → result pg_error (list TenantDispatchScope));
}.

Context (repo : Repository) (redact : text → text) (txs : nat → Tx) (tenants : TenantSources).

Definition with_tx {A} (f : Tx → table → result pg_error A * table) (s : PgState) : result pg_error A * PgState :=
  let '(r, tbl') := f (txs (ps_calls s)) (ps_table s) in
  (r, {| ps_table := tbl'; ps_calls := S (ps_calls s) |}).

Definition next_call (s : PgState) : PgState := {| ps_table := ps_table s; ps_calls := S (ps_calls s) |}.

(** An explicit discoverer wins; otherwise a pool resolver lists the tenants. *)
Definition ListTenants (ctx : Ctx) (s : PgState) : result pg_error (list text) * PgState :=
  if negb (repo_initialized repo) then (Err ErrRepositoryNotInitialized, s) else
  match pool_tenants tenants with
  | Some list => if negb (explicitDiscoverer tenants) then (list (ps_calls s), next_call s)
                 else (discover tenants (ps_calls s), next_call s)
  | None => (discover tenants (ps_calls s), next_call s)
  end.

Definition ListTenantDispatchScopes (ctx : Ctx) (s : PgState) : result pg_error (list TenantDispatchScope) * PgState :=
  match pool_scopes tenants with
  | Some list => (list (ps_calls s), next_call s)
  | None =>
      let '(tenants, s') := ListTenants ctx s in
      (match tenants with Err e => Err e | Ok tenants => Ok (map (λ t, (t, [])) tenants) end, s')
  end.

(** The routing value it may install is read only by the pool lookup, which is
    part of [tx_primary]; the tenant identity of the context is unchanged. *)
Definition ContextForTenantDispatchScope (ctx : Ctx) (scope : TenantDispatchScope) : Ctx := ctx.

#[export] Instance pg_repository : OutboxRepository PgState pg_error := {|
  op_ListPending ctx n := with_tx (λ tx, ListPending repo ctx tx n);
  op_ListPendingByType ctx ty n := with_tx (λ tx, ListPendingByType repo ctx tx ty n);
  op_ListTenants := ListTenants;
  op_MarkPublished ctx id t := with_tx (λ tx, MarkPublished repo ctx tx id t);
  op_MarkFailed ctx id msg max := with_tx (λ tx, MarkFailed redact repo ctx tx id msg max);
  op_MarkInvalid ctx id msg := with_tx (λ tx, MarkInvalid redact repo ctx tx id msg);
  op_ResetForRetry ctx n t max := with_tx (λ tx, ResetForRetry repo ctx tx n t max);
  op_ResetStuckProcessing ctx n t max := with_tx (λ tx, ResetStuckProcessing repo ctx tx n t max);
  op_ReclaimStuckProcessing := Some (λ ctx n t max, with_tx (λ tx, ReclaimStuckProcessing repo ctx tx n t max));
  op_ListPendingByTypes := Some (λ ctx tys n, with_tx (λ tx, ListPendingByTypes repo ctx tx tys n));
  op_DeletePublishedBefore := Some (λ ctx t keep n, with_tx (λ tx, DeletePublishedBefore repo ctx tx t keep n));
  op_ListTenantsWithPublishedBefore := Some (λ ctx t keep, with_tx (λ tx tbl,
    (listTenantsAgedBefore repo tx OutboxStatusPublished t keep tbl, tbl)));
  op_InvalidPurger := Some (λ ctx t keep n, with_tx (λ tx, DeleteInvalidBefore repo ctx tx t keep n),
                            λ ctx t keep, with_tx (λ tx tbl,
                              (listTenantsAgedBefore repo tx OutboxStatusInvalid t keep tbl, tbl)));
  op_TenantDispatchScopes := Some (ListTenantDispatchScopes, ContextForTenantDispatchScope);
  op_RequiresTenant := Some (RequiresTenant repo);
|}.

(** *** The listings respect their limits *)

Lemma claim_length ctx tx from p key limit tbl es tbl' : 0 < limit →
  claim repo ctx tx from p key limit tbl = Ok (es, tbl') → Z.of_nat (length es) ≤ limit.
Proof.
  intros Hl. unfold claim, mbind, txm_bind, lift, queryOutboxEvents.
  destruct (tenantIDFromContext repo ctx) as [t|]; [|done]. destruct (tenantFilterClause repo t) as [f|]; [|done].
  destruct (negb _); [done|]. set (sel := select_rows _ _ _ _).
  assert (Hlen : Z.of_nat (length (map scanOutboxEvent sel)) ≤ limit).
  { rewrite length_map. unfold sel, select_rows. rewrite length_firstn. lia. }
  case_bool_decide; [intros [= <- _]; exact Hlen|]. case_bool_decide; [intros [= <- _]; exact Hlen|].
  destruct (markEventsProcessing _ _ _ _ _ _ _ _) as [[]|]; [|done]. intros [= <- _].
  unfold applyProcessingState. by rewrite length_map.
Qed.

Lemma tx_answer {T} ctx tx (fn : txm T) tbl a tbl' :
  withTenantTxOrExisting repo ctx tx false fn tbl = (Ok a, tbl') → fn tbl = Ok (a, tbl').
Proof.
  unfold withTenantTxOrExisting. do 2 (destruct (negb _); [done|]). destruct (tenantIDFromContext repo ctx); [|done].
  destruct (negb _); [done|]. destruct (fn tbl) as [[]|]; [|done]. destruct (tx_commit tx); by intros [= -> ->].
Qed.

Lemma gated_claim_length ctx tx from p key limit tbl es tbl' : 0 < limit →
  gated tx [] (withTenantTxOrExisting repo ctx tx false (claim repo ctx tx from p key limit)) tbl = (Ok es, tbl') →
  Z.of_nat (length es) ≤ limit.
Proof.
  intros Hl. unfold gated. destruct (tx_presence tx); [|intros [= <- _]; simpl; lia|done].
  intros E%tx_answer. by eapply claim_length.
Qed.

Lemma reclaim_length ctx tx limit before max tbl retry invalid tbl' : 0 < limit →
  ReclaimStuckProcessing repo ctx tx limit before max tbl = (Ok (retry, invalid), tbl') →
  Z.of_nat (length retry) ≤ limit.
Proof.
  intros Hl. unfold ReclaimStuckProcessing, gated. destruct (negb _); [done|]. do 2 (case_bool_decide; [done|]).
  destruct (tx_presence tx); [|intros [= <- _]; simpl; lia|done]. intros E%tx_answer. revert E.
  unfold reclaim, mbind, txm_bind, lift, queryOutboxEvents.
  destruct (tenantIDFromContext repo ctx) as [t|]; [|done]. destruct (tenantFilterClause repo t) as [f|]; [|done].
  destruct (negb _); [done|]. set (sel := select_rows _ _ _ _). unfold splitStuckEvents.
  set (rs := List.filter _ (List.filter _ (map scanOutboxEvent sel))) at 1.
  assert (Hlen : Z.of_nat (length rs) ≤ limit).
  { unfold rs. etrans; [apply inj_le, length_filter_le|]. etrans; [apply inj_le, length_filter_le|].
    rewrite length_map. unfold sel, select_rows. rewrite length_firstn. lia. }
  fold rs. do 2 (match goal with |- match ?x with _ => _ end = _ → _ => destruct x as [[]|]; [|done] end).
  intros [= <- _ _].
  case_bool_decide; [unfold applyStuckReprocessingState; by rewrite length_map|done].
Qed.

#[export] Instance pg_bounded : BoundedRepository PgState pg_error.
Proof.
  constructor; cbn [op_ListPending op_ListPendingByType op_ListPendingByTypes op_ResetForRetry
    op_ResetStuckProcessing op_ReclaimStuckProcessing pg_repository]; unfold with_tx.
  - intros ctx n s es s'. destruct (ListPending _ _ _ _ _) as [r tbl'] eqn:E. intros [= -> _] Hn. revert E.
    unfold ListPending. destruct (negb _); [done|]. case_bool_decide; [done|]. by apply gated_claim_length.
  - intros ctx ty n s es s'. destruct (ListPendingByType _ _ _ _ _ _) as [r tbl'] eqn:E. intros [= -> _] Hn. revert E.
    unfold ListPendingByType. destruct (negb _); [done|]. case_bool_decide; [done|]. cbv zeta.
    destruct (is_empty _); [done|]. by apply gated_claim_length.
  - intros f ctx tys n s es s' [= <-]. destruct (ListPendingByTypes _ _ _ _ _ _) as [r tbl'] eqn:E.
    intros [= -> _] Hn. revert E. unfold ListPendingByTypes. destruct (negb _); [done|]. case_bool_decide; [done|].
    cbv zeta. case_bool_decide; [done|]. by apply gated_claim_length.
  - intros ctx n t m s es s'. destruct (ResetForRetry _ _ _ _ _ _ _) as [r tbl'] eqn:E. intros [= -> _] Hn. revert E.
    unfold ResetForRetry. destruct (negb _); [done|]. do 2 (case_bool_decide; [done|]). by apply gated_claim_length.
  - intros ctx n t m s es s'. unfold ResetStuckProcessing.
    destruct (ReclaimStuckProcessing _ _ _ _ _ _ _) as [[[retry invalid]|] tbl'] eqn:E; [|done].
    intros [= <- _] Hn. by eapply reclaim_length.
  - intros f ctx n t m s retry invalid s' [= <-].
    destruct (ReclaimStuckProcessing _ _ _ _ _ _ _) as [r tbl'] eqn:E. intros [= -> _] Hn. by eapply reclaim_length.
Qed.
End instance.

(** ** A healthy cycle, end to end *)

Section settle.
Context (repo : Repository) (redact : text → text) (txs : nat → Tx) (tenants : TenantSources).
Context {H E : Type} (env : Env H E) (cfg : DispatcherConfig) (handlers : gmap text H)
  (retryClassifier : option (publish_error E → bool)) (error_text : publish_error E → text).
Context (ctx : Ctx) (tenantID : text).
Abbreviation m := (MaxDispatchAttempts cfg).
Abbreviation pg := (pg_repository repo redact txs tenants).

Record cycle_ok : Prop := {
  co_cfg : config_ok cfg;
  co_unscoped : PriorityEventTypes cfg = [];
  co_init : repo_initialized repo = true;
  co_healthy : ∀ n, healthy (txs n);
  co_ctx : ∀ n, env_ctx_done env n = false;
  co_tenant : tenantIDFromContext repo ctx = Ok tenantID;
}.
Hypothesis Hcy : cycle_ok.

(** The event mirrors a PROCESSING row of the tenant. *)
Definition live (tbl : table) (e : OutboxEvent) : Prop :=
  ∃ r, r ∈ tbl ∧ r_id r = ID e ∧ visible repo tenantID r = true ∧
       r_status r = OutboxStatusProcessing ∧ r_attempts r = Attempts e.

Record good (tbl : table) (es : list OutboxEvent) : Prop := {
  good_table : table_ok m repo tbl;
  good_live : Forall (live tbl) es;
  good_ids : NoDup (map ID es);
}.

Lemma attempts_pos : 0 < m.
Proof. apply Hcy. Qed.

Lemma mark_rows_ok sel g tbl : table_ok m repo tbl → (∀ r, r ∈ sel → row_step redact m r (g r)) →
  table_ok m repo (mark_rows sel g tbl).
Proof.
  intros Hok Hs. eapply (table_step_ok redact m (λ _, true) (λ _, True)); [apply attempts_pos| |exact Hok].
  apply mark_rows_step. auto.
Qed.

Lemma mark_rows_hit (sel : list Row) g tbl (r : Row) : r ∈ sel → r ∈ tbl → g r ∈ mark_rows sel g tbl.
Proof.
  intros Hs Hr. apply list_elem_of_fmap. exists r. split; [by rewrite bool_decide_true|done].
Qed.

(** Rows in another status are marked PROCESSING: what was live stays live,
    and the events handed out are live too. *)
Lemma good_claim tbl es sel t from : good tbl es → NoDup (map r_id sel) →
  (∀ r, r ∈ sel → r ∈ tbl ∧ visible repo tenantID r = true ∧ r_status r = from ∧
                  row_step redact m r (to_processing t r)) →
  from ≠ OutboxStatusProcessing →
  good (mark_rows sel (to_processing t) tbl) (es ++ map (λ r, scanOutboxEvent (to_processing t r)) sel).
Proof.
  intros [Hok Hl Hid] Hd Hsel Hne. constructor.
  - apply mark_rows_ok; [done|]. intros r Hr. by apply Hsel.
  - apply Forall_app; split.
    + eapply Forall_impl; [exact Hl|]. intros e (r & Hin & ? & ? & Hst & ?). exists r. split_and!; try done.
      apply mark_rows_keep; [done|]. intros Hs. destruct (Hsel r Hs) as (_ & _ & Hf & _). congruence.
    + apply Forall_map, Forall_forall. intros r Hr. destruct (Hsel r Hr) as (Hin & Hv & _).
      exists (to_processing t r). split_and!; try done. by apply mark_rows_hit.
  - rewrite map_app, map_map. apply NoDup_app. split_and!; [done| |done].
    intros i Hi Hi'. apply list_elem_of_fmap in Hi as [e [-> He]], Hi' as [s [Hids Hs]].
    eapply Forall_forall in Hl as (r & Hin & Hr & Hv & Hst & _); [|exact He].
    destruct (Hsel s Hs) as (Hin' & Hv' & Hf & _). simpl in Hids.
    assert (r = s) as -> by (eapply (visible_id_inj repo tenantID); [apply Hok|..]; eauto; congruence).
    congruence.
Qed.

Lemma claimed_spec tx from p key limit tbl r :
  r ∈ claimed tx tenantID from repo p key limit tbl →
  r ∈ tbl ∧ visible repo tenantID r = true ∧ r_status r = from ∧ p r = true.
Proof.
  intros [Hr Hin]%select_rows_elem. bool_to_prop. split_and!; try done. by apply eqt_true.
Qed.

Lemma claimed_ids tx from p key limit tbl : table_ok m repo tbl →
  NoDup (map r_id (claimed tx tenantID from repo p key limit tbl)).
Proof.
  intros Hok. apply NoDup_select, (visible_ids_NoDup repo tenantID); [apply Hok|].
  intros r Hr. by bool_to_prop.
Qed.

(** Every pending row of the tenant that is left was locked when it was looked for. *)
Definition drained (tbl : table) : Prop :=
  ∀ r, r ∈ tbl → visible repo tenantID r = true → r_status r = OutboxStatusPending → ∃ n, tx_locked (txs n) r = true.

Lemma good_ListPending limit s es a s' : good (ps_table s) es → 0 < limit →
  op_ListPending (OutboxRepository := pg) ctx limit s = (a, s') →
  ∃ es', a = Ok es' ∧ good (ps_table s') (es ++ es') ∧ (Z.of_nat (length es') < limit → drained (ps_table s')).
Proof.
  intros Hg Hl. cbn [op_ListPending pg_repository]. unfold with_tx.
  destruct (ListPending_claims_oldest m repo (ps_table s) ctx (txs (ps_calls s)) tenantID limit) as (sel & -> & Hd & _ & _ & Hsel & Hrest);
    [apply Hg|apply Hcy|done|apply Hcy|apply Hcy|].
  intros [= <- <-]. eexists. split_and!; [done| |].
  - eapply (good_claim _ _ _ _ OutboxStatusPending); [exact Hg|exact Hd| |discriminate].
    intros r (? & Hst & ? & _)%Hsel. split_and!; [done..|]. by apply rs_claim.
  - rewrite length_map. intros Hlt r Hr Hv Hst. apply list_elem_of_fmap in Hr as (r0 & -> & Hin).
    case_bool_decide as Hs; [discriminate Hst|]. exists (ps_calls s). destruct (tx_locked _ r0) eqn:Hlk; [done|].
    destruct (Hrest r0 Hin Hst Hv Hlk Hs). lia.
Qed.

Lemma good_ResetForRetry limit before s es a s' : good (ps_table s) es → 0 < limit →
  op_ResetForRetry (OutboxRepository := pg) ctx limit before m s = (a, s') →
  ∃ es', a = Ok es' ∧ good (ps_table s') (es ++ es').
Proof.
  pose proof attempts_pos. intros Hg Hl. cbn [op_ResetForRetry pg_repository]. unfold with_tx, ResetForRetry.
  rewrite (co_init Hcy), !bool_decide_false by lia. cbn [negb].
  rewrite (claim_healthy m repo ctx _ tenantID) by (try apply Hcy; try apply Hg; auto).
  intros [= <- <-]. eexists. split; [done|].
  eapply (good_claim _ _ _ _ OutboxStatusFailed); [exact Hg|apply claimed_ids, Hg| |discriminate].
  intros r (? & ? & Hst & Hp)%claimed_spec. split_and!; [done..|exact Hst|]. apply rs_retry; [done|].
  unfold retry_eligible in Hp. by bool_to_prop.
Qed.

Lemma good_Reclaim limit before s f a s' : table_ok m repo (ps_table s) → 0 < limit →
  op_ReclaimStuckProcessing (OutboxRepository := pg) = Some f → f ctx limit before m s = (a, s') →
  ∃ retry invalid, a = Ok (retry, invalid) ∧ good (ps_table s') retry.
Proof.
  pose proof attempts_pos as Hm. intros Hok Hl [= <-]. unfold with_tx.
  rewrite (Reclaim_healthy m repo ctx _ tenantID) by (try apply Hcy; auto).
  set (tx := txs (ps_calls s)). set (sel := stuck_rows _ _ _ _ _ _).
  intros [= <- <-]. eexists _, _. split; [done|]. cbn [ps_table].
  assert (Hsel : ∀ r, r ∈ sel → r ∈ ps_table s ∧ visible repo tenantID r = true ∧ r_status r = OutboxStatusProcessing)
    by (intros r (? & ? & ? & _)%claimed_spec; auto).
  assert (Hd : NoDup (map r_id sel)) by (by apply claimed_ids).
  constructor.
  - apply mark_rows_ok; [apply mark_rows_ok; [done|]|]; intros r [Hb Hr]%elem_of_filter_bool;
      destruct (Hsel r Hr) as (_ & _ & Hst); unfold within_budget, out_of_budget in Hb; bool_to_prop.
    + apply rs_reclaim; [done|lia].
    + by apply rs_stuck.
  - apply Forall_map, Forall_forall. intros r [Hb Hr]%elem_of_filter_bool. destruct (Hsel r Hr) as (Hin & Hv & Hst).
    exists (to_reprocessing (tx_now tx) r). split_and!; try done. apply mark_rows_keep.
    + apply mark_rows_hit; [|done]. by apply elem_of_filter_bool.
    + intros [_ Hex]%elem_of_filter_bool. destruct (Hsel _ Hex) as (Hin' & Hv' & _).
      assert (Heq : to_reprocessing (tx_now tx) r = r)
        by (eapply (visible_id_inj repo tenantID); [apply Hok|..]; eauto).
      apply (f_equal r_attempts) in Heq. simpl in Heq. lia.
  - rewrite map_map. eapply sublist_NoDup; [exact Hd|]. apply (fmap_sublist _), sublist_filter_bool.
Qed.

Lemma wp_resetStuck_good limit before (w : World PgState E) : table_ok m repo (ps_table (w_repo w)) → 0 < limit →
  wp (resetStuckProcessing (repo := pg) cfg ctx limit before)
     (λ r w', ∃ es, r = Ok es ∧ good (ps_table (w_repo w')) es ∧ only_stuck w w') w.
Proof.
  intros Hok Hl. unfold resetStuckProcessing.
  destruct (op_ReclaimStuckProcessing (OutboxRepository := pg)) as [f|] eqn:Hf; [|done].
  wp_step. apply wp_repo. intros a s w1 Ha Hs Hd1 Ht1.
  destruct (good_Reclaim limit before (w_repo w) f a s Hok Hl Hf Ha) as (retry & invalid & -> & Hg).
  wp_step. eapply wp_mono; [apply wp_fire_invalid|]. simpl. intros _ w2 [Hs2 Hr2]. apply wp_ret.
  exists retry. split_and!; [done|by rewrite Hr2, Hs|]. eapply only_stuck_trans; [|exact Hs2]. by apply only_stuck_same.
Qed.

Lemma wp_collect_good (w : World PgState E) : table_ok m repo (ps_table (w_repo w)) →
  wp (collectEvents (repo := pg) env cfg ctx)
     (λ es w', good (ps_table (w_repo w')) es ∧ only_stuck w w' ∧
               (Z.of_nat (length es) < BatchSize cfg → drained (ps_table (w_repo w')))) w.
Proof.
  intros Hok. pose proof (ok_failed _ (co_cfg Hcy)). pose proof (ok_batch _ (co_cfg Hcy)). pose proof (ok_priority _ (co_cfg Hcy)).
  unfold collectEvents, collectPriorityEvents. rewrite (co_unscoped Hcy).
  wp_step. apply wp_ask. intros t1 w1 Hr1 _ Ht1. wp_step. apply wp_ask. intros t2 w2 Hr2 _ Ht2. wp_step.
  rewrite orb_true_r. wp_step. rewrite (bool_decide_false (0 < length [])%nat) by (simpl; lia). rewrite andb_false_r.
  wp_step; [bool_to_prop; simpl in *; lia|]. wp_step.
  eapply wp_mono; [apply wp_resetStuck_good; [by rewrite Hr2, Hr1|simpl; lia]|].
  intros r w3 (stuck & -> & Hg3 & Hs3'). cbn [or_none from_ok app].
  assert (Hs3 : only_stuck w w3) by (eapply only_stuck_trans; [apply only_stuck_same|exact Hs3']; congruence).
  wp_step; [apply wp_ret; rewrite deduplicate_id by apply Hg3; bool_to_prop; split_and!; [done..|simpl in *; lia]|]. bool_to_prop.
  wp_step. apply wp_repo. intros a s w4 Ha Hs _ Ht4.
  eapply good_ResetForRetry in Ha as (failed & -> & Hg4); [|exact Hg3|lia]. rewrite <- Hs in Hg4.
  cbn [or_none from_ok].
  wp_step; [apply wp_ret; rewrite deduplicate_id by apply Hg4; bool_to_prop; split_and!; [done|by eapply only_stuck_step|rewrite length_app; simpl in *; lia]|].
  bool_to_prop.
  wp_step. apply wp_repo. intros a5 s5 w5 Ha5 Hs5 _ Ht5.
  eapply good_ListPending in Ha5 as (pending & -> & Hg5 & Hp5); [|exact Hg4|lia].
  rewrite <- Hs5 in Hg5, Hp5. wp_step. apply wp_disp. intros [] w6 Hr6 Ht6. apply wp_ret. rewrite <- app_assoc in Hg5.
  rewrite deduplicate_id by apply Hg5. rewrite Hr6. split_and!; [done|do 3 (eapply only_stuck_step; [|eassumption]); done|].
  intros Hlt. apply Hp5. rewrite !length_app in Hlt. simpl in *. lia.
Qed.

(** *** Settling one event *)

Definition callbacks_match (e : OutboxEvent) (o : outcome) (seg : list (effect E)) (row : Row) : Prop :=
  match o with
  | Delivered ok => ok = true ∧ r_status row = OutboxStatusPublished
  | Undelivered =>
      (r_status row = OutboxStatusInvalid ∧ (OnInvalid cfg = true → ∃ err, CalledOnInvalid e err ∈ seg)) ∨
      (r_status row = OutboxStatusFailed ∧ (∀ err, CalledOnInvalid e err ∉ seg) ∧
       (OnFailed cfg = true → ∃ err, CalledOnFailed e err ∈ seg))
  end.

(** The event's row in the final table agrees with what was done and reported. *)
Definition settled (tbl : table) (e : OutboxEvent) (o : outcome) (seg : list (effect E)) : Prop :=
  delivery cfg retryClassifier e o seg ∧
  ∃ row, row ∈ tbl ∧ r_id row = ID e ∧ visible repo tenantID row = true ∧ callbacks_match e o seg row.

(** [tbl'] differs from [tbl] at most in the tenant's rows of these ids. *)
Definition frame (ids : list uuid) (tbl tbl' : table) : Prop :=
  ∀ r, r ∈ tbl → r_id r ∉ ids ∨ visible repo tenantID r = false → r ∈ tbl'.

Lemma mark_one_settles tbl e es r g : good tbl (e :: es) →
  r ∈ tbl → r_id r = ID e → visible repo tenantID r = true → row_step redact m r (g r) →
  let tbl' := mark_rows [r] g tbl in
  good tbl' es ∧ frame [ID e] tbl tbl' ∧ g r ∈ tbl' ∧ r_id (g r) = ID e ∧ visible repo tenantID (g r) = true.
Proof.
  intros [Hok Hl Hid] Hin Hr Hv Hs tbl'. apply Forall_cons in Hl as [_ Hl]. apply NoDup_cons in Hid as [Hn Hid].
  assert (Hf : frame [ID e] tbl tbl').
  { intros r' Hin' Hdiff. apply mark_rows_keep; [done|]. intros ->%list_elem_of_singleton.
    destruct Hdiff as [Hd|Hd]; [|congruence]. apply Hd. rewrite Hr. left. }
  split_and!; [constructor|done|apply mark_rows_hit; [left|done]|by destruct Hs|by destruct Hs].
  - apply mark_rows_ok; [done|]. by intros r' ->%list_elem_of_singleton.
  - apply Forall_forall. intros e' He'. eapply Forall_forall in Hl as (r' & Hin' & Hr' & Hv' & Hst' & Ha'); [|exact He'].
    exists r'. split_and!; try done. apply Hf; [done|]. left. rewrite list_elem_of_singleton. intros Heq.
    apply Hn, list_elem_of_fmap. exists e'. split; [congruence|done].
  - done.
Qed.

(** The state change of a healthy call on a live event. *)
Lemma live_row tbl e es : good tbl (e :: es) → ∃ r, r ∈ tbl ∧ r_id r = ID e ∧ visible repo tenantID r = true ∧
  r_status r = OutboxStatusProcessing ∧ r_attempts r = Attempts e ∧ 0 ≤ r_attempts r < m.
Proof.
  intros [Hok Hl _]. apply Forall_cons in Hl as [(r & Hin & Hr & Hv & Hst & Ha) _]. exists r. split_and!; try done;
  (assert (phase_ok m Processing r) as [? _];
    [apply phase_unique; [|done]; pose proof (ok_rows _ _ _ Hok) as Hall; eapply Forall_forall in Hall; [|exact Hin];
     apply Hall|lia]).
Qed.

(** The table after a state change that hit the event's row. *)
Definition stepped (status : text) (e : OutboxEvent) (es : list OutboxEvent) (tbl tbl' : table) : Prop :=
  good tbl' es ∧ frame [ID e] tbl tbl' ∧
  ∃ row, row ∈ tbl' ∧ r_id row = ID e ∧ visible repo tenantID row = true ∧ r_status row = status.

Lemma hit_stepped tbl e es r g status : good tbl (e :: es) →
  r ∈ tbl → r_id r = ID e → visible repo tenantID r = true → row_step redact m r (g r) → r_status (g r) = status →
  stepped status e es tbl (mark_rows [r] g tbl).
Proof.
  intros Hg Hin Hr Hv Hs Hst. destruct (mark_one_settles tbl e es r g Hg Hin Hr Hv Hs) as (? & ? & ? & ? & ?).
  split_and!; [done|done|]. by exists (g r).
Qed.

Lemma MarkInvalid_stepped e es msg s a s' : good (ps_table s) (e :: es) →
  op_MarkInvalid (OutboxRepository := pg) ctx (ID e) msg s = (a, s') →
  a = Ok tt ∧ stepped OutboxStatusInvalid e es (ps_table s) (ps_table s').
Proof.
  intros Hg. destruct (live_row _ _ _ Hg) as (r & Hin & Hr & Hv & Hst & Ha & Hatt).
  cbn [op_MarkInvalid pg_repository]. unfold with_tx. rewrite <- Hr.
  rewrite (MarkInvalid_hit redact m repo ctx _ tenantID) by (try apply Hcy; try apply Hg; auto).
  intros [= <- <-]. split; [done|]. eapply hit_stepped; eauto. by apply rs_invalidate.
Qed.

Lemma MarkPublished_stepped e es t s a s' : good (ps_table s) (e :: es) →
  op_MarkPublished (OutboxRepository := pg) ctx (ID e) t s = (a, s') →
  a = Ok tt ∧ stepped OutboxStatusPublished e es (ps_table s) (ps_table s').
Proof.
  intros Hg. destruct (live_row _ _ _ Hg) as (r & Hin & Hr & Hv & Hst & Ha & Hatt).
  cbn [op_MarkPublished pg_repository]. unfold with_tx. rewrite <- Hr.
  rewrite (MarkPublished_hit m repo ctx _ tenantID) by (try apply Hcy; try apply Hg; auto).
  intros [= <- <-]. split; [done|]. eapply hit_stepped; eauto. by apply rs_publish.
Qed.

Lemma MarkFailed_stepped e es msg s a s' : good (ps_table s) (e :: es) →
  op_MarkFailed (OutboxRepository := pg) ctx (ID e) msg m s = (a, s') →
  a = Ok tt ∧
  stepped (if bool_decide (m ≤ Attempts e + 1) then OutboxStatusInvalid else OutboxStatusFailed)
    e es (ps_table s) (ps_table s').
Proof.
  intros Hg. destruct (live_row _ _ _ Hg) as (r & Hin & Hr & Hv & Hst & Ha & Hatt).
  cbn [op_MarkFailed pg_repository]. unfold with_tx. rewrite <- Hr.
  rewrite (MarkFailed_hit redact m repo ctx _ tenantID) by (try apply Hcy; try apply Hg; auto).
  intros [= <- <-]. split; [done|]. cbn [ps_table].
  destruct (processing_recorded m repo _ (good_table _ _ Hg) r Hin Hst) as [_ Hrec].
  assert (Hpub : r_published_at r = None).
  { assert (phase_ok m Processing r) as [_ ?]; [|done]. apply phase_unique; [|done].
    pose proof (ok_rows _ _ _ (good_table _ _ Hg)) as Hall. eapply Forall_forall in Hall; [|exact Hin]. apply Hall. }
  rewrite (bool_decide_ext (m ≤ Attempts e + 1) (r_attempts r + 1 = m)) by lia.
  eapply hit_stepped; eauto. rewrite <- sql_last_error_row by done. rewrite <- Hpub at 1.
  case_bool_decide; [apply rs_exhaust; [done|lia]|apply rs_fail; [done|lia]].
Qed.

Definition event_done (e : OutboxEvent) (es : list OutboxEvent) (o : outcome) (w0 w w' : World PgState E) : Prop :=
  ∃ seg, w_trace w' = w_trace w0 ++ seg ∧ settled (ps_table (w_repo w')) e o seg ∧
    good (ps_table (w_repo w')) es ∧ frame [ID e] (ps_table (w_repo w)) (ps_table (w_repo w')).

Lemma stepped_done e es o seg status (w0 w w' : World PgState E) :
  stepped status e es (ps_table (w_repo w)) (ps_table (w_repo w')) → w_trace w' = w_trace w0 ++ seg →
  delivery cfg retryClassifier e o seg → (∀ row, r_status row = status → callbacks_match e o seg row) →
  event_done e es o w0 w w'.
Proof.
  intros (Hg & Hf & row & Hin & Hr & Hv & Hst) Ht Hd Hc. exists seg. split_and!; try done.
  split; [done|]. exists row. split_and!; auto.
Qed.

Lemma failed_try_no_invalid e err tries : Forall (failed_try e) tries → CalledOnInvalid (E := E) e err ∉ tries.
Proof. intros Hf Hin. eapply Forall_forall in Hf as [[? ?]|[? ?]]; [| |exact Hin]; done. Qed.

Lemma wp_handle_settles e err es tries (w w0 : World PgState E) :
  good (ps_table (w_repo w)) (e :: es) →
  Forall (failed_try e) tries → handler_calls tries ≤ PublishMaxAttempts cfg → w_trace w = w_trace w0 ++ tries →
  wp (handlePublishError (repo := pg) cfg retryClassifier error_text redact ctx e err)
     (λ _ w', event_done e es Undelivered w0 w w') w.
Proof.
  intros Hg Hf Hn Ht. unfold handlePublishError.
  destruct (isNonRetryableError retryClassifier err) eqn:Hnr; wp_step; apply wp_repo; intros a s w1 Hop Hs1 _ Ht1.
  - eapply MarkInvalid_stepped in Hop as [-> Hst]; [|exact Hg]. rewrite <- Hs1 in Hst. cbn [is_ok negb].
    wp_step. apply wp_emit. intros w2 Hr2 Ht2. eapply wp_mono; [apply wp_invokeOnInvalid|].
    intros [] w3 [Hr3 Ht3]. rewrite <- Hr2, <- Hr3 in Hst. eapply stepped_done; [exact Hst| |by apply (invalidated cfg _ e tries err true)|].
    + trace_eq. simpl. by destruct (OnInvalid cfg).
    + intros row Hrow. left. split; [done|]. intros ->. exists err. simpl. set_solver.
  - eapply MarkFailed_stepped in Hop as [-> Hst]; [|exact Hg]. rewrite <- Hs1 in Hst. cbn [is_ok negb].
    wp_step. apply wp_emit. intros w2 Hr2 Ht2. pose proof (failed cfg retryClassifier e tries err true Hf Hn Hnr) as Hd.
    cbn [negb] in Hd. case_bool_decide as Hb.
    + eapply wp_mono; [apply wp_invokeOnInvalid|]. intros [] w3 [Hr3 Ht3]. rewrite <- Hr2, <- Hr3 in Hst.
      eapply stepped_done; [exact Hst|trace_eq; done|exact Hd|].
      intros row Hrow. left. split; [done|]. intros ->. exists err. set_solver.
    + eapply wp_mono; [apply wp_invokeOnFailed|]. intros [] w3 [Hr3 Ht3]. rewrite <- Hr2, <- Hr3 in Hst.
      eapply stepped_done; [exact Hst|trace_eq; done|exact Hd|].
      intros row Hrow. right. split_and!; [done| |].
      * intros err' Hin. apply elem_of_app in Hin as [Hin|Hin]; [by eapply failed_try_no_invalid|].
        destruct (OnFailed cfg); set_solver.
      * intros ->. exists err. set_solver.
Qed.

Lemma frame_trans ids ids' tbl tbl1 tbl2 : frame ids tbl tbl1 → frame ids' tbl1 tbl2 → frame (ids ++ ids') tbl tbl2.
Proof.
  intros H1 H2 r Hr Hd. apply H2; [apply H1; [done|]|]; destruct Hd as [Hd|Hd]; auto; left; set_solver.
Qed.

Lemma settled_frame tbl tbl' e o seg ids : settled tbl e o seg → frame ids tbl tbl' → ID e ∉ ids →
  settled tbl' e o seg.
Proof.
  intros (Hd & row & Hin & Hr & Hv & Hc) Hf Hn. split; [done|]. exists row. split_and!; try done.
  apply Hf; [done|]. left. by rewrite Hr.
Qed.

Lemma wp_dispatch_settles key es r (w : World PgState E) :
  good (ps_table (w_repo w)) es →
  wp (dispatch_loop (repo := pg) env cfg handlers retryClassifier error_text redact ctx key es r)
     (λ r' w', ∃ os segs, Forall3 (settled (ps_table (w_repo w'))) es os segs ∧
        w_trace w' = w_trace w ++ concat segs ∧ r' = foldl add_outcome r os ∧
        table_ok m repo (ps_table (w_repo w')) ∧
        frame (map ID es) (ps_table (w_repo w)) (ps_table (w_repo w'))) w.
Proof.
  revert r w. induction es as [|e es IH]; intros r w Hg.
  { apply wp_ret. exists [], []. split_and!; [constructor|by rewrite app_nil_r|done|apply Hg|]. by intros ? ?. }
  cbn [dispatch_loop]. wp_step. unfold ctx_done. unfold wp at 1, ask. rewrite (co_ctx Hcy).
  set (w0 := {| w_repo := w_repo w |}). cbv iota.
  wp_step. eapply wp_mono; [apply wp_publishEventWithRetry, Hcy|]. intros err w1 (Hr1 & tries & Hf & Hm).
  assert (Hcont : ∀ o r1 w2, event_done e es o w w w2 → r1 = add_outcome r o →
    wp (dispatch_loop (repo := pg) env cfg handlers retryClassifier error_text redact ctx key es r1)
      (λ r' w', ∃ os segs, Forall3 (settled (ps_table (w_repo w'))) (e :: es) os segs ∧
        w_trace w' = w_trace w ++ concat segs ∧ r' = foldl add_outcome r os ∧
        table_ok m repo (ps_table (w_repo w')) ∧
        frame (map ID (e :: es)) (ps_table (w_repo w)) (ps_table (w_repo w'))) w2).
  { intros o r1 w2 (seg & Ht2 & Hst & Hg2 & Hfr) ->. eapply wp_mono; [by apply IH|].
    simpl. intros r' w3 (os & segs & Hall & Ht3 & -> & Hok3 & Hfr3). exists (o :: os), (seg :: segs).
    split_and!; [constructor; [|done]|trace_eq; done|done|done|exact (frame_trans [ID e] _ _ _ _ Hfr Hfr3)].
    eapply settled_frame; [exact Hst|exact Hfr3|]. pose proof (good_ids _ _ Hg) as Hd. simpl in Hd.
    by apply NoDup_cons in Hd as [? _]. }
  assert (Hg1 : good (ps_table (w_repo w1)) (e :: es)) by (by rewrite Hr1).
  destruct err as [err|]; destruct Hm as [Ht Hn].
  - wp_step. eapply wp_mono; [eapply (wp_handle_settles e err es tries w1 w); done|].
    intros [] w2 (seg & Ht2 & Hst & Hg2 & Hfr). eapply (Hcont Undelivered).
    + exists seg. rewrite Hr1 in Hfr. done.
    + unfold add_outcome. simpl. f_equal; lia.
  - wp_step. apply wp_ask. intros t w2 Hr2 _ Ht2. wp_step. apply wp_repo. intros a s w3 Hop Hs3 _ Ht3.
    rewrite Hr2 in Hop. eapply MarkPublished_stepped in Hop as [-> Hst]; [|exact Hg1]. rewrite <- Hs3 in Hst.
    wp_step. apply wp_emit. intros w4 Hr4 Ht4. wp_step. cbn [is_ok]. wp_step. rewrite <- Hr4 in Hst. rewrite Hr1 in Hst.
    eapply (Hcont (Delivered true)); [|unfold add_outcome; simpl; f_equal; lia].
    eapply stepped_done; [exact Hst| |by apply delivered|done]. trace_eq. done.
Qed.

Lemma wp_record key (w : World PgState E) :
  wp (recordMetric cfg key) (λ _ w', w_repo w' = w_repo w ∧ w_trace w' = w_trace w) w.
Proof. unfold recordMetric. repeat wp_step; done. Qed.

Lemma wp_add key n (w : World PgState E) :
  wp (addMetric cfg key n) (λ _ w', w_repo w' = w_repo w ∧ w_trace w' = w_trace w) w.
Proof. unfold addMetric, recordMetric. repeat wp_step; done. Qed.

Lemma no_lost os segs es tbl : Forall3 (settled tbl) es os segs → count_if is_lost os = 0.
Proof.
  unfold count_if. induction 1 as [|e o seg es os segs (_ & row & _ & _ & _ & Hc) _ IH]; simpl; [done|].
  destruct o as [[]|]; simpl in *; [lia|destruct Hc; done|lia].
Qed.

End settle.

(** ** Concrete instances *)

(** Three pending events; the handler fails for event 2. *)
Definition cycle_table : table :=
  run (λ _, true) (λ b, b) (λ s, s) 10 demo_repo [] (firstn 3 demo_calls).

Definition cycle_cfg : DispatcherConfig := normalize (set_OnFailed true (set_OnInvalid true DefaultDispatcherConfig)).

Definition cycle_env : Env unit unit :=
  {| env_now := λ n, 1000 + Z.of_nat n; env_ctx_done := λ _, false;
     env_handle := λ _ _ e, if bool_decide (ID e = 2) then Some tt else None; env_entropy := λ _, exhausted |}.

Definition cycle_handlers : gmap text unit := {[ txt "payment.created" := tt ]}.

Definition cycle_world : World PgState unit :=
  {| w_repo := {| ps_table := cycle_table; ps_calls := 0 |}; w_disp := new_dispatcher; w_tick := 0; w_trace := [] |}.

Definition no_tenants : TenantSources :=
  {| discover := λ _, Ok []; explicitDiscoverer := true; pool_tenants := None; pool_scopes := None |}.

Definition cycle_txs (n : nat) : Tx := demo_tx (1000 + Z.of_nat n).

Definition cycle : DispatchResult * World PgState unit :=
  DispatchOnceResult (repo := pg_repository demo_repo (λ s, s) cycle_txs no_tenants)
    cycle_env cycle_cfg cycle_handlers None (λ _, txt "broker down") (λ s, s) demo_ctx cycle_world.

Lemma cycle_cfg_ok : config_ok cycle_cfg.
Proof. apply normalize_ok. vm_compute. reflexivity. Qed.

Lemma cycle_table_ok : table_ok 10 demo_repo cycle_table.
Proof. apply run_ok; [lia|apply table_ok_nil]. Qed.

Lemma cycle_demo_ok : cycle_ok demo_repo cycle_txs cycle_env cycle_cfg demo_ctx (txt "acme").
Proof.
  constructor; [apply cycle_cfg_ok|reflexivity|reflexivity|intros; apply healthy_demo|reflexivity|reflexivity].
Qed.

Lemma dispatch_cycle_order_witness :
  ∃ es n, NoDup (map ID es) ∧ Z.of_nat (length es) ≤ 50 ∧ (n ≤ length es)%nat ∧ Processed cycle.1 = Z.of_nat n.
Proof.
  pose proof (dispatch_cycle_order (repo := pg_repository demo_repo (λ s, s) cycle_txs no_tenants)
    cycle_env cycle_cfg cycle_handlers None (λ _, txt "broker down") (λ s, s) demo_ctx cycle_world cycle_cfg_ok) as Hc.
  fold cycle in Hc. destruct cycle as [r w'].
  destruct Hc as (es & n & os & cbs & segs & H1 & H2 & H3 & _ & _ & _ & H4 & _). exists es, n. auto.
Defined.

