(* ===== verification/OutboxMongo.v ===== *)
(** The MongoDB outbox repository: [outbox/mongo/repository.go], [claim.go],
    [document.go], [retention.go], [tenant.go] and [helpers.go].

    MongoDB has no transaction around a call: every call is a program of
    [Effects] whose commands, one per statement sent to the server, are atomic on
    their own.  A bulk write is one command per write.  The collection is a list
    of BSON documents (maps from field names to values); filters and updates are
    the maps the code builds, with the meaning the server gives them.  The
    database the context is routed to is one collection. *)

From stdpp Require Import base numbers list gmap strings sorting.
From S2P Require Import Prelude GoText Effects OutboxLastError OutboxEvent.

Local Open Scope Z_scope.
Local Open Scope go_scope.

(** ** BSON *)

(** The values this repository writes; [BInt] is an int32 or int64, [BDate] a
    number of milliseconds since 1970. *)
Inductive bval := BNull | BString (s : text) | BInt (n : Z) | BDate (ms : Z) | BOther.

#[export] Instance bval_eq_dec : EqDecision bval.
Proof. solve_decision. Defined.

Abbreviation bdoc := (@gmap text (@list_eq_dec Z Z.eq_dec) (@list_countable Z Z.eq_dec Z_countable) bval).

(** The milliseconds of a time, and back: what a date field keeps. *)
Definition date_of (t : gotime) : Z := (t - unix_epoch) `div` Millisecond.
Definition time_of (ms : Z) : gotime := unix_epoch + ms * Millisecond.

Definition mongoFieldStatus : text := txt "status".
Definition mongoFieldAttempts : text := txt "attempts".
Definition mongoFieldCreatedAt : text := txt "created_at".
Definition mongoFieldUpdatedAt : text := txt "updated_at".
Definition mongoFieldClaimToken : text := txt "claim_token".
Definition mongoFieldLastError : text := txt "last_error".
Definition f_id : text := txt "id".
Definition f_event_type : text := txt "event_type".
Definition f_aggregate_id : text := txt "aggregate_id".
Definition f_payload : text := txt "payload".
Definition f_published_at : text := txt "published_at".

Definition defaultTenantField : text := txt "tenant_id".
Definition defaultScopeTenantID : text := [].
Definition maxListScanMultiplier : nat := 8.

(** ** Errors *)

Inductive mongo_error :=
| ErrRepositoryNotInitialized
| ErrStateTransitionConflict
| ErrLimitMustBePositive
| ErrIDRequired
| ErrAggregateIDRequired
| ErrMaxAttemptsMustBePositive
| ErrMongoEventTypeRequired
| ErrTransactionUnsupported
| ErrInvalidIdentifier
| ErrCollectionRequired
| ErrConnectionRequired
| ErrTenantDatabaseRequired
| ErrNoDocuments                 (* mongo.ErrNoDocuments *)
| ErrDriver                      (* any other driver error *)
| ErrDecode                      (* a field is missing or of another type, a bad UUID *)
| OutboxErr (e : outbox_error).

#[export] Instance mongo_error_eq_dec : EqDecision mongo_error.
Proof. solve_decision. Defined.

Definition lift_outbox {A} (r : result outbox_error A) : result mongo_error A :=
  match r with Ok a => Ok a | Err e => Err (OutboxErr e) end.

(** ** Documents *)

Module Doc.
Record document := {
  ID : text;
  EventType : text;
  AggregateID : text;
  Payload : list Z;
  Status : text;
  Attempts : Z;
  PublishedAt : option gotime;
  LastError : text;
  CreatedAt : gotime;
  UpdatedAt : gotime;
  TenantID : text;
}.

#[global] Instance document_eta : Eta document := λ d,
  {| ID := ID d; EventType := EventType d; AggregateID := AggregateID d; Payload := Payload d; Status := Status d;
     Attempts := Attempts d; PublishedAt := PublishedAt d; LastError := LastError d; CreatedAt := CreatedAt d;
     UpdatedAt := UpdatedAt d; TenantID := TenantID d |}.
End Doc.
Abbreviation document := Doc.document.

(** The textual form of a UUID ([google/uuid]), [json.Valid], and the redaction
    of error texts. *)
Class MongoPlatform := {
  uuid_string : uuid → text;
  uuid_parse : text → option uuid;
  json_valid : list Z → bool;
  redact : text → text;
}.

Class MongoPlatformLaws `{MongoPlatform} := {
  uuid_parse_string u : uuid_parse (uuid_string u) = Some u;
  uuid_string_trimmed u : TrimSpace (uuid_string u) = uuid_string u;
  uuid_string_nonempty u : uuid_string u ≠ [];
}.

Definition set_if (b : bool) (k : text) (v : bval) (d : bdoc) : bdoc := if b then <[k := v]> d else d.

Definition toBSON (doc : document) (tenantField : text) : bdoc :=
  let raw : bdoc :=
    <[f_id := BString (Doc.ID doc)]> (<[f_event_type := BString (Doc.EventType doc)]>
    (<[f_aggregate_id := BString (Doc.AggregateID doc)]> (<[f_payload := BString (Doc.Payload doc)]>
    (<[mongoFieldStatus := BString (Doc.Status doc)]> (<[mongoFieldAttempts := BInt (Doc.Attempts doc)]>
    (<[mongoFieldCreatedAt := BDate (date_of (Doc.CreatedAt doc))]>
    (<[mongoFieldUpdatedAt := BDate (date_of (Doc.UpdatedAt doc))]> ∅))))))) in
  let raw := match Doc.PublishedAt doc with None => raw | Some t => <[f_published_at := BDate (date_of t)]> raw end in
  let raw := set_if (negb (is_empty (Doc.LastError doc))) mongoFieldLastError (BString (Doc.LastError doc)) raw in
  set_if (negb (is_empty tenantField)) tenantField (BString (Doc.TenantID doc)) raw.

Definition stringField (raw : bdoc) (key : text) : result mongo_error text :=
  match raw !! key with Some (BString s) => Ok s | _ => Err ErrDecode end.

Definition optionalStringField (raw : bdoc) (key : text) : result mongo_error text :=
  match raw !! key with None | Some BNull => Ok [] | Some (BString s) => Ok s | _ => Err ErrDecode end.

Definition intField (raw : bdoc) (key : text) : result mongo_error Z :=
  match raw !! key with Some (BInt n) => Ok n | _ => Err ErrDecode end.

Definition timeField (raw : bdoc) (key : text) : result mongo_error gotime :=
  match raw !! key with Some (BDate ms) => Ok (time_of ms) | _ => Err ErrDecode end.

Definition optionalTimeField (raw : bdoc) (key : text) : result mongo_error (option gotime) :=
  match raw !! key with
  | None | Some BNull => Ok None
  | Some (BDate ms) => Ok (Some (time_of ms))
  | _ => Err ErrDecode
  end.

Definition validateDecodedDocument (doc : document) : result mongo_error document :=
  let doc := doc <| Doc.Status := TrimSpace (Doc.Status doc) |> in
  match ParseOutboxEventStatus (Doc.Status doc) with
  | Err e => Err (OutboxErr e)
  | Ok _ =>
    if bool_decide (Doc.Attempts doc < 0) then Err ErrDecode
    else Ok (doc <| Doc.LastError := TrimSpace (Doc.LastError doc) |> <| Doc.TenantID := TrimSpace (Doc.TenantID doc) |>)
  end.

Definition validateClaimDocument (doc : document) : result mongo_error document :=
  let doc := doc <| Doc.ID := TrimSpace (Doc.ID doc) |> in
  if is_empty (Doc.ID doc) then Err ErrDecode
  else
    let doc := doc <| Doc.Status := TrimSpace (Doc.Status doc) |> in
    match ParseOutboxEventStatus (Doc.Status doc) with
    | Err e => Err (OutboxErr e)
    | Ok _ =>
      if bool_decide (Doc.Attempts doc < 0) then Err ErrDecode
      else if time_is_zero (Doc.UpdatedAt doc) then Err ErrDecode
      else Ok (doc <| Doc.LastError := TrimSpace (Doc.LastError doc) |> <| Doc.TenantID := TrimSpace (Doc.TenantID doc) |>)
    end.

Definition tenant_of_bson (raw : bdoc) (tenantField : text) : result mongo_error text :=
  if is_empty tenantField then Ok defaultScopeTenantID else optionalStringField raw tenantField.

Definition documentFromBSON (raw : bdoc) (tenantField : text) : result mongo_error document :=
  id ← stringField raw f_id;
  eventType ← stringField raw f_event_type;
  aggregateID ← stringField raw f_aggregate_id;
  payload ← stringField raw f_payload;
  status ← stringField raw mongoFieldStatus;
  attempts ← intField raw mongoFieldAttempts;
  createdAt ← timeField raw mongoFieldCreatedAt;
  updatedAt ← timeField raw mongoFieldUpdatedAt;
  lastError ← optionalStringField raw mongoFieldLastError;
  publishedAt ← optionalTimeField raw f_published_at;
  tenantID ← tenant_of_bson raw tenantField;
  validateDecodedDocument
    {| Doc.ID := id; Doc.EventType := eventType; Doc.AggregateID := aggregateID; Doc.Payload := payload;
       Doc.Status := status; Doc.Attempts := attempts; Doc.PublishedAt := publishedAt;
       Doc.LastError := TrimSpace lastError; Doc.CreatedAt := createdAt; Doc.UpdatedAt := updatedAt;
       Doc.TenantID := TrimSpace tenantID |}.

Definition claimDocumentFromBSON (raw : bdoc) (tenantField : text) : result mongo_error document :=
  id ← stringField raw f_id;
  status ← stringField raw mongoFieldStatus;
  attempts ← intField raw mongoFieldAttempts;
  updatedAt ← timeField raw mongoFieldUpdatedAt;
  lastError ← optionalStringField raw mongoFieldLastError;
  tenantID ← tenant_of_bson raw tenantField;
  validateClaimDocument
    {| Doc.ID := id; Doc.EventType := []; Doc.AggregateID := []; Doc.Payload := []; Doc.Status := status;
       Doc.Attempts := attempts; Doc.PublishedAt := None; Doc.LastError := TrimSpace lastError;
       Doc.CreatedAt := zero_time; Doc.UpdatedAt := updatedAt; Doc.TenantID := TrimSpace tenantID |}.

(** The driver's own decoding into the tagged struct, used when the tenant field
    has its default name: an absent or null field keeps its zero value. *)
Definition struct_string (raw : bdoc) (key : text) : result mongo_error text := optionalStringField raw key.

Definition struct_int (raw : bdoc) (key : text) : result mongo_error Z :=
  match raw !! key with None | Some BNull => Ok 0 | Some (BInt n) => Ok n | _ => Err ErrDecode end.

Definition struct_time (raw : bdoc) (key : text) : result mongo_error gotime :=
  match raw !! key with None | Some BNull => Ok zero_time | Some (BDate ms) => Ok (time_of ms) | _ => Err ErrDecode end.

Definition struct_decode (raw : bdoc) : result mongo_error document :=
  id ← struct_string raw f_id;
  eventType ← struct_string raw f_event_type;
  aggregateID ← struct_string raw f_aggregate_id;
  payload ← struct_string raw f_payload;
  status ← struct_string raw mongoFieldStatus;
  attempts ← struct_int raw mongoFieldAttempts;
  createdAt ← struct_time raw mongoFieldCreatedAt;
  updatedAt ← struct_time raw mongoFieldUpdatedAt;
  lastError ← struct_string raw mongoFieldLastError;
  publishedAt ← optionalTimeField raw f_published_at;
  tenantID ← struct_string raw defaultTenantField;
  Ok {| Doc.ID := id; Doc.EventType := eventType; Doc.AggregateID := aggregateID; Doc.Payload := payload;
        Doc.Status := status; Doc.Attempts := attempts; Doc.PublishedAt := publishedAt; Doc.LastError := lastError;
        Doc.CreatedAt := createdAt; Doc.UpdatedAt := updatedAt; Doc.TenantID := tenantID |}.

(** One document of [decodeSingle] and [decodeCursor], and of
    [decodeClaimCursor]. *)
Definition decode_document (tenantField : text) (raw : bdoc) : result mongo_error document :=
  if eqt tenantField defaultTenantField
  then doc ← struct_decode raw; validateDecodedDocument doc
  else documentFromBSON raw tenantField.

Definition decode_claim (tenantField : text) (raw : bdoc) : result mongo_error document :=
  if eqt tenantField defaultTenantField
  then doc ← struct_decode raw; validateClaimDocument doc
  else claimDocumentFromBSON raw tenantField.

(** A loop that stops at the first error. *)
Fixpoint traverse {A B} (f : A → result mongo_error B) (l : list A) : result mongo_error (list B) :=
  match l with
  | [] => Ok []
  | x :: l => y ← f x; ys ← traverse f l; Ok (y :: ys)
  end.

Definition decodeCursor (tenantField : text) (raws : list bdoc) : result mongo_error (list document) :=
  traverse (decode_document tenantField) raws.

Definition decodeClaimCursor (tenantField : text) (raws : list bdoc) : result mongo_error (list document) :=
  traverse (decode_claim tenantField) raws.

Definition toOutboxEvent `{MongoPlatform} (doc : document) : result mongo_error OutboxEvent :=
  match uuid_parse (Doc.ID doc) with
  | None => Err ErrDecode
  | Some id =>
    match uuid_parse (Doc.AggregateID doc) with
    | None => Err ErrDecode
    | Some aggregateID =>
      Ok {| ID := id; EventType := Doc.EventType doc; AggregateID := aggregateID; Payload := Doc.Payload doc;
            Status := Doc.Status doc; Attempts := Doc.Attempts doc; PublishedAt := Doc.PublishedAt doc;
            LastError := Doc.LastError doc; CreatedAt := Doc.CreatedAt doc; UpdatedAt := Doc.UpdatedAt doc |}
    end
  end.

Definition docsToEvents `{MongoPlatform} (docs : list document) : result mongo_error (list OutboxEvent) :=
  traverse toOutboxEvent docs.

Definition validateCreateEvent `{MongoPlatform} (event : option OutboxEvent) : result mongo_error OutboxEvent :=
  match event with
  | None => Err (OutboxErr ErrOutboxEventRequired)
  | Some event =>
    if is_nil (ID event) then Err ErrIDRequired
    else if is_empty (TrimSpace (EventType event)) then Err ErrMongoEventTypeRequired
    else if is_nil (AggregateID event) then Err ErrAggregateIDRequired
    else if bool_decide (payload_len (Payload event) = 0) then Err (OutboxErr ErrOutboxEventPayloadRequired)
    else if bool_decide (payload_len (Payload event) > DefaultMaxPayloadBytes)
    then Err (OutboxErr ErrOutboxEventPayloadTooLarge)
    else if negb (json_valid (Payload event)) then Err (OutboxErr ErrOutboxEventPayloadNotJSON)
    else Ok event
  end.

(** [documentFromCreateValues] of [normalizedCreateValues]. *)
Definition normalizedCreateValues `{MongoPlatform} (event : OutboxEvent) (now : gotime) (tenantID : text) : document :=
  let createdAt := if time_is_zero (CreatedAt event) then now else CreatedAt event in
  let updatedAt :=
    if (time_is_zero (UpdatedAt event) || time_before (UpdatedAt event) createdAt)%bool
    then createdAt else UpdatedAt event in
  {| Doc.ID := uuid_string (ID event); Doc.EventType := TrimSpace (EventType event);
     Doc.AggregateID := uuid_string (AggregateID event); Doc.Payload := Payload event;
     Doc.Status := OutboxStatusPending; Doc.Attempts := 0; Doc.PublishedAt := None; Doc.LastError := [];
     Doc.CreatedAt := createdAt; Doc.UpdatedAt := updatedAt; Doc.TenantID := tenantID |}.

(** ** Filters and updates *)

Inductive cond := CEq (v : bval) | CIn (vs : list bval) | CLt (v : bval) | CLte (v : bval) | CNe (v : bval) | CNin (vs : list bval).

Abbreviation mfilter := (@gmap text (@list_eq_dec Z Z.eq_dec) (@list_countable Z Z.eq_dec Z_countable) cond).

(** An absent field compares like null. *)
Definition field (d : bdoc) (k : text) : bval := default BNull (d !! k).

(** [$lt] and [$lte] only match values of the same type. *)
Definition bval_lt (a b : bval) : bool :=
  match a, b with
  | BInt x, BInt y | BDate x, BDate y => bool_decide (x < y)
  | BString x, BString y => negb (lex_le y x)
  | _, _ => false
  end.

Definition cond_holds (c : cond) (v : bval) : bool :=
  match c with
  | CEq w => bool_decide (v = w)
  | CIn ws => bool_decide (v ∈ ws)
  | CLt w => bval_lt v w
  | CLte w => (bval_lt v w || bool_decide (v = w))%bool
  | CNe w => bool_decide (v ≠ w)
  | CNin ws => bool_decide (v ∉ ws)
  end.

Definition matches (f : mfilter) (d : bdoc) : bool :=
  bool_decide (map_Forall (λ k c, cond_holds c (field d k) = true) f).

(** The later maps override. *)
Definition mergeFilters (base : mfilter) (extras : list mfilter) : mfilter := foldl (λ m extra, extra ∪ m) base extras.

Record update := { u_set : bdoc; u_unset : list text }.

Definition apply_update (u : update) (d : bdoc) : bdoc := foldr delete (u_set u ∪ d) (u_unset u).

(** ** Commands *)

Inductive cmd :=
| Resolve                                      (* repo.collection *)
| Find (f : mfilter) (sort : list text) (limit : option Z) (projection : option (list text))
| InsertOne (d : bdoc)
| UpdateOne (f : mfilter) (u : update)
| DeleteMany (f : mfilter)
| Distinct (key : text) (f : mfilter)
| TenantDatabases                              (* tenantDatabaseResolver.ListTenants *)
| Now
| NewUUID.

(** A read or write answers [None] when the driver reports an error; an update
    and a deletion answer how many documents they changed. *)
Definition answer (c : cmd) : Type :=
  match c with
  | Resolve => option mongo_error
  | Find _ _ _ _ => option (list bdoc)
  | InsertOne _ => bool
  | UpdateOne _ _ => option Z
  | DeleteMany _ => option Z
  | Distinct _ _ => option (list bval)
  | TenantDatabases => option (list text)
  | Now => gotime
  | NewUUID => text
  end.

Abbreviation prog := (eff answer).

(** Stop with an error, or go on with the value. *)
Definition or_fail {A B} (r : result mongo_error A) (k : A → prog (result mongo_error B)) : prog (result mongo_error B) :=
  match r with Ok a => k a | Err e => mret (Err e) end.

Definition collection {B} (k : prog (result mongo_error B)) : prog (result mongo_error B) :=
  r ← perform Resolve; match r : option mongo_error with None => k | Some e => mret (Err e) end.

(** ** Repository *)

Record Repository := {
  repo_initialized : bool;
  collectionName : text;
  tenantField : text;
  requireTenant : bool;
  tenantModule : text;
  has_resolver : bool;         (* tenantDatabaseResolver is set *)
}.

#[export] Instance Repository_eta : Eta Repository := λ r,
  {| repo_initialized := repo_initialized r; collectionName := collectionName r; tenantField := tenantField r;
     requireTenant := requireTenant r; tenantModule := tenantModule r; has_resolver := has_resolver r |}.

Definition WithCollectionName (name : text) (r : Repository) : Repository := r <| collectionName := name |>.
Definition WithTenantField (name : text) (r : Repository) : Repository := r <| tenantField := name |>.
Definition WithAllowEmptyTenant (r : Repository) : Repository := r <| requireTenant := false |>.
Definition WithRequireTenant (r : Repository) : Repository := r <| requireTenant := true |>.
Definition WithModule (module : text) (r : Repository) : Repository := r <| tenantModule := module |>.
Definition WithTenantDatabaseResolver (resolver : bool) (r : Repository) : Repository :=
  if resolver then r <| has_resolver := true |> else r.

(** [^[a-zA-Z_][a-zA-Z0-9_]*$] *)
Definition letter (c : Z) : bool :=
  (bool_decide (97 ≤ c ≤ 122) || bool_decide (65 ≤ c ≤ 90) || bool_decide (c = 95))%bool.

Definition identifierPattern (s : text) : bool :=
  match s with
  | [] => false
  | c :: rest => (letter c && forallb (λ c, letter c || bool_decide (48 ≤ c ≤ 57)) rest)%bool
  end.

(** [indexes] is the outcome of [ensureIndexes]. *)
Definition NewRepositoryWithContext (client : bool) (opts : list (Repository → Repository)) (indexes : bool) :
    result mongo_error Repository :=
  if negb client then Err ErrConnectionRequired
  else
    let repo := foldl (λ r opt, opt r)
      {| repo_initialized := true; collectionName := txt "outbox_events"; tenantField := defaultTenantField;
         requireTenant := true; tenantModule := []; has_resolver := false |} opts in
    let repo := repo <| collectionName := TrimSpace (collectionName repo) |>
                     <| tenantField := TrimSpace (tenantField repo) |>
                     <| tenantModule := TrimSpace (tenantModule repo) |> in
    if is_empty (collectionName repo) then Err ErrCollectionRequired
    else if negb (identifierPattern (collectionName repo)) then Err ErrInvalidIdentifier
    else if (negb (is_empty (tenantField repo)) && negb (identifierPattern (tenantField repo)))%bool
    then Err ErrInvalidIdentifier
    else
      let repo := if is_empty (tenantField repo) then repo <| requireTenant := false |> else repo in
      if negb indexes then Err ErrDriver else Ok repo.

Definition RequiresTenant (repo : Repository) : bool := requireTenant repo.

Definition tenantIDFromContext (repo : Repository) (ctx : Ctx) : result mongo_error text :=
  let tenant := TenantIDFromContext ctx in
  let tenantID := default [] tenant in
  if (requireTenant repo && (bool_decide (tenant = None) || is_empty tenantID))%bool
  then Err (OutboxErr ErrTenantIDRequired)
  else match tenant with
  | None => Ok defaultScopeTenantID
  | Some tenantID =>
    let tenantID := TrimSpace tenantID in
    if is_empty tenantID then Err (OutboxErr ErrTenantIDRequired)
    else if negb (IsValidTenantID tenantID) then Err (OutboxErr ErrInvalidTenantID)
    else Ok tenantID
  end.

Definition tenantMatchFilter (repo : Repository) (tenantID : text) : mfilter :=
  if is_empty (tenantField repo) then ∅ else {[ tenantField repo := CEq (BString tenantID) ]}.

Section repository.
Context `{MongoPlatform} (repo : Repository).

Definition idTenantFilter (id : uuid) (tenantID : text) : mfilter :=
  tenantMatchFilter repo tenantID ∪ {[ f_id := CEq (BString (uuid_string id)) ]}.

Definition created_order : list text := [mongoFieldCreatedAt; f_id].
Definition updated_order : list text := [mongoFieldUpdatedAt; f_id].

(** *** Creating *)

Definition Create (ctx : Ctx) (event : option OutboxEvent) : prog (result mongo_error OutboxEvent) :=
  if negb (repo_initialized repo) then mret (Err ErrRepositoryNotInitialized)
  else
    or_fail (validateCreateEvent event) (λ event,
    or_fail (tenantIDFromContext repo ctx) (λ tenantID,
      now ← perform Now;
      let doc := normalizedCreateValues event now tenantID in
      collection (
        inserted ← perform (InsertOne (toBSON doc (tenantField repo)));
        if negb inserted then mret (Err ErrDriver) else mret (toOutboxEvent doc)))).

(** [tx] is whether a transaction is given. *)
Definition CreateWithTx (ctx : Ctx) (tx : bool) (event : option OutboxEvent) : prog (result mongo_error OutboxEvent) :=
  if tx then mret (Err ErrTransactionUnsupported) else Create ctx event.

(** *** Claiming *)

Definition findClaimCandidates (ctx : Ctx) (filter : mfilter) (sortSpec : list text) (limit : Z) :
    prog (result mongo_error (list document)) :=
  or_fail (tenantIDFromContext repo ctx) (λ tenantID,
    collection (
      let filter := mergeFilters filter [tenantMatchFilter repo tenantID] in
      let projection :=
        [f_id; mongoFieldStatus; mongoFieldAttempts; mongoFieldUpdatedAt; mongoFieldLastError]
        ++ (if is_empty (tenantField repo) then [] else [tenantField repo]) in
      raws ← perform (Find filter sortSpec (Some limit) (Some projection));
      match raws with
      | None => mret (Err ErrDriver)
      | Some raws => mret (decodeClaimCursor (tenantField repo) raws)
      end)).

Definition findCandidates (ctx : Ctx) (filter : mfilter) (sortSpec : list text) (limit : Z) :
    prog (result mongo_error (list document)) :=
  or_fail (tenantIDFromContext repo ctx) (λ tenantID,
    collection (
      let filter := mergeFilters filter [tenantMatchFilter repo tenantID] in
      raws ← perform (Find filter sortSpec (Some limit) None);
      match raws with
      | None => mret (Err ErrDriver)
      | Some raws => mret (decodeCursor (tenantField repo) raws)
      end)).

(** An unordered bulk write: the others go on when one fails, and the whole
    reports an error. *)
Fixpoint bulk_writes (models : list (mfilter * update)) (modified : Z) (failed : bool) : prog (option Z) :=
  match models with
  | [] => mret (if failed then None else Some modified)
  | (f, u) :: models =>
    r ← perform (UpdateOne f u);
    match r : option Z with
    | None => bulk_writes models modified true
    | Some n => bulk_writes models (modified + n) failed
    end
  end.

Definition BulkWrite (models : list (mfilter * update)) : prog (option Z) := bulk_writes models 0 false.

(** The filter and the update of one claim. *)
Definition claim_filter (candidate : document) (fromStatus : text) : mfilter :=
  mergeFilters {[ f_id := CEq (BString (Doc.ID candidate)) ]}
    [tenantMatchFilter repo (Doc.TenantID candidate);
     <[mongoFieldStatus := CEq (BString fromStatus)]> (<[mongoFieldAttempts := CEq (BInt (Doc.Attempts candidate))]>
     {[ mongoFieldUpdatedAt := CEq (BDate (date_of (Doc.UpdatedAt candidate))) ]})].

Fixpoint claim_models (candidates : list document) (fromStatus claimToken : text) (setForCandidate : document → prog bdoc) :
    prog (list (mfilter * update)) :=
  match candidates with
  | [] => mret []
  | candidate :: candidates =>
    set ← setForCandidate candidate;
    rest ← claim_models candidates fromStatus claimToken setForCandidate;
    mret ((claim_filter candidate fromStatus,
           {| u_set := <[mongoFieldClaimToken := BString claimToken]> set; u_unset := [] |}) :: rest)
  end.

(** The claimed documents, the number of candidates (or 0 when nothing was
    modified) and the token. *)
Definition claimDocuments (candidates : list document) (fromStatus : text) (sortSpec : list text)
    (setForCandidate : document → prog bdoc) : prog (result mongo_error (list document * Z * text)) :=
  match candidates with
  | [] => mret (Ok ([], 0, []))
  | first :: _ =>
    collection (
      claimToken ← perform NewUUID;
      models ← claim_models candidates fromStatus claimToken setForCandidate;
      result ← BulkWrite models;
      match result with
      | None => mret (Err ErrDriver)
      | Some modified =>
        if bool_decide (modified = 0) then mret (Ok ([], 0, claimToken))
        else
          let claimedIDs := Doc.ID <$> candidates in
          let claimedFilter := mergeFilters
            (<[mongoFieldClaimToken := CEq (BString claimToken)]> {[ f_id := CIn (BString <$> claimedIDs) ]})
            [tenantMatchFilter repo (Doc.TenantID first)] in
          raws ← perform (Find claimedFilter sortSpec None None);
          match raws with
          | None => mret (Err ErrDriver)
          | Some raws =>
            mret (claimed ← decodeCursor (tenantField repo) raws;
                  Ok (claimed, Z.of_nat (length claimedIDs), claimToken))
          end
      end)
  end.

Definition rollback_filter (candidate : document) (returnStatus claimToken : text) : mfilter :=
  mergeFilters (<[f_id := CEq (BString (Doc.ID candidate))]> (<[mongoFieldStatus := CEq (BString returnStatus)]>
    {[ mongoFieldClaimToken := CEq (BString claimToken) ]})) [tenantMatchFilter repo (Doc.TenantID candidate)].

Fixpoint rollback_models (candidates : list document) (claimedIDs : list text) (claimToken returnStatus fromStatus : text) :
    prog (list (mfilter * update)) :=
  match candidates with
  | [] => mret []
  | candidate :: candidates =>
    if bool_decide (Doc.ID candidate ∈ claimedIDs)
    then rollback_models candidates claimedIDs claimToken returnStatus fromStatus
    else
      now ← perform Now;
      rest ← rollback_models candidates claimedIDs claimToken returnStatus fromStatus;
      mret ((rollback_filter candidate returnStatus claimToken,
             {| u_set := <[mongoFieldStatus := BString fromStatus]> {[ mongoFieldUpdatedAt := BDate (date_of now) ]};
                u_unset := [mongoFieldClaimToken] |}) :: rest)
  end.

Definition rollbackMissingClaims (candidates claimed : list document) (claimToken returnStatus fromStatus : text) :
    prog (result mongo_error unit) :=
  if is_empty claimToken then mret (Ok tt)
  else
    models ← rollback_models candidates (Doc.ID <$> claimed) claimToken returnStatus fromStatus;
    match models with
    | [] => mret (Ok tt)
    | _ =>
      collection (
        r ← BulkWrite models;
        match r with None => mret (Err ErrDriver) | Some _ => mret (Ok tt) end)
    end.

Fixpoint claim_loop (attempts : nat) (ctx : Ctx) (filter : mfilter) (sortSpec : list text) (limit : Z)
    (fromStatus returnStatus : text) (setForCandidate : document → prog bdoc) (claimed : list document) :
    prog (result mongo_error (list document)) :=
  match attempts with
  | O => mret (Ok claimed)
  | S attempts =>
    if bool_decide (limit ≤ Z.of_nat (length claimed)) then mret (Ok claimed)
    else
      let remaining := limit - Z.of_nat (length claimed) in
      r ← findClaimCandidates ctx filter sortSpec remaining;
      or_fail r (λ candidates,
        match candidates with
        | [] => mret (Ok claimed)
        | _ =>
          r ← claimDocuments candidates fromStatus sortSpec setForCandidate;
          or_fail r (λ '(batch, modified, claimToken),
            let claimed := claimed ++ batch in
            if negb (bool_decide (modified = Z.of_nat (length batch)))
            then
              r ← rollbackMissingClaims candidates batch claimToken returnStatus fromStatus;
              or_fail r (λ _, claim_loop attempts ctx filter sortSpec limit fromStatus returnStatus setForCandidate claimed)
            else if eqt fromStatus returnStatus then mret (Ok claimed)
            else if (bool_decide (length batch = 0%nat) && bool_decide (Z.of_nat (length candidates) < remaining))%bool then mret (Ok claimed)
            else claim_loop attempts ctx filter sortSpec limit fromStatus returnStatus setForCandidate claimed)
        end)
  end.

Definition claimMatching (ctx : Ctx) (filter : mfilter) (sortSpec : list text) (limit : Z)
    (fromStatus returnStatus : text) (setForCandidate : document → prog bdoc) : prog (result mongo_error (list document)) :=
  claim_loop maxListScanMultiplier ctx filter sortSpec limit fromStatus returnStatus setForCandidate [].

(** The update of a plain claim. *)
Definition set_processing (_ : document) : prog bdoc :=
  now ← perform Now;
  mret (<[mongoFieldStatus := BString OutboxStatusProcessing]> {[ mongoFieldUpdatedAt := BDate (date_of now) ]}).

Definition claimPending (ctx : Ctx) (limit : Z) (eventType : text) : prog (result mongo_error (list OutboxEvent)) :=
  if negb (repo_initialized repo) then mret (Err ErrRepositoryNotInitialized)
  else if bool_decide (limit ≤ 0) then mret (Err ErrLimitMustBePositive)
  else
    let filter : mfilter := {[ mongoFieldStatus := CEq (BString OutboxStatusPending) ]} in
    let filter := if is_empty eventType then filter else <[f_event_type := CEq (BString eventType)]> filter in
    r ← claimMatching ctx filter created_order limit OutboxStatusPending OutboxStatusProcessing set_processing;
    or_fail r (λ claimed, mret (docsToEvents claimed)).

Definition ListPending (ctx : Ctx) (limit : Z) : prog (result mongo_error (list OutboxEvent)) :=
  claimPending ctx limit [].

Definition ListPendingByType (ctx : Ctx) (eventType : text) (limit : Z) : prog (result mongo_error (list OutboxEvent)) :=
  if negb (repo_initialized repo) then mret (Err ErrRepositoryNotInitialized)
  else if bool_decide (limit ≤ 0) then mret (Err ErrLimitMustBePositive)
  else
    let eventType := TrimSpace eventType in
    if is_empty eventType then mret (Err ErrMongoEventTypeRequired) else claimPending ctx limit eventType.

Definition failed_filter (failedBefore : gotime) (maxAttempts : Z) : mfilter :=
  <[mongoFieldStatus := CEq (BString OutboxStatusFailed)]> (<[mongoFieldAttempts := CLt (BInt maxAttempts)]>
  {[ mongoFieldUpdatedAt := CLte (BDate (date_of failedBefore)) ]}).

Definition ListFailedForRetry (ctx : Ctx) (limit : Z) (failedBefore : gotime) (maxAttempts : Z) :
    prog (result mongo_error (list OutboxEvent)) :=
  if negb (repo_initialized repo) then mret (Err ErrRepositoryNotInitialized)
  else if bool_decide (limit ≤ 0) then mret (Err ErrLimitMustBePositive)
  else if bool_decide (maxAttempts ≤ 0) then mret (Err ErrMaxAttemptsMustBePositive)
  else
    r ← findCandidates ctx (failed_filter failedBefore maxAttempts) updated_order limit;
    or_fail r (λ docs, mret (docsToEvents docs)).

Definition ResetForRetry (ctx : Ctx) (limit : Z) (failedBefore : gotime) (maxAttempts : Z) :
    prog (result mongo_error (list OutboxEvent)) :=
  if negb (repo_initialized repo) then mret (Err ErrRepositoryNotInitialized)
  else if bool_decide (limit ≤ 0) then mret (Err ErrLimitMustBePositive)
  else if bool_decide (maxAttempts ≤ 0) then mret (Err ErrMaxAttemptsMustBePositive)
  else
    r ← claimMatching ctx (failed_filter failedBefore maxAttempts) updated_order limit
          OutboxStatusFailed OutboxStatusProcessing set_processing;
    or_fail r (λ claimed, mret (docsToEvents claimed)).

(** The update of a stuck event: the attempt is charged, and an event without
    budget becomes INVALID. *)
Definition set_stuck (maxAttempts : Z) (candidate : document) : prog bdoc :=
  let nextAttempts := Doc.Attempts candidate + 1 in
  let exhausted := bool_decide (maxAttempts ≤ nextAttempts) in
  let nextStatus := if exhausted then OutboxStatusInvalid else OutboxStatusProcessing in
  let nextLastError :=
    if exhausted then AppendErrorCause (Doc.LastError candidate) StuckInProcessingCause else Doc.LastError candidate in
  now ← perform Now;
  mret (<[mongoFieldStatus := BString nextStatus]> (<[mongoFieldAttempts := BInt nextAttempts]>
        (<[mongoFieldLastError := BString nextLastError]> {[ mongoFieldUpdatedAt := BDate (date_of now) ]}))).

Definition ReclaimStuckProcessing (ctx : Ctx) (limit : Z) (processingBefore : gotime) (maxAttempts : Z) :
    prog (result mongo_error (list OutboxEvent * list OutboxEvent)) :=
  if negb (repo_initialized repo) then mret (Err ErrRepositoryNotInitialized)
  else if bool_decide (limit ≤ 0) then mret (Err ErrLimitMustBePositive)
  else if bool_decide (maxAttempts ≤ 0) then mret (Err ErrMaxAttemptsMustBePositive)
  else
    let filter := <[mongoFieldStatus := CEq (BString OutboxStatusProcessing)]>
      {[ mongoFieldUpdatedAt := CLte (BDate (date_of processingBefore)) ]} in
    r ← claimMatching ctx filter updated_order limit OutboxStatusProcessing OutboxStatusProcessing (set_stuck maxAttempts);
    or_fail r (λ claimed,
      mret (events ← docsToEvents claimed;
            Ok (List.filter (λ e, negb (Status e =t OutboxStatusInvalid)) events,
                List.filter (λ e, Status e =t OutboxStatusInvalid) events))).

Definition ResetStuckProcessing (ctx : Ctx) (limit : Z) (processingBefore : gotime) (maxAttempts : Z) :
    prog (result mongo_error (list OutboxEvent)) :=
  r ← ReclaimStuckProcessing ctx limit processingBefore maxAttempts;
  mret (match r with Ok (retry, _) => Ok retry | Err e => Err e end).

(** *** Marking *)

(** [ModifiedCount] of an update that must hit a document. *)
Definition ensure_modified (r : option Z) : result mongo_error unit :=
  match r with
  | None => Err ErrDriver
  | Some n => if bool_decide (n = 0) then Err ErrStateTransitionConflict else Ok tt
  end.

Definition MarkPublished (ctx : Ctx) (id : uuid) (publishedAt : gotime) : prog (result mongo_error unit) :=
  if negb (repo_initialized repo) then mret (Err ErrRepositoryNotInitialized)
  else or_fail (lift_outbox (ValidateOutboxTransition OutboxStatusProcessing OutboxStatusPublished)) (λ _,
    if is_nil id then mret (Err ErrIDRequired)
    else or_fail (tenantIDFromContext repo ctx) (λ tenantID,
      collection (
        now ← perform Now;
        r ← perform (UpdateOne
          (mergeFilters (idTenantFilter id tenantID) [{[ mongoFieldStatus := CEq (BString OutboxStatusProcessing) ]}])
          {| u_set := <[mongoFieldStatus := BString OutboxStatusPublished]>
                      (<[f_published_at := BDate (date_of publishedAt)]> {[ mongoFieldUpdatedAt := BDate (date_of now) ]});
             u_unset := [mongoFieldClaimToken] |});
        mret (ensure_modified r)))).

Definition decodeSingle (filter : mfilter) : prog (result mongo_error document) :=
  raws ← perform (Find filter [] (Some 1) None);
  match raws with
  | None => mret (Err ErrDriver)
  | Some [] => mret (Err ErrNoDocuments)
  | Some (raw :: _) => mret (decode_document (tenantField repo) raw)
  end.

Definition getByIDAndStatus (ctx : Ctx) (id : uuid) (status : text) : prog (result mongo_error document) :=
  or_fail (tenantIDFromContext repo ctx) (λ tenantID,
    collection (decodeSingle (mergeFilters (idTenantFilter id tenantID) [{[ mongoFieldStatus := CEq (BString status) ]}]))).

Definition MarkFailed (ctx : Ctx) (id : uuid) (errMsg : text) (maxAttempts : Z) : prog (result mongo_error unit) :=
  if negb (repo_initialized repo) then mret (Err ErrRepositoryNotInitialized)
  else or_fail (lift_outbox (ValidateOutboxTransition OutboxStatusProcessing OutboxStatusFailed)) (λ _,
    or_fail (lift_outbox (ValidateOutboxTransition OutboxStatusProcessing OutboxStatusInvalid)) (λ _,
    if is_nil id then mret (Err ErrIDRequired)
    else if bool_decide (maxAttempts ≤ 0) then mret (Err ErrMaxAttemptsMustBePositive)
    else
      let errMsg := SanitizeErrorMessageForStorage redact errMsg in
      r ← getByIDAndStatus ctx id OutboxStatusProcessing;
      match r with
      | Err e => mret (Err (if bool_decide (e = ErrNoDocuments) then ErrStateTransitionConflict else e))
      | Ok updatedDoc =>
        let nextAttempts := Doc.Attempts updatedDoc + 1 in
        let nextLastError := AppendErrorCause (Doc.LastError updatedDoc) errMsg in
        let nextStatus := if bool_decide (maxAttempts ≤ nextAttempts) then OutboxStatusInvalid else OutboxStatusFailed in
        collection (
          now ← perform Now;
          r ← perform (UpdateOne
            (mergeFilters (idTenantFilter id (Doc.TenantID updatedDoc))
              [<[mongoFieldStatus := CEq (BString OutboxStatusProcessing)]>
               {[ mongoFieldAttempts := CEq (BInt (Doc.Attempts updatedDoc)) ]}])
            {| u_set := <[mongoFieldStatus := BString nextStatus]> (<[mongoFieldAttempts := BInt nextAttempts]>
                        (<[mongoFieldLastError := BString nextLastError]> {[ mongoFieldUpdatedAt := BDate (date_of now) ]}));
               u_unset := [mongoFieldClaimToken] |});
          mret (ensure_modified r))
      end)).

Definition MarkInvalid (ctx : Ctx) (id : uuid) (errMsg : text) : prog (result mongo_error unit) :=
  if negb (repo_initialized repo) then mret (Err ErrRepositoryNotInitialized)
  else or_fail (lift_outbox (ValidateOutboxTransition OutboxStatusProcessing OutboxStatusInvalid)) (λ _,
    if is_nil id then mret (Err ErrIDRequired)
    else
      let errMsg := SanitizeErrorMessageForStorage redact errMsg in
      or_fail (tenantIDFromContext repo ctx) (λ tenantID,
        collection (
          now ← perform Now;
          r ← perform (UpdateOne
            (mergeFilters (idTenantFilter id tenantID) [{[ mongoFieldStatus := CEq (BString OutboxStatusProcessing) ]}])
            {| u_set := <[mongoFieldStatus := BString OutboxStatusInvalid]>
                        (<[mongoFieldLastError := BString errMsg]> {[ mongoFieldUpdatedAt := BDate (date_of now) ]});
               u_unset := [mongoFieldClaimToken] |});
          mret (ensure_modified r)))).

(** *** Reading *)

Definition GetByID (ctx : Ctx) (id : uuid) : prog (result mongo_error OutboxEvent) :=
  if negb (repo_initialized repo) then mret (Err ErrRepositoryNotInitialized)
  else if is_nil id then mret (Err ErrIDRequired)
  else or_fail (tenantIDFromContext repo ctx) (λ tenantID,
    collection (
      r ← decodeSingle (idTenantFilter id tenantID);
      or_fail r (λ doc, mret (toOutboxEvent doc)))).

(** Trimmed, not empty, valid, without repetitions, sorted. *)
Fixpoint normalize_loop (raw : list text) (tenants : list text) : result mongo_error (list text) :=
  match raw with
  | [] => Ok tenants
  | candidate :: raw =>
    let tenantID := TrimSpace candidate in
    if is_empty tenantID then normalize_loop raw tenants
    else if negb (IsValidTenantID tenantID) then Err (OutboxErr ErrInvalidTenantID)
    else if bool_decide (tenantID ∈ tenants) then normalize_loop raw tenants
    else normalize_loop raw (tenants ++ [tenantID])
  end.

Definition normalizeTenantIDs (raw : list text) : result mongo_error (list text) :=
  tenants ← normalize_loop raw [];
  Ok (merge_sort (λ a b, Is_true (lex_le a b)) tenants).

Definition distinctTenants (filter : mfilter) : prog (result mongo_error (list text)) :=
  r ← perform (Distinct (tenantField repo)
        (mergeFilters filter [{[ tenantField repo := CNe (BString defaultScopeTenantID) ]}]));
  match r with
  | None => mret (Err ErrDriver)
  | Some values => mret (normalizeTenantIDs (omap (λ v, match v with BString s => Some s | _ => None end) values))
  end.

Definition ListTenants (ctx : Ctx) : prog (result mongo_error (list text)) :=
  if negb (repo_initialized repo) then mret (Err ErrRepositoryNotInitialized)
  else if is_empty (tenantField repo) then mret (Ok [])
  else if has_resolver repo then
    r ← perform TenantDatabases;
    match r with None => mret (Err ErrDriver) | Some tenants => mret (normalizeTenantIDs tenants) end
  else
    collection (distinctTenants
      {[ mongoFieldStatus := CIn [BString OutboxStatusPending; BString OutboxStatusFailed; BString OutboxStatusProcessing] ]}).

(** *** Retention *)

Definition publishedBeforeFilter (before : gotime) (keepEventTypes : list text) : mfilter :=
  let filter : mfilter := <[mongoFieldStatus := CEq (BString OutboxStatusPublished)]>
    {[ mongoFieldUpdatedAt := CLt (BDate (date_of before)) ]} in
  let keep := List.filter (λ t, negb (is_empty t)) (TrimSpace <$> keepEventTypes) in
  match keep with [] => filter | _ => <[f_event_type := CNin (BString <$> keep)]> filter end.

Definition deletePublishedBefore (ctx : Ctx) (before : gotime) (keepEventTypes : list text) (limit : Z) :
    prog (result mongo_error Z) :=
  or_fail (tenantIDFromContext repo ctx) (λ tenantID,
    collection (
      let filter := mergeFilters (publishedBeforeFilter before keepEventTypes) [tenantMatchFilter repo tenantID] in
      raws ← perform (Find filter updated_order (Some limit) (Some [f_id]));
      match raws with
      | None => mret (Err ErrDriver)
      | Some raws =>
        or_fail (traverse (λ raw, struct_string raw f_id) raws) (λ ids,
          match ids with
          | [] => mret (Ok 0)
          | _ =>
            r ← perform (DeleteMany (mergeFilters filter [{[ f_id := CIn (BString <$> ids) ]}]));
            match r with None => mret (Err ErrDriver) | Some n => mret (Ok n) end
          end)
      end)).

Definition DeletePublishedBefore (ctx : Ctx) (before : gotime) (keepEventTypes : list text) (limit : Z) :
    prog (result mongo_error Z) :=
  if negb (repo_initialized repo) then mret (Err ErrRepositoryNotInitialized)
  else if bool_decide (limit ≤ 0) then mret (Ok 0)
  else deletePublishedBefore ctx before keepEventTypes limit.

Definition ListTenantsWithPublishedBefore (ctx : Ctx) (before : gotime) (keepEventTypes : list text) :
    prog (result mongo_error (list text)) :=
  if negb (repo_initialized repo) then mret (Err ErrRepositoryNotInitialized)
  else if (is_empty (tenantField repo) || has_resolver repo)%bool then mret (Ok [])
  else collection (distinctTenants (publishedBeforeFilter before keepEventTypes)).
End repository.

(** ** The server *)

Inductive fault := Replied | Refused | ReplyLost.

(** What everything but the collection's state answers. *)
Record choice := {
  ch_resolve : option mongo_error;
  ch_fault : fault;
  ch_now : gotime;
  ch_uuid : text;
  ch_tenants : option (list text);
}.

(** The order of the types, and of the values of one type. *)
Definition bval_key (v : bval) : list Z :=
  match v with BNull => [0] | BInt n => [1; n] | BString s => 2 :: s | BDate ms => [4; ms] | BOther => [5] end.

(** The sort keys used end with a string, so that their concatenation sorts like
    their sequence. *)
Definition sort_key (sort : list text) (d : bdoc) : list Z := sort ≫= λ k, bval_key (field d k).

Definition mongo_order (sort : list text) : relation bdoc := λ a b, Is_true (lex_le (sort_key sort a) (sort_key sort b)).

#[export] Instance mongo_order_dec sort : RelDecision (mongo_order sort).
Proof. intros a b. unfold mongo_order. apply _. Defined.

Definition project (projection : option (list text)) (d : bdoc) : bdoc :=
  match projection with None => d | Some ks => base.filter (λ kv, kv.1 ∈ ks) d end.

Definition select_docs (f : mfilter) (sort : list text) (limit : option Z) (coll : list bdoc) : list bdoc :=
  let docs := merge_sort (mongo_order sort) (List.filter (matches f) coll) in
  match limit with None => docs | Some n => take (Z.to_nat n) docs end.

(** The first document that matches is updated. *)
Fixpoint update_first (f : mfilter) (u : update) (coll : list bdoc) : Z * list bdoc :=
  match coll with
  | [] => (0, [])
  | d :: coll =>
    if matches f d
    then let d' := apply_update u d in ((if bool_decide (d' = d) then 0 else 1), d' :: coll)
    else let '(n, coll') := update_first f u coll in (n, d :: coll')
  end.

(** The unique index: the tenant field, if any, and the identifier. *)
Definition doc_key (repo : Repository) (d : bdoc) : bval * bval :=
  (if is_empty (tenantField repo) then BNull else field d (tenantField repo), field d f_id).

Definition exec (repo : Repository) (l : choice) (c : cmd) (coll : list bdoc) : answer c * list bdoc :=
  match c return answer c * list bdoc with
  | Resolve => (ch_resolve l, coll)
  | Find f sort limit projection =>
    (match ch_fault l with Replied => Some (project projection <$> select_docs f sort limit coll) | _ => None end, coll)
  | InsertOne d =>
    let duplicate := bool_decide (doc_key repo d ∈ (doc_key repo <$> coll)) in
    match ch_fault l with
    | Refused => (false, coll)
    | Replied => if duplicate then (false, coll) else (true, coll ++ [d])
    | ReplyLost => if duplicate then (false, coll) else (false, coll ++ [d])
    end
  | UpdateOne f u =>
    let '(n, coll') := update_first f u coll in
    match ch_fault l with Refused => (None, coll) | Replied => (Some n, coll') | ReplyLost => (None, coll') end
  | DeleteMany f =>
    let kept := List.filter (λ d, negb (matches f d)) coll in
    let n := Z.of_nat (length (List.filter (matches f) coll)) in
    match ch_fault l with Refused => (None, coll) | Replied => (Some n, kept) | ReplyLost => (None, kept) end
  | Distinct key f =>
    (match ch_fault l with
     | Replied => Some (remove_dups (omap (λ d : bdoc, d !! key) (List.filter (matches f) coll)))
     | _ => None
     end, coll)
  | TenantDatabases => (ch_tenants l, coll)
  | Now => (ch_now l, coll)
  | NewUUID => (ch_uuid l, coll)
  end.
