(* ===== verification/OutboxMongoLifecycle.v ===== *)
(** The documents of the MongoDB outbox under any interleaving of calls.

    [doc_step] is the abstract life cycle of one document, [coll_step] of the
    collection.  Every command a call sends is shown to be a step, whatever the
    other callers did since the call last read: the filters of the updates carry
    all the conditions the step needs. *)

From stdpp Require Import base numbers list gmap strings sorting.
From S2P Require Import Prelude GoText Effects OutboxLastError OutboxEvent OutboxMongo.

Local Open Scope Z_scope.
Local Open Scope go_scope.

(** ** Fields *)

(** The names the repository uses itself: a tenant field must not be one. *)
Definition reserved : list text :=
  [f_id; f_event_type; f_aggregate_id; f_payload; f_published_at; mongoFieldStatus; mongoFieldAttempts;
   mongoFieldCreatedAt; mongoFieldUpdatedAt; mongoFieldClaimToken; mongoFieldLastError].

(** The fields that never change. *)
Definition identity (repo : Repository) : list text :=
  [f_id; f_event_type; f_aggregate_id; f_payload; mongoFieldCreatedAt]
  ++ (if is_empty (tenantField repo) then [] else [tenantField repo]).

Lemma apply_lookup u d k :
  apply_update u d !! k = if bool_decide (k ∈ u_unset u) then None else (u_set u ∪ d) !! k.
Proof.
  unfold apply_update. induction (u_unset u) as [|x l IH]; cbn [foldr]; [by rewrite bool_decide_false by set_solver|].
  destruct (decide (x = k)) as [->|Hne].
  - rewrite lookup_delete_eq, bool_decide_true by set_solver. done.
  - rewrite lookup_delete_ne, IH by done. repeat case_bool_decide; try done; set_solver.
Qed.

Lemma apply_field u d k :
  field (apply_update u d) k =
  if bool_decide (k ∈ u_unset u) then BNull else match u_set u !! k with Some v => v | None => field d k end.
Proof.
  unfold field. rewrite apply_lookup. case_bool_decide; [done|]. rewrite lookup_union. by destruct (u_set u !! k), (d !! k).
Qed.

Lemma matches_field f d k c : matches f d = true → f !! k = Some c → cond_holds c (field d k) = true.
Proof. unfold matches. intros Hm%bool_decide_eq_true Hk. exact (Hm k c Hk). Qed.

Lemma matches_eq f d k v : matches f d = true → f !! k = Some (CEq v) → field d k = v.
Proof. intros Hm Hk. apply (matches_field f d k) in Hk; [|done]. simpl in Hk. by bool_to_prop. Qed.

Lemma select_elem f sort limit coll d : d ∈ select_docs f sort limit coll → d ∈ coll ∧ matches f d = true.
Proof.
  unfold select_docs. intros Hin.
  assert (d ∈ merge_sort (mongo_order sort) (List.filter (matches f) coll)) as Hin'.
  { destruct limit; [|done]. by eapply elem_of_sublist; [|apply sublist_take]. }
  rewrite merge_sort_Permutation in Hin'. apply elem_of_filter_bool in Hin'. tauto.
Qed.

(** ** The life cycle *)

(** The lookups of a map built from the fields above. *)
Ltac field_ne := let E := fresh in intros E; vm_compute in E; discriminate E.
Ltac lookups :=
  repeat first [rewrite lookup_insert_eq | rewrite lookup_insert_ne by field_ne | rewrite lookup_singleton_eq
               | rewrite lookup_singleton_ne by field_ne ].

(** A name in, or not in, a list of names. *)
Ltac solve_name := refine (bool_decide_unpack _ _); vm_compute; done.

(** The fields of an updated document. *)
Ltac fields :=
  rewrite ?apply_field; cbn [u_set u_unset];
  repeat match goal with
  | |- context [bool_decide (?x ∈ ?l)] =>
    let b := eval vm_compute in (bool_decide (x ∈ l)) in change (bool_decide (x ∈ l)) with b; cbv iota
  end; lookups.

Section lifecycle.
Context `{MongoPlatform} (m : Z) (repo : Repository) (kind : text → option phase).
Context (Hbudget : 0 < m) (Hsane : tenantField repo ∉ reserved).

(** Bounds of the attempts in each phase; [m] is the budget. *)
Definition phase_attempts (p : phase) (a : Z) : Prop :=
  match p with
  | Pending => a = 0
  | Processing => 0 ≤ a < m
  | Failed => 1 ≤ a < m
  | Published => 0 ≤ a < m
  | Invalid => 0 ≤ a ≤ m
  end.

Definition in_phase (d : bdoc) (p : phase) (a : Z) : Prop :=
  field d mongoFieldStatus = BString (phase_text p) ∧ field d mongoFieldAttempts = BInt a.

(** One event: the phases and attempts before and after. *)
Inductive attempt_step : phase → Z → phase → Z → Prop :=
| as_claim a : attempt_step Pending a Processing a
| as_retry a : a < m → attempt_step Failed a Processing a
| as_reclaim a : a + 1 < m → attempt_step Processing a Processing (a + 1)
| as_stuck a : m ≤ a + 1 → attempt_step Processing a Invalid (a + 1)
| as_publish a : attempt_step Processing a Published a
| as_fail a : a + 1 < m → attempt_step Processing a Failed (a + 1)
| as_exhaust a : m ≤ a + 1 → attempt_step Processing a Invalid (a + 1)
| as_invalidate a : attempt_step Processing a Invalid a
| as_release p a : p = Pending ∨ p = Failed ∨ p = Processing → attempt_step Processing a p a.

Definition doc_step (d d' : bdoc) : Prop :=
  (∃ p a p' a', in_phase d p a ∧ in_phase d' p' a' ∧ attempt_step p a p' a') ∧
  ∀ k, k ∈ identity repo → field d' k = field d k.

(** A document: its phase, and what its claim token says about it, where
    [kind] is the phase a token's call claims from. *)
Record doc_ok (d : bdoc) : Prop := {
  ok_id : ∃ u, field d f_id = BString (uuid_string u);
  ok_phase : ∃ p a, in_phase d p a ∧ phase_attempts p a;
  ok_token T : field d mongoFieldClaimToken = BString T →
    match kind T with
    | Some Pending => in_phase d Processing 0
    | Some Failed => ∃ a, in_phase d Processing a ∧ 1 ≤ a < m
    | _ => True
    end;
}.

Definition fresh_doc (d : bdoc) : Prop :=
  (∃ u, field d f_id = BString (uuid_string u)) ∧ in_phase d Pending 0 ∧ field d mongoFieldClaimToken = BNull.

(** The collection: one document steps, a fresh one is added, or published ones
    are removed. *)
Inductive coll_step (coll : list bdoc) : list bdoc → Prop :=
| cs_same : coll_step coll coll
| cs_update l1 d d' l2 : coll = l1 ++ d :: l2 → doc_step d d' → coll_step coll (l1 ++ d' :: l2)
| cs_insert d : fresh_doc d → doc_key repo d ∉ (doc_key repo <$> coll) → coll_step coll (coll ++ [d])
| cs_purge p : (∀ d, d ∈ coll → p d = true → field d mongoFieldStatus = BString OutboxStatusPublished) →
    coll_step coll (List.filter (λ d, negb (p d)) coll).

Record coll_ok (coll : list bdoc) : Prop := {
  ok_docs : Forall doc_ok coll;
  ok_keys : NoDup (doc_key repo <$> coll);
}.

Lemma in_phase_inj d p a p' a' : in_phase d p a → in_phase d p' a' → p = p' ∧ a = a'.
Proof. intros [E1 E2] [E3 E4]. rewrite E1 in E3. rewrite E2 in E4. simplify_eq. split; [|done]. by apply (inj phase_text). Qed.

Lemma doc_key_step d d' : (∀ k, k ∈ identity repo → field d' k = field d k) → doc_key repo d' = doc_key repo d.
Proof.
  intros Hk. unfold doc_key. rewrite (Hk f_id) by (unfold identity; clear; set_solver). f_equal.
  destruct (is_empty (tenantField repo)) eqn:E; [done|]. apply Hk. unfold identity. rewrite E. clear. set_solver.
Qed.

(** ** One update *)

(** What an update guarantees of every document it can match. *)
Definition lawful (f : mfilter) (u : update) : Prop :=
  ∀ d, doc_ok d → matches f d = true → doc_step d (apply_update u d) ∧ doc_ok (apply_update u d).

Lemma update_first_cases f u coll n coll' : update_first f u coll = (n, coll') →
  coll' = coll ∨ ∃ l1 d l2, coll = l1 ++ d :: l2 ∧ matches f d = true ∧ coll' = l1 ++ apply_update u d :: l2.
Proof.
  revert n coll'. induction coll as [|d coll IH]; intros n coll'; simpl; [intros; simplify_eq; by left|].
  destruct (matches f d) eqn:E; intros; simplify_eq.
  - right. exists [], d, coll. done.
  - destruct (update_first f u coll) as [n' coll1] eqn:E1. simplify_eq.
    destruct (IH _ _ eq_refl) as [->|(l1 & d1 & l2 & -> & Hm & ->)]; [by left|].
    right. exists (d :: l1), d1, l2. done.
Qed.

Lemma lawful_update f u coll n coll' : coll_ok coll → lawful f u → update_first f u coll = (n, coll') →
  coll_step coll coll' ∧ coll_ok coll'.
Proof.
  intros Hc Hl [->|(l1 & d & l2 & -> & Hm & ->)]%update_first_cases; [by split; [constructor|]|].
  destruct Hc as [Hd Hk]. apply Forall_app in Hd as [Hd1 [Hd Hd2]%Forall_cons].
  destruct (Hl d Hd Hm) as [Hs Ho]. split; [by eapply cs_update|]. split.
  - apply Forall_app. split; [done|]. by constructor.
  - rewrite fmap_app, fmap_cons in *. by rewrite (doc_key_step d (apply_update u d)) by apply Hs.
Qed.

(** The fields the updates write are the others. *)
Definition mutable : list text :=
  [f_published_at; mongoFieldStatus; mongoFieldAttempts; mongoFieldUpdatedAt; mongoFieldClaimToken; mongoFieldLastError].

Definition mutable_only (u : update) : Prop :=
  (∀ k v, u_set u !! k = Some v → k ∈ mutable) ∧ ∀ k, k ∈ u_unset u → k ∈ mutable.

Lemma identity_immutable k : k ∈ identity repo → k ∉ mutable.
Proof.
  unfold identity. rewrite elem_of_app. intros [Hk|Hk] Hm.
  - assert (bool_decide (k ∈ mutable) = false) as Hn; [|by bool_to_prop].
    revert Hk. rewrite !elem_of_cons. intros [->|[->|[->|[->|[->|Hk%elem_of_nil]]]]]; [reflexivity..|done].
  - destruct (is_empty _); [by apply elem_of_nil in Hk|]. apply list_elem_of_singleton in Hk as ->.
    apply Hsane. unfold reserved, mutable in *. set_solver.
Qed.

Lemma identity_kept u d k : mutable_only u → k ∈ identity repo → field (apply_update u d) k = field d k.
Proof.
  intros [Hs Hu] Hk%identity_immutable. rewrite apply_field.
  rewrite bool_decide_false by (intros Hk'; by apply Hk, Hu). destruct (u_set u !! k) eqn:E; [|done]. by apply Hs in E.
Qed.

Lemma field_set u d k v : u_set u !! k = Some v → k ∉ u_unset u → field (apply_update u d) k = v.
Proof. intros E Hk. rewrite apply_field, bool_decide_false by done. by rewrite E. Qed.

Lemma field_unset u d k : k ∈ u_unset u → field (apply_update u d) k = BNull.
Proof. intros Hk. by rewrite apply_field, bool_decide_true by done. Qed.

(** An update from phase [p] to phase [p']: the attempts afterwards and the
    token decide whether it is lawful. *)
Lemma lawful_intro f u p p' :
  f !! mongoFieldStatus = Some (CEq (BString (phase_text p))) →
  u_set u !! mongoFieldStatus = Some (BString (phase_text p')) →
  mongoFieldStatus ∉ u_unset u → mutable_only u →
  (∀ d a, doc_ok d → in_phase d p a → phase_attempts p a → matches f d = true →
     ∃ a', field (apply_update u d) mongoFieldAttempts = BInt a' ∧ attempt_step p a p' a' ∧ phase_attempts p' a' ∧
     ∀ T, field (apply_update u d) mongoFieldClaimToken = BString T →
       match kind T with
       | Some Pending => p' = Processing ∧ a' = 0
       | Some Failed => p' = Processing ∧ 1 ≤ a' < m
       | _ => True
       end) →
  lawful f u.
Proof.
  intros Hf Hu Hn Hm Hcase d Hd Hmatch. destruct (ok_phase d Hd) as (p0 & a & Hp & Ha).
  assert (p0 = p) as ->.
  { apply (inj phase_text). destruct Hp as [Hp _]. rewrite (matches_eq _ _ _ _ Hmatch Hf) in Hp. by injection Hp. }
  destruct (Hcase d a Hd Hp Ha Hmatch) as (a' & Ha' & Hstep & Hok & Htok).
  assert (in_phase (apply_update u d) p' a') as Hp' by (split; [by apply field_set|done]).
  split; [split; [by exists p, a, p', a'|intros k; by apply identity_kept]|]. split.
  - destruct (ok_id d Hd) as [v Hv]. exists v. rewrite identity_kept; [done..|unfold identity; set_solver].
  - by exists p', a'.
  - intros T HT. specialize (Htok T HT). destruct (kind T) as [[]|]; [|done| |..]; try done.
    + by destruct Htok as [-> ->].
    + destruct Htok as [-> ?]. by exists a'.
Qed.

(** ** Events handed out

    [taken T d]: the pending event was handed out by the call that drew [T]. *)
Definition taken (T : text) (d : bdoc) : Prop :=
  field d mongoFieldStatus ≠ BString OutboxStatusPending ∧
  ∀ T', field d mongoFieldClaimToken = BString T' → kind T' = Some Pending → T' = T.

(** What an update issued after the tokens [drawn] and the read-backs [own]
    guarantees. *)
Record update_ok (drawn : list text) (own : list (text * bdoc)) (f : mfilter) (u : update) : Prop := {
  uo_lawful : lawful f u;
  uo_taken d T : matches f d = true → kind T = Some Pending → taken T d →
    (T ∈ drawn → ∃ raw, (T, raw) ∈ own ∧ doc_key repo raw = doc_key repo d) → taken T (apply_update u d);
}.

Lemma taken_intro u d T p :
  u_set u !! mongoFieldStatus = Some (BString (phase_text p)) → mongoFieldStatus ∉ u_unset u → p ≠ Pending →
  (mongoFieldClaimToken ∈ u_unset u ∨
   ∃ T', u_set u !! mongoFieldClaimToken = Some (BString T') ∧ (mongoFieldClaimToken ∉ u_unset u) ∧ kind T' ≠ Some Pending) →
  taken T (apply_update u d).
Proof.
  intros Hs Hn Hp Htok. split.
  - rewrite (field_set _ _ _ _ Hs Hn). intros [= E]. apply Hp. by apply (inj phase_text).
  - intros T' HT Hk. destruct Htok as [Htok|(T2 & H2 & H3 & H4)].
    + by rewrite field_unset in HT.
    + rewrite (field_set _ _ _ _ H2 H3) in HT. congruence.
Qed.

(** ** The updates of the repository *)

Lemma tenant_filter_other T k : k ∈ reserved → tenantMatchFilter repo T !! k = None.
Proof. intros Hk. unfold tenantMatchFilter. destruct (is_empty _); [done|]. apply lookup_singleton_ne. intros E. apply Hsane. by rewrite E. Qed.

Lemma merge_lookup base extras k :
  mergeFilters base extras !! k = foldl (λ o (extra : mfilter), extra !! k ∪ o) (base !! k) extras.
Proof.
  unfold mergeFilters. revert base. induction extras as [|e extras IH]; intros base; cbn [foldl]; [done|].
  rewrite IH. by rewrite lookup_union.
Qed.

Ltac filter_lookup :=
  unfold idTenantFilter; rewrite ?merge_lookup; cbn [foldl]; rewrite ?lookup_union; rewrite ?tenant_filter_other by solve_name;
  lookups; reflexivity.

Ltac solve_mutable :=
  split; [intros ? ?; cbn [u_set]; rewrite ?lookup_insert_Some, ?lookup_singleton_Some; unfold mutable; set_solver
         |intros ?; cbn [u_unset]; unfold mutable; set_solver].

Ltac solve_set := cbn [u_set]; by lookups.

(** Claiming a PENDING or FAILED event with a token of that kind. *)
Lemma claim_ok drawn own cand p T now :
  p = Pending ∨ p = Failed → kind T = Some p →
  update_ok drawn own (claim_filter repo cand (phase_text p))
    {| u_set := <[mongoFieldClaimToken := BString T]> (<[mongoFieldStatus := BString OutboxStatusProcessing]>
         {[ mongoFieldUpdatedAt := BDate now ]}); u_unset := [] |}.
Proof.
  intros Hp HT. assert (claim_filter repo cand (phase_text p) !! mongoFieldStatus = Some (CEq (BString (phase_text p)))) as Hf.
  { unfold claim_filter. filter_lookup. }
  split.
  - apply (lawful_intro _ _ p Processing); [done|solve_set|solve_name|solve_mutable|].
    intros d a Hd [Hs Ha] Hpa Hm. exists a. fields. split; [done|]. split; [|split].
    + destruct Hp as [-> | ->]; constructor. simpl in Hpa. lia.
    + destruct Hp as [-> | ->]; simpl in *; lia.
    + intros T' [= <-]. rewrite HT. destruct Hp as [-> | ->]; simpl in Hpa; split; (done || lia).
  - intros d T' Hm HT' [Hst _] _. destruct Hp as [-> | ->]; [by rewrite (matches_eq _ _ _ _ Hm Hf) in Hst|].
    apply (taken_intro _ _ _ Processing); [solve_set|solve_name|done|]. right. exists T. split; [solve_set|].
    split; [solve_name|congruence].
Qed.

(** Reclaiming a stuck event charges an attempt. *)
Lemma stuck_ok drawn own cand T now err :
  kind T = Some Processing →
  let nextAttempts := Doc.Attempts cand + 1 in
  update_ok drawn own (claim_filter repo cand OutboxStatusProcessing)
    {| u_set := <[mongoFieldClaimToken := BString T]>
         (<[mongoFieldStatus := BString (if bool_decide (m ≤ nextAttempts) then OutboxStatusInvalid else OutboxStatusProcessing)]>
         (<[mongoFieldAttempts := BInt nextAttempts]> (<[mongoFieldLastError := BString err]>
         {[ mongoFieldUpdatedAt := BDate now ]}))); u_unset := [] |}.
Proof.
  intros HT nextAttempts.
  assert ((if bool_decide (m ≤ nextAttempts) then OutboxStatusInvalid else OutboxStatusProcessing) =
          phase_text (if bool_decide (m ≤ nextAttempts) then Invalid else Processing)) as -> by by case_bool_decide.
  split.
  - apply (lawful_intro _ _ Processing (if bool_decide (m ≤ nextAttempts) then Invalid else Processing));
      [unfold claim_filter; filter_lookup|solve_set|solve_name|solve_mutable|].
    intros d a Hd [Hs Ha] Hpa Hm. exists nextAttempts. fields. split; [done|].
    assert (a = Doc.Attempts cand) as ->.
    { apply matches_eq with (k := mongoFieldAttempts) (v := BInt (Doc.Attempts cand)) in Hm; [congruence|].
      unfold claim_filter. filter_lookup. }
    simpl in Hpa. split; [|split].
    + case_bool_decide; constructor; lia.
    + case_bool_decide; simpl; lia.
    + intros T' [= <-]. by rewrite HT.
  - intros d T' Hm HT' _ _. apply (taken_intro _ _ _ (if bool_decide (m ≤ nextAttempts) then Invalid else Processing));
      [solve_set|solve_name|by case_bool_decide|]. right. exists T. split; [solve_set|]. split; [solve_name|congruence].
Qed.

(** Giving back a claimed event: never one of those read back. *)
Lemma rollback_ok drawn own cand p T now :
  p = Pending ∨ p = Failed ∨ p = Processing → kind T = Some p →
  T ∈ drawn → (∀ raw, (T, raw) ∈ own → field raw f_id ≠ BString (Doc.ID cand)) →
  update_ok drawn own (rollback_filter repo cand OutboxStatusProcessing T)
    {| u_set := <[mongoFieldStatus := BString (phase_text p)]> {[ mongoFieldUpdatedAt := BDate now ]};
       u_unset := [mongoFieldClaimToken] |}.
Proof.
  intros Hp HT Hdrawn Hown.
  assert (rollback_filter repo cand OutboxStatusProcessing T !! mongoFieldClaimToken = Some (CEq (BString T))) as Htok.
  { unfold rollback_filter. filter_lookup. }
  split.
  - apply (lawful_intro _ _ Processing p); [unfold rollback_filter; filter_lookup|solve_set|solve_name|solve_mutable|].
    intros d a Hd Hpd Hpa Hm. exists a. fields. split; [by destruct Hpd|]. split; [by constructor|]. split; [|done].
    pose proof (ok_token d Hd T (matches_eq _ _ _ _ Hm Htok)) as Hok. rewrite HT in Hok.
    destruct Hp as [-> | [-> | ->]]; [| |done].
    + by destruct (in_phase_inj _ _ _ _ _ Hpd Hok) as [_ ->].
    + destruct Hok as (a' & Hok & Ha'). destruct (in_phase_inj _ _ _ _ _ Hpd Hok) as [_ ->]. done.
  - intros d T' Hm HT' [Hst Htk] Hkey. destruct (decide (p = Pending)) as [->|Hne].
    + pose proof (Htk T (matches_eq _ _ _ _ Hm Htok) HT) as <-.
      destruct (Hkey Hdrawn) as (raw & Hraw & Hk). destruct (Hown raw Hraw). injection Hk as _ ->.
      apply (matches_eq _ _ _ _ Hm). unfold rollback_filter. filter_lookup.
    + apply (taken_intro _ _ _ p); [solve_set|solve_name|done|]. left. solve_name.
Qed.

(** Marking: the filter asks for PROCESSING, and the token goes. *)
Lemma publish_ok drawn own id T published now :
  update_ok drawn own
    (mergeFilters (idTenantFilter repo id T) [{[ mongoFieldStatus := CEq (BString OutboxStatusProcessing) ]}])
    {| u_set := <[mongoFieldStatus := BString OutboxStatusPublished]>
         (<[f_published_at := BDate published]> {[ mongoFieldUpdatedAt := BDate now ]});
       u_unset := [mongoFieldClaimToken] |}.
Proof.
  split.
  - apply (lawful_intro _ _ Processing Published); [filter_lookup|solve_set|solve_name|solve_mutable|].
    intros d a Hd [_ Ha] Hpa Hm. exists a. fields. split; [done|]. split; [constructor|]. done.
  - intros d T' _ _ _ _. apply (taken_intro _ _ _ Published); [solve_set|solve_name|done|]. left. solve_name.
Qed.

Lemma invalid_ok drawn own id T err now :
  update_ok drawn own
    (mergeFilters (idTenantFilter repo id T) [{[ mongoFieldStatus := CEq (BString OutboxStatusProcessing) ]}])
    {| u_set := <[mongoFieldStatus := BString OutboxStatusInvalid]>
         (<[mongoFieldLastError := BString err]> {[ mongoFieldUpdatedAt := BDate now ]});
       u_unset := [mongoFieldClaimToken] |}.
Proof.
  split.
  - apply (lawful_intro _ _ Processing Invalid); [filter_lookup|solve_set|solve_name|solve_mutable|].
    intros d a Hd [_ Ha] Hpa Hm. exists a. fields. split; [done|]. split; [constructor|]. simpl in *. split; [lia|done].
  - intros d T' _ _ _ _. apply (taken_intro _ _ _ Invalid); [solve_set|solve_name|done|]. left. solve_name.
Qed.

Lemma fail_ok drawn own id T a err now :
  update_ok drawn own
    (mergeFilters (idTenantFilter repo id T)
      [<[mongoFieldStatus := CEq (BString OutboxStatusProcessing)]> {[ mongoFieldAttempts := CEq (BInt a) ]}])
    {| u_set := <[mongoFieldStatus := BString (if bool_decide (m ≤ a + 1) then OutboxStatusInvalid else OutboxStatusFailed)]>
         (<[mongoFieldAttempts := BInt (a + 1)]>
         (<[mongoFieldLastError := BString err]> {[ mongoFieldUpdatedAt := BDate now ]}));
       u_unset := [mongoFieldClaimToken] |}.
Proof.
  assert ((if bool_decide (m ≤ a + 1) then OutboxStatusInvalid else OutboxStatusFailed) =
          phase_text (if bool_decide (m ≤ a + 1) then Invalid else Failed)) as -> by by case_bool_decide.
  split.
  - apply (lawful_intro _ _ Processing (if bool_decide (m ≤ a + 1) then Invalid else Failed));
      [filter_lookup|solve_set|solve_name|solve_mutable|].
    intros d a' Hd [_ Ha] Hpa Hm. exists (a + 1). fields. split; [done|].
    assert (a' = a) as ->.
    { apply matches_eq with (k := mongoFieldAttempts) (v := BInt a) in Hm; [congruence|]. filter_lookup. }
    simpl in Hpa. split; [|split; [|done]].
    + case_bool_decide; constructor; lia.
    + case_bool_decide; simpl; lia.
  - intros d T' _ _ _ _. apply (taken_intro _ _ _ (if bool_decide (m ≤ a + 1) then Invalid else Failed));
      [solve_set|solve_name|by case_bool_decide|]. left. solve_name.
Qed.
End lifecycle.
