(* ===== verification/OutboxMongoCodec.v ===== *)
(** The BSON form of outbox documents: which documents decode, and to what. *)

From stdpp Require Import base numbers list gmap strings.
From S2P Require Import Prelude GoText Effects OutboxLastError OutboxEvent OutboxMongo OutboxMongoLifecycle.

Local Open Scope Z_scope.
Local Open Scope go_scope.

Section codec.
Context `{MongoPlatform} (tf : text).

Definition text_at (d : bdoc) (k : text) : text := match field d k with BString s => s | _ => [] end.
Definition int_at (d : bdoc) (k : text) : Z := match field d k with BInt n => n | _ => 0 end.
Definition time_at (d : bdoc) (k : text) : gotime := match field d k with BDate ms => time_of ms | _ => zero_time end.
Definition time_at' (d : bdoc) (k : text) : option gotime := match field d k with BDate ms => Some (time_of ms) | _ => None end.

(** What a decoded document holds. *)
Definition doc_view (d : bdoc) : document :=
  {| Doc.ID := text_at d f_id; Doc.EventType := text_at d f_event_type; Doc.AggregateID := text_at d f_aggregate_id;
     Doc.Payload := text_at d f_payload; Doc.Status := TrimSpace (text_at d mongoFieldStatus);
     Doc.Attempts := int_at d mongoFieldAttempts; Doc.PublishedAt := time_at' d f_published_at;
     Doc.LastError := TrimSpace (text_at d mongoFieldLastError);
     Doc.CreatedAt := time_at d mongoFieldCreatedAt; Doc.UpdatedAt := time_at d mongoFieldUpdatedAt;
     Doc.TenantID := if is_empty tf then [] else TrimSpace (text_at d tf) |}.

(** The fields are there with their types. *)
Definition is_text (v : bval) : Prop := ∃ s, v = BString s.
Definition is_date (v : bval) : Prop := ∃ ms, v = BDate ms.

Record typed (d : bdoc) : Prop := {
  ty_texts : ∀ k, k ∈ [f_id; f_event_type; f_aggregate_id; f_payload; mongoFieldStatus] → is_text (field d k);
  ty_attempts : ∃ n, field d mongoFieldAttempts = BInt n;
  ty_dates : ∀ k, k ∈ [mongoFieldCreatedAt; mongoFieldUpdatedAt] → is_date (field d k);
  ty_error : field d mongoFieldLastError = BNull ∨ is_text (field d mongoFieldLastError);
  ty_published : field d f_published_at = BNull ∨ is_date (field d f_published_at);
  ty_tenant : is_empty tf = false → field d tf = BNull ∨ is_text (field d tf);
}.

Lemma stringField_typed d k : is_text (field d k) → stringField d k = Ok (text_at d k).
Proof. unfold field, stringField, text_at, field. intros [s E]. by destruct (d !! k) as [[]|]. Qed.

Lemma optionalString_typed d k : field d k = BNull ∨ is_text (field d k) → optionalStringField d k = Ok (text_at d k).
Proof. unfold field, optionalStringField, text_at, field. intros [E|[s E]]; by destruct (d !! k) as [[]|]. Qed.

Lemma intField_typed d k : (∃ n, field d k = BInt n) → intField d k = Ok (int_at d k) ∧ struct_int d k = Ok (int_at d k).
Proof. unfold field, intField, struct_int, int_at, field. intros [n E]. by destruct (d !! k) as [[]|]. Qed.

Lemma timeField_typed d k : is_date (field d k) → timeField d k = Ok (time_at d k) ∧ struct_time d k = Ok (time_at d k).
Proof. unfold field, timeField, struct_time, time_at, field. intros [n E]. by destruct (d !! k) as [[]|]. Qed.

Lemma optionalTime_typed d k : field d k = BNull ∨ is_date (field d k) → optionalTimeField d k = Ok (time_at' d k).
Proof. unfold field, optionalTimeField, time_at', field. intros [E|[ms E]]; by destruct (d !! k) as [[]|]. Qed.

Lemma decode_typed d :
  typed d → IsValid (TrimSpace (text_at d mongoFieldStatus)) = true → 0 ≤ int_at d mongoFieldAttempts →
  decode_document tf d = Ok (doc_view d).
Proof.
  intros [Ht Ha Hd He Hp Hn] Hst Hatt. unfold decode_document, struct_decode, documentFromBSON, struct_string, tenant_of_bson.
  assert (∀ k, k ∈ [f_id; f_event_type; f_aggregate_id; f_payload; mongoFieldStatus] →
    optionalStringField d k = Ok (text_at d k)) as Hopt by (intros k Hk; apply optionalString_typed; auto).
  rewrite !stringField_typed by (apply Ht; solve_name). 
  rewrite (Hopt f_id), (Hopt f_event_type), (Hopt f_aggregate_id), (Hopt f_payload), (Hopt mongoFieldStatus) by solve_name.
  destruct (intField_typed _ _ Ha) as [-> ->].
  destruct (timeField_typed d mongoFieldCreatedAt) as [-> ->]; [apply Hd; solve_name|].
  destruct (timeField_typed d mongoFieldUpdatedAt) as [-> ->]; [apply Hd; solve_name|].
  rewrite (optionalString_typed d mongoFieldLastError), (optionalTime_typed d f_published_at) by done.
  destruct (eqt tf defaultTenantField) eqn:Etf.
  - apply eqt_true in Etf. rewrite <- Etf. rewrite (optionalString_typed d tf) by (apply Hn; by rewrite Etf).
    simpl. unfold validateDecodedDocument, ParseOutboxEventStatus. simpl. rewrite Hst, bool_decide_false by lia.
    unfold doc_view. rewrite Etf. done.
  - assert ((if is_empty tf then Ok defaultScopeTenantID else optionalStringField d tf)
      = Ok (if is_empty tf then [] else text_at d tf)) as ->.
    { destruct (is_empty tf); [done|]. by apply optionalString_typed, Hn. }
    simpl. unfold validateDecodedDocument, ParseOutboxEventStatus. simpl. rewrite Hst, bool_decide_false by lia.
    unfold doc_view. rewrite !TrimSpace_idem. by destruct (is_empty tf).
Qed.

(** *** Claim candidates: the projected documents *)

Definition claim_fields : list text :=
  [f_id; mongoFieldStatus; mongoFieldAttempts; mongoFieldUpdatedAt; mongoFieldLastError].

Definition claim_projection : list text :=
  claim_fields ++ (if is_empty tf then [] else [tf]).

Lemma project_lookup ks d k : project (Some ks) d !! k = if bool_decide (k ∈ ks) then d !! k else None.
Proof.
  simpl. case_bool_decide as Hk; [|by apply map_lookup_filter_None_2; right; intros v _ ?].
  destruct (d !! k) as [v|] eqn:E; [by apply map_lookup_filter_Some_2|apply map_lookup_filter_None_2; by left].
Qed.

Lemma project_field ks d k : field (project (Some ks) d) k = if bool_decide (k ∈ ks) then field d k else BNull.
Proof. unfold field. rewrite project_lookup. by case_bool_decide. Qed.

Lemma projection_keeps d k : k ∈ claim_fields → field (project (Some claim_projection) d) k = field d k.
Proof. intros Hk. rewrite project_field, bool_decide_true; [done|]. apply elem_of_app. by left. Qed.

Lemma projection_tenant d : is_empty tf = false → field (project (Some claim_projection) d) tf = field d tf.
Proof.
  intros E. rewrite project_field, bool_decide_true; [done|]. unfold claim_projection. rewrite E.
  apply elem_of_app. right. by apply list_elem_of_singleton.
Qed.

Lemma projection_drops d k :
  tf ∉ reserved → k ∈ reserved → bool_decide (k ∈ claim_fields) = false → field (project (Some claim_projection) d) k = BNull.
Proof.
  intros Hsane Hr Hk. rewrite project_field, bool_decide_false; [done|]. bool_to_prop. unfold claim_projection.
  rewrite elem_of_app. intros [Hk'|Hk']; [done|]. destruct (is_empty tf); [by apply elem_of_nil in Hk'|].
  by apply list_elem_of_singleton in Hk' as ->.
Qed.

Lemma projection_views d k : k ∈ claim_fields →
  text_at (project (Some claim_projection) d) k = text_at d k ∧ int_at (project (Some claim_projection) d) k = int_at d k ∧
  time_at (project (Some claim_projection) d) k = time_at d k.
Proof. intros Hk. unfold text_at, int_at, time_at. by rewrite projection_keeps. Qed.

Lemma decode_claim_typed d :
  tf ∉ reserved → typed d → IsValid (TrimSpace (text_at d mongoFieldStatus)) = true → 0 ≤ int_at d mongoFieldAttempts →
  TrimSpace (text_at d f_id) = text_at d f_id → text_at d f_id ≠ [] → time_at d mongoFieldUpdatedAt ≠ zero_time →
  ∃ c, decode_claim tf (project (Some claim_projection) d) = Ok c ∧
    Doc.ID c = text_at d f_id ∧ Doc.Attempts c = int_at d mongoFieldAttempts ∧
    Doc.UpdatedAt c = time_at d mongoFieldUpdatedAt ∧ Doc.TenantID c = if is_empty tf then [] else TrimSpace (text_at d tf).
Proof.
  intros Hsane [Ht Ha Hd He Hp Hn] Hst Hatt Htrim Hid Hz.
  pose proof (projection_keeps d) as Hk. pose proof (projection_tenant d) as Htf. pose proof (projection_views d) as Hat.
  assert (∀ k, k ∈ reserved → bool_decide (k ∈ claim_fields) = false → field (project (Some claim_projection) d) k = BNull)
    as Hout by (intros k; by apply projection_drops).
  set (raw := project (Some claim_projection) d) in *.
  unfold decode_claim, struct_decode, claimDocumentFromBSON, struct_string, tenant_of_bson.
  rewrite !stringField_typed by (rewrite Hk by solve_name; apply Ht; solve_name).
  rewrite (optionalString_typed raw f_id), (optionalString_typed raw mongoFieldStatus)
    by (right; rewrite Hk by solve_name; apply Ht; solve_name).
  rewrite (optionalString_typed raw f_event_type), (optionalString_typed raw f_aggregate_id),
    (optionalString_typed raw f_payload) by (left; apply Hout; [solve_name|reflexivity]).
  rewrite (optionalString_typed raw mongoFieldLastError) by (rewrite Hk by solve_name; exact He).
  rewrite (optionalTime_typed raw f_published_at) by (left; apply Hout; [solve_name|reflexivity]).
  destruct (intField_typed raw mongoFieldAttempts) as [-> ->]; [by rewrite Hk by solve_name|].
  destruct (timeField_typed raw mongoFieldUpdatedAt) as [-> ->]; [rewrite Hk by solve_name; apply Hd; solve_name|].
  assert (struct_time raw mongoFieldCreatedAt = Ok zero_time) as ->.
  { unfold struct_time. assert (field raw mongoFieldCreatedAt = BNull) as E by (apply Hout; [solve_name|reflexivity]). unfold field in E.
    by destruct (raw !! mongoFieldCreatedAt) as [[]|]. }
  destruct (Hat f_id) as (Eid & _); [solve_name|]. destruct (Hat mongoFieldStatus) as (Est & _); [solve_name|].
  destruct (Hat mongoFieldAttempts) as (_ & Eat & _); [solve_name|].
  destruct (Hat mongoFieldUpdatedAt) as (_ & _ & Eup); [solve_name|].
  rewrite Eid, Est, Eat, Eup.
  assert (is_empty (TrimSpace (text_at d f_id)) = false) as Hne by (rewrite Htrim; by apply is_empty_false).
  assert (time_is_zero (time_at d mongoFieldUpdatedAt) = false) as Hnz by (apply bool_decide_eq_false; done).
  destruct (eqt tf defaultTenantField) eqn:Etf.
  - apply eqt_true in Etf. assert (is_empty tf = false) as Etf' by (by rewrite Etf).
    rewrite <- Etf, (optionalString_typed raw tf) by (rewrite Htf by done; auto).
    cbn [mbind result_bind]. unfold validateClaimDocument, ParseOutboxEventStatus. simpl. rewrite Hne, Hst, Hnz, bool_decide_false by lia.
    eexists. split; [done|]. simpl. rewrite Htrim, Etf'. unfold text_at. by rewrite Htf.
  - assert ((if is_empty tf then Ok defaultScopeTenantID else optionalStringField raw tf)
      = Ok (if is_empty tf then [] else text_at d tf)) as ->.
    { destruct (is_empty tf); [done|]. rewrite (optionalString_typed raw tf) by (rewrite Htf by done; auto).
      unfold text_at. by rewrite Htf. }
    cbn [mbind result_bind]. unfold validateClaimDocument, ParseOutboxEventStatus. simpl. rewrite Hne, Hst, Hnz, bool_decide_false by lia.
    eexists. split; [done|]. simpl. rewrite Htrim, TrimSpace_idem. by destruct (is_empty tf).
Qed.

(** *** Encoding *)

(** Times are kept to the millisecond. *)
Definition to_ms (t : gotime) : gotime := time_of (date_of t).

Lemma to_ms_spec t : to_ms t ≤ t < to_ms t + Millisecond.
Proof. 
  unfold to_ms, time_of, date_of. assert (0 < Millisecond) as Hm by done.
  pose proof (Z.div_mod (t - unix_epoch) Millisecond). pose proof (Z.mod_pos_bound (t - unix_epoch) _ Hm). lia.
Qed.

Definition stored (doc : document) : document :=
  {| Doc.ID := Doc.ID doc; Doc.EventType := Doc.EventType doc; Doc.AggregateID := Doc.AggregateID doc;
     Doc.Payload := Doc.Payload doc; Doc.Status := TrimSpace (Doc.Status doc); Doc.Attempts := Doc.Attempts doc;
     Doc.PublishedAt := to_ms <$> Doc.PublishedAt doc; Doc.LastError := TrimSpace (Doc.LastError doc);
     Doc.CreatedAt := to_ms (Doc.CreatedAt doc); Doc.UpdatedAt := to_ms (Doc.UpdatedAt doc);
     Doc.TenantID := if is_empty tf then [] else TrimSpace (Doc.TenantID doc) |}.

Lemma toBSON_fields doc : tf ∉ reserved →
  let d := toBSON doc tf in
  field d f_id = BString (Doc.ID doc) ∧ field d f_event_type = BString (Doc.EventType doc) ∧
  field d f_aggregate_id = BString (Doc.AggregateID doc) ∧ field d f_payload = BString (Doc.Payload doc) ∧
  field d mongoFieldStatus = BString (Doc.Status doc) ∧ field d mongoFieldAttempts = BInt (Doc.Attempts doc) ∧
  field d mongoFieldCreatedAt = BDate (date_of (Doc.CreatedAt doc)) ∧
  field d mongoFieldUpdatedAt = BDate (date_of (Doc.UpdatedAt doc)) ∧
  field d f_published_at = match Doc.PublishedAt doc with None => BNull | Some t => BDate (date_of t) end ∧
  field d mongoFieldLastError = (if is_empty (Doc.LastError doc) then BNull else BString (Doc.LastError doc)) ∧
  (is_empty tf = false → field d tf = BString (Doc.TenantID doc)) ∧ field d mongoFieldClaimToken = BNull.
Proof.
  intros Hsane d. assert (∀ k, k ∈ reserved → tf ≠ k) as Hne by (intros k Hk <-; done).
  unfold d, toBSON, set_if, field.
  split_and!; try (intros ->; cbn [negb]; by rewrite lookup_insert_eq);
    destruct (is_empty tf), (Doc.PublishedAt doc), (is_empty (Doc.LastError doc)); cbn [negb];
    rewrite ?lookup_insert_ne by (apply Hne; solve_name); by lookups.
Qed.

Lemma toBSON_typed doc : tf ∉ reserved → typed (toBSON doc tf).
Proof.
  intros Hsane. destruct (toBSON_fields doc Hsane) as (E1 & E2 & E3 & E4 & E5 & E6 & E7 & E8 & E9 & E10 & E11 & _).
  split.
  - intros k Hk. repeat (apply elem_of_cons in Hk as [->|Hk]; [by eexists|]). by apply elem_of_nil in Hk.
  - by eexists.
  - intros k Hk. repeat (apply elem_of_cons in Hk as [->|Hk]; [by eexists|]). by apply elem_of_nil in Hk.
  - rewrite E10. destruct (is_empty _); [by left|right; by eexists].
  - rewrite E9. destruct (Doc.PublishedAt doc); [right; by eexists|by left].
  - intros E. right. rewrite (E11 E). by eexists.
Qed.

Lemma bson_round_trip doc :
  tf ∉ reserved → IsValid (TrimSpace (Doc.Status doc)) = true → 0 ≤ Doc.Attempts doc →
  decode_document tf (toBSON doc tf) = Ok (stored doc).
Proof.
  intros Hsane Hst Hatt. destruct (toBSON_fields doc Hsane) as (E1 & E2 & E3 & E4 & E5 & E6 & E7 & E8 & E9 & E10 & E11 & _).
  rewrite decode_typed; [|by apply toBSON_typed|unfold text_at; by rewrite E5|unfold int_at; by rewrite E6].
  unfold doc_view, text_at, int_at, time_at, time_at'. rewrite E1, E2, E3, E4, E5, E6, E7, E8, E9, E10.
  unfold stored. do 2 f_equal.
  - by destruct (Doc.PublishedAt doc).
  - destruct (is_empty (Doc.LastError doc)) eqn:E; [|done]. apply is_empty_true in E as ->. done.
  - destruct (is_empty tf); [done|]. by rewrite E11.
Qed.
End codec.
