(* ===== verification/OutboxMongoClaims.v ===== *)
(** What the calls of the MongoDB outbox repository guarantee of the commands
    they send and of the events they hand out, whatever other callers do.

    Two things about a call's history matter: the claim tokens it has drawn and
    the documents it has read back under a token. *)

From stdpp Require Import base numbers list gmap strings sorting.
From S2P Require Import Prelude GoText Effects OutboxLastError OutboxEvent OutboxMongo OutboxMongoLifecycle OutboxMongoCodec.

Local Open Scope Z_scope.
Local Open Scope go_scope.

(** ** Histories *)

Definition drawn_in (e : event answer) : list text :=
  match e with Ev c x => match c return answer c → list text with NewUUID => λ T, [T] | _ => λ _, [] end x end.

(** The unlimited read of a claim: the documents found under its token. *)
Definition read_back (e : event answer) : list (text * bdoc) :=
  match e with
  | Ev c x =>
    match c return answer c → list (text * bdoc) with
    | Find f _ None _ => λ raws,
      match f !! mongoFieldClaimToken, raws with
      | Some (CEq (BString T)), Some raws => (T,.) <$> raws
      | _, _ => []
      end
    | _ => λ _, []
    end x
  end.

Definition drawn (tr : list (event answer)) : list text := tr ≫= drawn_in.
Definition handed (tr : list (event answer)) : list (text * bdoc) := tr ≫= read_back.

Lemma drawn_snoc tr e : drawn (tr ++ [e]) = drawn tr ++ drawn_in e.
Proof. unfold drawn. rewrite bind_app. simpl. by rewrite app_nil_r. Qed.

Lemma handed_snoc tr e : handed (tr ++ [e]) = handed tr ++ read_back e.
Proof. unfold handed. rewrite bind_app. simpl. by rewrite app_nil_r. Qed.

Definition assertion : Type := list text → list (text * bdoc) → Prop.

Section calls.
Context `{MongoPlatform} (m : Z) (repo : Repository) (kind : text → option phase).
Context (Hbudget : 0 < m) (Hsane : tenantField repo ∉ reserved).

(** [from] is the phase the call claims from. *)
Context (from : phase) (purging : bool).

(** What the call may expect: tokens of its kind, and documents that match. *)
Definition answered (e : event answer) : Prop :=
  match e with
  | Ev c x =>
    match c return answer c → Prop with
    | NewUUID => λ T, kind T = Some from
    | Find f _ _ projection => λ raws, ∀ docs raw, raws = Some docs → raw ∈ docs →
        ∃ d, raw = project projection d ∧ matches f d = true
    | _ => λ _, True
    end x
  end.

Definition rely (tr : list (event answer)) : Prop := Forall answered tr ∧ NoDup (drawn tr).

Lemma rely_init tr e : rely (tr ++ [e]) → rely tr.
Proof.
  unfold rely. rewrite drawn_snoc. intros [Ha Hn]. apply Forall_app in Ha as [Ha _].
  by apply NoDup_app in Hn as [Hn _].
Qed.

(** What it promises of a command, after the tokens [U] and the read-backs
    [R]. *)
Definition permitted (U : list text) (R : list (text * bdoc)) (c : cmd) : Prop :=
  match c with
  | UpdateOne f u => update_ok m repo kind U R f u
  | InsertOne d => fresh_doc d
  | DeleteMany f => purging = true ∧ f !! mongoFieldStatus = Some (CEq (BString OutboxStatusPublished))
  | Find f _ None projection =>
    ∃ T, f !! mongoFieldClaimToken = Some (CEq (BString T)) ∧ T ∈ U ∧ (T ∉ R.*1) ∧ projection = None
  | _ => True
  end.

Definition promise (tr : list (event answer)) (c : cmd) : Prop := permitted (drawn tr) (handed tr) c.

(** Specifications in terms of the two histories. *)
Definition holds {X : Type} (A : assertion) (p : prog X) (B : X → assertion) : Prop :=
  safely rely promise (λ tr, A (drawn tr) (handed tr)) p (λ x tr, B x (drawn tr) (handed tr)).

Lemma holds_ret {X : Type} (A : assertion) (x : X) B : (∀ U R, A U R → B x U R) → holds A (mret x) B.
Proof. intros HB. apply safely_ret. auto. Qed.

Lemma holds_bind {X Y : Type} A (p : prog X) M (f : X → prog Y) B :
  holds A p M → (∀ x, holds (M x) (f x) B) → holds A (p ≫= f) B.
Proof. apply safely_bind. Qed.

Lemma holds_weaken {X : Type} (A A' : assertion) (p : prog X) (B B' : X → assertion) :
  (∀ U R, A U R → A' U R) → (∀ x U R, B' x U R → B x U R) → holds A' p B' → holds A p B.
Proof. intros HA HB. apply safely_weaken; auto. Qed.

Lemma holds_pre {X : Type} (A A' : assertion) (p : prog X) B : (∀ U R, A U R → A' U R) → holds A' p B → holds A p B.
Proof. intros HA. by apply holds_weaken. Qed.

Lemma holds_pure {X : Type} (Q : Prop) (A : assertion) (p : prog X) B :
  (Q → holds A p B) → holds (λ U R, Q ∧ A U R) p B.
Proof. intros Hp. by apply safely_pure; [exact rely_init|]. Qed.

Lemma holds_perform (A : assertion) c (B : answer c → assertion) :
  (∀ U R, A U R → permitted U R c) →
  (∀ x U R, A U R → answered (Ev c x) → NoDup (U ++ drawn_in (Ev c x)) →
     B x (U ++ drawn_in (Ev c x)) (R ++ read_back (Ev c x))) →
  holds A (perform c) B.
Proof.
  intros HP HB. apply safely_perform; [exact rely_init|by intros tr; apply HP|].
  intros tr x HA [Ha Hn]. rewrite drawn_snoc, handed_snoc. apply Forall_app in Ha as [_ [Ha _]%Forall_cons].
  apply HB; [done..|]. by rewrite <- drawn_snoc.
Qed.

(** A command that draws no token and reads nothing back. *)
Lemma holds_silent (A : assertion) c :
  (∀ x, drawn_in (Ev c x) = []) → (∀ x, read_back (Ev c x) = []) → (∀ U R, A U R → permitted U R c) →
  holds A (perform c) (λ x U R, answered (Ev c x) ∧ A U R).
Proof. intros H1 H2 H3. apply holds_perform; [done|]. intros x U R HA Ha _. by rewrite H1, H2, !app_nil_r. Qed.

(** *** Results *)

Definition on_ok {X : Type} (B : X → assertion) (r : result mongo_error X) : assertion :=
  λ U R, match r with Ok x => B x U R | Err _ => True end.

Lemma holds_err {X : Type} A e (B : X → assertion) : holds A (mret (Err e)) (on_ok B).
Proof. by apply holds_ret. Qed.

Lemma holds_or_fail {X Y : Type} A (r : result mongo_error X) (k : X → prog (result mongo_error Y)) B :
  (∀ a, r = Ok a → holds A (k a) (on_ok B)) → holds A (or_fail r k) (on_ok B).
Proof. intros Hk. destruct r as [a|e]; [by apply Hk|apply holds_err]. Qed.

Lemma holds_try {X Y : Type} A (p : prog (result mongo_error X)) M (k : X → prog (result mongo_error Y)) B :
  holds A p (on_ok M) → (∀ a, holds (M a) (k a) (on_ok B)) → holds A (r ← p; or_fail r k) (on_ok B).
Proof.
  intros Hp Hk. eapply holds_bind; [exact Hp|]. intros [a|e]; [exact (Hk a)|]. apply holds_err.
Qed.

Lemma holds_collection {X : Type} A (k : prog (result mongo_error X)) B :
  holds A k (on_ok B) → holds A (collection k) (on_ok B).
Proof.
  intros Hk. eapply holds_bind; [by apply (holds_silent A Resolve)|]. intros [e|]; [apply holds_err|].
  eapply holds_pre; [|exact Hk]. by intros U R [_ HA].
Qed.

Lemma holds_if {X : Type} A (b : bool) (p q : prog X) B :
  (b = true → holds A p B) → (b = false → holds A q B) → holds A (if b then p else q) B.
Proof. destruct b; auto. Qed.

(** *** Bulk writes *)

Definition models_ok (A : assertion) (models : list (mfilter * update)) : Prop :=
  Forall (λ fu, ∀ U R, A U R → update_ok m repo kind U R fu.1 fu.2) models.

Lemma BulkWrite_holds A models : models_ok A models → holds A (BulkWrite models) (λ _, A).
Proof.
  unfold BulkWrite. generalize 0 at 1. generalize false. induction models as [|[f u] models IH]; intros failed n Hm.
  { by apply holds_ret. }
  apply Forall_cons in Hm as [Hfu Hm]. cbn [bulk_writes].
  eapply holds_bind; [by apply (holds_silent A (UpdateOne f u))|].
  intros [k|]; (eapply holds_pre; [|by apply IH]); by intros U R [_ HA].
Qed.

(** What a claim writes for a candidate. *)
Definition set_ok (setForCandidate : document → prog bdoc) : Prop :=
  ∀ A cand T, kind T = Some from →
  holds A (setForCandidate cand) (λ set U R,
    (∀ U R, update_ok m repo kind U R (claim_filter repo cand (phase_text from))
       {| u_set := <[mongoFieldClaimToken := BString T]> set; u_unset := [] |}) ∧ A U R).

Lemma set_processing_ok : from = Pending ∨ from = Failed → set_ok set_processing.
Proof.
  intros Hf A cand T HT. eapply holds_bind; [by apply (holds_silent A Now)|]. intros now.
  apply holds_ret. intros U R [_ HA]. split; [|done]. intros U' R'. by apply claim_ok.
Qed.

Lemma set_stuck_ok : from = Processing → set_ok (set_stuck m).
Proof.
  intros Hf A cand T HT. eapply holds_bind; [by apply (holds_silent A Now)|]. intros now.
  apply holds_ret. intros U R [_ HA]. split; [|done]. intros U' R'. rewrite Hf in *. by apply stuck_ok.
Qed.

Lemma claim_models_holds A cands T setForCandidate :
  set_ok setForCandidate → kind T = Some from →
  holds A (claim_models repo cands (phase_text from) T setForCandidate) (λ models U R, models_ok A models ∧ A U R).
Proof.
  intros Hset HT. induction cands as [|cand cands IH]; cbn [claim_models].
  { apply holds_ret. intros U R HA. split; [constructor|done]. }
  eapply holds_bind; [by apply Hset|]. intros set. apply holds_pure. intros Hu.
  eapply holds_bind; [exact IH|]. intros models. apply holds_ret. intros U R [Hm HA]. split; [|done].
  constructor; [|done]. by intros U' R' _.
Qed.

Lemma rollback_models_holds A cands ids T :
  kind T = Some from → from = Pending ∨ from = Failed ∨ from = Processing →
  (∀ U R, A U R → T ∈ U ∧ ∀ raw, (T, raw) ∈ R → ∃ id, id ∈ ids ∧ field raw f_id = BString id) →
  holds A (rollback_models repo cands ids T OutboxStatusProcessing (phase_text from)) (λ models U R, models_ok A models ∧ A U R).
Proof.
  intros HT Hf HA. induction cands as [|cand cands IH]; cbn [rollback_models].
  { apply holds_ret. intros U R HU. split; [constructor|done]. }
  apply holds_if; intros Hid; [exact IH|]. apply bool_decide_eq_false in Hid.
  eapply holds_bind; [by apply (holds_silent A Now)|]. intros now.
  eapply holds_bind; [eapply holds_pre; [|exact IH]; by intros U R [_ ?]|]. intros models.
  apply holds_ret. intros U R [Hm HU]. split; [|done]. constructor; [|done].
  intros U' R' HU'. destruct (HA _ _ HU') as [H1 H2]. apply rollback_ok; [done..|].
  intros raw Hraw E. destruct (H2 raw Hraw) as (id & Hin & E'). congruence.
Qed.

(** *** Decoding *)

Lemma traverse_Forall2 {X Y : Type} (f : X → result mongo_error Y) l ys :
  traverse f l = Ok ys → Forall2 (λ x y, f x = Ok y) l ys.
Proof.
  revert ys. induction l as [|x l IH]; intros ys E; simpl in E; inv_ok; [by constructor|]. constructor; auto.
Qed.

Lemma optional_string raw k s : field raw k = BString s → optionalStringField raw k = Ok s.
Proof. unfold field, optionalStringField. destruct (raw !! k) as [[]|]; simpl; by intros [= ->]. Qed.

Lemma stringField_field raw k s : stringField raw k = Ok s → field raw k = BString s.
Proof. unfold stringField, field. destruct (raw !! k) as [[]|]; by intros [= ->]. Qed.

Lemma decode_document_id tf raw doc s :
  decode_document tf raw = Ok doc → field raw f_id = BString s → Doc.ID doc = s.
Proof.
  unfold decode_document, struct_decode, documentFromBSON, validateDecodedDocument, struct_string. intros E Hs.
  rewrite (optional_string _ _ _ Hs) in E. destruct (eqt tf defaultTenantField).
  - by inv_ok.
  - destruct (stringField raw f_id) as [id|] eqn:E1; [|done]. apply stringField_field in E1. rewrite Hs in E1.
    injection E1 as <-. by inv_ok.
Qed.

Lemma decode_claim_tenant tf raw doc t :
  decode_claim tf raw = Ok doc → is_empty tf = false → field raw tf = BString t → TrimSpace t = t → Doc.TenantID doc = t.
Proof.
  unfold decode_claim, struct_decode, claimDocumentFromBSON, validateClaimDocument, tenant_of_bson, struct_string.
  intros E Hne Ht Htrim. apply optional_string in Ht. destruct (eqt tf defaultTenantField) eqn:Etf.
  - apply eqt_true in Etf as ->. rewrite Ht in E. by inv_ok.
  - rewrite Hne, Ht in E. inv_ok. by rewrite !Htrim.
Qed.

Lemma tenantIDFromContext_trimmed ctx t : tenantIDFromContext repo ctx = Ok t → TrimSpace t = t.
Proof.
  unfold tenantIDFromContext. intros E. destruct (TenantIDFromContext ctx) as [s|].
  - inv_ok. apply TrimSpace_idem.
  - by inv_ok.
Qed.

(** *** Claiming *)

(** The documents [docs] a call has claimed for the tenant [t] are those it read
    back. *)
Definition tenant_is (t : text) (raw : bdoc) : Prop :=
  is_empty (tenantField repo) = false → field raw (tenantField repo) = BString t.

Record claimed_are (t : text) (docs : list document) (U : list text) (R : list (text * bdoc)) : Prop := {
  ca_ids : (BString ∘ Doc.ID) <$> docs = (λ h, field h.2 f_id) <$> R;
  ca_tenant h : h ∈ R → tenant_is t h.2;
  ca_drawn T raw : (T, raw) ∈ R → T ∈ U;
}.

Section claiming.
Context (ctx : Ctx) (t : text) (Htenant : tenantIDFromContext repo ctx = Ok t).

Lemma tenant_filter_own T : is_empty (tenantField repo) = false →
  tenantMatchFilter repo T !! tenantField repo = Some (CEq (BString T)).
Proof. intros E. unfold tenantMatchFilter. rewrite E. apply lookup_singleton_eq. Qed.

Lemma findClaimCandidates_holds A filter sortSpec limit :
  holds A (findClaimCandidates repo ctx filter sortSpec limit) (on_ok (λ cands U R,
    (is_empty (tenantField repo) = false → Forall (λ c, Doc.TenantID c = t) cands) ∧ A U R)).
Proof.
  unfold findClaimCandidates. rewrite Htenant. apply holds_collection.
  eapply holds_bind; [by apply holds_silent|]. intros raws. apply holds_pure. intros Ha.
  destruct raws as [raws|]; [|apply holds_err]. apply holds_ret. intros U R HA.
  destruct (decodeClaimCursor _ raws) as [cands|] eqn:E; simpl; [|done]. split; [|done]. intros Hne.
  apply traverse_Forall2 in E. apply Forall_forall. intros c (i & Hi)%list_elem_of_lookup.
  destruct (Forall2_lookup_r _ _ _ _ _ E Hi) as (raw & Hraw & Hdec).
  destruct (Ha _ raw eq_refl) as (d & -> & Hm); [by eapply list_elem_of_lookup_2|].
  eapply decode_claim_tenant; [exact Hdec|done| |by eapply tenantIDFromContext_trimmed].
  rewrite project_field, bool_decide_true by (rewrite Hne; set_solver). apply (matches_eq _ _ _ _ Hm).
  rewrite merge_lookup. cbn [foldl]. rewrite tenant_filter_own by done. by destruct (filter !! _).
Qed.

Context (setForCandidate : document → prog bdoc) (Hset : set_ok setForCandidate).

(** What is known after a token was drawn and before the read-back. *)
Definition about_to_read (claimed : list document) (T : text) : assertion := λ U R,
  claimed_are t claimed U R ∧ T ∈ U ∧ T ∉ R.*1.

(** What is known after a batch. *)
Definition batch_read (claimed batch : list document) (T : text) : assertion := λ U R,
  claimed_are t (claimed ++ batch) U R ∧
  (T ≠ [] → T ∈ U ∧ kind T = Some from ∧ ∀ raw, (T, raw) ∈ R → ∃ id, id ∈ Doc.ID <$> batch ∧ field raw f_id = BString id).

Lemma NewUUID_holds claimed :
  holds (claimed_are t claimed) (perform NewUUID) (λ T U R, kind T = Some from ∧ about_to_read claimed T U R).
Proof.
  apply holds_perform; [done|]. intros T U R [H1 H2 H3] Ha Hn. simpl in *. rewrite app_nil_r.
  apply NoDup_app in Hn as (_ & Hn & _). split; [done|]. split_and!; [split; [done..|]| |].
  - intros T' raw Hin. apply elem_of_app. left. by eapply H3.
  - set_solver.
  - rewrite list_elem_of_fmap. intros ([T' raw] & -> & Hin). apply (Hn T'); [by eapply H3|set_solver].
Qed.

Lemma claimed_filter_tenant ids T tenant : is_empty (tenantField repo) = false →
  mergeFilters (<[mongoFieldClaimToken := CEq (BString T)]> {[ f_id := CIn ids ]}) [tenantMatchFilter repo tenant]
    !! tenantField repo = Some (CEq (BString tenant)).
Proof. intros Hne. rewrite merge_lookup. cbn [foldl]. rewrite tenant_filter_own by done. by destruct (_ !! tenantField repo). Qed.

Lemma claimed_filter_other ids T tenant k : k ∈ reserved →
  mergeFilters (<[mongoFieldClaimToken := CEq (BString T)]> {[ f_id := CIn ids ]}) [tenantMatchFilter repo tenant]
    !! k = (<[mongoFieldClaimToken := CEq (BString T)]> {[ f_id := CIn ids ]} : mfilter) !! k.
Proof. intros Hk. rewrite merge_lookup. cbn [foldl]. rewrite tenant_filter_other by done. by destruct (_ !! k). Qed.

(** The read-back of a batch. *)
Lemma read_back_holds claimed T (ids : list text) tenant sortSpec :
  (is_empty (tenantField repo) = false → tenant = t) →
  let f := mergeFilters (<[mongoFieldClaimToken := CEq (BString T)]> {[ f_id := CIn (BString <$> ids) ]})
             [tenantMatchFilter repo tenant] in
  holds (λ U R, kind T = Some from ∧ about_to_read claimed T U R) (perform (Find f sortSpec None None)) (λ raws U R,
    match raws with
    | None => True
    | Some raws => ∀ docs, decodeCursor (tenantField repo) raws = Ok docs → batch_read claimed docs T U R
    end).
Proof.
  intros Hten f.
  assert (f !! mongoFieldClaimToken = Some (CEq (BString T))) as HfT.
  { unfold f. rewrite claimed_filter_other by solve_name. by lookups. }
  apply holds_perform.
  { intros U R (HT & Hca & HU & HR). exists T. done. }
  intros [raws|] U R (HT & [H1 H2 H3] & HU & HR) Ha _; [|done]. intros docs Hdocs%traverse_Forall2.
  cbn [drawn_in read_back]. rewrite HfT, app_nil_r.
  assert (Forall2 (λ raw doc, field raw f_id = BString (Doc.ID doc) ∧ tenant_is t raw) raws docs) as Hall.
  { apply Forall2_same_length_lookup. split; [by eapply Forall2_length|]. intros i raw doc Hraw Hdoc.
    destruct (Ha raws raw eq_refl) as (d & -> & Hm); [by eapply list_elem_of_lookup_2|]. simpl.
    assert (field d f_id ∈ BString <$> ids) as (id & Hid & _)%list_elem_of_fmap.
    { refine (bool_decide_unpack _ _). apply Is_true_true.
      apply (matches_field f d f_id (CIn (BString <$> ids)) Hm). unfold f.
      rewrite claimed_filter_other by solve_name. by lookups. }
    rewrite Hid. split.
    - f_equal. symmetry. eapply decode_document_id; [|exact Hid].
      destruct (Forall2_lookup_l _ _ _ _ _ Hdocs Hraw) as (doc' & E & Hdec). by simplify_eq.
    - intros Hne. rewrite <- (Hten Hne). apply (matches_eq _ _ _ _ Hm). by apply claimed_filter_tenant. }
  split; [split|].
  - rewrite !fmap_app, H1. f_equal. rewrite <- list_fmap_compose. clear -Hall.
    induction Hall as [|raw doc raws docs [E _] _ IH]; csimpl; [done|]. by rewrite E, IH.
  - intros h [Hh|(raw & -> & Hin)%list_elem_of_fmap]%elem_of_app; [by apply H2|]. simpl.
    apply list_elem_of_lookup in Hin as [i Hi]. by destruct (Forall2_lookup_l _ _ _ _ _ Hall Hi) as (? & _ & _ & ?).
  - intros T' raw [Hh|(raw' & E & Hin)%list_elem_of_fmap]%elem_of_app; [by eapply H3|]. by simplify_eq.
  - intros _. split_and!; [done..|]. intros raw [Hh|(raw' & E & Hin)%list_elem_of_fmap]%elem_of_app.
    { destruct HR. apply list_elem_of_fmap. by exists (T, raw). }
    simplify_eq. apply list_elem_of_lookup in Hin as [i Hi].
    destruct (Forall2_lookup_l _ _ _ _ _ Hall Hi) as (doc & Hdoc & E & _). exists (Doc.ID doc). split; [|done].
    apply list_elem_of_fmap_2. by eapply list_elem_of_lookup_2.
Qed.

Lemma claimDocuments_holds claimed cands sortSpec :
  (is_empty (tenantField repo) = false → Forall (λ c, Doc.TenantID c = t) cands) →
  holds (claimed_are t claimed) (claimDocuments repo cands (phase_text from) sortSpec setForCandidate)
    (on_ok (λ x, batch_read claimed x.1.1 x.2)).
Proof.
  intros Hten. destruct cands as [|first cands].
  { apply holds_ret. intros U R Hca. split; simpl; [by rewrite app_nil_r|done]. }
  unfold claimDocuments. apply holds_collection.
  eapply holds_bind; [apply NewUUID_holds|]. intros T. apply holds_pure. intros HT.
  eapply holds_bind; [by apply claim_models_holds|]. intros models. apply holds_pure. intros Hm.
  eapply holds_bind; [by apply BulkWrite_holds|]. intros [n|]; [|apply holds_err].
  apply holds_if; intros _.
  { apply holds_ret. intros U R (Hca & HU & HR). split; simpl; [by rewrite app_nil_r|]. intros _. split_and!; [done..|].
    intros raw Hin. destruct HR. apply list_elem_of_fmap. by exists (T, raw). }
  eapply holds_bind.
  { eapply holds_pre; [|apply read_back_holds].
    - by intros U R HU.
    - intros Hne. specialize (Hten Hne). by apply Forall_cons in Hten as [-> _]. }
  intros [raws|]; [|apply holds_err]. apply holds_ret. intros U R Hr.
  destruct (decodeCursor _ raws) as [docs|] eqn:E; [|done]. by apply Hr.
Qed.

Context (Hfrom : from = Pending ∨ from = Failed ∨ from = Processing).

Lemma rollbackMissingClaims_holds claimed cands batch T :
  holds (batch_read claimed batch T) (rollbackMissingClaims repo cands batch T OutboxStatusProcessing (phase_text from))
    (on_ok (λ _, claimed_are t (claimed ++ batch))).
Proof.
  unfold rollbackMissingClaims. destruct (is_empty T) eqn:HT.
  { apply holds_ret. by intros U R [Hca _]. }
  apply is_empty_false in HT.
  assert (holds (batch_read claimed batch T) (rollback_models repo cands (Doc.ID <$> batch) T OutboxStatusProcessing (phase_text from))
    (λ models U R, models_ok (batch_read claimed batch T) models ∧ batch_read claimed batch T U R)) as Hr.
  { eapply (holds_pre _ (λ U R, kind T = Some from ∧ batch_read claimed batch T U R)).
    - intros U R Hb. split; [|done]. by destruct Hb as [_ (_ & ? & _)].
    - apply holds_pure. intros Hk. apply rollback_models_holds; [done..|].
      intros U R [_ Hb]. destruct (Hb HT) as (? & _ & ?). done. }
  eapply holds_bind; [exact Hr|]. intros models. apply holds_pure. intros Hm. destruct models as [|fu models].
  { apply holds_ret. by intros U R [Hca _]. }
  apply holds_collection. eapply holds_bind; [by apply BulkWrite_holds|]. intros [n|]; [|apply holds_err].
  apply holds_ret. by intros U R [Hca _].
Qed.

Lemma claim_loop_holds n filter sortSpec limit claimed :
  holds (claimed_are t claimed)
    (claim_loop repo n ctx filter sortSpec limit (phase_text from) OutboxStatusProcessing setForCandidate claimed)
    (on_ok (λ docs, claimed_are t docs)).
Proof.
  revert claimed. induction n as [|n IH]; intros claimed; cbn [claim_loop]; [by apply holds_ret|].
  apply holds_if; intros _; [by apply holds_ret|].
  eapply holds_try; [apply findClaimCandidates_holds|]. intros cands. apply holds_pure. intros Hten.
  destruct cands as [|first cands]; [by apply holds_ret|].
  eapply holds_try; [by apply claimDocuments_holds|]. intros [[batch modified] T]. cbn [fst snd].
  apply holds_if; intros _.
  { eapply holds_try; [apply rollbackMissingClaims_holds|]. intros []. apply IH. }
  assert (∀ p : prog (result mongo_error (list document)), holds (claimed_are t (claimed ++ batch)) p (on_ok (λ docs, claimed_are t docs)) →
    holds (batch_read claimed batch T) p (on_ok (λ docs, claimed_are t docs))) as Hweak.
  { intros p. apply holds_pre. by intros U R []. }
  apply Hweak. repeat (apply holds_if; intros _; [by apply holds_ret|]). apply IH.
Qed.
End claiming.

(** *** The calls *)

(** What a claiming call returns. *)
Definition returned (ctx : Ctx) (events : list OutboxEvent) : assertion := λ U R,
  ∃ t docs, tenantIDFromContext repo ctx = Ok t ∧ docsToEvents docs = Ok events ∧ claimed_are t docs U R.

Lemma claimMatching_holds ctx filter sortSpec limit setForCandidate :
  set_ok setForCandidate → from = Pending ∨ from = Failed ∨ from = Processing → 0 < limit →
  holds (λ U R, U = [] ∧ R = [])
    (claimMatching repo ctx filter sortSpec limit (phase_text from) OutboxStatusProcessing setForCandidate)
    (on_ok (λ docs U R, ∃ t, tenantIDFromContext repo ctx = Ok t ∧ claimed_are t docs U R)).
Proof.
  intros Hset Hfrom Hlim. destruct (tenantIDFromContext repo ctx) as [t|e] eqn:Ht.
  - eapply holds_weaken; [| |by apply (claim_loop_holds ctx t)].
    + intros U R [-> ->]. split; [done|..]; intros *; by rewrite elem_of_nil.
    + intros [docs|] U R Hca; [|done]. by exists t.
  - unfold claimMatching, maxListScanMultiplier. cbn [claim_loop]. simpl length.
    rewrite bool_decide_false by lia. unfold findClaimCandidates. rewrite Ht. apply holds_err.
Qed.

Abbreviation fresh_start := (λ U R, U = [] ∧ R = []).

Lemma claimPending_holds ctx limit eventType : from = Pending →
  holds fresh_start (claimPending repo ctx limit eventType) (on_ok (returned ctx)).
Proof.
  intros Hf. unfold claimPending. apply holds_if; intros _; [apply holds_err|].
  apply holds_if; intros Hlim; [apply holds_err|]. apply bool_decide_eq_false in Hlim.
  change OutboxStatusPending with (phase_text Pending). rewrite <- Hf.
  eapply holds_try; [apply claimMatching_holds; [apply set_processing_ok|..|lia]; auto|].
  intros docs. apply holds_ret. intros U R (t & Ht & Hca). destruct (docsToEvents docs) eqn:E; [|done]. by exists t, docs.
Qed.

Lemma ListPending_holds ctx limit : from = Pending → holds fresh_start (ListPending repo ctx limit) (on_ok (returned ctx)).
Proof. apply claimPending_holds. Qed.

Lemma ListPendingByType_holds ctx eventType limit : from = Pending →
  holds fresh_start (ListPendingByType repo ctx eventType limit) (on_ok (returned ctx)).
Proof.
  intros Hf. unfold ListPendingByType. apply holds_if; intros _; [apply holds_err|].
  apply holds_if; intros _; [apply holds_err|]. apply holds_if; intros _; [apply holds_err|]. by apply claimPending_holds.
Qed.

(** The other calls: only their commands matter. *)
Abbreviation behaves p := (holds fresh_start p (on_ok (λ _ _ _, True))).

(** The guards of a call. *)
Ltac guards :=
  repeat first [ apply holds_err | apply holds_collection | apply holds_or_fail; intros ? ?
               | apply holds_if; intros ?; [first [apply holds_err | by apply holds_ret]|] ].

Lemma ResetForRetry_behaves ctx limit failedBefore maxAttempts : from = Failed →
  behaves (ResetForRetry repo ctx limit failedBefore maxAttempts).
Proof.
  intros Hf. unfold ResetForRetry. guards. bool_to_prop. change OutboxStatusFailed with (phase_text Failed). rewrite <- Hf.
  eapply holds_try; [apply claimMatching_holds; [apply set_processing_ok|..|lia]; auto|].
  intros docs. apply holds_ret. intros U R _. by destruct (docsToEvents docs).
Qed.

Lemma ReclaimStuckProcessing_behaves ctx limit processingBefore : from = Processing →
  behaves (ReclaimStuckProcessing repo ctx limit processingBefore m).
Proof.
  intros Hf. unfold ReclaimStuckProcessing. guards. bool_to_prop.
  change OutboxStatusProcessing with (phase_text Processing) at 2. rewrite <- Hf.
  eapply holds_try; [apply claimMatching_holds; [apply set_stuck_ok|..|lia]; auto|].
  intros docs. apply holds_ret. intros U R _. by destruct (docsToEvents docs).
Qed.

Lemma ResetStuckProcessing_behaves ctx limit processingBefore : from = Processing →
  behaves (ResetStuckProcessing repo ctx limit processingBefore m).
Proof.
  intros Hf. eapply holds_bind; [by apply ReclaimStuckProcessing_behaves|]. intros r. apply holds_ret.
  intros U R _. by destruct r as [[]|].
Qed.

(** A command at the end of a call, or before a result that does not matter. *)
Lemma holds_last {X : Type} A c (k : answer c → prog (result mongo_error X)) :
  (∀ x, drawn_in (Ev c x) = []) → (∀ x, read_back (Ev c x) = []) → (∀ U R, permitted U R c) →
  (∀ x, holds A (k x) (on_ok (λ _ _ _, True))) → holds A (x ← perform c; k x) (on_ok (λ _ _ _, True)).
Proof.
  intros H1 H2 H3 Hk. eapply holds_bind; [by apply holds_silent|]. intros x.
  eapply holds_pre; [|apply Hk]. by intros U R [_ ?].
Qed.

Lemma holds_end {X : Type} A (r : result mongo_error X) : holds A (mret r) (on_ok (λ _ _ _, True)).
Proof. apply holds_ret. intros U R _. by destruct r. Qed.

Lemma create_fresh event now t : fresh_doc (toBSON (normalizedCreateValues event now t) (tenantField repo)).
Proof.
  destruct (toBSON_fields (tenantField repo) (normalizedCreateValues event now t) Hsane)
    as (E1 & _ & _ & _ & E5 & E6 & _ & _ & _ & _ & _ & E12).
  split; [by exists (ID event)|]. split; [by split|done].
Qed.

Lemma Create_behaves ctx event : behaves (Create repo ctx event).
Proof.
  unfold Create. guards. apply holds_last; [done..|]. intros now. guards.
  apply holds_last; [done..|intros U R; apply create_fresh|]. intros []; [apply holds_end|apply holds_err].
Qed.

Lemma CreateWithTx_behaves ctx tx event : behaves (CreateWithTx repo ctx tx event).
Proof. destruct tx; [apply holds_err|apply Create_behaves]. Qed.

Lemma MarkPublished_behaves ctx id publishedAt : behaves (MarkPublished repo ctx id publishedAt).
Proof.
  unfold MarkPublished. guards. apply holds_last; [done..|]. intros now.
  apply holds_last; [done..|intros U R; by apply publish_ok|]. intros r. apply holds_end.
Qed.

Lemma MarkInvalid_behaves ctx id errMsg : behaves (MarkInvalid repo ctx id errMsg).
Proof.
  unfold MarkInvalid. guards. apply holds_last; [done..|]. intros now.
  apply holds_last; [done..|intros U R; by apply invalid_ok|]. intros r. apply holds_end.
Qed.

Lemma decodeSingle_holds A filter : holds A (decodeSingle repo filter) (on_ok (λ _, A)).
Proof.
  eapply holds_bind; [by apply holds_silent|]. intros [[|raw raws]|]; [apply holds_err| |apply holds_err].
  apply holds_ret. intros U R [_ HA]. by destruct (decode_document _ raw).
Qed.

Lemma MarkFailed_behaves ctx id errMsg : behaves (MarkFailed repo ctx id errMsg m).
Proof.
  unfold MarkFailed. guards. unfold getByIDAndStatus. eapply (holds_bind _ _ (on_ok (λ _ _ _, True))).
  { guards. eapply holds_weaken; [| |apply (decodeSingle_holds (λ _ _, True))]; [done|]. by intros [] U R. }
  intros [doc|e]; [|apply holds_err]. apply (holds_pre _ (λ _ _, True)); [done|]. guards.
  apply holds_last; [done..|]. intros now. apply holds_last; [done..|intros U R; by apply fail_ok|].
  intros r. apply holds_end.
Qed.

Lemma GetByID_behaves ctx id : behaves (GetByID repo ctx id).
Proof. unfold GetByID. guards. eapply holds_try; [apply decodeSingle_holds|]. intros doc. apply holds_end. Qed.

Lemma ListFailedForRetry_behaves ctx limit failedBefore maxAttempts :
  behaves (ListFailedForRetry repo ctx limit failedBefore maxAttempts).
Proof.
  unfold ListFailedForRetry. guards. unfold findCandidates. eapply (holds_bind _ _ (on_ok (λ _ _ _, True))).
  - guards. apply holds_last; [done..|]. intros [raws|]; [apply holds_end|apply holds_err].
  - intros [docs|]; [apply holds_end|apply holds_err].
Qed.

Lemma distinctTenants_holds A filter : holds A (distinctTenants repo filter) (on_ok (λ _ _ _, True)).
Proof. apply holds_last; [done..|]. intros [vs|]; [apply holds_end|apply holds_err]. Qed.

Lemma ListTenants_behaves ctx : behaves (ListTenants repo ctx).
Proof.
  unfold ListTenants. guards. apply holds_if; intros _.
  - apply holds_last; [done..|]. intros [vs|]; [apply holds_end|apply holds_err].
  - guards. apply distinctTenants_holds.
Qed.

Lemma ListTenantsWithPublishedBefore_behaves ctx before keep :
  behaves (ListTenantsWithPublishedBefore repo ctx before keep).
Proof. unfold ListTenantsWithPublishedBefore. guards. apply distinctTenants_holds. Qed.

Lemma published_filter_status before keep extras :
  Forall (λ extra : mfilter, extra !! mongoFieldStatus = None) extras →
  mergeFilters (publishedBeforeFilter before keep) extras !! mongoFieldStatus = Some (CEq (BString OutboxStatusPublished)).
Proof.
  intros Hx. rewrite merge_lookup.
  assert (publishedBeforeFilter before keep !! mongoFieldStatus = Some (CEq (BString OutboxStatusPublished))) as ->.
  { unfold publishedBeforeFilter. destruct (List.filter _ _); by lookups. }
  induction Hx as [|e es He _ IH]; cbn [foldl]; [done|]. by rewrite He.
Qed.

Lemma DeletePublishedBefore_behaves ctx before keep limit : purging = true →
  behaves (DeletePublishedBefore repo ctx before keep limit).
Proof.
  intros Hp. unfold DeletePublishedBefore, deletePublishedBefore. guards.
  apply holds_last; [done..|]. intros [raws|]; [|apply holds_err]. guards. destruct a0 as [|id ids]; [by apply holds_ret|].
  apply holds_last; [done..| |intros [n|]; [apply holds_end|apply holds_err]].
  intros U R. split; [done|].
  apply (published_filter_status before keep [tenantMatchFilter repo _; {[ f_id := CIn _ ]}]).
  constructor; [apply tenant_filter_other; [done|solve_name]|]. constructor; [by lookups|constructor].
Qed.
End calls.
