(* ===== verification/OutboxMongoGuarantees.v ===== *)
(** The MongoDB outbox under any interleaving of concurrent calls.

    Calls of any kind, in any number, interleave command by command on one
    collection; commands may be refused, and replies may be lost.  Every command
    is a step of the life cycle, and no pending event is handed out twice. *)

From stdpp Require Import base numbers list gmap strings sorting.
From S2P Require Import Prelude GoText Effects OutboxLastError OutboxEvent OutboxMongo OutboxMongoLifecycle OutboxMongoClaims.

Local Open Scope Z_scope.
Local Open Scope go_scope.

(** ** Calls *)

Inductive call :=
| CallCreate (ctx : Ctx) (tx : bool) (event : option OutboxEvent)
| CallListPending (ctx : Ctx) (limit : Z)
| CallListPendingByType (ctx : Ctx) (eventType : text) (limit : Z)
| CallListFailedForRetry (ctx : Ctx) (limit : Z) (failedBefore : gotime)
| CallResetForRetry (ctx : Ctx) (limit : Z) (failedBefore : gotime)
| CallReclaimStuckProcessing (ctx : Ctx) (limit : Z) (processingBefore : gotime)
| CallResetStuckProcessing (ctx : Ctx) (limit : Z) (processingBefore : gotime)
| CallMarkPublished (ctx : Ctx) (id : uuid) (publishedAt : gotime)
| CallMarkFailed (ctx : Ctx) (id : uuid) (errMsg : text)
| CallMarkInvalid (ctx : Ctx) (id : uuid) (errMsg : text)
| CallGetByID (ctx : Ctx) (id : uuid)
| CallListTenants (ctx : Ctx)
| CallDeletePublishedBefore (ctx : Ctx) (before : gotime) (keep : list text) (limit : Z)
| CallListTenantsWithPublishedBefore (ctx : Ctx) (before : gotime) (keep : list text).

(** What the list calls returned; the others' answers are not looked at. *)
Inductive outcome := Listed (r : result mongo_error (list OutboxEvent)) | Answered.

(** The phase a call claims from. *)
Definition call_from (j : call) : phase :=
  match j with
  | CallListPending _ _ | CallListPendingByType _ _ _ => Pending
  | CallResetForRetry _ _ _ => Failed
  | _ => Processing
  end.

Definition purges (j : call) : bool := match j with CallDeletePublishedBefore _ _ _ _ => true | _ => false end.

(** The context of a call that lists pending events. *)
Definition lists (j : call) : option Ctx :=
  match j with CallListPending ctx _ | CallListPendingByType ctx _ _ => Some ctx | _ => None end.

Section calls.
Context `{MongoPlatform} (m : Z) (repo : Repository).

(** One attempt budget for all the calls. *)
Definition call_prog (j : call) : prog outcome :=
  match j with
  | CallCreate ctx tx event => (λ _, Answered) <$> CreateWithTx repo ctx tx event
  | CallListPending ctx limit => Listed <$> ListPending repo ctx limit
  | CallListPendingByType ctx eventType limit => Listed <$> ListPendingByType repo ctx eventType limit
  | CallListFailedForRetry ctx limit before => (λ _, Answered) <$> ListFailedForRetry repo ctx limit before m
  | CallResetForRetry ctx limit before => (λ _, Answered) <$> ResetForRetry repo ctx limit before m
  | CallReclaimStuckProcessing ctx limit before => (λ _, Answered) <$> ReclaimStuckProcessing repo ctx limit before m
  | CallResetStuckProcessing ctx limit before => (λ _, Answered) <$> ResetStuckProcessing repo ctx limit before m
  | CallMarkPublished ctx id at' => (λ _, Answered) <$> MarkPublished repo ctx id at'
  | CallMarkFailed ctx id errMsg => (λ _, Answered) <$> MarkFailed repo ctx id errMsg m
  | CallMarkInvalid ctx id errMsg => (λ _, Answered) <$> MarkInvalid repo ctx id errMsg
  | CallGetByID ctx id => (λ _, Answered) <$> GetByID repo ctx id
  | CallListTenants ctx => (λ _, Answered) <$> ListTenants repo ctx
  | CallDeletePublishedBefore ctx before keep limit => (λ _, Answered) <$> DeletePublishedBefore repo ctx before keep limit
  | CallListTenantsWithPublishedBefore ctx before keep =>
    (λ _, Answered) <$> ListTenantsWithPublishedBefore repo ctx before keep
  end.

Context (kind : text → option phase) (Hbudget : 0 < m) (Hsane : tenantField repo ∉ reserved).

Definition call_post (j : call) (r : outcome) : assertion := λ U R,
  match lists j, r with Some ctx, Listed (Ok events) => returned repo ctx events U R | _, _ => True end.

Lemma call_prog_holds j :
  holds m repo kind (call_from j) (purges j) (λ U R, U = [] ∧ R = []) (call_prog j) (call_post j).
Proof.
  assert (∀ (p : prog (result mongo_error (list OutboxEvent))) ctx, lists j = Some ctx →
    holds m repo kind (call_from j) (purges j) (λ U R, U = [] ∧ R = []) p (on_ok (returned repo ctx)) →
    holds m repo kind (call_from j) (purges j) (λ U R, U = [] ∧ R = []) (Listed <$> p) (call_post j)) as Hl.
  { intros p ctx E Hp. eapply holds_bind; [exact Hp|]. intros r. apply holds_ret. unfold call_post. rewrite E. by intros U R. }
  assert (∀ X (p : prog (result mongo_error X)), lists j = None →
    holds m repo kind (call_from j) (purges j) (λ U R, U = [] ∧ R = []) p (on_ok (λ _ _ _, True)) →
    holds m repo kind (call_from j) (purges j) (λ U R, U = [] ∧ R = []) ((λ _, Answered) <$> p) (call_post j)) as Ho.
  { intros X p E Hp. eapply holds_bind; [exact Hp|]. intros r. apply holds_ret. unfold call_post. rewrite E. by intros U R. }
  destruct j; first [apply (Hl _ ctx eq_refl) | apply (Ho _ _ eq_refl)].
  - by apply CreateWithTx_behaves.
  - by apply ListPending_holds.
  - by apply ListPendingByType_holds.
  - by apply ListFailedForRetry_behaves.
  - by apply ResetForRetry_behaves.
  - by apply ReclaimStuckProcessing_behaves.
  - by apply ResetStuckProcessing_behaves.
  - by apply MarkPublished_behaves.
  - by apply MarkFailed_behaves.
  - by apply MarkInvalid_behaves.
  - by apply GetByID_behaves.
  - by apply ListTenants_behaves.
  - by apply DeletePublishedBefore_behaves.
  - by apply ListTenantsWithPublishedBefore_behaves.
Qed.

(** ** One command *)

Lemma fresh_doc_ok d : fresh_doc d → doc_ok m kind d.
Proof.
  intros (Hid & Hp & Ht). split; [done|by exists Pending, 0|]. intros T HT. by rewrite HT in Ht.
Qed.

Lemma insert_ok d coll :
  coll_ok m repo kind coll → fresh_doc d → doc_key repo d ∉ (doc_key repo <$> coll) →
  coll_step m repo coll (coll ++ [d]) ∧ coll_ok m repo kind (coll ++ [d]).
Proof.
  intros [Hd Hk] Hf Hn. split; [by apply cs_insert|]. split.
  - apply Forall_app. split; [done|]. constructor; [by apply fresh_doc_ok|constructor].
  - rewrite fmap_app. apply NoDup_app. split_and!; [done| |apply NoDup_singleton].
    intros k Hin ->%list_elem_of_singleton. done.
Qed.

Lemma purge_ok f coll :
  coll_ok m repo kind coll → f !! mongoFieldStatus = Some (CEq (BString OutboxStatusPublished)) →
  coll_step m repo coll (List.filter (λ d, negb (matches f d)) coll) ∧
  coll_ok m repo kind (List.filter (λ d, negb (matches f d)) coll).
Proof.
  intros [Hd Hk] Hf. split; [|split].
  - apply cs_purge. intros d _ Hm. by apply (matches_eq f).
  - by apply Forall_filter_keep.
  - eapply sublist_NoDup; [exact Hk|]. apply fmap_sublist, sublist_filter_bool.
Qed.

Context (from : phase) (purging : bool).

Lemma exec_ok l c coll U R :
  coll_ok m repo kind coll → permitted m repo kind purging U R c →
  coll_step m repo coll (exec repo l c coll).2 ∧ coll_ok m repo kind (exec repo l c coll).2.
Proof.
  clear Hbudget Hsane. intros Hc HP. assert (coll_step m repo coll coll ∧ coll_ok m repo kind coll) as Hsame by (split; [constructor|done]).
  destruct c; simpl; try done.
  - case_bool_decide; destruct (ch_fault l); try done; by apply insert_ok.
  - destruct (update_first f u coll) as [n coll'] eqn:E.
    destruct (ch_fault l); try done; eapply lawful_update; eauto; apply HP.
  - destruct HP as [_ HP]. destruct (ch_fault l); try done; by apply purge_ok.
Qed.

Lemma exec_answered l c coll :
  kind (ch_uuid l) = Some from → answered kind from (Ev c (exec repo l c coll).1).
Proof.
  intros Hk. destruct c; simpl; try done. intros docs raw. destruct (ch_fault l); [|done..]. intros [= <-].
  intros (d & -> & Hd%select_elem)%list_elem_of_fmap. exists d. split; [done|apply Hd].
Qed.

(** The documents read back are documents of the collection under the token. *)
Lemma exec_read_back l c coll U R :
  coll_ok m repo kind coll → permitted m repo kind purging U R c →
  (∀ T raw, (T, raw) ∈ read_back (Ev c (exec repo l c coll).1) →
     raw ∈ coll ∧ field raw mongoFieldClaimToken = BString T ∧ T ∉ R.*1) ∧
  NoDup ((λ h, (h.1, doc_key repo h.2)) <$> read_back (Ev c (exec repo l c coll).1)).
Proof.
  intros Hc HP. assert (∀ h, read_back (Ev c (exec repo l c coll).1) = h →
    (∀ T raw, (T, raw) ∈ h → raw ∈ coll ∧ field raw mongoFieldClaimToken = BString T ∧ T ∉ R.*1) ∧
    NoDup ((λ h, (h.1, doc_key repo h.2)) <$> h)) as Hh; [|by apply Hh].
  intros h <-. destruct c; simpl; try (split; [by intros *; rewrite elem_of_nil|constructor]).
  destruct limit; simpl; [split; [by intros *; rewrite elem_of_nil|constructor]|].
  destruct HP as (T & HT & _ & HR & ->). rewrite HT.
  destruct (ch_fault l); [|split; [by intros *; rewrite elem_of_nil|constructor]..]. cbn [project].
  rewrite list_fmap_id. split.
  - intros T' raw (d & [= -> ->] & Hin)%list_elem_of_fmap. apply (select_elem f sort None) in Hin as [Hin Hm].
    split_and!; [done| |done]. by apply (matches_eq f).
  - rewrite <- list_fmap_compose. change (NoDup ((λ d, (T, doc_key repo d)) <$> select_docs f sort None coll)).
    apply (NoDup_fmap_1 snd). rewrite <- list_fmap_compose. unfold select_docs. simpl.
    rewrite merge_sort_Permutation. eapply sublist_NoDup; [apply (ok_keys _ _ _ _ Hc)|]. apply fmap_sublist, sublist_filter_bool.
Qed.

(** An event handed out stays taken. *)
Lemma exec_keeps l c coll U R T d :
  purging = false → coll_ok m repo kind coll → permitted m repo kind purging U R c →
  kind T = Some Pending → d ∈ coll → taken kind T d →
  (T ∈ U → ∃ raw, (T, raw) ∈ R ∧ doc_key repo raw = doc_key repo d) →
  ∃ d', d' ∈ (exec repo l c coll).2 ∧ doc_key repo d' = doc_key repo d ∧ taken kind T d'.
Proof.
  clear Hbudget Hsane. intros Hnp Hc HP HT Hd Htk Hown. assert (∃ d', d' ∈ coll ∧ doc_key repo d' = doc_key repo d ∧ taken kind T d') as Hsame by eauto.
  destruct c; simpl; try done.
  - case_bool_decide; destruct (ch_fault l); try done; simpl; exists d; split_and!; try done; apply elem_of_app; by left.
  - destruct (update_first f u coll) as [n coll'] eqn:E. destruct (ch_fault l); try done; simpl.
    all: apply update_first_cases in E as [->|(l1 & d1 & l2 & -> & Hm & ->)]; [done|].
    all: apply elem_of_app in Hd as [Hd|[->|Hd]%elem_of_cons];
      [exists d; split_and!; [set_solver|done..]| |exists d; split_and!; [set_solver|done..]].
    all: exists (apply_update u d1); split_and!; [set_solver| |by eapply uo_taken].
    all: destruct Hc as [[_ [Hok _]%Forall_cons]%Forall_app _].
    all: destruct (uo_lawful _ _ _ _ _ _ _ HP d1 Hok Hm) as [[_ Hid] _]; by apply doc_key_step.
  - destruct HP as [HP _]. congruence.
Qed.
End calls.

(** ** Interleavings *)

Section interleaving.
Context `{MongoPlatform} (m : Z) (repo : Repository) (kind : text → option phase).
Context (Hbudget : 0 < m) (Hsane : tenantField repo ∉ reserved).

(** The calls, and the steps: which call moves, and what its surroundings
    answer.  No two steps offer the same UUID. *)
Context (calls : list call) (ls : list (nat * choice)).
Context (Huuids : NoDup ((ch_uuid ∘ snd) <$> ls)).
Context (Hkind : ∀ n i l j, ls !! n = Some (i, l) → calls !! i = Some j → kind (ch_uuid l) = Some (call_from j)).
Context (coll : list bdoc) (Hcoll : coll_ok m repo kind coll).

Definition world_at (n : nat) : world answer (list bdoc) outcome :=
  interleave (exec repo) (start coll (call_prog m repo <$> calls)) (take n ls).

Definition call_spec (j : call) : (list (event answer) → Prop) * (list (event answer) → outcome → Prop) :=
  let good := guarded (rely kind (call_from j)) (promise m repo kind (purges j)) in
  (good, λ tr x, good tr ∧ (rely kind (call_from j) tr → call_post repo j x (drawn tr) (handed tr))).

(** What is known of the call [i] after [n] steps. *)
Record thread_inv (n i : nat) (j : call) (t : thread answer outcome) : Prop := {
  ti_ok : thread_ok (call_spec j) t;
  ti_rely : rely kind (call_from j) (th_trace t);
  ti_drawn T : T ∈ drawn (th_trace t) → ∃ k l, (k < n)%nat ∧ ls !! k = Some (i, l) ∧ ch_uuid l = T;
  ti_handed T raw : (T, raw) ∈ handed (th_trace t) → T ∈ drawn (th_trace t);
  ti_once : NoDup ((λ h, (h.1, doc_key repo h.2)) <$> handed (th_trace t));
}.

Lemma thread_promise n i j t c k : thread_inv n i j t → th_rest t = Do c k →
  permitted m repo kind (purges j) (drawn (th_trace t)) (handed (th_trace t)) c.
Proof.
  intros [Hok Hr _ _ _] E. unfold thread_ok in Hok. rewrite E in Hok. destruct Hok as [_ Hok].
  assert (∃ x : answer c, True) as [x _] by (destruct c; repeat (by eexists None || by eexists true || by eexists 0 || by eexists [])).
  specialize (Hok x). apply wp_here, guarded_snoc in Hok as [_ Hok]. by apply Hok.
Qed.

Lemma uuid_unique k1 k2 i1 i2 l1 l2 :
  ls !! k1 = Some (i1, l1) → ls !! k2 = Some (i2, l2) → ch_uuid l1 = ch_uuid l2 → k1 = k2.
Proof.
  intros E1 E2 E. eapply NoDup_lookup; [exact Huuids|rewrite list_lookup_fmap, E1; done|].
  rewrite list_lookup_fmap, E2. simpl. by rewrite E.
Qed.

Lemma thread_inv_mono n i j t : thread_inv n i j t → thread_inv (S n) i j t.
Proof. intros [H1 H2 H3 H4 H5]. split; [done..| |done|done]. intros T HT. destruct (H3 T HT) as (k & l & ? & ?). exists k, l. split; [lia|done]. Qed.

Lemma drawn_new l c s T : T ∈ drawn_in (Ev c (exec repo l c s).1) → T = ch_uuid l.
Proof. destruct c; simpl; try by intros ?%elem_of_nil. by intros ->%list_elem_of_singleton. Qed.

Lemma drawn_fresh n i j t l c s : ls !! n = Some (i, l) → thread_inv n i j t →
  NoDup (drawn (th_trace t) ++ drawn_in (Ev c (exec repo l c s).1)).
Proof.
  intros Hn Ht. apply NoDup_app. split_and!; [apply Ht| |].
  - intros T H1 ->%drawn_new. destruct (ti_drawn _ _ _ _ Ht _ H1) as (k & l' & Hk & E & E').
    pose proof (uuid_unique _ _ _ _ _ _ Hn E (eq_sym E')). lia.
  - destruct c; simpl; constructor; [by intros ?%elem_of_nil|constructor].
Qed.

(** The moving call keeps its invariant. *)
Lemma thread_step n i j t l c k s :
  calls !! i = Some j → ls !! n = Some (i, l) → thread_inv n i j t → th_rest t = Do c k → coll_ok m repo kind s →
  thread_inv (S n) i j {| th_trace := th_trace t ++ [Ev c (exec repo l c s).1]; th_rest := k (exec repo l c s).1 |}.
Proof.
  intros Hj Hn Ht E Hs. pose proof (thread_promise _ _ _ _ _ _ Ht E) as Hp.
  pose proof (exec_read_back m repo kind (purges j) l c s _ _ Hs Hp) as [Hrd Hnd].
  split; cbn [th_trace th_rest].
  - unfold thread_ok. pose proof (ti_ok _ _ _ _ Ht) as Hok. unfold thread_ok in Hok. rewrite E in Hok. apply Hok.
  - unfold rely. rewrite drawn_snoc. split; [|by eapply drawn_fresh].
    apply Forall_app. split; [apply Ht|]. constructor; [|constructor]. apply exec_answered. by eapply Hkind.
  - rewrite drawn_snoc. intros T [HT| ->%drawn_new]%elem_of_app; [|by exists n, l; split; [lia|]].
    destruct (ti_drawn _ _ _ _ Ht T HT) as (k' & l' & ? & ?). exists k', l'. split; [lia|done].
  - rewrite drawn_snoc, handed_snoc. intros T raw [HT|HT]%elem_of_app; apply elem_of_app; left; [by eapply ti_handed|].
    destruct c; try by apply elem_of_nil in HT. destruct limit; [by apply elem_of_nil in HT|].
    destruct Hp as (T' & HT' & HU & _). cbn [read_back] in HT. rewrite HT' in HT.
    destruct (exec repo l (Find f sort None projection) s).1 as [raws|]; [|by apply elem_of_nil in HT].
    apply list_elem_of_fmap in HT as (? & [= -> ->] & _). done.
  - rewrite handed_snoc, fmap_app. apply NoDup_app. split_and!; [apply Ht| |done].
    intros [T key] (h & [= -> ->] & Hh)%list_elem_of_fmap ([T2 raw2] & [= E1 E2] & Hh2)%list_elem_of_fmap. simpl in E1.
    apply Hrd in Hh2 as (_ & _ & []). apply list_elem_of_fmap. by exists h.
Qed.

Definition no_purge : Prop := ∀ j, j ∈ calls → purges j = false.

(** The pending events handed out so far, with the token of their claim. *)
Definition handed_out (w : world answer (list bdoc) outcome) (T : text) (raw : bdoc) : Prop :=
  kind T = Some Pending ∧ ∃ i t, w_threads w !! i = Some t ∧ (T, raw) ∈ handed (th_trace t).

Record world_inv (n : nat) (w : world answer (list bdoc) outcome) : Prop := {
  wi_coll : coll_ok m repo kind (w_state w);
  wi_threads i t : w_threads w !! i = Some t → ∃ j, calls !! i = Some j ∧ thread_inv n i j t;
  wi_taken T raw : no_purge → handed_out w T raw →
    ∃ d, d ∈ w_state w ∧ doc_key repo d = doc_key repo raw ∧ taken kind T d;
  wi_unique T1 raw1 T2 raw2 : no_purge → handed_out w T1 raw1 → handed_out w T2 raw2 →
    doc_key repo raw1 = doc_key repo raw2 → T1 = T2;
}.

Lemma world_inv_start : world_inv 0 (world_at 0).
Proof.
  assert (∀ T raw, ¬ handed_out (world_at 0) T raw) as Hnone.
  { intros T raw (_ & i & t & Ht & Hin). unfold world_at, start in Ht. simpl in Ht. rewrite list_lookup_fmap in Ht.
    destruct (_ !! i) in Ht; simplify_eq/=. by apply elem_of_nil in Hin. }
  split; [done| |by intros T raw _ ?%Hnone|by intros T1 raw1 T2 raw2 _ ?%Hnone].
  intros i t Ht. unfold world_at, start in Ht. simpl in Ht. rewrite !list_lookup_fmap in Ht.
  destruct (calls !! i) as [j|] eqn:Ej; simplify_eq/=. exists j. split; [done|]. split; simpl; [|split; constructor|..].
  - unfold thread_ok. simpl. pose proof (call_prog_holds m repo kind Hbudget Hsane j) as Hj.
    apply Hj. split; [apply guarded_nil|done].
  - by intros T ?%elem_of_nil.
  - by intros T raw ?%elem_of_nil.
  - constructor.
Qed.

(** Two documents of the collection with one key are one. *)
Lemma key_unique s d1 d2 : coll_ok m repo kind s → d1 ∈ s → d2 ∈ s → doc_key repo d1 = doc_key repo d2 → d1 = d2.
Proof.
  intros Hs (i & Hi)%list_elem_of_lookup (k & Hk)%list_elem_of_lookup E.
  assert (i = k) as ->; [|congruence]. eapply NoDup_lookup; [apply Hs|by rewrite list_lookup_fmap, Hi|].
  rewrite list_lookup_fmap, Hk. simpl. by rewrite E.
Qed.

(** A document read back under a token of a listing call is taken by it. *)
Lemma read_taken s d T : coll_ok m repo kind s → d ∈ s → field d mongoFieldClaimToken = BString T → kind T = Some Pending →
  taken kind T d.
Proof.
  intros [Hs _] Hd HT Hk. rewrite Forall_forall in Hs. specialize (Hs d Hd).
  pose proof (ok_token _ _ _ Hs T HT) as Hp. rewrite Hk in Hp. split.
  - destruct Hp as [-> _]. done.
  - intros T' HT' _. congruence.
Qed.

Lemma drawn_by_one n i1 i2 j1 j2 t1 t2 T :
  thread_inv n i1 j1 t1 → thread_inv n i2 j2 t2 → T ∈ drawn (th_trace t1) → T ∈ drawn (th_trace t2) → i1 = i2.
Proof.
  intros H1 H2 (k1 & l1 & _ & E1 & ET1)%(ti_drawn _ _ _ _ H1) (k2 & l2 & _ & E2 & ET2)%(ti_drawn _ _ _ _ H2).
  assert (k1 = k2) as -> by (eapply uuid_unique; [exact E1|exact E2|congruence]). congruence.
Qed.

(** What a step hands out: what was handed out, or what it reads back. *)
Lemma handed_out_step w i t e rest s T raw : w_threads w !! i = Some t →
  handed_out {| w_state := s; w_threads := <[i := {| th_trace := th_trace t ++ [e]; th_rest := rest |}]> (w_threads w) |} T raw →
  handed_out w T raw ∨ (kind T = Some Pending ∧ (T, raw) ∈ read_back e).
Proof.
  intros Ht (Hk & i2 & t2 & Ht2 & Hin). simpl in Ht2. apply list_lookup_insert_Some in Ht2 as [(-> & <- & _)|[Hne Ht2]].
  - simpl in Hin. rewrite handed_snoc in Hin. apply elem_of_app in Hin as [Hin|Hin]; [|by right].
    left. split; [done|]. by exists i2, t.
  - left. split; [done|]. by exists i2, t2.
Qed.

Lemma world_inv_mono n w : world_inv n w → world_inv (S n) w.
Proof.
  intros [H1 H2 H3 H4]. split; [done| |done|done]. intros i t Ht. destruct (H2 i t Ht) as (j & Hj & Hi).
  exists j. split; [done|by apply thread_inv_mono].
Qed.

(** Events handed out before a step are taken after it. *)
Lemma taken_step n w i j t l c k T raw :
  world_inv n w → no_purge → w_threads w !! i = Some t → calls !! i = Some j → thread_inv n i j t → th_rest t = Do c k →
  handed_out w T raw →
  ∃ d, d ∈ (exec repo l c (w_state w)).2 ∧ doc_key repo d = doc_key repo raw ∧ taken kind T d.
Proof.
  intros Hw Hnp Ht Hj Hi E Hh. destruct (wi_taken _ _ Hw T raw Hnp Hh) as (d & Hd & Hkey & Htk).
  rewrite <- Hkey. pose proof (thread_promise _ _ _ _ _ _ Hi E) as Hp. destruct Hh as (Hk & i2 & t2 & Ht2 & Hin).
  eapply exec_keeps; [|apply Hw|exact Hp|exact Hk|exact Hd|exact Htk|].
  { apply Hnp. by eapply list_elem_of_lookup_2. }
  intros HU. destruct (wi_threads _ _ Hw _ _ Ht2) as (j2 & Hj2 & Hi2).
  assert (i2 = i) as -> by (eapply drawn_by_one; [exact Hi2|exact Hi|by eapply ti_handed|done]).
  rewrite Ht in Ht2. injection Ht2 as <-. by exists raw.
Qed.

Lemma read_back_state l c s T raw : (T, raw) ∈ read_back (Ev c (exec repo l c s).1) → (exec repo l c s).2 = s.
Proof. destruct c; try by intros ?%elem_of_nil. done. Qed.

(** A document read back that was handed out before was handed out under the
    same token. *)
Lemma read_again n w T1 raw1 T2 raw2 :
  world_inv n w → no_purge → handed_out w T1 raw1 → raw2 ∈ w_state w → field raw2 mongoFieldClaimToken = BString T2 →
  kind T2 = Some Pending → doc_key repo raw1 = doc_key repo raw2 → T1 = T2.
Proof.
  intros Hw Hnp Hh Hin HT Hk E. destruct (wi_taken _ _ Hw _ _ Hnp Hh) as (d & Hd & Hkey & _ & Htk).
  assert (d = raw2) as -> by (eapply key_unique; [apply Hw|done|done|congruence]). symmetry. by apply Htk.
Qed.

Lemma world_step n i l w : ls !! n = Some (i, l) → world_inv n w →
  coll_step m repo (w_state w) (w_state (step (exec repo) w (i, l))) ∧ world_inv (S n) (step (exec repo) w (i, l)).
Proof.
  intros Hn Hw. destruct (step_cases (exec repo) w i l) as [->|(t & c & k & Ht & E & ->)].
  { split; [constructor|by apply world_inv_mono]. }
  destruct (wi_threads _ _ Hw _ _ Ht) as (j & Hj & Hi). pose proof (thread_promise _ _ _ _ _ _ Hi E) as Hp.
  destruct (exec_ok m repo kind (purges j) l c _ _ _ (wi_coll _ _ Hw) Hp) as [Hs Hc].
  pose proof (exec_read_back m repo kind (purges j) l c _ _ _ (wi_coll _ _ Hw) Hp) as [Hrd _].
  split; [done|]. split; [done|..].
  - intros i2 t2 Ht2. apply list_lookup_insert_Some in Ht2 as [(-> & <- & _)|[Hne Ht2]].
    + exists j. split; [done|]. by apply thread_step; [..|apply Hw].
    + destruct (wi_threads _ _ Hw _ _ Ht2) as (j2 & Hj2 & Hi2). exists j2. split; [done|by apply thread_inv_mono].
  - intros T raw Hnp [Hh|[HT Hr]]%(handed_out_step _ _ _ _ _ _ _ _ Ht); [by eapply taken_step|].
    rewrite (read_back_state _ _ _ _ _ Hr). apply Hrd in Hr as (Hin & Htok & _). exists raw. split_and!; [done..|].
    by eapply read_taken; [apply Hw|..].
  - intros T1 raw1 T2 raw2 Hnp [H1|[HT1 (Hin1 & Htok1 & _)%Hrd]]%(handed_out_step _ _ _ _ _ _ _ _ Ht)
      [H2|[HT2 (Hin2 & Htok2 & _)%Hrd]]%(handed_out_step _ _ _ _ _ _ _ _ Ht) Hkey.
    + by eapply (wi_unique _ _ Hw).
    + by eapply read_again.
    + symmetry. by eapply read_again.
    + assert (raw1 = raw2) as -> by (eapply key_unique; [apply Hw|done..]). congruence.
Qed.

Lemma world_at_step n il : ls !! n = Some il → world_at (S n) = step (exec repo) (world_at n) il.
Proof. intros E. unfold world_at, interleave. rewrite (take_S_r _ _ _ E), foldl_app. done. Qed.

Lemma world_at_inv n : (n ≤ length ls)%nat → world_inv n (world_at n).
Proof.
  induction n as [|n IH]; intros Hn; [apply world_inv_start|].
  destruct (lookup_lt_is_Some_2 ls n) as [[i l] E]; [lia|]. rewrite (world_at_step _ _ E).
  apply world_step; [done|]. apply IH. lia.
Qed.

Lemma world_at_coll_step n : (n < length ls)%nat →
  coll_step m repo (w_state (world_at n)) (w_state (world_at (S n))).
Proof.
  intros Hn. destruct (lookup_lt_is_Some_2 ls n Hn) as [[i l] E]. rewrite (world_at_step _ _ E).
  eapply world_step; [exact E|]. apply world_at_inv. lia.
Qed.


(** *** Lists of pending events *)

Lemma listing_kind n i j t T raw ctx : calls !! i = Some j → lists j = Some ctx → thread_inv n i j t →
  (T, raw) ∈ handed (th_trace t) → kind T = Some Pending.
Proof.
  intros Hj Hl Ht Hin. destruct (ti_drawn _ _ _ _ Ht T) as (k & l & _ & E & <-); [by eapply ti_handed|].
  rewrite (Hkind _ _ _ _ E Hj). by destruct j.
Qed.

Context `{!MongoPlatformLaws}.

(** The call [i] listed [events] and is done. *)
Definition listed (w : world answer (list bdoc) outcome) (i : nat) (ctx : Ctx) (events : list OutboxEvent) : Prop :=
  ∃ j t, calls !! i = Some j ∧ lists j = Some ctx ∧ w_threads w !! i = Some t ∧ th_rest t = Done (Listed (Ok events)).

(** Each event of a list is a document read back at its position. *)
Lemma listed_event n w i j t ctx events k e :
  world_inv n w → no_purge → calls !! i = Some j → lists j = Some ctx → w_threads w !! i = Some t → thread_inv n i j t →
  th_rest t = Done (Listed (Ok events)) → events !! k = Some e →
  ∃ T raw tenant, handed (th_trace t) !! k = Some (T, raw) ∧ handed_out w T raw ∧
    field raw f_id = BString (uuid_string (ID e)) ∧ tenantIDFromContext repo ctx = Ok tenant ∧ tenant_is repo tenant raw.
Proof.
  intros Hw Hnp Hj Hl Ht Hi E He. pose proof (ti_ok _ _ _ _ Hi) as Hok. unfold thread_ok in Hok. rewrite E in Hok.
  destruct Hok as [_ [_ Hpost]]. specialize (Hpost (ti_rely _ _ _ _ Hi)). unfold call_post in Hpost. rewrite Hl in Hpost.
  destruct Hpost as (tenant & docs & Hten & Hdocs%traverse_Forall2 & [Hids Hts _]).
  destruct (Forall2_lookup_r _ _ _ _ _ Hdocs He) as (doc & Hdoc & Hev).
  pose proof (f_equal (λ l, l !! k) Hids) as Hk. cbn beta in Hk. rewrite !list_lookup_fmap, Hdoc in Hk. simpl in Hk.
  destruct (handed (th_trace t) !! k) as [[T raw]|] eqn:Eh; [|done]. injection Hk as Hk.
  assert (handed_out w T raw) as Hh.
  { split; [|exists i, t; split; [done|by eapply list_elem_of_lookup_2]].
    eapply listing_kind; [done..|by eapply list_elem_of_lookup_2]. }
  exists T, raw, tenant. split_and!; [done..| |done|by apply (Hts (T, raw)), list_elem_of_lookup_2 with k].
  destruct (wi_taken _ _ Hw _ _ Hnp Hh) as (d & Hd & Hkey & _). destruct (wi_coll _ _ Hw) as [Hall _].
  rewrite Forall_forall in Hall. destruct (ok_id _ _ _ (Hall d Hd)) as [u Hu].
  injection Hkey as _ Hid. rewrite Hid in Hu. rewrite Hu. f_equal. f_equal.
  assert (Doc.ID doc = uuid_string u) as Hdu by congruence.
  unfold toOutboxEvent in Hev. rewrite Hdu, uuid_parse_string in Hev.
  destruct (uuid_parse (Doc.AggregateID doc)); [|done]. by injection Hev as <-.
Qed.

Lemma same_key t1 t2 raw1 raw2 u :
  field raw1 f_id = BString u → field raw2 f_id = BString u → tenant_is repo t1 raw1 → tenant_is repo t2 raw2 →
  t1 = t2 ∨ is_empty (tenantField repo) = true → doc_key repo raw1 = doc_key repo raw2.
Proof.
  intros E1 E2 H1 H2 Ht. unfold doc_key, tenant_is in *. rewrite E1, E2. destruct (is_empty (tenantField repo)); [done|].
  destruct Ht as [->|?]; [|done]. by rewrite H1, H2.
Qed.

Lemma listed_once n w i ctx events : world_inv n w → no_purge → listed w i ctx events → NoDup (ID <$> events).
Proof.
  intros Hw Hnp (j & t & Hj & Hl & Ht & E). destruct (wi_threads _ _ Hw _ _ Ht) as (j' & Hj' & Hi). simplify_eq.
  apply NoDup_alt. intros k1 k2 id. rewrite !list_lookup_fmap. intros H1 H2.
  destruct (events !! k1) as [e1|] eqn:E1; [|done]. destruct (events !! k2) as [e2|] eqn:E2; [|done]. simplify_eq/=.
  destruct (listed_event n w i j t ctx events k1 e1) as (T1 & raw1 & t1 & Hk1 & Hh1 & Hid1 & Hten1 & Hti1); try done.
  destruct (listed_event n w i j t ctx events k2 e2) as (T2 & raw2 & t2 & Hk2 & Hh2 & Hid2 & Hten2 & Hti2); try done.
  assert (doc_key repo raw1 = doc_key repo raw2) as Hkey.
  { eapply same_key; [done| |done|done|left; congruence]. congruence. }
  pose proof (wi_unique _ _ Hw _ _ _ _ Hnp Hh1 Hh2 Hkey) as <-.
  eapply NoDup_lookup; [apply (ti_once _ _ _ _ Hi)|by rewrite list_lookup_fmap, Hk1|]. rewrite list_lookup_fmap, Hk2. simpl. by rewrite Hkey.
Qed.

Lemma listed_disjoint n w i1 i2 ctx1 ctx2 events1 events2 e1 e2 :
  world_inv n w → no_purge → i1 ≠ i2 → listed w i1 ctx1 events1 → listed w i2 ctx2 events2 →
  tenantIDFromContext repo ctx1 = tenantIDFromContext repo ctx2 ∨ is_empty (tenantField repo) = true →
  e1 ∈ events1 → e2 ∈ events2 → ID e1 ≠ ID e2.
Proof.
  intros Hw Hnp Hne (j1 & t1 & Hj1 & Hl1 & Ht1 & E1) (j2 & t2 & Hj2 & Hl2 & Ht2 & E2) Hten
    [k1 He1]%list_elem_of_lookup [k2 He2]%list_elem_of_lookup Hid.
  destruct (wi_threads _ _ Hw _ _ Ht1) as (j1' & Hj1' & Hi1). destruct (wi_threads _ _ Hw _ _ Ht2) as (j2' & Hj2' & Hi2).
  simplify_eq.
  destruct (listed_event n w i1 j1 t1 ctx1 events1 k1 e1) as (T1 & raw1 & ten1 & Hk1 & Hh1 & Hid1 & Hten1 & Hti1); try done.
  destruct (listed_event n w i2 j2 t2 ctx2 events2 k2 e2) as (T2 & raw2 & ten2 & Hk2 & Hh2 & Hid2 & Hten2 & Hti2); try done.
  assert (doc_key repo raw1 = doc_key repo raw2) as Hkey.
  { eapply same_key; [done| |done|done|destruct Hten; [left|by right]; congruence]. congruence. }
  pose proof (wi_unique _ _ Hw _ _ _ _ Hnp Hh1 Hh2 Hkey) as <-. apply Hne.
  eapply (drawn_by_one n); [exact Hi1|exact Hi2|..]; by eapply ti_handed, list_elem_of_lookup_2.
Qed.
End interleaving.

(** ** Guarantees *)

(** The phase from which the call that was offered [T] claims. *)
Definition kind_of (calls : list call) (ls : list (nat * choice)) (T : text) : option phase :=
  s ← list_find (λ s : nat * choice, ch_uuid s.2 = T) ls; call_from <$> calls !! s.2.1.

Lemma kind_of_step calls ls n i l j :
  NoDup ((ch_uuid ∘ snd) <$> ls) → ls !! n = Some (i, l) → calls !! i = Some j →
  kind_of calls ls (ch_uuid l) = Some (call_from j).
Proof.
  intros Hu Hn Hj. unfold kind_of.
  destruct (list_find_elem_of (λ s : nat * choice, ch_uuid s.2 = ch_uuid l) ls (i, l)) as [[k [i' l']] E];
    [by eapply list_elem_of_lookup_2|done|].
  rewrite E. simpl. apply list_find_Some in E as (Hk & E & _). simpl in E.
  rewrite <- (uuid_unique ls Hu _ _ _ _ _ _ Hk Hn E) in Hn. rewrite Hk in Hn. injection Hn as -> ->. by rewrite Hj.
Qed.

(** Documents to start from: in a phase with attempts that fit, under their own
    keys, and with tokens that are not drawn again. *)
Definition phased (m : Z) (d : bdoc) : Prop := ∃ p a, in_phase d p a ∧ phase_attempts m p a.

Record starts_ok `{MongoPlatform} (m : Z) (repo : Repository) (ls : list (nat * choice)) (coll : list bdoc) : Prop := {
  so_docs : Forall (λ d, (∃ u, field d f_id = BString (uuid_string u)) ∧ phased m d ∧
    ∀ s, s ∈ ls → field d mongoFieldClaimToken ≠ BString (ch_uuid s.2)) coll;
  so_keys : NoDup (doc_key repo <$> coll);
}.

Lemma starts_coll_ok `{MongoPlatform} m repo calls ls coll :
  starts_ok m repo ls coll → coll_ok m repo (kind_of calls ls) coll.
Proof.
  intros [Hd Hk]. split; [|done]. eapply Forall_impl; [exact Hd|]. intros d (Hid & Hp & Ht). split; [done..|].
  intros T HT. destruct (kind_of calls ls T) as [p|] eqn:E; [|done]. unfold kind_of in E.
  destruct (list_find _ ls) as [[k s]|] eqn:E1; [|done]. apply list_find_Some in E1 as (Hs & HsT & _).
  destruct (Ht s); [by eapply list_elem_of_lookup_2|]. congruence.
Qed.

Section theorems.
Context `{MongoPlatform} (m : Z) (repo : Repository) (calls : list call) (ls : list (nat * choice)) (coll : list bdoc).
Context (Hbudget : 0 < m) (Hsane : tenantField repo ∉ reserved) (Huuids : NoDup ((ch_uuid ∘ snd) <$> ls)).
Context (Hstart : starts_ok m repo ls coll).


(** C14: no pending event is handed out twice.  For any calls without a purge, in
    any interleaving of their commands, with commands refused and replies lost
    anywhere, a list of pending events names no event twice, and the lists of
    two calls for the same tenant have no event in common. *)
Theorem pending_event_handed_out_once `{!MongoPlatformLaws} :
  (∀ j, j ∈ calls → purges j = false) →
  let w := world_at m repo calls ls coll (length ls) in
  (∀ i ctx events, listed calls w i ctx events → NoDup (ID <$> events)) ∧
  (∀ i1 i2 ctx1 ctx2 events1 events2 e1 e2, i1 ≠ i2 →
     listed calls w i1 ctx1 events1 → listed calls w i2 ctx2 events2 →
     tenantIDFromContext repo ctx1 = tenantIDFromContext repo ctx2 ∨ is_empty (tenantField repo) = true →
     e1 ∈ events1 → e2 ∈ events2 → ID e1 ≠ ID e2).
Proof.
  intros Hnp w.
  assert (∀ n i l j, ls !! n = Some (i, l) → calls !! i = Some j → kind_of calls ls (ch_uuid l) = Some (call_from j)) as Hk
    by (intros *; by apply kind_of_step).
  pose proof (world_at_inv m repo (kind_of calls ls) Hbudget Hsane calls ls Huuids Hk coll
    (starts_coll_ok m repo calls ls coll Hstart) (length ls) (le_n _)) as Hw.
  split.
  - intros i ctx events. by eapply listed_once.
  - intros i1 i2 ctx1 ctx2 events1 events2 e1 e2. by eapply listed_disjoint.
Qed.
End theorems.
