(* ===== verification/OutboxMongoAlone.v ===== *)
(** The MongoDB outbox calls on their own: a server that answers, and nobody
    else at work. *)

From stdpp Require Import base numbers list gmap strings sorting.
From S2P Require Import Prelude GoText Effects OutboxLastError OutboxEvent OutboxMongo OutboxMongoLifecycle OutboxMongoCodec OutboxMongoClaims.

Local Open Scope Z_scope.
Local Open Scope go_scope.

(** ** Filters *)

Lemma matches_union f g d : matches f d = true → matches g d = true → matches (f ∪ g) d = true.
Proof. unfold matches. rewrite !bool_decide_eq_true. apply map_Forall_union_2. Qed.

Lemma matches_insert k c f d : cond_holds c (field d k) = true → matches f d = true → matches (<[k := c]> f) d = true.
Proof. unfold matches. rewrite !bool_decide_eq_true. intros Hc Hf. by apply map_Forall_insert_2. Qed.

Lemma matches_singleton k c d : cond_holds c (field d k) = true → matches {[ k := c ]} d = true.
Proof. unfold matches. rewrite bool_decide_eq_true. by rewrite map_Forall_singleton. Qed.

Lemma matches_merge f fs d : matches f d = true → Forall (λ f, matches f d = true) fs → matches (mergeFilters f fs) d = true.
Proof.
  unfold mergeFilters. intros Hf Hfs. revert f Hf. induction Hfs as [|g fs Hg _ IH]; intros f Hf; cbn [foldl]; [done|].
  apply IH. by apply matches_union.
Qed.

Lemma cond_eq v w : v = w → cond_holds (CEq w) v = true.
Proof. intros ->. simpl. by apply bool_decide_eq_true. Qed.

(** ** Updating one document of a mapped collection *)

Lemma update_first_map f (u : update) (g : bdoc → bdoc) (coll : list bdoc) (d : bdoc) :
  NoDup coll → d ∈ coll → (∀ x, x ∈ coll → matches f (g x) = true ↔ x = d) → apply_update u (g d) ≠ g d →
  update_first f u (g <$> coll) = (1, (λ x, if bool_decide (x = d) then apply_update u (g x) else g x) <$> coll).
Proof.
  intros Hnd Hd Hm Hne. induction coll as [|x coll IH]; [by apply elem_of_nil in Hd|]. csimpl.
  apply NoDup_cons in Hnd as [Hx Hnd]. destruct (decide (x = d)) as [->|Hxd].
  - rewrite (proj2 (Hm d (list_elem_of_here _ _)) eq_refl). rewrite bool_decide_false by done.
    rewrite bool_decide_true by done. do 2 f_equal. apply list_fmap_ext. intros i y Hy.
    rewrite bool_decide_false; [done|]. intros ->. apply Hx. by eapply list_elem_of_lookup_2.
  - destruct (matches f (g x)) eqn:E; [by apply Hm in E; [|left]|]. rewrite IH.
    + by rewrite bool_decide_false by done.
    + done.
    + by apply elem_of_cons in Hd as [->|?].
    + intros y Hy. apply Hm. by right.
Qed.

(** ** Selected documents *)

#[export] Instance mongo_order_trans sort : Transitive (mongo_order sort).
Proof. intros a b c. unfold mongo_order. rewrite !Is_true_true. apply lex_le_trans. Qed.

#[export] Instance mongo_order_total sort : Total (mongo_order sort).
Proof. intros a b. unfold mongo_order. rewrite !Is_true_true. apply lex_le_total. Qed.

Lemma select_sorted f sort limit coll : StronglySorted (mongo_order sort) (select_docs f sort limit coll).
Proof.
  unfold select_docs. set (s := merge_sort _ _). assert (StronglySorted (mongo_order sort) s) as Hs.
  { by apply (StronglySorted_merge_sort _). }
  destruct limit as [n|]; [|done]. rewrite <- (take_drop (Z.to_nat n) s) in Hs. by apply StronglySorted_app_1_l in Hs.
Qed.

Lemma select_NoDup f sort limit coll : NoDup coll → NoDup (select_docs f sort limit coll).
Proof.
  intros Hn. unfold select_docs.
  assert (NoDup (merge_sort (mongo_order sort) (List.filter (matches f) coll))) as Hs.
  { rewrite merge_sort_Permutation. by eapply sublist_NoDup; [|apply sublist_filter_bool]. }
  destruct limit; [|done]. by eapply sublist_NoDup; [|apply sublist_take].
Qed.

(** Fewer than the limit: all of them. *)
Lemma select_all f sort n coll d :
  (Z.of_nat (length (select_docs f sort (Some n) coll)) < n) → d ∈ coll → matches f d = true →
  d ∈ select_docs f sort (Some n) coll.
Proof.
  unfold select_docs. set (s := merge_sort _ _). rewrite length_take. intros Hl Hd Hm.
  rewrite take_ge by lia. unfold s. rewrite merge_sort_Permutation. by apply elem_of_filter_bool.
Qed.

(** The others come later, and are left out only for the limit. *)
Lemma select_first f sort n coll d : 0 ≤ n →
  d ∈ coll → matches f d = true → d ∉ select_docs f sort (Some n) coll →
  Z.of_nat (length (select_docs f sort (Some n) coll)) = n ∧ ∀ x, x ∈ select_docs f sort (Some n) coll → mongo_order sort x d.
Proof.
  intros Hn Hd Hm Hnot. pose proof (select_all f sort n coll d) as Hall. unfold select_docs in *. set (s := merge_sort _ _) in *.
  assert (d ∈ s) as Hin by (unfold s; rewrite merge_sort_Permutation; by apply elem_of_filter_bool).
  split; [rewrite length_take in *; destruct (decide (Z.of_nat (Z.to_nat n `min` length s) < n)) as [Hl|]; [|lia]; by destruct Hnot; apply Hall|].
  assert (StronglySorted (mongo_order sort) s) as Hs by (by apply (StronglySorted_merge_sort _)).
  rewrite <- (take_drop (Z.to_nat n) s) in Hs, Hin. intros x Hx. apply elem_of_app in Hin as [?|Hin]; [done|].
  by eapply StronglySorted_app_1_elem_of.
Qed.

Lemma select_empty f sort limit coll : (∀ d, d ∈ coll → matches f d = false) → select_docs f sort limit coll = [].
Proof.
  intros Hm. destruct (select_docs f sort limit coll) as [|d l] eqn:E; [done|].
  assert (d ∈ select_docs f sort limit coll) as [Hd Hf]%select_elem by (rewrite E; left). by rewrite Hm in Hf.
Qed.

(** ** A server that answers *)

Section alone.
Context `{MongoPlatformLaws} (repo : Repository) (Hinit : repo_initialized repo = true) (Hsane : tenantField repo ∉ reserved).
Context (ctx : Ctx) (t : text) (Htenant : tenantIDFromContext repo ctx = Ok t).

Abbreviation tf := (tenantField repo).

(** Every command is executed and answered. *)
Definition calm (l : choice) : Prop := ch_resolve l = None ∧ ch_fault l = Replied.

(** The documents of the tenant, and what they must look like. *)
Definition mine (d : bdoc) : Prop := tenant_is repo t d.

Record well_formed (d : bdoc) : Prop := {
  wf_typed : typed tf d;
  wf_id : ∃ u, field d f_id = BString (uuid_string u);
  wf_aggregate : ∃ u, field d f_aggregate_id = BString (uuid_string u);
  wf_phase : ∃ p a, in_phase d p a ∧ 0 ≤ a;
  wf_updated : time_at d mongoFieldUpdatedAt ≠ zero_time;
}.

Lemma phase_text_valid p : TrimSpace (phase_text p) = phase_text p ∧ IsValid (phase_text p) = true.
Proof. by destruct p. Qed.

Lemma well_formed_status d : well_formed d → IsValid (TrimSpace (text_at d mongoFieldStatus)) = true ∧ 0 ≤ int_at d mongoFieldAttempts.
Proof.
  intros [_ _ _ (p & a & [Hs Ha] & Hnn) _]. unfold text_at, int_at. rewrite Hs, Ha.
  destruct (phase_text_valid p) as [-> ->]. done.
Qed.

(** *** Candidates *)

(** What a claim keeps of a document. *)
Definition candidate_of (d : bdoc) (c : document) : Prop :=
  field d f_id = BString (Doc.ID c) ∧ field d mongoFieldAttempts = BInt (Doc.Attempts c) ∧
  field d mongoFieldUpdatedAt = BDate (date_of (Doc.UpdatedAt c)) ∧ (is_empty tf = false → Doc.TenantID c = t).

Lemma date_time ms : date_of (time_of ms) = ms.
Proof. unfold date_of, time_of. rewrite Z.add_simpl_l. by apply Z.div_mul. Qed.

Lemma candidate_decodes d : well_formed d → mine d →
  ∃ c, decode_claim tf (project (Some (claim_projection tf)) d) = Ok c ∧ candidate_of d c.
Proof.
  intros Hwf Hm. destruct (well_formed_status d Hwf) as [Hv Ha]. destruct Hwf as [Hty [u Hu] _ _ Hz].
  assert (text_at d f_id = uuid_string u) as Hid by (unfold text_at; by rewrite Hu).
  destruct (decode_claim_typed tf d Hsane Hty Hv Ha) as (c & Hc & E1 & E2 & E3 & E4);
    [rewrite Hid; apply uuid_string_trimmed|rewrite Hid; apply uuid_string_nonempty|done|].
  exists c. split; [done|]. split_and!.
  - rewrite E1, Hid. done.
  - rewrite E2. unfold int_at. destruct (ty_attempts _ _ Hty) as [n ->]. done.
  - rewrite E3. unfold time_at. destruct (ty_dates _ _ Hty mongoFieldUpdatedAt) as [ms ->]; [solve_name|]. by rewrite date_time.
  - intros Hne. rewrite E4, Hne. unfold text_at. rewrite (Hm Hne). by eapply tenantIDFromContext_trimmed.
Qed.

(** The filter of a claim finds the document it was made for, and no other. *)
Lemma claim_filter_self d c p : candidate_of d c → mine d → field d mongoFieldStatus = BString p →
  matches (claim_filter repo c p) d = true.
Proof.
  intros (E1 & E2 & E3 & E4) Hm Hs. apply matches_merge; [by apply matches_singleton, cond_eq|].
  constructor; [|constructor; [|constructor]].
  - unfold tenantMatchFilter. destruct (is_empty tf) eqn:E; [done|]. apply matches_singleton, cond_eq.
    rewrite E4 by done. by apply Hm.
  - apply matches_insert; [by apply cond_eq|]. apply matches_insert; [by apply cond_eq|]. by apply matches_singleton, cond_eq.
Qed.

Lemma claim_filter_key x d c p : candidate_of d c → mine d → matches (claim_filter repo c p) x = true →
  doc_key repo x = doc_key repo d.
Proof.
  intros (E1 & _ & _ & E4) Hm Hx. unfold doc_key.
  assert (field x f_id = field d f_id) as ->.
  { rewrite E1. apply (matches_eq _ _ _ _ Hx). unfold claim_filter. rewrite merge_lookup. cbn [foldl].
    rewrite tenant_filter_other by (done || solve_name). by lookups. }
  destruct (is_empty tf) eqn:E; [done|]. rewrite (Hm E). f_equal. apply (matches_eq _ _ _ _ Hx).
  unfold claim_filter. rewrite merge_lookup. cbn [foldl]. rewrite (tenant_filter_own _ _ E), E4 by done.
  rewrite !lookup_insert_ne, lookup_singleton_ne by (intros Heq; apply Hsane; rewrite <- Heq; solve_name).
  by destruct ({[ f_id := _ ]} !! _).
Qed.

(** *** Claims *)

Definition claim_update (T : text) (now : Z) : update :=
  {| u_set := <[mongoFieldClaimToken := BString T]> (<[mongoFieldStatus := BString OutboxStatusProcessing]>
       {[ mongoFieldUpdatedAt := BDate now ]}); u_unset := [] |}.

(** A document as a claim leaves it. *)
Definition claimed_doc (T : text) (now : Z) (d : bdoc) : bdoc := apply_update (claim_update T now) d.

Lemma claimed_other T now d k : k ∉ [mongoFieldClaimToken; mongoFieldStatus; mongoFieldUpdatedAt] →
  field (claimed_doc T now d) k = field d k.
Proof.
  intros Hk. unfold claimed_doc. rewrite apply_field. cbn [claim_update u_set u_unset].
  rewrite bool_decide_false by (by intros ?%elem_of_nil).
  rewrite !lookup_insert_ne, lookup_singleton_ne; [done|intros <-..]; apply Hk; solve_name.
Qed.

Lemma claimed_fields T now d :
  field (claimed_doc T now d) mongoFieldStatus = BString OutboxStatusProcessing ∧
  field (claimed_doc T now d) mongoFieldClaimToken = BString T ∧
  field (claimed_doc T now d) mongoFieldUpdatedAt = BDate now.
Proof. unfold claimed_doc, claim_update. by split_and!; fields. Qed.

Lemma claimed_key T now d : doc_key repo (claimed_doc T now d) = doc_key repo d.
Proof.
  unfold doc_key. rewrite (claimed_other T now d f_id) by solve_name. destruct (is_empty tf); [done|].
  rewrite claimed_other; [done|]. intros Hin. apply Hsane. unfold reserved.
  repeat (apply elem_of_cons in Hin as [->|Hin]; [solve_name|]). by apply elem_of_nil in Hin.
Qed.

Lemma claimed_differs T now d : field d mongoFieldStatus = BString OutboxStatusPending → claimed_doc T now d ≠ d.
Proof. intros Hs E. destruct (claimed_fields T now d) as [Hp _]. rewrite E, Hs in Hp. discriminate Hp. Qed.

Context (coll : list bdoc) (Hkeys : NoDup (doc_key repo <$> coll)).

Lemma coll_NoDup : NoDup coll.
Proof. by apply (NoDup_fmap_1 (doc_key repo)). Qed.

Lemma same_doc d1 d2 : d1 ∈ coll → d2 ∈ coll → doc_key repo d1 = doc_key repo d2 → d1 = d2.
Proof.
  intros (i & Hi)%list_elem_of_lookup (k & Hk)%list_elem_of_lookup E.
  assert (i = k) as ->; [|congruence]. eapply NoDup_lookup; [exact Hkeys|by rewrite list_lookup_fmap, Hi|].
  rewrite list_lookup_fmap, Hk. simpl. by rewrite E.
Qed.

(** The documents to claim: pending ones of the tenant. *)
Definition to_claim (d : bdoc) : Prop :=
  d ∈ coll ∧ mine d ∧ well_formed d ∧ field d mongoFieldStatus = BString OutboxStatusPending.

Definition claim_model (T : text) (c : document) (now : Z) : mfilter * update :=
  (claim_filter repo c OutboxStatusPending, claim_update T now).

(** The writes of a claim, one after the other: [g] is what was done to each
    document before, and [g'] after. *)
Record claims_done (T : text) (sel : list bdoc) (g g' : bdoc → bdoc) : Prop := {
  cd_key x : doc_key repo (g' x) = doc_key repo x;
  cd_claimed d : d ∈ sel → ∃ now, g' d = claimed_doc T now d;
  cd_other x : x ∉ sel → g' x = g x;
}.

Lemma bulk_alone T sel cands nows g n :
  NoDup sel → Forall to_claim sel → Forall2 candidate_of sel cands → length nows = length cands →
  (∀ x, doc_key repo (g x) = doc_key repo x) → (∀ d, d ∈ sel → g d = d) →
  returns (exec repo) calm (bulk_writes (zip_with (claim_model T) cands nows) n false) (g <$> coll)
    (λ r s _, r = Some (n + Z.of_nat (length sel)) ∧ ∃ g', s = g' <$> coll ∧ claims_done T sel g g').
Proof.
  intros Hnd Hto Hcs. revert nows g n Hnd Hto. induction Hcs as [|d c sel cands Hc Hcs IH]; intros nows g n Hnd Hto Hlen Hk Hg.
  { apply returns_ret. split; [f_equal; simpl; lia|]. exists g. split; [done|]. split; [done|by intros d ?%elem_of_nil|done]. }
  destruct nows as [|now nows]; [done|]. injection Hlen as Hlen. cbn [zip_with bulk_writes claim_model].
  apply NoDup_cons in Hnd as [Hd Hnd]. apply Forall_cons in Hto as [(Hin & Hm & Hwf & Hst) Hto].
  apply (returns_bind (exec repo)), (returns_perform (exec repo) calm (UpdateOne _ _)). intros l [_ Hf]. cbn [exec].
  assert (g d = d) as Hgd by (apply Hg; left).
  rewrite (update_first_map _ _ g coll d coll_NoDup Hin).
  - rewrite Hf. cbn [fst snd].
    set (g1 := λ x, if bool_decide (x = d) then apply_update (claim_update T now) (g x) else g x).
    assert (g1 d = claimed_doc T now d) as Hg1.
    { unfold g1. rewrite bool_decide_true by done. by rewrite Hgd. }
    eapply returns_weaken; [|apply (IH nows g1 (n + 1))]; [|done|done|done| |].
    + intros r s tr (-> & g' & -> & [H1 H2 H3]). split; [f_equal; simpl; lia|]. exists g'. split; [done|]. split; [done|..].
      * intros x [->|Hx]%elem_of_cons; [|by apply H2]. exists now. by rewrite H3.
      * intros x Hx. rewrite H3 by set_solver. unfold g1. rewrite bool_decide_false; [done|]. intros ->. set_solver.
    + intros x. unfold g1. case_bool_decide as E; [|done]. subst x. rewrite Hgd. apply claimed_key.
    + intros x Hx. unfold g1. rewrite bool_decide_false by (by intros ->). apply Hg. by right.
  - intros x Hx. split.
    + intros Hmx%(claim_filter_key _ d) ; [|done|done]. rewrite Hk in Hmx. by apply same_doc.
    + intros ->. rewrite Hgd. by apply claim_filter_self.
  - rewrite Hgd. by apply claimed_differs.
Qed.

Lemma claim_models_alone T cands s :
  returns (exec repo) calm (claim_models repo cands OutboxStatusPending T set_processing) s (λ models s' _,
    s' = s ∧ ∃ nows, length nows = length cands ∧ models = zip_with (claim_model T) cands nows).
Proof.
  induction cands as [|c cands IH]; cbn [claim_models].
  { apply returns_ret. split; [done|]. by exists []. }
  apply (returns_bind (exec repo)). unfold set_processing. apply (returns_bind (exec repo)).
  apply (returns_perform (exec repo) calm Now). intros l _. cbn [exec fst snd]. apply returns_ret.
  apply (returns_bind (exec repo)). eapply returns_weaken; [|exact IH]. intros models s' tr (-> & nows & Hlen & ->).
  apply returns_ret. split; [done|]. exists (date_of (ch_now l) :: nows). split; [simpl; by rewrite Hlen|done].
Qed.

(** *** Reading back *)

Lemma claimed_sort_key T now d : sort_key created_order (claimed_doc T now d) = sort_key created_order d.
Proof. unfold sort_key, created_order. csimpl. by rewrite !claimed_other by solve_name. Qed.

Lemma claimed_mine T now d : mine d → mine (claimed_doc T now d).
Proof.
  intros Hm Hne. pose proof (claimed_key T now d) as Hk. unfold doc_key in Hk. rewrite Hne in Hk. injection Hk as -> _. by apply Hm.
Qed.

(** Documents of the tenant with one sort key are one. *)
Lemma sort_key_inj d1 d2 : to_claim d1 → to_claim d2 →
  sort_key created_order d1 = sort_key created_order d2 → d1 = d2.
Proof.
  intros (Hin1 & Hm1 & [Ht1 [u1 Hu1] _ _ _] & _) (Hin2 & Hm2 & [Ht2 [u2 Hu2] _ _ _] & _) E.
  apply same_doc; [done..|].
  assert (field d1 f_id = field d2 f_id) as Hid.
  { destruct (ty_dates _ _ Ht1 mongoFieldCreatedAt) as [m1 E1]; [solve_name|].
    destruct (ty_dates _ _ Ht2 mongoFieldCreatedAt) as [m2 E2]; [solve_name|].
    unfold sort_key, created_order in E. csimpl in E. rewrite E1, E2, Hu1, Hu2 in E. simpl in E.
    rewrite !app_nil_r in E. injection E as _ E. congruence. }
  unfold doc_key. rewrite Hid. destruct (is_empty tf) eqn:Hne; [done|]. by rewrite (Hm1 Hne), (Hm2 Hne).
Qed.

Definition claimed_filter (T : text) (ids : list text) (tenant : text) : mfilter :=
  mergeFilters (<[mongoFieldClaimToken := CEq (BString T)]> {[ f_id := CIn (BString <$> ids) ]})
    [tenantMatchFilter repo tenant].

(** A token nobody has. *)
Definition unused (T : text) : Prop := ∀ d, d ∈ coll → field d mongoFieldClaimToken ≠ BString T.

Lemma read_back_matches T sel cands tenant g' x :
  Forall to_claim sel → Forall2 candidate_of sel cands → (is_empty tf = false → tenant = t) → unused T →
  claims_done T sel id g' → x ∈ coll →
  matches (claimed_filter T (Doc.ID <$> cands) tenant) (g' x) = true ↔ x ∈ sel.
Proof.
  intros Hto Hcs Hten Hun Hdone Hx. split.
  - intros Hm. destruct (decide (x ∈ sel)) as [|Hn]; [done|]. rewrite (cd_other _ _ _ _ Hdone x Hn) in Hm.
    destruct (Hun x Hx). apply (matches_eq _ _ _ _ Hm). unfold claimed_filter.
    rewrite claimed_filter_other by (done || solve_name). by lookups.
  - intros Hin. destruct (cd_claimed _ _ _ _ Hdone x Hin) as [now ->].
    destruct (claimed_fields T now x) as (_ & HT & _).
    apply list_elem_of_lookup in Hin as [i Hi]. destruct (Forall2_lookup_l _ _ _ _ _ Hcs Hi) as (c & Hc & Hcand).
    destruct (Forall_lookup_1 _ _ _ _ Hto Hi) as (_ & Hm & _).
    apply matches_merge; [|constructor; [|constructor]].
    + apply matches_insert; [by apply cond_eq|]. apply matches_singleton. rewrite claimed_other by solve_name.
      destruct Hcand as [-> _]. simpl. apply bool_decide_eq_true. apply list_elem_of_fmap_2, list_elem_of_fmap_2.
      by eapply list_elem_of_lookup_2.
    + unfold tenantMatchFilter. destruct (is_empty tf) eqn:Hne; [done|]. apply matches_singleton, cond_eq.
      rewrite Hten by done. by apply claimed_mine.
Qed.

Lemma sorted_same_keys g sort l : (∀ d, d ∈ l → sort_key sort (g d) = sort_key sort d) →
  StronglySorted (mongo_order sort) l → StronglySorted (mongo_order sort) (g <$> l).
Proof.
  intros Hk Hs. induction Hs as [|d l Hs IH Hd]; csimpl; [constructor|]. constructor.
  - apply IH. intros x Hx. apply Hk. by right.
  - apply Forall_fmap, Forall_forall. intros x Hx. rewrite Forall_forall in Hd. specialize (Hd x Hx).
    unfold compose, mongo_order in *. rewrite (Hk x) by (by right). rewrite (Hk d) by left. done.
Qed.

Lemma read_back_alone T sel cands tenant g' :
  NoDup sel → StronglySorted (mongo_order created_order) sel →
  Forall to_claim sel → Forall2 candidate_of sel cands → (is_empty tf = false → tenant = t) → unused T →
  claims_done T sel id g' →
  select_docs (claimed_filter T (Doc.ID <$> cands) tenant) created_order None (g' <$> coll) = g' <$> sel.
Proof.
  intros Hnd Hsort Hto Hcs Hten Hun Hdone. set (f := claimed_filter _ _ _).
  assert (∀ d, d ∈ sel → sort_key created_order (g' d) = sort_key created_order d) as Hkey.
  { intros d Hd. destruct (cd_claimed _ _ _ _ Hdone d Hd) as [now ->]. apply claimed_sort_key. }
  assert (List.filter (matches f) (g' <$> coll) ≡ₚ g' <$> sel) as Hperm.
  { change (g' <$> coll) with (map g' coll). rewrite filter_bool_map. apply (fmap_Permutation g').
    apply NoDup_Permutation; [|done|].
    - eapply sublist_NoDup; [apply coll_NoDup|apply sublist_filter_bool].
    - intros x. rewrite elem_of_filter_bool. split.
      + intros [Hm Hx]. by apply (read_back_matches T sel cands tenant g' x).
      + intros Hx. assert (x ∈ coll) as Hin by (rewrite Forall_forall in Hto; by apply Hto). split; [|done].
        by apply (read_back_matches T sel cands tenant g' x). }
  assert (select_docs f created_order None (g' <$> coll) ≡ₚ g' <$> sel) as Hsel.
  { unfold select_docs. by rewrite merge_sort_Permutation. }
  apply (StronglySorted_unique_strong (mongo_order created_order)); [|apply select_sorted|by apply sorted_same_keys|done].
  intros x1 x2 H1 (d2 & -> & H2)%list_elem_of_fmap R1 R2. rewrite Hsel in H1. apply list_elem_of_fmap in H1 as (d1 & -> & H1).
  unfold mongo_order in R1, R2. rewrite !Is_true_true, !Hkey in * by done. f_equal.
  rewrite Forall_forall in Hto. apply sort_key_inj; [by apply Hto..|]. by apply lex_le_antisym.
Qed.

Lemma claimed_typed T now d : typed tf d → typed tf (claimed_doc T now d).
Proof.
  intros [H1 H2 H3 H4 H5 H6]. destruct (claimed_fields T now d) as (Es & _ & Eu).
  assert (∀ k, k ∉ [mongoFieldClaimToken; mongoFieldStatus; mongoFieldUpdatedAt] → field (claimed_doc T now d) k = field d k)
    as Ho by (intros k; apply claimed_other).
  split.
  - intros k Hk. destruct (decide (k = mongoFieldStatus)) as [->|Hne]; [by rewrite Es; eexists|]. rewrite Ho; [by apply H1|].
    repeat (apply elem_of_cons in Hk as [->|Hk]; [first [solve_name|done]|]). by apply elem_of_nil in Hk.
  - by rewrite Ho by solve_name.
  - intros k Hk. destruct (decide (k = mongoFieldUpdatedAt)) as [->|Hne]; [by rewrite Eu; eexists|]. rewrite Ho; [by apply H3|].
    repeat (apply elem_of_cons in Hk as [->|Hk]; [first [solve_name|done]|]). by apply elem_of_nil in Hk.
  - by rewrite Ho by solve_name.
  - by rewrite Ho by solve_name.
  - intros Hne. rewrite Ho; [by apply H6|]. intros Hin. apply Hsane.
    repeat (apply elem_of_cons in Hin as [->|Hin]; [solve_name|]). by apply elem_of_nil in Hin.
Qed.

Lemma claimed_decodes T now d : well_formed d → decode_document tf (claimed_doc T now d) = Ok (doc_view tf (claimed_doc T now d)).
Proof.
  intros Hwf. destruct (well_formed_status d Hwf) as [_ Ha]. destruct (claimed_fields T now d) as (Es & _ & _).
  apply decode_typed; [by apply claimed_typed, Hwf|unfold text_at; by rewrite Es|].
  unfold int_at in *. by rewrite claimed_other by solve_name.
Qed.

Lemma traverse_ok {A B} (f : A → result mongo_error B) (h : A → B) l :
  Forall (λ x, f x = Ok (h x)) l → traverse f l = Ok (h <$> l).
Proof. induction 1 as [|x l Hx _ IH]; simpl; [done|]. by rewrite Hx, IH. Qed.

(** *** One batch *)

Definition calm_fresh (l : choice) : Prop := calm l ∧ unused (ch_uuid l).

Lemma calm_fresh_returns {A} (p : prog A) s Φ : returns (exec repo) calm p s Φ → returns (exec repo) calm_fresh p s Φ.
Proof. apply returns_env. by intros l []. Qed.

Lemma collection_alone {A} (E : choice → Prop) (k : prog (result mongo_error A)) s Φ :
  (∀ l, E l → calm l) → returns (exec repo) E k s (λ r s' tr, Φ r s' (Ev Resolve None :: tr)) →
  returns (exec repo) E (collection k) s Φ.
Proof.
  intros HE Hk. apply (returns_bind (exec repo)), (returns_perform (exec repo) E Resolve). intros l [Hr _]%HE.
  cbn [exec fst snd]. rewrite Hr. exact Hk.
Qed.

Lemma claimDocuments_alone sel cands :
  sel ≠ [] → NoDup sel → StronglySorted (mongo_order created_order) sel → Forall to_claim sel → Forall2 candidate_of sel cands →
  returns (exec repo) calm_fresh (claimDocuments repo cands OutboxStatusPending created_order set_processing) coll
    (λ r s _, ∃ T g', s = g' <$> coll ∧ claims_done T sel id g' ∧
       r = Ok ((doc_view tf ∘ g') <$> sel, Z.of_nat (length cands), T)).
Proof.
  intros Hne Hnd Hsort Hto Hcs. assert (length sel = length cands) as Hlen by (by eapply Forall2_length).
  destruct Hcs as [|d first sel cands Hc Hcs]; [done|]. unfold claimDocuments. apply collection_alone; [by intros l []|].
  apply (returns_bind (exec repo)), (returns_perform (exec repo) calm_fresh NewUUID). intros l [_ Hun]. cbn [exec fst snd].
  set (T := ch_uuid l) in *. apply (returns_bind (exec repo)). eapply returns_weaken; [|by apply calm_fresh_returns, claim_models_alone].
  intros models s tr (-> & nows & Hnows & ->). apply (returns_bind (exec repo)).
  eapply returns_weaken; [|apply calm_fresh_returns].
  2:{ unfold BulkWrite. rewrite <- (list_fmap_id coll) at 1. apply (bulk_alone T (d :: sel) (first :: cands) nows id 0); try done. by constructor. }
  intros r s tr' (-> & g' & -> & Hdone). rewrite bool_decide_false by (simpl; lia).
  apply (returns_bind (exec repo)), (returns_perform (exec repo) calm_fresh (Find _ _ None None)). intros l2 [[_ Hf] _].
  cbn [exec fst snd]. rewrite Hf. cbn [project]. rewrite list_fmap_id.
  assert (is_empty tf = false → Doc.TenantID first = t) as Hten by apply Hc.
  pose proof (read_back_alone T (d :: sel) (first :: cands) (Doc.TenantID first) g' Hnd Hsort Hto
    ltac:(by constructor) Hten Hun Hdone) as Hrb.
  unfold claimed_filter in Hrb. rewrite Hrb.
  apply returns_ret. exists T, g'. split; [done|]. split; [done|].
  unfold decodeCursor. rewrite (traverse_ok _ (doc_view tf)).
  - cbn [mbind result_bind]. rewrite <- list_fmap_compose. by rewrite length_fmap.
  - apply Forall_fmap, Forall_forall. intros x Hx. unfold compose.
    destruct (cd_claimed _ _ _ _ Hdone x Hx) as [now ->]. rewrite Forall_forall in Hto. by apply claimed_decodes, Hto.
Qed.

(** *** The loop *)

Context (Hwf : ∀ d, d ∈ coll → mine d → well_formed d).

Definition selection (pf : mfilter) (limit : Z) (s : list bdoc) : list bdoc :=
  select_docs (mergeFilters pf [tenantMatchFilter repo t]) created_order (Some limit) s.

Section filter.
Context (pf : mfilter) (Hpf : pf !! mongoFieldStatus = Some (CEq (BString OutboxStatusPending))).

Lemma selection_status d : matches (mergeFilters pf [tenantMatchFilter repo t]) d = true →
  field d mongoFieldStatus = BString OutboxStatusPending.
Proof.
  intros Hm. apply (matches_eq _ _ _ _ Hm). rewrite merge_lookup. cbn [foldl].
  rewrite tenant_filter_other by (done || solve_name). by rewrite Hpf.
Qed.

Lemma selection_mine d : matches (mergeFilters pf [tenantMatchFilter repo t]) d = true → mine d.
Proof.
  intros Hm Hne. apply (matches_eq _ _ _ _ Hm). rewrite merge_lookup. cbn [foldl].
  rewrite (tenant_filter_own _ _ Hne). by destruct (pf !! tf).
Qed.

Lemma selection_to_claim limit : Forall to_claim (selection pf limit coll).
Proof.
  unfold selection. apply Forall_forall. intros d [Hd Hm]%select_elem. pose proof (selection_mine d Hm).
  split_and!; [done..|by apply Hwf|by apply selection_status].
Qed.

Lemma candidates_decode sel : Forall (λ d, mine d ∧ well_formed d) sel →
  ∃ cands, decodeClaimCursor tf (project (Some (claim_projection tf)) <$> sel) = Ok cands ∧ Forall2 candidate_of sel cands.
Proof.
  unfold decodeClaimCursor. induction 1 as [|d sel [Hm Hw] _ (cands & IH & Hcs)]; [by exists []|].
  destruct (candidate_decodes d Hw Hm) as (c & Hc & Hcand). exists (c :: cands). split; [|by constructor].
  rewrite fmap_cons. cbn [traverse]. by rewrite Hc, IH.
Qed.

Lemma find_alone limit s : Forall (λ d, mine d ∧ well_formed d) (selection pf limit s) →
  returns (exec repo) calm_fresh (findClaimCandidates repo ctx pf created_order limit) s (λ r s' _,
    s' = s ∧ ∃ cands, r = Ok cands ∧ Forall2 candidate_of (selection pf limit s) cands).
Proof.
  intros Hall. unfold findClaimCandidates. rewrite Htenant. cbn [or_fail]. apply collection_alone; [by intros l []|]. cbv zeta.
  apply (returns_bind (exec repo)), (returns_perform (exec repo) calm_fresh (Find _ _ _ _)). intros l [[_ Hf] _].
  cbn [exec fst snd]. rewrite Hf. apply returns_ret. split; [done|]. fold (selection pf limit s).
  by apply candidates_decode.
Qed.

(** After a batch that took fewer than it could, nothing is left. *)
Lemma nothing_left T limit g' n : Z.of_nat (length (selection pf limit coll)) < limit →
  claims_done T (selection pf limit coll) id g' → selection pf n (g' <$> coll) = [].
Proof.
  intros Hl Hdone. apply select_empty. intros d' (d & -> & Hd)%list_elem_of_fmap.
  destruct (matches _ (g' d)) eqn:Hm; [|done]. exfalso.
  destruct (decide (d ∈ selection pf limit coll)) as [Hin|Hn].
  - destruct (cd_claimed _ _ _ _ Hdone d Hin) as [now E]. rewrite E in Hm. apply selection_status in Hm.
    destruct (claimed_fields T now d) as (Hs & _). rewrite Hs in Hm. discriminate Hm.
  - rewrite (cd_other _ _ _ _ Hdone d Hn) in Hm. apply Hn. by apply select_all.
Qed.

Lemma claim_loop_alone limit : 0 < limit →
  returns (exec repo) calm_fresh
    (claimMatching repo ctx pf created_order limit OutboxStatusPending OutboxStatusProcessing set_processing) coll
    (λ r s _, ∃ T g', s = g' <$> coll ∧ claims_done T (selection pf limit coll) id g' ∧
       r = Ok ((doc_view tf ∘ g') <$> selection pf limit coll)).
Proof.
  intros Hlim. set (sel := selection pf limit coll). pose proof (selection_to_claim limit) as Hto. fold sel in Hto.
  assert (NoDup sel) as Hnd by apply select_NoDup, coll_NoDup.
  assert (StronglySorted (mongo_order created_order) sel) as Hsort by apply select_sorted.
  unfold claimMatching, maxListScanMultiplier. generalize 6%nat. intros more. set (again := S more).
  cbn [claim_loop]. rewrite bool_decide_false by (simpl; lia).
  apply (returns_bind (exec repo)). simpl length. rewrite Z.sub_0_r.
  eapply returns_weaken; [|apply find_alone].
  2:{ eapply Forall_impl; [exact Hto|]. by intros d (_ & ? & ? & _). }
  intros r s tr (-> & cands & -> & Hcs). fold sel in Hcs. cbn [or_fail].
  destruct cands as [|c cands].
  { inversion Hcs as [E|]. apply returns_ret. exists [], id. split; [by rewrite list_fmap_id|]. split; [|done].
    split; [done|by intros d ?%elem_of_nil|done]. }
  assert (sel ≠ []) as Hne by (by inversion Hcs).
  apply (returns_bind (exec repo)). eapply returns_weaken; [|by apply (claimDocuments_alone sel)].
  intros r s tr' (T & g' & -> & Hdone & ->). cbn [or_fail].
  assert (length ((doc_view tf ∘ g') <$> sel) = length (c :: cands)) as Hlen by (rewrite length_fmap; by eapply Forall2_length).
  rewrite (bool_decide_true (_ = _)) by (by rewrite Hlen). cbn [negb].
  rewrite (proj2 (eqt_false OutboxStatusPending OutboxStatusProcessing)) by discriminate.
  rewrite (bool_decide_false (length _ = 0%nat)) by (rewrite Hlen; simpl; lia). cbn [andb app].
  unfold again. cbn [claim_loop]. case_bool_decide as Hfull.
  { apply returns_ret. by exists T, g'. }
  apply (returns_bind (exec repo)). rewrite length_fmap in *. assert (Z.of_nat (length sel) < limit) as Hshort by lia.
  eapply returns_weaken; [|apply find_alone; by rewrite (nothing_left T limit)].
  intros r s tr2 (-> & cands2 & -> & Hcs2). rewrite (nothing_left T limit) in Hcs2 by done.
  inversion Hcs2. cbn [or_fail]. apply returns_ret. by exists T, g'.
Qed.
End filter.

(** *** The list *)

(** The event handed out for a document. *)
Record event_for (d : bdoc) (e : OutboxEvent) : Prop := {
  ef_id : field d f_id = BString (uuid_string (ID e));
  ef_aggregate : field d f_aggregate_id = BString (uuid_string (AggregateID e));
  ef_type : EventType e = text_at d f_event_type;
  ef_payload : Payload e = text_at d f_payload;
  ef_status : Status e = OutboxStatusProcessing;
  ef_attempts : Attempts e = int_at d mongoFieldAttempts;
  ef_created : CreatedAt e = time_at d mongoFieldCreatedAt;
}.

Lemma claimed_event T now d : well_formed d →
  ∃ e, toOutboxEvent (doc_view tf (claimed_doc T now d)) = Ok e ∧ event_for d e.
Proof.
  intros [_ [u Hu] [a Ha] _ _]. destruct (claimed_fields T now d) as (Es & _ & _).
  assert (∀ k, k ∈ [f_id; f_aggregate_id; f_event_type; f_payload; mongoFieldAttempts; mongoFieldCreatedAt] →
    field (claimed_doc T now d) k = field d k) as Ho.
  { intros k Hk. apply claimed_other. repeat (apply elem_of_cons in Hk as [->|Hk]; [solve_name|]). by apply elem_of_nil in Hk. }
  unfold toOutboxEvent, doc_view, text_at, int_at, time_at. cbn [Doc.ID Doc.AggregateID Doc.EventType Doc.Payload Doc.Status Doc.Attempts Doc.CreatedAt].
  rewrite (Ho f_id), (Ho f_aggregate_id), (Ho f_event_type), (Ho f_payload), (Ho mongoFieldAttempts), (Ho mongoFieldCreatedAt)
    by solve_name. rewrite Es, Hu, Ha, !uuid_parse_string. eexists. split; [done|].
  by split.
Qed.

Lemma claimed_events T g' sel : claims_done T sel id g' → Forall to_claim sel →
  ∃ es, docsToEvents ((doc_view tf ∘ g') <$> sel) = Ok es ∧ Forall2 event_for sel es.
Proof.
  intros Hdone Hto.
  assert (Forall (λ d, ∃ e, toOutboxEvent (doc_view tf (g' d)) = Ok e ∧ event_for d e) sel) as Hev.
  { rewrite Forall_forall in *. intros d Hd. destruct (cd_claimed _ _ _ _ Hdone d Hd) as [now ->].
    apply claimed_event. by apply Hto. }
  clear -Hev. unfold docsToEvents. induction Hev as [|d sel (e & He & Hfor) _ (es & IH & Hes)]; [by exists []|].
  exists (e :: es). rewrite fmap_cons. cbn [traverse compose]. rewrite He, IH. split; [done|by constructor].
Qed.

(** The pending filter of a list, for all types or one. *)
Definition pending_filter (eventType : text) : mfilter :=
  let filter : mfilter := {[ mongoFieldStatus := CEq (BString OutboxStatusPending) ]} in
  if is_empty eventType then filter else <[f_event_type := CEq (BString eventType)]> filter.

Lemma claimPending_alone limit eventType : 0 < limit →
  let sel := selection (pending_filter eventType) limit coll in
  returns (exec repo) calm_fresh (claimPending repo ctx limit eventType) coll (λ r s _,
    ∃ es T g', r = Ok es ∧ s = g' <$> coll ∧ Forall2 event_for sel es ∧ claims_done T sel id g').
Proof.
  intros Hlim sel. unfold claimPending. rewrite Hinit, bool_decide_false by lia. cbn [negb].
  assert (pending_filter eventType !! mongoFieldStatus = Some (CEq (BString OutboxStatusPending))) as Hpf.
  { unfold pending_filter. destruct (is_empty eventType); by lookups. }
  apply (returns_bind (exec repo)). eapply returns_weaken; [|by apply (claim_loop_alone (pending_filter eventType))].
  intros r s tr (T & g' & -> & Hdone & ->). cbn [or_fail]. apply returns_ret.
  destruct (claimed_events T g' sel Hdone) as (es & Hes & Hall); [by apply selection_to_claim|].
  exists es, T, g'. done.
Qed.

(** a list of pending events on a server that answers, with nobody else at
    work, claims the oldest ones: it always returns; its events are, in the order
    of creation, those of the first pending documents of the tenant, at most
    [limit]; a pending document of the tenant that is left out comes later than
    all of them, and only because the limit was reached; these documents become
    PROCESSING under one new token, and no other document changes. *)
Theorem mongo_list_claims_oldest limit : 0 < limit →
  let sel := selection (pending_filter []) limit coll in
  returns (exec repo) calm_fresh (ListPending repo ctx limit) coll (λ r s _,
    ∃ es T g, r = Ok es ∧ s = g <$> coll ∧ Forall2 event_for sel es ∧
      (∀ d, d ∈ sel → ∃ now, g d = claimed_doc T now d) ∧ (∀ d, d ∉ sel → g d = d)) ∧
  StronglySorted (mongo_order created_order) sel ∧ Z.of_nat (length sel) ≤ limit ∧
  (∀ d, d ∈ coll → mine d → field d mongoFieldStatus = BString OutboxStatusPending → d ∉ sel →
     Z.of_nat (length sel) = limit ∧ ∀ x, x ∈ sel → mongo_order created_order x d).
Proof.
  intros Hlim sel. split; [|split; [apply select_sorted|split]].
  - eapply returns_weaken; [|by apply claimPending_alone]. intros r s tr (es & T & g & -> & -> & Hes & [_ H1 H2]).
    by exists es, T, g.
  - unfold sel, selection, select_docs. rewrite length_take. lia.
  - intros d Hd Hm Hst Hn. apply select_first; [lia|done| |done].
    apply matches_merge; [by apply matches_singleton, cond_eq|]. constructor; [|constructor].
    unfold tenantMatchFilter. destruct (is_empty tf) eqn:Hne; [done|]. apply matches_singleton, cond_eq. by apply Hm.
Qed.
End alone.

(** ** Creating and reading *)

Section created.
Context `{MongoPlatformLaws} (repo : Repository) (Hinit : repo_initialized repo = true) (Hsane : tenantField repo ∉ reserved).
Context (ctx : Ctx) (t : text) (Htenant : tenantIDFromContext repo ctx = Ok t).

(** An event as it is stored: times to the millisecond. *)
Definition event_at_ms (e : OutboxEvent) : OutboxEvent :=
  {| ID := ID e; EventType := EventType e; AggregateID := AggregateID e; Payload := Payload e; Status := Status e;
     Attempts := Attempts e; PublishedAt := to_ms <$> PublishedAt e; LastError := LastError e;
     CreatedAt := to_ms (CreatedAt e); UpdatedAt := to_ms (UpdatedAt e) |}.

Lemma created_key event now :
  doc_key repo (toBSON (normalizedCreateValues event now t) (tenantField repo)) =
  (if is_empty (tenantField repo) then BNull else BString t, BString (uuid_string (ID event))).
Proof.
  destruct (toBSON_fields (tenantField repo) (normalizedCreateValues event now t) Hsane)
    as (E1 & _ & _ & _ & _ & _ & _ & _ & _ & _ & E11 & _).
  unfold doc_key. rewrite E1. destruct (is_empty (tenantField repo)); [done|]. by rewrite E11.
Qed.

Lemma id_filter_key id d : matches (idTenantFilter repo id t) d = true ↔
  doc_key repo d = (if is_empty (tenantField repo) then BNull else BString t, BString (uuid_string id)).
Proof.
  unfold idTenantFilter, tenantMatchFilter, doc_key. destruct (is_empty (tenantField repo)) eqn:Hne.
  - rewrite (left_id_L ∅ (∪)). split.
    + intros Hm. f_equal. apply (matches_eq _ _ _ _ Hm). by lookups.
    + intros [= E]. by apply matches_singleton, cond_eq.
  - split.
    + intros Hm. f_equal; apply (matches_eq _ _ _ _ Hm).
      * by rewrite lookup_union, lookup_singleton_eq, union_Some_l.
      * rewrite lookup_union, lookup_singleton_ne, lookup_singleton_eq; [done|]. intros E. apply Hsane. rewrite E. solve_name.
    + intros [= E1 E2]. apply matches_union; by apply matches_singleton, cond_eq.
Qed.

(** What a creation stores is well formed. *)
Lemma created_well_formed event now : to_ms (Doc.UpdatedAt (normalizedCreateValues event now t)) ≠ zero_time →
  well_formed repo (toBSON (normalizedCreateValues event now t) (tenantField repo)).
Proof.
  intros Hz. set (doc := normalizedCreateValues event now t) in *.
  destruct (toBSON_fields (tenantField repo) doc Hsane) as (E1 & _ & E3 & _ & E5 & E6 & _ & E8 & _).
  split; [by apply toBSON_typed|by exists (ID event)|by exists (AggregateID event)| |].
  - exists Pending, 0. by split.
  - unfold time_at. by rewrite E8.
Qed.

(** The one document under a key. *)
Lemma select_one f d coll : matches f d = true → (∀ x, x ∈ coll → matches f x = false) →
  select_docs f [] (Some 1) (coll ++ [d]) = [d].
Proof.
  intros Hd Hx. unfold select_docs. assert (List.filter (matches f) (coll ++ [d]) = [d]) as ->; [|done].
  rewrite List.filter_app. simpl. rewrite Hd. assert (List.filter (matches f) coll = []) as ->; [|done].
  induction coll as [|x coll IH]; simpl; [done|]. rewrite Hx by left. apply IH. intros y Hy. apply Hx. by right.
Qed.

(** what is created is read back.  On a server that answers, creating a
    valid event under a new key always succeeds and stores it as PENDING with no
    attempts, and reading it by its identifier then returns the event that was
    returned by the creation, its times cut to the millisecond, and changes
    nothing. *)
Theorem mongo_created_event_is_read_back event coll :
  validateCreateEvent (Some event) = Ok event →
  (if is_empty (tenantField repo) then BNull else BString t, BString (uuid_string (ID event))) ∉ (doc_key repo <$> coll) →
  returns (exec repo) calm (Create repo ctx (Some event)) coll (λ r s1 _,
    ∃ e, r = Ok e ∧ ID e = ID event ∧ AggregateID e = AggregateID event ∧ EventType e = TrimSpace (EventType event) ∧
      Payload e = Payload event ∧ Status e = OutboxStatusPending ∧ Attempts e = 0 ∧ length s1 = S (length coll) ∧
      returns (exec repo) calm (GetByID repo ctx (ID event)) s1 (λ r2 s2 _, s2 = s1 ∧ r2 = Ok (event_at_ms e))).
Proof.
  intros Hval Hnew. assert (is_nil (ID event) = false) as Hid.
  { simpl in Hval. by destruct (is_nil (ID event)). }
  unfold Create. rewrite Hinit, Hval, Htenant. cbn [negb or_fail].
  apply (returns_bind (exec repo)), (returns_perform (exec repo) calm Now). intros l _. cbn [exec fst snd].
  set (doc := normalizedCreateValues event (ch_now l) t). set (d := toBSON doc (tenantField repo)).
  pose proof (created_key event (ch_now l)) as Hkey. fold doc d in Hkey.
  apply collection_alone; [done|]. apply (returns_bind (exec repo)), (returns_perform (exec repo) calm (InsertOne _)).
  intros l2 [_ Hf]. cbn [exec]. rewrite Hf, Hkey, bool_decide_false by done. cbn [fst snd negb].
  assert (toOutboxEvent doc = Ok
    {| ID := ID event; EventType := Doc.EventType doc; AggregateID := AggregateID event; Payload := Doc.Payload doc;
       Status := Doc.Status doc; Attempts := Doc.Attempts doc; PublishedAt := Doc.PublishedAt doc;
       LastError := Doc.LastError doc; CreatedAt := Doc.CreatedAt doc; UpdatedAt := Doc.UpdatedAt doc |}) as He.
  { unfold toOutboxEvent. cbn [doc normalizedCreateValues Doc.ID Doc.AggregateID]. by rewrite !uuid_parse_string. }
  rewrite He. apply returns_ret. eexists. split; [done|]. split_and!; [done..|rewrite length_app; simpl; lia|].
  unfold GetByID. rewrite Hinit, Hid, Htenant. cbn [negb or_fail]. apply collection_alone; [done|].
  apply (returns_bind (exec repo)). unfold decodeSingle.
  apply (returns_bind (exec repo)), (returns_perform (exec repo) calm (Find _ _ _ _)). intros l3 [_ Hf3]. cbn [exec fst snd].
  rewrite Hf3, (select_one _ d).
  - csimpl. cbn [project]. apply returns_ret. unfold d. rewrite bson_round_trip by done. cbn [or_fail]. apply returns_ret.
    split; [done|]. unfold toOutboxEvent. cbn [stored Doc.ID Doc.AggregateID doc normalizedCreateValues].
    rewrite !uuid_parse_string. done.
  - by apply id_filter_key.
  - intros x Hx. destruct (matches _ x) eqn:Hm; [|done]. apply id_filter_key in Hm. destruct Hnew. rewrite <- Hm.
    by apply list_elem_of_fmap_2.
Qed.
End created.
