(* ===== verification/OutboxMongoExample.v ===== *)
(** Concrete runs of the MongoDB outbox: what the theorems about all
    interleavings say of a race between two lists of pending events. *)

From stdpp Require Import base numbers list gmap strings sorting.
From S2P Require Import Prelude GoText Effects OutboxLastError OutboxEvent OutboxMongo OutboxMongoLifecycle OutboxMongoClaims OutboxMongoGuarantees OutboxMongoAlone.

Local Open Scope Z_scope.
Local Open Scope go_scope.

(** UUIDs written with one character between two others. *)
#[local] Instance example_platform : MongoPlatform := {|
  uuid_string u := [120; u; 120];
  uuid_parse s := match s with [_; u; _] => Some u | _ => None end;
  json_valid _ := true;
  redact s := s;
|}.

#[local] Instance example_laws : MongoPlatformLaws.
Proof. split; [done| |done]. intros u. reflexivity. Qed.

Definition example_repo : Repository :=
  from_ok {| repo_initialized := false; collectionName := []; tenantField := []; requireTenant := false;
             tenantModule := []; has_resolver := false |} (NewRepositoryWithContext true [] true).

Definition example_ctx : Ctx := ContextWithTenantID Background (txt "acme").

Definition example_event (id : uuid) : OutboxEvent :=
  {| ID := id; EventType := txt "order.created"; AggregateID := 122; Payload := [123; 125]; Status := [];
     Attempts := 0; PublishedAt := None; LastError := []; CreatedAt := zero_time; UpdatedAt := zero_time |}.

(** The steps: the calls in this order, a millisecond apart. *)
Definition example_step (lost : nat → fault) (k i : nat) : nat * choice :=
  (i, {| ch_resolve := None; ch_fault := lost k; ch_now := unix_epoch + (1 + Z.of_nat k) * Millisecond;
         ch_uuid := [1000 + Z.of_nat k]; ch_tenants := None |}).

Definition example_steps (lost : nat → fault) (order : list nat) : list (nat * choice) := imap (example_step lost) order.

(** Two events are created; two lists race for them; the winner's first event is
    published, the other one fails and is taken again. *)
Definition example_calls : list call :=
  [CallCreate example_ctx false (Some (example_event 97)); CallCreate example_ctx false (Some (example_event 98));
   CallListPending example_ctx 1; CallListPending example_ctx 2;
   CallMarkPublished example_ctx 97 (unix_epoch + Second); CallMarkFailed example_ctx 98 (txt "boom");
   CallResetForRetry example_ctx 5 (unix_epoch + Second)].

Definition example_order : list nat :=
  ([0; 0; 0; 1; 1; 1] ++ concat (replicate 9 [2; 3]) ++ replicate 12 3 ++ replicate 3 4 ++ replicate 5 5 ++ replicate 12 6)%nat.

Abbreviation example_run lost :=
  (world_at 3 example_repo example_calls (example_steps lost example_order) [] (length (example_steps lost example_order))).

Definition replied (_ : nat) : fault := Replied.

(** The reply to the first list's write is lost. *)
Definition one_lost (k : nat) : fault := if bool_decide (k = 16)%nat then ReplyLost else Replied.

Definition listed_ids (w : world answer (list bdoc) outcome) (i : nat) : option (list uuid) :=
  match th_rest <$> w_threads w !! i with Some (Done (Listed (Ok events))) => Some (ID <$> events) | _ => None end.

Lemma example_uuids lost : NoDup ((ch_uuid ∘ snd) <$> example_steps lost example_order).
Proof.
  unfold example_steps. rewrite fmap_imap. apply NoDup_alt. intros k1 k2 T. rewrite !list_lookup_imap.
  destruct (example_order !! k1), (example_order !! k2); simpl; try done. intros [= <-] [= E]. lia.
Qed.

Lemma example_starts lost : starts_ok 3 example_repo (example_steps lost example_order) [].
Proof. split; constructor. Qed.


(** [pending_event_handed_out_once] for the race. *)
Lemma pending_event_handed_out_once_witness :
  listed_ids (example_run replied) 2 = Some [97] ∧ listed_ids (example_run replied) 3 = Some [98] ∧
  ∀ events1 events2 e1 e2,
    listed example_calls (example_run replied) 2 example_ctx events1 →
    listed example_calls (example_run replied) 3 example_ctx events2 → e1 ∈ events1 → e2 ∈ events2 → ID e1 ≠ ID e2.
Proof.
  split; [vm_compute; reflexivity|]. split; [vm_compute; reflexivity|].
  assert (∀ j, j ∈ example_calls → purges j = false) as Hnp.
  { intros j Hj. repeat (apply elem_of_cons in Hj as [->|Hj]; [reflexivity|]). by apply elem_of_nil in Hj. }
  pose proof (pending_event_handed_out_once 3 example_repo example_calls (example_steps replied example_order) []
    ltac:(lia) ltac:(refine (bool_decide_unpack _ _); vm_compute; exact I) (example_uuids replied)
    (example_starts replied) Hnp) as Hdis.
  cbv zeta in Hdis. destruct Hdis as [_ Hdis]. intros events1 events2 e1 e2 H1 H2.
  exact (Hdis 2%nat 3%nat example_ctx example_ctx events1 events2 e1 e2 ltac:(lia) H1 H2 (or_introl eq_refl)).
Defined.

(** ** Calls on their own *)

(** The second event is the older one; the third is another tenant's. *)
Definition example_doc (id : uuid) (ms : Z) (tenant : text) : bdoc :=
  toBSON (normalizedCreateValues (example_event id) (unix_epoch + ms * Millisecond) tenant) (tenantField example_repo).

Definition example_coll : list bdoc :=
  [example_doc 97 20 (txt "acme"); example_doc 98 10 (txt "acme"); example_doc 99 5 (txt "other")].

Lemma example_well_formed d : d ∈ example_coll → well_formed example_repo d.
Proof.
  intros Hd. repeat (apply elem_of_cons in Hd as [->|Hd];
    [apply created_well_formed; [refine (bool_decide_unpack _ _); vm_compute; exact I|vm_compute; discriminate]|]).
  by apply elem_of_nil in Hd.
Qed.

(** [mongo_list_claims_oldest] with a limit of one: the older event is taken,
    the other one is left for the limit. *)
Lemma mongo_list_claims_oldest_witness :
  let sel := selection example_repo (txt "acme") (pending_filter []) 1 example_coll in
  sel = [example_doc 98 10 (txt "acme")] ∧
  (returns (exec example_repo) (calm_fresh example_coll) (ListPending example_repo example_ctx 1) example_coll (λ r s _,
    ∃ es T g, r = Ok es ∧ s = g <$> example_coll ∧ Forall2 event_for sel es ∧
      (∀ d, d ∈ sel → ∃ now, g d = claimed_doc T now d) ∧ (∀ d, d ∉ sel → g d = d))) ∧
  calm_fresh example_coll (example_step replied 0 0).2.
Proof.
  split; [vm_compute; reflexivity|]. split.
  - apply (mongo_list_claims_oldest example_repo eq_refl ltac:(refine (bool_decide_unpack _ _); vm_compute; exact I)
      example_ctx (txt "acme") eq_refl example_coll ltac:(refine (bool_decide_unpack _ _); vm_compute; exact I)
      (λ d Hd _, example_well_formed d Hd) 1). lia.
  - split; [done|]. intros d Hd. repeat (apply elem_of_cons in Hd as [->|Hd]; [vm_compute; discriminate|]).
    by apply elem_of_nil in Hd.
Defined.

(** [mongo_created_event_is_read_back] for a third event of the tenant. *)
Lemma mongo_created_event_is_read_back_witness :
  returns (exec example_repo) calm (Create example_repo example_ctx (Some (example_event 100))) example_coll (λ r s1 _,
    ∃ e, r = Ok e ∧ ID e = 100 ∧ AggregateID e = 122 ∧ EventType e = txt "order.created" ∧
      Payload e = [123; 125] ∧ Status e = OutboxStatusPending ∧ Attempts e = 0 ∧ length s1 = 4%nat ∧
      returns (exec example_repo) calm (GetByID example_repo example_ctx 100) s1 (λ r2 s2 _, s2 = s1 ∧ r2 = Ok (event_at_ms e))).
Proof.
  apply (mongo_created_event_is_read_back example_repo eq_refl ltac:(refine (bool_decide_unpack _ _); vm_compute; exact I)
    example_ctx (txt "acme") eq_refl (example_event 100) example_coll).
  - vm_compute. reflexivity.
  - refine (bool_decide_unpack _ _). vm_compute. exact I.
Defined.

(** The constructor checks only the syntax of the tenant field: a name that a
    document already uses is accepted, and the tenant then overwrites that field,
    so that no list finds the event. *)
Theorem reserved_tenant_field_accepted :
  ∃ repo, NewRepositoryWithContext true [WithTenantField mongoFieldStatus] true = Ok repo ∧
    field (toBSON (normalizedCreateValues (example_event 97) unix_epoch (txt "acme")) (tenantField repo)) mongoFieldStatus
    = BString (txt "acme").
Proof.
  exists (from_ok example_repo (NewRepositoryWithContext true [WithTenantField mongoFieldStatus] true)).
  split; vm_compute; reflexivity.
Qed.
