(* ===== verification/Cron.v ===== *)
(** Cron schedules: [cron/cron.go].

    A UTC time is its civil fields (year, month, day, hour, minute); seconds are
    dropped by the code before it searches.  [minute_of] numbers the minutes of
    the proleptic Gregorian calendar, and "earlier" and "later" below refer to
    that number. *)

From stdpp Require Import base numbers list sorting strings sets.
From S2P Require Import Prelude GoText.

Local Open Scope Z_scope.
Local Open Scope go_scope.

Inductive cron_error := ErrInvalidExpression | ErrNoMatch | ErrNilSchedule.

Definition cronFieldCount : nat := 5.
Definition maxMinute : Z := 59.
Definition maxHour : Z := 23.
Definition minDayOfMonth : Z := 1.
Definition maxDayOfMonth : Z := 31.
Definition minMonth : Z := 1.
Definition maxMonth : Z := 12.
Definition maxDayOfWeek : Z := 7.

Record schedule := {
  minutes : list Z;
  hours : list Z;
  doms : list Z;
  months : list Z;
  dows : list Z;
  domIsWild : bool;
  dowIsWild : bool;
}.

(** ** Parsing *)

Definition star : text := txt "*".

Definition isWildcard (field : text) : bool := field =t star.

Definition parseStep (raw : text) : result cron_error Z :=
  match Atoi raw with
  | Some s => if bool_decide (s ≤ 0) then Err ErrInvalidExpression else Ok s
  | None => Err ErrInvalidExpression
  end.

Definition parseRange (rangePart : text) (minVal maxVal : Z) : result cron_error (Z * Z) :=
  let '(b0, b1) := split_first 45 rangePart in
  match Atoi b0, Atoi (default [] b1) with
  | Some lo, Some hi =>
      if (bool_decide (lo < minVal) || bool_decide (hi > maxVal) || bool_decide (lo > hi))%bool
      then Err ErrInvalidExpression else Ok (lo, hi)
  | _, _ => Err ErrInvalidExpression
  end.

(** [for v := rangeStart; v <= rangeEnd; v += step], in [int64] arithmetic:
    [None] if [fuel] iterations were not enough. *)
Fixpoint range_loop (fuel : nat) (v rangeEnd step : Z) : option (list Z) :=
  if bool_decide (v ≤ rangeEnd) then
    match fuel with
    | O => None
    | S fuel => cons v <$> range_loop fuel (wrap64 (v + step)) rangeEnd step
    end
  else Some [].

(** Enough for every loop of the parser; see [range_loop_terminates]. *)
Definition range_fuel : nat := 128.

Definition range_values (rangeStart rangeEnd step : Z) : list Z :=
  default [] (range_loop range_fuel rangeStart rangeEnd step).

Definition parsePart (part : text) (minVal maxVal : Z) : result cron_error (list Z) :=
  let '(rangePart, stepPart) := split_first 47 part in
  step ← match stepPart with
         | Some raw => s ← parseStep raw; Ok (Some s)
         | None => Ok None
         end;
  if (rangePart =t star) then Ok (range_values minVal maxVal (default 1 step))
  else if contains [45] rangePart then
    '(lo, hi) ← parseRange rangePart minVal maxVal;
    Ok (range_values lo hi (default 1 step))
  else match Atoi rangePart with
       | None => Err ErrInvalidExpression
       | Some val =>
           if (bool_decide (val < minVal) || bool_decide (val > maxVal))%bool then Err ErrInvalidExpression
           else match step with
                | Some s => Ok (range_values val maxVal s)
                | None => Ok [val]
                end
       end.

Fixpoint first_occurrences (seen vals : list Z) : list Z :=
  match vals with
  | [] => []
  | v :: rest => if bool_decide (v ∈ seen) then first_occurrences seen rest
                 else v :: first_occurrences (v :: seen) rest
  end.

Definition deduplicate (vals : list Z) : list Z := merge_sort Z.le (first_occurrences [] vals).

Fixpoint parse_parts (parts : list text) (minVal maxVal : Z) : result cron_error (list Z) :=
  match parts with
  | [] => Ok []
  | part :: rest =>
      vals ← parsePart part minVal maxVal;
      more ← parse_parts rest minVal maxVal;
      Ok (vals ++ more)
  end.

Definition parseField (field : text) (minVal maxVal : Z) : result cron_error (list Z) :=
  vals ← parse_parts (split_on 44 field) minVal maxVal;
  Ok (deduplicate vals).

Definition normalizeDOW (dows : list Z) : list Z :=
  deduplicate (map (λ v, if bool_decide (v = 7) then 0 else v) dows).

Definition Parse (expr : text) : result cron_error schedule :=
  let expr := TrimSpace expr in
  if is_empty expr then Err ErrInvalidExpression else
  match Fields expr with
  | [f0; f1; f2; f3; f4] =>
      minutes ← parseField f0 0 maxMinute;
      hours ← parseField f1 0 maxHour;
      doms ← parseField f2 minDayOfMonth maxDayOfMonth;
      months ← parseField f3 minMonth maxMonth;
      dows ← parseField f4 0 maxDayOfWeek;
      Ok {| minutes := minutes; hours := hours; doms := doms; months := months;
            dows := normalizeDOW dows; domIsWild := isWildcard f2; dowIsWild := isWildcard f4 |}
  | _ => Err ErrInvalidExpression
  end.

(** ** The calendar *)

Record civil := { year : Z; month : Z; day : Z; hour : Z; minute : Z }.

Definition is_leap (y : Z) : bool :=
  (bool_decide (y `mod` 4 = 0) && (negb (bool_decide (y `mod` 100 = 0)) || bool_decide (y `mod` 400 = 0)))%bool.

Definition days_in (y mo : Z) : Z :=
  if bool_decide (mo = 2) then (if is_leap y then 29 else 28)
  else if (bool_decide (mo = 4) || bool_decide (mo = 6) || bool_decide (mo = 9) || bool_decide (mo = 11))%bool
  then 30 else 31.

(** Days before the first of the year, and before the first of the month. *)
Definition days_before_year (y : Z) : Z :=
  let p := y - 1 in 365 * p + p `div` 4 - p `div` 100 + p `div` 400.

Definition days_before_month (y mo : Z) : Z :=
  let leap := if is_leap y then 1 else 0 in
  if bool_decide (mo = 1) then 0 else if bool_decide (mo = 2) then 31
  else leap + nth (Z.to_nat (mo - 3)) [59; 90; 120; 151; 181; 212; 243; 273; 304; 334] 365.

(** Days since Monday, January 1 of year 1. *)
Definition day_of (c : civil) : Z := days_before_year (year c) + days_before_month (year c) (month c) + (day c - 1).

Definition minute_of (c : civil) : Z := (day_of c * 24 + hour c) * 60 + minute c.

(** [Weekday]: Sunday is 0. *)
Definition weekday (c : civil) : Z := (day_of c + 1) `mod` 7.

Definition valid (c : civil) : Prop :=
  1 ≤ month c ≤ 12 ∧ 1 ≤ day c ≤ days_in (year c) (month c) ∧ 0 ≤ hour c ≤ 23 ∧ 0 ≤ minute c ≤ 59.

(** [time.Date(y, m+1, 1, 0, 0, 0, 0)], [AddDate(0, 0, 1)] cut to midnight,
    [Add(time.Hour)] cut to the hour, [Add(time.Minute)]. *)
Definition next_month (c : civil) : civil :=
  if bool_decide (month c = 12)
  then {| year := year c + 1; month := 1; day := 1; hour := 0; minute := 0 |}
  else {| year := year c; month := month c + 1; day := 1; hour := 0; minute := 0 |}.

Definition next_day (c : civil) : civil :=
  if bool_decide (day c = days_in (year c) (month c)) then next_month c
  else {| year := year c; month := month c; day := day c + 1; hour := 0; minute := 0 |}.

Definition next_hour (c : civil) : civil :=
  if bool_decide (hour c = 23) then next_day c
  else {| year := year c; month := month c; day := day c; hour := hour c + 1; minute := 0 |}.

Definition next_minute (c : civil) : civil :=
  if bool_decide (minute c = 59) then next_hour c
  else {| year := year c; month := month c; day := day c; hour := hour c; minute := minute c + 1 |}.

(** ** Searching *)

(** [slices.Contains] *)
Definition Contains (l : list Z) (v : Z) : bool := bool_decide (v ∈ l).

Definition matchDay (s : schedule) (c : civil) : bool :=
  let domMatch := Contains (doms s) (day c) in
  let dowMatch := Contains (dows s) (weekday c) in
  if (domIsWild s && dowIsWild s)%bool then true
  else if domIsWild s then dowMatch
  else if dowIsWild s then domMatch
  else (domMatch || dowMatch)%bool.

Definition maxIterations : Z := 1461 * 24 * 60.

Fixpoint search (s : schedule) (fuel : nat) (candidate : civil) : result cron_error civil :=
  match fuel with
  | O => Err ErrNoMatch
  | S fuel =>
      if negb (Contains (months s) (month candidate)) then search s fuel (next_month candidate)
      else if negb (matchDay s candidate) then search s fuel (next_day candidate)
      else if negb (Contains (hours s) (hour candidate)) then search s fuel (next_hour candidate)
      else if negb (Contains (minutes s) (minute candidate)) then search s fuel (next_minute candidate)
      else Ok candidate
  end.

(** [from] is the reference time with its seconds dropped; [None] is the nil
    schedule. *)
Definition Next (sched : option schedule) (from : civil) : result cron_error civil :=
  match sched with
  | None => Err ErrNilSchedule
  | Some s => search s (Z.to_nat maxIterations) (next_minute from)
  end.

(** ** Calendar lemmas *)

Lemma days_before_year_succ y : days_before_year (y + 1) = days_before_year y + 365 + (if is_leap y then 1 else 0).
Proof.
  unfold days_before_year, is_leap. replace (y + 1 - 1) with y by lia.
  assert (Hd : ∀ n, 0 < n → y `div` n - (y - 1) `div` n = if bool_decide (y `mod` n = 0) then 1 else 0).
  { intros n Hn. case_bool_decide as Hm.
    - apply Z.mod_divide in Hm as [q Hq]; [|lia]. subst y. rewrite Z.div_mul by lia.
      rewrite <- (Z.div_unique (q * n - 1) n (q - 1) (n - 1)); lia.
    - rewrite <- (Z.div_unique (y - 1) n (y `div` n) (y `mod` n - 1)); [lia| |].
      + pose proof (Z.mod_pos_bound y n). lia.
      + pose proof (Z.div_mod y n). lia. }
  pose proof (Hd 4 ltac:(lia)) as H4. pose proof (Hd 100 ltac:(lia)) as H100. pose proof (Hd 400 ltac:(lia)) as H400.
  assert (H41 : y `mod` 100 = 0 → y `mod` 4 = 0) by (intros H; rewrite Z.mod_divide in * by lia; destruct H as [q ->]; exists (q * 25); lia).
  assert (H14 : y `mod` 400 = 0 → y `mod` 100 = 0) by (intros H; rewrite Z.mod_divide in * by lia; destruct H as [q ->]; exists (q * 4); lia).
  repeat case_bool_decide; simpl; tauto || lia.
Qed.

Lemma days_before_month_succ y mo : 1 ≤ mo ≤ 11 →
  days_before_month y (mo + 1) = days_before_month y mo + days_in y mo.
Proof.
  intros H. assert (mo = 1 ∨ mo = 2 ∨ mo = 3 ∨ mo = 4 ∨ mo = 5 ∨ mo = 6 ∨ mo = 7 ∨ mo = 8 ∨ mo = 9 ∨ mo = 10 ∨ mo = 11)
    as Hm by lia.
  unfold days_before_month, days_in. destruct (is_leap y);
    destruct_or! Hm; subst; reflexivity.
Qed.

Lemma days_in_range y mo : 28 ≤ days_in y mo ≤ 31.
Proof. unfold days_in. repeat case_match; lia. Qed.

(** Months numbered consecutively: month [k] starts on day [month_start k]. *)
Definition month_index (c : civil) : Z := 12 * year c + (month c - 1).

Definition month_start (k : Z) : Z :=
  days_before_year (k `div` 12) + days_before_month (k `div` 12) (k `mod` 12 + 1).

Definition month_length (k : Z) : Z := days_in (k `div` 12) (k `mod` 12 + 1).

Lemma month_start_succ k : month_start (k + 1) = month_start k + month_length k.
Proof.
  unfold month_start, month_length. pose proof (Z.mod_pos_bound k 12 ltac:(lia)) as Hr.
  pose proof (Z.div_mod k 12 ltac:(lia)) as Hk.
  destruct (decide (k `mod` 12 = 11)) as [E|E].
  - rewrite <- (Z.div_unique (k + 1) 12 (k `div` 12 + 1) 0), <- (Z.mod_unique (k + 1) 12 (k `div` 12 + 1) 0) by lia.
    rewrite days_before_year_succ, E. change (0 + 1) with 1. change (11 + 1) with 12.
    unfold days_before_month, days_in. destruct (is_leap (k `div` 12)); simpl; lia.
  - rewrite <- (Z.div_unique (k + 1) 12 (k `div` 12) (k `mod` 12 + 1)), <- (Z.mod_unique (k + 1) 12 (k `div` 12) (k `mod` 12 + 1)) by lia.
    rewrite days_before_month_succ by lia. lia.
Qed.

Lemma month_start_mono k k' : k < k' → month_start (k + 1) ≤ month_start k'.
Proof.
  intros H. replace k' with (k + 1 + Z.of_nat (Z.to_nat (k' - k - 1))) by lia.
  induction (Z.to_nat (k' - k - 1)) as [|n IH]; [rewrite Z.add_0_r; lia|].
  replace (k + 1 + Z.of_nat (S n)) with (k + 1 + Z.of_nat n + 1) by lia.
  rewrite (month_start_succ (k + 1 + Z.of_nat n)). pose proof (days_in_range ((k + 1 + Z.of_nat n) `div` 12) ((k + 1 + Z.of_nat n) `mod` 12 + 1)).
  unfold month_length. lia.
Qed.

Lemma month_index_div c : valid c →
  month_index c `div` 12 = year c ∧ month_index c `mod` 12 + 1 = month c.
Proof.
  intros [Hm _]. unfold month_index.
  rewrite <- (Z.div_unique (12 * year c + (month c - 1)) 12 (year c) (month c - 1)) by lia.
  rewrite <- (Z.mod_unique (12 * year c + (month c - 1)) 12 (year c) (month c - 1)) by lia. lia.
Qed.

Lemma day_of_month c : valid c →
  day_of c = month_start (month_index c) + (day c - 1) ∧ 1 ≤ day c ≤ month_length (month_index c).
Proof.
  intros Hv. destruct (month_index_div c Hv) as [Hy Hm]. unfold month_start, month_length. rewrite Hy, Hm.
  split; [done|apply Hv].
Qed.

(** The day number determines the month, and then the day. *)
Lemma month_of_day c k : valid c → month_start k ≤ day_of c < month_start (k + 1) → month_index c = k.
Proof.
  intros Hv Hk. destruct (day_of_month c Hv) as [Hd Hr]. pose proof (month_start_succ (month_index c)).
  destruct (Z.lt_trichotomy (month_index c) k) as [Hlt|[?|Hgt]]; [|done|].
  - pose proof (month_start_mono _ _ Hlt). lia.
  - pose proof (month_start_mono _ _ Hgt). lia.
Qed.

Lemma same_month c c' : valid c → valid c' → month_index c = month_index c' → month c = month c' ∧ year c = year c'.
Proof.
  intros Hv Hv' E. destruct (month_index_div c Hv) as [<- <-], (month_index_div c' Hv') as [<- <-]. by rewrite E.
Qed.

Lemma same_day c c' : valid c → valid c' → day_of c = day_of c' →
  month c = month c' ∧ year c = year c' ∧ day c = day c'.
Proof.
  intros Hv Hv' E. destruct (day_of_month c Hv) as [Hd Hr], (day_of_month c' Hv') as [Hd' Hr'].
  assert (Hk : month_index c = month_index c').
  { apply month_of_day; [done|]. rewrite E, month_start_succ. lia. }
  destruct (same_month c c' Hv Hv' Hk). rewrite Hk in *. lia.
Qed.

(** ** Skips of the search *)

Lemma next_month_spec c : valid c →
  valid (next_month c) ∧ minute_of (next_month c) = month_start (month_index c + 1) * 1440.
Proof.
  intros Hv. pose proof (month_start_succ (month_index c)) as Hs. destruct (month_index_div c Hv) as [Hy Hm].
  assert (Hv' : valid (next_month c)).
  { unfold next_month. case_bool_decide; repeat split; simpl; try lia; try (apply Hv);
      try (destruct Hv; lia); pose proof (days_in_range (year c + 1) 1); pose proof (days_in_range (year c) (month c + 1)); lia. }
  split; [done|]. destruct (day_of_month _ Hv') as [Hd _]. unfold minute_of. rewrite Hd.
  assert (Hi : month_index (next_month c) = month_index c + 1).
  { unfold month_index, next_month. case_bool_decide; simpl; lia. }
  rewrite Hi. unfold next_month. case_bool_decide; simpl; lia.
Qed.

Lemma next_day_spec c : valid c → valid (next_day c) ∧ minute_of (next_day c) = (day_of c + 1) * 1440.
Proof.
  intros Hv. destruct (day_of_month c Hv) as [Hd Hr]. unfold next_day. case_bool_decide as E.
  - destruct (next_month_spec c Hv) as [Hv' ->]. split; [done|]. rewrite month_start_succ, Hd.
    destruct (month_index_div c Hv) as [Hy Hm]. unfold month_length in *. rewrite Hy, Hm in *. lia.
  - split; [|unfold minute_of, day_of; simpl; lia].
    destruct Hv as (H1 & H2 & H3 & H4). repeat split; simpl; lia.
Qed.

Lemma next_hour_spec c : valid c → valid (next_hour c) ∧ minute_of (next_hour c) = (day_of c * 24 + hour c + 1) * 60.
Proof.
  intros Hv. unfold next_hour. case_bool_decide as E.
  - destruct (next_day_spec c Hv) as [? ->]. split; [done|lia].
  - destruct Hv as (H1 & H2 & H3 & H4). split; [|unfold minute_of, day_of; simpl; lia]. repeat split; simpl; lia.
Qed.

Lemma next_minute_spec c : valid c → valid (next_minute c) ∧ minute_of (next_minute c) = minute_of c + 1.
Proof.
  intros Hv. unfold next_minute. case_bool_decide as E.
  - destruct (next_hour_spec c Hv) as [? ->]. split; [done|]. unfold minute_of. lia.
  - destruct Hv as (H1 & H2 & H3 & H4). split; [|unfold minute_of, day_of; simpl; lia]. repeat split; simpl; lia.
Qed.

Lemma minute_of_bounds c : valid c → day_of c * 1440 ≤ minute_of c < (day_of c + 1) * 1440.
Proof. intros (_ & _ & H3 & H4). unfold minute_of. lia. Qed.

(** The reference semantics: the fields an instant must satisfy. *)
Definition matches (s : schedule) (c : civil) : bool :=
  (Contains (months s) (month c) && matchDay s c && Contains (hours s) (hour c) && Contains (minutes s) (minute c))%bool.

(** No matching minute in [lo, hi). *)
Definition free (s : schedule) (lo hi : Z) : Prop :=
  ∀ c, valid c → lo ≤ minute_of c < hi → matches s c = false.

Lemma free_app s a b c : free s a b → free s b c → free s a c.
Proof. intros H1 H2 x Hv Hx. destruct (decide (minute_of x < b)); [apply H1|apply H2]; auto; lia. Qed.

Lemma matchDay_same s c c' : valid c → valid c' → day_of c = day_of c' → matchDay s c = matchDay s c'.
Proof.
  intros Hv Hv' E. destruct (same_day c c' Hv Hv' E) as (_ & _ & Hd). unfold matchDay, weekday. by rewrite E, Hd.
Qed.

Lemma skip_month s c : valid c → Contains (months s) (month c) = false →
  free s (minute_of c) (minute_of (next_month c)).
Proof.
  intros Hv Hm x Hx Hr. destruct (next_month_spec c Hv) as [_ E]. rewrite E in Hr.
  pose proof (minute_of_bounds x Hx). pose proof (minute_of_bounds c Hv). destruct (day_of_month c Hv).
  assert (Hi : month_index x = month_index c) by (apply month_of_day; [done|lia]).
  destruct (same_month x c Hx Hv Hi) as [Hmo _]. unfold matches. by rewrite Hmo, Hm.
Qed.

Lemma skip_day s c : valid c → matchDay s c = false → free s (minute_of c) (minute_of (next_day c)).
Proof.
  intros Hv Hd x Hx Hr. destruct (next_day_spec c Hv) as [_ E]. rewrite E in Hr.
  pose proof (minute_of_bounds x Hx). pose proof (minute_of_bounds c Hv).
  unfold matches. rewrite (matchDay_same s x c Hx Hv) by lia. by rewrite Hd, andb_false_r.
Qed.

Lemma skip_hour s c : valid c → Contains (hours s) (hour c) = false → free s (minute_of c) (minute_of (next_hour c)).
Proof.
  intros Hv Hh x Hx Hr. destruct (next_hour_spec c Hv) as [_ E]. rewrite E in Hr.
  assert (hour x = hour c) as Hxc.
  { destruct Hx as (_ & _ & H3 & H4), Hv as (_ & _ & H3' & H4'). unfold minute_of in Hr.
    assert (day_of x = day_of c) by lia. lia. }
  unfold matches. by rewrite Hxc, Hh, andb_false_r.
Qed.

Lemma skip_minute s c : valid c → Contains (minutes s) (minute c) = false → free s (minute_of c) (minute_of (next_minute c)).
Proof.
  intros Hv Hh x Hx Hr. destruct (next_minute_spec c Hv) as [_ E]. rewrite E in Hr.
  assert (minute x = minute c) as Hxc.
  { destruct Hx as (_ & _ & H3 & H4), Hv as (_ & _ & H3' & H4'). unfold minute_of in Hr. lia. }
  unfold matches. by rewrite Hxc, Hh, andb_false_r.
Qed.

Lemma search_spec s fuel c : valid c →
  match search s fuel c with
  | Ok t => valid t ∧ matches s t = true ∧ minute_of c ≤ minute_of t ∧ free s (minute_of c) (minute_of t)
  | Err e => e = ErrNoMatch ∧ free s (minute_of c) (minute_of c + Z.of_nat fuel)
  end.
Proof.
  revert c. induction fuel as [|fuel IH]; intros c Hv.
  { simpl. split; [done|]. intros x _ Hx. lia. }
  assert (Hskip : ∀ c', valid c' → minute_of c + 1 ≤ minute_of c' → free s (minute_of c) (minute_of c') →
    match search s fuel c' with
    | Ok t => valid t ∧ matches s t = true ∧ minute_of c ≤ minute_of t ∧ free s (minute_of c) (minute_of t)
    | Err e => e = ErrNoMatch ∧ free s (minute_of c) (minute_of c + Z.of_nat (S fuel))
    end).
  { intros c' Hv' Hlt Hfree. specialize (IH c' Hv'). destruct (search s fuel c') as [t|].
    - destruct IH as (? & ? & ? & ?). split_and!; try done; [lia|by eapply free_app].
    - destruct IH as [-> Hf]. split; [done|]. intros x Hx Hr. eapply (free_app s _ _ _ Hfree Hf); [done|lia]. }
  pose proof (minute_of_bounds c Hv). cbn [search].
  destruct (Contains (months s) (month c)) eqn:Hm; cbn [negb].
  2:{ destruct (next_month_spec c Hv) as [Hv' E], (day_of_month c Hv). apply Hskip; [done| |by apply skip_month].
      rewrite E, month_start_succ. lia. }
  destruct (matchDay s c) eqn:Hd; cbn [negb].
  2:{ destruct (next_day_spec c Hv) as [Hv' E]. apply Hskip; [done|lia|by apply skip_day]. }
  destruct (Contains (hours s) (hour c)) eqn:Hh; cbn [negb].
  2:{ destruct (next_hour_spec c Hv) as [Hv' E]. apply Hskip; [done| |by apply skip_hour].
      rewrite E. destruct Hv as (_ & _ & _ & ?). unfold minute_of. lia. }
  destruct (Contains (minutes s) (minute c)) eqn:Hmi; cbn [negb].
  2:{ destruct (next_minute_spec c Hv) as [Hv' E]. apply Hskip; [done|lia|by apply skip_minute]. }
  split_and!; [done|unfold matches; by rewrite Hm, Hd, Hh, Hmi|lia|]. intros x _ Hx. lia.
Qed.

(** When a schedule fires, by the cron convention: the time satisfies the month,
    hour and minute fields and, if both day fields are restricted, either of
    them, otherwise both (an unrestricted one accepts every day). *)
Definition fires (s : schedule) (c : civil) : Prop :=
  month c ∈ months s ∧ hour c ∈ hours s ∧ minute c ∈ minutes s ∧
  let dom := domIsWild s = true ∨ day c ∈ doms s in
  let dow := dowIsWild s = true ∨ weekday c ∈ dows s in
  if (domIsWild s || dowIsWild s)%bool then dom ∧ dow else dom ∨ dow.

Lemma matches_fires s c : matches s c = true ↔ fires s c.
Proof.
  unfold matches, fires, matchDay, Contains. rewrite !andb_true_iff, !bool_decide_eq_true.
  destruct (domIsWild s), (dowIsWild s); simpl; rewrite ?orb_true_iff, ?bool_decide_eq_true; naive_solver.
Qed.

Lemma matches_not_fires s c : matches s c = false → ¬ fires s c.
Proof. intros Hm Hf. apply matches_fires in Hf. congruence. Qed.

(** C35: [Next] finds the earliest match: for every schedule and reference time
    the answer is a valid calendar minute after the reference at which the
    schedule fires (month, hour and minute fields, and the day-of-month or
    day-of-week rule of cron), and it fires at no earlier minute after the
    reference; the search reports no match only when it does not fire in the next
    1461 days. *)
Theorem Next_is_earliest (s : schedule) (from : civil) : valid from →
  match Next (Some s) from with
  | Ok t => valid t ∧ fires s t ∧ minute_of from < minute_of t ∧
            ∀ c, valid c → minute_of from < minute_of c < minute_of t → ¬ fires s c
  | Err e => e = ErrNoMatch ∧
             ∀ c, valid c → minute_of from < minute_of c ≤ minute_of from + 1461 * 24 * 60 → ¬ fires s c
  end.
Proof.
  intros Hv. destruct (next_minute_spec from Hv) as [Hv' E]. unfold Next.
  pose proof (search_spec s (Z.to_nat maxIterations) (next_minute from) Hv') as Hs. rewrite E in Hs.
  destruct (search s _ _) as [t|e].
  - destruct Hs as (? & Hm & ? & Hf). split_and!; [done|by apply matches_fires|lia|].
    intros c Hc Hr. apply matches_not_fires, Hf; [done|lia].
  - destruct Hs as [-> Hf]. split; [done|]. intros c Hc Hr. apply matches_not_fires, Hf; [done|].
    rewrite Z2Nat.id by (vm_compute; discriminate). unfold maxIterations. lia.
Qed.

(** ** What the parser accepts *)

Lemma range_loop_plain fuel v hi step : 0 ≤ v → hi ≤ maxMinute → 0 < step ≤ MaxInt64 - maxMinute →
  hi - v < Z.of_nat fuel →
  ∃ l, range_loop fuel v hi step = Some l ∧ ∀ x, x ∈ l ↔ v ≤ x ≤ hi ∧ (step | x - v).
Proof.
  unfold maxMinute. intros Hv Hhi Hs. revert v Hv. induction fuel as [|fuel IH]; intros v Hv Hf.
  { simpl. rewrite bool_decide_false by lia. exists []. split; [done|]. intros x. rewrite elem_of_nil. lia. }
  cbn [range_loop]. case_bool_decide as Hle.
  2:{ exists []. split; [done|]. intros x. rewrite elem_of_nil. lia. }
  rewrite wrap64_id by (unfold in_int64, MinInt64, MaxInt64 in *; lia).
  destruct (IH (v + step)) as (l & -> & Hl); [lia|lia|]. exists (v :: l). split; [done|]. intros x.
  rewrite elem_of_cons, Hl. split.
  - intros [-> | [Hx [q Hq]]]; [split; [lia|exists 0; lia]|]. split; [lia|]. exists (q + 1). lia.
  - intros [Hx [q Hq]]. destruct (decide (x = v)) as [|Hne]; [by left|right].
    assert (0 < q) by nia. split; [nia|]. exists (q - 1). lia.
Qed.

(** Steps so large that the counter wraps around: the loop still ends. *)
Lemma range_loop_wraps n : ∀ fuel v hi k, (Z.to_nat v ≤ n)%nat → 0 ≤ v → 0 ≤ hi ≤ maxMinute → 0 ≤ k < maxMinute →
  (Z.to_nat v + 4 ≤ fuel)%nat → is_Some (range_loop fuel v hi (MaxInt64 - k)).
Proof.
  unfold maxMinute. induction n as [n IH] using lt_wf_ind. intros fuel v hi k Hn Hv Hhi Hk Hf.
  assert (Hw : ∀ z, in_int64 z → wrap64 z = z) by apply wrap64_id.
  assert (Hstop : ∀ f u, hi < u → range_loop f u hi (MaxInt64 - k) = Some []).
  { intros f u Hu. destruct f; simpl; by rewrite bool_decide_false by lia. }
  assert (Hcons : ∀ f u, is_Some (range_loop f (wrap64 (u + (MaxInt64 - k))) hi (MaxInt64 - k)) →
                         is_Some (range_loop (S f) u hi (MaxInt64 - k))).
  { intros f u [l Hl]. cbn [range_loop]. case_bool_decide; [rewrite Hl|]; eauto. }
  destruct (decide (hi < v)); [rewrite Hstop by done; eauto|].
  destruct fuel as [|[|[|fuel]]]; [lia..|]. apply Hcons. destruct (decide (v ≤ k)).
  { rewrite Hw, Hstop by (unfold in_int64, MinInt64, MaxInt64; lia). eauto. }
  assert (E1 : wrap64 (v + (MaxInt64 - k)) = v - k - 1 - 2 ^ 63).
  { unfold wrap64. rewrite <- (Z.mod_unique _ (2 ^ 64) 1 (v - k - 1)); unfold MaxInt64; lia. }
  rewrite E1. apply Hcons.
  assert (E2 : wrap64 (v - k - 1 - 2 ^ 63 + (MaxInt64 - k)) = v - 2 * k - 2)
    by (rewrite Hw; unfold in_int64, MinInt64, MaxInt64; lia).
  rewrite E2. destruct (decide (0 ≤ v - 2 * k - 2)).
  - apply (IH (Z.to_nat (v - 2 * k - 2))); lia.
  - apply Hcons. rewrite Hw, Hstop by (unfold in_int64, MinInt64, MaxInt64; lia). eauto.
Qed.

Lemma range_fuel_plain lo hi step : 0 ≤ lo ≤ maxMinute → hi ≤ maxMinute → 0 < step ≤ MaxInt64 - maxMinute →
  ∃ vs, range_loop range_fuel lo hi step = Some vs ∧ ∀ x, x ∈ vs ↔ lo ≤ x ≤ hi ∧ (step | x - lo).
Proof. intros. apply range_loop_plain; unfold range_fuel, maxMinute in *; lia. Qed.

Lemma range_loop_terminates lo hi step : 0 ≤ lo → 0 ≤ hi ≤ maxMinute → lo ≤ maxMinute → 0 < step ≤ MaxInt64 →
  is_Some (range_loop range_fuel lo hi step).
Proof.
  intros Hlo Hhi Hlm Hs. destruct (decide (step ≤ MaxInt64 - maxMinute)).
  - destruct (range_fuel_plain lo hi step) as (vs & Hvs & _); [lia..|]. by exists vs.
  - replace step with (MaxInt64 - (MaxInt64 - step)) by lia.
    apply (range_loop_wraps (Z.to_nat lo)); unfold range_fuel, maxMinute in *; lia.
Qed.

(** The values of a range part are its arithmetic progression: for bounds of
    any cron field and a step up to [MaxInt64 - 59], the parser's loop ends and
    yields exactly the values [lo, lo+step, ...] up to [hi]; and it ends for
    every larger step as well. *)
Theorem range_values_progression (lo hi step : Z) :
  0 ≤ lo ≤ maxMinute → 0 ≤ hi ≤ maxMinute → 0 < step ≤ MaxInt64 →
  range_loop range_fuel lo hi step = Some (range_values lo hi step) ∧
  (step ≤ MaxInt64 - maxMinute →
   ∀ v, v ∈ range_values lo hi step ↔ lo ≤ v ≤ hi ∧ (step | v - lo)).
Proof.
  intros Hlo Hhi Hs. unfold range_values.
  destruct (range_loop_terminates lo hi step) as [l Hl]; [lia..|]. rewrite Hl. split; [done|]. intros Hsm.
  destruct (range_fuel_plain lo hi step) as (vs & Hvs & Hspec); [lia..|]. rewrite Hl in Hvs. by injection Hvs as <-.
Qed.

Lemma range_values_progression_witness :
  range_loop range_fuel 1 31 7 = Some [1; 8; 15; 22; 29] ∧ (29 ∈ range_values 1 31 7 ↔ 1 ≤ 29 ≤ 31 ∧ (7 | 29 - 1)).
Proof.
  destruct (range_values_progression 1 31 7) as [H1 H2]; [vm_compute; intuition discriminate..|].
  split; [rewrite H1; vm_compute; reflexivity|apply H2; vm_compute; discriminate].
Defined.

(** A step close to the largest integer wraps the loop counter around: the
    expression [59/9223372036854775807 * * * *] asks for minute 59 only and is
    accepted with every odd minute in its minute list (and negative values),
    although the step exceeds the range. *)
Theorem step_overflow_adds_minutes :
  ∃ s, Parse (txt "59/9223372036854775807 * * * *") = Ok s ∧
    (∀ v, 0 ≤ v ≤ maxMinute → Contains (minutes s) v = Z.odd v) ∧ Contains (minutes s) (-1) = true.
Proof.
  eexists. split; [vm_compute; reflexivity|]. split; [|vm_compute; reflexivity].
  intros v Hv. match goal with |- Contains ?l v = _ =>
    assert (Hall : Forall (λ v, Contains l v = Z.odd v) (seqZ 0 60))
      by (apply (bool_decide_unpack _); vm_compute; reflexivity) end.
  rewrite Forall_forall in Hall. apply Hall, elem_of_seqZ. unfold maxMinute in Hv. lia.
Qed.

Lemma Next_is_earliest_witness :
  ∃ s, Parse (txt "30 9 29 2 1-5") = Ok s ∧
  (let from := {| year := 2026; month := 1; day := 30; hour := 10; minute := 0 |} in
   let t := {| year := 2026; month := 2; day := 2; hour := 9; minute := 30 |} in
   Next (Some s) from = Ok t ∧ valid t ∧ fires s t ∧
   ∀ c, valid c → minute_of from < minute_of c < minute_of t → ¬ fires s c).
Proof.
  eexists. split; [vm_compute; reflexivity|]. cbv zeta.
  match goal with |- Next (Some ?s) ?from = Ok ?t ∧ _ =>
    assert (E : Next (Some s) from = Ok t) by (vm_compute; reflexivity);
    pose proof (Next_is_earliest s from) as H end.
  rewrite E in H. destruct H as (Hv & Hm & _ & Hn); [vm_compute; intuition discriminate|].
  exact (conj E (conj Hv (conj Hm Hn))).
Defined.

Lemma range_loop_upper fuel v hi step l : range_loop fuel v hi step = Some l → Forall (λ x, x ≤ hi) l.
Proof.
  revert v l. induction fuel as [|fuel IH]; intros v l; simpl; case_bool_decide.
  - done.
  - intros [= <-]. by apply Forall_nil.
  - destruct (range_loop fuel _ hi step) as [l'|] eqn:E; [|done]. intros [= <-]. apply Forall_cons. eauto.
  - intros [= <-]. by apply Forall_nil.
Qed.

Lemma range_loop_head fuel v hi step l : v ≤ hi → range_loop fuel v hi step = Some l → v ∈ l.
Proof.
  intros Hle. destruct fuel as [|fuel]; simpl; rewrite bool_decide_true by done; [done|].
  destruct (range_loop fuel _ hi step); [|done]. intros [= <-]. left.
Qed.

Lemma range_values_bounds lo hi step : 0 ≤ lo → lo ≤ hi → hi ≤ maxMinute → 0 < step ≤ MaxInt64 →
  lo ∈ range_values lo hi step ∧ Forall (λ x, x ≤ hi) (range_values lo hi step) ∧
  (step ≤ MaxInt64 - maxMinute → Forall (λ x, lo ≤ x) (range_values lo hi step)).
Proof.
  intros H0 Hlh Hhi Hs. destruct (range_loop_terminates lo hi step) as [l Hl]; [unfold maxMinute in *; lia..|].
  unfold range_values. rewrite Hl. simpl. split_and!.
  - by eapply range_loop_head.
  - by eapply range_loop_upper.
  - intros Hsm. destruct (range_fuel_plain lo hi step) as (vs & Hvs & Hx); [lia..|]. rewrite Hl in Hvs. injection Hvs as <-.
    apply Forall_forall. intros x [? _]%Hx. lia.
Qed.

Lemma digits_value_bound s acc n : 0 ≤ acc → digits_value acc s = Some n → n < (acc + 1) * 10 ^ Z.of_nat (length s).
Proof.
  revert acc. induction s as [|r s IH]; intros acc Ha; simpl digits_value; [intros [= <-]; simpl length; lia|].
  unfold is_digit. case_bool_decide as Hr; [|done]. intros Hn. apply IH in Hn; [|lia].
  cbn [length]. rewrite Nat2Z.inj_succ, Z.pow_succ_r by lia.
  assert (0 < 10 ^ Z.of_nat (length s)) by (apply Z.pow_pos_nonneg; lia). nia.
Qed.

Lemma digits_value_nonneg s acc n : 0 ≤ acc → digits_value acc s = Some n → 0 ≤ n.
Proof.
  revert acc. induction s as [|r s IH]; intros acc Ha; simpl digits_value; [intros [= <-]; lia|].
  unfold is_digit. case_bool_decide as Hr; [|done]. intros Hn. apply IH in Hn; lia.
Qed.

Lemma unsigned_value_bound s n : unsigned_value s = Some n → 0 ≤ n < 10 ^ Z.of_nat (length s).
Proof.
  intros H. assert (Hd : digits_value 0 s = Some n) by (by destruct s).
  pose proof (digits_value_bound s 0 n ltac:(lia) Hd). pose proof (digits_value_nonneg s 0 n ltac:(lia) Hd). lia.
Qed.

Lemma Atoi_bound s n : Atoi s = Some n → n ≤ MaxInt64 ∧ n < 10 ^ Z.of_nat (length s).
Proof.
  unfold Atoi. intros H.
  assert (Hc : ∀ v : option Z, match v with Some m => if bool_decide (MinInt64 ≤ m ≤ MaxInt64) then Some m else None | None => None end = Some n →
               v = Some n ∧ n ≤ MaxInt64).
  { intros [m|]; [|done]. case_bool_decide; [|done]. intros [= ->]. split; [done|lia]. }
  apply Hc in H as [Hv Hn]. split; [done|].
  assert (Hmono : ∀ t : text, (length t ≤ length s)%nat → unsigned_value t = Some n → n < 10 ^ Z.of_nat (length s)).
  { intros t Ht Hu. apply unsigned_value_bound in Hu. eapply Z.lt_le_trans; [apply Hu|]. apply Z.pow_le_mono_r; lia. }
  assert (Hneg : ∀ t : text, Z.opp <$> unsigned_value t = Some n → n < 10 ^ Z.of_nat (length s)).
  { intros t Hu. destruct (unsigned_value t) as [m|] eqn:E; [|done]. injection Hu as <-.
    apply unsigned_value_bound in E. assert (0 < 10 ^ Z.of_nat (length s)) by (apply Z.pow_pos_nonneg; lia). lia. }
  destruct s as [|r t]; [done|].
  repeat match type of Hv with context [match ?x with _ => _ end] => is_var x; destruct x; cbv iota in Hv end;
    first [by apply (Hneg t)|by apply (Hmono t); [simpl; lia|]|by apply (Hmono (_ :: t)); [simpl; lia|]|by eapply Hmono; [|exact Hv]].
Qed.

Lemma split_first_length sep s a b : split_first sep s = (a, Some b) → (length b ≤ length s)%nat.
Proof.
  revert a. induction s as [|r s IH]; intros a; simpl; [done|]. case_bool_decide; [intros [= <- <-]; lia|].
  destruct (split_first sep s) as [a' [b'|]]; [|done]. intros [= <- ->]. specialize (IH a' eq_refl). lia.
Qed.

Lemma parseStep_bound raw s : parseStep raw = Ok s → 0 < s ≤ MaxInt64 ∧ s < 10 ^ Z.of_nat (length raw).
Proof.
  unfold parseStep. destruct (Atoi raw) as [n|] eqn:E; [|done]. apply Atoi_bound in E. case_bool_decide; [done|].
  intros [= ->]. lia.
Qed.

(** What a list of field values satisfies: it has one, none is above the
    field's maximum and, when [short], none is below the field's minimum. *)
Definition field_ok (short : Prop) (minVal maxVal : Z) (vals : list Z) : Prop :=
  vals ≠ [] ∧ Forall (λ v, v ≤ maxVal) vals ∧ (short → Forall (λ v, minVal ≤ v) vals).

Lemma field_ok_range (short : Prop) minVal maxVal lo hi step :
  0 ≤ minVal ≤ lo → lo ≤ hi ≤ maxVal → maxVal ≤ maxMinute → 0 < step ≤ MaxInt64 →
  (short → step ≤ MaxInt64 - maxMinute) → field_ok short minVal maxVal (range_values lo hi step).
Proof.
  intros Hl Hh Hm Hs Hsh. destruct (range_values_bounds lo hi step) as (Hin & Hup & Hlow); [lia..|]. split_and!.
  - intros E. rewrite E in Hin. by apply elem_of_nil in Hin.
  - eapply Forall_impl; [exact Hup|]. intros; simpl in *; lia.
  - intros Hx. eapply Forall_impl; [exact (Hlow (Hsh Hx))|]. intros; simpl in *; lia.
Qed.

Definition maxStepDigits : nat := 18.

Lemma parsePart_ok part minVal maxVal vals : 0 ≤ minVal ≤ maxVal → maxVal ≤ maxMinute →
  parsePart part minVal maxVal = Ok vals → field_ok (length part ≤ maxStepDigits)%nat minVal maxVal vals.
Proof.
  intros Hmin Hmax. unfold parsePart. destruct (split_first 47 part) as [rangePart stepPart] eqn:Esp.
  assert (Hstep : ∀ step, (match stepPart with Some raw => s ← parseStep raw; Ok (Some s) | None => Ok None end) = Ok step →
    0 < default 1 step ≤ MaxInt64 ∧ ((length part ≤ maxStepDigits)%nat → default 1 step ≤ MaxInt64 - maxMinute)).
  { intros step. unfold maxStepDigits, maxMinute. destruct stepPart as [raw|]; [|intros [= <-]; simpl; unfold MaxInt64; lia].
    unfold mbind, result_bind. destruct (parseStep raw) as [s|] eqn:E; [|done]. intros [= <-]. simpl.
    apply parseStep_bound in E as [H1 H2]. apply split_first_length in Esp. split; [done|]. intros Hlen.
    assert (10 ^ Z.of_nat (length raw) ≤ 10 ^ 18) by (apply Z.pow_le_mono_r; lia). unfold MaxInt64. lia. }
  destruct (match stepPart with Some _ => _ | None => _ end) as [step|] eqn:E; [|done].
  destruct (Hstep step eq_refl) as [Hs Hsh]. clear E Hstep. unfold mbind, result_bind.
  destruct (eqt rangePart star); [intros [= <-]; apply field_ok_range; lia || done|].
  destruct (contains [45] rangePart).
  - unfold parseRange. destruct (split_first 45 rangePart) as [b0 b1]. intros H. inv_ok. bool_to_prop.
    apply field_ok_range; lia || done.
  - intros H. destruct (Atoi rangePart) as [val|]; [|done].
    destruct (_ || _)%bool eqn:Hb in H; [done|]. bool_to_prop. destruct step as [s|]; injection H as <-.
    + apply field_ok_range; lia || done.
    + split_and!; [done|repeat constructor; lia..].
Qed.

Lemma field_ok_app (P Q : Prop) minVal maxVal l k :
  field_ok P minVal maxVal l → Forall (λ v, v ≤ maxVal) k → (Q → P) → (Q → Forall (λ v, minVal ≤ v) k) → field_ok Q minVal maxVal (l ++ k).
Proof.
  intros (H1 & H2 & H3) Hk HP HQ. split_and!; [by destruct l|by apply Forall_app|intros q; apply Forall_app; auto].
Qed.

Lemma parse_parts_ok parts minVal maxVal vals : 0 ≤ minVal ≤ maxVal → maxVal ≤ maxMinute → parts ≠ [] →
  parse_parts parts minVal maxVal = Ok vals →
  field_ok (Forall (λ p, length p ≤ maxStepDigits)%nat parts) minVal maxVal vals.
Proof.
  intros Hmin Hmax. revert vals. induction parts as [|p parts IH]; intros vals Hne; [done|]. cbn [parse_parts].
  unfold mbind, result_bind. destruct (parsePart p minVal maxVal) as [v|] eqn:Ep; [|done].
  apply parsePart_ok in Ep; [|done..].
  destruct (parse_parts parts minVal maxVal) as [more|] eqn:Em; [|done]. intros [= <-].
  destruct (decide (parts = [])) as [->|Hp].
  { injection Em as <-. eapply field_ok_app; [exact Ep|constructor|by inversion 1|constructor]. }
  destruct (IH more Hp eq_refl) as (_ & Hu & Hl).
  eapply field_ok_app; [exact Ep|done|by inversion 1|inversion 1; auto].
Qed.

Lemma elem_of_first_occurrences seen vals v : v ∈ first_occurrences seen vals ↔ v ∈ vals ∧ v ∉ seen.
Proof.
  revert seen. induction vals as [|w vals IH]; intros seen; simpl; [set_solver|].
  case_bool_decide; rewrite ?elem_of_cons, !IH; destruct (decide (v = w)); set_solver.
Qed.

Lemma NoDup_first_occurrences seen vals : NoDup (first_occurrences seen vals).
Proof.
  revert seen. induction vals as [|w vals IH]; intros seen; simpl; [constructor|]. case_bool_decide; [done|].
  constructor; [|done]. rewrite elem_of_first_occurrences. set_solver.
Qed.

Lemma elem_of_deduplicate vals v : v ∈ deduplicate vals ↔ v ∈ vals.
Proof.
  unfold deduplicate. rewrite (merge_sort_Permutation Z.le (first_occurrences [] vals)), elem_of_first_occurrences. set_solver.
Qed.

Lemma deduplicate_sorted vals : StronglySorted Z.lt (deduplicate vals).
Proof.
  unfold deduplicate. pose proof (StronglySorted_merge_sort Z.le (first_occurrences [] vals)) as Hs.
  assert (Hn : NoDup (merge_sort Z.le (first_occurrences [] vals)))
    by (rewrite merge_sort_Permutation; apply NoDup_first_occurrences).
  induction Hs as [|x l Hs IH Hx]; [constructor|]. apply NoDup_cons in Hn as [Hni Hn]. constructor; [auto|].
  rewrite Forall_forall in *. intros y Hy. specialize (Hx y Hy). assert (x ≠ y) by (by intros ->). lia.
Qed.

Lemma field_ok_deduplicate P minVal maxVal vals :
  field_ok P minVal maxVal vals → field_ok P minVal maxVal (deduplicate vals).
Proof.
  intros (H1 & H2 & H3). rewrite Forall_forall in H2. split_and!.
  - destruct vals as [|v vals]; [done|]. intros E.
    assert (Hv : v ∈ deduplicate (v :: vals)) by (apply elem_of_deduplicate; left). rewrite E in Hv. by apply elem_of_nil in Hv.
  - apply Forall_forall. intros v Hv. rewrite elem_of_deduplicate in Hv. auto.
  - intros HP. specialize (H3 HP). rewrite Forall_forall in H3. apply Forall_forall. intros v Hv. rewrite elem_of_deduplicate in Hv. auto.
Qed.

(** The parts of a field are short enough for their steps to stay clear of the
    largest integer. *)
Definition short_parts (field : text) : Prop := Forall (λ p, length p ≤ maxStepDigits)%nat (split_on 44 field).

#[export] Instance short_parts_dec field : Decision (short_parts field).
Proof. unfold short_parts. apply _. Defined.

Lemma parseField_ok field minVal maxVal vals : 0 ≤ minVal ≤ maxVal → maxVal ≤ maxMinute →
  parseField field minVal maxVal = Ok vals →
  field_ok (short_parts field) minVal maxVal vals ∧ StronglySorted Z.lt vals.
Proof.
  intros Hmin Hmax. unfold parseField, mbind, result_bind.
  destruct (parse_parts _ minVal maxVal) as [vs|] eqn:E; [|done]. intros [= <-].
  split; [|apply deduplicate_sorted]. apply field_ok_deduplicate. apply parse_parts_ok; auto. apply split_on_nonempty.
Qed.

Lemma normalizeDOW_ok P vals : field_ok P 0 maxDayOfWeek vals → field_ok P 0 6 (normalizeDOW vals).
Proof.
  unfold maxDayOfWeek. intros (H1 & H2 & H3). unfold normalizeDOW. apply field_ok_deduplicate. split_and!.
  - by destruct vals.
  - apply Forall_map. eapply Forall_impl; [exact H2|]. intros v Hv. simpl in *. case_bool_decide; lia.
  - intros HP. apply Forall_map. eapply Forall_impl; [exact (H3 HP)|]. intros v Hv. simpl in *. case_bool_decide; lia.
Qed.

(** C36: What [Parse] accepts is a usable schedule: the expression has exactly
    five fields, each field's list is nonempty and strictly increasing, no value
    exceeds its field's maximum (Sunday is always 0), the wildcard flags say
    whether the day fields were a bare star, and every value is at least its
    field's minimum when the parts of that field have at most 18 characters (so
    that no step overflows). *)
Theorem Parse_well_formed (expr : text) (s : schedule) : Parse expr = Ok s →
  ∃ f0 f1 f2 f3 f4, Fields (TrimSpace expr) = [f0; f1; f2; f3; f4] ∧
    domIsWild s = isWildcard f2 ∧ dowIsWild s = isWildcard f4 ∧
    Forall (StronglySorted Z.lt) [minutes s; hours s; doms s; months s; dows s] ∧
    field_ok (short_parts f0) 0 59 (minutes s) ∧ field_ok (short_parts f1) 0 23 (hours s) ∧
    field_ok (short_parts f2) 1 31 (doms s) ∧ field_ok (short_parts f3) 1 12 (months s) ∧
    field_ok (short_parts f4) 0 6 (dows s).
Proof.
  unfold Parse. destruct (is_empty _); [done|].
  destruct (Fields _) as [|f0 [|f1 [|f2 [|f3 [|f4 [|]]]]]] eqn:EF; try done.
  intros H. exists f0, f1, f2, f3, f4. unfold mbind, result_bind in H.
  repeat match type of H with match parseField ?f ?a ?b with _ => _ end = _ =>
    let E := fresh "E" in destruct (parseField f a b) eqn:E; [apply parseField_ok in E as [? ?]; [|vm_compute; intuition discriminate..]|done] end.
  injection H as <-. simpl. split_and!; try done; [|by apply normalizeDOW_ok].
  repeat constructor; try done. apply deduplicate_sorted.
Qed.

Lemma Parse_well_formed_witness :
  ∃ s, Parse (txt "*/15 9-17 * * 1-5,7") = Ok s ∧ dows s = [0; 1; 2; 3; 4; 5] ∧ Forall (λ v, 0 ≤ v) (minutes s) ∧
       minutes s ≠ [] ∧ domIsWild s = true.
Proof.
  eexists. split; [vm_compute; reflexivity|]. split; [reflexivity|].
  match goal with |- Forall _ (minutes ?s) ∧ _ =>
    destruct (Parse_well_formed (txt "*/15 9-17 * * 1-5,7") s) as (f0 & f1 & f2 & f3 & f4 & HF & Hd & _ & _ & (Hn & _ & Hl) & _);
    [vm_compute; reflexivity|] end.
  vm_compute in HF. injection HF as <- <- <- <- <-. split_and!; [|exact Hn|reflexivity].
  apply Hl. apply (bool_decide_unpack _). vm_compute. reflexivity.
Defined.
