(* ===== verification/DeadLetter.v ===== *)
(** The dead letter queue: [dlq/handler.go], [dlq/keys.go] and
    [dlq/consumer.go].

    Failed messages wait in Redis lists, one per tenant and source.  Every
    operation is a program over the commands the code issues: Redis calls, the
    clock, the random generator, the context, the caller's retry function, and
    the reports (a metric or log line about one message).  [exec] is what a
    command does to Redis, with every fault a call can have. *)

From stdpp Require Import base numbers list gmap strings.
From S2P Require Import Prelude GoText Backoff Effects.

Local Open Scope Z_scope.
Local Open Scope go_scope.

(** ** Data *)

Record FailedMessage := {
  Source : text;
  OriginalData : list Z;
  ErrorMessage : text;
  RetryCount : Z;
  MaxRetries : Z;
  CreatedAt : gotime;
  NextRetryAt : gotime;
  TenantID : text;
}.

#[export] Instance FailedMessage_eq_dec : EqDecision FailedMessage.
Proof. solve_decision. Defined.

#[export] Instance FailedMessage_eta : Eta FailedMessage := λ m,
  {| Source := Source m; OriginalData := OriginalData m; ErrorMessage := ErrorMessage m;
     RetryCount := RetryCount m; MaxRetries := MaxRetries m; CreatedAt := CreatedAt m;
     NextRetryAt := NextRetryAt m; TenantID := TenantID m |}.

(** The sentinel errors, [redis.Nil], and the errors only told apart by text. *)
Inductive dlq_error :=
| ErrNilHandler | ErrNilRetryFunc | RedisNil
| ErrNilMessage | ErrSource | ErrTenant | ErrTenantMismatch | ErrEmptyKey
| ErrMarshal | ErrUnmarshal | ErrClient | ErrRedis.

#[export] Instance dlq_error_eq_dec : EqDecision dlq_error.
Proof. solve_decision. Defined.

(** A context: the tenant it carries (empty when none). *)
Record Ctx := { cx_tenant : text }.

Definition GetTenantIDContext (ctx : Ctx) : text := cx_tenant ctx.

Definition ContextWithTenantID (ctx : Ctx) (tenantID : text) : Ctx := {| cx_tenant := tenantID |}.

Record Handler := { keyPrefix : text; maxRetries : Z }.

Definition New (conn : bool) (prefix : text) (retries : Z) : option Handler :=
  if negb conn then None
  else Some {| keyPrefix := if is_empty prefix then txt "dlq:" else prefix;
               maxRetries := if bool_decide (retries ≤ 0) then 3 else retries |}.

Record ConsumerConfig := { PollInterval : duration; BatchSize : Z; Sources : list text }.

#[export] Instance ConsumerConfig_eta : Eta ConsumerConfig := λ c,
  {| PollInterval := PollInterval c; BatchSize := BatchSize c; Sources := Sources c |}.

Record Consumer := { handler : Handler; cfg : ConsumerConfig }.

Definition WithPollInterval (d : duration) (c : ConsumerConfig) : ConsumerConfig :=
  if bool_decide (0 < d) then c <| PollInterval := d |> else c.

Definition WithBatchSize (n : Z) (c : ConsumerConfig) : ConsumerConfig :=
  if bool_decide (0 < n) then c <| BatchSize := n |> else c.

Definition WithSources (sources : list text) (c : ConsumerConfig) : ConsumerConfig :=
  match sources with [] => c | _ => c <| Sources := sources |> end.

Definition NewConsumer (h : option Handler) (retryFn : bool) (opts : list (ConsumerConfig → ConsumerConfig)) :
    result dlq_error Consumer :=
  match h with
  | None => Err ErrNilHandler
  | Some h =>
    if negb retryFn then Err ErrNilRetryFunc
    else Ok {| handler := h;
               cfg := foldl (λ c opt, opt c) {| PollInterval := 30 * Second; BatchSize := 10; Sources := [] |} opts |}
  end.

(** ** Keys *)

Definition colon : Z := 58.

Definition disallowed (c : Z) : bool :=
  (bool_decide (c = 58) || bool_decide (c = 42) || bool_decide (c = 63) || bool_decide (c = 91)
   || bool_decide (c = 93) || bool_decide (c = 92))%bool.

(** [true] when the segment is accepted. *)
Definition validateKeySegment (value : text) : bool := forallb (λ c, negb (disallowed c)) value.

Definition validateSource (source : text) : result dlq_error unit :=
  if is_empty source then Err ErrSource
  else if validateKeySegment source then Ok tt else Err ErrSource.

Definition validateEnqueueMessage (msg : option FailedMessage) : result dlq_error FailedMessage :=
  match msg with
  | None => Err ErrNilMessage
  | Some m => _ ← validateSource (Source m); Ok m
  end.

Definition tenantScopedKeyForTenant (h : Handler) (tenantID source : text) : text :=
  if is_empty tenantID then keyPrefix h ++ source
  else if validateKeySegment tenantID then keyPrefix h ++ tenantID ++ colon :: source
  else [].

Definition tenantScopedKey (h : Handler) (ctx : Ctx) (source : text) : text :=
  tenantScopedKeyForTenant h (GetTenantIDContext ctx) source.

(** The slices are on bytes in Go; on well-formed strings a prefix or suffix of
    bytes is one of runes, and what remains is empty in both or in neither. *)
Definition ExtractTenantFromKey (h : Handler) (key source : text) : text :=
  let prefix := keyPrefix h in
  let suffix := colon :: source in
  if bool_decide (length key ≤ length prefix + length suffix)%nat then []
  else if negb (eqt (take (length prefix) key) prefix) then []
  else if negb (eqt (drop (length key - length suffix) key) suffix) then []
  else drop (length prefix) (take (length key - length suffix) key).

(** ** Timing *)

Definition minBackoff : duration := 5 * Second.

Definition backoffDuration (g : entropy) (retryCount : Z) : duration :=
  Z.max (ExponentialWithJitter g (30 * Second) retryCount) minBackoff.

(** ** Commands *)

(** What becomes of a message that leaves the queue: the metric recorded, or for
    a pruning pass the log line. *)
Inductive report := Retried | Exhausted | Lost | Pruned | NotRequeued.

#[export] Instance report_eq_dec : EqDecision report.
Proof. solve_decision. Defined.

Inductive retry_outcome := Returned (err : option text) | Panicked (what : text).

(** [encoding/json] on messages; [D] is the type of stored documents. *)
Class Json (D : Type) := {
  Marshal : FailedMessage → option D;
  Unmarshal : D → option FailedMessage;
}.

Class JsonLaws (D : Type) `{Json D} := {
  Marshal_Unmarshal m d : Marshal m = Some d → Unmarshal d = Some m;
  Marshal_fails m : Marshal m = None → (json_time (CreatedAt m) && json_time (NextRetryAt m))%bool = false;
}.

(** What a script of SCAN calls brought: the keys of each reply, and whether it
    got to the end (cursor 0) or a call failed. *)
Record scan_replies := { sc_pages : list (list text); sc_complete : bool }.

Inductive cmd (D : Type) :=
| GetClient
| LPop (key : text)
| RPush (key : text) (data : D)
| LLen (key : text)
| Scan (pattern : text)
| Now
| Entropy
| CtxDone
| Retry (ctx : Ctx) (msg : FailedMessage)
| Report (o : report) (source : text) (msg : FailedMessage).
Arguments GetClient {D}.
Arguments LPop {D} key.
Arguments RPush {D} key data.
Arguments LLen {D} key.
Arguments Scan {D} pattern.
Arguments Now {D}.
Arguments Entropy {D}.
Arguments CtxDone {D}.
Arguments Retry {D} ctx msg.
Arguments Report {D} o source msg.

(** The answers: a client or none; the document popped, no document, or an
    error; success of the push; the length or an error; and so on.  The retry
    function holds a pointer, so that it also answers the message as it left
    it. *)
Definition answer {D} (c : cmd D) : Type :=
  match c with
  | GetClient => bool
  | LPop _ => option (option D)
  | RPush _ _ => bool
  | LLen _ => option Z
  | Scan _ => scan_replies
  | Now => gotime
  | Entropy => entropy
  | CtxDone => bool
  | Retry _ _ => retry_outcome * FailedMessage
  | Report _ _ _ => unit
  end.

Abbreviation prog D := (eff (@answer D)).

(** ** Handler *)

Section handler.
Context {D : Type} `{Json D} (h : Handler).

Definition stampInitialEnqueue (msg : FailedMessage) : prog D FailedMessage :=
  let initialEnqueue := time_is_zero (CreatedAt msg) in
  msg ← (if initialEnqueue then t ← perform Now; mret (msg <| CreatedAt := t |>) else mret msg);
  let msg := if bool_decide (MaxRetries msg ≤ 0) then msg <| MaxRetries := maxRetries h |> else msg in
  if (initialEnqueue && bool_decide (RetryCount msg < MaxRetries msg))%bool
  then g ← perform Entropy; mret (msg <| NextRetryAt := time_add (CreatedAt msg) (backoffDuration g (RetryCount msg)) |>)
  else mret msg.

(** The effective tenant, and the message with its tenant filled in. *)
Definition resolveAndValidateTenant (ctx : Ctx) (msg : FailedMessage) :
    FailedMessage * result dlq_error text :=
  let ctxTenant := GetTenantIDContext ctx in
  let '(effectiveTenant, msg) :=
    if is_empty (TenantID msg) then (ctxTenant, msg <| TenantID := ctxTenant |>) else (TenantID msg, msg) in
  if (negb (is_empty effectiveTenant) && negb (is_empty ctxTenant) && negb (eqt effectiveTenant ctxTenant))%bool
  then (msg, Err ErrTenantMismatch)
  else if (negb (is_empty effectiveTenant) && negb (validateKeySegment effectiveTenant))%bool
  then (msg, Err ErrTenant)
  else (msg, Ok effectiveTenant).

(** The message is the caller's own: it is returned as the call left it. *)
Definition Enqueue (ctx : Ctx) (msg : option FailedMessage) : prog D (option FailedMessage * result dlq_error unit) :=
  match validateEnqueueMessage msg with
  | Err e => mret (msg, Err e)
  | Ok msg =>
    msg ← stampInitialEnqueue msg;
    let '(msg, tenant) := resolveAndValidateTenant ctx msg in
    match tenant with
    | Err e => mret (Some msg, Err e)
    | Ok effectiveTenant =>
      match Marshal msg with
      | None => mret (Some msg, Err ErrMarshal)
      | Some data =>
        let key := tenantScopedKeyForTenant h effectiveTenant (Source msg) in
        if is_empty key then mret (Some msg, Err ErrEmptyKey)
        else
          rds ← perform GetClient;
          if negb rds then mret (Some msg, Err ErrClient)
          else pushed ← perform (RPush key data);
               mret (Some msg, if pushed : bool then Ok tt else Err ErrRedis)
      end
    end
  end.

Definition Dequeue (ctx : Ctx) (source : text) : prog D (result dlq_error FailedMessage) :=
  match validateSource source with
  | Err e => mret (Err e)
  | Ok _ =>
    let key := tenantScopedKey h ctx source in
    if is_empty key then mret (Err ErrEmptyKey)
    else
      rds ← perform GetClient;
      if negb rds then mret (Err ErrClient)
      else
        data ← perform (LPop key);
        match data with
        | None => mret (Err ErrRedis)
        | Some None => mret (Err RedisNil)
        | Some (Some data) =>
          match Unmarshal data with
          | None => mret (Err ErrUnmarshal)
          | Some msg => mret (Ok (if negb (eqt (Source msg) source) then msg <| Source := source |> else msg))
          end
        end
  end.

Definition QueueLength (ctx : Ctx) (source : text) : prog D (result dlq_error Z) :=
  match validateSource source with
  | Err e => mret (Err e)
  | Ok _ =>
    let key := tenantScopedKey h ctx source in
    if is_empty key then mret (Err ErrEmptyKey)
    else
      rds ← perform GetClient;
      if negb rds then mret (Err ErrClient)
      else n ← perform (LLen key);
           mret (match n with None => Err ErrRedis | Some n => Ok n end)
  end.

Definition ScanQueues (source : text) : prog D (result dlq_error (list text)) :=
  match validateSource source with
  | Err e => mret (Err e)
  | Ok _ =>
    let pattern := keyPrefix h ++ 42 :: colon :: source in
    let globalKey := keyPrefix h ++ source in
    rds ← perform GetClient;
    if negb rds then mret (Err ErrClient)
    else
      r ← perform (Scan pattern);
      if negb (sc_complete r) then mret (Err ErrRedis)
      else mret (Ok (List.filter (λ key, negb (eqt key globalKey)) (mjoin (sc_pages r))))
  end.

(** The context a message is put back with. *)
Definition restored_ctx (ctx : Ctx) (msg : FailedMessage) : Ctx :=
  if is_empty (TenantID msg) then ctx
  else if eqt (GetTenantIDContext ctx) (TenantID msg) then ctx
  else ContextWithTenantID ctx (TenantID msg).

Fixpoint prune_loop (ctx : Ctx) (source : text) (limit : nat) (pruned : Z) : prog D (Z * result dlq_error unit) :=
  match limit with
  | O => mret (pruned, Ok tt)
  | S limit =>
    r ← Dequeue ctx source;
    match r with
    | Err e => mret (pruned, if bool_decide (e = RedisNil) then Ok tt else Err e)
    | Ok msg =>
      if bool_decide (MaxRetries msg ≤ RetryCount msg)
      then _ ← perform (Report Pruned (Source msg) msg); prune_loop ctx source limit (pruned + 1)
      else
        r ← Enqueue (restored_ctx ctx msg) (Some msg);
        match r.2 with
        | Err e => _ ← perform (Report NotRequeued (Source msg) msg); mret (pruned, Err e)
        | Ok _ => prune_loop ctx source limit pruned
        end
    end
  end.

Definition PruneExhaustedMessages (ctx : Ctx) (source : text) (limit : Z) : prog D (Z * result dlq_error unit) :=
  match validateSource source with
  | Err e => mret (0, Err e)
  | Ok _ =>
    if bool_decide (limit ≤ 0) then mret (0, Ok tt)
    else prune_loop ctx source (Z.to_nat limit) 0
  end.
End handler.

(** ** Consumer *)

Section consumer.
Context {D : Type} `{Json D} (c : Consumer).

Definition sanitizeMetricSource (source : text) : text :=
  if existsb (eqt source) (Sources (cfg c)) then source else txt "unknown".

(** One of the consumer's metrics, about [msg]. *)
Definition record_metric (o : report) (msg : FailedMessage) : prog D unit :=
  perform (Report o (sanitizeMetricSource (Source msg)) msg).

(** The error of the retry function, a panic included, and the message as it
    left it. *)
Definition safeRetryFunc (ctx : Ctx) (msg : FailedMessage) : prog D (option text * FailedMessage) :=
  r ← perform (Retry ctx msg);
  mret (match r.1 with
        | Returned err => err
        | Panicked what => Some (txt "dlq consumer: retryFunc panicked: " ++ what)
        end, r.2).

Definition processMessage (ctx : Ctx) (msg : FailedMessage) : prog D bool :=
  let ctx := restored_ctx ctx msg in
  now ← perform Now;
  if (negb (time_is_zero (NextRetryAt msg)) && time_before now (NextRetryAt msg))%bool
  then
    r ← Enqueue (handler c) ctx (Some msg);
    match r.2 with
    | Err _ => _ ← record_metric Lost msg; mret true
    | Ok _ => mret false
    end
  else if bool_decide (MaxRetries msg ≤ RetryCount msg)
  then _ ← record_metric Exhausted msg; mret true
  else
    r ← safeRetryFunc ctx msg;
    let '(retryErr, msg) := r in
    match retryErr with
    | Some e =>
      let msg := msg <| RetryCount := RetryCount msg + 1 |> <| ErrorMessage := e |> in
      t ← perform Now;
      g ← perform Entropy;
      let msg := msg <| NextRetryAt := time_add t (backoffDuration g (RetryCount msg)) |> in
      r ← Enqueue (handler c) ctx (Some msg);
      match r.2 with
      | Err _ => _ ← record_metric Lost msg; mret true
      | Ok _ => mret true
      end
    | None => _ ← record_metric Retried msg; mret true
    end.

(** How the inner loop of [drainSource] ends: with a [return], with a message
    dealt with, or with nothing but rotations. *)
Inductive rotation := Stopped | Worked | Rotated.

Fixpoint rotate (ctx : Ctx) (source : text) (rotations : nat) : prog D rotation :=
  match rotations with
  | O => mret Rotated
  | S rotations =>
    stop ← perform CtxDone;
    if stop : bool then mret Stopped
    else
      r ← Dequeue (handler c) ctx source;
      match r with
      | Err _ => mret Stopped
      | Ok msg =>
        worked ← processMessage ctx msg;
        if worked : bool then mret Worked else rotate ctx source rotations
      end
  end.

Fixpoint drainSource (ctx : Ctx) (source : text) (limit : nat) (processed : Z) : prog D Z :=
  match limit with
  | O => mret processed
  | S limit =>
    stop ← perform CtxDone;
    if stop : bool then mret processed
    else
      qLen ← QueueLength (handler c) ctx source;
      match qLen with
      | Err _ => mret processed
      | Ok qLen =>
        if bool_decide (qLen = 0) then mret processed
        else
          let rotationCap := Z.min qLen (BatchSize (cfg c)) in
          r ← rotate ctx source (Z.to_nat rotationCap);
          match r with
          | Stopped => mret processed
          | Worked => drainSource ctx source limit (processed + 1)
          | Rotated => drainSource ctx source limit processed
          end
      end
  end.

(** One pass over the queues: [None] when the context ended. *)
Fixpoint drain_round (source : text) (keyContexts : list Ctx) (processed : Z) (progressed : bool) :
    prog D (option (Z * bool)) :=
  match keyContexts with
  | [] => mret (Some (processed, progressed))
  | keyCtx :: keyContexts =>
    if bool_decide (BatchSize (cfg c) ≤ processed) then mret (Some (processed, progressed))
    else
      stop ← perform CtxDone;
      if stop : bool then mret None
      else
        n ← drainSource keyCtx source 1 0;
        drain_round source keyContexts (processed + 1) (progressed || bool_decide (0 < n))%bool
  end.

(** Every pass over at least one queue adds to [processed], so that
    [BatchSize] passes are enough. *)
Fixpoint drain_rounds (source : text) (keyContexts : list Ctx) (rounds : nat) (processed : Z) : prog D unit :=
  match rounds with
  | O => mret tt
  | S rounds =>
    if bool_decide (BatchSize (cfg c) ≤ processed) then mret tt
    else
      r ← drain_round source keyContexts processed false;
      match r with
      | None => mret tt
      | Some (processed, progressed) =>
        if progressed : bool then drain_rounds source keyContexts rounds processed else mret tt
      end
  end.

(** The contexts of the tenants whose queues were found; the bare context when
    there are none. *)
Definition key_contexts (ctx : Ctx) (source : text) (tenantKeys : list text) : list Ctx :=
  match omap (λ key, let tenantID := ExtractTenantFromKey (handler c) key source in
                     if is_empty tenantID then None else Some (ContextWithTenantID ctx tenantID)) tenantKeys with
  | [] => [ctx]
  | ctxs => ctxs
  end.

Definition processSource (ctx : Ctx) (source : text) : prog D unit :=
  tenantKeys ← ScanQueues (handler c) source;
  match tenantKeys with
  | Err _ => mret tt
  | Ok tenantKeys =>
    drain_rounds source (key_contexts ctx source tenantKeys) (Z.to_nat (BatchSize (cfg c))) 0
  end.

Fixpoint process_sources (ctx : Ctx) (sources : list text) : prog D unit :=
  match sources with
  | [] => mret tt
  | source :: sources => _ ← processSource ctx source; process_sources ctx sources
  end.

Definition processOnce (ctx : Ctx) : prog D unit := process_sources ctx (Sources (cfg c)).
End consumer.

(** *** The loop's start and stop

    [stopCh] is the channel of the active [Run], with whether it is closed; the
    methods lock it, so that each of these is one step. *)
Record stop_state := { st_chan : option nat; st_closed : list nat; st_next : nat; st_running : list nat }.

(** [Run] up to its loop: refused while a channel is set. *)
Definition Run_enter (s : stop_state) : stop_state :=
  match st_chan s with
  | Some _ => s
  | None => {| st_chan := Some (st_next s); st_closed := st_closed s; st_next := S (st_next s);
               st_running := st_next s :: st_running s |}
  end.

(** The deferred cleanup of the [Run] that owns channel [ch]. *)
Definition Run_cleanup (ch : nat) (s : stop_state) : stop_state :=
  {| st_chan := if bool_decide (st_chan s = Some ch) then None else st_chan s;
     st_closed := st_closed s; st_next := st_next s;
     st_running := List.filter (λ r, negb (bool_decide (r = ch))) (st_running s) |}.

Definition Stop (s : stop_state) : stop_state :=
  match st_chan s with
  | None => s
  | Some ch =>
    if bool_decide (ch ∈ st_closed s) then s
    else {| st_chan := st_chan s; st_closed := ch :: st_closed s; st_next := st_next s; st_running := st_running s |}
  end.

(** What may happen: the calls, and a running loop that returns because its
    context ended or its channel was closed. *)
Inductive run_step := RunCalled | StopCalled | RunReturns (ch : nat).

Definition run_control (s : stop_state) (l : run_step) : stop_state :=
  match l with
  | RunCalled => Run_enter s
  | StopCalled => Stop s
  | RunReturns ch => if bool_decide (ch ∈ st_running s) then Run_cleanup ch s else s
  end.

(** ** Redis *)

(** A call may be answered, refused without effect, or take effect although its
    answer is lost. *)
Inductive fault := Replied | Refused | ReplyLost.

#[export] Instance fault_eq_dec : EqDecision fault.
Proof. solve_decision. Defined.

(** What everything but the queues' state answers. *)
Record choice := {
  ch_client : bool;
  ch_fault : fault;
  ch_scan : scan_replies;
  ch_now : gotime;
  ch_entropy : entropy;
  ch_done : bool;
  ch_retry : Ctx → FailedMessage → retry_outcome * FailedMessage;
}.

Section redis.
Context {D : Type}.

(** The lists (Redis keeps no empty ones), and what lost answers hid: the
    documents popped by a call that reported an error, and those pushed by
    one. *)
Record redis := { lists : gmap text (list D); vanished : list D; doubled : list D }.

Definition queue (s : redis) (key : text) : list D := default [] (lists s !! key).

Definition set_queue (s : redis) (key : text) (q : list D) : gmap text (list D) :=
  match q with [] => delete key (lists s) | _ => <[key := q]> (lists s) end.

Definition exec (l : choice) (c : cmd D) (s : redis) : answer c * redis :=
  match c return answer c * redis with
  | GetClient => (ch_client l, s)
  | LPop key =>
    match ch_fault l, queue s key with
    | Refused, _ => (None, s)
    | Replied, [] => (Some None, s)
    | Replied, d :: q => (Some (Some d), {| lists := set_queue s key q; vanished := vanished s; doubled := doubled s |})
    | ReplyLost, [] => (None, s)
    | ReplyLost, d :: q => (None, {| lists := set_queue s key q; vanished := d :: vanished s; doubled := doubled s |})
    end
  | RPush key d =>
    match ch_fault l with
    | Refused => (false, s)
    | Replied =>
      (true, {| lists := set_queue s key (queue s key ++ [d]); vanished := vanished s; doubled := doubled s |})
    | ReplyLost =>
      (false, {| lists := set_queue s key (queue s key ++ [d]); vanished := vanished s; doubled := d :: doubled s |})
    end
  | LLen key => (match ch_fault l with Replied => Some (Z.of_nat (length (queue s key))) | _ => None end, s)
  | Scan _ => (ch_scan l, s)
  | Now => (ch_now l, s)
  | Entropy => (ch_entropy l, s)
  | CtxDone => (ch_done l, s)
  | Retry ctx m => (ch_retry l ctx m, s)
  | Report _ _ _ => (tt, s)
  end.
End redis.
Arguments redis D : clear implicits.
