(* ===== verification/DeadLetterLedger.v ===== *)
(** What one user of the dead letter queue does with the messages it takes.

    [hold o] describes a run that currently has message [o] in its hands: apart
    from it, everything taken was put back or reported, no message was retried
    beyond its budget, and every document was written under its own key.  The
    operations are specified by how they move the message in hand. *)

From stdpp Require Import base numbers list gmap strings.
From S2P Require Import Prelude GoText Backoff Effects DeadLetter.

Local Open Scope Z_scope.
Local Open Scope go_scope.

(** ** Keys *)

(** A tenant a key can be built for: none, or a valid segment. *)
Definition tenant_ok (t : text) : bool := (is_empty t || validateKeySegment t)%bool.

Lemma segment_no_colon s : validateKeySegment s = true → colon ∉ s.
Proof.
  unfold validateKeySegment. rewrite forallb_forall. intros H Hin%list_elem_of_In. by specialize (H _ Hin).
Qed.

Lemma validateSource_ok s : validateSource s = Ok tt ↔ s ≠ [] ∧ validateKeySegment s = true.
Proof. unfold validateSource. destruct s; simpl; [naive_solver|]. destruct (_ && _)%bool; naive_solver. Qed.

Lemma key_global h s : tenantScopedKeyForTenant h [] s = keyPrefix h ++ s.
Proof. done. Qed.

Lemma key_tenant h t s : t ≠ [] → validateKeySegment t = true →
  tenantScopedKeyForTenant h t s = keyPrefix h ++ t ++ colon :: s.
Proof. intros H1 H2. unfold tenantScopedKeyForTenant. by rewrite (proj2 (is_empty_false t) H1), H2. Qed.

(** Different tenants or sources have different queues. *)
Lemma key_inj h t s t' s' :
  tenant_ok t = true → tenant_ok t' = true → colon ∉ s → colon ∉ s' →
  tenantScopedKeyForTenant h t s = tenantScopedKeyForTenant h t' s' → t = t' ∧ s = s'.
Proof.
  unfold tenant_ok. intros Ht Ht' Hs Hs'.
  assert (Hno : ∀ u v : text, colon ∉ u → u ≠ v ++ colon :: s ∧ u ≠ v ++ colon :: s') by (intros u v H; split; intros ->; apply H; set_solver).
  destruct t as [|a t], t' as [|a' t']; simpl in Ht, Ht'.
  - rewrite !key_global. by intros ->%app_inv_head.
  - rewrite key_global, key_tenant by done. intros E%app_inv_head. by edestruct (Hno s (a' :: t')) as [_ []].
  - rewrite key_global, key_tenant by done. intros E%app_inv_head. symmetry in E.
    by edestruct (Hno s' (a :: t)) as [[] _].
  - rewrite !key_tenant by done. intros E%app_inv_head.
    apply (f_equal (split_first colon)) in E.
    rewrite !split_first_app in E by (by apply segment_no_colon). by simplify_eq.
Qed.

(** ** The ledger *)

(** Sum of a weight over a list. *)
Definition total {A} (f : A → Z) (l : list A) : Z := foldr (λ x n, f x + n) 0 l.

Lemma total_app {A} (f : A → Z) l k : total f (l ++ k) = total f l + total f k.
Proof. induction l as [|x l IH]; simpl; [done|]. rewrite IH. lia. Qed.

#[export] Instance total_perm {A} (f : A → Z) : Proper ((≡ₚ) ==> (=)) (total f).
Proof. induction 1; simpl; lia. Qed.

Lemma total_nonneg {A} (f : A → Z) l : (∀ x, 0 ≤ f x) → 0 ≤ total f l.
Proof. intros H. induction l as [|x l IH]; simpl; [done|]. specialize (H x). lia. Qed.

(** The messages of stored documents. *)
Definition messages {D} `{Json D} (ds : list D) : list FailedMessage := omap Unmarshal ds.

Lemma messages_app {D} `{Json D} (ds es : list D) : messages (ds ++ es) = messages ds ++ messages es.
Proof. apply omap_app. Qed.

Section ledger.
Context {D : Type} `{JsonLaws D} (h : Handler).
Implicit Types (e : event (@answer D)) (tr : list (event (@answer D))) (m : FailedMessage) (o : option FailedMessage).

(** What an event moves: documents out of a queue and into one, messages
    reported and messages given to the retry function. *)
Definition taken e : list D :=
  match ev_cmd e as c return answer c → list D with
  | LPop _ => λ x, match x with Some (Some d) => [d] | _ => [] end
  | _ => λ _, []
  end (ev_answer e).

Definition put e : list D :=
  match ev_cmd e as c return answer c → list D with
  | RPush _ d => λ x : bool, if x then [d] else []
  | _ => λ _, []
  end (ev_answer e).

Definition reported e : list FailedMessage := match ev_cmd e with Report _ _ m => [m] | _ => [] end.

Definition retried e : list FailedMessage := match ev_cmd e with Retry _ m => [m] | _ => [] end.

(** How often a message with payload [p] may still be retried; a message
    without a maximum has the handler's. *)
Definition budget (p : list Z) m : Z :=
  if bool_decide (OriginalData m = p)
  then Z.max 0 ((if bool_decide (MaxRetries m ≤ 0) then maxRetries h else MaxRetries m) - RetryCount m)
  else 0.

Definition has_payload (p : list Z) m : Z := if bool_decide (OriginalData m = p) then 1 else 0.

(** A document under its own key: the queue of its message's tenant and
    source. *)
Definition stored (key : text) (d : D) : Prop := ∃ m,
  Unmarshal d = Some m ∧ key = tenantScopedKeyForTenant h (TenantID m) (Source m) ∧
  tenant_ok (TenantID m) = true ∧ validateSource (Source m) = Ok tt.

(** The retry function leaves the payload and the counters alone. *)
Definition untampered m m' : Prop :=
  OriginalData m' = OriginalData m ∧ RetryCount m' = RetryCount m ∧ MaxRetries m' = MaxRetries m.

(** What the outside world has to keep to. *)
Definition answer_ok e : Prop :=
  match ev_cmd e as c return answer c → Prop with
  | LPop key => λ x, match x with Some (Some d) => stored key d | _ => True end
  | Retry _ m => λ x, untampered m x.2
  | _ => λ _, True
  end (ev_answer e).

(** What the code keeps to: documents go to their own queue, the retry function
    runs for the message's tenant and within the message's budget, and only
    messages without budget are given up as exhausted. *)
Definition command_ok e : Prop :=
  match ev_cmd e with
  | RPush key d => stored key d
  | Retry ctx m => cx_tenant ctx = TenantID m ∧ RetryCount m < MaxRetries m
  | Report (Exhausted | Pruned) _ m => MaxRetries m ≤ RetryCount m
  | _ => True
  end.

Definition payloads (l : list FailedMessage) : list (list Z) := OriginalData <$> l.

(** The run [tr] of a program that was given the messages [sub] has [o] in its
    hands. *)
Definition hold (sub : list FailedMessage) o tr : Prop :=
  Forall answer_ok tr →
  Forall command_ok tr ∧
  payloads (messages (tr ≫= taken) ++ sub) ≡ₚ payloads (messages (tr ≫= put) ++ (tr ≫= reported) ++ option_list o) ∧
  ∀ p, total (has_payload p) (tr ≫= retried) + total (budget p) (messages (tr ≫= put) ++ option_list o)
       ≤ total (budget p) (messages (tr ≫= taken) ++ sub).

Definition holding sub tr : Prop := ∃ o, hold sub o tr.

Lemma budget_nonneg p m : 0 ≤ budget p m.
Proof. unfold budget. case_bool_decide; lia. Qed.

Lemma hold_step sub o o' tr e :
  hold sub o tr →
  (Forall answer_ok tr → answer_ok e → command_ok e ∧
    payloads (messages (taken e) ++ option_list o) ≡ₚ payloads (messages (put e) ++ reported e ++ option_list o') ∧
    ∀ p, total (has_payload p) (retried e) + total (budget p) (messages (put e) ++ option_list o')
         ≤ total (budget p) (messages (taken e) ++ option_list o)) →
  hold sub o' (tr ++ [e]).
Proof.
  intros HH He [Ha Hae]%Forall_app. rewrite Forall_singleton in Hae.
  destruct (HH Ha) as (H1 & H2 & H3), (He Ha Hae) as (E1 & E2 & E3). clear HH He.
  split_and!; [by apply Forall_app; split; [|constructor]| |].
  - unfold payloads in *. rewrite !bind_app, !messages_app, !fmap_app. rewrite !fmap_app in H2, E2.
    simpl. rewrite !app_nil_r.
    apply (Permutation_app_inv_l (OriginalData <$> option_list o)).
    trans ((OriginalData <$> messages (tr ≫= taken)) ++ (OriginalData <$> sub) ++
           ((OriginalData <$> messages (taken e)) ++ (OriginalData <$> option_list o))); [solve_Permutation|].
    rewrite E2, app_assoc, H2. solve_Permutation.
  - intros p. specialize (H3 p). specialize (E3 p). revert H3 E3.
    rewrite !bind_app, !messages_app, !total_app. simpl. rewrite !app_nil_r. lia.
Qed.

(** An event that moves nothing. *)
Lemma hold_silent sub o tr e :
  taken e = [] → put e = [] → reported e = [] → retried e = [] → (answer_ok e → command_ok e) →
  hold sub o tr → hold sub o (tr ++ [e]).
Proof.
  intros E1 E2 E3 E4 Hc HH. eapply hold_step; [done|]. intros _ Ha. rewrite E1, E2, E3, E4. split; [auto|].
  split; [done|]. intros p. simpl. lia.
Qed.

(** The message in hand is changed, but not its payload, and its budget does
    not grow. *)
Lemma hold_as sub m m' tr :
  OriginalData m' = OriginalData m → (∀ p, budget p m' ≤ budget p m) → hold sub (Some m) tr → hold sub (Some m') tr.
Proof.
  intros E Hb HH Ha. destruct (HH Ha) as (H1 & H2 & H3). split_and!; [done| |].
  - rewrite H2. unfold payloads. rewrite !fmap_app. simpl. by rewrite E.
  - intros p. specialize (H3 p). specialize (Hb p). revert H3. rewrite !total_app. simpl. lia.
Qed.

Lemma hold_holding sub o tr : hold sub o tr → holding sub tr.
Proof. by exists o. Qed.
End ledger.

#[export] Hint Resolve hold_holding : commons.

(** ** The operations *)

Section specs.
Context {D : Type} `{JsonLaws D} (h : Handler) (sub : list FailedMessage).
Implicit Types (m : FailedMessage) (o : option FailedMessage) (tr : list (event (@answer D))).

(** Commands that never move a message. *)
Definition quiet (c : cmd D) : bool :=
  match c with GetClient | LLen _ | Scan _ | Now | Entropy | CtxDone => true | _ => false end.

(** [X] is known of a run, given that the outside world kept to its part. *)
Definition known (X : Prop) tr : Prop := Forall (answer_ok h) tr → X.

Lemma quiet_spec c o X : quiet c = true →
  spec (holding h sub) (λ tr, hold h sub o tr ∧ known X tr) (perform c)
       (λ tr _, hold h sub o tr ∧ known X tr).
Proof.
  intros Hq. apply spec_perform; [intros tr []; eauto with commons|]. intros tr x [HH HX].
  assert (hold h sub o (tr ++ [Ev c x])) by (apply hold_silent; try done; by destruct c).
  split; [eauto with commons|]. split; [done|]. intros [??]%Forall_app. auto.
Qed.

Lemma quiet_hold_spec c o : quiet c = true →
  spec (holding h sub) (hold h sub o) (perform c) (λ tr _, hold h sub o tr).
Proof.
  intros Hq. eapply (spec_conseq _ _ (λ tr, hold h sub o tr ∧ known True tr)); [| |by apply quiet_spec].
  - by intros tr HH.
  - by intros tr a [].
Qed.

Lemma hold_ret_spec {A} o (a : A) (X : A → Prop) : X a →
  spec (holding h sub) (hold h sub o) (mret a) (λ tr a', X a' ∧ hold (D := D) h sub o tr).
Proof. intros HX. apply spec_ret. eauto with commons. Qed.

(** The same message but for its tenant, its times and the default maximum. *)
Definition restamped m m' : Prop :=
  OriginalData m' = OriginalData m ∧ Source m' = Source m ∧ ∀ p, budget h p m' = budget h p m.

Lemma restamped_trans m1 m2 m3 : restamped m1 m2 → restamped m2 m3 → restamped m1 m3.
Proof. intros (?&?&E1) (?&?&E2). split_and!; [congruence..|]. intros p. by rewrite E2, E1. Qed.

Lemma restamped_default m :
  restamped m (if bool_decide (MaxRetries m ≤ 0) then m <| MaxRetries := maxRetries h |> else m).
Proof.
  split_and!; [by case_bool_decide..|]. intros p. unfold budget.
  repeat (case_bool_decide; simpl in *; try lia); done.
Qed.

Lemma hold_restamped m m' tr : restamped m m' → hold h sub (Some m) tr ↔ hold h sub (Some m') tr.
Proof.
  intros (E1 & E2 & E3). split; apply hold_as; try done; intros p; by rewrite E3.
Qed.

Lemma resolve_restamped ctx m m' r : resolveAndValidateTenant ctx m = (m', r) → restamped m m'.
Proof. unfold resolveAndValidateTenant. intros E. repeat (split_match; simplify_eq); done. Qed.

Lemma resolve_ok ctx m m' t :
  resolveAndValidateTenant ctx m = (m', Ok t) → TenantID m' = t ∧ tenant_ok t = true.
Proof.
  unfold resolveAndValidateTenant, tenant_ok. intros E.
  assert (Hb : ∀ a b, (negb a && negb b)%bool = false → (a || b)%bool = true) by (by intros [] []).
  destruct (is_empty (TenantID m)); simpl in E; repeat (split_match; simplify_eq); auto.
Qed.

Lemma stamp_spec m :
  spec (holding h sub) (hold h sub (Some m)) (stampInitialEnqueue (D := D) h m)
       (λ tr m', restamped m m' ∧ hold h sub (Some m) tr).
Proof.
  unfold stampInitialEnqueue. eapply (spec_bind _ _ _ (λ tr m1, restamped m m1 ∧ hold h sub (Some m) tr)).
  - destruct (time_is_zero _); [|by apply hold_ret_spec].
    eapply spec_bind; [by apply quiet_hold_spec|]. intros t. apply hold_ret_spec. done.
  - intros m1. apply spec_case. intros HR. pose proof (restamped_trans _ _ _ HR (restamped_default m1)) as HR'.
    destruct (_ && _)%bool; [|by apply hold_ret_spec].
    eapply spec_bind; [by apply quiet_hold_spec|]. intros g. by apply hold_ret_spec.
Qed.

(** Putting the message in hand back: it leaves the hand exactly when the call
    succeeds. *)
Lemma Enqueue_spec ctx m :
  spec (holding h sub) (hold h sub (Some m)) (Enqueue (D := D) h ctx (Some m))
       (λ tr r, hold h sub (match r.2 with Ok _ => None | Err _ => Some m end) tr).
Proof.
  assert (Hfail : ∀ (m1 : option FailedMessage) e, spec (holding h sub) (hold h sub (Some m)) (mret ((m1, Err e) : option FailedMessage * result dlq_error unit))
    (λ tr (r : option FailedMessage * result dlq_error unit),
       hold (D := D) h sub (match r.2 with Ok _ => None | Err _ => Some m end) tr)).
  { intros m1 e. apply spec_ret. eauto with commons. }
  unfold Enqueue, validateEnqueueMessage. destruct (validateSource (Source m)) as [[]|] eqn:Es; [|by apply Hfail].
  eapply spec_bind; [apply stamp_spec|]. intros m1. apply spec_case. intros H1.
  destruct (resolveAndValidateTenant ctx m1) as [m2 [t|e]] eqn:E2; [|by apply Hfail].
  pose proof (restamped_trans _ _ _ H1 (resolve_restamped _ _ _ _ E2)) as H2.
  destruct (resolve_ok _ _ _ _ E2) as [Et Hok].
  destruct (Marshal m2) as [d|] eqn:E3; [|by apply Hfail]. destruct (is_empty _); [by apply Hfail|].
  eapply spec_bind; [by apply quiet_hold_spec|]. intros [|]; [|by apply Hfail]. cbn [negb].
  eapply (spec_bind _ _ _ (λ tr (x : bool), hold h sub (if x then None else Some m) tr)).
  - apply (spec_perform (R := @answer D) _ _ (RPush _ d)); [eauto with commons|]. intros tr x HH.
    assert (Hst : stored h (tenantScopedKeyForTenant h t (Source m2)) d).
    { exists m2. rewrite Et. split_and!; [by apply Marshal_Unmarshal|done..|]. destruct H2 as (_ & -> & _). done. }
    assert (hold h sub (if x : bool then None else Some m) (tr ++ [Ev (RPush (tenantScopedKeyForTenant h t (Source m2)) d) x]));
      [|eauto with commons].
    rewrite (hold_restamped m m2) in HH by done. eapply hold_step; [done|]. intros _ _. split; [done|].
    destruct x; simpl; unfold put, taken, messages; simpl.
    + rewrite (Marshal_Unmarshal _ _ E3). split; [done|]. intros p. simpl. lia.
    + destruct H2 as (E & _ & Eb). unfold payloads. simpl. rewrite E. split; [done|]. intros p. simpl. rewrite Eb. lia.
  - intros [|]; apply spec_ret; eauto with commons.
Qed.

(** The queue a message without a tenant was in is not a tenant's. *)
Definition fits (ctx : Ctx) m : Prop := TenantID m = [] → cx_tenant ctx = [].

Lemma Dequeue_spec ctx source :
  spec (holding h sub) (hold h sub None) (Dequeue (D := D) h ctx source)
       (λ tr r, match r with
                | Ok m => hold h sub (Some m) tr ∧ known (fits ctx m) tr
                | Err _ => hold h sub None tr
                end).
Proof.
  assert (Hfail : ∀ e, spec (holding h sub) (hold h sub None) (mret (Err e : result dlq_error FailedMessage))
    (λ tr (r : result dlq_error FailedMessage),
       match r with Ok m => hold (D := D) h sub (Some m) tr ∧ known (fits ctx m) tr | Err _ => hold h sub None tr end)).
  { intros e. apply spec_ret. eauto with commons. }
  unfold Dequeue. destruct (validateSource source) as [[]|] eqn:Es; [|by apply Hfail].
  apply validateSource_ok in Es as [_ Es%segment_no_colon].
  destruct (is_empty _) eqn:Ek; [by apply Hfail|].
  eapply spec_bind; [by apply quiet_hold_spec|]. intros [|]; [|by apply Hfail]. cbn [negb].
  eapply (spec_bind _ _ _ (λ tr (x : option (option D)),
    match x with
    | Some (Some d) => match Unmarshal d with
                       | Some m => hold h sub (Some m) tr ∧ known (fits ctx m) tr
                       | None => hold h sub None tr
                       end
    | _ => hold h sub None tr
    end)).
  - apply (spec_perform (R := @answer D) _ _ (LPop _)); [eauto with commons|]. intros tr x HH.
    assert (Hs : messages (taken (Ev (LPop (tenantScopedKey h ctx source)) x)) = [] →
      hold h sub None (tr ++ [Ev (LPop (tenantScopedKey h ctx source)) x])).
    { intros E1. eapply hold_step; [done|]. intros _ _. rewrite E1. split; [done|]. simpl. done. }
    destruct x as [[d|]|]; [|split; [apply (hold_holding _ _ None)|]; by apply Hs..].
    destruct (Unmarshal d) as [m|] eqn:E;
      [|split; [apply (hold_holding _ _ None)|]; apply Hs; unfold taken, messages; simpl; by rewrite E].
    assert (hold h sub (Some m) (tr ++ [Ev (LPop (tenantScopedKey h ctx source)) (Some (Some d))])).
    { eapply hold_step; [done|]. intros _ _. split; [done|]. unfold taken, messages. simpl. rewrite E.
      split; [done|]. intros p. simpl. lia. }
    split; [eauto with commons|]. split; [done|]. intros [_ Ha]%Forall_app Ht.
    rewrite Forall_singleton in Ha. destruct Ha as (m' & Em & Hk & Hok & Hsrc). simplify_eq.
    apply validateSource_ok in Hsrc as [_ Hsrc%segment_no_colon].
    destruct (key_inj h (cx_tenant ctx) source (TenantID m) (Source m)) as [-> _]; try done.
    revert Ek. unfold tenantScopedKey, tenantScopedKeyForTenant, tenant_ok, GetTenantIDContext.
    destruct (is_empty (cx_tenant ctx)); [done|]. by destruct (validateKeySegment _).
  - intros [[d|]|]; [|by apply Hfail..]. destruct (Unmarshal d) as [m|]; [|by apply Hfail].
    apply spec_ret. intros tr [HH HF].
    assert (HH' : hold h sub (Some (if negb (eqt (Source m) source) then m <| Source := source |> else m)) tr).
    { revert HH. apply hold_as; destruct (negb _); done. }
    split; [eauto with commons|]. split; [done|]. intros Ha. specialize (HF Ha). by destruct (negb _).
Qed.

Lemma Report_spec r source m m' : OriginalData m' = OriginalData m →
  match r with Exhausted | Pruned => MaxRetries m ≤ RetryCount m | _ => True end →
  spec (holding h sub) (hold h sub (Some m')) (perform (R := @answer D) (Report r source m)) (λ tr _, hold h sub None tr).
Proof.
  intros E Hr. apply (spec_perform (R := @answer D) _ _ (Report r source m)); [eauto with commons|]. intros tr x HH.
  assert (hold h sub None (tr ++ [Ev (Report r source m) x])); [|eauto with commons].
  eapply hold_step; [done|]. intros _ _. split; [by destruct r|]. unfold payloads. simpl. rewrite E.
  split; [done|]. intros p. pose proof (budget_nonneg h p m'). simpl. lia.
Qed.

(** The retry function runs for the message's own tenant, and the run is
    charged to the message. *)
Lemma Retry_spec ctx m : RetryCount m < MaxRetries m → 0 < maxRetries h →
  spec (holding h sub) (λ tr, hold h sub (Some m) tr ∧ known (fits ctx m) tr)
       (perform (R := @answer D) (Retry (restored_ctx ctx m) m))
       (λ tr x, hold h sub (Some (x.2 <| RetryCount := RetryCount x.2 + 1 |>)) tr).
Proof.
  intros Hc Hh. apply (spec_perform (R := @answer D) _ _ (Retry _ _)); [intros tr []; eauto with commons|].
  intros tr [r m'] [HH HF]. simpl.
  assert (hold h sub (Some (m' <| RetryCount := RetryCount m' + 1 |>)) (tr ++ [Ev (Retry (restored_ctx ctx m) m) (r, m')]));
    [|eauto with commons].
  eapply hold_step; [done|]. intros Ha (E1 & E2 & E3). simpl in *. specialize (HF Ha). split; [split; [|done]|].
  - unfold restored_ctx, fits in *. destruct (is_empty (TenantID m)) eqn:E.
    + apply is_empty_true in E. by rewrite E, (HF E).
    + by destruct (eqt _ _) eqn:Et; [apply eqt_true in Et|].
  - unfold payloads. simpl. rewrite E1. split; [done|]. intros p.
    unfold has_payload, budget. simpl. rewrite E2, E3. repeat case_bool_decide; lia.
Qed.

Lemma processMessage_spec c ctx m : handler c = h → 0 < maxRetries h →
  spec (holding h sub) (λ tr, hold h sub (Some m) tr ∧ known (fits ctx m) tr)
       (processMessage (D := D) c ctx m) (λ tr _, hold h sub None tr).
Proof.
  intros Hc Hh. unfold processMessage. rewrite Hc. unfold record_metric.
  assert (Hdone : ∀ b : bool, spec (holding h sub) (hold (D := D) h sub None) (mret b) (λ tr _, hold h sub None tr)).
  { intros b. apply spec_ret. eauto with commons. }
  assert (Hput : ∀ ctx' m1 b, spec (holding h sub) (hold (D := D) h sub (Some m1))
    (r ← Enqueue h ctx' (Some m1);
     match r.2 with
     | Err _ => _ ← perform (Report Lost (sanitizeMetricSource c (Source m1)) m1); mret true
     | Ok _ => mret b
     end) (λ tr _, hold h sub None tr)).
  { intros ctx' m1 b. eapply spec_bind; [apply Enqueue_spec|]. intros [m2 [[]|e]]; cbn [snd]; [by apply Hdone|].
    eapply spec_bind; [by apply Report_spec|]. intros []. apply Hdone. }
  eapply spec_bind; [by apply quiet_spec|]. intros now. destruct (_ && _)%bool.
  { eapply spec_pre; [by intros tr [HH _]; exact HH|]. apply Hput. }
  case_bool_decide.
  { eapply spec_pre; [by intros tr [HH _]; exact HH|].
    eapply spec_bind; [by apply Report_spec|]. intros []. apply Hdone. }
  eapply (spec_bind _ _ _ (λ tr r, hold h sub (Some (r.2 <| RetryCount := RetryCount r.2 + 1 |>)) tr)).
  { unfold safeRetryFunc. eapply spec_bind; [apply Retry_spec; [lia|done]|].
    intros x. apply spec_ret. eauto with commons. }
  intros [[e|] m']; cbn [fst snd].
  - eapply spec_bind; [by apply quiet_hold_spec|]. intros t. eapply spec_bind; [by apply quiet_hold_spec|]. intros g.
    eapply spec_pre; [|apply Hput]. intros tr. by apply hold_as.
  - eapply spec_bind; [by apply Report_spec|]. intros []. apply Hdone.
Qed.

(** ** The loops: they start and end with empty hands *)

Definition settles {A} (p : prog D A) : Prop := spec (holding h sub) (hold h sub None) p (λ tr _, hold h sub None tr).

Lemma settles_ret {A} (a : A) : settles (mret a).
Proof. apply spec_ret. eauto with commons. Qed.

Lemma settles_bind {A B} (p : prog D A) (f : A → prog D B) : settles p → (∀ a, settles (f a)) → settles (p ≫= f).
Proof. intros Hp Hf. eapply spec_bind; [exact Hp|]. exact Hf. Qed.

Lemma settles_quiet c : quiet c = true → settles (perform (R := @answer D) c).
Proof. apply quiet_hold_spec. Qed.

Lemma QueueLength_settles ctx source : settles (QueueLength (D := D) h ctx source).
Proof.
  unfold QueueLength. destruct (validateSource _); [|apply settles_ret]. destruct (is_empty _); [apply settles_ret|].
  apply settles_bind; [by apply settles_quiet|]. intros [|]; [|apply settles_ret]. cbn [negb].
  apply settles_bind; [by apply (settles_quiet (LLen _))|]. intros n. apply settles_ret.
Qed.

Lemma ScanQueues_settles source : settles (ScanQueues (D := D) h source).
Proof.
  unfold ScanQueues. destruct (validateSource _); [|apply settles_ret].
  apply settles_bind; [by apply settles_quiet|]. intros [|]; [|apply settles_ret]. cbn [negb].
  apply settles_bind; [by apply (settles_quiet (Scan _))|]. intros r. destruct (negb _); apply settles_ret.
Qed.

Lemma prune_loop_settles ctx source limit pruned : settles (prune_loop (D := D) h ctx source limit pruned).
Proof.
  revert pruned. induction limit as [|limit IH]; intros pruned; cbn [prune_loop]; [apply settles_ret|].
  eapply spec_bind; [apply Dequeue_spec|]. intros [m|e]; [|apply settles_ret].
  eapply spec_pre; [by intros tr [HH _]; exact HH|]. case_bool_decide.
  - eapply spec_bind; [by apply Report_spec|]. intros []. apply IH.
  - eapply spec_bind; [apply Enqueue_spec|]. intros [m2 [[]|e]]; cbn [snd]; [apply IH|].
    eapply spec_bind; [by apply Report_spec|]. intros []. apply settles_ret.
Qed.

Lemma PruneExhaustedMessages_settles ctx source limit : settles (PruneExhaustedMessages (D := D) h ctx source limit).
Proof.
  unfold PruneExhaustedMessages. destruct (validateSource _); [|apply settles_ret].
  case_bool_decide; [apply settles_ret|]. apply prune_loop_settles.
Qed.

Section consumer.
Context (c : Consumer) (Hc : handler c = h) (Hh : 0 < maxRetries h).

Lemma rotate_settles ctx source n : settles (rotate (D := D) c ctx source n).
Proof.
  induction n as [|n IH]; cbn [rotate]; [apply settles_ret|]. apply settles_bind; [by apply (settles_quiet CtxDone)|].
  intros [|]; [apply settles_ret|]. rewrite Hc. eapply spec_bind; [apply Dequeue_spec|].
  intros [m|e]; [|apply settles_ret]. eapply spec_bind; [by apply processMessage_spec|].
  intros [|]; [apply settles_ret|done].
Qed.

Lemma drainSource_settles ctx source limit n : settles (drainSource (D := D) c ctx source limit n).
Proof.
  revert n. induction limit as [|limit IH]; intros n; cbn [drainSource]; [apply settles_ret|].
  apply settles_bind; [by apply (settles_quiet CtxDone)|]. intros [|]; [apply settles_ret|].
  rewrite Hc. apply settles_bind; [apply QueueLength_settles|]. intros [q|e]; [|apply settles_ret].
  case_bool_decide; [apply settles_ret|]. apply settles_bind; [apply rotate_settles|].
  intros []; [apply settles_ret|apply IH..].
Qed.

Lemma drain_round_settles source ctxs n b : settles (drain_round (D := D) c source ctxs n b).
Proof.
  revert n b. induction ctxs as [|ctx ctxs IH]; intros n b; cbn [drain_round]; [apply settles_ret|].
  case_bool_decide; [apply settles_ret|]. apply settles_bind; [by apply (settles_quiet CtxDone)|].
  intros [|]; [apply settles_ret|]. apply settles_bind; [apply drainSource_settles|]. intros k. apply IH.
Qed.

Lemma drain_rounds_settles source ctxs k n : settles (drain_rounds (D := D) c source ctxs k n).
Proof.
  revert n. induction k as [|k IH]; intros n; cbn [drain_rounds]; [apply settles_ret|].
  case_bool_decide; [apply settles_ret|]. apply settles_bind; [apply drain_round_settles|].
  intros [[n' [|]]|]; [apply IH|apply settles_ret..].
Qed.

Lemma processOnce_settles ctx : settles (processOnce (D := D) c ctx).
Proof.
  unfold processOnce. generalize (Sources (cfg c)). induction l as [|source l IH]; cbn [process_sources]; [apply settles_ret|].
  apply settles_bind; [|done]. unfold processSource. rewrite Hc.
  apply settles_bind; [apply ScanQueues_settles|]. intros [keys|e]; [|apply settles_ret]. apply drain_rounds_settles.
Qed.
End consumer.
End specs.
