(* ===== verification/DeadLetterGuarantees.v ===== *)
(** What the users of a dead letter queue get together.

    Any number of producers, consumers and pruning passes share one Redis.  Their
    commands interleave freely, calls fail or lose their answers, and any of the
    users may stop for good at any point. *)

From stdpp Require Import base numbers list gmap strings.
From S2P Require Import Prelude GoText Backoff Effects DeadLetter DeadLetterLedger.

Local Open Scope Z_scope.
Local Open Scope go_scope.

(** ** The users *)

Inductive job :=
| Produce (ctx : Ctx) (msg : option FailedMessage)
| Poll (config : ConsumerConfig) (ctx : Ctx)
| Prune (ctx : Ctx) (source : text) (limit : Z).

Definition error_of {A} (r : result dlq_error A) : option dlq_error :=
  match r with Ok _ => None | Err e => Some e end.

Definition job_prog {D} `{Json D} (h : Handler) (j : job) : prog D (option dlq_error) :=
  match j with
  | Produce ctx msg => (λ r, error_of r.2) <$> Enqueue h ctx msg
  | Poll config ctx => (λ _, None) <$> processOnce {| handler := h; cfg := config |} ctx
  | Prune ctx source limit => (λ r, error_of r.2) <$> PruneExhaustedMessages h ctx source limit
  end.

(** The message a producer brings, and the one it is left with when the call
    fails. *)
Definition given (j : job) : list FailedMessage := match j with Produce _ msg => option_list msg | _ => [] end.

Definition rejected (j : job) (r : option dlq_error) : option FailedMessage :=
  match j, r with Produce _ msg, Some _ => msg | _, _ => None end.

(** ** The queues *)

Section guarantees.
Context {D : Type} `{JsonLaws D} (h : Handler) (Hh : 0 < maxRetries h).
Implicit Types (s : redis D) (t : thread (@answer D) (option dlq_error)).

(** All the documents in the queues. *)
Definition contents s : list D := map_to_list (lists s) ≫= snd.

(** Every queue holds messages of its own tenant and source. *)
Definition store_ok s : Prop := ∀ key q, lists s !! key = Some q → Forall (stored h key) q.

Lemma lists_contents (ls : gmap text (list D)) key :
  map_to_list ls ≫= snd ≡ₚ default [] (ls !! key) ++ (map_to_list (delete key ls) ≫= snd).
Proof.
  destruct (ls !! key) as [q|] eqn:E; simpl.
  - by rewrite <- (map_to_list_delete ls key q E).
  - by rewrite delete_id.
Qed.

Lemma set_queue_contents s key q v b :
  contents {| lists := set_queue s key q; vanished := v; doubled := b |} ++ queue s key ≡ₚ contents s ++ q.
Proof.
  unfold contents. simpl. rewrite (lists_contents (lists s) key). fold (queue s key).
  rewrite (lists_contents (set_queue s key q) key).
  assert (default [] (set_queue s key q !! key) = q ∧ delete key (set_queue s key q) = delete key (lists s)) as [-> ->].
  { unfold set_queue. destruct q; simpl.
    - by rewrite lookup_delete_eq, delete_delete_eq.
    - by rewrite lookup_insert_eq, delete_insert_eq. }
  solve_Permutation.
Qed.

Lemma set_queue_ok s key q v b :
  store_ok s → Forall (stored h key) q → store_ok {| lists := set_queue s key q; vanished := v; doubled := b |}.
Proof.
  intros Hs Hq key' q' E. simpl in E. unfold set_queue in E. destruct q as [|d q].
  - apply lookup_delete_Some in E as [_ E]. by eapply Hs.
  - apply lookup_insert_Some in E as [[-> <-]|[_ E]]; [done|by eapply Hs].
Qed.

Lemma queue_ok s key : store_ok s → Forall (stored h key) (queue s key).
Proof. intros Hs. unfold queue. destruct (lists s !! key) eqn:E; simpl; [by eapply Hs|constructor]. Qed.

(** ** One command *)

Lemma exec_answer_ok l c s :
  (∀ ctx m, untampered m (ch_retry l ctx m).2) → store_ok s → answer_ok h (Ev c (exec l c s).1).
Proof.
  intros Hl Hs. destruct c; try done; [|by apply Hl]. unfold answer_ok. simpl. pose proof (queue_ok s key Hs) as Hq.
  destruct (ch_fault l), (queue s key) as [|d q]; try done. by inversion Hq.
Qed.

Lemma exec_store_ok l c s :
  store_ok s → command_ok h (Ev c (exec l c s).1) → store_ok (exec l c s).2.
Proof.
  intros Hs Hc. pose proof (queue_ok s) as Hq. destruct c; try done; simpl.
  - specialize (Hq key Hs). destruct (ch_fault l), (queue s key) as [|d q]; try done;
      apply set_queue_ok; try done; by inversion Hq.
  - destruct (ch_fault l); try done; (apply set_queue_ok; [done|]); apply Forall_app; auto.
Qed.

Lemma pop_contents s key d q v b : queue s key = d :: q →
  contents s ≡ₚ d :: contents {| lists := set_queue s key q; vanished := v; doubled := b |}.
Proof.
  intros E. pose proof (set_queue_contents s key q v b) as Hp. rewrite E in Hp.
  apply (Permutation_app_inv_r q). rewrite <- Hp. solve_Permutation.
Qed.

Lemma push_contents s key d v b :
  contents {| lists := set_queue s key (queue s key ++ [d]); vanished := v; doubled := b |} ≡ₚ d :: contents s.
Proof.
  pose proof (set_queue_contents s key (queue s key ++ [d]) v b) as Hp.
  apply (Permutation_app_inv_r (queue s key)). rewrite Hp. solve_Permutation.
Qed.

Lemma exec_balanced l c s :
  balanced (λ s, contents s ++ vanished s) doubled taken put s (exec l c s).2 [Ev c (exec l c s).1].
Proof.
  unfold balanced. simpl. rewrite !app_nil_r. destruct c as [|key|key d| | | | | | |]; simpl; try done;
    unfold taken, put; simpl.
  - destruct (ch_fault l), (queue s key) as [|d q] eqn:E; simpl; try done.
    + rewrite (pop_contents s key d q (vanished s) (doubled s) E). solve_Permutation.
    + rewrite (pop_contents s key d q (d :: vanished s) (doubled s) E). solve_Permutation.
  - destruct (ch_fault l); simpl; try done; rewrite push_contents; solve_Permutation.
Qed.

(** ** All the users *)

(** What each user does whatever the others do. *)
Definition job_spec (j : job) :
    (list (event (@answer D)) → Prop) * (list (event (@answer D)) → option dlq_error → Prop) :=
  (holding h (given j), λ tr r, hold h (given j) (rejected j r) tr).

Lemma hold_start o : hold (D := D) h (option_list o) o [].
Proof. intros _. split; [constructor|]. simpl. split; [done|]. intros p. lia. Qed.

Lemma job_follows_spec j : wp (job_prog h j) (job_spec j).1 (job_spec j).2 [].
Proof.
  assert (Hmap : ∀ A (f : A → option dlq_error) (p : prog D A) P Φ, P [] → spec (holding h (given j)) P p Φ →
    (∀ tr a, Φ tr a → hold h (given j) (rejected j (f a)) tr) → wp (f <$> p) (job_spec j).1 (job_spec j).2 []).
  { intros A f p P Φ HP Hp HΦ. refine (spec_bind _ P p Φ _ _ Hp _ [] HP). intros a. apply spec_ret.
    intros tr Htr. split; [|by apply HΦ]. eapply hold_holding, HΦ, Htr. }
  destruct j as [ctx [m|]|config ctx|ctx source limit].
  - eapply Hmap; [|apply (Enqueue_spec h [m] ctx m)|]; [apply (hold_start (Some m))|]. intros tr [m' [[]|e]]; done.
  - eapply (Hmap _ _ _ (hold h [] None) (λ tr r, hold h [] None tr)); [apply (hold_start None)| |].
    + apply settles_ret.
    + intros tr r. by destruct (error_of _).
  - eapply Hmap; [|by apply processOnce_settles|]; [apply (hold_start None)|]. done.
  - eapply Hmap; [|apply PruneExhaustedMessages_settles|]; [apply (hold_start None)|]. done.
Qed.

(** What a user has in its hands: unknown while it runs; nothing, or a rejected
    message, at its end. *)
Definition in_hand (j : job) t (o : option FailedMessage) : Prop :=
  match th_rest t with Done r => o = rejected j r | Do _ _ => True end.

Lemma hands_exist js ts : Forall2 thread_ok (job_spec <$> js) ts →
  ∃ hands, Forall3 in_hand js ts hands ∧ Forall3 (λ j t o, hold h (given j) o (th_trace t)) js ts hands.
Proof.
  rewrite Forall2_fmap_l. induction 1 as [|j t js ts Ht _ (hands & H1 & H2)]; [exists []; split; constructor|].
  assert (∃ o, in_hand j t o ∧ hold h (given j) o (th_trace t)) as (o & ? & ?).
  { change (wp (th_rest t) (job_spec j).1 (job_spec j).2 (th_trace t)) in Ht.
    unfold in_hand. destruct (th_rest t) as [r|c k].
    - destruct Ht as [_ Ht]. by exists (rejected j r).
    - destruct Ht as [[o Ho] _]. by exists o. }
  exists (o :: hands). split; by constructor.
Qed.

(** The ledgers of all users, added up. *)
Lemma hands_sum js ts hands :
  Forall3 (λ j t o, hold h (given j) o (th_trace t)) js ts hands → Forall (answer_ok h) (ts ≫= th_trace) →
  let tr := ts ≫= th_trace in
  Forall (command_ok h) tr ∧
  payloads (messages (tr ≫= taken) ++ (js ≫= given)) ≡ₚ
    payloads (messages (tr ≫= put) ++ (tr ≫= reported) ++ (hands ≫= option_list)) ∧
  ∀ p, total (has_payload p) (tr ≫= retried) + total (budget h p) (messages (tr ≫= put) ++ (hands ≫= option_list))
       ≤ total (budget h p) (messages (tr ≫= taken) ++ (js ≫= given)).
Proof.
  induction 1 as [|j t o js ts hands Ht _ IH]; cbv zeta; csimpl; [intros _; split_and!; [constructor|done|done]|].
  intros [Ha1 Ha2]%Forall_app. destruct (Ht Ha1) as (A1 & A2 & A3), (IH Ha2) as (B1 & B2 & B3).
  split_and!; [by apply Forall_app| |].
  - unfold payloads in *. rewrite !bind_app, !messages_app, !fmap_app in *.
    trans (((OriginalData <$> messages (th_trace t ≫= taken)) ++ (OriginalData <$> given j)) ++
           ((OriginalData <$> messages ((ts ≫= th_trace) ≫= taken)) ++ (OriginalData <$> (js ≫= given))));
      [solve_Permutation|]. rewrite A2, B2. solve_Permutation.
  - intros p. specialize (A3 p). specialize (B3 p). revert A3 B3. rewrite !bind_app, !messages_app, !total_app. lia.
Qed.

Context (jobs : list job) (s0 : redis D) (ls : list (nat * choice)).
Context (Hs0 : store_ok s0) (Hv : vanished s0 = []) (Hd : doubled s0 = []).
Context (Hretry : ∀ i l ctx m, (i, l) ∈ ls → untampered m (ch_retry l ctx m).2).

Abbreviation w := (interleave exec (start s0 (job_prog h <$> jobs)) ls).

Lemma world_ok :
  store_ok (w_state w) ∧ Forall (answer_ok h) (events w) ∧ Forall2 thread_ok (job_spec <$> jobs) (w_threads w).
Proof.
  apply (interleave_rely exec (job_spec <$> jobs) store_ok (answer_ok h) (command_ok h)).
  - intros i l c s Hin. apply exec_answer_ok. intros ctx m. by eapply Hretry.
  - intros i l c s Hin. apply exec_store_ok.
  - apply Forall_fmap, Forall_true. intros j tr [o HH] Ha. by destruct (HH Ha).
  - apply Forall2_fmap_2, Forall_Forall2_diag, Forall_true. intros j. apply job_follows_spec.
  - done.
Qed.

Lemma world_balance :
  contents (w_state w) ++ vanished (w_state w) ++ (events w ≫= taken) ≡ₚ
  contents s0 ++ (events w ≫= put) ++ doubled (w_state w).
Proof.
  pose proof (interleave_balanced exec (λ s, contents s ++ vanished s) doubled taken put
    (start s0 (job_prog h <$> jobs)) ls) as Hb.
  unfold balanced in Hb. simpl in Hb. rewrite Hd, Hv, !app_nil_r in Hb. rewrite app_assoc. apply Hb.
  - intros i l c s _. apply exec_balanced.
  - apply events_start.
Qed.

Lemma messages_balance :
  messages (contents (w_state w)) ++ messages (vanished (w_state w)) ++ messages (events w ≫= taken) ≡ₚ
  messages (contents s0) ++ messages (events w ≫= put) ++ messages (doubled (w_state w)).
Proof. rewrite <- !messages_app. apply omap_Permutation, world_balance. Qed.

(** C17: No message is ever lost or multiplied unnoticed.  Take any producers,
    consumers and pruning passes on one Redis, stopped anywhere in any
    interleaving of their commands.  The payloads that were in the queues, those
    the producers brought and those pushed by a call whose answer was lost are,
    one for one, the payloads now in the queues, those reported (retried,
    exhausted, lost, pruned, not put back), those popped by a call whose answer
    was lost, and at most one in the hands of each user that has not finished or
    that was told its call failed. *)
Theorem dlq_conserves_messages : ∃ hands,
  Forall3 in_hand jobs (w_threads w) hands ∧
  payloads (messages (contents s0) ++ (jobs ≫= given) ++ messages (doubled (w_state w))) ≡ₚ
  payloads (messages (contents (w_state w)) ++ (events w ≫= reported) ++ messages (vanished (w_state w))
            ++ (hands ≫= option_list)).
Proof.
  destruct world_ok as (_ & Ha & Ht). destruct (hands_exist _ _ Ht) as (hands & H1 & H2).
  exists hands. split; [done|]. destruct (hands_sum _ _ _ H2 Ha) as (_ & Hp & _).
  pose proof (fmap_Permutation OriginalData _ _ messages_balance) as Hb.
  unfold payloads in *. unfold events in *. rewrite !fmap_app in *.
  apply (Permutation_app_inv_l (OriginalData <$> messages ((w_threads w ≫= th_trace) ≫= taken))).
  trans ((OriginalData <$> messages (contents s0)) ++ (OriginalData <$> messages (doubled (w_state w))) ++
    ((OriginalData <$> messages ((w_threads w ≫= th_trace) ≫= taken)) ++ (OriginalData <$> (jobs ≫= given))));
    [solve_Permutation|].
  rewrite Hp.
  trans (((OriginalData <$> messages (contents s0)) ++ (OriginalData <$> messages ((w_threads w ≫= th_trace) ≫= put)) ++
    (OriginalData <$> messages (doubled (w_state w)))) ++ (OriginalData <$> ((w_threads w ≫= th_trace) ≫= reported)) ++
    (OriginalData <$> (hands ≫= option_list))); [solve_Permutation|].
  rewrite <- Hb. solve_Permutation.
Qed.

(** C18: No message is retried more often than it may be.  However producers,
    consumers and pruning passes interleave, the retry function has been called
    for a payload no more often than the retries that were left to the messages
    with it that were in the queues, were brought by producers, or were pushed a
    second time by a call whose answer was lost; and what the messages now in the
    queues have left is within the same allowance. *)
Theorem retries_within_budget p :
  total (has_payload p) (events w ≫= retried) + total (budget h p) (messages (contents (w_state w))) ≤
  total (budget h p) (messages (contents s0) ++ (jobs ≫= given) ++ messages (doubled (w_state w))).
Proof.
  destruct world_ok as (_ & Ha & Ht). destruct (hands_exist _ _ Ht) as (hands & _ & H2).
  destruct (hands_sum _ _ _ H2 Ha) as (_ & _ & Hp). specialize (Hp p).
  pose proof (total_perm (budget h p) _ _ messages_balance) as Hb. revert Hp Hb. unfold events.
  pose proof (total_nonneg (budget h p) (hands ≫= option_list) (budget_nonneg h p)).
  pose proof (total_nonneg (budget h p) (messages (vanished (w_state w))) (budget_nonneg h p)).
  rewrite !total_app. lia.
Qed.

(** Tenants never mix.  Every document is pushed to the queue of the tenant
    and source written in it, every queue only ever holds documents of its own
    tenant and source, the retry function runs in the context of the tenant the
    message was enqueued for and only while the message has retries left, and
    only messages without retries left are discarded as exhausted. *)
Theorem tenants_never_mix : store_ok (w_state w) ∧ Forall (command_ok h) (events w).
Proof.
  destruct world_ok as (Hs & Ha & Ht). split; [done|]. destruct (hands_exist _ _ Ht) as (hands & _ & H2).
  by destruct (hands_sum _ _ _ H2 Ha).
Qed.
End guarantees.
