(* ===== verification/DeadLetterProgress.v ===== *)
(** What a poll of the dead letter queue gets done when Redis answers, and what
    it never does; the keys; the consumer's start and stop. *)

From stdpp Require Import base numbers list gmap strings.
From S2P Require Import Prelude GoText Backoff Effects DeadLetter DeadLetterLedger.

Local Open Scope Z_scope.
Local Open Scope go_scope.

Lemma backoffDuration_range g n : entropy_ok g → minBackoff ≤ backoffDuration g n ≤ MaxInt64.
Proof.
  intros Hg. unfold backoffDuration, ExponentialWithJitter.
  pose proof (FullJitter_range g (Exponential (30 * Second) n) Hg).
  pose proof (Exponential_nonneg (30 * Second) n). unfold minBackoff, Second, MaxInt64 in *. lia.
Qed.

Lemma queue_set_queue {D} (s : redis D) key q v b :
  queue {| lists := set_queue s key q; vanished := v; doubled := b |} key = q.
Proof. unfold queue, set_queue. simpl. destruct q; [by rewrite lookup_delete_eq|by rewrite lookup_insert_eq]. Qed.

(** ** A calm poll *)

Section progress.
Context {D : Type} `{JsonLaws D} (c : Consumer) (ctx : Ctx) (source : text) (t0 t1 : gotime).
Context (Hsource : validateSource source = Ok tt) (Htenant : tenant_ok (cx_tenant ctx) = true).

(** The clock is that of a poll whose times can be written down. *)
Context (Hclock : -31622400 * Second ≤ t0 ∧ t1 + MaxInt64 < 315537897600 * Second).

Abbreviation h := (handler c).
Abbreviation key := (tenantScopedKey h ctx source).
Implicit Types (s : redis D) (m : FailedMessage).

(** Redis answers, the context lives, the clock runs from [t0] to [t1], and the
    retry function leaves the message alone. *)
Record calm (l : choice) : Prop := {
  calm_client : ch_client l = true;
  calm_fault : ch_fault l = Replied;
  calm_done : ch_done l = false;
  calm_now : t0 ≤ ch_now l ≤ t1;
  calm_entropy : entropy_ok (ch_entropy l);
  calm_retry ctx m : (ch_retry l ctx m).2 = m;
}.

(** A message as [Enqueue] leaves it in this queue. *)
Record own m : Prop := {
  own_source : Source m = source;
  own_tenant : TenantID m = cx_tenant ctx;
  own_created : CreatedAt m ≠ zero_time;
  own_max : 0 < MaxRetries m;
  own_times : (json_time (CreatedAt m) && json_time (NextRetryAt m))%bool = true;
}.

Lemma key_nonempty : is_empty key = false.
Proof.
  pose proof Hsource as [Hne _]%validateSource_ok. revert Htenant.
  unfold tenantScopedKey, tenantScopedKeyForTenant, tenant_ok, GetTenantIDContext.
  destruct (is_empty (cx_tenant ctx)); simpl; [|intros ->]; intros; apply is_empty_false; intros [_ E]%app_eq_nil; [done|].
  by destruct (cx_tenant ctx).
Qed.

Lemma own_ctx m : own m → restored_ctx ctx m = ctx.
Proof.
  intros [_ E _ _ _]. unfold restored_ctx, GetTenantIDContext. rewrite E, eqt_refl. by destruct (is_empty _).
Qed.

Abbreviation calmly := (returns (@exec D) calm).

(** The messages the retry function was called with, and what it did with each. *)
Definition tried (e : event (@answer D)) : list (FailedMessage * retry_outcome) :=
  match e with Ev (Retry _ m) x => [(m, x.1)] | _ => [] end.

Lemma GetClient_calm s Φ : (∀ x, x = true → Φ x s [Ev GetClient x]) → calmly (perform GetClient) s Φ.
Proof. intros HΦ. apply returns_perform. intros l [Hl _ _ _ _ _]. by apply HΦ. Qed.

Lemma Dequeue_calm s d q m : queue s key = d :: q → Unmarshal d = Some m → Source m = source →
  calmly (Dequeue h ctx source) s (λ r s' tr, r = Ok m ∧ queue s' key = q ∧ tr ≫= tried = []).
Proof.
  intros Eq Ed Es. unfold Dequeue. rewrite Hsource, key_nonempty.
  apply returns_bind, GetClient_calm. intros ? ->. cbn [negb].
  apply returns_bind. apply (returns_perform exec _ (LPop key)). intros l [_ Hf _ _ _ _].
  assert (E : exec l (LPop key) s =
    (Some (Some d), {| lists := set_queue s key q; vanished := vanished s; doubled := doubled s |})).
  { simpl. by rewrite Hf, Eq. }
  rewrite E. cbn [fst snd]. rewrite Ed, Es, eqt_refl. apply returns_ret.
  split_and!; [done|apply queue_set_queue|done].
Qed.

Lemma Enqueue_calm s m : own m →
  calmly (Enqueue h ctx (Some m)) s (λ r s' tr,
    r = (Some m, Ok tt) ∧ (∃ d, Unmarshal d = Some m ∧ queue s' key = queue s key ++ [d]) ∧ tr ≫= tried = []).
Proof.
  intros [Es Et Ec Em Ej]. unfold Enqueue, validateEnqueueMessage. rewrite Es, Hsource. cbn [mbind result_bind].
  assert (Est : stampInitialEnqueue (D := D) h m = mret m).
  { unfold stampInitialEnqueue, time_is_zero. rewrite (bool_decide_false (CreatedAt m = _)) by done. simpl.
    by rewrite bool_decide_false by lia. }
  assert (Er : resolveAndValidateTenant ctx m = (m, Ok (TenantID m))).
  { unfold resolveAndValidateTenant, GetTenantIDContext. rewrite <- Et in Htenant |- *.
    unfold tenant_ok in Htenant. destruct (is_empty (TenantID m)) eqn:E; simpl in *.
    - rewrite E. simpl. by destruct m.
    - by rewrite E, eqt_refl, Htenant. }
  rewrite Est. apply returns_bind, returns_ret. rewrite Er.
  destruct (Marshal m) as [d|] eqn:E; [|apply Marshal_fails in E; congruence].
  rewrite Es, Et. fold (GetTenantIDContext ctx). fold (tenantScopedKey h ctx source). rewrite key_nonempty.
  apply returns_bind, GetClient_calm. intros ? ->. cbn [negb].
  apply returns_bind. apply (returns_perform exec _ (RPush key d)). intros l [_ Hf _ _ _ _].
  assert (Ee : exec l (RPush key d) s =
    (true, {| lists := set_queue s key (queue s key ++ [d]); vanished := vanished s; doubled := doubled s |})).
  { simpl. by rewrite Hf. }
  rewrite Ee. cbn [fst snd]. apply returns_ret. split_and!; [done| |done].
  exists d. split; [by apply Marshal_Unmarshal|]. apply queue_set_queue.
Qed.

(** A message that is not due goes to the back of the queue. *)
Lemma processMessage_waiting s m : own m → t1 < NextRetryAt m → NextRetryAt m ≠ zero_time →
  calmly (processMessage c ctx m) s (λ b s' tr,
    b = false ∧ (∃ d, Unmarshal d = Some m ∧ queue s' key = queue s key ++ [d]) ∧ tr ≫= tried = []).
Proof.
  intros Hm Ht Hz. unfold processMessage. rewrite own_ctx by done.
  apply returns_bind. apply (returns_perform exec _ Now). intros l [_ _ _ Hn _ _]. cbn [exec fst snd].
  unfold time_is_zero, time_before. rewrite (bool_decide_false (NextRetryAt m = _)), (bool_decide_true (_ < _)) by lia.
  cbn [negb andb]. apply returns_bind. eapply returns_weaken; [|by apply Enqueue_calm].
  intros r s' tr (-> & Hq & Htr). cbn [snd]. apply returns_ret. split_and!; [done..|].
  csimpl. rewrite app_nil_r. exact Htr.
Qed.

(** What an attempt that failed with [e] leaves behind. *)
Definition charged (e : text) m m' : Prop :=
  ∃ next, m' = m <| RetryCount := RetryCount m + 1 |> <| ErrorMessage := e |> <| NextRetryAt := next |> ∧
          t0 + minBackoff ≤ next.

(** The queue after an attempt at [m] with this outcome: nothing more when it
    succeeded, the charged message at the back otherwise. *)
Definition attempted m (o : retry_outcome) (q q' : list D) : Prop :=
  match o with
  | Returned None => q' = q
  | Returned (Some e) => ∃ d m', q' = q ++ [d] ∧ Unmarshal d = Some m' ∧ charged e m m'
  | Panicked what => ∃ d m', q' = q ++ [d] ∧ Unmarshal d = Some m' ∧
                             charged (txt "dlq consumer: retryFunc panicked: " ++ what) m m'
  end.

Definition due m : Prop := NextRetryAt m = zero_time ∨ NextRetryAt m ≤ t0.

Lemma requeue_calm s m e : own m →
  calmly (let msg := m <| RetryCount := RetryCount m + 1 |> <| ErrorMessage := e |> in
          t ← perform Now;
          g ← perform Entropy;
          let msg := msg <| NextRetryAt := time_add t (backoffDuration g (RetryCount msg)) |> in
          r ← Enqueue h ctx (Some msg);
          match r.2 with
          | Err _ => _ ← record_metric c Lost msg; mret true
          | Ok _ => mret true
          end) s
    (λ b s' tr, b = true ∧ (∃ d m', queue s' key = queue s key ++ [d] ∧ Unmarshal d = Some m' ∧ charged e m m') ∧
                tr ≫= tried = []).
Proof.
  intros [Es Et Ec Em Ej]. cbv zeta.
  apply returns_bind. apply (returns_perform exec _ Now). intros l [_ _ _ Hn _ _]. cbn [exec fst snd].
  apply returns_bind. apply (returns_perform exec _ Entropy). intros l' [_ _ _ _ Hg _]. cbn [exec fst snd].
  pose proof (backoffDuration_range _ (RetryCount m + 1) Hg) as Hb.
  apply returns_bind. eapply returns_weaken; [|apply Enqueue_calm].
  - intros r s' tr (-> & (d & Hd & Hq) & Htr). cbn [snd]. apply returns_ret. split_and!; [done| |].
    + exists d. eexists. split; [done|]. split; [exact Hd|]. eexists. split; [reflexivity|].
      unfold time_add. cbn [RetryCount set_to] in *. simpl. lia.
    + csimpl. rewrite app_nil_r. exact Htr.
  - constructor; simpl; try done. apply andb_true_iff in Ej as [-> _]. unfold json_time, time_add. simpl.
    unfold minBackoff, Second in *. rewrite !bool_decide_true by lia. done.
Qed.

(** A due message with retries left is attempted. *)
Lemma processMessage_due s m : own m → due m → RetryCount m < MaxRetries m →
  calmly (processMessage c ctx m) s (λ b s' tr,
    b = true ∧ ∃ o, tr ≫= tried = [(m, o)] ∧ attempted m o (queue s key) (queue s' key)).
Proof.
  intros Hm Hd Hr. unfold processMessage. rewrite own_ctx by done.
  apply returns_bind. apply (returns_perform exec _ Now). intros l [_ _ _ Hn _ _]. cbn [exec fst snd].
  assert (E : (negb (time_is_zero (NextRetryAt m)) && time_before (ch_now l) (NextRetryAt m))%bool = false).
  { unfold time_is_zero, time_before. destruct Hd as [->|Hd]; [done|].
    rewrite (bool_decide_false (_ < _)) by lia. apply andb_false_r. }
  rewrite E, bool_decide_false by lia. apply returns_bind. unfold safeRetryFunc. apply returns_bind.
  apply (returns_perform exec _ (Retry ctx m)). intros l' Hl'. cbn [exec fst snd].
  pose proof (calm_retry _ Hl' ctx m) as Hk. destruct (ch_retry l' ctx m) as [o m'] eqn:Eo. cbn [snd fst] in *. subst m'.
  apply returns_ret. 
  destruct o as [[e|]|what].
  - eapply returns_weaken; [|by apply requeue_calm].
    intros b s' tr (-> & Hq & Htr). split; [done|]. eexists. split; [csimpl; by rewrite Htr|done].
  - apply returns_bind. unfold record_metric. apply (returns_perform exec _ (Report _ _ _)). intros l'' _. cbn [exec fst snd].
    apply returns_ret. split; [done|]. by eexists.
  - eapply returns_weaken; [|by apply requeue_calm].
    intros b s' tr (-> & Hq & Htr). split; [done|]. eexists. split; [csimpl; by rewrite Htr|done].
Qed.

Definition decodes (ds : list D) (ms : list FailedMessage) : Prop := Forall2 (λ d m, Unmarshal d = Some m) ds ms.

(** Not due during this poll. *)
Definition waits m : Prop := own m ∧ t1 < NextRetryAt m ∧ NextRetryAt m ≠ zero_time.

Lemma rotate_calm n ws waiting d m q s :
  queue s key = ws ++ d :: q → decodes ws waiting → Forall waits waiting →
  Unmarshal d = Some m → own m → due m → RetryCount m < MaxRetries m → (length ws < n)%nat →
  calmly (rotate c ctx source n) s (λ r s' tr, r = Worked ∧
    ∃ o ws', tr ≫= tried = [(m, o)] ∧ decodes ws' waiting ∧ attempted m o (q ++ ws') (queue s' key)).
Proof.
  intros Eq Hws. revert n s q Eq. induction Hws as [|d0 m0 ws waiting E0 Hws IH]; intros n s q Eq Hw Ed Hm Hd Hr Hn.
  - destruct n as [|n]; [simpl in Hn; lia|]. cbn [rotate].
    apply returns_bind. apply (returns_perform exec _ CtxDone). intros l [_ _ Hl _ _ _]. cbn [exec fst snd]. rewrite Hl.
    apply returns_bind. eapply returns_weaken; [|by eapply Dequeue_calm, own_source].
    intros r s1 tr1 (-> & Hq1 & Htr1). apply returns_bind. eapply returns_weaken; [|by apply processMessage_due].
    intros b s2 tr2 (-> & o & Htr2 & Ha). apply returns_ret. split; [done|]. exists o, []. split_and!.
    + csimpl. rewrite app_nil_r, bind_app, Htr1, Htr2. done.
    + constructor.
    + rewrite Hq1 in Ha. by rewrite app_nil_r.
  - destruct n as [|n]; [simpl in Hn; lia|]. cbn [rotate]. apply Forall_cons in Hw as [(Ho & Hw1 & Hw2) Hws0].
    apply returns_bind. apply (returns_perform exec _ CtxDone). intros l [_ _ Hl _ _ _]. cbn [exec fst snd]. rewrite Hl.
    apply returns_bind. eapply returns_weaken; [|by eapply Dequeue_calm, own_source].
    intros r s1 tr1 (-> & Hq1 & Htr1). apply returns_bind. eapply returns_weaken; [|by apply processMessage_waiting].
    intros b s2 tr2 (-> & (d0' & Ed0 & Hq2) & Htr2). rewrite Hq1, <- app_assoc in Hq2. simpl in Hq2.
    eapply returns_weaken; [|eapply (IH n s2 (q ++ [d0'])); try done; simpl in Hn; lia].
    intros r s3 tr3 (-> & o & ws' & Htr3 & Hws'' & Ha). split; [done|]. exists o, (d0' :: ws'). split_and!.
    + csimpl. rewrite !bind_app, Htr1, Htr2, Htr3. done.
    + by constructor.
    + by rewrite <- app_assoc in Ha.
Qed.

(** C19: A due message is not blocked by messages that are not due. In a calm poll (Redis answers, the context is not done, the retry function leaves the message alone), if a due message with retries left stands behind fewer than BatchSize messages that wait for later, then draining its queue calls the retry function exactly once, with that message, and what this call did decides: when it returned no error the message is gone; when it returned an error or panicked, the message is back at the end with one more retry counted, that error recorded and a delay of at least five seconds. The waiting messages are moved, unchanged and in order, behind the others. *)
Theorem due_message_is_attempted ws waiting d m q s :
  queue s key = ws ++ d :: q → decodes ws waiting → Forall waits waiting →
  Unmarshal d = Some m → own m → due m → RetryCount m < MaxRetries m → Z.of_nat (length ws) < BatchSize (cfg c) →
  calmly (drainSource c ctx source 1 0) s (λ n s' tr, n = 1 ∧
    ∃ o ws', tr ≫= tried = [(m, o)] ∧ decodes ws' waiting ∧ attempted m o (q ++ ws') (queue s' key)).
Proof.
  intros Eq Hws Hw Ed Hm Hd Hr Hb. cbn [drainSource].
  apply returns_bind. apply (returns_perform exec _ CtxDone). intros l [_ _ Hl _ _ _]. cbn [exec fst snd]. rewrite Hl.
  apply returns_bind. unfold QueueLength. rewrite Hsource, key_nonempty.
  apply returns_bind, GetClient_calm. intros ? ->. cbn [negb].
  apply returns_bind. apply (returns_perform exec _ (LLen key)). intros l2 [_ Hf2 _ _ _ _]. cbn [exec fst snd].
  rewrite Hf2. apply returns_ret. rewrite Eq, length_app. rewrite bool_decide_false by (simpl; lia).
  apply returns_bind. eapply returns_weaken; [|eapply rotate_calm; try done; simpl; lia].
  intros r s' tr (-> & o & ws' & Htr & Hex). apply returns_ret. split; [done|]. exists o, ws'. split; [|done].
  csimpl. rewrite app_nil_r. exact Htr.
Qed.
End progress.

(** ** Keys *)

(** The tenant of a queue can be read back from its key, so that a consumer
    that runs without a tenant finds the tenants' queues: for every valid tenant,
    [ExtractTenantFromKey] inverts [tenantScopedKeyForTenant], and it finds no
    tenant in the key of the queue without one. *)
Theorem tenant_key_round_trip h tenantID source :
  tenant_ok tenantID = true →
  ExtractTenantFromKey h (tenantScopedKeyForTenant h tenantID source) source = tenantID.
Proof.
  unfold tenant_ok, ExtractTenantFromKey. intros Ht. destruct (decide (tenantID = [])) as [->|Hne].
  { rewrite key_global, length_app. simpl. by rewrite bool_decide_true by lia. }
  rewrite (proj2 (is_empty_false _) Hne) in Ht. rewrite key_tenant by done.
  rewrite !length_app. cbn [length]. rewrite bool_decide_false by (destruct tenantID; simpl in *; [done|lia]).
  rewrite take_app_length, eqt_refl. cbn [negb].
  replace (length (keyPrefix h) + (length tenantID + S (length source)) - S (length source))%nat
    with (length (keyPrefix h ++ tenantID)) by (rewrite length_app; lia).
  rewrite app_assoc, drop_app_length, eqt_refl. cbn [negb]. by rewrite take_app_length, drop_app_length.
Qed.

Lemma extract_length h key source :
  ExtractTenantFromKey h key source ≠ [] → (length (keyPrefix h) + S (length source) < length key)%nat.
Proof. unfold ExtractTenantFromKey. simpl. case_bool_decide; [done|]. lia. Qed.

(** ** The queue without a tenant *)

Section starvation.
Context {D : Type} `{Json D} (c : Consumer) (source : text).

Abbreviation h := (handler c).
Abbreviation globalKey := (keyPrefix h ++ source).

(** Everything but taking from the queue without a tenant. *)
Definition spares_global (c : cmd D) : Prop := match c with LPop key => key ≠ globalKey | _ => True end.

Abbreviation spares := (issues (R := @answer D) spares_global).

Ltac spare :=
  repeat first
    [ apply issues_bind; [|intros ?] | by apply issues_perform
    | match goal with |- context [match ?x with _ => _ end] => destruct x eqn:? end | done ].

Lemma Enqueue_spares ctx msg : spares (Enqueue h ctx msg).
Proof. unfold Enqueue, stampInitialEnqueue. spare. Qed.

Lemma tenant_key_not_global ctx : cx_tenant ctx ≠ [] → validateSource source = Ok tt →
  is_empty (tenantScopedKey h ctx source) = false → tenantScopedKey h ctx source ≠ globalKey.
Proof.
  intros Ht [_ Hs%segment_no_colon]%validateSource_ok. unfold tenantScopedKey, tenantScopedKeyForTenant, GetTenantIDContext.
  rewrite (proj2 (is_empty_false _) Ht). destruct (validateKeySegment _); [|done].
  intros _ E%app_inv_head. apply Hs. rewrite <- E. set_solver.
Qed.

Lemma Dequeue_spares ctx : cx_tenant ctx ≠ [] → spares (Dequeue h ctx source).
Proof.
  intros Ht. unfold Dequeue. destruct (validateSource source) as [[]|] eqn:Es; [|done].
  destruct (is_empty _) eqn:E; [done|]. apply issues_bind; [by apply issues_perform|]. intros [|]; [|done].
  cbn [negb]. apply issues_bind; [by apply issues_perform, tenant_key_not_global|]. intros [[d|]|]; [|done..].
  by destruct (Unmarshal d).
Qed.

Lemma processMessage_spares ctx m : spares (processMessage c ctx m).
Proof.
  unfold processMessage, record_metric, safeRetryFunc. apply issues_bind; [by apply issues_perform|]. intros t.
  spare; apply Enqueue_spares.
Qed.

Lemma drainSource_spares ctx limit n : cx_tenant ctx ≠ [] → spares (drainSource c ctx source limit n).
Proof.
  intros Ht. revert n. induction limit as [|limit IH]; intros n; cbn [drainSource]; [done|].
  apply issues_bind; [by apply issues_perform|]. intros [|]; [done|].
  apply issues_bind; [unfold QueueLength; spare|]. intros [q|e]; [|done]. case_bool_decide; [done|].
  apply issues_bind; [|intros []; [done|apply IH..]].
  generalize (Z.to_nat (q `min` BatchSize (cfg c))). intros k. induction k as [|k IHk]; cbn [rotate]; [done|].
  apply issues_bind; [by apply issues_perform|]. intros [|]; [done|].
  apply issues_bind; [by apply Dequeue_spares|]. intros [m|e]; [|done].
  apply issues_bind; [apply processMessage_spares|]. by intros [|].
Qed.

Lemma drain_rounds_spares ctxs k n :
  Forall (λ ctx, cx_tenant ctx ≠ []) ctxs → spares (drain_rounds c source ctxs k n).
Proof.
  intros Hc. revert n. induction k as [|k IH]; intros n; cbn [drain_rounds]; [done|]. case_bool_decide; [done|].
  apply issues_bind; [|intros [[n' [|]]|]; [apply IH|done..]]. clear IH.
  generalize n false. induction Hc as [|ctx ctxs Ht _ IH]; intros n' b; cbn [drain_round]; [done|].
  case_bool_decide; [done|]. apply issues_bind; [by apply issues_perform|]. intros [|]; [done|].
  apply issues_bind; [by apply drainSource_spares|]. intros r. apply IH.
Qed.

Lemma key_contexts_tenants ctx keys key :
  key ∈ keys → ExtractTenantFromKey h key source ≠ [] →
  Forall (λ ctx, cx_tenant ctx ≠ []) (key_contexts c ctx source keys).
Proof.
  intros Hin Ht. unfold key_contexts. destruct (omap _ keys) as [|x l] eqn:E.
  - exfalso. assert (Hx : ContextWithTenantID ctx (ExtractTenantFromKey h key source) ∈ ([] : list Ctx)).
    { rewrite <- E. apply list_elem_of_omap. exists key. split; [done|]. by rewrite (proj2 (is_empty_false _) Ht). }
    by apply not_elem_of_nil in Hx.
  - rewrite <- E. apply Forall_forall. intros y (k & _ & Hk)%list_elem_of_omap.
    destruct (is_empty (ExtractTenantFromKey h k source)) eqn:E2; [done|]. simplify_eq. by apply is_empty_false.
Qed.

Lemma exec_spares (s0 : redis D) l cm s : spares_global cm →
  (∃ q, queue s globalKey = queue s0 globalKey ++ q) →
  ∃ q, queue (exec l cm s).2 globalKey = queue s0 globalKey ++ q.
Proof.
  intros Hc Hq. assert (Hset : ∀ key q v b, (key ≠ globalKey ∨ ∃ q', q = queue s0 globalKey ++ q') →
    ∃ q', queue {| lists := set_queue s key q; vanished := v; doubled := b |} globalKey = queue s0 globalKey ++ q').
  { intros key q v b Hk. destruct (decide (key = globalKey)) as [->|Hne].
    - rewrite queue_set_queue. destruct Hk as [|Hk]; [done|]. exact Hk.
    - unfold queue in *. simpl. unfold set_queue. destruct q;
        [rewrite lookup_delete_ne by done|rewrite lookup_insert_ne by done]; done. }
  destruct cm; simpl in *; try done.
  - destruct (ch_fault l), (queue s key); try done; apply Hset; auto.
  - destruct Hq as [q Hq]. destruct (ch_fault l); simpl; try (by exists q); apply Hset;
      (destruct (decide (key = globalKey)) as [->|]; [right|auto]); rewrite Hq, <- app_assoc; eauto.
Qed.

(** Messages without a tenant starve.  As long as the scan of a poll finds
    the queue of some tenant, whatever else it finds and whatever fails, the poll
    takes nothing from the queue without a tenant: everything that was in it
    stays where it is. *)
Theorem global_queue_starved ctx key (s : redis D) :
  ExtractTenantFromKey h key source ≠ [] →
  returns exec (λ l, key ∈ mjoin (sc_pages (ch_scan l))) (processSource c ctx source) s
    (λ _ s' _, ∃ q, queue s' globalKey = queue s globalKey ++ q).
Proof.
  intros Ht. unfold processSource. apply returns_bind.
  assert (Hstay : ∃ q, queue s globalKey = queue s globalKey ++ q) by (exists []; by rewrite app_nil_r).
  eapply (returns_weaken _ _ _ _ (λ r s' _, s' = s ∧ match r with Ok keys => key ∈ keys | Err _ => True end)).
  - intros [keys|e] s1 tr [-> Hk]; [|by apply returns_ret].
    eapply (issues_returns _ spares_global _ (λ s', ∃ q, queue s' globalKey = queue s globalKey ++ q)); [| |done].
    + intros l cm s' _. apply exec_spares.
    + apply drain_rounds_spares. by eapply key_contexts_tenants.
  - unfold ScanQueues. destruct (validateSource source); [|by apply returns_ret].
    apply returns_bind. apply (returns_perform exec _ GetClient). intros l _. cbn [exec fst snd].
    destruct (ch_client l); [|by apply returns_ret]. cbn [negb].
    apply returns_bind. apply (returns_perform exec _ (Scan _)). intros l' Hl'. cbn [exec fst snd].
    destruct (sc_complete _); [|by apply returns_ret]. apply returns_ret. split; [done|].
    apply elem_of_filter_bool. split; [|done]. apply negb_true_iff, eqt_false. intros ->.
    apply extract_length in Ht. rewrite length_app in Ht. lia.
Qed.
End starvation.

(** ** Start and stop *)

Definition idle : stop_state := {| st_chan := None; st_closed := []; st_next := 0; st_running := [] |}.

(** A consumer never runs two polling loops at once.  After any sequence of
    calls to [Run] and [Stop] and of loops returning, the loops that are running
    are exactly the one whose channel is set, if any; in particular a [Run] that
    is called while a stopped loop still drains starts nothing. *)
Theorem one_loop_at_a_time steps :
  st_running (foldl run_control idle steps) = option_list (st_chan (foldl run_control idle steps)).
Proof.
  assert (Hstep : ∀ s l, st_running s = option_list (st_chan s) →
    st_running (run_control s l) = option_list (st_chan (run_control s l))).
  { intros s [| |ch] Hs; simpl; unfold Run_enter, Stop, Run_cleanup.
    - destruct (st_chan s) eqn:E; simpl; rewrite ?E, Hs; done.
    - destruct (st_chan s) eqn:E; simpl; [|by rewrite E]. case_bool_decide; simpl; by rewrite ?E.
    - destruct (st_chan s) as [ch'|] eqn:E; simpl in Hs; rewrite Hs; [|by rewrite bool_decide_false by set_solver; rewrite E].
      case_bool_decide as Hin; [|by rewrite E]. apply list_elem_of_singleton in Hin as ->. simpl.
      by rewrite !bool_decide_true. }
  generalize (eq_refl : st_running idle = option_list (st_chan idle)). generalize idle.
  induction steps as [|l steps IH]; intros s Hs; simpl; [done|]. apply IH, Hstep, Hs.
Qed.
