(* ===== verification/DeadLetterExample.v ===== *)
(** A concrete dead letter queue: a service that lists its message documents as
    they are, one tenant, one failing retry.  The general theorems are applied to
    it. *)

From stdpp Require Import base numbers list gmap strings.
From S2P Require Import Prelude GoText Backoff Effects DeadLetter DeadLetterLedger.
From S2P Require Import DeadLetterGuarantees DeadLetterProgress.

Local Open Scope Z_scope.
Local Open Scope go_scope.

(** Documents are messages; times that JSON cannot write are refused. *)
#[export] Instance plain_json : Json FailedMessage := {
  Marshal m := if (json_time (CreatedAt m) && json_time (NextRetryAt m))%bool then Some m else None;
  Unmarshal := Some;
}.

#[export] Instance plain_json_laws : JsonLaws FailedMessage.
Proof.
  split.
  - intros m d. simpl. by destruct (_ && _)%bool; intros; simplify_eq.
  - intros m. simpl. by destruct (_ && _)%bool.
Qed.

Definition ex_handler : Handler := {| keyPrefix := txt "dlq:"; maxRetries := 3 |}.
Definition ex_config : ConsumerConfig := {| PollInterval := 30 * Second; BatchSize := 10; Sources := [txt "outbound"] |}.
Definition ex_consumer : Consumer := {| handler := ex_handler; cfg := ex_config |}.
Definition ex_tenant : Ctx := {| cx_tenant := txt "acme" |}.
Definition ex_background : Ctx := {| cx_tenant := [] |}.

Definition ex_message : FailedMessage :=
  {| Source := txt "outbound"; OriginalData := [1; 2; 3]; ErrorMessage := txt "timeout"; RetryCount := 0;
     MaxRetries := 0; CreatedAt := 0; NextRetryAt := 0; TenantID := [] |}.

(** Redis answers, the scan finds the tenant's queue, the retry function
    fails. *)
Definition ex_choice (now : gotime) : choice :=
  {| ch_client := true; ch_fault := Replied;
     ch_scan := {| sc_pages := [[txt "dlq:acme:outbound"]]; sc_complete := true |};
     ch_now := now; ch_entropy := exhausted; ch_done := false;
     ch_retry := λ _ m, (Returned (Some (txt "still down")), m) |}.

Definition ex_empty : redis FailedMessage := {| lists := ∅; vanished := []; doubled := [] |}.

(** A producer brings the message, a consumer polls a minute later. *)
Definition ex_jobs : list job := [Produce ex_tenant (Some ex_message); Poll ex_config ex_background].
Definition ex_schedule : list (nat * choice) :=
  replicate 4 (0%nat, ex_choice (100 * Second)) ++ replicate 80 (1%nat, ex_choice (160 * Second)).

Definition ex_world := interleave exec (start ex_empty (job_prog ex_handler <$> ex_jobs)) ex_schedule.

Example ex_world_runs :
  (length (events ex_world ≫= retried), (RetryCount <$> contents (w_state ex_world)), finished <$> w_threads ex_world)
  = (1%nat, [1], [true; true]).
Proof. vm_compute. reflexivity. Qed.

Lemma ex_retry_untampered (i : nat) (l : choice) (ctx : Ctx) (m : FailedMessage) :
  (i, l) ∈ ex_schedule → untampered m (ch_retry l ctx m).2.
Proof.
  intros Hin. unfold ex_schedule in Hin. apply elem_of_app in Hin as [Hin|Hin];
    apply elem_of_replicate_inv in Hin; by simplify_eq.
Qed.

Lemma dlq_conserves_messages_witness : ∃ hands,
  Forall3 in_hand ex_jobs (w_threads ex_world) hands ∧
  payloads (messages (contents ex_empty) ++ (ex_jobs ≫= given) ++ messages (doubled (w_state ex_world))) ≡ₚ
  payloads (messages (contents (w_state ex_world)) ++ (events ex_world ≫= reported)
            ++ messages (vanished (w_state ex_world)) ++ (hands ≫= option_list)).
Proof.
  apply (dlq_conserves_messages ex_handler).
  - vm_compute. reflexivity.
  - intros key q E. discriminate E.
  - reflexivity.
  - reflexivity.
  - exact ex_retry_untampered.
Defined.

Lemma retries_within_budget_witness :
  total (has_payload [1; 2; 3]) (events ex_world ≫= retried) = 1 ∧
  total (has_payload [1; 2; 3]) (events ex_world ≫= retried) +
  total (budget ex_handler [1; 2; 3]) (messages (contents (w_state ex_world))) ≤
  total (budget ex_handler [1; 2; 3])
    (messages (contents ex_empty) ++ (ex_jobs ≫= given) ++ messages (doubled (w_state ex_world))).
Proof.
  split; [vm_compute; reflexivity|]. apply (retries_within_budget ex_handler).
  - vm_compute. reflexivity.
  - intros key q E. discriminate E.
  - reflexivity.
  - reflexivity.
  - exact ex_retry_untampered.
Defined.

Lemma tenants_never_mix_witness :
  store_ok ex_handler (w_state ex_world) ∧ Forall (command_ok ex_handler) (events ex_world).
Proof.
  apply (tenants_never_mix ex_handler).
  - vm_compute. reflexivity.
  - intros key q E. discriminate E.
  - exact ex_retry_untampered.
Defined.

Lemma tenant_key_round_trip_witness :
  ExtractTenantFromKey ex_handler (tenantScopedKeyForTenant ex_handler (txt "acme") (txt "outbound")) (txt "outbound")
  = txt "acme".
Proof. apply tenant_key_round_trip. vm_compute. reflexivity. Defined.

(** A queue whose first message is not due before the poll ends. *)
Definition ex_stored (n : Z) (next : gotime) : FailedMessage :=
  {| Source := txt "outbound"; OriginalData := [n]; ErrorMessage := txt "timeout"; RetryCount := 1;
     MaxRetries := 3; CreatedAt := 100 * Second; NextRetryAt := next; TenantID := txt "acme" |}.

Definition ex_queue : redis FailedMessage :=
  {| lists := {[ txt "dlq:acme:outbound" := [ex_stored 1 (900 * Second); ex_stored 2 (150 * Second)] ]};
     vanished := []; doubled := [] |}.

Lemma due_message_is_attempted_witness :
  returns exec (calm (160 * Second) (170 * Second)) (drainSource ex_consumer ex_tenant (txt "outbound") 1 0) ex_queue
    (λ n s' tr, n = 1 ∧
      ∃ o ws', tr ≫= tried = [(ex_stored 2 (150 * Second), o)] ∧ decodes ws' [ex_stored 1 (900 * Second)] ∧
        attempted (160 * Second) (ex_stored 2 (150 * Second)) o ws'
          (queue s' (tenantScopedKey ex_handler ex_tenant (txt "outbound")))).
Proof.
  apply (due_message_is_attempted ex_consumer ex_tenant (txt "outbound") (160 * Second) (170 * Second)
    eq_refl eq_refl ltac:(vm_compute; split; [discriminate|reflexivity]) [ex_stored 1 (900 * Second)] [ex_stored 1 (900 * Second)]
    (ex_stored 2 (150 * Second)) (ex_stored 2 (150 * Second)) [] ex_queue).
  - vm_compute. reflexivity.
  - repeat constructor.
  - repeat constructor; vm_compute; congruence.
  - reflexivity.
  - constructor; vm_compute; congruence.
  - right. vm_compute. congruence.
  - vm_compute. reflexivity.
  - vm_compute. reflexivity.
Defined.

(** One message of a tenant and one without. *)
Definition ex_shared : redis FailedMessage :=
  {| lists := <[ txt "dlq:outbound" := [(ex_stored 3 0) <| TenantID := [] |>] ]> (lists ex_queue);
     vanished := []; doubled := [] |}.

Lemma global_queue_starved_witness :
  returns exec (λ l, txt "dlq:acme:outbound" ∈ mjoin (sc_pages (ch_scan l)))
    (processSource ex_consumer ex_background (txt "outbound")) ex_shared
    (λ _ s' _, ∃ q, queue s' (keyPrefix ex_handler ++ txt "outbound") =
                    queue ex_shared (keyPrefix ex_handler ++ txt "outbound") ++ q).
Proof.
  apply (global_queue_starved ex_consumer (txt "outbound") ex_background (txt "dlq:acme:outbound") ex_shared).
  vm_compute. discriminate.
Defined.
