(* ===== verification/Pacing.v ===== *)
(** Outbound pacing: [net/http/pacing/redis_pacer.go] and [round_tripper.go].

    A pacer evaluates a script on a Redis shared by all processes.  The script is
    a function of the server's clock reading (in microseconds), its arguments and
    the keys; the keys live for a day of that clock.  [Acquire] is a loop of
    rounds; what the context, the rate providers and the network do in a round is
    an argument ([round]). *)

From stdpp Require Import base numbers list gmap strings sets.
From Stdlib Require Import SpecFloat.
From S2P Require Import Prelude GoText GoFloat OutboxEvent.

Local Open Scope Z_scope.
Local Open Scope go_scope.

(** ** Rates *)

(** [int64(math.Ceil(f))] of a finite number in range *)
Definition ceil_int (f : float64) : Z :=
  match f with
  | S754_finite s m e =>
    let n := if s then Zneg m else Zpos m in
    if bool_decide (0 ≤ e) then n * 2 ^ e else - (- n `div` 2 ^ (- e))
  | _ => 0
  end.

Definition DefaultMaxRate : float64 := of_int 1000.
Definition DefaultPollInterval : duration := 250 * Millisecond.
Definition namespaceTenant : text := txt "tenant".
Definition namespaceInstitution : text := txt "inst".
Definition keyRoot : text := txt "pacing:".
Definition clockSuffix : text := txt "clock".
Definition minRate : float64 := fdiv (of_int 1) (of_int 86400).
Definition minRetrySleep : duration := Millisecond.
Definition stateTTLMillis : Z := 24 * 60 * 60 * 1000.
Definition clockToleranceMicros : Z := 5000.
Definition digestBytes : nat := 8.

Inductive pacing_error :=
| ErrPacerUnavailable | ErrInvalidPrefix | ErrInvalidIdentity | ErrNoBuckets | ErrDuplicateBucket | ErrInvalidRate
| ErrInvalidPollInterval | ErrRateUnavailable | ErrBackendUnavailable | ErrClockWentBackwards | ErrWaitAborted.

(** ** The script *)

(** A stored string: a numeral, or something [tonumber] rejects; and the
    millisecond after which the key is expired. *)
Inductive stored := Num (n : Z) | Junk.

#[export] Instance stored_eq_dec : EqDecision stored.
Proof. solve_decision. Defined.

Abbreviation server := (gmap text (stored * Z)).

Definition ms_of (now_us : Z) : Z := now_us `div` 1000.

(** A key that is expired is removed when it is read. *)
Definition redis_get (now_us : Z) (key : text) (d : server) : option stored * server :=
  match d !! key with
  | Some (v, at_ms) => if bool_decide (at_ms < ms_of now_us) then (None, delete key d) else (Some v, d)
  | None => (None, d)
  end.

Definition redis_set (now_us : Z) (key : text) (n px : Z) (d : server) : server :=
  <[key := (Num n, ms_of now_us + px)]> d.

Inductive script_reply :=
| ReplyMalformed                       (* PACING_MALFORMED ... *)
| ReplyClockBackwards                  (* PACING_CLOCK_BACKWARDS *)
| Reply (granted wait_us : Z).

(** The loop over the buckets: the earliest admission, or a malformed value. *)
Fixpoint buckets_loop (now_us : Z) (keys : list text) (intervals : list Z) (allow_at : Z) (d : server) :
    option Z * server :=
  match keys with
  | [] => (Some allow_at, d)
  | key :: keys =>
    match intervals with
    | [] => (None, d)
    | interval :: intervals =>
      if bool_decide (interval < 1) then (None, d)
      else
        let '(raw, d) := redis_get now_us key d in
        match raw with
        | Some Junk => (None, d)
        | Some (Num last) => buckets_loop now_us keys intervals (Z.max allow_at (last + interval)) d
        | None => buckets_loop now_us keys intervals (Z.max allow_at now_us) d
        end
    end
  end.

(** From the accepted clock reading on. *)
Definition script_admit (now_us : Z) (clock : text) (buckets : list text) (high_water state_ttl : Z) (intervals : list Z)
    (d : server) : script_reply * server :=
  let d := redis_set now_us clock high_water state_ttl d in
  let '(allow, d) := buckets_loop now_us buckets intervals now_us d in
  match allow with
  | None => (ReplyMalformed, d)
  | Some allow_at =>
    if bool_decide (now_us < allow_at) then (Reply 0 (allow_at - now_us), d)
    else (Reply 1 0, foldl (λ d key, redis_set now_us key now_us state_ttl d) d buckets)
  end.

Definition pacingScript (now_us : Z) (keys : list text) (tolerance state_ttl : Z) (intervals : list Z) (d : server) :
    script_reply * server :=
  match keys with
  | clock :: buckets =>
    if (bool_decide (tolerance < 0) || bool_decide (state_ttl < 1) || bool_decide (length buckets < 1)%nat)%bool
    then (ReplyMalformed, d)
    else
      let '(mark, d) := redis_get now_us clock d in
      match mark with
      | Some Junk => (ReplyMalformed, d)
      | Some (Num mark_us) =>
        if bool_decide (now_us < mark_us - tolerance) then (ReplyClockBackwards, d)
        else script_admit now_us clock buckets (if bool_decide (now_us < mark_us) then mark_us else now_us) state_ttl intervals d
      | None => script_admit now_us clock buckets now_us state_ttl intervals d
      end
  | [] => (ReplyMalformed, d)
  end.

(** ** Buckets and pacers *)

Section pacing.
(** SHA-256 and the UUID parser are libraries; [uuid_parse] gives the bytes. *)
Context (sha256 : text → list Z) (uuid_parse : text → option (list Z)).

(** [commons.ParseUUID] *)
Definition ParseUUID (s : text) : option (list Z) :=
  if (bool_decide (length s = 38%nat)
      && (negb (bool_decide (s !! 0%nat = Some 123)) || negb (bool_decide (s !! 37%nat = Some 125))))%bool
  then None else uuid_parse s.

Definition CanonicalTenantID (id : text) : option text :=
  if negb (IsValidTenantID id) then None
  else match ParseUUID id with
  | Some parsed => Some (hex_encode parsed)
  | None => Some id
  end.

Definition digestIdentity (identity : text) : text := hex_encode (take digestBytes (sha256 identity)).

(** A bucket; its rate provider is asked anew in every round. *)
Record Bucket := { b_namespace : text; b_digest : text; b_rate : bool (* has a rate provider *) }.

Definition newBucket (namespace identity : text) (rate : bool) : result pacing_error Bucket :=
  if negb rate then Err ErrInvalidRate
  else Ok {| b_namespace := namespace; b_digest := digestIdentity identity; b_rate := rate |}.

Definition TenantBucket (tenantID : text) (rate : bool) : result pacing_error Bucket :=
  match CanonicalTenantID tenantID with
  | None => Err ErrInvalidIdentity
  | Some canonical => newBucket namespaceTenant canonical rate
  end.

Definition InstitutionBucket (institutionID : text) (rate : bool) : result pacing_error Bucket :=
  if negb (IsValidTenantID institutionID) then Err ErrInvalidIdentity
  else newBucket namespaceInstitution institutionID rate.

Record Pacer := { p_prefix : text; p_maxRate : float64; p_pollInterval : duration }.

#[export] Instance Pacer_eta : Eta Pacer := λ p,
  {| p_prefix := p_prefix p; p_maxRate := p_maxRate p; p_pollInterval := p_pollInterval p |}.

Definition WithMaxRate (maxRate : float64) (p : Pacer) : Pacer := p <| p_maxRate := maxRate |>.
Definition WithPollInterval (interval : duration) (p : Pacer) : Pacer := p <| p_pollInterval := interval |>.

Definition NewPacer (conn_nil : bool) (prefix : text) (opts : list (option (Pacer → Pacer))) : result pacing_error Pacer :=
  if conn_nil then Err ErrPacerUnavailable
  else if negb (IsValidTenantID prefix) then Err ErrInvalidPrefix
  else
    let p := foldl (λ p opt, match opt with Some f => f p | None => p end)
      {| p_prefix := prefix; p_maxRate := DefaultMaxRate; p_pollInterval := DefaultPollInterval |} opts in
    if (negb (flt (of_int 0) (p_maxRate p)) || is_inf (p_maxRate p))%bool then Err ErrInvalidRate
    else if flt (p_maxRate p) minRate then Err ErrInvalidRate
    else if bool_decide (p_pollInterval p < minRetrySleep) then Err ErrInvalidPollInterval
    else Ok p.

Definition keyspace (p : Pacer) : text := keyRoot ++ txt "{" ++ p_prefix p ++ txt "}:".

Definition clock_key (p : Pacer) : text := keyspace p ++ clockSuffix.
Definition bucket_key (p : Pacer) (b : Bucket) : text := keyspace p ++ b_namespace b ++ txt ":" ++ b_digest b.

Fixpoint bucket_keys (p : Pacer) (seen : list text) (buckets : list Bucket) : result pacing_error (list text) :=
  match buckets with
  | [] => Ok []
  | b :: buckets =>
    if (is_empty (b_namespace b) || is_empty (b_digest b) || negb (b_rate b))%bool then Err ErrInvalidIdentity
    else
      let key := bucket_key p b in
      if bool_decide (key ∈ seen) then Err ErrDuplicateBucket
      else keys ← bucket_keys p (key :: seen) buckets; Ok (key :: keys)
  end.

Definition keysFor (p : Pacer) (buckets : list Bucket) : result pacing_error (list text) :=
  match buckets with
  | [] => Err ErrNoBuckets
  | _ => keys ← bucket_keys p [] buckets; Ok (clock_key p :: keys)
  end.

Definition validateRate (p : Pacer) (rate : float64) : result pacing_error unit :=
  if (is_nan rate || is_inf rate || flt rate (of_int 0))%bool then Err ErrInvalidRate
  else if is_zero rate then Ok tt
  else if flt (p_maxRate p) rate then Err ErrInvalidRate
  else if flt rate minRate then Err ErrInvalidRate
  else Ok tt.

Definition intervalMicros (rate : float64) : Z := ceil_int (fdiv (of_int 1000000) rate).

(** The answers of the rate providers in order; [None] is a failure.  Returns the
    intervals and whether a bucket is paused. *)
Fixpoint intervalsFor (p : Pacer) (rates : list (option float64)) : result pacing_error (list Z * bool) :=
  match rates with
  | [] => Ok ([], false)
  | None :: _ => Err ErrRateUnavailable
  | Some rate :: rates =>
    validateRate p rate;;
    '(intervals, paused) ← intervalsFor p rates;
    if is_zero rate then Ok (0 :: intervals, true) else Ok (intervalMicros rate :: intervals, paused)
  end.

(** What happens to one evaluation: no client, the script not run, its reply
    lost, or answered. *)
Inductive trip := NoClient | NotRun | ReplyLost | Replied.

(** One turn of the loop, as the outside decides it. *)
Record round := {
  r_ended : bool;                     (* the context has ended before the turn *)
  r_rates : list (option float64);    (* what the providers answer *)
  r_now : Z;                          (* the server's clock *)
  r_trip : trip;
  r_ended_after : bool;               (* the context has ended when an error is classified *)
  r_wakes : bool;                     (* the timer fires before the context ends *)
}.

(** The values of the reply, as the client library decodes them. *)
Inductive lua_value := LInt (n : Z) | LOther.

Definition parseEvaluation (result : list lua_value) : Prelude.result pacing_error (bool * duration) :=
  match result with
  | [a; b] =>
    match a with
    | LInt granted =>
      match b with
      | LInt waitMicros =>
        if bool_decide (granted = 1) then Ok (true, 0)
        else if (negb (bool_decide (granted = 0)) || bool_decide (waitMicros ≤ 0))%bool then Err ErrBackendUnavailable
        else Ok (false, waitMicros * 1000)
      | LOther => Err ErrBackendUnavailable
      end
    | LOther => Err ErrBackendUnavailable
    end
  | _ => Err ErrBackendUnavailable
  end.

Definition classifyBackendError (ended clock_marker : bool) : pacing_error :=
  if ended then ErrWaitAborted else if clock_marker then ErrClockWentBackwards else ErrBackendUnavailable.

Definition evaluate (r : round) (keys : list text) (intervals : list Z) (d : server) :
    Prelude.result pacing_error (bool * duration) * server :=
  let script := pacingScript (r_now r) keys clockToleranceMicros stateTTLMillis intervals in
  match r_trip r with
  | NoClient | NotRun => (Err (classifyBackendError (r_ended_after r) false), d)
  | ReplyLost => (Err (classifyBackendError (r_ended_after r) false), (script d).2)
  | Replied =>
    let '(reply, d) := script d in
    (match reply with
     | Reply granted wait => parseEvaluation [LInt granted; LInt wait]
     | ReplyMalformed => Err (classifyBackendError (r_ended_after r) false)
     | ReplyClockBackwards => Err (classifyBackendError (r_ended_after r) true)
     end, d)
  end.

Definition clampRetry (retryAfter poll : duration) : duration := Z.max (Z.min retryAfter poll) minRetrySleep.

(** A turn ends the call, or the loop goes on after sleeping. *)
Inductive turn := Return (x : Prelude.result pacing_error unit) | Again (slept : duration).

Definition sleep (r : round) (d : duration) : turn :=
  if r_wakes r then Again d else Return (Err ErrWaitAborted).

Definition acquire_turn (p : Pacer) (keys : list text) (r : round) (d : server) : turn * server :=
  if r_ended r then (Return (Err ErrWaitAborted), d)
  else match intervalsFor p (r_rates r) with
  | Err e => (Return (Err e), d)
  | Ok (intervals, paused) =>
    if paused then (sleep r (p_pollInterval p), d)
    else
      let '(x, d) := evaluate r keys intervals d in
      (match x with
       | Err e => Return (Err e)
       | Ok (granted, retryAfter) =>
         if granted then Return (Ok tt) else sleep r (clampRetry retryAfter (p_pollInterval p))
       end, d)
  end.

(** One turn of [Acquire], with the checks before its loop. *)
Definition Acquire (p : Pacer) (buckets : list Bucket) (r : round) (d : server) : turn * server :=
  match keysFor p buckets with
  | Err e => (Return (Err e), d)
  | Ok keys => acquire_turn p keys r d
  end.

End pacing.

(** ** The round tripper *)

(** What becomes of a request: it is sent, or refused and its body closed. *)
Inductive sent := Sent | NotSent (e : pacing_error) (body_closed : bool).

Definition refuse (has_body : bool) (e : pacing_error) : sent := NotSent e has_body.

(** [buckets] is the answer of the application's function, [acquired] that of
    [Acquire] once it returns. *)
Definition RoundTrip (ready has_body : bool) (buckets : option (list Bucket))
    (acquired : list Bucket → result pacing_error unit) : sent :=
  if negb ready then refuse has_body ErrPacerUnavailable
  else match buckets with
  | None => refuse has_body ErrInvalidIdentity
  | Some bs => match acquired bs with Ok _ => Sent | Err e => refuse has_body e end
  end.

(** ** Many processes on one server *)

(** A turn of some process's call. *)
Record call := { c_pacer : Pacer; c_buckets : list Bucket; c_round : round }.

(** A grant the script gave: the server's clock, the bucket and the interval that
    was asked for. *)
Record grant := { g_now : Z; g_key : text; g_interval : Z }.

(** The arguments with which a turn runs the script, if it does. *)
Definition script_args (c : call) : option (list text * list Z) :=
  match keysFor (c_pacer c) (c_buckets c) with
  | Err _ => None
  | Ok keys =>
    if r_ended (c_round c) then None
    else match intervalsFor (c_pacer c) (r_rates (c_round c)) with
    | Ok (intervals, false) =>
      match r_trip (c_round c) with NoClient | NotRun => None | _ => Some (keys, intervals) end
    | _ => None
    end
  end.

Definition grants_of (c : call) (d : server) : list grant :=
  match script_args c with
  | Some (keys, intervals) =>
    match (pacingScript (r_now (c_round c)) keys clockToleranceMicros stateTTLMillis intervals d).1 with
    | Reply 1 _ => zip_with (λ k i, {| g_now := r_now (c_round c); g_key := k; g_interval := i |}) (tail keys) intervals
    | _ => []
    end
  | None => []
  end.

(** The server and the grants (newest first) after a turn. *)
Definition do_call (s : server * list grant) (c : call) : server * list grant :=
  ((Acquire (c_pacer c) (c_buckets c) (c_round c) s.1).2, grants_of c s.1 ++ s.2).

Definition run_calls (d : server) (cs : list call) : server * list grant := foldl do_call (d, []) cs.

(** ** Grants are spaced *)

(** What a key's lifetime guarantees of the time since it was written: a day and
    a microsecond. *)
Definition day_us : Z := stateTTLMillis * 1000 + 1.

Lemma expired_after now g : ms_of g + stateTTLMillis < ms_of now → g + day_us ≤ now.
Proof.
  unfold ms_of, day_us, stateTTLMillis. pose proof (Z.div_mod now 1000). pose proof (Z.mod_pos_bound now 1000).
  pose proof (Z.div_mod g 1000). pose proof (Z.mod_pos_bound g 1000). lia.
Qed.

(** The later of two grants of a bucket came an interval of its own after the
    earlier one, or about a day after it. *)
Definition apart (t1 : Z) (t2 interval : Z) : Prop :=
  t1 + interval ≤ t2 ∨ t1 + day_us - clockToleranceMicros ≤ t2.

Fixpoint latest (key : text) (log : list grant) : option Z :=
  match log with
  | [] => None
  | g :: log => if bool_decide (g_key g = key) then Some (g_now g) else latest key log
  end.

Definition spaced (log : list grant) : Prop :=
  ∀ l1 g2 l2 g1, log = l1 ++ g2 :: l2 → g1 ∈ l2 → g_key g1 = g_key g2 → apart (g_now g1) (g_now g2) (g_interval g2).

(** The stored time of a bucket's last grant, or its expiry before [seen], the
    largest clock reading the script has accepted. *)
Definition bucket_kept (d : server) (seen : Z) (key : text) (t : Z) : Prop :=
  d !! key = Some (Num t, ms_of t + stateTTLMillis) ∨ (d !! key = None ∧ t + day_us ≤ seen).

Definition buckets_kept (d : server) (seen : Z) (log : list grant) : Prop :=
  ∀ key t, latest key log = Some t → bucket_kept d seen key t.

(** The clock mark is at least every accepted reading, and close to the last. *)
Definition clock_kept (clock : text) (d : server) (seen last : Z) : Prop :=
  ∃ mark, d !! clock = Some (Num mark, ms_of last + stateTTLMillis) ∧ seen ≤ mark ≤ last + clockToleranceMicros.

Record kept (clock : text) (d : server) (log : list grant) : Prop := {
  kept_first : log = [] ∨ ∃ seen last, clock_kept clock d seen last ∧ buckets_kept d seen log;
  kept_clock : latest clock log = None;
  kept_spaced : spaced log;
  kept_latest g : g ∈ log → ∃ t, latest (g_key g) log = Some t ∧ g_now g ≤ t;
}.

(** Reading a bucket keeps what is known of all buckets, and tells its last
    grant unless that is long ago. *)
Lemma get_kept now seen log key d x d' :
  now ≤ seen ≤ now + clockToleranceMicros → buckets_kept d seen log → redis_get now key d = (x, d') →
  buckets_kept d' seen log ∧ (∀ key', key' ≠ key → d' !! key' = d !! key') ∧
  ∀ t, latest key log = Some t → x = Some (Num t) ∨ t + day_us - clockToleranceMicros ≤ now.
Proof.
  intros Hs Hb E. unfold redis_get in E.
  assert (Hdel : ∀ key', key' ≠ key → delete key d !! key' = d !! key') by (intros; by rewrite lookup_delete_ne).
  destruct (d !! key) as [[v e]|] eqn:Ed; [destruct (bool_decide (e < ms_of now)) eqn:Ee; bool_to_prop|]; simplify_eq.
  - split; [|split; [done|]].
    + intros k t Ht. destruct (decide (k = key)) as [->|Hne].
      * right. rewrite lookup_delete_eq. split; [done|]. destruct (Hb key t Ht) as [E|[E _]]; rewrite Ed in E; simplify_eq.
        apply expired_after in Ee. lia.
      * destruct (Hb k t Ht) as [E|[E ?]]; [left|right]; rewrite lookup_delete_ne by done; done.
    + intros t Ht. right. destruct (Hb key t Ht) as [E|[E _]]; rewrite Ed in E; simplify_eq. apply expired_after in Ee.
      unfold clockToleranceMicros in *. lia.
  - split; [done|]. split; [done|]. intros t Ht. left. destruct (Hb key t Ht) as [E|[E _]]; rewrite Ed in E; by simplify_eq.
  - split; [done|]. split; [done|]. intros t Ht. right. destruct (Hb key t Ht) as [E|[_ E]]; [by rewrite Ed in E|].
    unfold clockToleranceMicros in *. lia.
Qed.

Lemma buckets_loop_kept now seen log clock keys intervals allow d a d' :
  now ≤ seen ≤ now + clockToleranceMicros → clock ∉ keys → buckets_kept d seen log →
  buckets_loop now keys intervals allow d = (a, d') →
  buckets_kept d' seen log ∧ d' !! clock = d !! clock ∧
  (∀ at_us, a = Some at_us → allow ≤ at_us ∧
    ∀ key i, (key, i) ∈ zip keys intervals →
      1 ≤ i ∧ ∀ t, latest key log = Some t → t + i ≤ at_us ∨ t + day_us - clockToleranceMicros ≤ now).
Proof.
  intros Hs. revert intervals allow d. induction keys as [|key keys IH]; intros intervals allow d Hc Hb E; simpl in E.
  { simplify_eq. split; [done|]. split; [done|]. intros x [= <-]. split; [done|]. intros ?? Hin. set_solver. }
  apply not_elem_of_cons in Hc as [Hck Hc]. destruct intervals as [|i intervals]; [by simplify_eq|].
  destruct (bool_decide (i < 1)) eqn:Hi; [by simplify_eq|]. bool_to_prop.
  destruct (redis_get now key d) as [x d1] eqn:Eg. destruct (get_kept _ _ _ _ _ _ _ Hs Hb Eg) as (Hb1 & Hd1 & Hx).
  assert (Hnext : ∀ allow', allow ≤ allow' → (∀ t, latest key log = Some t → t + i ≤ allow' ∨ t + day_us - clockToleranceMicros ≤ now) →
    buckets_loop now keys intervals allow' d1 = (a, d') →
    buckets_kept d' seen log ∧ d' !! clock = d !! clock ∧
    (∀ at_us, a = Some at_us → allow ≤ at_us ∧
      ∀ k j, (k, j) ∈ zip (key :: keys) (i :: intervals) →
        1 ≤ j ∧ ∀ t, latest k log = Some t → t + j ≤ at_us ∨ t + day_us - clockToleranceMicros ≤ now)).
  { intros allow' Hle Hk E'. destruct (IH _ _ _ Hc Hb1 E') as (Hb' & Hd' & Ha). split; [done|].
    split; [by rewrite Hd', Hd1|]. intros at_us Hat. destruct (Ha at_us Hat) as [Hle' Hz]. split; [lia|].
    intros k j [[= -> ->]|Hin]%elem_of_cons; [|by apply Hz]. split; [lia|]. intros t Ht. destruct (Hk t Ht); [left; lia|by right]. }
  destruct x as [[last|]|].
  - apply (Hnext (Z.max allow (last + i))); [lia| |done]. intros t Ht. destruct (Hx t Ht) as [[= ->]|?]; [left; lia|by right].
  - simplify_eq. split; [done|]. split; [by apply Hd1|]. discriminate.
  - apply (Hnext (Z.max allow now)); [lia| |done]. intros t Ht. destruct (Hx t Ht) as [|?]; [done|by right].
Qed.

(** *** The log grows by grants of distinct buckets *)

Lemma spaced_cons g log :
  spaced log → (∀ g1, g1 ∈ log → g_key g1 = g_key g → apart (g_now g1) (g_now g) (g_interval g)) → spaced (g :: log).
Proof. intros Hl Hg [|x l1] g2 l2 g1 E Hin Hk; simplify_eq/=; [by apply Hg|by eapply Hl]. Qed.

Lemma spaced_app zs log :
  NoDup (g_key <$> zs) → spaced log →
  (∀ g2 g1, g2 ∈ zs → g1 ∈ log → g_key g1 = g_key g2 → apart (g_now g1) (g_now g2) (g_interval g2)) → spaced (zs ++ log).
Proof.
  induction zs as [|z zs IH]; simpl; intros Hnd Hl Hz; [done|]. apply NoDup_cons in Hnd as [Hni Hnd].
  apply spaced_cons; [apply IH; set_solver|]. intros g1 [Hin|Hin]%elem_of_app Hk; [|by apply Hz; [apply list_elem_of_here|..]].
  exfalso. apply Hni. rewrite <- Hk. by apply list_elem_of_fmap_2.
Qed.

Lemma latest_app key zs log : latest key (zs ++ log) = match latest key zs with Some t => Some t | None => latest key log end.
Proof. induction zs as [|z zs IH]; simpl; [done|]. by destruct (bool_decide _). Qed.

Lemma latest_none key log : key ∉ g_key <$> log → latest key log = None.
Proof. induction log as [|g log IH]; simpl; [done|]. intros [? ?]%not_elem_of_cons. rewrite bool_decide_false by done. auto. Qed.

Section granted.
Context (now : Z).

Definition granted (keys : list text) (intervals : list Z) : list grant :=
  zip_with (λ k i, {| g_now := now; g_key := k; g_interval := i |}) keys intervals.

Lemma granted_keys keys intervals : (length keys ≤ length intervals)%nat → g_key <$> granted keys intervals = keys.
Proof.
  revert intervals. induction keys as [|k keys IH]; intros [|i intervals]; simpl; intros; [done..|lia|]. f_equal. apply IH. lia.
Qed.

Lemma granted_elem keys intervals g : g ∈ granted keys intervals → g_now g = now ∧ (g_key g, g_interval g) ∈ zip keys intervals.
Proof.
  revert intervals. induction keys as [|k keys IH]; intros [|i intervals]; simpl; [set_solver..|].
  intros [->|Hin]%elem_of_cons; simpl; [split; [done|apply list_elem_of_here]|].
  destruct (IH _ Hin) as [??]. split; [done|]. by apply list_elem_of_further.
Qed.

Lemma granted_latest keys intervals key :
  (length keys ≤ length intervals)%nat → latest key (granted keys intervals) = if bool_decide (key ∈ keys) then Some now else None.
Proof.
  revert intervals. induction keys as [|k keys IH]; intros [|i intervals]; simpl; intros Hl; try lia; [done..|].
  destruct (decide (k = key)) as [->|Hne].
  - rewrite !bool_decide_true; [done|apply list_elem_of_here|done].
  - rewrite (bool_decide_false (k = key)) by done. rewrite IH by lia. repeat case_bool_decide; set_solver.
Qed.

Lemma set_all_lookup keys d key :
  foldl (λ d key, redis_set now key now stateTTLMillis d) d keys !! key =
    if bool_decide (key ∈ keys) then Some (Num now, ms_of now + stateTTLMillis) else d !! key.
Proof.
  revert d. induction keys as [|k keys IH]; intros d; simpl; [done|]. rewrite IH. unfold redis_set.
  destruct (decide (k = key)) as [->|Hne].
  - rewrite lookup_insert_eq. repeat case_bool_decide; set_solver.
  - rewrite lookup_insert_ne by done. repeat case_bool_decide; set_solver.
Qed.
End granted.

Lemma buckets_loop_length now keys intervals allow d at_us d' :
  buckets_loop now keys intervals allow d = (Some at_us, d') → (length keys ≤ length intervals)%nat.
Proof.
  revert intervals allow d. induction keys as [|k keys IH]; intros intervals allow d E; simpl in *; [lia|].
  destruct intervals as [|i intervals]; [done|]. case_bool_decide; [done|]. destruct (redis_get _ _ _) as [[[n|]|] d1];
    simplify_eq; apply IH in E; simpl; lia.
Qed.

(** The clock reading is accepted: what is known before the buckets are read. *)
Lemma accepted_kept clock d log now mark d1 high :
  kept clock d log → redis_get now clock d = (mark, d1) →
  (mark = None ∧ high = now ∨
   ∃ n, mark = Some (Num n) ∧ n - clockToleranceMicros ≤ now ∧ high = if bool_decide (now < n) then n else now) →
  ∃ seen, now ≤ seen ≤ now + clockToleranceMicros ∧
    clock_kept clock (redis_set now clock high stateTTLMillis d1) seen now ∧
    buckets_kept (redis_set now clock high stateTTLMillis d1) seen log.
Proof.
  intros [Hf Hc _ _] Eg Hmark.
  assert (Hh : now ≤ high ≤ now + clockToleranceMicros).
  { unfold clockToleranceMicros in *. destruct Hmark as [[_ ->]|(n & _ & ? & ->)]; repeat case_bool_decide; lia. }
  assert (Hset : ∀ seen, seen ≤ high → clock_kept clock (redis_set now clock high stateTTLMillis d1) seen now).
  { intros seen Hle. exists high. unfold redis_set. rewrite lookup_insert_eq. split; [done|lia]. }
  destruct Hf as [->|(seen & last & (mk & Emk & Hmk) & Hb)]; [exists now; split; [lia|]; split; [apply Hset; lia|done]|].
  unfold redis_get in Eg. rewrite Emk in Eg.
  assert (Hd1 : ∀ key, key ≠ clock → redis_set now clock high stateTTLMillis d1 !! key = d !! key).
  { intros key Hne. unfold redis_set. rewrite lookup_insert_ne by done. destruct (bool_decide _); simplify_eq; [|done].
    by rewrite lookup_delete_ne. }
  assert (Hseen : seen ≤ high).
  { destruct (bool_decide (ms_of last + stateTTLMillis < ms_of now)) eqn:Ee; simplify_eq; bool_to_prop.
    - apply expired_after in Ee. unfold day_us, stateTTLMillis, clockToleranceMicros in *. lia.
    - destruct Hmark as [[? _]|(n & [= ->] & ? & ->)]; [done|]. case_bool_decide; lia. }
  exists (Z.max seen now). split; [lia|]. split; [apply Hset; lia|].
  intros key t Ht. destruct (decide (key = clock)) as [->|Hne]; [congruence|].
  destruct (Hb key t Ht) as [E|[E ?]]; [left|right]; rewrite Hd1 by done; [done|]. split; [done|lia].
Qed.

Definition script_grants (now : Z) (buckets : list text) (intervals : list Z) (reply : script_reply) : list grant :=
  match reply with Reply 1 _ => granted now buckets intervals | _ => [] end.

Lemma grant_latest buckets intervals now log :
  (length buckets ≤ length intervals)%nat → (∀ g, g ∈ log → ∃ t, latest (g_key g) log = Some t ∧ g_now g ≤ t) →
  (∀ g, g ∈ log → g_key g ∈ buckets → g_now g ≤ now) →
  ∀ g, g ∈ granted now buckets intervals ++ log →
    ∃ t, latest (g_key g) (granted now buckets intervals ++ log) = Some t ∧ g_now g ≤ t.
Proof.
  intros Hlen Hl Hb g Hin. rewrite latest_app, granted_latest by done. case_bool_decide as Hk.
  - exists now. split; [done|]. apply elem_of_app in Hin as [Hin|Hin]; [|by apply Hb].
    destruct (granted_elem _ _ _ _ Hin) as [-> _]. lia.
  - apply elem_of_app in Hin as [Hin|Hin]; [|by apply Hl]. exfalso. apply Hk.
    rewrite <- (granted_keys now buckets intervals) by done. by apply list_elem_of_fmap_2.
Qed.

Lemma admit_kept clock d1 log now high buckets intervals reply d' seen :
  clock ∉ buckets → NoDup buckets → latest clock log = None → spaced log →
  (∀ g, g ∈ log → ∃ t, latest (g_key g) log = Some t ∧ g_now g ≤ t) →
  now ≤ seen ≤ now + clockToleranceMicros →
  clock_kept clock (redis_set now clock high stateTTLMillis d1) seen now →
  buckets_kept (redis_set now clock high stateTTLMillis d1) seen log →
  script_admit now clock buckets high stateTTLMillis intervals d1 = (reply, d') →
  kept clock d' (script_grants now buckets intervals reply ++ log).
Proof.
  intros Hc Hnd Hlc Hsp Hl Hs Hck Hbk E. unfold script_admit in E. set (d2 := redis_set _ _ _ _ _) in *.
  destruct (buckets_loop now buckets intervals now d2) as [a d3] eqn:Eb.
  destruct (buckets_loop_kept _ _ _ _ _ _ _ _ _ _ Hs Hc Hbk Eb) as (Hb3 & Hc3 & Ha).
  assert (Hck3 : clock_kept clock d3 seen now) by (destruct Hck as (mk & ? & ?); exists mk; by rewrite Hc3).
  destruct a as [at_us|]; [|simplify_eq; split; simpl; eauto 6].
  case_bool_decide as Hat; simplify_eq; [split; simpl; eauto 6|]. simpl.
  destruct (Ha at_us eq_refl) as [Hle Hz]. pose proof (buckets_loop_length _ _ _ _ _ _ _ Eb) as Hlen.
  assert (Hold : ∀ g1 i, g1 ∈ log → (g_key g1, i) ∈ zip buckets intervals → 1 ≤ i ∧ apart (g_now g1) now i).
  { intros g1 i H1 H2. destruct (Hz _ _ H2) as [Hi Ht]. destruct (Hl g1 H1) as (t & Et & Hgt). split; [done|].
    unfold apart. destruct (Ht t Et); [left|right]; lia. }
  split.
  - right. exists seen, now. split.
    + destruct Hck3 as (mk & Emk & Hmk). exists mk. split; [|done]. rewrite set_all_lookup. by rewrite bool_decide_false.
    + intros key t. rewrite latest_app, granted_latest by done. unfold bucket_kept. rewrite set_all_lookup.
      case_bool_decide; [intros [= <-]; by left|apply Hb3].
  - rewrite latest_app, granted_latest by done. by rewrite bool_decide_false.
  - apply spaced_app; [by rewrite granted_keys|done|]. intros g2 g1 H2 H1 Hk.
    destruct (granted_elem _ _ _ _ H2) as [-> Hin]. rewrite <- Hk in Hin. by apply Hold.
  - apply grant_latest; [done|done|]. intros g Hg Hk.
    assert (∃ i, (g_key g, i) ∈ zip buckets intervals) as [i Hi].
    { rewrite <- (granted_keys now buckets intervals) in Hk by done. apply list_elem_of_fmap in Hk as (g' & Eg' & Hg').
      destruct (granted_elem _ _ _ _ Hg') as [_ Hin]. rewrite <- Eg' in Hin. eauto. }
    destruct (Hold g i Hg Hi) as [? [?|?]]; unfold day_us, stateTTLMillis, clockToleranceMicros in *; lia.
Qed.

Lemma script_kept clock d log now buckets intervals reply d' :
  clock ∉ buckets → NoDup buckets → kept clock d log →
  pacingScript now (clock :: buckets) clockToleranceMicros stateTTLMillis intervals d = (reply, d') →
  kept clock d' (script_grants now buckets intervals reply ++ log).
Proof.
  intros Hc Hnd Hk E. unfold pacingScript in E. destruct (_ || _ || _)%bool; [by simplify_eq|].
  destruct (redis_get now clock d) as [mark d1] eqn:Eg.
  assert (Hsame : ∀ v, mark = Some v → d1 = d) by (unfold redis_get in Eg; intros; repeat case_match; by simplify_eq).
  pose proof Hk as [_ Hlc Hsp Hl]. destruct mark as [[n|]|].
  - case_bool_decide as Hn; [simplify_eq; by rewrite (Hsame _ eq_refl)|].
    destruct (accepted_kept _ _ _ _ _ _ _ Hk Eg (or_intror (ex_intro _ n (conj eq_refl (conj (proj1 (Z.nlt_ge _ _) Hn) eq_refl)))))
      as (seen & Hs & Hck & Hbk). by eapply admit_kept.
  - simplify_eq. by rewrite (Hsame _ eq_refl).
  - destruct (accepted_kept _ _ _ _ _ _ now Hk Eg (or_introl (conj eq_refl eq_refl))) as (seen & Hs & Hck & Hbk).
    by eapply admit_kept.
Qed.

(** *** Calls *)

Lemma clock_not_bucket p b : bucket_key p b ≠ clock_key p.
Proof.
  unfold bucket_key, clock_key. intros E%app_inv_head. assert (Hin : 58 ∈ clockSuffix).
  { rewrite <- E. apply elem_of_app. right. apply elem_of_app. left. apply list_elem_of_here. }
  vm_compute in Hin. repeat (apply elem_of_cons in Hin as [Hin|Hin]; [discriminate|]). by apply not_elem_of_nil in Hin.
Qed.

Lemma bucket_keys_ok p seen bs keys :
  bucket_keys p seen bs = Ok keys → keys = bucket_key p <$> bs ∧ NoDup keys ∧ (∀ k, k ∈ keys → k ∉ seen).
Proof.
  revert seen keys. induction bs as [|b bs IH]; intros seen keys E; simpl in E.
  { injection E as <-. split; [done|]. split; [constructor|]. intros k Hk. by apply not_elem_of_nil in Hk. }
  destruct (_ || _ || _)%bool; [done|]. case_bool_decide as Hs; [done|]. unfold mbind, result_bind in E.
  destruct (bucket_keys p (bucket_key p b :: seen) bs) as [ks|] eqn:Ek; [|done]. injection E as <-.
  destruct (IH _ _ Ek) as (-> & Hnd & Hd). split; [done|]. split.
  - apply NoDup_cons. split; [|done]. intros Hin. apply (Hd _ Hin), list_elem_of_here.
  - intros k [->|Hin]%elem_of_cons; [done|]. intros Hk. apply (Hd _ Hin). by apply list_elem_of_further.
Qed.

Lemma keysFor_ok p bs keys :
  keysFor p bs = Ok keys → keys = clock_key p :: (bucket_key p <$> bs) ∧ (clock_key p ∉ (bucket_key p <$> bs)) ∧ NoDup (bucket_key p <$> bs).
Proof.
  unfold keysFor. intros E. destruct bs as [|b bs]; [done|]. unfold mbind, result_bind in E.
  destruct (bucket_keys p [] (b :: bs)) as [ks|] eqn:Ek; [|done]. injection E as <-.
  destruct (bucket_keys_ok _ _ _ _ Ek) as (-> & Hnd & _). split; [done|]. split; [|done].
  intros (b' & E' & _)%list_elem_of_fmap. by apply (clock_not_bucket p b').
Qed.

(** A turn is one run of the script, or leaves the server alone. *)
Lemma Acquire_script c d :
  (Acquire (c_pacer c) (c_buckets c) (c_round c) d).2 =
    match script_args c with
    | Some (keys, intervals) => (pacingScript (r_now (c_round c)) keys clockToleranceMicros stateTTLMillis intervals d).2
    | None => d
    end.
Proof.
  unfold Acquire, script_args, acquire_turn, evaluate. destruct (keysFor _ _) as [keys|]; [|done].
  destruct (r_ended _); [done|]. destruct (intervalsFor _ _) as [[intervals []]|]; [done| |done].
  destruct (r_trip _); simpl; try done; destruct (pacingScript _ _ _ _ _ _) as [reply d']; done.
Qed.

(** The clock key of all pacers with a prefix. *)
Definition clock_of (prefix : text) : text := (keyRoot ++ txt "{" ++ prefix ++ txt "}:") ++ clockSuffix.

Lemma call_kept prefix c d log :
  p_prefix (c_pacer c) = prefix → kept (clock_of prefix) d log →
  kept (clock_of prefix) (do_call (d, log) c).1 (do_call (d, log) c).2.
Proof.
  intros Hp Hk. unfold do_call. simpl. rewrite Acquire_script. unfold grants_of.
  destruct (script_args c) as [[keys intervals]|] eqn:Ea; [|done]. unfold script_args in Ea.
  destruct (keysFor _ _) as [keys'|] eqn:Ek; [|done]. destruct (keysFor_ok _ _ _ Ek) as (-> & Hc & Hnd).
  assert (keys = clock_key (c_pacer c) :: (bucket_key (c_pacer c) <$> c_buckets c)) as ->.
  { repeat case_match; by simplify_eq. }
  assert (Eck : clock_key (c_pacer c) = clock_of prefix) by (unfold clock_of, clock_key, keyspace; by rewrite Hp).
  destruct (pacingScript _ _ _ _ _ _) as [reply d'] eqn:Es. rewrite <- Eck in Hk |- *.
  exact (script_kept _ _ _ _ _ _ _ _ Hc Hnd Hk Es).
Qed.

Lemma run_kept prefix cs d log :
  Forall (λ c, p_prefix (c_pacer c) = prefix) cs → kept (clock_of prefix) d log →
  let s := foldl do_call (d, log) cs in kept (clock_of prefix) s.1 s.2.
Proof.
  intros Hcs. revert d log. induction Hcs as [|c cs Hc _ IH]; intros d log Hk; simpl; [done|].
  pose proof (call_kept _ _ _ _ Hc Hk) as Hk'. destruct (do_call (d, log) c) as [d' log'].
  by apply IH.
Qed.

Lemma kept_start clock d : kept clock d [].
Proof. split; [by left|done| |]; [intros [|??]; discriminate|]. intros g Hg. by apply not_elem_of_nil in Hg. Qed.

(** *** A permit is a grant in every bucket *)

Lemma intervalsFor_ok p rates intervals :
  intervalsFor p rates = Ok (intervals, false) → ∃ rs, rates = Some <$> rs ∧ intervals = intervalMicros <$> rs.
Proof.
  revert intervals. induction rates as [|[rate|] rates IH]; intros intervals E; simpl in E; [|unfold mbind, result_bind in E|done].
  - injection E as <-. by exists [].
  - destruct (validateRate p rate); [|done]. destruct (intervalsFor p rates) as [[is_ b]|]; [|done].
    destruct (is_zero rate); [done|]. injection E as <- ->. destruct (IH _ eq_refl) as (rs & -> & ->). by exists (rate :: rs).
Qed.

Lemma script_granted now clock buckets tol ttl intervals d w d' :
  pacingScript now (clock :: buckets) tol ttl intervals d = (Reply 1 w, d') → (length buckets ≤ length intervals)%nat.
Proof.
  unfold pacingScript, script_admit. intros E. repeat case_match; simplify_eq; by eapply buckets_loop_length.
Qed.

Lemma permit_grants c d :
  (Acquire (c_pacer c) (c_buckets c) (c_round c) d).1 = Return (Ok tt) →
  ∃ rs, r_rates (c_round c) = Some <$> rs ∧ (length (c_buckets c) ≤ length rs)%nat ∧
    grants_of c d = granted (r_now (c_round c)) (bucket_key (c_pacer c) <$> c_buckets c) (intervalMicros <$> rs).
Proof.
  unfold Acquire, grants_of, script_args, acquire_turn, evaluate, sleep.
  destruct (keysFor _ _) as [keys|] eqn:Ek; [|done]. destruct (keysFor_ok _ _ _ Ek) as (-> & _ & _).
  destruct (r_ended _); [done|]. destruct (intervalsFor _ _) as [[intervals []]|] eqn:Ei; [by destruct (r_wakes _)| |done].
  destruct (intervalsFor_ok _ _ _ Ei) as (rs & Hrs & ->). destruct (r_trip _); [done..|].
  destruct (pacingScript _ _ _ _ _ _) as [reply d'] eqn:Es. simpl. intros E. exists rs. split; [done|].
  destruct reply as [| |granted wait]; [done..|]. unfold parseEvaluation in E.
  destruct (bool_decide (granted = 1)) eqn:Eg; bool_to_prop.
  - subst granted. apply script_granted in Es. rewrite !length_fmap in Es. split; done.
  - exfalso. destruct (_ || _)%bool; [done|]. by destruct (r_wakes _).
Qed.

Lemma run_log d log cs : ∃ l, (foldl do_call (d, log) cs).2 = l ++ log.
Proof.
  revert d log. induction cs as [|c cs IH]; intros d log; simpl; [by exists []|]. unfold do_call at 2. simpl.
  destruct (IH (Acquire (c_pacer c) (c_buckets c) (c_round c) d).2 (grants_of c d ++ log)) as [l ->].
  exists (l ++ grants_of c d). by rewrite <- app_assoc.
Qed.

(** The server a call of a sequence finds. *)
Definition server_at (d : server) (before : list call) : server := (run_calls d before).1.

(** C20: Outbound calls are paced.  Whatever the server's clock readings, the order of the turns of all processes
    under one prefix, lost replies, failing providers and changing rates: when two calls that share a bucket
    both got a permit, the later one came at least one emission interval of its own current rate after the
    earlier one, by the server's clock, or a day (less the clock tolerance) after it. *)
Theorem outbound_calls_are_spaced prefix d cs1 c1 cs2 c2 cs3 b1 j b2 rate :
  Forall (λ c, p_prefix (c_pacer c) = prefix) (cs1 ++ c1 :: cs2 ++ c2 :: cs3) →
  (Acquire (c_pacer c1) (c_buckets c1) (c_round c1) (server_at d cs1)).1 = Return (Ok tt) →
  (Acquire (c_pacer c2) (c_buckets c2) (c_round c2) (server_at d (cs1 ++ c1 :: cs2))).1 = Return (Ok tt) →
  b1 ∈ c_buckets c1 → c_buckets c2 !! j = Some b2 → r_rates (c_round c2) !! j = Some (Some rate) →
  bucket_key (c_pacer c1) b1 = bucket_key (c_pacer c2) b2 →
  apart (r_now (c_round c1)) (r_now (c_round c2)) (intervalMicros rate).
Proof.
  intros Hp H1 H2 Hb1 Hb2 Hr Hk.
  pose proof (run_kept prefix (cs1 ++ c1 :: cs2 ++ [c2]) d []) as Hkept.
  assert (Hp' : Forall (λ c, p_prefix (c_pacer c) = prefix) (cs1 ++ c1 :: cs2 ++ [c2])).
  { rewrite !Forall_app, !Forall_cons, !Forall_app, !Forall_cons in *. naive_solver. }
  destruct (Hkept Hp' (kept_start _ _)) as [_ _ Hsp _]. clear Hkept.
  replace (cs1 ++ c1 :: cs2 ++ [c2]) with ((cs1 ++ c1 :: cs2) ++ [c2]) in Hsp by (by rewrite <- app_assoc).
  rewrite foldl_app in Hsp. unfold server_at, run_calls in *. cbn [foldl] in Hsp.
  destruct (permit_grants _ _ H2) as (rs2 & E2 & L2 & G2). destruct (permit_grants _ _ H1) as (rs1 & E1 & L1 & G1).
  unfold do_call at 1 in Hsp. cbn [snd] in Hsp. rewrite G2 in Hsp.
  set (g2 := {| g_now := r_now (c_round c2); g_key := bucket_key (c_pacer c2) b2; g_interval := intervalMicros rate |}).
  assert (Hg2 : g2 ∈ granted (r_now (c_round c2)) (bucket_key (c_pacer c2) <$> c_buckets c2) (intervalMicros <$> rs2)).
  { apply list_elem_of_lookup_2 with j. unfold granted. rewrite lookup_zip_with, !list_lookup_fmap, Hb2. simpl.
    rewrite E2, list_lookup_fmap in Hr. destruct (rs2 !! j) as [r|]; simplify_eq/=. done. }
  apply list_elem_of_split in Hg2 as (l1 & l2 & El). rewrite El in Hsp. rewrite <- app_assoc in Hsp. cbn [app] in Hsp.
  assert (Hg1 : ∃ g1, g1 ∈ (foldl do_call (d, []) (cs1 ++ c1 :: cs2)).2 ∧ g_now g1 = r_now (c_round c1) ∧ g_key g1 = g_key g2).
  { assert (Hin : bucket_key (c_pacer c1) b1 ∈ g_key <$> grants_of c1 (foldl do_call (d, []) cs1).1).
    { rewrite G1, granted_keys by (by rewrite !length_fmap). by apply list_elem_of_fmap_2. }
    apply list_elem_of_fmap in Hin as (g1 & Eg1 & Hg1). exists g1.
    assert (Hg1' := Hg1). rewrite G1 in Hg1'. destruct (granted_elem _ _ _ _ Hg1') as [En _].
    split; [|split; [done|simpl; congruence]]. rewrite foldl_app. simpl.
    destruct (foldl do_call (d, []) cs1) as [d1 log1]. simpl in *. unfold do_call at 2. simpl.
    destruct (run_log (Acquire (c_pacer c1) (c_buckets c1) (c_round c1) d1).2 (grants_of c1 d1 ++ log1) cs2) as [l ->].
    apply elem_of_app. right. apply elem_of_app. by left. }
  destruct Hg1 as (g1 & Hin & En & Ekey). rewrite <- En.
  apply (Hsp l1 g2 (l2 ++ (foldl do_call (d, []) (cs1 ++ c1 :: cs2)).2) g1); [done| |done].
  apply elem_of_app. by right.
Qed.

(** ** A call that is due is permitted *)

(** A bucket admits a call of this interval now. *)
Definition due (now : Z) (d : server) (key : text) (interval : Z) : Prop :=
  match (redis_get now key d).1 with None => True | Some (Num last) => last + interval ≤ now | Some Junk => False end.

Definition clock_ok (now : Z) (d : server) (clock : text) : Prop :=
  match (redis_get now clock d).1 with None => True | Some (Num mark) => mark - clockToleranceMicros ≤ now | Some Junk => False end.

Lemma redis_get_other now key d key' : key' ≠ key → (redis_get now key d).2 !! key' = d !! key'.
Proof. intros. unfold redis_get. repeat case_match; simpl; try done. by rewrite lookup_delete_ne. Qed.

Lemma due_other now d d' key i : d' !! key = d !! key → due now d key i → due now d' key i.
Proof. unfold due, redis_get. intros ->. destruct (d !! key) as [[v e]|]; [|done]. by case_bool_decide. Qed.

Lemma buckets_loop_due now keys intervals d :
  NoDup keys → length keys = length intervals → Forall (λ i, 1 ≤ i) intervals →
  (∀ key i, (key, i) ∈ zip keys intervals → due now d key i) →
  (buckets_loop now keys intervals now d).1 = Some now.
Proof.
  revert intervals d. induction keys as [|key keys IH]; intros intervals d Hnd Hl Hi Hd; simpl; [done|].
  destruct intervals as [|i intervals]; [done|]. apply NoDup_cons in Hnd as [Hni Hnd]. apply Forall_cons in Hi as [Hi1 Hi].
  rewrite bool_decide_false by lia. pose proof (Hd key i (list_elem_of_here _ _)) as Hk. unfold due in Hk.
  pose proof (λ k, redis_get_other now key d k) as Ho. destruct (redis_get now key d) as [x d1]. simpl in Hk, Ho.
  assert (Hd1 : ∀ k j, (k, j) ∈ zip keys intervals → due now d1 k j).
  { intros k j Hin. apply (due_other now d); [|by apply Hd, list_elem_of_further]. apply Ho. intros ->.
    apply Hni. apply elem_of_zip_l in Hin. done. }
  simpl in Hl. destruct x as [[last|]|]; [|done|].
  - rewrite Z.max_l by lia. apply IH; [done|lia|done|done].
  - rewrite Z.max_id. apply IH; [done|lia|done|done].
Qed.

(** A call whose buckets are all due is permitted at once: with readable state, a clock that did not step
    back, usable rates and an answering server, one turn returns the permit. *)
Theorem due_call_is_permitted p bs r d keys intervals :
  keysFor p bs = Ok keys → r_ended r = false → r_trip r = Replied →
  intervalsFor p (r_rates r) = Ok (intervals, false) → length bs = length intervals → Forall (λ i, 1 ≤ i) intervals →
  clock_ok (r_now r) d (clock_key p) →
  (∀ key i, (key, i) ∈ zip (bucket_key p <$> bs) intervals → due (r_now r) d key i) →
  (Acquire p bs r d).1 = Return (Ok tt).
Proof.
  intros Ek He Ht Ei Hl Hi Hc Hd. unfold Acquire. rewrite Ek. destruct (keysFor_ok _ _ _ Ek) as (-> & Hnc & Hnd).
  unfold acquire_turn. rewrite He, Ei. unfold evaluate. rewrite Ht.
  assert (Hbs : bs ≠ []) by (intros ->; done).
  assert (Hs : ∀ high d1, (∀ key, key ≠ clock_key p → d1 !! key = d !! key) →
    (script_admit (r_now r) (clock_key p) (bucket_key p <$> bs) high stateTTLMillis intervals d1).1 = Reply 1 0).
  { intros high d1 Hd1. unfold script_admit.
    pose proof (buckets_loop_due (r_now r) (bucket_key p <$> bs) intervals (redis_set (r_now r) (clock_key p) high stateTTLMillis d1)) as Hb.
    destruct (buckets_loop _ _ _ _ _) as [a d2]. simpl in Hb. rewrite Hb; [|done|by rewrite length_fmap|done|].
    - by rewrite bool_decide_false by lia.
    - intros key i Hin. apply (due_other _ d); [|by apply Hd]. assert (key ≠ clock_key p).
      { intros ->. apply elem_of_zip_l in Hin. done. }
      unfold redis_set. rewrite lookup_insert_ne by done. by apply Hd1. }
  assert (Hp : (pacingScript (r_now r) (clock_key p :: (bucket_key p <$> bs)) clockToleranceMicros stateTTLMillis intervals d).1
    = Reply 1 0).
  { unfold pacingScript. rewrite length_fmap. rewrite !bool_decide_false; [|destruct bs; simpl; [done|lia]|done..]. simpl.
    unfold clock_ok in Hc. pose proof (λ k, redis_get_other (r_now r) (clock_key p) d k) as Ho.
    destruct (redis_get (r_now r) (clock_key p) d) as [x d1]. simpl in Hc, Ho.
    destruct x as [[n|]|]; [|done|by apply Hs]. rewrite bool_decide_false by lia. by apply Hs. }
  destruct (pacingScript _ _ _ _ _ _) as [reply d']. simpl in *. by subst reply.
Qed.

(** ** Witnesses *)

Definition ex_pacer : Pacer := {| p_prefix := txt "app"; p_maxRate := DefaultMaxRate; p_pollInterval := DefaultPollInterval |}.
Definition ex_buckets : list Bucket :=
  [{| b_namespace := namespaceTenant; b_digest := txt "0a1b"; b_rate := true |};
   {| b_namespace := namespaceInstitution; b_digest := txt "2c3d"; b_rate := true |}].
Definition ex_round (now : Z) : round :=
  {| r_ended := false; r_rates := [Some (of_int 2); Some (of_int 4)]; r_now := now; r_trip := Replied;
     r_ended_after := false; r_wakes := true |}.
Definition ex_call (now : Z) : call := {| c_pacer := ex_pacer; c_buckets := ex_buckets; c_round := ex_round now |}.

(** Two permits half a second apart; a call in between is refused. *)
Lemma outbound_calls_are_spaced_witness :
  (Acquire ex_pacer ex_buckets (ex_round 1200000) (server_at ∅ [ex_call 1000000])).1 = Again (250 * Millisecond) ∧
  apart 1000000 1500000 (intervalMicros (of_int 2)).
Proof.
  split; [vm_compute; reflexivity|].
  apply (outbound_calls_are_spaced (txt "app") ∅ [] (ex_call 1000000) [ex_call 1200000] (ex_call 1500000) []
    {| b_namespace := namespaceTenant; b_digest := txt "0a1b"; b_rate := true |} 0%nat
    {| b_namespace := namespaceTenant; b_digest := txt "0a1b"; b_rate := true |} (of_int 2)).
  - repeat constructor.
  - vm_compute. reflexivity.
  - vm_compute. reflexivity.
  - apply list_elem_of_here.
  - reflexivity.
  - reflexivity.
  - reflexivity.
Defined.

Lemma due_call_is_permitted_witness :
  (Acquire ex_pacer ex_buckets (ex_round 7) ∅).1 = Return (Ok tt).
Proof.
  apply (due_call_is_permitted ex_pacer ex_buckets (ex_round 7) ∅ (from_ok [] (keysFor ex_pacer ex_buckets)) [500000; 250000]);
    try (vm_compute; reflexivity).
  repeat constructor; lia.
Defined.
