(* ===== verification/RateLimit.v ===== *)
(** Inbound rate limiting: [net/http/ratelimit/*.go] and the tenant keys of
    [tenant-manager/valkey/keys.go].

    A window is a counter with an expiry in a shared Redis.  The server is a
    finite map; a script runs at a reading of the server's clock in
    milliseconds.  Environment variables are read by a function; faults of the
    network are an argument of a call. *)

From stdpp Require Import base numbers list gmap strings sets.
From S2P Require Import Prelude GoText OutboxEvent.

Local Open Scope Z_scope.
Local Open Scope go_scope.

(** ** Tiers *)

Definition fallbackDefaultMax : Z := 500.
Definition fallbackAggressiveMax : Z := 100.
Definition fallbackRelaxedMax : Z := 1000.
Definition fallbackWindowSec : Z := 60.
Definition fallbackRedisTimeoutMS : Z := 500.
Definition maxLoggedMisconfiguredTiers : nat := 1024.
Definition keyPrefix_ : text := txt "ratelimit:".
Definition TenantKeyPrefix : text := txt "tenant".

Record Tier := { t_name : text; t_max : Z; t_window : duration }.

(** [commons.GetenvIntOrDefault]: the value of a variable that is an integer. *)
Abbreviation environ := (text → option Z).
Definition GetenvIntOrDefault (env : environ) (name : text) (default : Z) : Z :=
  match env name with Some n => n | None => default end.

Definition tier_of (env : environ) (name max_var : text) (max : Z) (window_var : text) : Tier :=
  {| t_name := name; t_max := GetenvIntOrDefault env max_var max;
     t_window := wrap64 (GetenvIntOrDefault env window_var fallbackWindowSec * Second) |}.

Definition DefaultTier (env : environ) : Tier :=
  tier_of env (txt "default") (txt "RATE_LIMIT_MAX") fallbackDefaultMax (txt "RATE_LIMIT_WINDOW_SEC").
Definition AggressiveTier (env : environ) : Tier :=
  tier_of env (txt "aggressive") (txt "AGGRESSIVE_RATE_LIMIT_MAX") fallbackAggressiveMax (txt "AGGRESSIVE_RATE_LIMIT_WINDOW_SEC").
Definition RelaxedTier (env : environ) : Tier :=
  tier_of env (txt "relaxed") (txt "RELAXED_RATE_LIMIT_MAX") fallbackRelaxedMax (txt "RELAXED_RATE_LIMIT_WINDOW_SEC").

(** [Duration.Milliseconds] *)
Definition Milliseconds (d : duration) : Z := d `quot` Millisecond.

Inductive tier_refusal := invalidWindowMessage | invalidMaxMessage.

#[export] Instance tier_refusal_eq_dec : EqDecision tier_refusal.
Proof. solve_decision. Defined.

Definition tierRefusalMessage (tier : Tier) : option tier_refusal :=
  if (bool_decide (t_window tier ≤ 0) || bool_decide (Milliseconds (t_window tier) = 0))%bool then Some invalidWindowMessage
  else if bool_decide (t_max tier ≤ 0) then Some invalidMaxMessage
  else None.

(** ** The limiter *)

Record RateLimiter := {
  rl_keyPrefix : text;
  rl_identity : bool;               (* a custom identity function *)
  rl_failOpen : bool;
  rl_onLimited : bool;
  rl_exceededHandler : bool;
  rl_refusalHandler : bool;
  rl_redisTimeout : duration;
  rl_enabled : option bool;
  rl_loggedMisconfiguredTiers : list (text * tier_refusal);
  rl_misconfigLogSaturated : bool;
}.

#[export] Instance RateLimiter_eta : Eta RateLimiter := λ rl,
  {| rl_keyPrefix := rl_keyPrefix rl; rl_identity := rl_identity rl; rl_failOpen := rl_failOpen rl;
     rl_onLimited := rl_onLimited rl; rl_exceededHandler := rl_exceededHandler rl; rl_refusalHandler := rl_refusalHandler rl;
     rl_redisTimeout := rl_redisTimeout rl; rl_enabled := rl_enabled rl;
     rl_loggedMisconfiguredTiers := rl_loggedMisconfiguredTiers rl; rl_misconfigLogSaturated := rl_misconfigLogSaturated rl |}.

Definition WithEnabled (enabled : bool) (rl : RateLimiter) : RateLimiter := rl <| rl_enabled := Some enabled |>.
Definition WithKeyPrefix (prefix : text) (rl : RateLimiter) : RateLimiter := rl <| rl_keyPrefix := prefix |>.
Definition WithIdentityFunc (fn : bool) (rl : RateLimiter) : RateLimiter := if fn then rl <| rl_identity := true |> else rl.
Definition WithFailOpen (failOpen : bool) (rl : RateLimiter) : RateLimiter := rl <| rl_failOpen := failOpen |>.
Definition WithOnLimited (fn : bool) (rl : RateLimiter) : RateLimiter := rl <| rl_onLimited := fn |>.
Definition WithExceededHandler (fn : bool) (rl : RateLimiter) : RateLimiter :=
  if fn then rl <| rl_exceededHandler := true |> else rl.
Definition WithRefusalHandler (fn : bool) (rl : RateLimiter) : RateLimiter :=
  if fn then rl <| rl_refusalHandler := true |> else rl.
Definition WithRedisTimeout (d : duration) (rl : RateLimiter) : RateLimiter :=
  if bool_decide (0 < d) then rl <| rl_redisTimeout := d |> else rl.

(** [New]; the two flags are [AllowRateLimitFailOpen] and [RateLimitEnabled]. *)
Definition New (env : environ) (allow_fail_open env_enabled conn_nil : bool) (opts : list (option (RateLimiter → RateLimiter))) :
    option RateLimiter :=
  let timeoutMS := GetenvIntOrDefault env (txt "RATE_LIMIT_REDIS_TIMEOUT_MS") fallbackRedisTimeoutMS in
  let timeoutMS := if bool_decide (timeoutMS ≤ 0) then fallbackRedisTimeoutMS else timeoutMS in
  let rl := {| rl_keyPrefix := []; rl_identity := false; rl_failOpen := true; rl_onLimited := false;
               rl_exceededHandler := false; rl_refusalHandler := false;
               rl_redisTimeout := wrap64 (timeoutMS * Millisecond); rl_enabled := None;
               rl_loggedMisconfiguredTiers := []; rl_misconfigLogSaturated := false |} in
  let rl := foldl (λ rl opt, match opt with Some f => f rl | None => rl end) rl opts in
  let rl := if rl_failOpen rl then if negb allow_fail_open then rl <| rl_failOpen := false |> else rl else rl in
  let enabled := match rl_enabled rl with Some b => b | None => env_enabled end in
  if negb enabled then None else if conn_nil then None else Some rl.

(** Whether a misconfigured tier is logged, and whether the set just filled up. *)
Definition misconfiguredTierLogDecision (rl : RateLimiter) (key : text * tier_refusal) : (bool * bool) * RateLimiter :=
  if bool_decide (key ∈ rl_loggedMisconfiguredTiers rl) then ((false, false), rl)
  else if bool_decide (maxLoggedMisconfiguredTiers ≤ length (rl_loggedMisconfiguredTiers rl))%nat then
    if rl_misconfigLogSaturated rl then ((false, false), rl)
    else ((false, true), rl <| rl_misconfigLogSaturated := true |>)
  else ((true, false), rl <| rl_loggedMisconfiguredTiers := key :: rl_loggedMisconfiguredTiers rl |>).

(** ** Storage *)

(** A stored counter, or a string that is not an integer; and the millisecond
    after which the key is expired, if it has an expiry. *)
Inductive counter := Count (n : Z) | Junk.

Abbreviation server := (gmap text (counter * option Z)).

Definition expired (now : Z) (e : option Z) : bool := match e with Some at_ms => bool_decide (at_ms < now) | None => false end.

Definition visible (now : Z) (key : text) (d : server) : option (counter * option Z) :=
  match d !! key with
  | Some (v, e) => if expired now e then None else Some (v, e)
  | None => None
  end.

Definition INCR (now : Z) (key : text) (d : server) : option Z * server :=
  match visible now key d with
  | Some (Junk, _) => (None, d)
  | Some (Count n, e) =>
    if bool_decide (n = MaxInt64) then (None, d) else (Some (n + 1), <[key := (Count (n + 1), e)]> d)
  | None => (Some 1, <[key := (Count 1, None)]> d)
  end.

Definition PEXPIRE (now : Z) (key : text) (px : Z) (d : server) : server :=
  match visible now key d with Some (v, _) => <[key := (v, Some (now + px))]> d | None => d end.

(** Milliseconds left; -1 without an expiry, -2 without the key. *)
Definition PTTL (now : Z) (key : text) (d : server) : Z :=
  match visible now key d with
  | Some (_, Some at_ms) => at_ms - now
  | Some (_, None) => -1
  | None => -2
  end.

Definition luaIncrExpire (now : Z) (key : text) (window_ms : Z) (d : server) : option (Z * Z) * server :=
  let '(n, d) := INCR now key d in
  match n with
  | None => (None, d)
  | Some count =>
    if bool_decide (count = 1) then (Some (count, window_ms), PEXPIRE now key window_ms d)
    else
      let pttl := PTTL now key d in
      if bool_decide (pttl < 0) then (Some (count, window_ms), PEXPIRE now key window_ms d)
      else (Some (count, pttl), d)
  end.

Inductive storage_error := ErrStorageUnavailable | ErrInvalidWindow | ErrInvalidTenantContext | ErrRedis.

(** [valkey.GetKey] *)
Definition GetKey (tenantID key : text) : option text :=
  if is_empty tenantID then Some key
  else if contains (txt ":") tenantID then None
  else Some (TenantKeyPrefix ++ txt ":" ++ tenantID ++ txt ":" ++ key).

Definition StripTenantPrefix (tenantID prefixedKey : text) : option text :=
  if is_empty tenantID then Some prefixedKey
  else if contains (txt ":") tenantID then None
  else
    let prefix := TenantKeyPrefix ++ txt ":" ++ tenantID ++ txt ":" in
    Some (if has_prefix prefix prefixedKey then drop (length prefix) prefixedKey else prefixedKey).

Definition normalizeRateLimitKey (key : text) : text :=
  if has_prefix keyPrefix_ key then key else keyPrefix_ ++ key.

Definition redisFullKey (tenantID key : text) : result storage_error text :=
  if (negb (is_empty tenantID) && negb (IsValidTenantID tenantID))%bool then Err ErrInvalidTenantContext
  else match GetKey tenantID key with Some k => Ok k | None => Err ErrInvalidTenantContext end.

Definition redisKey (tenantID key : text) : result storage_error text := redisFullKey tenantID (normalizeRateLimitKey key).

(** What happens to one round trip. *)
Inductive trip := NoClient | NotRun | ReplyLost | Replied.

Definition increment (t : trip) (now : Z) (rkey : result storage_error text) (window : duration) (d : server) :
    result storage_error (Z * duration) * server :=
  if (bool_decide (window ≤ 0) || bool_decide (Milliseconds window ≤ 0))%bool then (Err ErrInvalidWindow, d)
  else match t with
  | NoClient => (Err ErrRedis, d)
  | _ =>
    match rkey with
    | Err e => (Err e, d)
    | Ok key =>
      let windowMs := Milliseconds window in
      match t with
      | Replied =>
        let '(x, d) := luaIncrExpire now key windowMs d in
        (match x with
         | None => Err ErrRedis
         | Some (count, ttlMs) => Ok (count, (if bool_decide (ttlMs < 0) then windowMs else ttlMs) * Millisecond)
         end, d)
      | ReplyLost => (Err ErrRedis, (luaIncrExpire now key windowMs d).2)
      | _ => (Err ErrRedis, d)
      end
    end
  end.

Definition isStorageOwnedRateLimitKey (key : text) : bool :=
  if has_prefix keyPrefix_ key then true
  else
    let '(s0, r0) := split_first 58 key in
    match r0 with
    | None => false
    | Some r0 =>
      let '(s1, r1) := split_first 58 r0 in
      match r1 with
      | None => false
      | Some r1 =>
        let '(s2, r2) := split_first 58 r1 in
        match r2 with
        | None => false
        | Some s3 => ((s0 =t txt "tenant") && negb (is_empty s1) && (s2 =t txt "ratelimit") && negb (is_empty s3))%bool
        end
      end
    end.

(** ** A request *)

Record request := {
  rq_identity : text;
  rq_tenant : text;                 (* the tenant of the context *)
  rq_now : Z;                       (* the server's clock when the script runs *)
  rq_trip : trip;
}.

(** What becomes of a request: passed on with the remaining budget and the time to
    the reset; refused over the limit, with the seconds to wait; refused by the
    limiter with a status; passed on although the store failed. *)
Inductive verdict :=
| Allowed (remaining : Z) (ttl : duration)
| Limited (retryAfterSec : Z) (ttl : duration)
| RefusedWith (status : Z)
| PassedOpen.

Definition buildKey (rl : RateLimiter) (tier : Tier) (identity : text) : text :=
  if negb (is_empty (rl_keyPrefix rl))
  then rl_keyPrefix rl ++ txt ":" ++ keyPrefix_ ++ t_name tier ++ txt ":" ++ identity
  else t_name tier ++ txt ":" ++ identity.

(** The Redis key of a request. *)
Definition request_key (rl : RateLimiter) (tier : Tier) (r : request) : result storage_error text :=
  let key := buildKey rl tier (rq_identity r) in
  if negb (is_empty (rl_keyPrefix rl)) then redisFullKey (rq_tenant r) key else redisKey (rq_tenant r) key.

Definition incrementCounter (rl : RateLimiter) (tier : Tier) (r : request) (d : server) :
    result storage_error (Z * duration) * server :=
  increment (rq_trip r) (rq_now r) (request_key rl tier r) (t_window tier) d.

Definition handleRedisError (rl : RateLimiter) (e : storage_error) : verdict :=
  match e with
  | ErrInvalidTenantContext => RefusedWith 400
  | _ => if rl_failOpen rl then PassedOpen else RefusedWith 503
  end.

Definition handleLimitExceeded (ttl : duration) : verdict :=
  let retryAfterSec := ttl `quot` Second in
  let retryAfterSec := if bool_decide (0 < Z.rem ttl Second) then retryAfterSec + 1 else retryAfterSec in
  Limited (if bool_decide (retryAfterSec < 1) then 1 else retryAfterSec) ttl.

Definition check (rl : RateLimiter) (tier : Tier) (r : request) (d : server) : verdict * server :=
  let '(x, d) := incrementCounter rl tier r d in
  (match x with
   | Err e => handleRedisError rl e
   | Ok (count, ttl) =>
     if bool_decide (count ≤ t_max tier) then Allowed (Z.max (t_max tier - count) 0) ttl else handleLimitExceeded ttl
   end, d).

(** [WithRateLimit]: a disabled limiter passes everything, a misconfigured tier
    refuses everything. *)
Definition WithRateLimit (rl : option RateLimiter) (tier : Tier) (r : request) (d : server) : verdict * server :=
  match rl with
  | None => (PassedOpen, d)
  | Some rl =>
    match tierRefusalMessage tier with
    | Some _ => (RefusedWith 500, d)
    | None => check rl tier r d
    end
  end.

Definition MethodTierSelector (write read : Tier) (method : text) : Tier :=
  if bool_decide (method ∈ [txt "POST"; txt "PUT"; txt "PATCH"; txt "DELETE"]) then write else read.

(** [resetPattern], over the batches the cursor walks through: a scan error, or
    the keys of a batch and whether deleting the owned ones succeeds. *)
Fixpoint resetPattern (batches : list (option (list text * bool))) (d : server) : bool * server :=
  match batches with
  | [] => (true, d)
  | None :: _ => (false, d)
  | Some (keys, deleted) :: batches =>
    match List.filter isStorageOwnedRateLimitKey keys with
    | [] => resetPattern batches d
    | ownedKeys =>
      if (deleted : bool) then resetPattern batches (foldl (λ d key, delete key d) d ownedKeys) else (false, d)
    end
  end.

Definition Reset (plain tenants : list (option (list text * bool))) (d : server) : bool * server :=
  let '(ok, d) := resetPattern plain d in
  if ok then resetPattern tenants d else (false, d).

(** ** At most twice the maximum in any span of one window *)

Definition is_allowed (v : verdict) : bool := match v with Allowed _ _ => true | _ => false end.

(** How many requests of a sequence that use [key], and run in the given span of
    the server's clock, are passed on within the limit. *)
Fixpoint allowed_in (key : text) (from until : Z) (rs : list (RateLimiter * Tier * request)) (d : server) : Z :=
  match rs with
  | [] => 0
  | (rl, tier, r) :: rs =>
    let '(v, d') := check rl tier r d in
    (if (match request_key rl tier r with Ok k => k =t key | Err _ => false end && is_allowed v
         && bool_decide (from ≤ rq_now r < until))%bool then 1 else 0)
    + allowed_in key from until rs d'
  end.

(** The counter of a key: none, or a positive count with an expiry. *)
Inductive window_state (d : server) (key : text) : option (Z * Z) → Prop :=
| window_none : d !! key = None → window_state d key None
| window_open n e : d !! key = Some (Count n, Some e) → 1 ≤ n → window_state d key (Some (n, e)).

Lemma window_other d d' key st : d' !! key = d !! key → window_state d key st → window_state d' key st.
Proof. intros E [Hn|n e Hn ?]; constructor; congruence. Qed.

(** One run of the script on a key: the window goes on or a new one opens. *)
Lemma script_window now key w d st :
  0 < w → window_state d key st →
  let '(x, d') := luaIncrExpire now key w d in
  match st with
  | Some (n, e) =>
    if bool_decide (now ≤ e)
    then (x = None ∧ d' = d) ∨ (x = Some (n + 1, e - now) ∧ window_state d' key (Some (n + 1, e)))
    else x = Some (1, w) ∧ window_state d' key (Some (1, now + w))
  | None => x = Some (1, w) ∧ window_state d' key (Some (1, now + w))
  end.
Proof.
  intros Hw [Hn|n e Hn Hpos]; unfold luaIncrExpire, INCR, visible; rewrite Hn; simpl.
  - unfold PEXPIRE, visible. rewrite lookup_insert_eq. simpl.
    split; [done|]. by eapply window_open; [by rewrite lookup_insert_eq|].
  - destruct (bool_decide (e < now)) eqn:He; bool_to_prop.
    + rewrite (bool_decide_false (now ≤ e)) by lia. simpl. unfold PEXPIRE, visible.
      rewrite lookup_insert_eq. simpl. split; [done|]. by eapply window_open; [by rewrite lookup_insert_eq|].
    + rewrite (bool_decide_true (now ≤ e)) by lia. case_bool_decide; [by left|].
      rewrite (bool_decide_false (n + 1 = 1)) by lia. unfold PTTL, visible. rewrite lookup_insert_eq. simpl.
      rewrite (bool_decide_false (e < now)) by lia. rewrite (bool_decide_false (e - now < 0)) by lia.
      right. split; [done|]. eapply window_open; [by rewrite lookup_insert_eq|lia].
Qed.

Lemma luaIncrExpire_other now key w d key' : key' ≠ key → (luaIncrExpire now key w d).2 !! key' = d !! key'.
Proof.
  intros Hne. unfold luaIncrExpire, INCR, PEXPIRE, PTTL. repeat (case_match; simplify_eq/=); by rewrite ?lookup_insert_ne.
Qed.

(** What is left to allow in the span that starts at [lo] and lasts one window. *)
Definition left_in (lo w m : Z) (st : option (Z * Z)) : Z :=
  match st with
  | None => 2 * m
  | Some (n, e) =>
    if bool_decide (lo + w ≤ e) then Z.max 0 (m - n)
    else if bool_decide (lo ≤ e) then Z.max 0 (m - n) + m
    else 2 * m
  end.

(** The same, knowing that the clock has reached [t]. *)
Definition left_at (lo w m t : Z) (st : option (Z * Z)) : Z := if bool_decide (lo + w ≤ t) then 0 else left_in lo w m st.

Lemma left_at_nonneg lo w m t st : 0 < m → 0 ≤ left_at lo w m t st.
Proof. intros. unfold left_at, left_in. repeat (case_match || case_bool_decide); lia. Qed.

Lemma left_at_later lo w m t t' st : 0 < m → t ≤ t' → left_at lo w m t' st ≤ left_at lo w m t st.
Proof. intros. unfold left_at, left_in. repeat (case_match || case_bool_decide); lia. Qed.

(** One counted request uses up what it is allowed. *)
Lemma left_at_step lo w m t now st count st' :
  0 < m → 0 < w → t ≤ now →
  match st with
  | Some (n, e) => if bool_decide (now ≤ e) then count = n + 1 ∧ st' = Some (n + 1, e) else count = 1 ∧ st' = Some (1, now + w)
  | None => count = 1 ∧ st' = Some (1, now + w)
  end →
  (if (bool_decide (count ≤ m) && bool_decide (lo ≤ now < lo + w))%bool then 1 else 0) + left_at lo w m now st'
    ≤ left_at lo w m t st.
Proof.
  intros Hm Hw Ht Hst. destruct st as [[n e]|]; [destruct (bool_decide (now ≤ e)) eqn:He; bool_to_prop|]; destruct Hst as [-> ->];
    unfold left_at, left_in; repeat case_bool_decide; simpl; lia.
Qed.

(** A run of the script is counted, or fails and changes nothing. *)
Definition counted (now w : Z) (st : option (Z * Z)) (count : Z) (st' : option (Z * Z)) : Prop :=
  match st with
  | Some (n, e) => if bool_decide (now ≤ e) then count = n + 1 ∧ st' = Some (n + 1, e) else count = 1 ∧ st' = Some (1, now + w)
  | None => count = 1 ∧ st' = Some (1, now + w)
  end.

Lemma script_counted now key w d st :
  0 < w → window_state d key st →
  let '(x, d') := luaIncrExpire now key w d in
  (x = None ∧ d' = d) ∨ (∃ count ttl st', x = Some (count, ttl) ∧ counted now w st count st' ∧ window_state d' key st').
Proof.
  intros Hw Hs. pose proof (script_window now key w d st Hw Hs) as Hx. destruct (luaIncrExpire now key w d) as [x d'].
  unfold counted. destruct st as [[n e]|]; [destruct (bool_decide (now ≤ e))|]; [destruct Hx as [Hx|[-> Hx]]; [by left|]| |];
    right; [|destruct Hx as [-> Hx]..]; eauto 8.
Qed.

(** One call to the storage, seen from one key. *)
Lemma increment_window t now rkey window d key st :
  0 < window → 0 < Milliseconds window → window_state d key st →
  let '(x, d') := increment t now rkey window d in
  (window_state d' key st ∧ (rkey = Ok key → is_ok x = false)) ∨
  (rkey = Ok key ∧ ∃ count st', counted now (Milliseconds window) st count st' ∧ window_state d' key st' ∧
     (∀ c ttl, x = Ok (c, ttl) → c = count)).
Proof.
  intros Hw Hms Hs. unfold increment. rewrite (bool_decide_false (window ≤ 0)), (bool_decide_false (Milliseconds _ ≤ 0)) by lia. cbn [orb].
  destruct rkey as [k|e]; [|destruct t; cbn; left; (split; [done|done])].
  destruct (decide (k = key)) as [->|Hne].
  - pose proof (script_counted now key (Milliseconds window) d st Hms Hs) as Hx.
    destruct (luaIncrExpire now key (Milliseconds window) d) as [x d'].
    destruct Hx as [[-> ->]|(count & ttl & st' & -> & Hc & Hst)]; destruct t; cbn; try (by left);
      right; (split; [done|]); exists count, st'; (split; [done|]); (split; [done|]); intros; by simplify_eq.
  - pose proof (luaIncrExpire_other now k (Milliseconds window) d key (not_eq_sym Hne)) as Ho.
    destruct (luaIncrExpire now k (Milliseconds window) d) as [x d']. cbn in Ho.
    destruct t; cbn; left; (split; [first [done|by eapply window_other]|intros; by simplify_eq]).
Qed.

(** One request, seen from one key. *)
Lemma check_window rl tier r d key st :
  0 < t_window tier → 0 < Milliseconds (t_window tier) → window_state d key st →
  let '(v, d') := check rl tier r d in
  (window_state d' key st ∧ (request_key rl tier r = Ok key → is_allowed v = false)) ∨
  (request_key rl tier r = Ok key ∧ ∃ count st', counted (rq_now r) (Milliseconds (t_window tier)) st count st' ∧
     window_state d' key st' ∧ (is_allowed v = true → count ≤ t_max tier)).
Proof.
  intros Hw Hms Hs. unfold check, incrementCounter.
  pose proof (increment_window (rq_trip r) (rq_now r) (request_key rl tier r) (t_window tier) d key st Hw Hms Hs) as Hx.
  destruct (increment _ _ _ _ _) as [x d']. cbn.
  assert (Herr : ∀ e, is_allowed (handleRedisError rl e) = false) by (intros []; simpl; by destruct (rl_failOpen rl)).
  destruct Hx as [[Hs' Hx]|(Ek & count & st' & Hc & Hs' & Hx)]; [left|right].
  - split; [done|]. intros Ek. apply Hx in Ek. destruct x as [[c ttl]|e]; [done|apply Herr].
  - split; [done|]. exists count, st'. split; [done|]. split; [done|]. destruct x as [[c ttl]|e]; [|by rewrite Herr].
    rewrite (Hx c ttl eq_refl). by case_bool_decide.
Qed.

(** The clock readings of a sequence do not go back. *)
Fixpoint clock_from (t : Z) (rs : list (RateLimiter * Tier * request)) : Prop :=
  match rs with [] => True | (_, _, r) :: rs => t ≤ rq_now r ∧ clock_from (rq_now r) rs end.

(** Every request of the sequence that uses the key is under this tier; all tiers
    are valid. *)
Definition one_tier (key : text) (m : Z) (window : duration) (rs : list (RateLimiter * Tier * request)) : Prop :=
  Forall (λ '(rl, tier, r), tierRefusalMessage tier = None ∧
    (request_key rl tier r = Ok key → t_max tier = m ∧ t_window tier = window)) rs.

Lemma tier_valid tier : tierRefusalMessage tier = None → 0 < t_window tier ∧ 0 < Milliseconds (t_window tier) ∧ 0 < t_max tier.
Proof.
  unfold tierRefusalMessage. intros E. repeat case_match; simplify_eq. bool_to_prop. unfold Milliseconds in *.
  pose proof (Z.quot_pos (t_window tier) Millisecond). unfold Millisecond in *. lia.
Qed.

Lemma allowed_left key m window lo t rs d st :
  0 < m → clock_from t rs → one_tier key m window rs → window_state d key st →
  allowed_in key lo (lo + Milliseconds window) rs d ≤ left_at lo (Milliseconds window) m t st.
Proof.
  intros Hm. revert t d st. induction rs as [|[[rl tier] r] rs IH]; intros t d st Hc Ho Hs; simpl; [by apply left_at_nonneg|].
  destruct Hc as [Ht Hc]. apply Forall_cons in Ho as [[Hv Ho] Hos]. destruct (tier_valid _ Hv) as (Hw & Hms & _).
  pose proof (check_window rl tier r d key st Hw Hms Hs) as Hx. destruct (check rl tier r d) as [v d'].
  destruct Hx as [[Hs' Hna]|(Ek & count & st' & Hcnt & Hs' & Hal)].
  - replace (match request_key rl tier r with Ok k => k =t key | Err _ => false end && is_allowed v && bool_decide (lo ≤ rq_now r < _))%bool
      with false.
    + pose proof (IH _ _ _ Hc Hos Hs'). pose proof (left_at_later lo (Milliseconds window) m t (rq_now r) st Hm Ht). lia.
    + destruct (request_key rl tier r) as [k|] eqn:Ek; [|done]. destruct (k =t key) eqn:Ee; [|done].
      apply eqt_true in Ee as ->. by rewrite Hna.
  - destruct (Ho Ek) as [<- <-]. rewrite Ek, eqt_refl. simpl. pose proof (IH _ _ _ Hc Hos Hs') as HI.
    pose proof (left_at_step lo (Milliseconds (t_window tier)) (t_max tier) t (rq_now r) st count st' Hm Hms Ht Hcnt) as Hstep.
    destruct (is_allowed v); simpl in *; [rewrite (bool_decide_true (count ≤ t_max tier)) in Hstep by auto; simpl in Hstep; lia|].
    destruct (_ && _)%bool; lia.
Qed.

(** *** Requests that are passed on *)

(** [c.Next()] is called: within the limit, or although the store failed. *)
Definition passes (v : verdict) : bool := match v with Allowed _ _ | PassedOpen => true | _ => false end.

(** The request uses [key] and its call runs in the span. *)
Definition uses (key : text) (from until : Z) (rl : RateLimiter) (tier : Tier) (r : request) : bool :=
  (match request_key rl tier r with Ok k => k =t key | Err _ => false end && bool_decide (from ≤ rq_now r < until))%bool.

(** How many requests of a sequence that use [key], and run in the given span of the
    server's clock, reach the handler behind the middleware. *)
Fixpoint passed_in (key : text) (from until : Z) (rs : list (RateLimiter * Tier * request)) (d : server) : Z :=
  match rs with
  | [] => 0
  | (rl, tier, r) :: rs =>
    let '(v, d') := WithRateLimit (Some rl) tier r d in
    (if (uses key from until rl tier r && passes v)%bool then 1 else 0) + passed_in key from until rs d'
  end.

(** Those of them whose call to the store got no reply, under a limiter that fails
    open. *)
Fixpoint unanswered_in (key : text) (from until : Z) (rs : list (RateLimiter * Tier * request)) : Z :=
  match rs with
  | [] => 0
  | (rl, tier, r) :: rs =>
    (if (uses key from until rl tier r && rl_failOpen rl && negb (match rq_trip r with Replied => true | _ => false end))%bool
     then 1 else 0) + unanswered_in key from until rs
  end.

(** The counter of a key, if any, is an integer up to [k]. *)
Definition counts_to (k : Z) (d : server) (key : text) : Prop :=
  d !! key = None ∨ ∃ n e, d !! key = Some (Count n, e) ∧ 1 ≤ n ≤ k.

Lemma script_counts k now key w d : counts_to k d key → 0 ≤ k < MaxInt64 →
  (luaIncrExpire now key w d).1 ≠ None ∧ counts_to (k + 1) (luaIncrExpire now key w d).2 key.
Proof.
  intros Hd Hk. unfold luaIncrExpire.
  assert (∃ n e d', INCR now key d = (Some n, d') ∧ d' !! key = Some (Count n, e) ∧ 1 ≤ n ≤ k + 1) as (n & e & d' & -> & Hd' & Hn).
  { unfold INCR, visible. destruct Hd as [->|(n & e & -> & Hn)]; [|destruct (expired now e)].
    - eexists 1, _, _. split; [done|]. rewrite lookup_insert_eq. split; [done|lia].
    - eexists 1, _, _. split; [done|]. rewrite lookup_insert_eq. split; [done|lia].
    - rewrite bool_decide_false by lia. eexists (n + 1), _, _. split; [done|]. rewrite lookup_insert_eq. split; [done|lia]. }
  assert (counts_to (k + 1) d' key) by (right; eauto).
  assert (counts_to (k + 1) (PEXPIRE now key w d') key).
  { unfold PEXPIRE, visible. rewrite Hd'. destruct (expired now e); [right; eauto|]. right. exists n. eexists. by rewrite lookup_insert_eq. }
  repeat case_bool_decide; done.
Qed.

Lemma check_counts k rl tier r d key : 0 < t_window tier → 0 < Milliseconds (t_window tier) → counts_to k d key → 0 ≤ k < MaxInt64 →
  counts_to (k + 1) (check rl tier r d).2 key ∧
  (request_key rl tier r = Ok key → (check rl tier r d).1 = PassedOpen → rl_failOpen rl = true ∧ rq_trip r ≠ Replied).
Proof.
  intros Hw Hms Hd Hk. assert (Hd1 : counts_to (k + 1) d key).
  { destruct Hd as [|(n & e & ? & ?)]; [by left|right; exists n, e; split; [done|lia]]. }
  assert (Hopen : ∀ e, handleRedisError rl e = PassedOpen → rl_failOpen rl = true) by (intros []; simpl; by destruct (rl_failOpen rl)).
  unfold check, incrementCounter, increment. rewrite (bool_decide_false (t_window tier ≤ 0)), (bool_decide_false (Milliseconds _ ≤ 0)) by lia.
  cbn [orb]. destruct (request_key rl tier r) as [k'|e] eqn:Ek; [|destruct (rq_trip r); by simpl].
  destruct (decide (k' = key)) as [->|Hne].
  - destruct (script_counts k (rq_now r) key (Milliseconds (t_window tier)) d Hd Hk) as [Hx Hc].
    destruct (luaIncrExpire _ _ _ d) as [x d']. cbn [fst snd] in *.
    destruct (rq_trip r); cbn [fst snd]; try (split; [done|]; intros _ ?%Hopen; done).
    destruct x as [[c ttl]|]; [|done]. split; [done|]. intros _. by destruct (bool_decide (c ≤ t_max tier)).
  - pose proof (luaIncrExpire_other (rq_now r) k' (Milliseconds (t_window tier)) d key (not_eq_sym Hne)) as Ho.
    destruct (luaIncrExpire _ _ _ d) as [x d']. cbn [snd] in Ho.
    assert (counts_to (k + 1) d' key) by (unfold counts_to; by rewrite Ho).
    destruct (rq_trip r); simpl; (split; [done|]); intros ?; simplify_eq.
Qed.

Lemma passed_split key m window lo hi k rs d :
  one_tier key m window rs → counts_to k d key → 0 ≤ k → k + Z.of_nat (length rs) ≤ MaxInt64 →
  passed_in key lo hi rs d ≤ allowed_in key lo hi rs d + unanswered_in key lo hi rs.
Proof.
  revert k d. induction rs as [|[[rl tier] r] rs IH]; intros k d Ho Hd Hk Hl; cbn [passed_in allowed_in unanswered_in]; [done|].
  apply Forall_cons in Ho as [[Hv _] Ho]. destruct (tier_valid _ Hv) as (Hw & Hms & _). unfold WithRateLimit. rewrite Hv.
  cbn [length] in Hl. destruct (check_counts k rl tier r d key Hw Hms Hd) as [Hd' Hopen]; [lia|].
  destruct (check rl tier r d) as [v d']. cbn [fst snd] in *. specialize (IH (k + 1) d' Ho Hd').
  enough ((if (uses key lo hi rl tier r && passes v)%bool then 1 else 0) ≤
    (if (match request_key rl tier r with Ok k => k =t key | Err _ => false end && is_allowed v && bool_decide (lo ≤ rq_now r < hi))%bool then 1 else 0) +
    (if (uses key lo hi rl tier r && rl_failOpen rl && negb (match rq_trip r with Replied => true | _ => false end))%bool then 1 else 0)) by lia.
  unfold uses. destruct (request_key rl tier r) as [key'|]; [|done]. destruct (key' =t key) eqn:Ee; [|done]. apply eqt_true in Ee as ->.
  destruct (bool_decide (lo ≤ rq_now r < hi)); [|by destruct (is_allowed v)]. destruct v; cbn [passes is_allowed andb];
    [destruct (rl_failOpen rl && _)%bool; lia..|].
  destruct (Hopen eq_refl eq_refl) as [-> Ht]. by destruct (rq_trip r).
Qed.

(** C21: However requests of all processes interleave on the shared store, with lost and failed calls, in any span of the server's clock that is as long as the tier's window the middleware passes on, for one key, at most twice the tier's maximum of requests, and besides those only requests whose call to the store got no reply under a limiter that fails open. A limiter that does not fail open passes on no more than twice the maximum. The clock must not go back, the key starts without a counter that nobody resets, and there are fewer requests than a Redis counter can count. *)
Theorem allowed_within_twice_max key m window from t rs d :
  0 < m → clock_from t rs → one_tier key m window rs → d !! key = None → Z.of_nat (length rs) ≤ MaxInt64 →
  passed_in key from (from + Milliseconds window) rs d ≤ 2 * m + unanswered_in key from (from + Milliseconds window) rs ∧
  (Forall (λ x, rl_failOpen x.1.1 = false) rs → passed_in key from (from + Milliseconds window) rs d ≤ 2 * m).
Proof.
  intros Hm Hc Ho Hd Hl. pose proof (allowed_left key m window from t rs d None Hm Hc Ho (window_none _ _ Hd)) as Hleft.
  pose proof (passed_split key m window from (from + Milliseconds window) 0 rs d Ho (or_introl Hd) ltac:(lia) ltac:(lia)) as Hp.
  assert (left_at from (Milliseconds window) m t None ≤ 2 * m) by (unfold left_at, left_in; case_bool_decide; lia).
  split; [lia|]. intros Hf. enough (unanswered_in key from (from + Milliseconds window) rs = 0) by lia. clear -Hf.
  induction Hf as [|[[rl tier] r] rs Hrl _ IH]; [done|]. cbn [unanswered_in]. simpl in Hrl. rewrite Hrl, andb_false_r. simpl. exact IH.
Qed.

(** ** Keys *)

Lemma valid_tenant_no_colon id : IsValidTenantID id = true → 58 ∉ id.
Proof.
  destruct id as [|c rest]; [done|]. unfold IsValidTenantID. intros E Hin. case_bool_decide; [done|].
  apply andb_true_iff in E as [Hc Hr]. apply elem_of_cons in Hin as [<-|Hin]; [vm_compute in Hc; discriminate|].
  rewrite forallb_forall in Hr. apply list_elem_of_In, Hr in Hin. vm_compute in Hin. discriminate.
Qed.

Lemma normalized key : ∃ rest, normalizeRateLimitKey key = keyPrefix_ ++ rest.
Proof.
  unfold normalizeRateLimitKey. destruct (has_prefix keyPrefix_ key) eqn:E; [by apply has_prefix_spec in E|by exists key].
Qed.

(** The two forms of a storage key. *)
Lemma redisKey_form tenantID key k :
  redisKey tenantID key = Ok k →
  ∃ rest, normalizeRateLimitKey key = keyPrefix_ ++ rest ∧
    ((tenantID = [] ∧ k = keyPrefix_ ++ rest) ∨
     (tenantID ≠ [] ∧ (58 ∉ tenantID) ∧ k = txt "tenant:" ++ tenantID ++ 58 :: keyPrefix_ ++ rest)).
Proof.
  unfold redisKey, redisFullKey. destruct (normalized key) as [rest ->]. intros E. exists rest. split; [done|].
  destruct (is_empty tenantID) eqn:Ee; simpl in E.
  - apply is_empty_true in Ee as ->. unfold GetKey in E. simpl in E. left. by simplify_eq.
  - right. apply is_empty_false in Ee as Hne. destruct (IsValidTenantID tenantID) eqn:Ev; [|done]. simpl in E.
    unfold GetKey in E. rewrite Ee in E. case_match; [|done].
    split; [done|]. split; [by apply valid_tenant_no_colon|]. case_match; simplify_eq. done.
Qed.

Lemma colon_inj (a b x y : text) : 58 ∉ a → 58 ∉ b → a ++ 58 :: x = b ++ 58 :: y → a = b ∧ x = y.
Proof.
  intros Ha Hb E. pose proof (split_first_app 58 a x Ha) as H1. rewrite E in H1.
  rewrite (split_first_app 58 b y Hb) in H1. by simplify_eq.
Qed.

(** Without an application prefix, a counter belongs to one tenant: requests of different tenants, or with and
    without a tenant, never share a Redis key, and neither do different limiter keys of one tenant; and every such
    key is recognised as the limiter's own when the counters are reset. *)
Theorem rate_limit_keys_separate_tenants t1 t2 key1 key2 k :
  redisKey t1 key1 = Ok k → redisKey t2 key2 = Ok k → normalizeRateLimitKey key1 ≠ keyPrefix_ →
  t1 = t2 ∧ normalizeRateLimitKey key1 = normalizeRateLimitKey key2 ∧ isStorageOwnedRateLimitKey k = true.
Proof.
  intros H1 H2 Hne. apply redisKey_form in H1 as (r1 & E1 & F1), H2 as (r2 & E2 & F2). rewrite E1, E2 in *.
  destruct F1 as [[-> ->]|(Hn1 & Hc1 & ->)], F2 as [[-> F2]|(Hn2 & Hc2 & F2)]; try discriminate F2.
  - split; [done|]. split; [done|]. unfold isStorageOwnedRateLimitKey. by rewrite has_prefix_app.
  - apply app_inv_head, colon_inj in F2 as [-> F2]; [|done..]. split; [done|]. split; [done|].
    unfold isStorageOwnedRateLimitKey. change (has_prefix keyPrefix_ (txt "tenant:" ++ _)) with false.
    change (txt "tenant:" ++ t2 ++ 58 :: keyPrefix_ ++ r1) with (txt "tenant" ++ 58 :: t2 ++ 58 :: keyPrefix_ ++ r1).
    rewrite split_first_app by (by apply (bool_decide_eq_true_1 (58 ∉ _))). rewrite split_first_app by done.
    change (keyPrefix_ ++ r1) with (txt "ratelimit" ++ 58 :: r1). rewrite split_first_app by (by apply (bool_decide_eq_true_1 (58 ∉ _))).
    destruct t2; [done|]. destruct r1; [by rewrite app_nil_r in Hne|]. done.
Qed.

(** Resetting removes nothing that is not the limiter's. *)
Lemma Reset_keeps plain tenants d key :
  isStorageOwnedRateLimitKey key = false → (Reset plain tenants d).2 !! key = d !! key.
Proof.
  intros Hk.
  assert (Hdel : ∀ keys d, key ∉ keys → foldl (λ d k, delete k d) d keys !! key = (d : server) !! key).
  { induction keys as [|k keys IH]; intros d0 Hni; simpl; [done|]. apply not_elem_of_cons in Hni as [? ?].
    rewrite IH by done. by rewrite lookup_delete_ne. }
  assert (Hp : ∀ batches d, (resetPattern batches d).2 !! key = d !! key).
  { induction batches as [|[[keys deleted]|] batches IH]; intros d0; simpl; [done| |done].
    destruct (List.filter isStorageOwnedRateLimitKey keys) as [|k ks] eqn:Ef; [done|]. destruct deleted; [|done].
    rewrite IH. apply (Hdel (k :: ks) d0). rewrite <- Ef. intros Hin. apply elem_of_filter_bool in Hin as [Hin _]. congruence. }
  unfold Reset. pose proof (Hp plain d) as Hp1. destruct (resetPattern plain d) as [[] d']; simpl in *; [by rewrite Hp|done].
Qed.

(** ** Witnesses *)

Definition ex_limiter : option RateLimiter := New (λ _, None) true true false [Some (WithFailOpen true)].
Definition ex_tier : Tier := {| t_name := txt "default"; t_max := 2; t_window := 60 * Second |}.
Definition ex_req (now : Z) : RateLimiter * Tier * request :=
  (default {| rl_keyPrefix := []; rl_identity := false; rl_failOpen := false; rl_onLimited := false; rl_exceededHandler := false;
     rl_refusalHandler := false; rl_redisTimeout := 0; rl_enabled := None; rl_loggedMisconfiguredTiers := [];
     rl_misconfigLogSaturated := false |} ex_limiter, ex_tier,
   {| rq_identity := txt "10.0.0.1"; rq_tenant := txt "acme"; rq_now := now; rq_trip := Replied |}).
Definition ex_rkey : text := txt "tenant:acme:ratelimit:default:10.0.0.1".

(** The same request without a reply. *)
Definition ex_lost (now : Z) : RateLimiter * Tier * request :=
  ((ex_req now).1, {| rq_identity := txt "10.0.0.1"; rq_tenant := txt "acme"; rq_now := now; rq_trip := NotRun |}).

(** Two windows meet inside the span: of the seven requests in it three pass within the
    limit, and one whose call failed. *)
Definition ex_sequence : list (RateLimiter * Tier * request) := (ex_req <$> [0; 59999; 60000; 60001; 60001; 60002]) ++ [ex_lost 60003; ex_req 60004].

Lemma allowed_within_twice_max_witness :
  passed_in ex_rkey 59000 (59000 + Milliseconds (60 * Second)) ex_sequence ∅
    ≤ 2 * 2 + unanswered_in ex_rkey 59000 (59000 + Milliseconds (60 * Second)) ex_sequence ∧
  passed_in ex_rkey 59000 (59000 + Milliseconds (60 * Second)) ex_sequence ∅ = 4 ∧
  unanswered_in ex_rkey 59000 (59000 + Milliseconds (60 * Second)) ex_sequence = 1.
Proof.
  split; [|vm_compute; split; reflexivity].
  apply (allowed_within_twice_max ex_rkey 2 (60 * Second) 59000 0 ex_sequence ∅); [lia| | | |].
  - vm_compute. repeat split; discriminate.
  - repeat constructor.
  - reflexivity.
  - vm_compute. discriminate.
Defined.

Lemma rate_limit_keys_separate_tenants_witness :
  txt "acme" = txt "acme" ∧ normalizeRateLimitKey (txt "a:b") = normalizeRateLimitKey (txt "ratelimit:a:b") ∧
  isStorageOwnedRateLimitKey (txt "tenant:acme:ratelimit:a:b") = true.
Proof.
  apply (rate_limit_keys_separate_tenants (txt "acme") (txt "acme") (txt "a:b") (txt "ratelimit:a:b")
    (txt "tenant:acme:ratelimit:a:b")); vm_compute; [reflexivity|reflexivity|discriminate].
Defined.
