(* ===== verification/Idempotency.v ===== *)
(** The idempotency middleware: [net/http/idempotency/idempotency.go],
    [heartbeat.go], [store.go] and [response_codec.go].

    What one request does is a program ([prog]): a tree of store calls and of
    the protected handler, each node carrying what happens with every answer.
    [IdempotencyRuns] executes many such programs interleaved against one store.

    Go strings that are compared, hashed or measured in bytes are byte
    sequences here.  Providers, policies and custom answers are configuration:
    a provider is a function of the request, a custom answer is recorded by the
    seam it was installed at. *)

From stdpp Require Import base numbers list gmap strings sets.
From S2P Require Import Prelude GoText GoBytes.

Local Open Scope Z_scope.
Local Open Scope go_scope.

Abbreviation bytes := (list Z).

(** ** Constants and records *)

Definition fingerprintScopeDomain : bytes := txt "lib-commons:idempotency:fingerprint-scope:v1" ++ [0].
Definition keyStateProcessing : bytes := txt "processing".
Definition keyStateComplete : bytes := txt "complete".
Definition outcomeUnrecorded : bytes := txt "unrecorded".
Definition outcomeNotReplayable : bytes := txt "not-replayable".

Definition RefusalCodeStateUnrecognised : text := txt "IDEMPOTENCY_STATE_UNRECOGNISED".
Definition RefusalCodeRecordUnreadable : text := txt "IDEMPOTENCY_RECORD_UNREADABLE".
Definition RefusalCodeOutcomeUnrecorded : text := txt "IDEMPOTENCY_OUTCOME_UNRECORDED".
Definition RefusalCodeReplayUnavailable : text := txt "IDEMPOTENCY_REPLAY_UNAVAILABLE".

Record storeRecord := {
  State : bytes;
  Fingerprint : bytes;
  Owner : bytes;
  Response_ : bytes;
  Outcome : bytes;
}.

Record cachedResponse := {
  StatusCode : Z;
  ContentType : text;
  Body : bytes;
  Headers : gmap text (list text);
}.

#[export] Instance storeRecord_eq_dec : EqDecision storeRecord.
Proof. solve_decision. Defined.

(** [encoding/json] on the two record types: [None] is its error.  A nil slice
    and an empty one are the same value here; both records drop them. *)
Class Json := {
  marshal_record : storeRecord → option bytes;
  unmarshal_record : bytes → option storeRecord;
  marshal_response : cachedResponse → option bytes;
  unmarshal_response : bytes → option cachedResponse;
}.

Definition is_byte (z : Z) : Prop := 0 ≤ z < 256.
Definition is_ascii (z : Z) : Prop := 0 ≤ z < 128.

Lemma ascii_const (t : bytes) : forallb (λ z, (0 <=? z) && (z <? 128))%bool t = true → Forall is_ascii t.
Proof.
  intros Ht%Is_true_true%forallb_True. eapply Forall_impl; [done|]. unfold is_ascii. intros z Hz%Is_true_true. lia.
Qed.

(** Text that survives the JSON encoder unchanged is valid UTF-8; the text
    fields of a record are ASCII. *)
Record record_ascii (r : storeRecord) : Prop := {
  ascii_state : Forall is_ascii (State r);
  ascii_fingerprint : Forall is_ascii (Fingerprint r);
  ascii_owner : Forall is_ascii (Owner r);
  ascii_outcome : Forall is_ascii (Outcome r);
  byte_response : Forall is_byte (Response_ r);
}.

(** What decoding gives back of what was encoded. *)
Class JsonLaws `{Json} : Prop := {
  unmarshal_marshal_record r b : record_ascii r → marshal_record r = Some b → unmarshal_record b = Some r;
  unmarshal_marshal_response r b :
    Forall is_byte (Body r) → marshal_response r = Some b → unmarshal_response b = Some r;
  marshal_response_bytes r b : marshal_response r = Some b → b ≠ [] ∧ Forall is_byte b;
}.

(** [ResponseCodec] *)
Class ResponseCodec := {
  Encode : bytes → option bytes;
  Decode : bytes → option bytes;
}.

(** "Decode reverses Encode" *)
Class CodecLaws (C : ResponseCodec) : Prop := {
  codec_decodes p e : Encode p = Some e → Decode e = Some p;
  encode_bytes p e : Forall is_byte p → Encode p = Some e → Forall is_byte e;
}.

Definition identityResponseCodec : ResponseCodec := {| Encode := Some; Decode := Some |}.

#[export] Instance identityResponseCodec_laws : CodecLaws identityResponseCodec.
Proof. split; cbn; intros; simplify_eq; auto. Qed.

(** The header part of a response, as the web framework keeps it: the fields in
    order, adding and removing fields of a name, removing one cookie. *)
Class HeaderOps (H : Type) := {
  hdr_all : H → list (text * text);
  hdr_set : text → text → H → H;
  hdr_add : text → text → H → H;
  hdr_del : text → H → H;
  hdr_del_cookie : text → H → H;
}.

Definition HeaderSetCookie : text := txt "Set-Cookie".
Definition IdempotencyReplayed : text := txt "X-Idempotency-Replayed".

(** ** Requests, responses, answers *)

Record Response {H : Type} := {
  rs_status : Z;
  rs_content_type : text;
  rs_body : bytes;
  rs_stream : bool;      (* the body is a stream nobody read *)
  rs_headers : H;
}.
Arguments Response : clear implicits.

(** The request body: buffered by the server, or a stream; reading a stream may
    fail, and a stream that can seek is not the connection. *)
Inductive body_source :=
| BodyBuffered (raw : bytes)
| BodyStream (rewindable : bool) (content : option bytes).

Record Request {H : Type} := {
  q_method : bytes;
  q_path : bytes;
  q_key_header : bytes;          (* the X-Idempotency header *)
  q_tenant : bytes;              (* the tenant of the context *)
  q_body : body_source;
  q_content_length : Z;          (* declared length, -1 when chunked *)
  q_body_limit : Z;
  q_response : Response H;       (* what was written above the middleware *)
}.
Arguments Request : clear implicits.

Definition set_body {H} (q : Request H) (b : body_source) (len : Z) : Request H :=
  {| q_method := q_method q; q_path := q_path q; q_key_header := q_key_header q; q_tenant := q_tenant q;
     q_body := b; q_content_length := len; q_body_limit := q_body_limit q; q_response := q_response q |}.

(** An error a handler returned: a [fiber.Error] carries a status code. *)
Inductive handler_error := FiberError (code : Z) | OtherError.

Record outcome {H : Type} := { h_err : option handler_error; h_response : Response H }.
Arguments outcome : clear implicits.

(** The policies are [uint8] enumerations; a policy function may answer any
    value of the type. *)
Abbreviation ClientErrorPolicy := Z (only parsing).
Definition ClientErrorPolicyCache : ClientErrorPolicy := 0.
Definition ClientErrorPolicyRelease : ClientErrorPolicy := 1.
Abbreviation ServerErrorPolicy := Z (only parsing).
Definition ServerErrorPolicyRelease : ServerErrorPolicy := 0.
Definition ServerErrorPolicyFence : ServerErrorPolicy := 1.

(** The seams at which an application can answer instead of the built-in
    document. *)
Inductive seam :=
| RejectedHandler | ConflictHandler | KeyReuseHandler | ReplayUnavailableHandler | KeyRequiredHandler
| TenantRequiredHandler | UnavailableHandler | PostHandlerUnavailableHandler | UnfencedHandler
| TerminalRefusalHandler (code : text).

(** What answers the request. *)
Inductive reply {H : Type} :=
| Passed (o : outcome H)                  (* the handler's own response and error *)
| Refused (status : Z) (code : text)      (* a built-in refusal *)
| AnsweredBy (s : seam)                   (* the application's document *)
| AlreadyProcessed                        (* the built-in answer for a legacy completion *)
| Replayed (r : Response H).
Arguments reply : clear implicits.

Record Answer {H : Type} := {
  a_reply : reply H;
  a_replayed : bool;            (* X-Idempotency-Replayed was set *)
  a_retry_after : bool;         (* Retry-After was set *)
  a_fenced : option bool;       (* X-Idempotency-Fenced, when a fence was tried *)
  a_close : bool;               (* the connection is closed after the answer *)
}.
Arguments Answer : clear implicits.

Definition plain {H} (r : reply H) : Answer H :=
  {| a_reply := r; a_replayed := false; a_retry_after := false; a_fenced := None; a_close := false |}.

Definition with_fenced {H} (b : bool) (a : Answer H) : Answer H :=
  {| a_reply := a_reply a; a_replayed := a_replayed a; a_retry_after := a_retry_after a; a_fenced := Some b;
     a_close := a_close a |}.

Definition with_close {H} (b : bool) (a : Answer H) : Answer H :=
  {| a_reply := a_reply a; a_replayed := a_replayed a; a_retry_after := a_retry_after a; a_fenced := a_fenced a;
     a_close := b |}.

(** What the code uses of the platform: the hash, [fiber.Ctx.Body] (which undoes
    the request's content encoding), and the order in which a Go map is
    iterated, which is any order. *)
Class Platform (H : Type) := {
  sha256 : bytes → bytes;
  ctx_body : Request H → bytes → bytes;
  map_order : gmap text (list text) → list (text * list text);
}.

Class PlatformLaws (H : Type) `{Platform H} : Prop := {
  sha256_bytes b : Forall is_byte (sha256 b);
  map_order_perm m : map_order m ≡ₚ map_to_list m;
}.

(** ** The middleware and its options *)

(** A store value: a nil one, and whether its type implements
    [LeaseExtender]. *)
Record store_handle := { st_nil : bool; st_extends : bool }.

Record Middleware {H : Type} := {
  store : store_handle;
  keyProvider : option (Request H → option bytes);
  keyPrefix : bytes;
  keyTTL : duration;
  processingTTL : duration;
  maxKeyLength : Z;
  maxBodyCache : Z;
  redisTimeout : duration;
  ttlProvider : option (Request H → option duration);
  processingTTLProvider : option (Request H → option duration);
  fingerprintScopeProvider : option (Request H → bytes);
  fingerprintProvider : option (Request H → option bytes);
  tenantProvider : option (Request H → option bytes);
  responseCodec : ResponseCodec;
  clientErrorPolicy : ClientErrorPolicy;
  serverErrorPolicy : ServerErrorPolicy;
  clientErrorPolicyFunc : option (Request H → Response H → Z → ClientErrorPolicy);
  serverErrorPolicyFunc : option (Request H → Response H → Z → option handler_error → ServerErrorPolicy);
  onRejected : bool;              (* the seams: whether a handler is installed *)
  onConflict : bool;
  onKeyReuse : bool;
  onReplayUnavailable : bool;
  onKeyRequired : bool;
  onTenantRequired : bool;
  onUnavailable : bool;
  onPostHandlerUnavailable : bool;
  onUnfenced : bool;
  onTerminalRefusal : bool;
  requireKey : bool;
  requireTenant : bool;
  failClosed : bool;
  heartbeatInterval : duration;
  extender : bool;
  configErr : bool;
}.
Arguments Middleware : clear implicits.

#[export] Instance Middleware_eta H : Eta (Middleware H) := λ m,
  {| store := store m; keyProvider := keyProvider m; keyPrefix := keyPrefix m; keyTTL := keyTTL m;
     processingTTL := processingTTL m; maxKeyLength := maxKeyLength m; maxBodyCache := maxBodyCache m;
     redisTimeout := redisTimeout m; ttlProvider := ttlProvider m;
     processingTTLProvider := processingTTLProvider m; fingerprintScopeProvider := fingerprintScopeProvider m;
     fingerprintProvider := fingerprintProvider m; tenantProvider := tenantProvider m;
     responseCodec := responseCodec m; clientErrorPolicy := clientErrorPolicy m;
     serverErrorPolicy := serverErrorPolicy m; clientErrorPolicyFunc := clientErrorPolicyFunc m;
     serverErrorPolicyFunc := serverErrorPolicyFunc m; onRejected := onRejected m; onConflict := onConflict m;
     onKeyReuse := onKeyReuse m; onReplayUnavailable := onReplayUnavailable m;
     onKeyRequired := onKeyRequired m; onTenantRequired := onTenantRequired m;
     onUnavailable := onUnavailable m; onPostHandlerUnavailable := onPostHandlerUnavailable m;
     onUnfenced := onUnfenced m; onTerminalRefusal := onTerminalRefusal m; requireKey := requireKey m;
     requireTenant := requireTenant m; failClosed := failClosed m; heartbeatInterval := heartbeatInterval m;
     extender := extender m; configErr := configErr m |}.

Section options.
Context {H : Type}.
Implicit Types (m : Middleware H).

Abbreviation Option := (Middleware H → Middleware H) (only parsing).

Definition heartbeatMinTick : duration := 50 * Millisecond.
Definition MinHeartbeatLease : duration := 3 * heartbeatMinTick.

(** [if provider != nil { m.field = provider }] *)
Abbreviation if_some x m f := (match x with Some _ => f | None => m end) (only parsing).

Definition WithKeyProvider (provider : option (Request H → option bytes)) : Option := λ m,
  if_some provider m (m <| keyProvider := provider |>).
Definition WithKeyPrefix (prefix : bytes) : Option := λ m,
  if is_empty prefix then m else m <| keyPrefix := prefix |>.
Definition WithKeyTTL (ttl : duration) : Option := λ m,
  if bool_decide (0 < ttl) then m <| keyTTL := ttl |> else m.
Definition WithProcessingTTL (d : duration) : Option := λ m,
  if bool_decide (0 < d) then m <| processingTTL := d |> else m.
Definition WithTTLProvider (provider : option (Request H → option duration)) : Option := λ m,
  if_some provider m (m <| ttlProvider := provider |>).
Definition WithProcessingTTLProvider (provider : option (Request H → option duration)) : Option := λ m,
  if_some provider m (m <| processingTTLProvider := provider |>).
Definition WithFingerprintScopeProvider (provider : option (Request H → bytes)) : Option := λ m,
  if_some provider m (m <| fingerprintScopeProvider := provider |>).
Definition WithFingerprintProvider (provider : option (Request H → option bytes)) : Option := λ m,
  if_some provider m (m <| fingerprintProvider := provider |>).
Definition WithTenantProvider (provider : option (Request H → option bytes)) : Option := λ m,
  if_some provider m (m <| tenantProvider := provider |>).
Definition WithResponseCodec (codec : option ResponseCodec) : Option := λ m,
  match codec with Some C => m <| responseCodec := C |> | None => m end.
Definition WithClientErrorPolicy (policy : ClientErrorPolicy) : Option := λ m,
  if (bool_decide (policy = ClientErrorPolicyCache) || bool_decide (policy = ClientErrorPolicyRelease))%bool
  then m <| clientErrorPolicy := policy |> else m.
Definition WithClientErrorPolicyFunc (fn : option (Request H → Response H → Z → ClientErrorPolicy)) : Option := λ m,
  if_some fn m (m <| clientErrorPolicyFunc := fn |>).
Definition WithServerErrorPolicy (policy : ServerErrorPolicy) : Option := λ m,
  if (bool_decide (policy = ServerErrorPolicyRelease) || bool_decide (policy = ServerErrorPolicyFence))%bool
  then m <| serverErrorPolicy := policy |> else m.
Definition WithServerErrorPolicyFunc
    (fn : option (Request H → Response H → Z → option handler_error → ServerErrorPolicy)) : Option := λ m,
  if_some fn m (m <| serverErrorPolicyFunc := fn |>).
Definition WithMaxKeyLength (n : Z) : Option := λ m,
  if bool_decide (0 < n) then m <| maxKeyLength := n |> else m.
Definition WithRedisTimeout (d : duration) : Option := λ m,
  if bool_decide (0 < d) then m <| redisTimeout := d |> else m.
Definition WithRejectedHandler (fn : bool) : Option := λ m, m <| onRejected := fn |>.
Definition WithConflictHandler (fn : bool) : Option := λ m, m <| onConflict := fn |>.
Definition WithKeyReuseHandler (fn : bool) : Option := λ m, m <| onKeyReuse := fn |>.
Definition WithReplayUnavailableHandler (fn : bool) : Option := λ m, m <| onReplayUnavailable := fn |>.
Definition WithRequireKey : Option := λ m, m <| requireKey := true |>.
Definition WithKeyRequiredHandler (fn : bool) : Option := λ m, m <| onKeyRequired := fn |>.
Definition WithRequireTenant : Option := λ m, m <| requireTenant := true |>.
Definition WithTenantRequiredHandler (fn : bool) : Option := λ m, m <| onTenantRequired := fn |>.
Definition WithFailClosed (v : bool) : Option := λ m, m <| failClosed := v |>.
Definition WithUnavailableHandler (fn : bool) : Option := λ m, m <| onUnavailable := fn |>.
Definition WithPostHandlerUnavailableHandler (fn : bool) : Option := λ m, m <| onPostHandlerUnavailable := fn |>.
Definition WithUnfencedHandler (fn : bool) : Option := λ m, m <| onUnfenced := fn |>.
Definition WithTerminalRefusalHandler (fn : bool) : Option := λ m, m <| onTerminalRefusal := fn |>.
Definition WithMaxBodyCache (n : Z) : Option := λ m,
  if bool_decide (0 < n) then m <| maxBodyCache := n |> else m.
Definition WithProcessingHeartbeat (interval : duration) : Option := λ m,
  if bool_decide (0 < interval) then m <| heartbeatInterval := Z.max interval heartbeatMinTick |> else m.

(** [newMiddleware]: the defaults, then the options in order. *)
Definition default_middleware : Middleware H :=
  {| store := {| st_nil := true; st_extends := false |};
     keyProvider := None; keyPrefix := txt "idempotency:"; keyTTL := 7 * 24 * Hour; processingTTL := 0;
     maxKeyLength := 256; maxBodyCache := Z.shiftl 1 20; redisTimeout := 500 * Millisecond;
     ttlProvider := None; processingTTLProvider := None; fingerprintScopeProvider := None;
     fingerprintProvider := None; tenantProvider := None; responseCodec := identityResponseCodec;
     clientErrorPolicy := ClientErrorPolicyCache; serverErrorPolicy := ServerErrorPolicyRelease;
     clientErrorPolicyFunc := None; serverErrorPolicyFunc := None;
     onRejected := false; onConflict := false; onKeyReuse := false; onReplayUnavailable := false;
     onKeyRequired := false; onTenantRequired := false; onUnavailable := false;
     onPostHandlerUnavailable := false; onUnfenced := false; onTerminalRefusal := false;
     requireKey := false; requireTenant := false; failClosed := false;
     heartbeatInterval := 0; extender := false; configErr := false |}.

Definition newMiddleware (opts : list (option (Middleware H → Middleware H))) : Middleware H :=
  foldl (λ m opt, match opt with Some f => f m | None => m end) default_middleware opts.

Definition bindHeartbeat m : Middleware H :=
  if bool_decide (heartbeatInterval m ≤ 0) then m
  else if negb (st_extends (store m)) then m <| configErr := true |>
  else if (bool_decide (0 < processingTTL m) && bool_decide (processingTTL m < MinHeartbeatLease))%bool
  then m <| configErr := true |>
  else if (bool_decide (0 < processingTTL m) && bool_decide (processingTTL m ≤ heartbeatInterval m))%bool
  then m <| configErr := true |>
  else m <| extender := true |>.

(** [New] on a non-nil Redis connection, whose store extends leases. *)
Definition New (conn_nil : bool) (opts : list (option (Middleware H → Middleware H))) : option (Middleware H) :=
  if conn_nil then None
  else Some (bindHeartbeat ((newMiddleware opts) <| store := {| st_nil := false; st_extends := true |} |>)).

Definition NewWithStore (s : store_handle) (opts : list (option (Middleware H → Middleware H))) : Middleware H :=
  bindHeartbeat ((newMiddleware opts) <| store := s |> <| failClosed := true |>).

Definition Err_ (m : option (Middleware H)) : bool :=
  match m with Some m => configErr m | None => false end.

End options.

(** ** Fingerprints *)

Definition requestFingerprintInput (method path body : bytes) : bytes :=
  method ++ [LF] ++ path ++ [LF] ++ body.

Definition fingerprintScopeInput (scope method path body : bytes) : bytes :=
  fingerprintScopeDomain ++ be64 (Z.of_nat (length scope)) ++ scope ++ requestFingerprintInput method path body.

Section requests.
Context {H : Type} `{HeaderOps H, Platform H, Json}.
Implicit Types (m : Middleware H) (q : Request H) (r : Response H).

Definition requestFingerprint (method path body : bytes) : bytes :=
  hex_encode (sha256 (requestFingerprintInput method path body)).

Definition requestFingerprintWithScope (scope method path body : bytes) : bytes :=
  hex_encode (sha256 (fingerprintScopeInput scope method path body)).

(** ** What a request resolves to *)

Definition resolveKey m q : option bytes :=
  match keyProvider m with
  | Some provider => provider q
  | None => Some (q_key_header q)
  end.

(** [None] is [ErrTenantMalformed]; a failing provider leaves the request
    without a tenant. *)
Definition resolveTenant m q : option bytes :=
  match tenantProvider m with
  | None => let tenantID := q_tenant q in if contains (txt ":") tenantID then None else Some tenantID
  | Some provider =>
    match provider q with
    | None => Some []
    | Some tenantID => if contains (txt ":") tenantID then None else Some tenantID
    end
  end.

(** The identity of the request body, and the request the handler then sees. *)
Definition bufferedIdentity q : option (bytes * Request H) :=
  match q_body q with
  | BodyBuffered raw => Some (ctx_body q raw, q)
  | BodyStream _ None => None
  | BodyStream _ (Some read) =>
    let declared := q_content_length q in
    if (bool_decide (0 ≤ declared) && negb (bool_decide (Z.of_nat (length read) = declared)))%bool then None
    else
      let identity := ctx_body (set_body q (BodyBuffered read) declared) read in
      let size := if bool_decide (declared < 0) then -1 else Z.of_nat (length read) in
      Some (identity, set_body q (BodyStream true (Some read)) size)
  end.

Definition resolveFingerprint m q : option (bytes * Request H) :=
  '(identity, q') ←
    match fingerprintProvider m with
    | Some provider => identity ← provider q; Some (identity, q)
    | None => bufferedIdentity q
    end;
  match fingerprintScopeProvider m with
  | Some scope => Some (requestFingerprintWithScope (scope q') (q_method q') (q_path q') identity, q')
  | None => Some (requestFingerprint (q_method q') (q_path q') identity, q')
  end.

Definition resolveTTL m q : option duration :=
  ttl ← match ttlProvider m with Some provider => provider q | None => Some (keyTTL m) end;
  if bool_decide (ttl ≤ 0) then None else Some ttl.

Definition resolveProcessingTTL m q : duration :=
  match processingTTLProvider m with
  | None => processingTTL m
  | Some provider =>
    match provider q with
    | None => processingTTL m
    | Some lease => if bool_decide (lease ≤ 0) then processingTTL m else lease
    end
  end.

Definition storeKey m (tenantID idempotencyKey : bytes) : bytes :=
  keyPrefix m ++ tenantID ++ txt ":" ++ idempotencyKey.

(** ** Policies *)

Definition resolveClientErrorPolicy m q r (status : Z) : ClientErrorPolicy :=
  match clientErrorPolicyFunc m with
  | Some fn => fn q r status
  | None => clientErrorPolicy m
  end.

(** The status a returned [fiber.Error] will be answered with, when the handler
    wrote nothing itself. *)
Definition effectiveStatus r (status : Z) (err : option handler_error) : Z :=
  match err with
  | None => status
  | Some e =>
    if (negb (bool_decide (status = 200)) || rs_stream r || negb (is_empty (rs_body r)))%bool then status
    else match e with FiberError code => code | OtherError => status end
  end.

Definition resolveServerErrorPolicy m q r (status : Z) (err : option handler_error) : ServerErrorPolicy :=
  match serverErrorPolicyFunc m with
  | Some fn => fn q r (effectiveStatus r status err) err
  | None => serverErrorPolicy m
  end.

Definition heartbeatTick (interval lease : duration) : duration :=
  Z.max (Z.min interval (lease `quot` 3)) heartbeatMinTick.

(** ** Captured responses *)

Definition isUncapturedHeader (name : text) : bool :=
  bool_decide (name ∈ [txt "Content-Type"; txt "Content-Length"; txt "Transfer-Encoding"; IdempotencyReplayed]).

(** [strings.Cut(value, "=")] and [strings.TrimSpace] of what is before *)
Definition capturedCookieName (value : text) : text * bool :=
  let '(name, rest) := split_first 61 value in
  (TrimSpace name, match rest with Some _ => true | None => false end).

Record headerSnapshot := { s_headers : gmap text (list text); s_cookies : gmap text text }.

Definition append_value (name value : text) (h : gmap text (list text)) : gmap text (list text) :=
  <[name := default [] (h !! name) ++ [value]]> h.

Definition snapshot_field (s : headerSnapshot) (field : text * text) : headerSnapshot :=
  let '(name, value) := field in
  if isUncapturedHeader name then s
  else if name =t HeaderSetCookie
  then let '(cookieName, ok) := capturedCookieName value in
       if ok then {| s_headers := s_headers s; s_cookies := <[cookieName := value]> (s_cookies s) |} else s
  else {| s_headers := append_value name value (s_headers s); s_cookies := s_cookies s |}.

Definition snapshotResponseHeaders r : headerSnapshot :=
  foldl snapshot_field {| s_headers := ∅; s_cookies := ∅ |} (hdr_all (rs_headers r)).

(** One field of the response after the handler: the live fields, and the
    cookies the handler wrote. *)
Definition live_field (before : headerSnapshot) (acc : gmap text (list text) * list text) (field : text * text) :
    gmap text (list text) * list text :=
  let '(name, value) := field in
  if isUncapturedHeader name then acc
  else if name =t HeaderSetCookie
  then let '(cookieName, ok) := capturedCookieName value in
       if (negb ok || negb (default [] (s_cookies before !! cookieName) =t value))%bool
       then (acc.1, acc.2 ++ [value]) else acc
  else (append_value name value acc.1, acc.2).

(** A name whose values differ from before, and a name the handler removed (with
    no values). *)
Definition delta_values (live before : option (list text)) : option (list text) :=
  match live with
  | Some values => if bool_decide (values = default [] before) then None else Some values
  | None => match before with Some _ => Some [] | None => None end
  end.

Definition captureHeaderDelta r (beforeHandler : headerSnapshot) : gmap text (list text) :=
  let '(live, cookies) := foldl (live_field beforeHandler) (∅, []) (hdr_all (rs_headers r)) in
  let delta := merge delta_values live (s_headers beforeHandler) in
  match cookies with [] => delta | _ => <[HeaderSetCookie := cookies]> delta end.

Definition maxEncodedResponseBytes m : Z :=
  if bool_decide (MaxInt64 `quot` 2 < maxBodyCache m) then MaxInt64 else maxBodyCache m * 2.

Inductive capture_error := errResponseTooLarge | errEmptyEncodedResponse | errMarshalResponse | errEncodeResponse.

Definition captured r (beforeHandler : headerSnapshot) : cachedResponse :=
  {| StatusCode := rs_status r; ContentType := rs_content_type r; Body := rs_body r;
     Headers := captureHeaderDelta r beforeHandler |}.

Definition captureResponse m r (beforeHandler : headerSnapshot) : result capture_error bytes :=
  if bool_decide (maxBodyCache m < Z.of_nat (length (rs_body r))) then Err errResponseTooLarge
  else match marshal_response (captured r beforeHandler) with
  | None => Err errMarshalResponse
  | Some plaintext =>
    match @Encode (responseCodec m) plaintext with
    | None => Err errEncodeResponse
    | Some [] => Err errEmptyEncodedResponse
    | Some encoded =>
      if bool_decide (maxEncodedResponseBytes m < Z.of_nat (length encoded)) then Err errResponseTooLarge
      else Ok encoded
    end
  end.

Definition clearCapturedHeader (name : text) (values : list text) (h : H) : H :=
  if negb (name =t HeaderSetCookie) then hdr_del name h
  else foldl (λ h value, let '(cookieName, ok) := capturedCookieName value in
                         if ok then hdr_del_cookie cookieName h else h) h values.

Definition replay_header (h : H) (field : text * list text) : H :=
  foldl (λ h value, hdr_add field.1 value h) (clearCapturedHeader field.1 field.2 h) field.2.

End requests.

(** ** Every constructed middleware is usable *)

Section configured.
Context {H : Type}.
Implicit Types (m : Middleware H).

(** The options of the library: [Middleware] has no exported fields, so these
    are all there are. *)
Inductive library_option : (Middleware H → Middleware H) → Prop :=
| opt_key_provider p : library_option (WithKeyProvider p)
| opt_key_prefix p : library_option (WithKeyPrefix p)
| opt_key_ttl d : library_option (WithKeyTTL d)
| opt_processing_ttl d : library_option (WithProcessingTTL d)
| opt_ttl_provider p : library_option (WithTTLProvider p)
| opt_processing_ttl_provider p : library_option (WithProcessingTTLProvider p)
| opt_scope p : library_option (WithFingerprintScopeProvider p)
| opt_fingerprint p : library_option (WithFingerprintProvider p)
| opt_tenant p : library_option (WithTenantProvider p)
| opt_codec C : library_option (WithResponseCodec C)
| opt_client_policy p : library_option (WithClientErrorPolicy p)
| opt_client_policy_func p : library_option (WithClientErrorPolicyFunc p)
| opt_server_policy p : library_option (WithServerErrorPolicy p)
| opt_server_policy_func p : library_option (WithServerErrorPolicyFunc p)
| opt_max_key n : library_option (WithMaxKeyLength n)
| opt_timeout d : library_option (WithRedisTimeout d)
| opt_rejected b : library_option (WithRejectedHandler b)
| opt_conflict b : library_option (WithConflictHandler b)
| opt_key_reuse b : library_option (WithKeyReuseHandler b)
| opt_replay_unavailable b : library_option (WithReplayUnavailableHandler b)
| opt_require_key : library_option WithRequireKey
| opt_key_required b : library_option (WithKeyRequiredHandler b)
| opt_require_tenant : library_option WithRequireTenant
| opt_tenant_required b : library_option (WithTenantRequiredHandler b)
| opt_fail_closed b : library_option (WithFailClosed b)
| opt_unavailable b : library_option (WithUnavailableHandler b)
| opt_post_unavailable b : library_option (WithPostHandlerUnavailableHandler b)
| opt_unfenced b : library_option (WithUnfencedHandler b)
| opt_terminal b : library_option (WithTerminalRefusalHandler b)
| opt_max_body n : library_option (WithMaxBodyCache n)
| opt_heartbeat d : library_option (WithProcessingHeartbeat d).

Definition is_option (o : option (Middleware H → Middleware H)) : Prop :=
  match o with Some f => library_option f | None => True end.

(** What the options keep. *)
Record sane m : Prop := {
  sane_prefix : keyPrefix m ≠ [];
  sane_ttl : 0 < keyTTL m;
  sane_lease : 0 ≤ processingTTL m;
  sane_key_length : 0 < maxKeyLength m;
  sane_body : 0 < maxBodyCache m;
  sane_timeout : 0 < redisTimeout m;
  sane_heartbeat : heartbeatInterval m = 0 ∨ heartbeatMinTick ≤ heartbeatInterval m;
  sane_unbound : extender m = false ∧ configErr m = false;
}.

Lemma option_sane f m : library_option f → sane m → sane (f m).
Proof.
  intros Ho [? ? ? ? ? ? ? ?]. destruct Ho; unfold WithKeyProvider, WithKeyPrefix, WithKeyTTL, WithProcessingTTL,
    WithTTLProvider, WithProcessingTTLProvider, WithFingerprintScopeProvider, WithFingerprintProvider, WithTenantProvider,
    WithResponseCodec, WithClientErrorPolicy, WithClientErrorPolicyFunc, WithServerErrorPolicy, WithServerErrorPolicyFunc,
    WithMaxKeyLength, WithRedisTimeout, WithMaxBodyCache, WithProcessingHeartbeat;
    repeat case_match; bool_to_prop; split; simpl; try done; try lia. by apply is_empty_false.
Qed.

Lemma newMiddleware_sane opts : Forall is_option opts → sane (newMiddleware opts).
Proof.
  unfold newMiddleware. intros Ho.
  assert (Hd : sane (@default_middleware H)) by (split; try done; by left).
  revert Hd. generalize (@default_middleware H). induction Ho as [|[f|] opts Hf _ IH]; intros m Hm; simpl; [done| |by apply IH].
  apply IH. by apply option_sane.
Qed.

(** The tick fits the lease three times. *)
Lemma heartbeatTick_fits interval lease :
  MinHeartbeatLease ≤ lease → heartbeatMinTick ≤ heartbeatTick interval lease ∧ 3 * heartbeatTick interval lease ≤ lease.
Proof.
  unfold heartbeatTick, MinHeartbeatLease, heartbeatMinTick, Millisecond. intros.
  pose proof (Z.quot_div_nonneg lease 3). pose proof (Z.mul_div_le lease 3). lia.
Qed.

(** A middleware ready to serve: its limits are positive, and a heartbeat that was
    asked for either is bound, with a fixed lease that it can hold, or is reported
    as a configuration error, which refuses every protected request. *)
Record ready m : Prop := {
  ready_prefix : keyPrefix m ≠ [];
  ready_limits : 0 < keyTTL m ∧ 0 ≤ processingTTL m ∧ 0 < maxKeyLength m ∧ 0 < maxBodyCache m ∧ 0 < redisTimeout m;
  ready_unasked : heartbeatInterval m = 0 → extender m = false ∧ configErr m = false;
  ready_asked : heartbeatInterval m ≠ 0 → extender m = negb (configErr m);
  ready_bound : extender m = true →
    st_extends (store m) = true ∧ heartbeatMinTick ≤ heartbeatInterval m ∧
    (0 < processingTTL m → MinHeartbeatLease ≤ processingTTL m ∧ heartbeatInterval m < processingTTL m);
}.

Lemma bindHeartbeat_ready m : sane m → ready (bindHeartbeat m).
Proof.
  intros [? ? ? ? ? ? Hh [He Hc]]. unfold bindHeartbeat.
  destruct (bool_decide (heartbeatInterval m ≤ 0)) eqn:Hi; bool_to_prop.
  { assert (heartbeatInterval m = 0) by (unfold heartbeatMinTick, Millisecond in *; lia).
    split; try done; try lia; by rewrite He. }
  destruct (negb (st_extends (store m))) eqn:Hs; bool_to_prop;
    [split; simpl; try done; try lia; by rewrite He|].
  assert (Hmin : heartbeatMinTick ≤ heartbeatInterval m) by (unfold heartbeatMinTick, Millisecond in *; lia).
  destruct (bool_decide (0 < processingTTL m)) eqn:Hp; simpl; bool_to_prop.
  - destruct (bool_decide (processingTTL m < MinHeartbeatLease)) eqn:H1;
      [|destruct (bool_decide (processingTTL m ≤ heartbeatInterval m)) eqn:H2]; bool_to_prop;
      split; simpl; rewrite ?He, ?Hc; try done; try lia.
    intros _. split; [done|]. split; [done|]. lia.
  - split; simpl; rewrite ?Hc; try done; try lia.
Qed.

(** Every middleware the constructors return, whatever options they are given in whatever order, has a key
    prefix and positive limits, and its heartbeat is either off, or bound to a store that can extend leases
    with a fixed lease it can hold, or a reported configuration error; a middleware over a custom store fails
    closed. *)
Theorem constructed_middleware_ready opts s :
  Forall is_option opts →
  (∃ m, New false opts = Some m ∧ ready m) ∧ ready (NewWithStore s opts) ∧ failClosed (NewWithStore s opts) = true.
Proof.
  intros Ho%newMiddleware_sane. split; [eexists; split; [done|]|split].
  - apply bindHeartbeat_ready. destruct Ho. by split.
  - apply bindHeartbeat_ready. destruct Ho. by split.
  - unfold NewWithStore, bindHeartbeat. by repeat case_match.
Qed.

End configured.
