(* ===== verification/IdempotencyFlow.v ===== *)
(** What one request does in the idempotency middleware: the answers, the
    handling of a request as a program over the store and the handler
    ([handle], [handleStore], [handleStoreAcquired] of
    [net/http/idempotency/idempotency.go]) and the application's own fence
    ([FenceOutcomeUnknown]).

    A [prog] is a tree: a node is one store call or one run of the protected
    handler, and has a continuation for every answer.  Context deadlines and
    lost connections are answers of the store. *)

From stdpp Require Import base numbers list gmap strings sets.
From S2P Require Import Prelude GoText Idempotency.

Local Open Scope Z_scope.
Local Open Scope go_scope.

(** ** Programs *)

(** The answer of [Store.Acquire]. *)
Inductive acquire_answer := AcqFailed | Acquired | Held (current : bytes).

(** A handler that runs behind an acquired key: the record the heartbeat
    renews, the lease, and how often it beats. *)
Record hold := { hd_key : bytes; hd_processing : bytes; hd_lease : duration; hd_tick : option duration }.

Inductive prog (H A : Type) :=
| Ret (a : A)
| DoAcquire (key candidate : bytes) (ttl : duration) (k : acquire_answer → prog H A)
| DoComplete (key expected completed : bytes) (ttl : duration) (k : option bool → prog H A)
| DoRelease (key expected : bytes) (k : option bool → prog H A)
| RunHandler (q : Request H) (g : option hold) (k : outcome H → prog H A).
Arguments Ret {H A} a.
Arguments DoAcquire {H A} key candidate ttl k.
Arguments DoComplete {H A} key expected completed ttl k.
Arguments DoRelease {H A} key expected k.
Arguments RunHandler {H A} q g k.

#[export] Instance prog_ret H : MRet (prog H) := λ A, Ret.

#[export] Instance prog_bind H : MBind (prog H) := λ A B f,
  fix bind p :=
    match p with
    | Ret a => f a
    | DoAcquire key c ttl k => DoAcquire key c ttl (λ x, bind (k x))
    | DoComplete key e c ttl k => DoComplete key e c ttl (λ x, bind (k x))
    | DoRelease key e k => DoRelease key e (λ x, bind (k x))
    | RunHandler q g k => RunHandler q g (λ x, bind (k x))
    end.

#[export] Instance prog_fmap H : FMap (prog H) := λ A B f p, p ≫= λ a, Ret (f a).

Definition acquire {H} (key candidate : bytes) (ttl : duration) : prog H acquire_answer :=
  DoAcquire key candidate ttl Ret.
Definition complete {H} (key expected completed : bytes) (ttl : duration) : prog H (option bool) :=
  DoComplete key expected completed ttl Ret.
Definition release {H} (key expected : bytes) : prog H (option bool) := DoRelease key expected Ret.
Definition run_handler {H} (q : Request H) (g : option hold) : prog H (outcome H) := RunHandler q g Ret.

(** ** Answers *)

Section flow.
Context {H : Type} `{HeaderOps H, Platform H, Json}.
Implicit Types (m : Middleware H) (q : Request H) (r : Response H).

Definition respondUnavailable m : Answer H :=
  if onUnavailable m then plain (AnsweredBy UnavailableHandler)
  else plain (Refused 503 (txt "IDEMPOTENCY_UNAVAILABLE")).

Definition respondKeyRequired m : Answer H :=
  if onKeyRequired m then plain (AnsweredBy KeyRequiredHandler)
  else plain (Refused 400 (txt "IDEMPOTENCY_KEY_REQUIRED")).

Definition respondTenantRequired m : Answer H :=
  if onTenantRequired m then plain (AnsweredBy TenantRequiredHandler)
  else plain (Refused 400 (txt "IDEMPOTENCY_TENANT_REQUIRED")).

Definition respondPostHandlerStoreError m : Answer H :=
  if onPostHandlerUnavailable m then plain (AnsweredBy PostHandlerUnavailableHandler)
  else if onUnavailable m then plain (AnsweredBy UnavailableHandler)
  else plain (Refused 503 (txt "IDEMPOTENCY_UNAVAILABLE")).

Definition respondUnrecognisedState m : Answer H :=
  if onTerminalRefusal m then plain (AnsweredBy (TerminalRefusalHandler RefusalCodeStateUnrecognised))
  else if onPostHandlerUnavailable m then plain (AnsweredBy PostHandlerUnavailableHandler)
  else plain (Refused 422 RefusalCodeStateUnrecognised).

Definition respondUnreadableRecord m : Answer H :=
  if onTerminalRefusal m then plain (AnsweredBy (TerminalRefusalHandler RefusalCodeRecordUnreadable))
  else if onPostHandlerUnavailable m then plain (AnsweredBy PostHandlerUnavailableHandler)
  else plain (Refused 422 RefusalCodeRecordUnreadable).

Definition respondUnfenced m : Answer H :=
  if onUnfenced m then plain (AnsweredBy UnfencedHandler)
  else plain (Refused 503 (txt "IDEMPOTENCY_UNFENCED")).

Definition respondOutcomeUnknown m : Answer H :=
  if onTerminalRefusal m then plain (AnsweredBy (TerminalRefusalHandler RefusalCodeOutcomeUnrecorded))
  else if onPostHandlerUnavailable m then plain (AnsweredBy PostHandlerUnavailableHandler)
  else plain (Refused 422 RefusalCodeOutcomeUnrecorded).

Definition respondReplayUnavailable m : Answer H :=
  if onReplayUnavailable m then plain (AnsweredBy ReplayUnavailableHandler)
  else plain (Refused 409 RefusalCodeReplayUnavailable).

Definition respondConflict m : Answer H :=
  {| a_reply := if onConflict m then AnsweredBy ConflictHandler else Refused 409 (txt "IDEMPOTENCY_CONFLICT");
     a_replayed := true; a_retry_after := true; a_fenced := None; a_close := false |}.

Definition respondKeyReuse m : Answer H :=
  if onKeyReuse m then plain (AnsweredBy KeyReuseHandler)
  else plain (Refused 422 (txt "IDEMPOTENCY_KEY_REUSE")).

Definition refuseUnholdableLease m : Answer H := respondUnavailable m.

(** The stored response written over the live one. *)
Definition replay m q (encoded : bytes) : Answer H :=
  if (is_empty encoded || bool_decide (maxEncodedResponseBytes m < Z.of_nat (length encoded)))%bool
  then respondPostHandlerStoreError m
  else match @Decode (responseCodec m) encoded with
  | None | Some [] => respondPostHandlerStoreError m
  | Some plaintext =>
    if bool_decide (maxEncodedResponseBytes m < Z.of_nat (length plaintext)) then respondPostHandlerStoreError m
    else match unmarshal_response plaintext with
    | None => respondPostHandlerStoreError m
    | Some response =>
      if (bool_decide (StatusCode response < 100) || bool_decide (599 < StatusCode response)
          || bool_decide (maxBodyCache m < Z.of_nat (length (Body response))))%bool
      then respondPostHandlerStoreError m
      else
        let h := hdr_set IdempotencyReplayed (txt "true") (rs_headers (q_response q)) in
        let h := foldl replay_header h (map_order (Headers response)) in
        {| a_reply := Replayed {| rs_status := StatusCode response; rs_content_type := ContentType response;
                                  rs_body := Body response; rs_stream := false; rs_headers := h |};
           a_replayed := true; a_retry_after := false; a_fenced := None; a_close := false |}
    end
  end.

Definition decodeLegacyRecord (stored : bytes) : option storeRecord :=
  let '(state, rest) := split_first 58 stored in
  match rest with
  | Some fingerprint =>
    if (bool_decide (state = keyStateProcessing) || bool_decide (state = keyStateComplete))%bool
    then Some {| State := state; Fingerprint := fingerprint; Owner := []; Response_ := []; Outcome := [] |}
    else None
  | None => None
  end.

Definition respondLegacy m (legacy : storeRecord) (fingerprint : bytes) : Answer H :=
  if negb (Fingerprint legacy =t fingerprint) then respondKeyReuse m
  else if State legacy =t keyStateProcessing then respondConflict m
  else {| a_reply := AlreadyProcessed; a_replayed := true; a_retry_after := false; a_fenced := None;
          a_close := false |}.

(** The answer from a key that is occupied. *)
Definition answer_stored m q (fingerprint stored : bytes) : Answer H :=
  match unmarshal_record stored with
  | None =>
    match decodeLegacyRecord stored with
    | None => respondUnreadableRecord m
    | Some legacy => respondLegacy m legacy fingerprint
    end
  | Some current =>
    if negb (Fingerprint current =t fingerprint) then respondKeyReuse m
    else if Outcome current =t outcomeUnrecorded then respondOutcomeUnknown m
    else if Outcome current =t outcomeNotReplayable then respondReplayUnavailable m
    else if State current =t keyStateProcessing then respondConflict m
    else if State current =t keyStateComplete then replay m q (Response_ current)
    else respondUnrecognisedState m
  end.

(** ** After the handler *)

Definition releaseOwned (key processing : bytes) : prog H unit :=
  _ ← release key processing; mret tt.

Definition unknown_record (record : storeRecord) : storeRecord :=
  {| State := keyStateComplete; Fingerprint := Fingerprint record; Owner := Owner record; Response_ := [];
     Outcome := outcomeUnrecorded |}.

Definition markOutcomeUnknown (key processing : bytes) (record : storeRecord) (ttl : duration) : prog H bool :=
  match marshal_record (unknown_record record) with
  | None => mret false
  | Some unknown =>
    applied ← complete key processing unknown ttl;
    mret (bool_decide (applied = Some true))
  end.

Definition failPostHandler m (key processing : bytes) (record : storeRecord) (ttl : duration) : prog H (Answer H) :=
  fenced ← markOutcomeUnknown key processing record ttl;
  if negb fenced then mret (with_fenced fenced (respondUnfenced m))
  else mret (with_fenced fenced (respondPostHandlerStoreError m)).

Definition completed_record (record : storeRecord) (response : bytes) : storeRecord :=
  {| State := keyStateComplete; Fingerprint := Fingerprint record; Owner := Owner record; Response_ := response;
     Outcome := Outcome record |}.

Definition not_replayable (record : storeRecord) : storeRecord :=
  {| State := State record; Fingerprint := Fingerprint record; Owner := Owner record;
     Response_ := Response_ record; Outcome := outcomeNotReplayable |}.

(** What is recorded of a run whose response counts: [None] when the receipt
    could not be produced. *)
Definition completion m (record : storeRecord) (o : outcome H) (beforeHandler : headerSnapshot) :
    option storeRecord :=
  match captureResponse m (h_response o) beforeHandler with
  | Ok response => Some (completed_record record response)
  | Err errResponseTooLarge => Some (completed_record (not_replayable record) [])
  | Err _ => None
  end.

Definition settle_completed m q (key processing : bytes) (record : storeRecord) (ttl : duration) (o : outcome H)
    (beforeHandler : headerSnapshot) : prog H (Answer H) :=
  match completion m record o beforeHandler with
  | None => failPostHandler m key processing record ttl
  | Some final =>
    match marshal_record final with
    | None => failPostHandler m key processing final ttl
    | Some completed =>
      applied ← complete key processing completed ttl;
      if bool_decide (applied = Some true) then mret (plain (Passed o))
      else failPostHandler m key processing final ttl
    end
  end.

(** The bookkeeping that follows a guarded run of the handler. *)
Definition settle m q (key processing : bytes) (record : storeRecord) (ttl : duration)
    (beforeHandler : headerSnapshot) (o : outcome H) : prog H (Answer H) :=
  let statusCode := rs_status (h_response o) in
  if (bool_decide (h_err o ≠ None) || bool_decide (500 ≤ statusCode))%bool then
    if bool_decide (resolveServerErrorPolicy m q (h_response o) statusCode (h_err o) = ServerErrorPolicyFence)
    then fenced ← markOutcomeUnknown key processing record ttl; mret (with_fenced fenced (plain (Passed o)))
    else releaseOwned key processing;; mret (plain (Passed o))
  else if (bool_decide (400 ≤ statusCode)
           && bool_decide (resolveClientErrorPolicy m q (h_response o) statusCode = ClientErrorPolicyRelease))%bool
  then releaseOwned key processing;; mret (plain (Passed o))
  else settle_completed m q key processing record ttl o beforeHandler.

Definition runChainWithHeartbeat m q (key processing : bytes) (lease : duration) : prog H (outcome H) :=
  run_handler q (Some {| hd_key := key; hd_processing := processing; hd_lease := lease;
                         hd_tick := if extender m then Some (heartbeatTick (heartbeatInterval m) lease) else None |}).

Definition handleStoreAcquired m q (key processing : bytes) (record : storeRecord) (ttl lease : duration) :
    prog H (Answer H) :=
  let beforeHandler := snapshotResponseHeaders (q_response q) in
  o ← runChainWithHeartbeat m q key processing lease;
  settle m q key processing record ttl beforeHandler o.

(** ** Handling a request *)

(** How a request leaves the middleware: whether the chain below ran (the
    [chainRanKey] local), the request as it then is, and the answer. *)
Record exit := { x_ran : bool; x_request : Request H; x_answer : Answer H }.

Definition refuse q (a : Answer H) : prog H exit := mret {| x_ran := false; x_request := q; x_answer := a |}.

Definition runChain q : prog H exit :=
  o ← run_handler q None; mret {| x_ran := true; x_request := q; x_answer := plain (Passed o) |}.

Definition onStoreError m q : prog H exit :=
  if negb (failClosed m) then runChain q else refuse q (respondUnavailable m).

Definition processing_record (fingerprint owner : bytes) : storeRecord :=
  {| State := keyStateProcessing; Fingerprint := fingerprint; Owner := owner; Response_ := []; Outcome := [] |}.

Definition handleStore m (owner : bytes) q (key fingerprint : bytes) (ttl lease : duration) : prog H exit :=
  let record := processing_record fingerprint owner in
  match marshal_record record with
  | None => onStoreError m q
  | Some processing =>
    let lease := if bool_decide (lease ≤ 0) then ttl else lease in
    if (extender m && bool_decide (lease < MinHeartbeatLease))%bool then refuse q (refuseUnholdableLease m)
    else
      answer ← acquire key processing lease;
      match answer with
      | AcqFailed => onStoreError m q
      | Acquired =>
        a ← handleStoreAcquired m q key processing record ttl lease;
        mret {| x_ran := true; x_request := q; x_answer := a |}
      | Held stored => refuse q (answer_stored m q fingerprint stored)
      end
  end.

Definition fasthttpStreamPreRead : Z := Z.shiftl 8 10.

Definition retireUnreadRequestStream (x : exit) : Answer H :=
  if x_ran x then x_answer x
  else match q_body (x_request x) with
  | BodyBuffered _ => x_answer x
  | BodyStream rewindable _ =>
    if rewindable then x_answer x
    else
      let contentLength := q_content_length (x_request x) in
      if (bool_decide (0 ≤ contentLength) && bool_decide (contentLength ≤ fasthttpStreamPreRead)
          && bool_decide (contentLength ≤ q_body_limit (x_request x)))%bool
      then x_answer x
      else with_close true (x_answer x)
  end.

Definition mutating (method : bytes) : bool :=
  bool_decide (method ∈ [txt "POST"; txt "PUT"; txt "PATCH"; txt "DELETE"]).

(** The body of [handle], before its deferred call. *)
Definition handle_body m (owner : bytes) q : prog H exit :=
  if negb (mutating (q_method q)) then runChain q
  else match resolveKey m q with
  | None => refuse q (respondUnavailable m)
  | Some idempotencyKey =>
    if is_empty idempotencyKey then
      if requireKey m then refuse q (respondKeyRequired m) else runChain q
    else if bool_decide (maxKeyLength m < Z.of_nat (length idempotencyKey)) then
      refuse q (if onRejected m then plain (AnsweredBy RejectedHandler)
                else plain (Refused 400 (txt "VALIDATION_ERROR")))
    else match resolveTenant m q with
    | None => refuse q (plain (Refused 400 (txt "IDEMPOTENCY_TENANT_MALFORMED")))
    | Some tenantID =>
      if is_empty tenantID then
        if requireTenant m then refuse q (respondTenantRequired m) else runChain q
      else
        let key := storeKey m tenantID idempotencyKey in
        if configErr m then refuse q (respondUnavailable m)
        else if st_nil (store m) then onStoreError m q
        else match resolveFingerprint m q with
        | None => refuse q (respondUnavailable m)
        | Some (fingerprint, q') =>
          match resolveTTL m q' with
          | None => refuse q' (respondUnavailable m)
          | Some ttl => handleStore m owner q' key fingerprint ttl (resolveProcessingTTL m q')
          end
        end
    end
  end.

Definition handle m (owner : bytes) q : prog H (Answer H) :=
  retireUnreadRequestStream <$> handle_body m owner q.

(** [Check]: a nil middleware lets every request pass. *)
Definition Check_ (m : option (Middleware H)) (owner : bytes) q : prog H (Answer H) :=
  match m with
  | None => x ← runChain q; mret (x_answer x)
  | Some m => handle m owner q
  end.

(** ** The application's fence *)

Inductive fence_error :=
| errFenceStoreMissing | errInvalidTTL | errFenceKeyProvider | errFenceKeyMissing | errFenceKeyTooLong
| ErrTenantMalformed | errFenceTenantMissing | errFenceFingerprint | errFenceMarshal | errFenceAcquire
| ErrFenceKeyHeld.

Definition fence_record (fingerprint owner : bytes) : storeRecord :=
  {| State := keyStateComplete; Fingerprint := fingerprint; Owner := owner; Response_ := [];
     Outcome := outcomeUnrecorded |}.

Definition fence_held (fingerprint stored : bytes) : result fence_error unit :=
  match unmarshal_record stored with
  | None => Err ErrFenceKeyHeld
  | Some current =>
    if (negb (Outcome current =t outcomeUnrecorded) || negb (Fingerprint current =t fingerprint))%bool
    then Err ErrFenceKeyHeld else Ok tt
  end.

Definition FenceOutcomeUnknown m (owner : bytes) q (ttl : duration) : prog H (result fence_error unit) :=
  if st_nil (store m) then mret (Err errFenceStoreMissing)
  else if bool_decide (ttl ≤ 0) then mret (Err errInvalidTTL)
  else match resolveKey m q with
  | None => mret (Err errFenceKeyProvider)
  | Some idempotencyKey =>
    if is_empty idempotencyKey then mret (Err errFenceKeyMissing)
    else if bool_decide (maxKeyLength m < Z.of_nat (length idempotencyKey)) then mret (Err errFenceKeyTooLong)
    else match resolveTenant m q with
    | None => mret (Err ErrTenantMalformed)
    | Some tenantID =>
      if is_empty tenantID then mret (Err errFenceTenantMissing)
      else match resolveFingerprint m q with
      | None => mret (Err errFenceFingerprint)
      | Some (fingerprint, _) =>
        match marshal_record (fence_record fingerprint owner) with
        | None => mret (Err errFenceMarshal)
        | Some fence =>
          answer ← acquire (storeKey m tenantID idempotencyKey) fence ttl;
          mret (match answer with
                | AcqFailed => Err errFenceAcquire
                | Acquired => Ok tt
                | Held stored => fence_held fingerprint stored
                end)
        end
      end
    end
  end.

End flow.
Arguments exit : clear implicits.
