(* ===== verification/IdempotencyStore.v ===== *)
(** The store of the idempotency middleware: the contract of [Store] and
    [LeaseExtender] ([net/http/idempotency/store.go], [heartbeat.go]) as a class
    with its laws, and the Redis store ([redis_store.go]) as an instance.

    Time is the store's clock in nanoseconds.  Redis counts milliseconds and
    removes an expired key when a command touches it; so two stores are compared
    by what is visible from now on ([≈{now}]), not by their contents. *)

From stdpp Require Import base numbers list gmap strings sets.
From S2P Require Import Prelude GoText Idempotency IdempotencyFlow.

Local Open Scope Z_scope.
Local Open Scope go_scope.

(** ** The contract *)

(** A key's value and the last instant at which it is visible. *)
Abbreviation entries := (gmap bytes (bytes * Z)).

Definition live (e : entries) (now : Z) (key : bytes) : option bytes :=
  match e !! key with
  | Some (v, last) => if bool_decide (now ≤ last) then Some v else None
  | None => None
  end.

(** The visible part of a store: the value and the deadline. *)
Definition visible (e : entries) (now : Z) (key : bytes) : option (bytes * Z) :=
  match e !! key with
  | Some (v, last) => if bool_decide (now ≤ last) then Some (v, last) else None
  | None => None
  end.

Definition same_from (now : Z) (e1 e2 : entries) : Prop := ∀ key, visible e1 now key = visible e2 now key.
Notation "e1 ≈{ now } e2" := (same_from now e1 e2) (at level 70, format "e1  ≈{ now }  e2") : go_scope.

#[export] Instance same_from_equiv now : Equivalence (same_from now).
Proof. split; unfold same_from; [done|by intros ???|intros ??? E1 E2 k; by rewrite E1]. Qed.

(** What each operation does to the entries; [last] is the deadline a write
    gets. *)
Definition do_acquire (now : Z) (key candidate : bytes) (ttl last : Z) (e : entries) : acquire_answer * entries :=
  if bool_decide (ttl ≤ 0) then (AcqFailed, e)
  else match live e now key with
  | Some v => (Held v, e)
  | None => (Acquired, <[key := (candidate, last)]> e)
  end.

Definition do_complete (now : Z) (key expected completed : bytes) (ttl last : Z) (e : entries) :
    option bool * entries :=
  if bool_decide (ttl ≤ 0) then (None, e)
  else if bool_decide (live e now key = Some expected) then (Some true, <[key := (completed, last)]> e)
  else (Some false, e).

Definition do_release (now : Z) (key expected : bytes) (e : entries) : option bool * entries :=
  if bool_decide (live e now key = Some expected) then (Some true, delete key e) else (Some false, e).

Definition do_extend (now : Z) (key expected : bytes) (ttl last : Z) (e : entries) : option bool * entries :=
  if bool_decide (ttl ≤ 0) then (None, e)
  else if bool_decide (live e now key = Some expected) then (Some true, <[key := (expected, last)]> e)
  else (Some false, e).

Class Store (S : Type) := {
  view : S → entries;
  deadline : Z → duration → Z;
  st_acquire : Z → bytes → bytes → duration → S → acquire_answer * S;
  st_complete : Z → bytes → bytes → bytes → duration → S → option bool * S;
  st_release : Z → bytes → bytes → S → option bool * S;
  st_extend : Z → bytes → bytes → duration → S → option bool * S;
}.

(** The answer is the contract's, and so is what is visible afterwards. *)
Definition agrees {S : Type} `{Store S} {A} (now : Z) (got : A * S) (want : A * entries) : Prop :=
  got.1 = want.1 ∧ view got.2 ≈{now} want.2.

Class StoreLaws (S : Type) `{Store S} : Prop := {
  deadline_covers now ttl : 0 < ttl → now < deadline now ttl;
  acquire_contract now key c ttl s :
    agrees now (st_acquire now key c ttl s) (do_acquire now key c ttl (deadline now ttl) (view s));
  complete_contract now key x c ttl s :
    agrees now (st_complete now key x c ttl s) (do_complete now key x c ttl (deadline now ttl) (view s));
  release_contract now key x s :
    agrees now (st_release now key x s) (do_release now key x (view s));
  extend_contract now key x ttl s :
    agrees now (st_extend now key x ttl s) (do_extend now key x ttl (deadline now ttl) (view s));
}.

(** *** Facts about visible entries *)

Lemma live_visible e now key : live e now key = fst <$> visible e now key.
Proof. unfold live, visible. destruct (e !! key) as [[v l]|]; [|done]. by case_bool_decide. Qed.

Lemma visible_insert e now key v last :
  now ≤ last → visible (<[key := (v, last)]> e) now key = Some (v, last).
Proof. intros. unfold visible. rewrite lookup_insert_eq. by rewrite bool_decide_true. Qed.

Lemma visible_insert_ne e now key key' x : key ≠ key' → visible (<[key := x]> e) now key' = visible e now key'.
Proof. intros. unfold visible. by rewrite lookup_insert_ne. Qed.

Lemma visible_delete e now key : visible (delete key e) now key = None.
Proof. unfold visible. by rewrite lookup_delete_eq. Qed.

Lemma visible_delete_ne e now key key' : key ≠ key' → visible (delete key e) now key' = visible e now key'.
Proof. intros. unfold visible. by rewrite lookup_delete_ne. Qed.

Lemma visible_later e now now' key :
  now ≤ now' →
  visible e now' key = (visible e now key) ≫= λ '(v, last), if bool_decide (now' ≤ last) then Some (v, last) else None.
Proof.
  intros ?. unfold visible. destruct (e !! key) as [[v l]|]; [|done].
  repeat case_bool_decide; simpl; repeat case_bool_decide; first [done|lia].
Qed.

Lemma same_from_later now now' e1 e2 : now ≤ now' → e1 ≈{now} e2 → e1 ≈{now'} e2.
Proof. intros Hle E key. rewrite !(visible_later _ now now') by done. by rewrite E. Qed.

Lemma same_from_live now e1 e2 key : e1 ≈{now} e2 → live e1 now key = live e2 now key.
Proof. intros E. by rewrite !live_visible, E. Qed.

#[export] Instance insert_same_from now key x : Proper (same_from now ==> same_from now) (insert key x).
Proof.
  intros e1 e2 E key'. destruct (decide (key = key')) as [<-|Hne].
  - unfold visible. by rewrite !lookup_insert_eq.
  - by rewrite !visible_insert_ne.
Qed.

#[export] Instance delete_same_from now key : Proper (same_from now ==> same_from now) (delete key).
Proof.
  intros e1 e2 E key'. destruct (decide (key = key')) as [<-|Hne].
  - by rewrite !visible_delete.
  - by rewrite !visible_delete_ne.
Qed.

(** The contract's operations depend only on what is visible. *)
Definition same_answer {A} (now : Z) (p1 p2 : A * entries) : Prop := p1.1 = p2.1 ∧ p1.2 ≈{now} p2.2.

#[export] Instance same_answer_equiv {A} now : Equivalence (@same_answer A now).
Proof.
  split; unfold same_answer; [done| |].
  - intros ?? [-> E]. by rewrite E.
  - intros ??? [-> E1] [-> E2]. by rewrite E1, E2.
Qed.

Ltac same_op E := unfold same_answer; rewrite ?(same_from_live _ _ _ _ E); repeat split_match; simpl; split; try done; by rewrite E.

#[export] Instance do_acquire_proper now key c ttl last :
  Proper (same_from now ==> same_answer now) (do_acquire now key c ttl last).
Proof. intros e1 e2 E. unfold do_acquire. same_op E. Qed.

#[export] Instance do_complete_proper now key x c ttl last :
  Proper (same_from now ==> same_answer now) (do_complete now key x c ttl last).
Proof. intros e1 e2 E. unfold do_complete. same_op E. Qed.

#[export] Instance do_release_proper now key x :
  Proper (same_from now ==> same_answer now) (do_release now key x).
Proof. intros e1 e2 E. unfold do_release. same_op E. Qed.

#[export] Instance do_extend_proper now key x ttl last :
  Proper (same_from now ==> same_answer now) (do_extend now key x ttl last).
Proof. intros e1 e2 E. unfold do_extend. same_op E. Qed.

(** ** Redis *)

Module Redis.

(** The server: a value and the millisecond after which it is expired. *)
Record db := { keys : entries }.

Definition ms (now : Z) : Z := now `div` Millisecond.

Definition GET (now : Z) (key : bytes) (d : db) : option bytes * db :=
  match keys d !! key with
  | None => (None, d)
  | Some (v, at_ms) =>
    if bool_decide (at_ms < ms now) then (None, {| keys := delete key (keys d) |}) else (Some v, d)
  end.

Definition SET_PX (now : Z) (key v : bytes) (px : Z) (d : db) : db := {| keys := <[key := (v, ms now + px)]> (keys d) |}.

Definition SET_PX_NX (now : Z) (key v : bytes) (px : Z) (d : db) : bool * db :=
  let '(current, d) := GET now key d in
  match current with
  | Some _ => (false, d)
  | None => (true, SET_PX now key v px d)
  end.

Definition DEL (key : bytes) (d : db) : db := {| keys := delete key (keys d) |}.

Definition PEXPIRE (now : Z) (key : bytes) (px : Z) (d : db) : db :=
  let '(current, d) := GET now key d in
  match current with
  | Some v => {| keys := <[key := (v, ms now + px)]> (keys d) |}
  | None => d
  end.

(** What the client library hands back of a script's result. *)
Inductive reply_value := RInt (n : Z) | RString (s : bytes) | RArray (l : list reply_value) | RNil.

Definition redisAcquireScript (now : Z) (key candidate : bytes) (px : Z) (d : db) : reply_value * db :=
  let '(current, d) := GET now key d in
  match current with
  | Some v => (RArray [RInt 0; RString v], d)
  | None =>
    let '(created, d) := SET_PX_NX now key candidate px d in
    if created then (RArray [RInt 1; RString []], d)
    else
      let '(current, d) := GET now key d in
      match current with
      | Some v => (RArray [RInt 0; RString v], d)
      | None => (RArray [RInt (-1); RString []], d)
      end
  end.

(** [if not current or current ~= ARGV[1] then return 0 end] *)
Definition if_current (now : Z) (key expected : bytes) (d : db) (f : db → db) : reply_value * db :=
  let '(current, d) := GET now key d in
  if bool_decide (current = Some expected) then (RInt 1, f d) else (RInt 0, d).

Definition redisCompleteScript (now : Z) (key expected completed : bytes) (px : Z) (d : db) : reply_value * db :=
  if_current now key expected d (SET_PX now key completed px).

Definition redisReleaseScript (now : Z) (key expected : bytes) (d : db) : reply_value * db :=
  if_current now key expected d (DEL key).

Definition redisExtendScript (now : Z) (key expected : bytes) (px : Z) (d : db) : reply_value * db :=
  if_current now key expected d (PEXPIRE now key px).

(** *** The store methods *)

(** What happens to one round trip: no client, the command never ran, it ran and
    the reply was lost, or it was answered. *)
Inductive trip := NoClient | NotRun | ReplyLost | Replied.

Definition run {A} (t : trip) (failed : A) (script : db → reply_value * db) (parse : reply_value → A) (d : db) : A * db :=
  match t with
  | NoClient | NotRun => (failed, d)
  | ReplyLost => (failed, (script d).2)
  | Replied => let '(v, d) := script d in (parse v, d)
  end.

Definition redisTTLMilliseconds (ttl : duration) : option Z :=
  if bool_decide (ttl ≤ 0) then None
  else
    let milliseconds := ttl `quot` Millisecond in
    if bool_decide (milliseconds = 0) then Some 1 else Some milliseconds.

Definition parseRedisAcquireResult (value : reply_value) : acquire_answer :=
  match value with
  | RArray [code; current] =>
    match code with
    | RInt code =>
      if bool_decide (code = 1) then Acquired
      else if bool_decide (code = 0) then match current with RString s => Held s | _ => AcqFailed end
      else AcqFailed
    | _ => AcqFailed
    end
  | _ => AcqFailed
  end.

(** [.Int64()] and [applied == 1] *)
Definition parse_applied (value : reply_value) : option bool :=
  match value with RInt n => Some (bool_decide (n = 1)) | _ => None end.

Definition Acquire (t : trip) (now : Z) (key candidate : bytes) (ttl : duration) (d : db) : acquire_answer * db :=
  match redisTTLMilliseconds ttl with
  | None => (AcqFailed, d)
  | Some px => run t AcqFailed (redisAcquireScript now key candidate px) parseRedisAcquireResult d
  end.

Definition Complete (t : trip) (now : Z) (key expected completed : bytes) (ttl : duration) (d : db) : option bool * db :=
  match redisTTLMilliseconds ttl with
  | None => (None, d)
  | Some px => run t None (redisCompleteScript now key expected completed px) parse_applied d
  end.

Definition Release (t : trip) (now : Z) (key expected : bytes) (d : db) : option bool * db :=
  run t None (redisReleaseScript now key expected) parse_applied d.

Definition Extend (t : trip) (now : Z) (key expected : bytes) (ttl : duration) (d : db) : option bool * db :=
  match redisTTLMilliseconds ttl with
  | None => (None, d)
  | Some px => run t None (redisExtendScript now key expected px) parse_applied d
  end.

(** A key is visible through the end of its last millisecond. *)
Definition last_ns (at_ms : Z) : Z := at_ms * Millisecond + (Millisecond - 1).

Definition db_view (d : db) : entries := prod_map id last_ns <$> keys d.

Definition db_deadline (now : Z) (ttl : duration) : Z :=
  last_ns (ms now + default 0 (redisTTLMilliseconds ttl)).

#[export] Instance redis_store : Store db := {|
  view := db_view;
  deadline := db_deadline;
  st_acquire := Acquire Replied;
  st_complete := Complete Replied;
  st_release := Release Replied;
  st_extend := Extend Replied;
|}.

(** *** The contract holds *)

Lemma last_ns_visible now at_ms : now ≤ last_ns at_ms ↔ ms now ≤ at_ms.
Proof. unfold last_ns, ms, Millisecond. pose proof (Z.div_mod now 1000000). pose proof (Z.mod_pos_bound now 1000000). lia. Qed.

Lemma lookup_view d key : db_view d !! key = prod_map id last_ns <$> keys d !! key.
Proof. apply lookup_fmap. Qed.

Lemma view_insert d key v at_ms : db_view {| keys := <[key := (v, at_ms)]> (keys d) |} = <[key := (v, last_ns at_ms)]> (db_view d).
Proof. unfold db_view. simpl. by rewrite fmap_insert. Qed.

Lemma view_delete d key : db_view {| keys := delete key (keys d) |} = delete key (db_view d).
Proof. unfold db_view. simpl. by rewrite fmap_delete. Qed.

(** Reading a key tells what is visible and changes nothing visible. *)
Lemma GET_spec now key d :
  (GET now key d).1 = live (db_view d) now key ∧ db_view (GET now key d).2 ≈{now} db_view d.
Proof.
  unfold GET, live. rewrite lookup_view. destruct (keys d !! key) as [[v at_ms]|] eqn:E; simpl; [|done].
  pose proof (last_ns_visible now at_ms) as Hl. repeat case_bool_decide; simpl; try (split; [done|reflexivity]); try lia.
  split; [done|]. rewrite view_delete. intros key'. destruct (decide (key = key')) as [<-|Hne].
  - rewrite visible_delete. unfold visible. rewrite lookup_view, E. simpl. by rewrite bool_decide_false by lia.
  - by rewrite visible_delete_ne.
Qed.

Lemma if_current_spec now key x d f g :
  (∀ d', db_view d' ≈{now} db_view d → live (db_view d') now key = Some x → db_view (f d') ≈{now} g) →
  let want := if bool_decide (live (db_view d) now key = Some x) then (RInt 1, g) else (RInt 0, db_view d) in
  (if_current now key x d f).1 = want.1 ∧ db_view (if_current now key x d f).2 ≈{now} want.2.
Proof.
  intros Hf. unfold if_current. destruct (GET_spec now key d) as [Hc Hd]. destruct (GET now key d) as [c d'].
  simpl in *. subst c. case_bool_decide as Hx; simpl; [|done]. split; [done|].
  apply Hf; [done|]. by rewrite (same_from_live _ _ _ _ Hd).
Qed.

Lemma ttl_millis ttl :
  redisTTLMilliseconds ttl = if bool_decide (ttl ≤ 0) then None else Some (Z.max 1 (ttl `quot` Millisecond)).
Proof.
  unfold redisTTLMilliseconds. repeat case_bool_decide; try done; f_equal.
  - lia.
  - pose proof (Z.quot_pos ttl Millisecond). unfold Millisecond in *. lia.
Qed.

Lemma db_deadline_eq now ttl : 0 < ttl → db_deadline now ttl = last_ns (ms now + Z.max 1 (ttl `quot` Millisecond)).
Proof. intros. unfold db_deadline. rewrite ttl_millis. by rewrite bool_decide_false by lia. Qed.

Lemma GET_again now key d : (GET now key (GET now key d).2).1 = (GET now key d).1.
Proof. destruct (GET_spec now key d) as [E1 E2]. destruct (GET_spec now key (GET now key d).2) as [-> _].
  by rewrite E1, (same_from_live _ _ _ _ E2). Qed.

Lemma acquire_script_spec now key c px d :
  (redisAcquireScript now key c px d).1
    = match live (db_view d) now key with Some v => RArray [RInt 0; RString v] | None => RArray [RInt 1; RString []] end ∧
  db_view (redisAcquireScript now key c px d).2
    ≈{now} match live (db_view d) now key with Some v => db_view d | None => <[key := (c, last_ns (ms now + px))]> (db_view d) end.
Proof.
  unfold redisAcquireScript. destruct (GET_spec now key d) as [Hc Hd]. pose proof (GET_again now key d) as Ha.
  destruct (GET now key d) as [x d']. simpl in *. subst x. destruct (live (db_view d) now key) as [v|] eqn:El; [done|].
  unfold SET_PX_NX. destruct (GET_spec now key d') as [_ Hd']. destruct (GET now key d') as [y d'']. simpl in *. subst y.
  simpl. split; [done|]. unfold SET_PX. rewrite view_insert. by rewrite Hd', Hd.
Qed.

Lemma pexpire_spec now key x px d' d :
  db_view d' ≈{now} db_view d → live (db_view d') now key = Some x →
  db_view (PEXPIRE now key px d') ≈{now} <[key := (x, last_ns (ms now + px))]> (db_view d).
Proof.
  intros Hd Hl. unfold PEXPIRE. destruct (GET_spec now key d') as [Hc Hd']. destruct (GET now key d') as [y d''].
  simpl in *. rewrite Hl in Hc. subst y. rewrite view_insert. by rewrite Hd', Hd.
Qed.

#[export] Instance redis_store_laws : StoreLaws db.
Proof.
  split; simpl.
  - intros now ttl Hp. rewrite db_deadline_eq by done. unfold last_ns, ms, Millisecond.
    pose proof (Z.div_mod now 1000000). pose proof (Z.mod_pos_bound now 1000000). lia.
  - intros. unfold agrees, Acquire, do_acquire. rewrite ttl_millis. case_bool_decide; [done|]. cbn [run].
    destruct (acquire_script_spec now key c (Z.max 1 (ttl `quot` Millisecond)) s) as [E1 E2].
    destruct (redisAcquireScript _ _ _ _ _) as [v d]. simpl in *. subst v. rewrite db_deadline_eq by lia.
    by destruct (live _ _ _).
  - intros. unfold agrees, Complete, do_complete. rewrite ttl_millis. case_bool_decide; [done|]. cbn [run].
    rewrite db_deadline_eq by lia.
    destruct (if_current_spec now key x s (SET_PX now key c (Z.max 1 (ttl `quot` Millisecond)))
      (<[key := (c, last_ns (ms now + Z.max 1 (ttl `quot` Millisecond)))]> (db_view s))) as [E1 E2].
    { intros d' E _. unfold SET_PX. rewrite view_insert. by rewrite E. }
    unfold redisCompleteScript. destruct (if_current _ _ _ _ _) as [v d]. simpl in *. subst v. by case_bool_decide.
  - intros. unfold agrees, Release, do_release. cbn [run].
    destruct (if_current_spec now key x s (DEL key) (delete key (db_view s))) as [E1 E2].
    { intros d' E _. unfold DEL. rewrite view_delete. by rewrite E. }
    unfold redisReleaseScript. destruct (if_current _ _ _ _ _) as [v d]. simpl in *. subst v. by case_bool_decide.
  - intros. unfold agrees, Extend, do_extend. rewrite ttl_millis. case_bool_decide; [done|]. cbn [run].
    rewrite db_deadline_eq by lia.
    destruct (if_current_spec now key x s (PEXPIRE now key (Z.max 1 (ttl `quot` Millisecond)))
      (<[key := (x, last_ns (ms now + Z.max 1 (ttl `quot` Millisecond)))]> (db_view s))) as [E1 E2].
    { intros d' E El. by apply pexpire_spec. }
    unfold redisExtendScript. destruct (if_current _ _ _ _ _) as [v d]. simpl in *. subst v. by case_bool_decide.
Qed.

(** What a call may do, by what became of its round trip: nothing when the script did
    not run, what the contract says when it ran, and the contract's answer when the
    reply arrived. *)
Definition refines {A} (t : trip) (failed : A) (now : Z) (d : db) (got : A * db) (want : A * entries) : Prop :=
  match t with
  | NoClient | NotRun => got = (failed, d)
  | ReplyLost => got.1 = failed ∧ db_view got.2 ≈{now} want.2
  | Replied => agrees now got want
  end.

Lemma trip_refines {A} t (failed : A) now script parse d want :
  agrees now (run Replied failed script parse d) want → refines t failed now d (run t failed script parse d) want.
Proof. intros Ha. destruct t; simpl in *; [done..| |done]. split; [done|]. destruct Ha as [_ Ha]. destruct (script d). exact Ha. Qed.

(** A call that is refused before the round trip. *)
Lemma refused_refines {A} t (failed : A) now d e : db_view d ≈{now} e → refines t failed now d (failed, d) (failed, e).
Proof. intros He. by destruct t. Qed.

Lemma db_deadline_bounds now ttl : 0 < ttl →
  now < db_deadline now ttl ∧ now + ttl - Millisecond < db_deadline now ttl < now + Z.max ttl Millisecond + Millisecond.
Proof.
  intros Ht. rewrite db_deadline_eq by done. unfold last_ns, ms, Millisecond. rewrite Z.quot_div_nonneg by lia.
  pose proof (Z.div_mod now 1000000). pose proof (Z.mod_pos_bound now 1000000).
  pose proof (Z.div_mod ttl 1000000). pose proof (Z.mod_pos_bound ttl 1000000). lia.
Qed.

(** C16: The Redis store implements the contract of the middleware's store. For every one of its four calls, by what becomes of the round trip: a call whose script is not run (no client, or the command does not arrive) fails and changes nothing; one whose script is run leaves exactly the contract's visible entries; and one whose reply arrives gives the contract's answer, in particular it does not fail, unless the contract refuses a lifetime that is not positive. The deadline of a write is later than now and within a millisecond of the lifetime that was asked for, or of one millisecond when that is shorter. *)
Theorem redis_store_refines_contract t now key x c ttl d :
  refines t AcqFailed now d (Acquire t now key c ttl d) (do_acquire now key c ttl (db_deadline now ttl) (db_view d)) ∧
  refines t None now d (Complete t now key x c ttl d) (do_complete now key x c ttl (db_deadline now ttl) (db_view d)) ∧
  refines t None now d (Release t now key x d) (do_release now key x (db_view d)) ∧
  refines t None now d (Extend t now key x ttl d) (do_extend now key x ttl (db_deadline now ttl) (db_view d)) ∧
  (0 < ttl → now < db_deadline now ttl ∧ now + ttl - Millisecond < db_deadline now ttl < now + Z.max ttl Millisecond + Millisecond).
Proof.
  pose proof (acquire_contract now key c ttl d) as Ha. pose proof (complete_contract now key x c ttl d) as Hc.
  pose proof (release_contract now key x d) as Hr. pose proof (extend_contract now key x ttl d) as He.
  assert (redisTTLMilliseconds ttl = None → ttl ≤ 0) as Ht by (rewrite ttl_millis; by case_bool_decide).
  split_and!; [..|apply db_deadline_bounds].
  all: simpl in *; unfold Acquire, Complete, Release, Extend in *; try (destruct (redisTTLMilliseconds ttl); [by apply trip_refines|]); try by apply trip_refines.
  all: unfold do_acquire, do_complete, do_extend; rewrite bool_decide_eq_true_2 by auto; by apply refused_refines.
Qed.

End Redis.

#[export] Existing Instances Redis.redis_store Redis.redis_store_laws.
