(* ===== verification/IdempotencyProtocol.v ===== *)
(** The protocol of one request of the idempotency middleware: which store
    calls and handler runs are possible, in which order, and with which answer,
    whatever the store answers ([protocol]), and that the code follows it. *)

From stdpp Require Import base numbers list gmap strings sets.
From S2P Require Import Prelude GoText Idempotency IdempotencyFlow.

Local Open Scope Z_scope.
Local Open Scope go_scope.

(** ** Traces of a program *)

(** One step of a program together with the answer it got. *)
Inductive pstep {H : Type} :=
| PAcquire (key candidate : bytes) (ttl : duration) (x : acquire_answer)
| PComplete (key expected completed : bytes) (ttl : duration) (x : option bool)
| PRelease (key expected : bytes) (x : option bool)
| PRun (q : Request H) (g : option hold) (o : outcome H).
Arguments pstep : clear implicits.

Section wp.
Context {H : Type}.

(** Every run of [p], continuing the steps [tr], ends in a result that satisfies
    [Φ] together with all the steps. *)
Fixpoint wp {A} (p : prog H A) (tr : list (pstep H)) (Φ : list (pstep H) → A → Prop) : Prop :=
  match p with
  | Ret a => Φ tr a
  | DoAcquire key c ttl k => ∀ x, wp (k x) (tr ++ [PAcquire key c ttl x]) Φ
  | DoComplete key e c ttl k => ∀ x, wp (k x) (tr ++ [PComplete key e c ttl x]) Φ
  | DoRelease key e k => ∀ x, wp (k x) (tr ++ [PRelease key e x]) Φ
  | RunHandler q g k => ∀ o, wp (k o) (tr ++ [PRun q g o]) Φ
  end.

Lemma prog_wp_mono {A} (p : prog H A) tr (Φ Ψ : list (pstep H) → A → Prop) :
  (∀ t a, Φ t a → Ψ t a) → wp p tr Φ → wp p tr Ψ.
Proof. intros HΦ. revert tr. induction p; simpl; eauto. Qed.

Lemma prog_wp_bind {A B} (p : prog H A) (f : A → prog H B) tr Φ :
  wp p tr (λ t a, wp (f a) t Φ) → wp (p ≫= f) tr Φ.
Proof.
  revert tr. induction p as [a|key c ttl k IH|key e c ttl k IH|key e k IH|q g k IH]; intros tr; simpl; auto;
    intros Hp x; apply IH, Hp.
Qed.

(** A program that has run for a while can always run to its end. *)
Lemma wp_reaches {A} (o : outcome H) (p : prog H A) tr Φ : wp p tr Φ → ∃ tr' a, Φ (tr ++ tr') a.
Proof.
  revert tr. induction p as [a|key c ttl k IH|key e c ttl k IH|key e k IH|q g k IH]; intros tr Hp; simpl in Hp.
  - exists [], a. by rewrite app_nil_r.
  - destruct (IH AcqFailed _ (Hp AcqFailed)) as (tr' & a & HΦ). rewrite <- app_assoc in HΦ. eauto.
  - destruct (IH None _ (Hp None)) as (tr' & a & HΦ). rewrite <- app_assoc in HΦ. eauto.
  - destruct (IH None _ (Hp None)) as (tr' & a & HΦ). rewrite <- app_assoc in HΦ. eauto.
  - destruct (IH o _ (Hp o)) as (tr' & a & HΦ). rewrite <- app_assoc in HΦ. eauto.
Qed.
End wp.

(** ** The protocol *)

Section protocol.
Context {H : Type} `{HeaderOps H, Platform H, Json}.
Implicit Types (m : Middleware H) (q : Request H).

(** The request asks for protection: it may change something, and carries a key
    and a tenant. *)
Definition protected m q : bool :=
  (mutating (q_method q) && negb (bool_decide (resolveKey m q = Some []))
   && negb (bool_decide (resolveTenant m q = Some [])))%bool.

(** It is let through to the store, under this key, with this fingerprint, as
    the request the handler would see, with this retention. *)
Record admitted m q (key fingerprint : bytes) (q' : Request H) (ttl : duration) : Prop := {
  adm_protected : protected m q = true;
  adm_key : ∃ tenantID idempotencyKey,
    resolveTenant m q = Some tenantID ∧ resolveKey m q = Some idempotencyKey ∧
    (0 < length tenantID)%nat ∧ 0 < Z.of_nat (length idempotencyKey) ≤ maxKeyLength m ∧
    key = storeKey m tenantID idempotencyKey;
  adm_ready : configErr m = false ∧ st_nil (store m) = false;
  adm_fingerprint : resolveFingerprint m q = Some (fingerprint, q');
  adm_ttl : resolveTTL m q' = Some ttl;
}.

(** The lease a request acquires its key with. *)
Definition lease_of m q (ttl : duration) : duration :=
  if bool_decide (resolveProcessingTTL m q ≤ 0) then ttl else resolveProcessingTTL m q.

Definition hold_of m q (key processing : bytes) (ttl : duration) : hold :=
  {| hd_key := key; hd_processing := processing; hd_lease := lease_of m q ttl;
     hd_tick := if extender m then Some (heartbeatTick (heartbeatInterval m) (lease_of m q ttl)) else None |}.

(** A refusal or an application's document: nothing of a handler's. *)
Definition is_refusal (a : Answer H) : Prop :=
  match a_reply a with Refused _ _ | AnsweredBy _ => True | _ => False end.

(** How the outcome of a guarded run is classified. *)
Definition failed_run (o : outcome H) : bool :=
  (bool_decide (h_err o ≠ None) || bool_decide (500 ≤ rs_status (h_response o)))%bool.

Definition policy_releases m q (o : outcome H) : bool :=
  let r := h_response o in
  if failed_run o
  then negb (bool_decide (resolveServerErrorPolicy m q r (rs_status r) (h_err o) = ServerErrorPolicyFence))
  else (bool_decide (400 ≤ rs_status r)
        && bool_decide (resolveClientErrorPolicy m q r (rs_status r) = ClientErrorPolicyRelease))%bool.

(** What was acquired. *)
Record grant := { gr_key : bytes; gr_processing : bytes; gr_record : storeRecord; gr_ttl : duration }.

(** Writing the fence, and whether it is known to be in place. *)
Inductive fence_tried (gr : grant) : list (pstep H) → bool → Prop :=
| fence_unwritable :
  marshal_record (unknown_record (gr_record gr)) = None → fence_tried gr [] false
| fence_written unknown x :
  marshal_record (unknown_record (gr_record gr)) = Some unknown →
  fence_tried gr [PComplete (gr_key gr) (gr_processing gr) unknown (gr_ttl gr) x] (bool_decide (x = Some true)).

(** Recording the response failed. *)
Inductive completion_failed m (gr : grant) (o : outcome H) (before : headerSnapshot) : list (pstep H) → Prop :=
| no_receipt : completion m (gr_record gr) o before = None → completion_failed m gr o before []
| no_record final :
  completion m (gr_record gr) o before = Some final → marshal_record final = None → completion_failed m gr o before []
| not_applied final completed x :
  completion m (gr_record gr) o before = Some final → marshal_record final = Some completed → x ≠ Some true →
  completion_failed m gr o before [PComplete (gr_key gr) (gr_processing gr) completed (gr_ttl gr) x].

Inductive settled m q (gr : grant) (before : headerSnapshot) (o : outcome H) : list (pstep H) → Answer H → Prop :=
| settled_released x :
  policy_releases m q o = true →
  settled m q gr before o [PRelease (gr_key gr) (gr_processing gr) x] (plain (Passed o))
| settled_fenced tr fenced :
  policy_releases m q o = false → failed_run o = true → fence_tried gr tr fenced →
  settled m q gr before o tr (with_fenced fenced (plain (Passed o)))
| settled_completed final completed :
  policy_releases m q o = false → failed_run o = false →
  completion m (gr_record gr) o before = Some final → marshal_record final = Some completed →
  settled m q gr before o [PComplete (gr_key gr) (gr_processing gr) completed (gr_ttl gr) (Some true)] (plain (Passed o))
| settled_failed tr tr' fenced :
  policy_releases m q o = false → failed_run o = false → completion_failed m gr o before tr → fence_tried gr tr' fenced →
  settled m q gr before o (tr ++ tr')
    (with_fenced fenced (if fenced then respondPostHandlerStoreError m else respondUnfenced m)).

Inductive protocol m (owner : bytes) q : list (pstep H) → exit H → Prop :=
| proto_refused q' a :
  is_refusal a → protocol m owner q [] {| x_ran := false; x_request := q'; x_answer := a |}
| proto_bypassed q' o :
  protected m q = false ∨ failClosed m = false →
  protocol m owner q [PRun q' None o] {| x_ran := true; x_request := q'; x_answer := plain (Passed o) |}
| proto_unavailable key fingerprint q' ttl processing :
  admitted m q key fingerprint q' ttl → failClosed m = true →
  marshal_record (processing_record fingerprint owner) = Some processing →
  protocol m owner q [PAcquire key processing (lease_of m q' ttl) AcqFailed]
    {| x_ran := false; x_request := q'; x_answer := respondUnavailable m |}
| proto_open key fingerprint q' ttl processing o :
  admitted m q key fingerprint q' ttl → failClosed m = false →
  marshal_record (processing_record fingerprint owner) = Some processing →
  protocol m owner q [PAcquire key processing (lease_of m q' ttl) AcqFailed; PRun q' None o]
    {| x_ran := true; x_request := q'; x_answer := plain (Passed o) |}
| proto_held key fingerprint q' ttl processing stored :
  admitted m q key fingerprint q' ttl →
  marshal_record (processing_record fingerprint owner) = Some processing →
  protocol m owner q [PAcquire key processing (lease_of m q' ttl) (Held stored)]
    {| x_ran := false; x_request := q'; x_answer := answer_stored m q' fingerprint stored |}
| proto_ran key fingerprint q' ttl processing o tr a :
  admitted m q key fingerprint q' ttl →
  marshal_record (processing_record fingerprint owner) = Some processing →
  settled m q' {| gr_key := key; gr_processing := processing; gr_record := processing_record fingerprint owner;
                  gr_ttl := ttl |} (snapshotResponseHeaders (q_response q')) o tr a →
  protocol m owner q
    ([PAcquire key processing (lease_of m q' ttl) Acquired; PRun q' (Some (hold_of m q' key processing ttl)) o] ++ tr)
    {| x_ran := true; x_request := q'; x_answer := a |}.

(** An application's fence: refused before the store, or one acquisition whose
    answer decides. *)
Inductive fence_protocol m (owner : bytes) q (ttl : duration) : list (pstep H) → result fence_error unit → Prop :=
| fence_refused e : fence_protocol m owner q ttl [] (Err e)
| fence_acquire tenantID idempotencyKey fingerprint q' fence x :
  0 < ttl → resolveTenant m q = Some tenantID → resolveKey m q = Some idempotencyKey →
  resolveFingerprint m q = Some (fingerprint, q') →
  marshal_record (fence_record fingerprint owner) = Some fence →
  fence_protocol m owner q ttl [PAcquire (storeKey m tenantID idempotencyKey) fence ttl x]
    (match x with
     | AcqFailed => Err errFenceAcquire
     | Acquired => Ok tt
     | Held stored => fence_held fingerprint stored
     end).

(** ** The code follows the protocol *)

Lemma markOutcomeUnknown_wp (gr : grant) tr record :
  unknown_record record = unknown_record (gr_record gr) →
  wp (markOutcomeUnknown (gr_key gr) (gr_processing gr) record (gr_ttl gr)) tr
     (λ t fenced, ∃ tr', t = tr ++ tr' ∧ fence_tried gr tr' fenced).
Proof.
  intros E. unfold markOutcomeUnknown. rewrite E. destruct (marshal_record _) as [u|] eqn:Em; simpl.
  - intros x. eexists. split; [done|]. by constructor.
  - exists []. rewrite app_nil_r. split; [done|]. by constructor.
Qed.

Lemma failPostHandler_wp m gr tr record :
  unknown_record record = unknown_record (gr_record gr) →
  wp (failPostHandler m (gr_key gr) (gr_processing gr) record (gr_ttl gr)) tr
     (λ t a, ∃ tr' fenced, t = tr ++ tr' ∧ fence_tried gr tr' fenced ∧
       a = with_fenced fenced (if fenced then respondPostHandlerStoreError m else respondUnfenced m)).
Proof.
  intros E. apply prog_wp_bind. eapply prog_wp_mono; [|by apply markOutcomeUnknown_wp].
  intros t fenced (tr' & -> & Hf). destruct fenced; simpl; eauto 6.
Qed.

Lemma completion_unknown m record o before final :
  completion m record o before = Some final → unknown_record final = unknown_record record.
Proof. unfold completion. repeat split_match; intros; simplify_eq; done. Qed.

Lemma settle_wp m q gr before o tr :
  wp (settle m q (gr_key gr) (gr_processing gr) (gr_record gr) (gr_ttl gr) before o) tr
     (λ t a, ∃ tr', t = tr ++ tr' ∧ settled m q gr before o tr' a).
Proof.
  unfold settle. destruct (failed_run o) eqn:Hf; pose proof Hf as Hf'; unfold failed_run in Hf'; rewrite Hf'.
  - destruct (bool_decide (resolveServerErrorPolicy _ _ _ _ _ = _)) eqn:Hp.
    + apply prog_wp_bind. eapply prog_wp_mono; [|by apply markOutcomeUnknown_wp]. intros t fenced (tr' & -> & Ht). simpl.
      eexists. split; [done|]. eapply settled_fenced; [|done|done]. unfold policy_releases. by rewrite Hf, Hp.
    + simpl. intros x. eexists. split; [done|]. apply settled_released. unfold policy_releases. by rewrite Hf, Hp.
  - destruct (_ && _)%bool eqn:Hp.
    + simpl. intros x. eexists. split; [done|]. apply settled_released. unfold policy_releases. by rewrite Hf, Hp.
    + assert (Hr : policy_releases m q o = false) by (unfold policy_releases; by rewrite Hf, Hp).
      unfold settle_completed. destruct (completion _ _ _ _) as [final|] eqn:Hc;
        [destruct (marshal_record final) as [c|] eqn:Hm|].
      * apply prog_wp_bind. intros x. destruct (decide (x = Some true)) as [->|Hx].
        -- eexists. split; [done|]. by eapply settled_completed.
        -- simpl. rewrite bool_decide_false by done.
           eapply prog_wp_mono; [|by eapply failPostHandler_wp, completion_unknown].
           intros t a (tr' & fenced & -> & Ht & ->). rewrite <- app_assoc. eexists. split; [done|].
           apply settled_failed; try done. by eapply not_applied.
      * eapply prog_wp_mono; [|by eapply failPostHandler_wp, completion_unknown].
        intros t a (tr' & fenced & -> & Ht & ->). eexists. split; [done|].
        apply (settled_failed _ _ _ _ _ []); try done. by eapply no_record.
      * eapply prog_wp_mono; [|by eapply failPostHandler_wp].
        intros t a (tr' & fenced & -> & Ht & ->). eexists. split; [done|].
        apply (settled_failed _ _ _ _ _ []); try done. by eapply no_receipt.
Qed.

Lemma is_empty_length (s : bytes) : is_empty s = false → (0 < length s)%nat.
Proof. destruct s; simpl; [done|lia]. Qed.

Lemma respondUnavailable_refusal m : is_refusal (respondUnavailable m).
Proof. unfold respondUnavailable. by destruct (onUnavailable m). Qed.

Lemma handleStore_wp m owner q key fingerprint q' ttl :
  admitted m q key fingerprint q' ttl →
  wp (handleStore m owner q' key fingerprint ttl (resolveProcessingTTL m q')) [] (protocol m owner q).
Proof.
  intros Ha. unfold handleStore. destruct (marshal_record _) as [processing|] eqn:Hm.
  - fold (lease_of m q' ttl). destruct (_ && _)%bool; [apply proto_refused, respondUnavailable_refusal|].
    apply prog_wp_bind. intros x. destruct x as [| |stored]; simpl.
    + unfold onStoreError. destruct (failClosed m) eqn:Hc; simpl; [by eapply proto_unavailable|].
      intros o. by eapply proto_open.
    + intros o. apply prog_wp_bind.
      eapply prog_wp_mono; [|exact (settle_wp m q' {| gr_key := key; gr_processing := processing;
        gr_record := processing_record fingerprint owner; gr_ttl := ttl |} _ o _)].
      intros t a (tr' & -> & Hs). simpl. by eapply (proto_ran _ _ _ _ _ _ _ _ _ tr').
    + by eapply proto_held.
  - unfold onStoreError. destruct (failClosed m) eqn:Hc; simpl.
    + apply proto_refused, respondUnavailable_refusal.
    + intros o. apply proto_bypassed. by right.
Qed.

Lemma handle_body_wp m owner q : wp (handle_body m owner q) [] (protocol m owner q).
Proof.
  unfold handle_body. destruct (mutating (q_method q)) eqn:Hmut; simpl;
    [|intros o; apply proto_bypassed; left; unfold protected; by rewrite Hmut].
  destruct (resolveKey m q) as [ik|] eqn:Hk; [|apply proto_refused, respondUnavailable_refusal].
  destruct (is_empty ik) eqn:Hek.
  { destruct (requireKey m); [apply proto_refused; unfold respondKeyRequired; by destruct (onKeyRequired m)|].
    apply is_empty_true in Hek as ->. intros o. apply proto_bypassed. left. unfold protected. rewrite Hk.
    by rewrite andb_false_r. }
  case_bool_decide as Hlen; [apply proto_refused; by destruct (onRejected m)|].
  destruct (resolveTenant m q) as [tn|] eqn:Ht; [|by apply proto_refused].
  destruct (is_empty tn) eqn:Het.
  { destruct (requireTenant m);
      [apply proto_refused; unfold respondTenantRequired; by destruct (onTenantRequired m)|].
    apply is_empty_true in Het as ->. intros o. apply proto_bypassed. left. unfold protected. rewrite Ht.
    by rewrite andb_false_r. }
  destruct (configErr m) eqn:Hcfg; [apply proto_refused, respondUnavailable_refusal|].
  destruct (st_nil (store m)) eqn:Hst.
  { unfold onStoreError. destruct (failClosed m) eqn:Hc; simpl; [apply proto_refused, respondUnavailable_refusal|].
    intros o. apply proto_bypassed. by right. }
  destruct (resolveFingerprint m q) as [[fp q']|] eqn:Hf; [|apply proto_refused, respondUnavailable_refusal].
  destruct (resolveTTL m q') as [ttl|] eqn:Httl; [|apply proto_refused, respondUnavailable_refusal].
  apply handleStore_wp. apply is_empty_length in Hek, Het. split; try done.
  - unfold protected. rewrite Hmut, Hk, Ht. by destruct ik, tn; simpl in *; try lia.
  - exists tn, ik. repeat split; try done; lia.
Qed.

Definition handle_protocol m (owner : bytes) q (tr : list (pstep H)) (a : Answer H) : Prop :=
  ∃ x, protocol m owner q tr x ∧ a = retireUnreadRequestStream x.

Lemma handle_wp m owner q : wp (handle m owner q) [] (handle_protocol m owner q).
Proof.
  apply prog_wp_bind. eapply prog_wp_mono; [|apply handle_body_wp]. intros tr x Hx. simpl. by exists x.
Qed.

Lemma FenceOutcomeUnknown_wp m owner q ttl :
  wp (FenceOutcomeUnknown m owner q ttl) [] (fence_protocol m owner q ttl).
Proof.
  unfold FenceOutcomeUnknown. destruct (st_nil (store m)); [constructor|]. case_bool_decide; [constructor|].
  destruct (resolveKey m q) as [ik|] eqn:Hk; [|constructor]. destruct (is_empty ik); [constructor|].
  case_bool_decide; [constructor|]. destruct (resolveTenant m q) as [tn|] eqn:Ht; [|constructor].
  destruct (is_empty tn); [constructor|]. destruct (resolveFingerprint m q) as [[fp q']|] eqn:Hf; [|constructor].
  destruct (marshal_record _) as [fence|] eqn:Hm; [|constructor]. simpl. intros x.
  eapply fence_acquire; eauto. lia.
Qed.

(** C2: Every run of the middleware on a request, whatever the store answers and the handler does, follows
    the protocol: it is refused before anything happens; or it bypasses the store because the request asks
    for no protection or the middleware fails open; or it tries to acquire its key and, when the key is
    occupied, answers from the stored bytes without running the handler; or, having acquired the key, it
    runs the handler once, and then releases the key exactly when the error policy says so, otherwise
    records the outcome, falling back to the fence, and tells the client when neither is known to be in
    place. *)
Theorem handle_follows_protocol m owner q :
  wp (handle m owner q) []
     (λ tr a, ∃ x, protocol m owner q tr x ∧ a = retireUnreadRequestStream x).
Proof. apply handle_wp. Qed.

End protocol.
