(* ===== verification/IdempotencyRuns.v ===== *)
(** Many requests behind the idempotency middleware, interleaved against one
    store.

    A [world] holds the store, its clock, the requests in progress and the
    commands whose answer was lost: such a command may still reach the store
    later, or never.  [step] performs one labelled step; the labels are all that
    the scheduler, the network, the clients and the handlers may choose.  The log
    and the traces record what happened. *)

From stdpp Require Import base numbers list gmap strings sets.
From S2P Require Import Prelude GoText Idempotency IdempotencyFlow IdempotencyStore IdempotencyProtocol.

Local Open Scope Z_scope.
Local Open Scope go_scope.

(** ** Store commands *)

Inductive op :=
| OpAcquire (key candidate : bytes) (ttl : duration)
| OpComplete (key expected completed : bytes) (ttl : duration)
| OpRelease (key expected : bytes)
| OpExtend (key expected : bytes) (ttl : duration).

Inductive op_answer := AnsAcquire (x : acquire_answer) | AnsDone (x : option bool).

Definition op_key (o : op) : bytes :=
  match o with OpAcquire k _ _ | OpComplete k _ _ _ | OpRelease k _ | OpExtend k _ _ => k end.

Definition op_ttl (o : op) : duration :=
  match o with OpAcquire _ _ ttl | OpComplete _ _ _ ttl | OpExtend _ _ ttl => ttl | OpRelease _ _ => 0 end.

Definition exec {S} `{Store S} (now : Z) (o : op) (s : S) : op_answer * S :=
  match o with
  | OpAcquire k c ttl => prod_map AnsAcquire id (st_acquire now k c ttl s)
  | OpComplete k x c ttl => prod_map AnsDone id (st_complete now k x c ttl s)
  | OpRelease k x => prod_map AnsDone id (st_release now k x s)
  | OpExtend k x ttl => prod_map AnsDone id (st_extend now k x ttl s)
  end.

(** The contract's effect. *)
Definition do_op (now : Z) (o : op) (last : Z) (e : entries) : op_answer * entries :=
  match o with
  | OpAcquire k c ttl => prod_map AnsAcquire id (do_acquire now k c ttl last e)
  | OpComplete k x c ttl => prod_map AnsDone id (do_complete now k x c ttl last e)
  | OpRelease k x => prod_map AnsDone id (do_release now k x e)
  | OpExtend k x ttl => prod_map AnsDone id (do_extend now k x ttl last e)
  end.

(** The command took effect. *)
Definition applied (a : op_answer) : bool :=
  match a with AnsAcquire Acquired | AnsDone (Some true) => true | _ => false end.

Definition lost_answer (o : op) : op_answer :=
  match o with OpAcquire _ _ _ => AnsAcquire AcqFailed | _ => AnsDone None end.

(** What an applied command leaves at its key. *)
Definition op_effect (o : op) (last : Z) (e : entries) : entries :=
  match o with
  | OpAcquire k c _ => <[k := (c, last)]> e
  | OpComplete k _ c _ => <[k := (c, last)]> e
  | OpRelease k _ => delete k e
  | OpExtend k x _ => <[k := (x, last)]> e
  end.

(** What a command needs in order to take effect. *)
Definition op_enabled (now : Z) (o : op) (e : entries) : Prop :=
  match o with
  | OpAcquire k _ ttl => live e now k = None ∧ 0 < ttl
  | OpComplete k x _ ttl | OpExtend k x ttl => live e now k = Some x ∧ 0 < ttl
  | OpRelease k x => live e now k = Some x
  end.

Lemma do_op_spec now o last e :
  if applied (do_op now o last e).1
  then op_enabled now o e ∧ (do_op now o last e).2 = op_effect o last e
  else (do_op now o last e).2 = e.
Proof.
  destruct o; simpl; unfold do_acquire, do_complete, do_release, do_extend; repeat case_bool_decide; simpl;
    try done; try (split; [split; [done|lia]|done]).
  destruct (live e now key) eqn:?; simpl; [done|]. split; [split; [done|lia]|done].
Qed.

Lemma exec_contract {S} `{StoreLaws S} now o s :
  agrees now (exec now o s) (do_op now o (deadline now (op_ttl o)) (view s)).
Proof.
  destruct o; simpl; [destruct (acquire_contract now key candidate ttl s) as [E1 E2]
    |destruct (complete_contract now key expected completed ttl s) as [E1 E2]
    |destruct (release_contract now key expected s) as [E1 E2]
    |destruct (extend_contract now key expected ttl s) as [E1 E2]];
  (split; simpl; [by f_equal|done]).
Qed.

#[export] Instance do_op_proper now o last : Proper (same_from now ==> same_answer now) (do_op now o last).
Proof.
  intros e1 e2 E. destruct o; simpl;
    [destruct (do_acquire_proper now key candidate ttl last _ _ E) as [E1 E2]
    |destruct (do_complete_proper now key expected completed ttl last _ _ E) as [E1 E2]
    |destruct (do_release_proper now key expected _ _ E) as [E1 E2]
    |destruct (do_extend_proper now key expected ttl last _ _ E) as [E1 E2]];
  (split; simpl; [by f_equal|done]).
Qed.

(** ** Worlds *)

Section world.
Context {H S : Type} `{HeaderOps H, Platform H, Json, Store S}.

(** What a thread of the server works on: a request through the middleware, or
    an application's call to [FenceOutcomeUnknown]. *)
Inductive job := Serve (q : Request H) | Fence (q : Request H) (ttl : duration).

Abbreviation finished := (Answer H + result fence_error unit)%type.

Definition job_prog (m : Middleware H) (owner : bytes) (j : job) : prog H finished :=
  match j with
  | Serve q => inl <$> handle m owner q
  | Fence q ttl => inr <$> FenceOutcomeUnknown m owner q ttl
  end.

Record thread := {
  t_job : job;
  t_owner : bytes;
  t_prog : prog H finished;
  t_trace : list (pstep H);       (* what it did so far *)
  t_beating : bool;               (* its heartbeat has not been refused *)
}.

(** The history: a command that took effect, and when; a run of the handler. *)
Inductive event :=
| EOp (i : nat) (now : Z) (o : op)
| ERan (i : nat) (now : Z) (g : option hold) (o : outcome H).

Record world := {
  w_store : S;
  w_now : Z;
  w_threads : list thread;
  w_flight : list (nat * op);     (* sent, and not known to have arrived *)
  w_owners : list bytes;          (* owner ids in use *)
  w_log : list event;             (* newest first *)
}.

#[export] Instance thread_eta : Eta thread := λ t,
  {| t_job := t_job t; t_owner := t_owner t; t_prog := t_prog t; t_trace := t_trace t; t_beating := t_beating t |}.
#[export] Instance world_eta : Eta world := λ w,
  {| w_store := w_store w; w_now := w_now w; w_threads := w_threads w; w_flight := w_flight w;
     w_owners := w_owners w; w_log := w_log w |}.

(** The owner ids in the records of a store. *)
Definition entry_owners (e : entries) : list bytes :=
  omap (λ '(_, (v, _)), Owner <$> unmarshal_record v) (map_to_list e).

Definition start (s : S) (now : Z) : world :=
  {| w_store := s; w_now := now; w_threads := []; w_flight := []; w_owners := entry_owners (view s); w_log := [] |}.

Inductive label :=
| Tick (d : duration)                         (* time passes *)
| Spawn (owner : bytes) (j : job)             (* a request arrives; its owner id is a fresh UUID *)
| Go (i : nat) (answered : bool)              (* the next store call of a thread *)
| Arrive (n : nat)                            (* a command whose answer was lost reaches the store *)
| Beat (i : nat) (answered : bool)            (* a heartbeat of a running handler *)
| HandlerDone (i : nat) (o : outcome H).      (* the handler returns *)

Definition next_op (p : prog H finished) : option op :=
  match p with
  | DoAcquire k c ttl _ => Some (OpAcquire k c ttl)
  | DoComplete k x c ttl _ => Some (OpComplete k x c ttl)
  | DoRelease k x _ => Some (OpRelease k x)
  | _ => None
  end.

Definition resume (t : thread) (a : op_answer) : thread :=
  match t_prog t, a with
  | DoAcquire k c ttl kk, AnsAcquire x =>
    t <| t_prog := kk x |> <| t_trace := t_trace t ++ [PAcquire k c ttl x] |>
  | DoComplete k x c ttl kk, AnsDone b =>
    t <| t_prog := kk b |> <| t_trace := t_trace t ++ [PComplete k x c ttl b] |>
  | DoRelease k x kk, AnsDone b =>
    t <| t_prog := kk b |> <| t_trace := t_trace t ++ [PRelease k x b] |>
  | _, _ => t
  end.

Definition set_thread (i : nat) (t : thread) (w : world) : world := w <| w_threads := <[i := t]> (w_threads w) |>.

(** A command of thread [i] reaches the store. *)
Definition perform (i : nat) (o : op) (w : world) : op_answer * world :=
  let '(a, s) := exec (w_now w) o (w_store w) in
  let w := w <| w_store := s |> in
  (a, if applied a
      then w <| w_log := EOp i (w_now w) o :: w_log w |>
      else w).

(** The command of one beat, while the handler runs and the heartbeat goes on. *)
Definition beat_op (t : thread) : option op :=
  match t_prog t with
  | RunHandler _ (Some g) _ =>
    match hd_tick g with
    | Some _ => if t_beating t then Some (OpExtend (hd_key g) (hd_processing g) (hd_lease g)) else None
    | None => None
    end
  | _ => None
  end.

(** Whether the heartbeat goes on after an answer. *)
Definition beat (a : op_answer) : bool :=
  match a with AnsDone (Some false) => false | _ => true end.

Definition spawned (m : Middleware H) (owner : bytes) (j : job) : thread :=
  {| t_job := j; t_owner := owner; t_prog := job_prog m owner j; t_trace := []; t_beating := true |}.

Definition step (m : Middleware H) (w : world) (l : label) : option world :=
  match l with
  | Tick d => if bool_decide (0 ≤ d) then Some (w <| w_now := w_now w + d |>) else None
  | Spawn owner j =>
    if (bool_decide (owner ∈ w_owners w) || negb (bool_decide (Forall (λ c, 0 ≤ c < 128) owner)))%bool then None
    else Some (w <| w_threads := w_threads w ++ [spawned m owner j] |> <| w_owners := owner :: w_owners w |>)
  | Go i answered =>
    t ← w_threads w !! i;
    o ← next_op (t_prog t);
    if (answered : bool)
    then let '(a, w') := perform i o w in Some (set_thread i (resume t a) w')
    else Some (set_thread i (resume t (lost_answer o)) (w <| w_flight := (i, o) :: w_flight w |>))
  | Arrive n =>
    '(i, o) ← w_flight w !! n;
    Some (perform i o (w <| w_flight := delete n (w_flight w) |>)).2
  | Beat i answered =>
    t ← w_threads w !! i;
    o ← beat_op t;
    if (answered : bool)
    then let '(a, w') := perform i o w in
         Some (set_thread i (t <| t_beating := beat a |>) w')
    else Some (w <| w_flight := (i, o) :: w_flight w |>)
  | HandlerDone i o =>
    t ← w_threads w !! i;
    match t_prog t with
    | RunHandler q g k =>
      Some (set_thread i (t <| t_prog := k o |> <| t_trace := t_trace t ++ [PRun q g o] |>)
              (w <| w_log := ERan i (w_now w) g o :: w_log w |>))
    | _ => None
    end
  end.

Fixpoint run (m : Middleware H) (w : world) (ls : list label) : option world :=
  match ls with
  | [] => Some w
  | l :: ls => w' ← step m w l; run m w' ls
  end.

(** ** Reading the log *)

(** What a thread holds of a key according to the log (newest event first): a
    deadline, set by its last write or renewal, or nothing since it gave the key
    back itself. *)
Inductive holding := Never | Until (last : Z) | GaveBack.

Fixpoint holds (i : nat) (key : bytes) (log : list event) : holding :=
  match log with
  | [] => Never
  | EOp j now o :: log' =>
    if (bool_decide (i = j) && bool_decide (op_key o = key))%bool
    then match o with OpRelease _ _ => GaveBack | _ => Until (deadline now (op_ttl o)) end
    else holds i key log'
  | ERan _ _ _ _ :: log' => holds i key log'
  end.

(** The entries after the events of a log. *)
Fixpoint entries_after (e : entries) (log : list event) : entries :=
  match log with
  | [] => e
  | EOp _ now o :: log' => op_effect o (deadline now (op_ttl o)) (entries_after e log')
  | ERan _ _ _ _ :: log' => entries_after e log'
  end.

End world.
Arguments job : clear implicits.
Arguments thread : clear implicits.
Arguments event : clear implicits.
Arguments world : clear implicits.
Arguments label : clear implicits.
