(* ===== verification/IdempotencyGuarantees.v ===== *)
(** What the idempotency middleware guarantees over any interleaving of
    requests, lost answers, late commands, heartbeats and expiring leases. *)

From stdpp Require Import base numbers list gmap strings sets.
From S2P Require Import Prelude GoText Idempotency IdempotencyFlow IdempotencyStore IdempotencyProtocol IdempotencyRuns.

Local Open Scope Z_scope.
Local Open Scope go_scope.

(** ** Ownership: a thread writes and compares records of its own only *)

Section ownership.
Context {H : Type} `{HeaderOps H, Platform H, !PlatformLaws H, Json, !JsonLaws}.
Context (m : Middleware H) `{!CodecLaws (responseCodec m)}.

Definition owns (owner v : bytes) : Prop := ∃ r, unmarshal_record v = Some r ∧ Owner r = owner.

Lemma owns_inj o1 o2 v : owns o1 v → owns o2 v → o1 = o2.
Proof. intros (r1 & E1 & <-) (r2 & E2 & <-). by simplify_eq. Qed.

Definition step_owned (owner : bytes) (s : pstep H) : Prop :=
  match s with
  | PAcquire _ c _ _ => owns owner c
  | PComplete _ x c _ _ => owns owner x ∧ owns owner c
  | PRelease _ x _ => owns owner x
  | PRun _ (Some g) _ => owns owner (hd_processing g)
  | PRun _ None _ => True
  end.

Lemma hex_ascii b : Forall is_byte b → Forall is_ascii (hex_encode b).
Proof.
  unfold hex_encode. induction 1 as [|x b Hx _ IH]; simpl; [constructor|].
  assert (Hd : ∀ d, 0 ≤ d < 16 → is_ascii (hex_digit d)) by (intros d ?; unfold is_ascii, hex_digit; case_bool_decide; lia).
  unfold is_byte in Hx. constructor; [|constructor; [|done]]; apply Hd.
  - rewrite Z.shiftr_div_pow2 by done. split; [apply Z.div_pos; lia|apply Z.div_lt_upper_bound; lia].
  - change 15 with (Z.ones 4). rewrite Z.land_ones by done. apply Z.mod_pos_bound. lia.
Qed.

Lemma resolved_fingerprint_ascii q fp q' : resolveFingerprint m q = Some (fp, q') → Forall is_ascii fp.
Proof.
  unfold resolveFingerprint. intros (x & _ & Hx)%bind_Some. destruct x as [identity q0].
  destruct (fingerprintScopeProvider m); simplify_eq; apply hex_ascii, sha256_bytes.
Qed.

Lemma capture_bytes r before encoded : captureResponse m r before = Ok encoded → Forall is_byte encoded.
Proof.
  unfold captureResponse. intros E. repeat split_match; simplify_eq.
  eapply (encode_bytes (C:=responseCodec m)); [|done]. by eapply marshal_response_bytes.
Qed.

Lemma marshal_owns r v : record_ascii r → marshal_record r = Some v → owns (Owner r) v.
Proof. intros Hr E. exists r. split; [by eapply unmarshal_marshal_record|done]. Qed.

Context (owner : bytes) (Howner : Forall is_ascii owner).

Lemma processing_ascii fp : Forall is_ascii fp → record_ascii (processing_record fp owner).
Proof. intros. split; simpl; try done; by apply ascii_const. Qed.

Lemma unknown_ascii r : record_ascii r → record_ascii (unknown_record r).
Proof. intros [????]. split; simpl; try done; by apply ascii_const. Qed.

Lemma completion_ascii r o before final :
  record_ascii r → completion m r o before = Some final → record_ascii final.
Proof.
  intros [????] E. unfold completion in E. destruct (captureResponse _ _ _) as [enc|[]] eqn:Ec; simplify_eq;
    split; simpl; try done; try (by apply ascii_const). by eapply capture_bytes.
Qed.

Lemma completion_owner r o before final : completion m r o before = Some final → Owner final = Owner r.
Proof. unfold completion. intros. repeat split_match; by simplify_eq. Qed.

Lemma settled_owned q fp key processing ttl before o tr a :
  Forall is_ascii fp → marshal_record (processing_record fp owner) = Some processing →
  settled m q {| gr_key := key; gr_processing := processing; gr_record := processing_record fp owner; gr_ttl := ttl |}
    before o tr a →
  Forall (step_owned owner) tr.
Proof.
  intros Hfp Hp Hs. set (gr := {| gr_key := key |}) in *.
  pose proof (processing_ascii fp Hfp) as Hr. pose proof (marshal_owns _ _ Hr Hp) as Hop. simpl in Hop.
  assert (Hft : ∀ tr f, fence_tried (H:=H) gr tr f → Forall (step_owned owner) tr).
  { intros t f Ht. inversion Ht as [|u x Hu]; subst; repeat constructor; [done|].
    exact (marshal_owns _ _ (unknown_ascii _ Hr) Hu). }
  assert (Hc : ∀ final c x, completion m (gr_record gr) o before = Some final → marshal_record final = Some c →
      step_owned owner (PComplete key processing c ttl x)).
  { intros final c x Hf Hm. split; [done|].
    pose proof (marshal_owns _ _ (completion_ascii _ _ _ _ Hr Hf) Hm) as Ho.
    by rewrite (completion_owner _ _ _ _ Hf) in Ho. }
  destruct Hs as [x|tr f ?? Ht|final c ?? Hf Hm|tr tr' f ?? Hcf Ht]; [by repeat constructor|eauto|
    constructor; [by eapply Hc|constructor]|].
  apply Forall_app. split; [|eauto]. destruct Hcf; constructor; eauto.
Qed.

Lemma protocol_owned q tr x : protocol m owner q tr x → Forall (step_owned owner) tr.
Proof.
  assert (Hacq : ∀ key fp q' ttl v, admitted m q key fp q' ttl →
      marshal_record (processing_record fp owner) = Some v → Forall is_ascii fp ∧ owns owner v).
  { intros key fp q' ttl v [_ _ _ Hf _] Hv. apply resolved_fingerprint_ascii in Hf. split; [done|].
    exact (marshal_owns _ _ (processing_ascii _ Hf) Hv). }
  destruct 1 as [| | | | |key fp q' ttl v o tr a Ha Hm Hs]; repeat constructor; try (by eapply Hacq).
  by eapply settled_owned; [eapply Hacq| |].
Qed.

Lemma fence_owned q ttl tr r : fence_protocol m owner q ttl tr r → Forall (step_owned owner) tr.
Proof.
  destruct 1 as [|?? fp q' v x ??? Hf Hv]; repeat constructor. apply resolved_fingerprint_ascii in Hf.
  apply (marshal_owns (fence_record fp owner)); [|done]. split; simpl; try done; by apply ascii_const.
Qed.

(** What a thread's whole run looks like. *)
Definition job_post (j : job H) (tr : list (pstep H)) (f : Answer H + result fence_error unit) : Prop :=
  match j with
  | Serve q => ∃ a, f = inl a ∧ handle_protocol m owner q tr a
  | Fence q ttl => ∃ r, f = inr r ∧ fence_protocol m owner q ttl tr r
  end.

Lemma job_wp j : wp (job_prog m owner j) [] (job_post j).
Proof.
  destruct j; apply prog_wp_bind; (eapply prog_wp_mono; [|apply handle_wp || apply FenceOutcomeUnknown_wp]); simpl; eauto.
Qed.

Lemma job_owned j tr f : job_post j tr f → Forall (step_owned owner) tr.
Proof. destruct j; [intros (a & _ & x & Hp & _)|intros (r & _ & Hp)]; eauto using protocol_owned, fence_owned. Qed.

End ownership.

(** ** The store and the log *)

Section store_inv.
Context {H S : Type} `{Json, Store S, !StoreLaws S}.
Implicit Types (log : list (event H)) (s : S).

Definition op_owned (owner : bytes) (o : op) : Prop :=
  match o with
  | OpAcquire _ c _ => owns owner c
  | OpComplete _ x c _ => owns owner x ∧ owns owner c
  | OpRelease _ x | OpExtend _ x _ => owns owner x
  end.

(** A key is taken only when every other thread's hold has lapsed. *)
Definition exclusive log : Prop :=
  ∀ l1 l2 j now key c ttl, log = l1 ++ EOp j now (OpAcquire key c ttl) :: l2 →
  ∀ i d, i ≠ j → holds i key l2 = Until d → d < now.

(** [owners i] is the owner id of thread [i]. *)
Record store_inv (e0 : entries) (owners : nat → option bytes) s (now : Z) log : Prop := {
  si_view : view s ≈{now} entries_after e0 log;
  si_hold i key d : holds i key log = Until d →
    d < now ∨ ∃ v o, entries_after e0 log !! key = Some (v, d) ∧ owners i = Some o ∧ owns o v;
  si_excl : exclusive log;
}.

Lemma store_inv_start s now owners : store_inv (view s) owners s now [].
Proof. split; [done|done|]. intros [|??]; discriminate. Qed.

Lemma store_inv_later e0 owners s now now' log :
  now ≤ now' → store_inv e0 owners s now log → store_inv e0 owners s now' log.
Proof.
  intros Hle [Hv Hh He]. split; [by eapply same_from_later| |done].
  intros i key d Hi. destruct (Hh i key d Hi); [left; lia|by right].
Qed.

Lemma store_inv_owners e0 owners owners' s now log :
  (∀ i o, owners i = Some o → owners' i = Some o) → store_inv e0 owners s now log → store_inv e0 owners' s now log.
Proof.
  intros Ho [Hv Hh He]. split; [done| |done]. intros i key d Hi.
  destruct (Hh i key d Hi) as [|(v & o & ? & ? & ?)]; [by left|]. right. exists v, o. eauto.
Qed.

Lemma exclusive_ran log i now g o : exclusive log → exclusive (ERan i now g o :: log).
Proof. intros He [|x l1] l2 j n key c ttl E; simplify_eq/=. by eapply He. Qed.

Lemma store_inv_ran e0 owners s now log i n g o :
  store_inv e0 owners s now log → store_inv e0 owners s now (ERan i n g o :: log).
Proof. intros [Hv Hh He]. split; [done|done|by apply exclusive_ran]. Qed.

Lemma op_effect_lookup_ne o last e key : op_key o ≠ key → op_effect o last e !! key = e !! key.
Proof. intros. destruct o; simpl in *; by rewrite ?lookup_insert_ne, ?lookup_delete_ne. Qed.

(** The value a command leaves is its owner's. *)
Lemma op_effect_lookup own o last e key v d :
  op_owned own o → op_key o = key → op_effect o last e !! key = Some (v, d) → owns own v ∧ d = last.
Proof.
  intros Ho <- E. destruct o; simpl in *; rewrite ?lookup_insert_eq, ?lookup_delete_eq in E; simplify_eq; naive_solver.
Qed.

Lemma live_entry e now key v : live e now key = Some v → ∃ last, e !! key = Some (v, last) ∧ now ≤ last.
Proof. unfold live. intros E. repeat split_match; simplify_eq. bool_to_prop. eauto. Qed.

Lemma live_none_entry e now key v last : live e now key = None → e !! key = Some (v, last) → last < now.
Proof. unfold live. intros E1 E2. rewrite E2 in E1. case_bool_decide; [done|lia]. Qed.

(** A command that takes effect at a key another thread's record occupies finds
    that record expired: it can only be an acquisition. *)
Lemma enabled_foreign own own' o now e v last :
  op_enabled now o e → op_owned own o → own' ≠ own → e !! op_key o = Some (v, last) → owns own' v → last < now.
Proof.
  intros He Ho Hne Hv Hov. destruct o as [k c ttl|k x c ttl|k x|k x ttl]; simpl in *;
    [by eapply live_none_entry; [apply He|]| | | ]; exfalso;
    (destruct (live_entry e now k x) as (l & Hl & _); [naive_solver|]); simplify_eq;
    apply Hne; eapply owns_inj; naive_solver.
Qed.

Definition record (i : nat) (now : Z) (o : op) (a : op_answer) log : list (event H) :=
  if applied a then EOp i now o :: log else log.

Lemma exec_store_inv e0 owners s now log i own o a s' :
  (∀ i j o, owners i = Some o → owners j = Some o → i = j) →
  owners i = Some own → op_owned own o → exec now o s = (a, s') →
  store_inv e0 owners s now log → store_inv e0 owners s' now (record i now o a log).
Proof.
  intros Hinj Hi Hown Hex [Hv Hh He]. unfold record. set (last := deadline now (op_ttl o)).
  destruct (exec_contract now o s) as [E1 E2]. rewrite Hex in E1, E2. simpl in E1, E2.
  destruct (do_op_proper now o last _ _ Hv) as [E3 E4].
  fold last in E1, E2. rewrite E3 in E1. rewrite E4 in E2. pose proof (do_op_spec now o last (entries_after e0 log)) as Hs.
  rewrite <- E1 in Hs. destruct (applied a); [|rewrite Hs in E2; by split]. destruct Hs as [Hen Heff].
  rewrite Heff in E2. split; [done| |].
  - intros j key d. cbn [holds entries_after]. fold last.
    destruct (decide (op_key o = key)) as [Hk|Hk]; [|rewrite (bool_decide_false (op_key o = key)) by done;
      rewrite andb_false_r, op_effect_lookup_ne by done; apply Hh].
    destruct (decide (j = i)) as [->|Hne].
    + rewrite !bool_decide_true by done. simpl. intros E. right. subst key.
      destruct o; simplify_eq; simpl; rewrite lookup_insert_eq; eexists _, own; (split_and!; [done..|]);
        first [exact Hown|exact (proj2 Hown)].
    + rewrite (bool_decide_false (j = i)) by done. simpl. intros Hj. left.
      destruct (Hh j key d Hj) as [|(v & o' & Hv' & Ho' & Hov)]; [done|]. subst key.
      eapply enabled_foreign; try done. intros ->. by apply Hne, (Hinj _ _ own).
  - intros [|x l1] l2 j n key c ttl E; simplify_eq/=; [|by eapply He].
    intros i' d Hne Hd. destruct (Hh i' key d Hd) as [|(v & o' & Hv' & Ho' & Hov)]; [done|].
    destruct Hen as [Hl _]. by eapply live_none_entry.
Qed.

End store_inv.

(** ** The invariant of a world *)

Section worlds.
Context {H S : Type} `{HeaderOps H, Platform H, !PlatformLaws H, Json, !JsonLaws, Store S, !StoreLaws S}.
Context (m : Middleware H) `{!CodecLaws (responseCodec m)}.
Implicit Types (w : world H S) (t : thread H) (log : list (event H)).

Definition owner_of w (i : nat) : option bytes := t_owner <$> w_threads w !! i.

(** The handler runs of a thread in the log (newest first) and in a trace. *)
Fixpoint logged_runs (i : nat) log : list (option hold * outcome H) :=
  match log with
  | [] => []
  | ERan j _ g o :: log' => if bool_decide (i = j) then (g, o) :: logged_runs i log' else logged_runs i log'
  | EOp _ _ _ :: log' => logged_runs i log'
  end.

Definition traced_runs (tr : list (pstep H)) : list (option hold * outcome H) :=
  omap (λ s, match s with PRun _ g o => Some (g, o) | _ => None end) tr.

(** The step is in the log when its answer says that it took effect. *)
Definition logged (i : nat) (s : pstep H) log : Prop :=
  match s with
  | PAcquire k c ttl Acquired => ∃ now, EOp i now (OpAcquire k c ttl) ∈ log
  | PComplete k x c ttl (Some true) => ∃ now, EOp i now (OpComplete k x c ttl) ∈ log
  | _ => True
  end.

Record thread_ok (i : nat) t log : Prop := {
  ok_wp : wp (t_prog t) (t_trace t) (job_post m (t_owner t) (t_job t));
  ok_ascii : Forall is_ascii (t_owner t);
  ok_logged : Forall (λ s, logged i s log) (t_trace t);
  ok_runs : rev (logged_runs i log) = traced_runs (t_trace t);
}.

Record inv (e0 : entries) w : Prop := {
  inv_store : store_inv e0 (owner_of w) (w_store w) (w_now w) (w_log w);
  inv_threads i t : w_threads w !! i = Some t → thread_ok i t (w_log w);
  inv_flight i o : (i, o) ∈ w_flight w → ∃ own, owner_of w i = Some own ∧ op_owned own o;
  inv_inj i j own : owner_of w i = Some own → owner_of w j = Some own → i = j;
  inv_used i own : owner_of w i = Some own → own ∈ w_owners w;
  inv_strays i : w_threads w !! i = None → logged_runs i (w_log w) = [];
}.

Lemma some_outcome (q : Request H) : outcome H.
Proof. exact {| h_err := None; h_response := q_response q |}. Qed.

Definition job_request (j : job H) : Request H := match j with Serve q | Fence q _ => q end.

Lemma wp_step_owned own j p tr s :
  Forall is_ascii own → wp p (tr ++ [s]) (job_post m own j) → step_owned own s.
Proof.
  intros Ha Hw. destruct (wp_reaches (some_outcome (job_request j)) _ _ _ Hw) as (tr' & a & Hj).
  apply (job_owned m _ Ha) in Hj. rewrite !Forall_app, Forall_singleton in Hj. tauto.
Qed.

Lemma next_op_owned i t log o : thread_ok i t log → next_op (t_prog t) = Some o → op_owned (t_owner t) o.
Proof.
  intros [Hw Ha _ _] Ho. destruct (t_prog t) as [|k c ttl kk|k x c ttl kk|k x kk|]; simplify_eq/=.
  - exact (wp_step_owned _ _ _ _ _ Ha (Hw AcqFailed)).
  - exact (wp_step_owned _ _ _ _ _ Ha (Hw None)).
  - exact (wp_step_owned _ _ _ _ _ Ha (Hw None)).
Qed.

Lemma beat_op_owned i t log o : thread_ok i t log → beat_op t = Some o → op_owned (t_owner t) o.
Proof.
  intros [Hw Ha _ _] Ho. unfold beat_op in Ho. destruct (t_prog t) as [| | | |q [g|] kk]; simplify_eq/=.
  pose proof (wp_step_owned _ _ _ _ _ Ha (Hw (some_outcome q))) as Hs. by repeat split_match; simplify_eq.
Qed.

Lemma logged_weaken i s log ev : logged i s log → logged i s (ev :: log).
Proof. destruct s as [??? []|???? [[]|]| |]; simpl; try done; intros [n ?]; exists n; set_solver. Qed.

Lemma record_runs i j now o a log : logged_runs i (record j now o a log) = logged_runs i log.
Proof. unfold record. by destruct (applied a). Qed.

Lemma record_logged i s j now o a log : logged i s log → logged i s (record j now o a log).
Proof. unfold record. destruct (applied a); auto using logged_weaken. Qed.

Lemma thread_ok_record i t j now o a log : thread_ok i t log → thread_ok i t (record j now o a log).
Proof.
  intros [????]. split; try done; [|by rewrite record_runs]. eapply Forall_impl; [done|]. intros. by apply record_logged.
Qed.

(** Going on after an answer that was given, or that was lost. *)
Lemma resume_ok i t log now o a :
  thread_ok i t log → next_op (t_prog t) = Some o → thread_ok i (resume t a) (record i now o a log).
Proof.
  intros Ht Ho. apply (thread_ok_record _ _ i now o a) in Ht. revert Ht. intros [Hw Ha Hl Hr].
  unfold resume. destruct (t_prog t) as [|k c ttl kk|k x c ttl kk|k x kk|] eqn:Ep, a as [x'|x']; simplify_eq/=;
    try (split; simpl; rewrite ?Ep; by auto);
    (split; simpl; [apply Hw|done| |by unfold traced_runs in *; rewrite omap_app; simpl; rewrite app_nil_r]);
    apply Forall_app; (split; [done|]); apply Forall_singleton; unfold record; simpl;
    try destruct x' as [[]|]; try destruct x' as [| |]; simpl; try done; eexists; apply list_elem_of_here.
Qed.

Lemma resume_owner t a : t_owner (resume t a) = t_owner t.
Proof. unfold resume. by destruct (t_prog t), a. Qed.

Lemma lost_not_applied o : applied (lost_answer o) = false.
Proof. by destruct o. Qed.

Lemma owner_of_insert w i t t' :
  w_threads w !! i = Some t → t_owner t' = t_owner t → ∀ j, owner_of (set_thread i t' w) j = owner_of w j.
Proof.
  intros Hi Ho j. unfold owner_of, set_thread. simpl. destruct (decide (i = j)) as [<-|Hne].
  - rewrite list_lookup_insert_eq by (by eapply lookup_lt_Some). rewrite Hi. simpl. by rewrite Ho.
  - by rewrite list_lookup_insert_ne.
Qed.

Lemma inv_set_thread e0 w i t t' :
  inv e0 w → w_threads w !! i = Some t → t_owner t' = t_owner t → thread_ok i t' (w_log w) →
  inv e0 (set_thread i t' w).
Proof.
  intros [Hs Ht Hf Hi Hu Hx] Hl Ho Hok. pose proof (owner_of_insert w i t t' Hl Ho) as Heq. split; simpl.
  - eapply store_inv_owners; [|done]. intros j own. by rewrite Heq.
  - intros j tj Hj. destruct (decide (i = j)) as [<-|Hne].
    + rewrite list_lookup_insert_eq in Hj by (by eapply lookup_lt_Some). by simplify_eq.
    + rewrite list_lookup_insert_ne in Hj by done. by apply Ht.
  - intros j o Hj. rewrite Heq. by apply Hf.
  - intros j k own. rewrite !Heq. apply Hi.
  - intros j own. rewrite Heq. apply Hu.
  - intros j Hj. apply Hx. apply lookup_ge_None. apply lookup_ge_None in Hj. by rewrite length_insert in Hj.
Qed.

Lemma perform_log w i o a w' : perform i o w = (a, w') → w_log w' = record i (w_now w) o a (w_log w).
Proof. unfold perform, record. destruct (exec _ _ _) as [a' s']. intros E. simplify_eq/=. by destruct (applied a). Qed.

Lemma perform_rest w i o a w' :
  perform i o w = (a, w') →
  w_threads w' = w_threads w ∧ w_now w' = w_now w ∧ w_flight w' = w_flight w ∧ w_owners w' = w_owners w.
Proof. unfold perform. destruct (exec _ _ _) as [a' s']. intros E. simplify_eq/=. by destruct (applied a). Qed.

Lemma inv_perform e0 w i own o a w' :
  inv e0 w → owner_of w i = Some own → op_owned own o → perform i o w = (a, w') → inv e0 w'.
Proof.
  intros [Hs Ht Hf Hi Hu Hx] Hown Hop Hp. pose proof (perform_log _ _ _ _ _ Hp) as Hlog.
  pose proof (perform_rest _ _ _ _ _ Hp) as (Eth & Enow & Efl & Eow).
  assert (Heq : ∀ j, owner_of w' j = owner_of w j) by (intros j; unfold owner_of; by rewrite Eth).
  split; rewrite ?Eth, ?Enow, ?Efl, ?Eow, ?Hlog.
  - assert (∃ s', exec (w_now w) o (w_store w) = (a, s') ∧ w_store w' = s') as (s' & Hex & ->).
    { unfold perform in Hp. destruct (exec _ _ _) as [a' s']. simplify_eq/=. exists s'. split; [done|].
      by destruct (applied a). }
    apply (store_inv_owners _ (owner_of w)); [intros j x; by rewrite Heq|]. by eapply exec_store_inv.
  - intros j t Hj. by apply thread_ok_record, Ht.
  - intros j x Hj. rewrite Heq. by apply Hf.
  - intros j k x. rewrite !Heq. apply Hi.
  - intros j x. rewrite Heq. apply Hu.
  - intros j Hj. rewrite record_runs. by apply Hx.
Qed.

Lemma inv_flying e0 w i own o :
  inv e0 w → owner_of w i = Some own → op_owned own o → inv e0 (w <| w_flight := (i, o) :: w_flight w |>).
Proof.
  intros [Hs Ht Hf Hi Hu Hx] Hown Hop. split; try done. simpl. intros j x [?|Hj]%elem_of_cons; [|by apply Hf].
  simplify_eq. by exists own.
Qed.

Lemma inv_landed e0 w n : inv e0 w → inv e0 (w <| w_flight := delete n (w_flight w) |>).
Proof.
  intros [Hs Ht Hf Hi Hu Hx]. split; try done. simpl. intros j x Hj. apply Hf.
  eapply elem_of_submseteq; [done|]. apply sublist_submseteq, sublist_delete.
Qed.

Lemma inv_tick e0 w d : 0 ≤ d → inv e0 w → inv e0 (w <| w_now := w_now w + d |>).
Proof. intros Hd [Hs Ht Hf Hi Hu Hx]. split; try done. simpl. eapply store_inv_later; [|done]. lia. Qed.

Lemma inv_spawn e0 w owner j :
  owner ∉ w_owners w → Forall is_ascii owner → inv e0 w →
  inv e0 (w <| w_threads := w_threads w ++ [spawned m owner j] |> <| w_owners := owner :: w_owners w |>).
Proof.
  intros Hfresh Ha [Hs Ht Hf Hi Hu Hx].
  set (w' := set_to _ _ _). pose (n := length (w_threads w)).
  assert (Hlk : ∀ i, w_threads w' !! i = if decide (i = n) then Some (spawned m owner j) else w_threads w !! i).
  { intros i. subst w'. simpl. destruct (decide (i = n)) as [->|Hne]; [by apply list_lookup_middle|].
    destruct (w_threads w !! i) eqn:Hi'; [by apply lookup_app_l_Some|].
    apply lookup_ge_None in Hi'. apply lookup_ge_None. rewrite length_app. simpl. unfold n in Hne. lia. }
  assert (Hold : ∀ i own, owner_of w i = Some own → owner_of w' i = Some own ∧ i ≠ n).
  { intros i own Ho. unfold owner_of in *. rewrite Hlk. destruct (w_threads w !! i) as [t|] eqn:E; [|done].
    apply lookup_lt_Some in E. rewrite decide_False by (unfold n; lia). split; [done|unfold n; lia]. }
  assert (Hnew : ∀ i own, owner_of w' i = Some own → owner_of w i = Some own ∨ (i = n ∧ own = owner)).
  { intros i own. unfold owner_of. rewrite Hlk. destruct (decide (i = n)); simpl; naive_solver. }
  split; change (w_log w') with (w_log w).
  - apply (store_inv_owners _ (owner_of w)); [|exact Hs]. intros i own Ho. by apply Hold.
  - intros i t. rewrite (Hlk i). destruct (decide (i = n)) as [->|]; [|apply Ht]. intros [= <-].
    split; simpl; [apply job_wp|done|constructor|]. rewrite Hx; [done|]. by apply lookup_ge_None.
  - intros i o Hin. destruct (Hf i o Hin) as (own & Ho & Hop). exists own. split; [by apply Hold|done].
  - intros i k own H1i H2k. apply Hnew in H1i, H2k. destruct H1i as [H1i|[-> ->]], H2k as [H2k|[-> Ek]]; simplify_eq;
      [by eapply Hi| | |done]; exfalso; by apply Hfresh; eapply Hu.
  - intros i own Ho. apply Hnew in Ho as [Ho|[-> ->]]; [|set_solver]. apply elem_of_cons. right. by eapply Hu.
  - intros i Hi'. apply Hx. rewrite Hlk in Hi'. by destruct (decide (i = n)).
Qed.

Lemma inv_handler_done e0 w i t q g k o :
  inv e0 w → w_threads w !! i = Some t → t_prog t = RunHandler q g k →
  inv e0 (set_thread i (t <| t_prog := k o |> <| t_trace := t_trace t ++ [PRun q g o] |>)
            (w <| w_log := ERan i (w_now w) g o :: w_log w |>)).
Proof.
  intros [Hs Ht Hf Hi Hu Hx] Hl Hp. pose proof (Ht i t Hl) as [Hw Ha Hlg Hr].
  set (t' := set_to t_trace _ _). pose proof (owner_of_insert w i t t' Hl eq_refl) as Heq.
  split; simpl.
  - apply store_inv_ran. eapply store_inv_owners; [|done]. intros j own Ho. by rewrite <- Heq in Ho.
  - intros j tj Hj. destruct (decide (i = j)) as [<-|Hne].
    + rewrite list_lookup_insert_eq in Hj by (by eapply lookup_lt_Some). simplify_eq. split; simpl.
      * rewrite Hp in Hw. apply Hw.
      * done.
      * apply Forall_app. split; [|by apply Forall_singleton]. eapply Forall_impl; [done|]. intros. by apply logged_weaken.
      * rewrite bool_decide_true by done. simpl. unfold traced_runs in *. by rewrite omap_app, Hr.
    + rewrite list_lookup_insert_ne in Hj by done. destruct (Ht j tj Hj) as [Hw' Ha' Hl' Hr']. split; try done.
      * eapply Forall_impl; [done|]. intros. by apply logged_weaken.
      * simpl. by rewrite bool_decide_false by done.
  - intros j x Hj. apply (Hf j x) in Hj. by rewrite <- Heq in Hj.
  - intros j k' own Hj Hk. apply (Hi j k' own); by rewrite <- Heq.
  - intros j own Ho. apply (Hu j own). by rewrite <- Heq.
  - intros j Hj. apply lookup_ge_None in Hj. rewrite length_insert in Hj. apply lookup_ge_None in Hj.
    rewrite bool_decide_false by (intros ->; by rewrite Hl in Hj). by apply Hx.
Qed.

Lemma owner_of_thread w i t : w_threads w !! i = Some t → owner_of w i = Some (t_owner t).
Proof. unfold owner_of. by intros ->. Qed.

(** A thread that stays as it was but for its heartbeat. *)
Lemma thread_ok_beating i t log b : thread_ok i t log → thread_ok i (t <| t_beating := b |>) log.
Proof. intros [????]. by split. Qed.

Lemma step_inv e0 w l w' : inv e0 w → step m w l = Some w' → inv e0 w'.
Proof.
  intros Hinv E. destruct l as [d|owner j|i answered|n|i answered|i o]; simpl in E.
  - case_bool_decide; simplify_eq. by apply inv_tick.
  - destruct (_ || _)%bool eqn:Hg; simplify_eq. bool_to_prop. by apply inv_spawn.
  - destruct (w_threads w !! i) as [t|] eqn:Ht; [|done]. simpl in E. destruct (next_op (t_prog t)) as [o|] eqn:Ho; [|done].
    simpl in E. pose proof (inv_threads _ _ Hinv i t Ht) as Hok. pose proof (next_op_owned _ _ _ _ Hok Ho) as Hop.
    destruct answered.
    + destruct (perform i o w) as [a w1] eqn:Hp. simplify_eq.
      pose proof (perform_rest _ _ _ _ _ Hp) as (Eth & _). eapply inv_set_thread.
      * eapply inv_perform; eauto using owner_of_thread.
      * by rewrite Eth.
      * apply resume_owner.
      * rewrite (perform_log _ _ _ _ _ Hp). by eapply resume_ok.
    + simplify_eq. eapply inv_set_thread; [eapply inv_flying; eauto using owner_of_thread|done|apply resume_owner|].
      simpl. pose proof (resume_ok i t (w_log w) (w_now w) o (lost_answer o) Hok Ho) as Hr.
      unfold record in Hr. by rewrite lost_not_applied in Hr.
  - destruct (w_flight w !! n) as [[i o]|] eqn:Hn; [|done]. simpl in E. destruct (perform _ _ _) as [a w1] eqn:Hp.
    simplify_eq/=. destruct (inv_flight _ _ Hinv i o) as (own & Ho & Hop); [by eapply list_elem_of_lookup_2|].
    eapply inv_perform; [by apply inv_landed| |done|done]. done.
  - destruct (w_threads w !! i) as [t|] eqn:Ht; [|done]. simpl in E. destruct (beat_op t) as [o|] eqn:Ho; [|done].
    simpl in E. pose proof (inv_threads _ _ Hinv i t Ht) as Hok. pose proof (beat_op_owned _ _ _ _ Hok Ho) as Hop.
    destruct answered; simplify_eq; [|by eapply inv_flying; eauto using owner_of_thread].
    destruct (perform i o w) as [a w1] eqn:Hp. simplify_eq. pose proof (perform_rest _ _ _ _ _ Hp) as (Eth & _).
    eapply inv_set_thread; [eapply inv_perform; eauto using owner_of_thread|by rewrite Eth|done|].
    rewrite (perform_log _ _ _ _ _ Hp). by apply thread_ok_beating, thread_ok_record.
  - destruct (w_threads w !! i) as [t|] eqn:Ht; [|done]. simpl in E. destruct (t_prog t) eqn:Hp; simplify_eq.
    by eapply inv_handler_done.
Qed.

Lemma inv_start s now : inv (view s) (start s now).
Proof. split; try done; simpl; [apply store_inv_start|set_solver]. Qed.

Lemma run_inv e0 w ls w' : inv e0 w → run m w ls = Some w' → inv e0 w'.
Proof.
  revert w. induction ls as [|l ls IH]; simpl; intros w Hw E; [by simplify_eq|].
  destruct (step m w l) as [w1|] eqn:Hs; [|done]. eapply IH; [|done]. by eapply step_inv.
Qed.

Lemma reachable_inv s now ls w : run m (start s now) ls = Some w → inv (view s) w.
Proof. apply run_inv, inv_start. Qed.

(** ** What a thread's trace tells *)

Lemma fence_tried_runs gr tr f : fence_tried (H:=H) gr tr f → traced_runs tr = [].
Proof. by destruct 1. Qed.

Lemma settled_runs q gr before o tr a : settled m q gr before o tr a → traced_runs tr = [].
Proof.
  destruct 1 as [x|tr f ?? Ht|final c ?? Hf Hm|tr tr' f ?? Hc Ht]; [done|by eapply fence_tried_runs|done|].
  unfold traced_runs. rewrite omap_app. fold (traced_runs tr) (traced_runs tr').
  rewrite (fence_tried_runs _ _ _ Ht). by destruct Hc.
Qed.

(** The handler runs of a whole request. *)
Inductive request_runs (owner : bytes) (q : Request H) (tr : list (pstep H)) : Prop :=
| no_run : traced_runs tr = [] → request_runs owner q tr
| bare_run o : protected m q = false ∨ failClosed m = false → traced_runs tr = [(None, o)] → request_runs owner q tr
| guarded_run key fp q' ttl processing o tr' a :
  admitted m q key fp q' ttl →
  marshal_record (processing_record fp owner) = Some processing →
  tr = [PAcquire key processing (lease_of m q' ttl) Acquired; PRun q' (Some (hold_of m q' key processing ttl)) o] ++ tr' →
  settled m q' {| gr_key := key; gr_processing := processing; gr_record := processing_record fp owner; gr_ttl := ttl |}
    (snapshotResponseHeaders (q_response q')) o tr' a →
  traced_runs tr = [(Some (hold_of m q' key processing ttl), o)] → request_runs owner q tr.

Lemma protocol_runs owner q tr x : protocol m owner q tr x → request_runs owner q tr.
Proof.
  destruct 1 as [|q' o Hb|????|?????? Ha Hc|????|key fp q' ttl v o tr a Ha Hm Hs];
    try (by apply no_run); [by eapply bare_run|eapply bare_run; [by right|done]|].
  eapply guarded_run; [done..|]. simpl. change (omap _ tr) with (traced_runs tr).
  by rewrite (settled_runs _ _ _ _ _ _ Hs).
Qed.

(** What is known of a thread that ran a handler. *)
Lemma thread_runs i t log g o :
  thread_ok i t log → (g, o) ∈ logged_runs i log →
  ∃ q tr', t_job t = Serve q ∧ request_runs (t_owner t) q (t_trace t ++ tr') ∧ traced_runs (t_trace t) = [(g, o)] ∧
    traced_runs (t_trace t ++ tr') = [(g, o)].
Proof.
  intros [Hw Ha Hl Hr] Hin. destruct (wp_reaches o _ _ _ Hw) as (tr' & a & Hj).
  assert (Hin' : (g, o) ∈ traced_runs (t_trace t)) by (rewrite <- Hr; by rewrite list_elem_of_In, <- in_rev, <- list_elem_of_In).
  assert (Happ : traced_runs (t_trace t ++ tr') = traced_runs (t_trace t) ++ traced_runs tr') by apply omap_app.
  destruct (t_job t) as [q|q ttl].
  - destruct Hj as (a' & _ & x & Hp & _). apply protocol_runs in Hp. exists q, tr'. split; [done|]. split; [done|].
    assert (Hlen : length (traced_runs (t_trace t ++ tr')) = 1%nat).
    { destruct Hp as [E|? _ E|???????? _ _ _ _ E]; [|by rewrite E..]. rewrite Happ in E.
      apply app_eq_nil in E as [E _]. rewrite E in Hin'. by apply not_elem_of_nil in Hin'. }
    rewrite Happ in Hlen |- *. rewrite length_app in Hlen.
    destruct (traced_runs (t_trace t)) as [|p []]; simpl in *; [by apply not_elem_of_nil in Hin'| |lia].
    destruct (traced_runs tr'); [|simpl in *; lia]. apply list_elem_of_singleton in Hin' as ->. done.
  - destruct Hj as (r & _ & Hp). assert (E : traced_runs (t_trace t ++ tr') = []) by (by destruct Hp).
    rewrite Happ in E. apply app_eq_nil in E as [E _]. rewrite E in Hin'. by apply not_elem_of_nil in Hin'.
Qed.

(** A guarded run is preceded by the acquisition of its key. *)
Lemma guarded_acquired i t log h o :
  thread_ok i t log → (Some h, o) ∈ logged_runs i log →
  ∃ now, EOp i now (OpAcquire (hd_key h) (hd_processing h) (hd_lease h)) ∈ log.
Proof.
  intros Hok Hin. destruct (thread_runs _ _ _ _ _ Hok Hin) as (q & tr' & _ & Hp & E & E').
  destruct Hok as [_ _ Hl _]. destruct Hp as [Ep|? _ Ep|key fp q' ttl v o' tr'' a' Ha Hm Etr Hs Ep];
    rewrite Ep in E'; simplify_eq.
  destruct (t_trace t) as [|s0 tr0]; [done|]. simpl in Etr. simplify_eq. apply Forall_cons in Hl as [Hl _]. exact Hl.
Qed.

Lemma two_events {A} (x y : A) l : x ≠ y → x ∈ l → y ∈ l →
  ∃ l1 l2, (l = l1 ++ x :: l2 ∧ y ∈ l2) ∨ (l = l1 ++ y :: l2 ∧ x ∈ l2).
Proof.
  intros Hne Hx Hy. induction l as [|z l IH]; [set_solver|].
  apply elem_of_cons in Hx as [->|Hx]; apply elem_of_cons in Hy as [->|Hy]; [done| | |].
  - exists [], l. by left.
  - exists [], l. by right.
  - destruct (IH Hx Hy) as (l1 & l2 & [[-> ?]|[-> ?]]); exists (z :: l1), l2; [by left|by right].
Qed.

Lemma acquired_holds i key log now c ttl : EOp i now (OpAcquire key c ttl) ∈ log → holds i key log ≠ Never.
Proof.
  induction log as [|ev log IH]; [set_solver|]. intros [<-|Hin]%elem_of_cons.
  - simpl. by rewrite !bool_decide_true.
  - destruct ev as [j n o|]; simpl; [|by apply IH]. destruct (_ && _)%bool; [by destruct o|by apply IH].
Qed.

Lemma runs_once e0 w i : inv e0 w → (length (logged_runs i (w_log w)) ≤ 1)%nat.
Proof.
  intros Hinv. destruct (w_threads w !! i) as [t|] eqn:Ht; [|rewrite (inv_strays _ _ Hinv i Ht); simpl; lia].
  pose proof (inv_threads _ _ Hinv i t Ht) as Hok. destruct (logged_runs i (w_log w)) as [|[g o] l] eqn:E; [simpl; lia|].
  destruct (thread_runs i t (w_log w) g o Hok) as (? & ? & _ & _ & E' & _); [rewrite E; set_solver|].
  destruct Hok as [_ _ _ Hr]. rewrite E, E' in Hr. apply (f_equal length) in Hr. rewrite length_rev in Hr.
  simpl in *. lia.
Qed.

Lemma run_thread e0 w i g o : inv e0 w → (g, o) ∈ logged_runs i (w_log w) → ∃ t, w_threads w !! i = Some t ∧ thread_ok i t (w_log w).
Proof.
  intros Hinv Hin. destruct (w_threads w !! i) as [t|] eqn:Ht; [|rewrite (inv_strays _ _ Hinv i Ht) in Hin; set_solver].
  exists t. split; [done|]. by apply (inv_threads _ _ Hinv).
Qed.

(** [b] took the key although [a] had taken it before: [a] gave it back itself,
    or its hold (its last write or renewal) had lapsed. *)
Definition taken_over log (key : bytes) (a b : nat) : Prop :=
  ∃ l1 l2 now c ttl, log = l1 ++ EOp b now (OpAcquire key c ttl) :: l2 ∧
    (holds a key l2 = GaveBack ∨ ∃ d, holds a key l2 = Until d ∧ d < now).

Lemma exclusive_taken_over log i j key n1 c1 u1 n2 c2 u2 :
  exclusive log → i ≠ j → EOp i n1 (OpAcquire key c1 u1) ∈ log → EOp j n2 (OpAcquire key c2 u2) ∈ log →
  taken_over log key i j ∨ taken_over log key j i.
Proof.
  intros He Hne Hi Hj.
  assert (Hto : ∀ a b l1 l2 n c u n' c' u', a ≠ b → log = l1 ++ EOp b n (OpAcquire key c u) :: l2 →
      EOp a n' (OpAcquire key c' u') ∈ l2 → taken_over log key a b).
  { intros a b l1 l2 n c u n' c' u' Hab E Ha. exists l1, l2, n, c, u. split; [done|]. apply acquired_holds in Ha.
    destruct (holds a key l2) as [|d|] eqn:Eh; [done| |by left]. right. exists d. split; [done|]. by eapply He. }
  destruct (two_events (EOp i n1 (OpAcquire key c1 u1)) (EOp j n2 (OpAcquire key c2 u2)) log)
    as (l1 & l2 & [[E Hin]|[E Hin]]); [congruence|done|done|right|left]; eapply Hto; eauto.
Qed.


Lemma retire_reply (x : exit H) : a_reply (retireUnreadRequestStream x) = a_reply (x_answer x).
Proof. unfold retireUnreadRequestStream. by repeat split_match. Qed.

Lemma respondUnavailable_not_passed o : a_reply (respondUnavailable m) ≠ Passed o.
Proof. unfold respondUnavailable. by destruct (onUnavailable m). Qed.

(** An occupied key is never answered with a handler's response of this
    request. *)
Lemma answer_stored_not_passed q fp stored o : a_reply (answer_stored m q fp stored) ≠ Passed o.
Proof.
  unfold answer_stored, respondLegacy, replay. repeat (case_match; simpl); try done;
    unfold respondKeyReuse, respondOutcomeUnknown, respondReplayUnavailable, respondUnrecognisedState,
      respondUnreadableRecord, respondPostHandlerStoreError; by repeat (case_match; simpl).
Qed.

(** With the middleware failing closed, a request that asks for protection runs its handler only after
    the store confirmed that it acquired the request's own key; when the handler did not run, the answer is a
    refusal, a document of the application or the answer kept for the key, never a handler's response. *)
Theorem protected_runs_are_guarded s now ls w i t q :
  run m (start s now) ls = Some w → failClosed m = true →
  w_threads w !! i = Some t → t_job t = Serve q → protected m q = true →
  (∀ g o, (g, o) ∈ logged_runs i (w_log w) → ∃ h fp q' ttl n,
    g = Some h ∧ admitted m q (hd_key h) fp q' ttl ∧
    EOp i n (OpAcquire (hd_key h) (hd_processing h) (hd_lease h)) ∈ w_log w) ∧
  (∀ a, t_prog t = Ret (inl a) → logged_runs i (w_log w) = [] → ∀ o, a_reply a ≠ Passed o).
Proof.
  intros Hr Hfc Ht Hj Hp. apply reachable_inv in Hr as Hinv. pose proof (inv_threads _ _ Hinv i t Ht) as Hok. split.
  - intros g o Hin. destruct (thread_runs _ _ _ _ _ Hok Hin) as (q0 & tr' & Hj' & Hq & E & E').
    rewrite Hj in Hj'. injection Hj' as <-. destruct Hq as [Ep|? [?|?] Ep|key fp q' ttl v o' tr'' a' Ha Hm Etr Hs Ep]; rewrite Ep in E'; simplify_eq; try congruence.
    destruct (guarded_acquired _ _ _ _ _ Hok Hin) as [n Hn].
    exists (hold_of m q' key v ttl), fp, q', ttl, n. split_and!; [done|exact Ha|exact Hn].
  - intros a Ha Hruns o. destruct Hok as [Hw _ _ Htr]. rewrite Ha, Hj in Hw. simpl in Hw. destruct Hw as (a' & [= <-] & x & Hx & ->).
    rewrite Hruns in Htr. simpl in Htr.
    rewrite retire_reply. destruct Hx as [q' a Hx|q' o' _|??? ???|??????|??????|???????? Ha' Hm Hs]; simpl in *; try discriminate.
    + unfold is_refusal in Hx. by destruct (a_reply a).
    + by apply respondUnavailable_not_passed.
    + apply answer_stored_not_passed.
Qed.

Lemma retire_fenced (x : exit H) : a_fenced (retireUnreadRequestStream x) = a_fenced (x_answer x).
Proof. unfold retireUnreadRequestStream. by repeat split_match. Qed.

(** A record of this request's outcome is in the store's history. *)
Definition recorded i log (h : hold) (fp : bytes) (ttl : duration) (outcome : bytes → Prop) : Prop :=
  ∃ n c r, EOp i n (OpComplete (hd_key h) (hd_processing h) c ttl) ∈ log ∧ unmarshal_record c = Some r ∧
    State r = keyStateComplete ∧ Fingerprint r = fp ∧ outcome (Outcome r).

Section settled.
Context (owner fp : bytes) (Howner : Forall is_ascii owner) (Hfp : Forall is_ascii fp).

Lemma recorded_fence i log h ttl tr f :
  fence_tried {| gr_key := hd_key h; gr_processing := hd_processing h; gr_record := processing_record fp owner; gr_ttl := ttl |} tr f →
  Forall (λ s, logged i s log) tr →
  f = false ∨ recorded i log h fp ttl (λ out, out = outcomeUnrecorded).
Proof.
  intros Hf Hl. destruct Hf as [|u x Hu]; [by left|]. destruct (decide (x = Some true)) as [->|]; [|left; by apply bool_decide_false].
  right. apply Forall_singleton in Hl as [n Hn]. exists n, u, (unknown_record (processing_record fp owner)).
  split; [done|]. split; [|done]. eapply unmarshal_marshal_record; [|done]. by apply unknown_ascii, processing_ascii.
Qed.

Lemma settled_recorded i log q h ttl before o tr a :
  settled m q {| gr_key := hd_key h; gr_processing := hd_processing h; gr_record := processing_record fp owner; gr_ttl := ttl |}
    before o tr a →
  Forall (λ s, logged i s log) tr →
  (policy_releases m q o = true ∧ a_reply a = Passed o ∧ a_fenced a = None) ∨
  a_fenced a = Some false ∨
  (a_fenced a = Some true ∧ recorded i log h fp ttl (λ out, out = outcomeUnrecorded)) ∨
  (a_fenced a = None ∧ a_reply a = Passed o ∧ recorded i log h fp ttl (λ out, out = [] ∨ out = outcomeNotReplayable)).
Proof.
  intros Hs Hl. destruct Hs as [x Hp|tr f _ _ Hf|final c _ _ Hc Hm|tr tr' f _ _ Hc Hf].
  - by left.
  - right. destruct (recorded_fence i log h ttl tr f Hf Hl) as [->|Hr]; [by left|]. destruct f; [right; by left|by left].
  - do 3 right. split; [done|]. split; [done|]. apply Forall_singleton in Hl as [n Hn]. exists n, c, final.
    split; [done|]. pose proof (processing_ascii owner Howner fp Hfp) as Hr.
    split; [eapply unmarshal_marshal_record; [|done]; by eapply completion_ascii|].
    unfold completion in Hc. repeat split_match; simplify_eq/=; eauto.
  - apply Forall_app in Hl as [_ Hl]. right.
    destruct (recorded_fence i log h ttl tr' f Hf Hl) as [->|Hr]; [by left|]. destruct f; [right; by left|by left].
Qed.
End settled.

(** Whatever happened in between, when a request whose handler ran behind a key is answered, one of these
    holds: the error policy chose to release the key and the handler's own response is passed on; or the
    answer says that the key is not fenced; or it says that the key is fenced and a completed record with the
    request's fingerprint and an unrecorded outcome was written under the retention; or the handler's response
    is passed on and the completed record of it, or of its being too large to replay, was written. *)
Theorem finished_runs_are_recorded s now ls w i t q a h o :
  run m (start s now) ls = Some w →
  w_threads w !! i = Some t → t_job t = Serve q → t_prog t = Ret (inl a) → (Some h, o) ∈ logged_runs i (w_log w) →
  ∃ q' fp ttl, admitted m q (hd_key h) fp q' ttl ∧
    ((policy_releases m q' o = true ∧ a_reply a = Passed o ∧ a_fenced a = None) ∨
     a_fenced a = Some false ∨
     (a_fenced a = Some true ∧ recorded i (w_log w) h fp ttl (λ out, out = outcomeUnrecorded)) ∨
     (a_fenced a = None ∧ a_reply a = Passed o ∧
      recorded i (w_log w) h fp ttl (λ out, out = [] ∨ out = outcomeNotReplayable))).
Proof.
  intros Hr Ht Hj Hp Hin. apply reachable_inv in Hr as Hinv. pose proof (inv_threads _ _ Hinv i t Ht) as Hok.
  destruct (thread_runs _ _ _ _ _ Hok Hin) as (_ & _ & _ & _ & E & _). destruct Hok as [Hw Ha Hl _].
  rewrite Hp, Hj in Hw. destruct Hw as (a' & [= <-] & x & Hx & ->). rewrite retire_reply, retire_fenced.
  destruct Hx as [| |????|?????? |????|key fp q' ttl v o' tr a Had Hm Hs]; simpl in E; simplify_eq.
  exists q', fp, ttl. split; [done|]. rewrite Forall_app in Hl. destruct Hl as [_ Hl].
  eapply (settled_recorded (t_owner t) fp); eauto.
  eapply resolved_fingerprint_ascii. apply Had.
Qed.

End worlds.
