(* ===== verification/IdempotencyReplay.v ===== *)
(** Replayed responses: what a duplicate request gets from the record of the
    first one, that keys of different tenants never meet, and that fingerprints
    are computed from unambiguous inputs. *)

From stdpp Require Import base numbers list gmap strings sets.
From S2P Require Import Prelude GoText GoBytes Idempotency IdempotencyFlow IdempotencyProtocol.

Local Open Scope Z_scope.
Local Open Scope go_scope.

(** ** Header fields *)

(** The values of a field, in order. *)
Definition field_value (name : text) (f : text * text) : option text := if bool_decide (f.1 = name) then Some f.2 else None.

Definition hdr_values {H} `{HeaderOps H} (name : text) (h : H) : list text := omap (field_value name) (hdr_all h).

(** What the web framework documents of ordinary header fields: adding appends
    a value, deleting removes all values of the name, and neither touches the
    fields of other names. *)
Class HeaderLaws (H : Type) `{HeaderOps H} := {
  hdr_ordinary : text → Prop;
  values_add name v h : hdr_ordinary name → hdr_values name (hdr_add name v h) = hdr_values name h ++ [v];
  values_add_ne name name' v h : hdr_ordinary name → name ≠ name' → hdr_values name (hdr_add name' v h) = hdr_values name h;
  values_del name h : hdr_ordinary name → hdr_values name (hdr_del name h) = [];
  values_del_ne name name' h : hdr_ordinary name → name ≠ name' → hdr_values name (hdr_del name' h) = hdr_values name h;
  values_set_ne name name' v h : hdr_ordinary name → name ≠ name' → hdr_values name (hdr_set name' v h) = hdr_values name h;
  values_del_cookie name c h : hdr_ordinary name → name ≠ HeaderSetCookie → hdr_values name (hdr_del_cookie c h) = hdr_values name h;
}.

(** ** The inputs of fingerprints *)

Lemma app_sep_inj (sep : Z) (a b x y : bytes) : sep ∉ a → sep ∉ b → a ++ sep :: x = b ++ sep :: y → a = b ∧ x = y.
Proof.
  revert b. induction a as [|c a IH]; intros [|d b] Ha Hb E; simplify_eq/=; [done|set_solver|set_solver|].
  destruct (IH b) as [-> ->]; [set_solver..|done|done].
Qed.

Lemma requestFingerprintInput_inj m1 p1 b1 m2 p2 b2 :
  LF ∉ m1 → LF ∉ m2 → LF ∉ p1 → LF ∉ p2 →
  requestFingerprintInput m1 p1 b1 = requestFingerprintInput m2 p2 b2 → m1 = m2 ∧ p1 = p2 ∧ b1 = b2.
Proof.
  intros Hm1 Hm2 Hp1 Hp2 E. apply (app_sep_inj LF) in E as [-> E]; [|done..].
  by apply (app_sep_inj LF) in E as [-> ->].
Qed.

(** The hashed input of a scoped fingerprint determines what went into it: the scope, the method, the path
    and the body identity, for scopes of any content (their length precedes them) and methods and paths
    without a line break. *)
Theorem scoped_fingerprint_input_injective s1 m1 p1 b1 s2 m2 p2 b2 :
  Z.of_nat (length s1) < 2 ^ 64 → Z.of_nat (length s2) < 2 ^ 64 →
  LF ∉ m1 → LF ∉ m2 → LF ∉ p1 → LF ∉ p2 →
  fingerprintScopeInput s1 m1 p1 b1 = fingerprintScopeInput s2 m2 p2 b2 →
  s1 = s2 ∧ m1 = m2 ∧ p1 = p2 ∧ b1 = b2.
Proof.
  intros Hs1 Hs2 Hm1 Hm2 Hp1 Hp2 E. unfold fingerprintScopeInput in E. apply app_inv_head in E.
  apply app_inj_1 in E as [El E]; [|done]. apply be64_inj in El; [|lia..].
  apply app_inj_1 in E as [-> E]; [|lia]. split; [done|]. by apply requestFingerprintInput_inj.
Qed.

Section replay.
Context {H : Type} `{HeaderOps H, !HeaderLaws H, Platform H, !PlatformLaws H, Json, !JsonLaws}.
Context (m : Middleware H) `{!CodecLaws (responseCodec m)}.
Implicit Types (r : Response H) (h : H) (name : text).

(** A name that is captured field by field. *)
Definition captured_name name : Prop := isUncapturedHeader name = false ∧ name ≠ HeaderSetCookie.

(** Absent and without values are the same for a field. *)
Definition nonempty (l : list text) : option (list text) := match l with [] => None | _ => Some l end.

Lemma default_nonempty l : default [] (nonempty l) = l.
Proof. by destruct l. Qed.

Lemma append_nonempty (g : gmap text (list text)) name l v :
  g !! name = nonempty l → append_value name v g !! name = nonempty (l ++ [v]).
Proof. intros E. unfold append_value. rewrite lookup_insert_eq, E, default_nonempty. by destruct l. Qed.

Lemma snapshot_lookup name fields s l :
  captured_name name → s_headers s !! name = nonempty l →
  s_headers (foldl snapshot_field s fields) !! name = nonempty (l ++ omap (field_value name) fields).
Proof.
  intros [Hu Hc]. revert s l. induction fields as [|[n v] fields IH]; intros s l Hs; simpl; [by rewrite app_nil_r|].
  unfold field_value at 1. simpl. case_bool_decide as Hn.
  - subst n. simpl. rewrite Hu. rewrite (proj2 (eqt_false name HeaderSetCookie)) by done.
    rewrite (IH _ (l ++ [v])); [by rewrite <- app_assoc|]. simpl. by apply append_nonempty.
  - apply IH. destruct (isUncapturedHeader n); [done|]. destruct (n =t HeaderSetCookie).
    + destruct (capturedCookieName v) as [c []]; done.
    + simpl. unfold append_value. by rewrite lookup_insert_ne.
Qed.

Lemma live_lookup name before fields acc l :
  captured_name name → acc.1 !! name = nonempty l →
  (foldl (live_field before) acc fields).1 !! name = nonempty (l ++ omap (field_value name) fields).
Proof.
  intros [Hu Hc]. revert acc l. induction fields as [|[n v] fields IH]; intros acc l Hs; simpl; [by rewrite app_nil_r|].
  unfold field_value at 1. simpl. case_bool_decide as Hn.
  - subst n. simpl. rewrite Hu. rewrite (proj2 (eqt_false name HeaderSetCookie)) by done.
    rewrite (IH _ (l ++ [v])); [by rewrite <- app_assoc|]. simpl. by apply append_nonempty.
  - apply IH. destruct (isUncapturedHeader n); [done|]. destruct (n =t HeaderSetCookie).
    + destruct (capturedCookieName v) as [c ok]. by destruct (_ || _)%bool.
    + simpl. unfold append_value. by rewrite lookup_insert_ne.
Qed.

(** The recorded difference of a field: nothing when the handler left it as it
    was, otherwise its values (none, when the handler removed it). *)
Lemma delta_lookup name r r0 :
  captured_name name →
  captureHeaderDelta r (snapshotResponseHeaders r0) !! name =
    if bool_decide (hdr_values name (rs_headers r) = hdr_values name (rs_headers r0)) then None
    else Some (hdr_values name (rs_headers r)).
Proof.
  intros Hn. unfold captureHeaderDelta.
  pose proof (live_lookup name (snapshotResponseHeaders r0) (hdr_all (rs_headers r)) (∅, []) [] Hn (lookup_empty _)) as Hl.
  pose proof (snapshot_lookup name (hdr_all (rs_headers r0)) {| s_headers := ∅; s_cookies := ∅ |} [] Hn (lookup_empty _)) as Hs.
  destruct (foldl (live_field _) _ _) as [live cookies]. simpl in Hl, Hs.
  change (omap _ _) with (hdr_values name (rs_headers r)) in Hl.
  change (omap _ _) with (hdr_values name (rs_headers r0)) in Hs.
  set (L := hdr_values name (rs_headers r)) in *. set (B := hdr_values name (rs_headers r0)) in *.
  assert (Hd : merge delta_values live (s_headers (snapshotResponseHeaders r0)) !! name
    = if bool_decide (L = B) then None else Some L).
  { rewrite lookup_merge. unfold snapshotResponseHeaders. rewrite Hl, Hs.
    clear. clearbody L B. destruct L, B; simpl; repeat case_bool_decide; simplify_eq; done. }
  destruct cookies; [done|]. rewrite lookup_insert_ne; [done|]. intros E. by apply (proj2 Hn).
Qed.

(** *** Writing the recorded fields over a live response *)

Lemma values_add_all name values h :
  hdr_ordinary name → hdr_values name (foldl (λ h v, hdr_add name v h) h values) = hdr_values name h ++ values.
Proof.
  intros Ho. revert h. induction values as [|v values IH]; intros h; simpl; [by rewrite app_nil_r|].
  rewrite IH, values_add by done. by rewrite <- app_assoc.
Qed.

Lemma values_add_all_ne name name' values h :
  hdr_ordinary name → name ≠ name' → hdr_values name (foldl (λ h v, hdr_add name' v h) h values) = hdr_values name h.
Proof. intros Ho Hne. revert h. induction values as [|v values IH]; intros h; simpl; [done|]. by rewrite IH, values_add_ne. Qed.

Lemma values_clear_ne name name' values h :
  hdr_ordinary name → name ≠ name' → name ≠ HeaderSetCookie →
  hdr_values name (clearCapturedHeader name' values h) = hdr_values name h.
Proof.
  intros Ho Hne Hc. unfold clearCapturedHeader. destruct (negb _); [by rewrite values_del_ne|].
  revert h. induction values as [|v values IH]; intros h; simpl; [done|]. rewrite IH.
  destruct (capturedCookieName v) as [c []]; by rewrite ?values_del_cookie.
Qed.

Lemma replay_headers_values name (l : list (text * list text)) h :
  hdr_ordinary name → captured_name name → NoDup l.*1 →
  hdr_values name (foldl replay_header h l) = default (hdr_values name h) ((list_to_map l : gmap _ _) !! name).
Proof.
  intros Ho [Hu Hc]. revert h. induction l as [|[n vs] l IH]; intros h Hnd; simpl; [done|].
  apply NoDup_cons in Hnd as [Hni Hnd]. rewrite IH by done. unfold replay_header at 1. simpl.
  destruct (decide (n = name)) as [->|Hne].
  - rewrite lookup_insert_eq, (not_elem_of_list_to_map_1 l name) by done. simpl. rewrite values_add_all by done.
    unfold clearCapturedHeader. rewrite (proj2 (eqt_false name HeaderSetCookie)) by done. simpl. by rewrite values_del.
  - rewrite lookup_insert_ne by done. rewrite values_add_all_ne, values_clear_ne by done. done.
Qed.

Lemma map_order_values name g h :
  hdr_ordinary name → captured_name name →
  hdr_values name (foldl replay_header h (map_order g)) = default (hdr_values name h) (g !! name).
Proof.
  intros Ho Hn. pose proof (map_order_perm g) as Hp.
  assert (Hnd : NoDup (map_order g).*1) by (rewrite Hp; apply NoDup_fst_map_to_list).
  rewrite replay_headers_values by done. rewrite (list_to_map_proper _ (map_to_list g)) by done.
  by rewrite list_to_map_to_list.
Qed.

(** ** A stored response answers a duplicate *)

(** The receipt of a response: its plaintext and its stored form. *)
Lemma capture_inv r before encoded :
  captureResponse m r before = Ok encoded →
  ∃ plaintext, marshal_response (captured r before) = Some plaintext ∧
    @Encode (responseCodec m) plaintext = Some encoded ∧ encoded ≠ [] ∧
    Z.of_nat (length encoded) ≤ maxEncodedResponseBytes m ∧ Z.of_nat (length (rs_body r)) ≤ maxBodyCache m.
Proof.
  unfold captureResponse. intros E. case_bool_decide; [done|]. destruct (marshal_response _) as [p|] eqn:Hm; [|done].
  destruct (Encode p) as [[|x e]|] eqn:He; [done| |done]. case_bool_decide; simplify_eq.
  exists p. split_and!; try done; lia.
Qed.

Lemma replay_captured q r r0 encoded :
  captureResponse m r (snapshotResponseHeaders r0) = Ok encoded →
  Forall is_byte (rs_body r) → 100 ≤ rs_status r ≤ 599 →
  (∀ p, marshal_response (captured r (snapshotResponseHeaders r0)) = Some p →
    Z.of_nat (length p) ≤ maxEncodedResponseBytes m) →
  replay m q encoded =
    {| a_reply := Replayed {| rs_status := rs_status r; rs_content_type := rs_content_type r; rs_body := rs_body r;
         rs_stream := false;
         rs_headers := foldl replay_header (hdr_set IdempotencyReplayed (txt "true") (rs_headers (q_response q)))
           (map_order (captureHeaderDelta r (snapshotResponseHeaders r0))) |};
       a_replayed := true; a_retry_after := false; a_fenced := None; a_close := false |}.
Proof.
  intros Hc Hb Hs Hp. destruct (capture_inv _ _ _ Hc) as (p & Hm & He & Hne & Hle & Hbody).
  unfold replay. destruct encoded as [|x enc]; [done|]. simpl is_empty. rewrite orb_false_l.
  rewrite bool_decide_false by lia. rewrite (codec_decodes _ _ He). apply Hp in Hm as Hlen.
  apply marshal_response_bytes in Hm as Hpb. destruct p as [|y p]; [naive_solver|].
  rewrite bool_decide_false by lia.
  rewrite (unmarshal_marshal_response (captured r (snapshotResponseHeaders r0)) _ Hb Hm). simpl.
  rewrite !bool_decide_false by lia. done.
Qed.


(** ** Keys and fingerprints *)

Lemma no_colon_inside (s : bytes) : contains (txt ":") s = false → 58 ∉ s.
Proof.
  intros Hc Hin. apply list_elem_of_split in Hin as (a & b & ->).
  rewrite (proj2 (contains_spec _ _)) in Hc; [done|]. by exists a, b.
Qed.

(** A resolved tenant has no delimiter in it. *)
Lemma resolveTenant_plain q tenantID : resolveTenant m q = Some tenantID → 58 ∉ tenantID.
Proof.
  unfold resolveTenant. intros E. repeat split_match; simplify_eq;
    first [by apply no_colon_inside|apply not_elem_of_nil].
Qed.

(** Two requests use the same store key only if they have the same tenant and the same idempotency key: no
    choice of keys lets one tenant reach a record of another. *)
Theorem store_keys_separate_tenants q1 q2 t1 t2 k1 k2 :
  resolveTenant m q1 = Some t1 → resolveTenant m q2 = Some t2 →
  storeKey m t1 k1 = storeKey m t2 k2 → t1 = t2 ∧ k1 = k2.
Proof.
  intros Ht1%resolveTenant_plain Ht2%resolveTenant_plain E. unfold storeKey in E. apply app_inv_head in E.
  by apply (app_sep_inj 58).
Qed.

End replay.
