(* ===== verification/IdempotencyExample.v ===== *)
(** A concrete platform for the idempotency middleware, runs on the Redis store
    that exercise the guarantees, and a codec for which a stored response is
    never replayed. *)

From stdpp Require Import base numbers list gmap strings sets.
From S2P Require Import Prelude GoText Idempotency IdempotencyFlow IdempotencyStore IdempotencyProtocol IdempotencyRuns IdempotencyGuarantees IdempotencyReplay.

Local Open Scope Z_scope.
Local Open Scope go_scope.

(** ** Instances *)

(** Header fields in a list. *)
Abbreviation fields := (list (text * text)).

Definition is_cookie (c : text) (f : text * text) : bool :=
  ((f.1 =t HeaderSetCookie) && ((capturedCookieName f.2).1 =t c))%bool.

#[export] Instance fields_ops : HeaderOps fields := {|
  hdr_all := id;
  hdr_set := λ n v h, List.filter (λ f, negb (f.1 =t n)) h ++ [(n, v)];
  hdr_add := λ n v h, h ++ [(n, v)];
  hdr_del := λ n h, List.filter (λ f, negb (f.1 =t n)) h;
  hdr_del_cookie := λ c h, List.filter (λ f, negb (is_cookie c f)) h;
|}.

Lemma field_values_app name (h k : fields) : hdr_values name (h ++ k) = hdr_values name h ++ hdr_values name k.
Proof. apply omap_app. Qed.

Lemma field_values_one name n v : hdr_values (H:=fields) name [(n, v)] = if bool_decide (n = name) then [v] else [].
Proof. unfold hdr_values, field_value. simpl. by case_bool_decide. Qed.

Lemma field_values_cons name n v (h : fields) :
  hdr_values name ((n, v) :: h) = (if bool_decide (n = name) then [v] else []) ++ hdr_values name h.
Proof. by rewrite <- field_values_one, <- field_values_app. Qed.

Lemma field_values_filter name p (h : fields) :
  (∀ v, p (name, v) = true) → hdr_values name (List.filter p h) = hdr_values name h.
Proof.
  intros Hp. induction h as [|[n v] h IH]; cbn [List.filter]; [done|]. rewrite field_values_cons. case_bool_decide as Hn.
  - subst n. rewrite Hp, field_values_cons, bool_decide_true by done. by rewrite IH.
  - destruct (p (n, v)); [|done]. rewrite field_values_cons, bool_decide_false by done. by rewrite IH.
Qed.

Lemma field_values_none name (h : fields) : hdr_values name (List.filter (λ f, negb (f.1 =t name)) h) = [].
Proof.
  induction h as [|[n v] h IH]; cbn [List.filter fst]; [done|]. destruct (n =t name) eqn:E; cbn [negb]; [done|].
  apply eqt_false in E. by rewrite field_values_cons, bool_decide_false.
Qed.

#[export] Instance fields_laws : HeaderLaws fields.
Proof.
  refine (Build_HeaderLaws fields fields_ops (λ _, True) _ _ _ _ _ _).
  - intros name v h _. change (hdr_add name v h) with (h ++ [(name, v)]).
    rewrite field_values_app, field_values_one. by rewrite bool_decide_true.
  - intros name name' v h _ Hne. change (hdr_add name' v h) with (h ++ [(name', v)]). rewrite field_values_app, field_values_one. rewrite bool_decide_false by done. by rewrite app_nil_r.
  - intros. apply field_values_none.
  - intros. apply field_values_filter. intros v. simpl. by rewrite (proj2 (eqt_false _ _)).
  - intros name name' v h _ Hne.
    change (hdr_set name' v h) with (List.filter (λ f, negb (f.1 =t name')) h ++ [(name', v)]).
    rewrite field_values_app, field_values_one. rewrite bool_decide_false by done. rewrite app_nil_r.
    apply field_values_filter. intros v'. simpl. by rewrite (proj2 (eqt_false _ _)).
  - intros. apply field_values_filter. intros v. unfold is_cookie. simpl. by rewrite (proj2 (eqt_false _ _)).
Defined.

#[export] Instance fields_platform : Platform fields := {|
  sha256 := map (λ z, z `mod` 256);
  ctx_body := λ _ raw, raw;
  map_order := map_to_list;
|}.

#[export] Instance fields_platform_laws : PlatformLaws fields.
Proof.
  split; [|done]. intros b. simpl. induction b; simpl; constructor; [|done]. apply Z.mod_pos_bound. lia.
Qed.

(** Records written as a sequence of bits. *)
Fixpoint pos_bits (p : positive) : bytes :=
  match p with xH => [] | xO p => 48 :: pos_bits p | xI p => 49 :: pos_bits p end.

Fixpoint bits_pos (b : bytes) : positive :=
  match b with [] => xH | z :: b => if bool_decide (z = 48) then xO (bits_pos b) else xI (bits_pos b) end.

Lemma bits_pos_bits p : bits_pos (pos_bits p) = p.
Proof. induction p as [p IH|p IH|]; simpl; by rewrite ?IH. Qed.

Lemma pos_bits_bytes p : Forall is_byte (pos_bits p).
Proof. induction p; simpl; constructor; try done; unfold is_byte; lia. Qed.

Definition record_tuple (r : storeRecord) := (State r, Fingerprint r, Owner r, Response_ r, Outcome r).
Definition tuple_record (t : bytes * bytes * bytes * bytes * bytes) : storeRecord :=
  let '(s, f, o, r, u) := t in {| State := s; Fingerprint := f; Owner := o; Response_ := r; Outcome := u |}.
Definition response_tuple (r : cachedResponse) := (StatusCode r, ContentType r, Body r, Headers r).
Definition tuple_response (t : Z * text * bytes * gmap text (list text)) : cachedResponse :=
  let '(s, c, b, h) := t in {| StatusCode := s; ContentType := c; Body := b; Headers := h |}.

Definition from_bits {A} `{Countable A} (b : bytes) : option A :=
  match b with z :: b => if bool_decide (z = 123) then decode (bits_pos b) else None | [] => None end.

#[export] Instance bits_json : Json := {|
  marshal_record r := Some (123 :: pos_bits (encode (record_tuple r)));
  unmarshal_record b := tuple_record <$> from_bits b;
  marshal_response r := Some (123 :: pos_bits (encode (response_tuple r)));
  unmarshal_response b := tuple_response <$> from_bits b;
|}.

#[export] Instance bits_json_laws : JsonLaws.
Proof.
  split; simpl.
  - intros [] b _ [= <-]. unfold from_bits. simpl. by rewrite bits_pos_bits, decode_encode.
  - intros [] b _ [= <-]. unfold from_bits. simpl. by rewrite bits_pos_bits, decode_encode.
  - intros r b [= <-]. split; [done|]. constructor; [unfold is_byte; lia|apply pos_bits_bytes].
Qed.

(** ** A middleware on Redis and its requests *)

Definition ex_options : list (option (Middleware fields → Middleware fields)) :=
  [Some (WithProcessingTTL (30 * Second)); Some (WithProcessingHeartbeat (5 * Second)); None].

Definition ex_middleware : Middleware fields := NewWithStore {| st_nil := false; st_extends := true |} ex_options.

Definition ex_response (status : Z) (body : bytes) (h : fields) : Response fields :=
  {| rs_status := status; rs_content_type := txt "application/json"; rs_body := body; rs_stream := false; rs_headers := h |}.

Definition ex_request : Request fields :=
  {| q_method := txt "POST"; q_path := txt "/t"; q_key_header := txt "k1"; q_tenant := txt "acme";
     q_body := BodyStream false (Some (txt "hi")); q_content_length := 2; q_body_limit := 4194304;
     q_response := ex_response 200 [] [(txt "X-Id", txt "1")] |}.

Definition ex_outcome (status : Z) : outcome fields :=
  {| h_err := None; h_response := ex_response status (txt "ok") [(txt "X-Id", txt "1"); (txt "Location", txt "/t/9")] |}.

Definition ex_start : world fields Redis.db := start {| Redis.keys := ∅ |} 0.

(** The first request fails and gives its key back; a second one renews its lease
    after losing an answer, completes, and a third one is answered from its
    record. *)
Definition ex_labels : list (label fields) :=
  [Spawn (txt "o1") (Serve ex_request); Go 0 true; HandlerDone 0 (ex_outcome 500); Go 0 true;
   Tick Second; Spawn (txt "o2") (Serve ex_request); Go 1 true; Beat 1 false; Tick Second; Beat 1 true; Arrive 0;
   HandlerDone 1 (ex_outcome 201); Go 1 true; Spawn (txt "o3") (Serve ex_request); Go 2 true].

Definition ex_end : world fields Redis.db := default ex_start (run ex_middleware ex_start ex_labels).

Lemma ex_run : run ex_middleware ex_start ex_labels = Some ex_end.
Proof.
  unfold ex_end. destruct (run ex_middleware ex_start ex_labels) as [w|] eqn:E; [done|]. exfalso.
  assert (Hs : bool_decide (is_Some (run ex_middleware ex_start ex_labels)) = true) by (vm_compute; reflexivity).
  rewrite E in Hs. discriminate Hs.
Qed.

(** ** The guarantees at this run *)

Definition ex_key : bytes := storeKey ex_middleware (txt "acme") (txt "k1").

(** The key of a thread's guarded run, if it had one. *)
Definition run_key (w : world fields Redis.db) (i : nat) : option bytes :=
  match logged_runs i (w_log w) with (Some g, _) :: _ => Some (hd_key g) | _ => None end.

Lemma run_key_ran w i key :
  run_key w i = Some key → ∃ g o, (Some g, o) ∈ logged_runs i (w_log w) ∧ hd_key g = key.
Proof.
  unfold run_key. destruct (logged_runs i (w_log w)) as [|[[g|] o] l]; intros E; simplify_eq.
  exists g, o. split; [apply list_elem_of_here|done].
Qed.

(** The answer a finished thread gave. *)
Definition answer_of (t : thread fields) : option (Answer fields) :=
  match t_prog t with Ret (inl a) => Some a | _ => None end.

Definition answered (w : world fields Redis.db) (i : nat) : option (job fields * bool) :=
  (λ t, (t_job t, bool_decide (is_Some (answer_of t)))) <$> w_threads w !! i.

Lemma answered_thread w i q :
  answered w i = Some (Serve q, true) → ∃ t a, w_threads w !! i = Some t ∧ t_job t = Serve q ∧ t_prog t = Ret (inl a).
Proof.
  intros (t & Ht & E)%fmap_Some. injection E as Hj Ha. symmetry in Ha. apply bool_decide_eq_true in Ha as [a Ha].
  exists t, a. split; [done|]. split; [done|]. unfold answer_of in Ha. repeat case_match; by simplify_eq.
Qed.


Lemma protected_runs_are_guarded_witness :
  ∃ t g o, w_threads ex_end !! 1%nat = Some t ∧ (g, o) ∈ logged_runs 1 (w_log ex_end) ∧
    ∃ h fp q' ttl n, g = Some h ∧ admitted ex_middleware ex_request (hd_key h) fp q' ttl ∧
      EOp 1 n (OpAcquire (hd_key h) (hd_processing h) (hd_lease h)) ∈ w_log ex_end.
Proof.
  destruct (answered_thread ex_end 1 ex_request) as (t & a & Ht & Hj & _); [vm_compute; reflexivity|].
  destruct (run_key_ran ex_end 1 ex_key) as (g & o & Hr & _); [vm_compute; reflexivity|].
  exists t, (Some g), o. split; [exact Ht|]. split; [exact Hr|].
  apply (proj1 (protected_runs_are_guarded ex_middleware {| Redis.keys := ∅ |} 0 ex_labels ex_end 1 t ex_request
    ex_run eq_refl Ht Hj eq_refl) (Some g) o Hr).
Defined.

Lemma finished_runs_are_recorded_witness :
  ∃ t a h o, w_threads ex_end !! 1%nat = Some t ∧ t_prog t = Ret (inl a) ∧ (Some h, o) ∈ logged_runs 1 (w_log ex_end) ∧
    ∃ q' fp ttl, admitted ex_middleware ex_request (hd_key h) fp q' ttl ∧
    ((policy_releases ex_middleware q' o = true ∧ a_reply a = Passed o ∧ a_fenced a = None) ∨
     a_fenced a = Some false ∨
     (a_fenced a = Some true ∧ recorded 1 (w_log ex_end) h fp ttl (λ out, out = outcomeUnrecorded)) ∨
     (a_fenced a = None ∧ a_reply a = Passed o ∧
      recorded 1 (w_log ex_end) h fp ttl (λ out, out = [] ∨ out = outcomeNotReplayable))).
Proof.
  destruct (answered_thread ex_end 1 ex_request) as (t & a & Ht & Hj & Hp); [vm_compute; reflexivity|].
  destruct (run_key_ran ex_end 1 ex_key) as (h & o & Hr & _); [vm_compute; reflexivity|].
  exists t, a, h, o. split; [exact Ht|]. split; [exact Hp|]. split; [exact Hr|].
  exact (finished_runs_are_recorded ex_middleware {| Redis.keys := ∅ |} 0 ex_labels ex_end 1 t ex_request a h o
    ex_run Ht Hj Hp Hr).
Defined.

(** The first response above, recorded and replayed. *)
Definition ex_before : Response fields := q_response ex_request.
Definition ex_created : Response fields := h_response (ex_outcome 201).
Definition ex_encoded : bytes := from_ok [] (captureResponse ex_middleware ex_created (snapshotResponseHeaders ex_before)).
Definition ex_stored : bytes :=
  default [] (marshal_record (completed_record (processing_record (txt "f") (txt "o2")) ex_encoded)).


Lemma store_keys_separate_tenants_witness :
  resolveTenant ex_middleware ex_request = Some (txt "acme") ∧ txt "acme" = txt "acme" ∧ txt "k1" = txt "k1".
Proof.
  split; [vm_compute; reflexivity|].
  apply (store_keys_separate_tenants ex_middleware ex_request ex_request (txt "acme") (txt "acme") (txt "k1") (txt "k1"));
    vm_compute; reflexivity.
Defined.

Lemma scoped_fingerprint_input_injective_witness :
  txt "s" = txt "s" ∧ txt "POST" = txt "POST" ∧ txt "/t" = txt "/t" ∧ txt "b" = txt "b".
Proof.
  apply (scoped_fingerprint_input_injective (txt "s") (txt "POST") (txt "/t") (txt "b") (txt "s") (txt "POST") (txt "/t") (txt "b"));
    try reflexivity; apply (bool_decide_eq_true_1 (LF ∉ _)); vm_compute; reflexivity.
Defined.

Lemma constructed_middleware_ready_witness :
  Forall is_option ex_options ∧ ready ex_middleware ∧ extender ex_middleware = true.
Proof.
  assert (Ho : Forall is_option ex_options) by (repeat constructor).
  split; [exact Ho|]. split; [|vm_compute; reflexivity].
  exact (proj1 (proj2 (constructed_middleware_ready ex_options {| st_nil := false; st_extends := true |} Ho))).
Defined.

(** ** A response that is stored and never replayed *)

(** A codec that keeps one long text in a dictionary. *)
Definition dictionary_codec (long : bytes) : ResponseCodec := {|
  Encode := λ p, if bool_decide (p = long) then Some [7] else Some (0 :: p);
  Decode := λ e, match e with 7 :: _ => Some long | _ :: p => Some p | [] => None end;
|}.

#[export] Instance dictionary_codec_laws long : CodecLaws (dictionary_codec long).
Proof.
  split; simpl; intros p e.
  - case_bool_decide; intros; simplify_eq; done.
  - intros Hp. case_bool_decide; intros; simplify_eq; repeat constructor; try done; unfold is_byte; lia.
Qed.

Definition ex_plaintext : bytes := default [] (marshal_response (captured ex_created (snapshotResponseHeaders ex_before))).
Definition ex_compressing : Middleware fields :=
  NewWithStore {| st_nil := false; st_extends := true |}
    [Some (WithMaxBodyCache 100); Some (WithResponseCodec (Some (dictionary_codec ex_plaintext)))].

(** The size limit is checked on the encoded form when a response is recorded, but also on the decoded form
    when it is replayed: with a codec that compresses, a response within the body limit is recorded as
    completed, and every duplicate of it is refused with 503 instead of being replayed or told that the
    response was too large. *)
Theorem compressed_response_never_replayed :
  CodecLaws (responseCodec ex_compressing) ∧
  Z.of_nat (length (rs_body ex_created)) ≤ maxBodyCache ex_compressing ∧
  ∃ encoded stored,
    captureResponse ex_compressing ex_created (snapshotResponseHeaders ex_before) = Ok encoded ∧
    marshal_record (completed_record (processing_record (txt "f") (txt "o2")) encoded) = Some stored ∧
    answer_stored ex_compressing ex_request (txt "f") stored = plain (Refused 503 (txt "IDEMPOTENCY_UNAVAILABLE")).
Proof.
  split; [apply dictionary_codec_laws|]. split; [vm_compute; discriminate|].
  exists [7], (default [] (marshal_record (completed_record (processing_record (txt "f") (txt "o2")) [7]))).
  split; [vm_compute; reflexivity|]. split; [vm_compute; reflexivity|]. vm_compute. reflexivity.
Qed.
