(* ===== verification/RedisLock.v ===== *)
(** The distributed lock: [redis/lock.go].

    The lock algorithm itself is that of the redsync package; its mutexes are
    commands of a program of [Effects], and the two questions the code asks about
    its errors are the class [Redsync].  A mutex is named by the random value it
    writes.  The user's function is a program as well.  Logs and spans are left
    out. *)

From stdpp Require Import base numbers list strings.
From S2P Require Import Prelude GoText GoFloat Effects.

Local Open Scope Z_scope.

(** ** Options *)

Record LockOptions := { Expiry : duration; Tries : Z; RetryDelay : duration; DriftFactor : float64 }.

Definition maxLockTries : Z := 1000.
Definition unlockTimeout : duration := 5 * Second.

(** The closest binary fraction to 0.01. *)
Definition one_hundredth : float64 := fdiv (of_int 1) (of_int 100).

Definition DefaultLockOptions : LockOptions :=
  {| Expiry := 10 * Second; Tries := 3; RetryDelay := 500 * Millisecond; DriftFactor := one_hundredth |}.
Definition RateLimiterLockOptions : LockOptions :=
  {| Expiry := 2 * Second; Tries := 2; RetryDelay := 100 * Millisecond; DriftFactor := one_hundredth |}.

Definition with_Tries (o : LockOptions) (n : Z) : LockOptions :=
  {| Expiry := Expiry o; Tries := n; RetryDelay := RetryDelay o; DriftFactor := DriftFactor o |}.

Inductive option_fault :=
| ErrLockExpiryInvalid | ErrLockTriesInvalid | ErrLockTriesExceeded | ErrLockRetryDelayNegative | ErrLockDriftFactorInvalid.

Definition validateLockOptions (opts : LockOptions) : option option_fault :=
  if bool_decide (Expiry opts < Millisecond) then Some ErrLockExpiryInvalid
  else if bool_decide (Tries opts < 1) then Some ErrLockTriesInvalid
  else if bool_decide (maxLockTries < Tries opts) then Some ErrLockTriesExceeded
  else if bool_decide (RetryDelay opts < 0) then Some ErrLockRetryDelayNegative
  else if (flt (DriftFactor opts) (of_int 0) || fle (of_int 1) (DriftFactor opts))%bool then Some ErrLockDriftFactorInvalid
  else None.

(** ** Commands *)

(** [errors.Is(err, redsync.ErrFailed)] and [errors.As(err, *redsync.ErrTaken)] *)
Class Redsync := { rs_error : Type; is_ErrFailed : rs_error → bool; is_ErrTaken : rs_error → bool }.

(** [redsync.NewMutex(name, WithExpiry, WithDriftFactor)]: the value is drawn at
    random when the mutex is locked. *)
Record Mutex := { value : Z; Name : text; m_expiry : duration; m_drift : float64 }.

Section lock.
Context `{Redsync}.

Inductive ctx_error := Canceled | DeadlineExceeded.

(** One attempt: taken until a time, or the error. *)
Inductive attempt := Locked (until : Z) | Refused (e : rs_error).

(** How a function ends: with an error or nil, or by a panic. *)
Inductive ending (E : Type) := Returned (err : option E) | Panicked.
Arguments Returned {E} err.
Arguments Panicked {E}.

Inductive cmd :=
| CtxErr                                  (* ctx.Err() *)
| Wait (d : duration)                     (* the timer against ctx.Done() *)
| TryLockContext (m : Mutex)
| UnlockContext (m : Mutex) (detached : bool)
| ExtendContext (m : Mutex)
| GetClient
| Work (action : Z).                      (* a step of the user's function *)

Definition answer (c : cmd) : Type :=
  match c with
  | CtxErr => option ctx_error
  | Wait _ => bool                        (* whether the timer fired *)
  | TryLockContext _ => attempt
  | UnlockContext _ _ | ExtendContext _ => bool * option rs_error
  | GetClient => option text
  | Work _ => Z
  end.

Definition prog := eff answer.
Definition ask (c : cmd) : prog (answer c) := perform c.

(** ** Errors *)

Inductive lock_error :=
| ErrNilLockHandle | ErrLockNotHeld | ErrNilLockManager | ErrLockNotInitialized | ErrNilLockFn | ErrEmptyLockKey
| ErrNilLockHandleOnUnlock | ErrNilClient
| InvalidOptions (f : option_fault)
| Contended (e : option rs_error)         (* ErrLockContended joined with the cause *)
| Failed (e : option rs_error)
| Abandoned (e : ctx_error)
| NoClient (e : text)
| InFunction (e : text).

Definition is_contended (e : lock_error) : bool := match e with Contended _ => true | _ => false end.

(** ** Acquisition *)

Inductive lockOutcome := lockTaken | lockContended | lockCallerDone | lockFaulted.

Definition isLockContention (err : option rs_error) : bool :=
  match err with Some e => (is_ErrFailed e || is_ErrTaken e)%bool | None => false end.

Definition classifyLockFailure (err : option rs_error) (callerDoneAtStart : bool) : lockOutcome :=
  if isLockContention err then lockContended else if callerDoneAtStart then lockCallerDone else lockFaulted.

(** The loop, when [more] tries are left after this one. *)
Fixpoint acquire_loop (more : nat) (mutex : Mutex) (opts : LockOptions) (callerDoneAtStart : bool) : prog (lockOutcome * option rs_error) :=
  a ← ask (TryLockContext mutex);
  match a with
  | Locked _ => mret (lockTaken, None)
  | Refused e =>
    match more with
    | O => mret (classifyLockFailure (Some e) callerDoneAtStart, Some e)
    | S more =>
      fired ← ask (Wait (RetryDelay opts));
      if negb fired then mret (classifyLockFailure (Some e) callerDoneAtStart, Some e)
      else acquire_loop more mutex opts callerDoneAtStart
    end
  end.

Definition acquireLock (mutex : Mutex) (opts : LockOptions) : prog (lockOutcome * option rs_error) :=
  done ← ask CtxErr;
  acquire_loop (Z.to_nat (Tries opts - 1)) mutex opts (bool_decide (is_Some done)).

(** ** The manager *)

Record RedisLockManager := { redsync : bool }.   (* whether it is set *)

Definition NewRedisLockManager (conn : bool) : prog (result lock_error RedisLockManager) :=
  if negb conn then mret (Err ErrNilClient)
  else
    e ← ask GetClient;
    mret (match e with Some e => Err (NoClient e) | None => Ok {| redsync := true |} end).

Definition NewMutex (value : Z) (name : text) (opts : LockOptions) : Mutex :=
  {| value := value; Name := name; m_expiry := Expiry opts; m_drift := DriftFactor opts |}.

Definition is_blank (s : text) : bool := is_empty (TrimSpace s).

(** [WithLockOptions] under a mutex with the value [v]; [None] is nil. *)
Definition WithLockOptions (dl : option RedisLockManager) (v : Z) (lockKey : text) (opts : LockOptions) (fn : option (prog (ending text))) :
    prog (ending lock_error) :=
  match dl with
  | None => mret (Returned (Some ErrNilLockManager))
  | Some dl =>
    if negb (redsync dl) then mret (Returned (Some ErrLockNotInitialized))
    else match fn with
    | None => mret (Returned (Some ErrNilLockFn))
    | Some fn =>
      if is_blank lockKey then mret (Returned (Some ErrEmptyLockKey))
      else match validateLockOptions opts with
      | Some f => mret (Returned (Some (InvalidOptions f)))
      | None =>
        let mutex := NewMutex v lockKey opts in
        '(outcome, err) ← acquireLock mutex opts;
        match outcome with
        | lockTaken =>
          r ← fn;
          _ ← ask (UnlockContext mutex true);
          mret (match r with
                | Panicked => Panicked
                | Returned (Some e) => Returned (Some (InFunction e))
                | Returned None => Returned None
                end)
        | lockContended => mret (Returned (Some (Contended err)))
        | lockCallerDone | lockFaulted => mret (Returned (Some (Failed err)))
        end
      end
    end
  end.

Definition WithLock (dl : option RedisLockManager) (v : Z) (lockKey : text) (fn : option (prog (ending text))) : prog (ending lock_error) :=
  match dl with
  | None => mret (Returned (Some ErrNilLockManager))
  | Some _ => WithLockOptions dl v lockKey DefaultLockOptions fn
  end.

(** [lockHandle]; its lease mutex makes [Unlock] and [Extend] of one handle take
    turns. *)
Definition lockHandle : Type := Mutex.

(** The handle, or that the lock is busy. *)
Definition tryLock (dl : RedisLockManager) (v : Z) (lockKey : text) (opts : LockOptions) : prog (result lock_error (option lockHandle)) :=
  if negb (redsync dl) then mret (Err ErrLockNotInitialized)
  else if is_blank lockKey then mret (Err ErrEmptyLockKey)
  else match validateLockOptions opts with
  | Some f => mret (Err (InvalidOptions f))
  | None =>
    let mutex := NewMutex v lockKey opts in
    '(outcome, err) ← acquireLock mutex opts;
    mret (match outcome with
          | lockTaken => Ok (Some mutex)
          | lockContended => Ok None
          | lockCallerDone | lockFaulted => Err (Failed err)
          end)
  end.

Definition TryLockWithOptions (dl : option RedisLockManager) (v : Z) (lockKey : text) (opts : LockOptions) :
    prog (result lock_error (option lockHandle)) :=
  match dl with None => mret (Err ErrNilLockManager) | Some dl => tryLock dl v lockKey opts end.

Definition TryLock (dl : option RedisLockManager) (v : Z) (lockKey : text) : prog (result lock_error (option lockHandle)) :=
  match dl with None => mret (Err ErrNilLockManager) | Some dl => tryLock dl v lockKey (with_Tries DefaultLockOptions 1) end.

(** ** Handles *)

Definition handle_Unlock (h : option lockHandle) : prog (option lock_error) :=
  match h with
  | None => mret (Some ErrNilLockHandle)
  | Some mutex =>
    x ← ask (UnlockContext mutex false);
    let '(ok, err) := (x : bool * option rs_error) in
    mret (match err with Some _ => Some (Failed err) | None => if negb ok then Some ErrLockNotHeld else None end)
  end.

Definition isLeaseLost (err : option rs_error) : bool := match err with Some e => is_ErrTaken e | None => false end.

Definition handle_Extend (h : option lockHandle) : prog (result lock_error bool) :=
  match h with
  | None => mret (Err ErrNilLockHandle)
  | Some mutex =>
    done ← ask CtxErr;
    match done with
    | Some e => mret (Err (Abandoned e))
    | None =>
      x ← ask (ExtendContext mutex);
      let '(renewed, err) := (x : bool * option rs_error) in
      mret (if renewed then Ok true
            else if isLeaseLost err then Ok false
            else Err (Failed err))
    end
  end.

Definition manager_Unlock (dl : option RedisLockManager) (handle : option (option lockHandle)) : prog (option lock_error) :=
  match dl, handle with
  | None, _ => mret (Some ErrNilLockManager)
  | _, None => mret (Some ErrNilLockHandleOnUnlock)
  | Some _, Some h => handle_Unlock h
  end.
End lock.
Arguments Returned {E} err.
Arguments Panicked {E}.
