(* ===== verification/RedisLockGuarantees.v ===== *)
(** What the distributed lock does.

    [WithLockOptions_runs] describes every run of a call.  [sections_do_not_overlap]
    puts calls of any number of processes on one Redis, under the documented laws
    of redsync. *)

From stdpp Require Import base numbers list strings.
From S2P Require Import Prelude GoText GoFloat Effects RedisLock.

Local Open Scope Z_scope.

Section runs.
Context `{Redsync}.
Implicit Types (m : Mutex) (o : LockOptions) (tr : list (event answer)).

(** Attempts that were refused, with the waits between them. *)
Fixpoint refusals m o (es : list rs_error) : list (event answer) :=
  match es with
  | [] => []
  | e :: es => Ev (TryLockContext m) (Refused e) :: Ev (Wait (RetryDelay o)) true :: refusals m o es
  end.

(** How the acquisition ends after [es] refusals that were waited out: with the
    lock; with a last refusal [e] after the last try; or with a refusal and a
    context that ends during the wait. *)
Inductive acquired m o (started_done : bool) (tries : nat) : list (event answer) → lockOutcome * option rs_error → Prop :=
| Acq_taken es u : (length es < tries)%nat →
    acquired m o started_done tries (refusals m o es ++ [Ev (TryLockContext m) (Locked u)]) (lockTaken, None)
| Acq_spent es e : S (length es) = tries →
    acquired m o started_done tries (refusals m o es ++ [Ev (TryLockContext m) (Refused e)])
      (classifyLockFailure (Some e) started_done, Some e)
| Acq_left es e : (S (length es) < tries)%nat →
    acquired m o started_done tries
      (refusals m o es ++ [Ev (TryLockContext m) (Refused e); Ev (Wait (RetryDelay o)) false])
      (classifyLockFailure (Some e) started_done, Some e).

Lemma acquired_cons m o d n e tr r : acquired m o d n tr r →
  acquired m o d (S n) (Ev (TryLockContext m) (Refused e) :: Ev (Wait (RetryDelay o)) true :: tr) r.
Proof.
  intros [es u Hn|es e' Hn|es e' Hn].
  - by apply (Acq_taken m o d (S n) (e :: es)); simpl; lia.
  - by apply (Acq_spent m o d (S n) (e :: es)); simpl; lia.
  - by apply (Acq_left m o d (S n) (e :: es)); simpl; lia.
Qed.

Lemma acquire_loop_runs n m o d tr r : runs (acquire_loop n m o d) tr r → acquired m o d (S n) tr r.
Proof.
  revert tr. induction n as [|n IH]; intros tr; simpl.
  - intros ([u|e] & tr' & -> & -> & ->); [apply (Acq_taken m o d 1 []); simpl; lia|by apply (Acq_spent m o d 1 [])].
  - intros ([u|e] & tr' & -> & Hr); [destruct Hr as [-> ->]; apply (Acq_taken m o d (S (S n)) []); simpl; lia|].
    destruct Hr as ([] & tr'' & -> & Hr); [by apply acquired_cons, IH|]. destruct Hr as [-> ->].
    apply (Acq_left m o d (S (S n)) []). simpl. lia.
Qed.

(** What the caller is told, from what the function did or from the refusal. *)
Definition fn_answer (r : ending text) : ending lock_error :=
  match r with Panicked => Panicked | Returned e => Returned (InFunction <$> e) end.
Definition refusal_answer (outcome : lockOutcome) (e : rs_error) : ending lock_error :=
  Returned (Some (match outcome with lockContended => Contended (Some e) | _ => Failed (Some e) end)).

(** A complete call: the context is read, the lock is tried for; when it is taken,
    the function runs once and the mutex is released once, last and with a context
    of its own; otherwise nothing else happens. *)
Inductive section_run m o (fn : prog (ending text)) : list (event answer) → ending lock_error → Prop :=
| Section_ran c t tf r x :
    acquired m o (bool_decide (is_Some c)) (Z.to_nat (Tries o)) t (lockTaken, None) → runs fn tf r →
    section_run m o fn (Ev CtxErr c :: t ++ tf ++ [Ev (UnlockContext m true) x]) (fn_answer r)
| Section_refused c t outcome e :
    acquired m o (bool_decide (is_Some c)) (Z.to_nat (Tries o)) t (outcome, Some e) → outcome ≠ lockTaken →
    section_run m o fn (Ev CtxErr c :: t) (refusal_answer outcome e).

Lemma acquired_outcome m o d n t outcome e : acquired m o d n t (outcome, e) →
  (outcome = lockTaken ∧ e = None) ∨ ∃ e', e = Some e' ∧ outcome = classifyLockFailure (Some e') d ∧ outcome ≠ lockTaken.
Proof.
  assert (Hc : ∀ e, classifyLockFailure (Some e) d ≠ lockTaken) by (intros e1; unfold classifyLockFailure; by destruct (isLockContention _), d).
  inversion 1; subst; [by left|right; eauto..].
Qed.

(** Every branch of [WithLockOptions].  A call that is refused by its guards does
    nothing.  Any other call makes at least one and at most [Tries] attempts, with a
    wait after each that fails; the function runs exactly when an attempt took the
    lock, once, and then the lock is released exactly once, after a panic too, with
    a context that the caller's deadline does not end; when no attempt took it the
    caller is told that the lock is contended exactly when the last refusal says
    so. *)
Theorem WithLockOptions_runs v key o fn tr r :
  validateLockOptions o = None → is_blank key = false →
  runs (WithLockOptions (Some {| redsync := true |}) v key o (Some fn)) tr r → section_run (NewMutex v key o) o fn tr r.
Proof.
  intros Ho Hk. unfold WithLockOptions. cbn [negb redsync]. rewrite Hk, Ho. intros Hr.
  apply runs_bind in Hr as (tr1 & [outcome e] & tr2 & -> & Ha & Hr).
  destruct Ha as (c & t & -> & Ha%acquire_loop_runs).
  replace (S (Z.to_nat (Tries o - 1))) with (Z.to_nat (Tries o)) in Ha.
  2:{ revert Ho. unfold validateLockOptions. repeat case_bool_decide; done || lia. }
  destruct (acquired_outcome _ _ _ _ _ _ _ Ha) as [[-> ->]|(e' & -> & Hout & Hne)].
  - apply runs_bind in Hr as (tf & r' & tr3 & -> & Hf & Hr). destruct Hr as (x & tr' & -> & -> & ->).
    rewrite <- app_comm_cons. replace (match r' with _ => _ end) with (fn_answer r') by (by destruct r' as [[]|]).
    by eapply Section_ran.
  - destruct outcome; try done; destruct Hr as [-> ->]; rewrite app_nil_r;
      [apply (Section_refused _ _ _ _ _ lockContended)|apply (Section_refused _ _ _ _ _ lockCallerDone)|apply (Section_refused _ _ _ _ _ lockFaulted)]; done.
Qed.
End runs.

(** ** Mutual exclusion *)

(** The mutex a command works on. *)
Definition cmd_mutex `{Redsync} (c : cmd) : option Mutex :=
  match c with TryLockContext m | UnlockContext m _ | ExtendContext m => Some m | _ => None end.

(** Redis as the lock sees it: a key has a holder, the value of a mutex, and a time
    at which it is dropped.  An attempt succeeds only on a key that nobody else
    holds any more, and then the key outlives the validity it reports; a key that
    has not run out changes only by its own mutex. *)
Class Leases `{Redsync} (St L : Type) := {
  exec : L → ∀ c : cmd, St → answer c * St;
  now : St → Z;
  holder : St → text → option (Z * Z);
  exec_now l c s : now s ≤ now (exec l c s).2;
  exec_taken l m s u : (exec l (TryLockContext m) s).1 = Locked u →
    ∃ d, holder (exec l (TryLockContext m) s).2 (Name m) = Some (value m, d) ∧ u ≤ d;
  exec_keeps l c s k v d : holder s k = Some (v, d) → now (exec l c s).2 < d →
    (∀ m, cmd_mutex c = Some m → Name m = k → value m ≠ v) → holder (exec l c s).2 k = Some (v, d) }.

Section exclusion.
Context `{Leases St L}.
Implicit Types (tr : list (event answer)).

(** The validity of the lock a thread holds: the last attempt succeeded and it was
    not released. *)
Fixpoint granted_from (u : option Z) tr : option Z :=
  match tr with
  | [] => u
  | e :: tr =>
    granted_from (match e with
                  | Ev (TryLockContext _) (Locked u) => Some u
                  | Ev (TryLockContext _) (Refused _) => None
                  | Ev (UnlockContext _ _) _ | Ev (ExtendContext _) _ => None
                  | _ => u
                  end) tr
  end.
Definition granted tr : option Z := granted_from None tr.

Lemma granted_snoc tr e : granted (tr ++ [e]) = granted_from (granted tr) [e].
Proof. unfold granted. generalize (@None Z) as u. induction tr as [|e' tr IH]; intros u; [done|]. simpl. apply IH. Qed.

(** Programs that use one mutex only. *)
Definition own (m : Mutex) (c : cmd) : Prop := ∀ m', cmd_mutex c = Some m' → m' = m.

Definition lease_ok (s : St) (m : Mutex) (t : thread answer (ending lock_error)) : Prop :=
  issues (own m) (th_rest t) ∧
  ∀ u, granted (th_trace t) = Some u → now s < u → ∃ d, holder s (Name m) = Some (value m, d) ∧ u ≤ d.

Lemma lease_step l c k s m t : th_rest t = Do c k → lease_ok s m t →
  lease_ok (exec l c s).2 m {| th_trace := th_trace t ++ [Ev c (exec l c s).1]; th_rest := k (exec l c s).1 |}.
Proof.
  intros Hr [Hi Hl]. rewrite Hr in Hi. destruct Hi as [Ho Hk]. split; [by apply Hk|]. cbn [th_trace]. intros u Hg Hu.
  rewrite granted_snoc in Hg.
  assert (Hkeep : cmd_mutex c = None → granted (th_trace t) = Some u → ∃ d, holder (exec l c s).2 (Name m) = Some (value m, d) ∧ u ≤ d).
  { intros Hc Hg'. destruct (Hl u Hg') as (d & Hd & Hle); [pose proof (exec_now l c s); lia|].
    exists d. split; [|done]. apply exec_keeps; [done|lia|]. intros m' Hm'. congruence. }
  destruct c as [|dl|m'|m' b|m'| |a]; simpl in *; try by apply Hkeep.
  assert (m' = m) as -> by (by apply Ho). case_match; simplify_eq. by apply exec_taken.
Qed.

Lemma lease_others l c s m m' t : own m' c → value m ≠ value m' → lease_ok s m t → lease_ok (exec l c s).2 m t.
Proof.
  intros Ho Hv [Hi Hl]. split; [done|]. intros u Hg Hu.
  destruct (Hl u Hg) as (d & Hd & Hle); [pose proof (exec_now l c s); lia|]. exists d. split; [|done].
  apply exec_keeps; [done|lia|]. intros m'' Hm'' _. apply Ho in Hm'' as ->. congruence.
Qed.

(** Whatever the interleaving, a thread whose lock is valid is the holder of the
    key. *)
Lemma valid_lock_holds s (ms : list Mutex) (ps : list (prog (ending lock_error))) ls i m t u : NoDup (value <$> ms) →
  Forall2 (λ m p, issues (own m) p) ms ps →
  let w := interleave exec (start s ps) ls in
  ms !! i = Some m → w_threads w !! i = Some t → granted (th_trace t) = Some u → now (w_state w) < u →
  ∃ d, holder (w_state w) (Name m) = Some (value m, d).
Proof.
  intros Hnd Hps w Hm Ht Hg Hu.
  assert (Hw : Forall2 (lease_ok (w_state w)) ms (w_threads w)).
  { apply (interleave_ind exec (λ w, Forall2 (lease_ok (w_state w)) ms (w_threads w))).
    { simpl. apply Forall2_fmap_r. eapply Forall2_impl; [exact Hps|]. intros m' p Hp. by split. }
    clear -Hnd. intros w [i l] _ Hw. destruct (step_cases exec w i l) as [->|(t & c & k & Ht & Hr & ->)]; [done|].
    simpl. destruct (Forall2_lookup_r _ _ _ _ _ Hw Ht) as (m & Hm & Hok).
    apply Forall2_same_length_lookup. rewrite length_insert. split; [by eapply Forall2_length|].
    intros j m' t' Hm' Ht'. apply list_lookup_insert_Some in Ht' as [(<- & <- & _)|(Hne & Ht')].
    - rewrite Hm in Hm'. simplify_eq. by apply lease_step.
    - apply (lease_others _ _ _ _ m); [| |by eapply Forall2_lookup_lr].
      + destruct Hok as [Hi _]. rewrite Hr in Hi. apply Hi.
      + intros Hv. apply Hne. eapply NoDup_lookup; [exact Hnd|by rewrite list_lookup_fmap, Hm|]. by rewrite list_lookup_fmap, Hm', <- Hv. }
  destruct (Forall2_lookup_lr _ _ _ _ _ _ Hw Hm Ht) as [_ Hl]. destruct (Hl u Hg Hu) as (d & Hd & _). by exists d.
Qed.

(** A step of the user's function is pending only under a lock. *)
Definition is_work (c : cmd) : Prop := match c with Work _ => True | _ => False end.

Definition under_lock tr : Prop := ∀ tr1 a x, tr = tr1 ++ [Ev (Work a) x] → granted tr1 ≠ None.

Lemma under_lock_other tr c x : ¬ is_work c → under_lock (tr ++ [Ev c x]).
Proof. intros Hc tr1 a y E. apply app_inj_tail in E as [_ E]. by injection E as -> _. Qed.

Local Ltac other := apply under_lock_other; by intros [].

Lemma acquire_loop_keeps n m o d tr : under_lock tr → granted tr = None →
  wp (acquire_loop n m o d) under_lock (λ t r, under_lock t ∧ (r.1 = lockTaken → granted t ≠ None)) tr.
Proof.
  assert (Hcl : ∀ e, classifyLockFailure (Some e) d ≠ lockTaken) by (intros e; unfold classifyLockFailure; by destruct (isLockContention _), d).
  revert tr. induction n as [|n IH]; intros tr Ht Hg; simpl; (split; [done|]).
  - intros [u|e]; simpl; (split; [other|]); (split; [other|]); [|intros E; by apply Hcl in E].
    by rewrite granted_snoc.
  - intros [u|e]; simpl; (split; [other|]); [split; [other|]; by rewrite granted_snoc|].
    intros []; [apply IH; [other|by rewrite !granted_snoc]|].
    simpl. split; [other|]. split; [other|]. intros E. by apply Hcl in E.
Qed.

Lemma WithLockOptions_under_lock dl v key o fn : issues is_work fn →
  wp (WithLockOptions dl v key o (Some fn)) under_lock (λ _ _, True) [].
Proof.
  assert (Hnil : under_lock []) by (by intros [] a x E). intros Hf.
  unfold WithLockOptions. destruct dl as [dl|]; [|done]. destruct (negb _); [done|]. destruct (is_blank key); [done|].
  destruct (validateLockOptions o); [done|]. apply wp_seq. unfold acquireLock. apply wp_seq. simpl. split; [done|]. intros c.
  assert (Hc : under_lock [Ev CtxErr c]) by (apply (under_lock_other []); by intros []). split; [done|].
  eapply wp_weaken; [|by apply acquire_loop_keeps].
  intros t [outcome e] _ [Ht Hg]. simpl in Hg. destruct outcome; try by split. apply wp_seq.
  eapply (wp_keeps_mono _ (λ t, under_lock t ∧ granted t ≠ None)); [by intros ? []|].
  eapply wp_weaken; [|apply (issues_wp is_work); [|done|by split; [|apply Hg]]].
  - intros t' r [Ht' _] _. simpl. split; [done|]. intros x. split; [other|done].
  - intros t' c' x [Ht' Hg'] Hw. destruct c'; try done. split.
    + intros tr1 a' y E. apply app_inj_tail in E as [-> _]. done.
    + rewrite granted_snoc. by simpl.
Qed.

Lemma WithLockOptions_own dl v key o fn : issues is_work fn → issues (own (NewMutex v key o)) (WithLockOptions dl v key o (Some fn)).
Proof.
  intros Hf. unfold WithLockOptions. destruct dl as [dl|]; [|done]. destruct (negb _); [done|]. destruct (is_blank key); [done|].
  destruct (validateLockOptions o); [done|].
  assert (Hown : ∀ c, cmd_mutex c = None ∨ cmd_mutex c = Some (NewMutex v key o) → own (NewMutex v key o) c) by (intros c [E|E] m' E'; congruence).
  apply issues_bind.
  - unfold acquireLock. apply issues_bind; [apply issues_perform, Hown; by left|]. intros c. generalize (Z.to_nat (Tries o - 1)) as n.
    induction n as [|n IH]; simpl.
    + split; [apply Hown; by right|]. by intros [].
    + split; [apply Hown; by right|]. intros [|e]; [done|]. simpl. split; [apply Hown; by left|]. by intros [].
  - intros [[] e]; try done. apply issues_bind.
    + clear -Hf Hown. induction fn as [r|c k IH]; simpl in *; [done|]. destruct Hf as [Hc Hk]. split; [|intros x; by apply IH].
      by destruct c.
    + intros r. simpl. split; [apply Hown; by right|done].
Qed.

(** A call of [WithLockOptions] and its arguments. *)
Record call := { c_manager : option RedisLockManager; c_value : Z; c_key : text; c_options : LockOptions; c_fn : prog (ending text) }.
Definition call_program (c : call) : prog (ending lock_error) :=
  WithLockOptions (c_manager c) (c_value c) (c_key c) (c_options c) (Some (c_fn c)).

(** A thread is inside its function: its next command is a step of it. *)
Definition inside (t : thread answer (ending lock_error)) : Prop := ∃ a k, th_rest t = Do (Work a) k.

(** C31: Mutual exclusion.  Put any number of calls of [WithLockOptions], from any
    processes, on one Redis, interleaved command by command.  When two of them are
    inside their functions under the same key, the validity that redsync granted to
    one of them has run out: two functions never run side by side while both locks
    are valid.  This uses of redsync only that an attempt takes no key that another
    mutex still holds, that a key outlives the validity reported for it, and that a
    key changes hands by its own mutex or by running out. *)
Theorem sections_do_not_overlap s (calls : list call) ls i j ci cj ti tj :
  NoDup (c_value <$> calls) → Forall (λ c, issues is_work (c_fn c)) calls →
  let w := interleave exec (start s (call_program <$> calls)) ls in
  i ≠ j → calls !! i = Some ci → calls !! j = Some cj → c_key ci = c_key cj →
  w_threads w !! i = Some ti → w_threads w !! j = Some tj → inside ti → inside tj →
  ∃ ui uj, granted (th_trace ti) = Some ui ∧ granted (th_trace tj) = Some uj ∧ (ui ≤ now (w_state w) ∨ uj ≤ now (w_state w)).
Proof.
  intros Hnd Hf w Hij Hi Hj Hk Hti Htj Hini Hinj.
  set (m c := NewMutex (c_value c) (c_key c) (c_options c)).
  assert (Hown : Forall2 (λ m p, issues (own m) p) (m <$> calls) (call_program <$> calls)).
  { apply Forall2_fmap, Forall_Forall2_diag. eapply Forall_impl; [exact Hf|]. intros c Hc. by apply WithLockOptions_own. }
  assert (Hnd' : NoDup (value <$> (m <$> calls))) by (by rewrite <- list_fmap_compose).
  assert (Hg : ∀ k t, w_threads w !! k = Some t → inside t → ∃ u, granted (th_trace t) = Some u).
  { intros k t Ht (a & kk & Er).
    destruct (interleave_rely exec ((λ _, (under_lock, λ _ _, True)) <$> calls) (λ _, True) (λ _, True) (λ _, True) s (call_program <$> calls) ls)
      as (_ & _ & Hok); try done.
    - apply Forall_fmap, Forall_true. intros c tr _. done.
    - apply Forall2_fmap, Forall_Forall2_diag. eapply Forall_impl; [exact Hf|]. intros c Hc. by apply WithLockOptions_under_lock.
    - destruct (Forall2_lookup_r _ _ _ _ _ Hok Ht) as (J & HJ & Htok). apply list_lookup_fmap_Some in HJ as (c & -> & _).
      unfold thread_ok in Htok. rewrite Er in Htok. destruct Htok as [_ Hwp]. specialize (Hwp 0). apply wp_here in Hwp.
      destruct (granted (th_trace t)) as [u|] eqn:E; [by exists u|]. by destruct (Hwp _ _ _ eq_refl). }
  destruct (Hg i ti Hti Hini) as [ui Hui], (Hg j tj Htj Hinj) as [uj Huj]. exists ui, uj. split_and!; [done..|].
  destruct (decide (ui ≤ now (w_state w))) as [|Hlt]; [by left|]. right. apply Z.nlt_ge. intros Hlt'.
  destruct (valid_lock_holds s (m <$> calls) (call_program <$> calls) ls i (m ci) ti ui) as [di Hdi]; try done;
    [by rewrite list_lookup_fmap, Hi|fold w; lia|].
  destruct (valid_lock_holds s (m <$> calls) (call_program <$> calls) ls j (m cj) tj uj) as [dj Hdj]; try done;
    [by rewrite list_lookup_fmap, Hj|].
  simpl in Hdi, Hdj. rewrite Hk in Hdi. rewrite Hdi in Hdj. injection Hdj as Hv _.
  apply Hij. eapply NoDup_lookup; [exact Hnd|by rewrite list_lookup_fmap, Hi|]. rewrite list_lookup_fmap, Hj. simpl. congruence.
Qed.
End exclusion.
