(* ===== verification/RedisLockExample.v ===== *)
(** A lock on a concrete Redis: one server, whose clock moves with every command. *)

From Stdlib Require Import SpecFloat.
From stdpp Require Import base numbers list strings gmap.
From S2P Require Import Prelude GoText GoFloat Effects RedisLock RedisLockGuarantees.

Local Open Scope Z_scope.

(** Refusals: the key is taken, or the server did not answer. *)
Inductive refusal_reason := Taken | NoAnswer.

#[export] Instance sample_redsync : Redsync :=
  {| rs_error := refusal_reason; is_ErrFailed := λ _, false; is_ErrTaken := λ e, match e with Taken => true | NoAnswer => false end |}.

Record server := { clock : Z; keys : gmap text (Z * Z) }.

(** The time that passes, and whether the server answers. *)
Definition weather : Type := N * bool.

Definition live_holder (s : server) (k : text) : option Z :=
  match keys s !! k with Some (v, d) => if bool_decide (clock s < d) then Some v else None | None => None end.

Definition serve (l : weather) (c : cmd) (s : server) : answer c * server :=
  let s := {| clock := clock s + Z.of_N l.1; keys := keys s |} in
  match c with
  | CtxErr => (None, s)
  | Wait _ => (true, s)
  | TryLockContext m =>
    if negb l.2 then (Refused NoAnswer, s)
    else match live_holder s (Name m) with
    | Some _ => (Refused Taken, s)
    | None => (Locked (clock s + m_expiry m), {| clock := clock s; keys := <[Name m := (value m, clock s + m_expiry m)]> (keys s) |})
    end
  | UnlockContext m _ =>
    if bool_decide (live_holder s (Name m) = Some (value m)) then ((true, None), {| clock := clock s; keys := delete (Name m) (keys s) |})
    else ((false, Some Taken), s)
  | ExtendContext m =>
    if bool_decide (live_holder s (Name m) = Some (value m))
    then ((true, None), {| clock := clock s; keys := <[Name m := (value m, clock s + m_expiry m)]> (keys s) |})
    else ((false, Some Taken), s)
  | GetClient => (None, s)
  | Work a => (a, s)
  end.

Lemma serve_clock l c s : clock (serve l c s).2 = clock s + Z.of_N l.1.
Proof. destruct c; simpl; try done; repeat case_match; done. Qed.

Lemma live_holder_some s k v d : keys s !! k = Some (v, d) → clock s < d → live_holder s k = Some v.
Proof. unfold live_holder. intros -> Hd. by rewrite bool_decide_true. Qed.

#[export, refine] Instance sample_leases : Leases server weather :=
  {| exec := serve; now := clock; holder := λ s k, keys s !! k |}.
Proof.
  - intros l c s. rewrite serve_clock. lia.
  - intros l m s u. simpl. destruct (negb l.2); [done|]. destruct (live_holder _ _); [done|]. intros [= <-]. simpl.
    eexists. by rewrite lookup_insert_eq.
  - intros l c s k v d Hk Hn Hm. rewrite serve_clock in Hn.
    pose proof (live_holder_some {| clock := clock s + Z.of_N l.1; keys := keys s |} k v d Hk Hn) as Hl.
    destruct c as [|dl|m|m b|m| |a]; simpl; try done; specialize (Hm m eq_refl).
    + destruct (negb l.2); [done|]. destruct (live_holder _ (Name m)) eqn:E; [done|]. simpl.
      rewrite lookup_insert_ne; [done|]. intros <-. congruence.
    + case_bool_decide as E; [|done]. simpl. rewrite lookup_delete_ne; [done|]. intros <-. rewrite Hl in E. injection E as E. by apply Hm.
    + case_bool_decide as E; [|done]. simpl. rewrite lookup_insert_ne; [done|]. intros <-. rewrite Hl in E. injection E as E. by apply Hm.
Defined.

(** A function of one step. *)
Definition one_step : prog (ending text) := x ← ask (Work 7); mret (Returned None).
Definition lock_manager : RedisLockManager := {| redsync := true |}.
Definition sweep (v : Z) : call :=
  {| c_manager := Some lock_manager; c_value := v; c_key := txt "lock:sweep"; c_options := DefaultLockOptions; c_fn := one_step |}.
Definition idle_server : server := {| clock := 0; keys := ∅ |}.

Definition lone_run := run exec (call_program (sweep 1)) (λ _, (1%N, true)) idle_server.

Lemma WithLockOptions_runs_witness :
  section_run (NewMutex 1 (txt "lock:sweep") DefaultLockOptions) DefaultLockOptions one_step lone_run.2 lone_run.1.1 ∧
  lone_run.1.1 = Returned None ∧ length lone_run.2 = 4%nat.
Proof.
  split; [|vm_compute; done].
  apply WithLockOptions_runs with (v := 1) (key := txt "lock:sweep"); [vm_compute; reflexivity|vm_compute; reflexivity|].
  exact (run_runs exec (call_program (sweep 1)) (λ _, (1%N, true)) idle_server).
Defined.

(** The first caller takes the lock and dawdles; the second takes it after the
    expiry; both are inside. *)
Definition two_sweeps : list call := [sweep 1; sweep 2].
Definition late_schedule : list (nat * weather) :=
  [(0%nat, (1%N, true)); (0%nat, (1%N, true)); (1%nat, (20000000000%N, true)); (1%nat, (1%N, true))].
Definition both_inside := interleave exec (start idle_server (call_program <$> two_sweeps)) late_schedule.
Definition thread_of (i : nat) : thread answer (ending lock_error) :=
  default {| th_trace := []; th_rest := mret Panicked |} (w_threads both_inside !! i).

Lemma sections_do_not_overlap_witness :
  inside (thread_of 0) ∧ inside (thread_of 1) ∧
  ∃ ui uj, granted (th_trace (thread_of 0)) = Some ui ∧ granted (th_trace (thread_of 1)) = Some uj ∧
    (ui ≤ now (w_state both_inside) ∨ uj ≤ now (w_state both_inside)).
Proof.
  assert (H0 : inside (thread_of 0)) by (vm_compute; eexists _, _; reflexivity).
  assert (H1 : inside (thread_of 1)) by (vm_compute; eexists _, _; reflexivity).
  split; [exact H0|]. split; [exact H1|].
  apply (sections_do_not_overlap idle_server two_sweeps late_schedule 0 1 (sweep 1) (sweep 2) (thread_of 0) (thread_of 1));
    try done; try (vm_compute; reflexivity).
  - apply (bool_decide_unpack _). vm_compute. exact I.
  - repeat constructor.
Defined.

(** A factor that is not a number passes the validation, which admits the factors
    from 0 up to 1. *)
Example nan_drift_is_accepted :
  validateLockOptions {| Expiry := Second; Tries := 1; RetryDelay := 0; DriftFactor := S754_nan |} = None ∧
  validateLockOptions {| Expiry := Second; Tries := 1; RetryDelay := 0; DriftFactor := of_int 1 |} = Some ErrLockDriftFactorInvalid.
Proof. vm_compute. done. Qed.
