(* ===== verification/GoUrl.v ===== *)
(** Writing URLs: the escapes of [net/url], [Values.Encode] and [URL.String]. *)

From stdpp Require Import base numbers list strings sorting.
From S2P Require Import Prelude GoText GoBytes GoJSON GoRegexp.

Local Open Scope Z_scope.

(** Where a text stands in a URL. *)
Inductive encoding := encodePath | encodeUserPassword | encodeHost | encodeQueryComponent.

(** [shouldEscape], on bytes *)
Definition shouldEscape (c : Z) (mode : encoding) : bool :=
  if (letter c || is_digit c || one_of "-_.~" c)%bool then false
  else match mode with
  | encodeHost => negb (one_of "!$&'()*+,;=:[]<>" c || bool_decide (c = 34))%bool
  | encodePath => negb (one_of "$&+,/:;=@" c)
  | encodeUserPassword => negb (one_of "$&+,;=" c)
  | encodeQueryComponent => true
  end.

Definition upper_hex (n : Z) : Z := if bool_decide (n < 10) then 48 + n else 55 + n.

Definition escape_byte (mode : encoding) (c : Z) : text :=
  if negb (shouldEscape c mode) then [c]
  else match mode with
  | encodeQueryComponent => if bool_decide (c = SP) then [43] else [37; upper_hex (c / 16); upper_hex (c mod 16)]
  | _ => [37; upper_hex (c / 16); upper_hex (c mod 16)]
  end.

Definition escape (mode : encoding) (s : text) : text := utf8_encode s ≫= escape_byte mode.
Definition QueryEscape : text → text := escape encodeQueryComponent.

(** [strings.Join] *)
Fixpoint Join_text (sep : text) (ss : list text) : text :=
  match ss with [] => [] | [s] => s | s :: ss => s ++ sep ++ Join_text sep ss end.

(** [Values.Encode] of a map with one value for each key, given as a list *)
Definition Encode_values (vs : list (text * text)) : text :=
  Join_text (txt "&") ((λ kv : text * text, QueryEscape kv.1 ++ txt "=" ++ QueryEscape kv.2) <$>
    merge_sort (λ a b : text * text, lex_le a.1 b.1) vs).

(** [URL.String] of a URL with a host, a path that starts with a slash, and a query *)
Definition URL_String (scheme : text) (user : option (text * text)) (host path query : text) : text :=
  scheme ++ txt "://" ++
  match user with Some (u, p) => escape encodeUserPassword u ++ txt ":" ++ escape encodeUserPassword p ++ txt "@" | None => [] end ++
  escape encodeHost host ++ escape encodePath path ++ (if is_empty query then [] else txt "?" ++ query).
