(* ===== verification/TenantCore.v ===== *)
(** The tenant manager's shared parts: the configuration of a tenant
    ([tenant-manager/core/types.go]), the caches of it
    ([tenantcache/tenant_cache.go], [cache/memory.go]), the choice of a pool to
    evict ([internal/eviction/lru.go]) and the gate in front of health checks
    ([internal/healthcheck/gate.go]).

    A method that takes a lock once is a function on the state; [Get] of the caches
    takes it twice and is split in two.  The time of the call is an argument. *)

From stdpp Require Import base numbers list strings gmap sorting.
From S2P Require Import Prelude GoText.

Local Open Scope Z_scope.
Local Open Scope go_scope.

(** ** Configurations *)

Record PostgreSQLConfig := {
  Host : text; Port : Z; Database : text; Username : text; Password : text; Schema : text;
  SSLMode : text; SSLRootCert : text; SSLCert : text; SSLKey : text }.

Record ConnectionSettings := { MaxOpenConns : Z; MaxIdleConns : Z; StatementTimeout : text }.

Record MongoDBConfig := {
  m_Host : text; m_Port : Z; m_Database : text; m_Username : text; m_Password : text; URI : text; AuthSource : text;
  DirectConnection : bool; MaxPoolSize : Z; m_TLS : bool; TLSCAFile : text; TLSCertFile : text; TLSKeyFile : text; TLSSkipVerify : bool }.

Record RabbitMQConfig := {
  rmq_Host : text; rmq_Port : Z; VHost : text; rmq_Username : text; rmq_Password : text; rmq_TLS : option bool; rmq_TLSCAFile : text }.

Record KafkaConfig := { Brokers : list text; k_Username : text; k_Password : text; Mechanism : text; k_TLS : option bool }.

Record DatabaseConfig := {
  PostgreSQL : option PostgreSQLConfig; PostgreSQLReplica : option PostgreSQLConfig; MongoDB : option MongoDBConfig;
  db_ConnectionSettings : option ConnectionSettings }.

(** [None] is a nil map. *)
Record TenantConfig := {
  tc_ID : text; TenantSlug : text; TenantName : text; Service : text; Status : text; IsolationMode : text;
  Databases : option (gmap text DatabaseConfig);
  Messaging : option (option RabbitMQConfig);
  RabbitMQ : option (gmap text RabbitMQConfig);
  Streaming : option (gmap text (option KafkaConfig));
  tc_ConnectionSettings : option ConnectionSettings; CreatedAt : gotime; UpdatedAt : gotime }.

(** [sort.Strings]: the order of the UTF-8 bytes is that of the runes. *)
Definition sortedKeys {V} (m : gmap text V) : list text := merge_sort (λ s t, lex_le s t) (map_to_list m).*1.

(** The entry of a module, or without a module the first one that has what is
    asked for. *)
Definition of_module {V W} (get : V → option W) (m : option (gmap text V)) (module : text) : option W :=
  m ← m;
  if negb (is_empty module) then m !! module ≫= get
  else head (omap (λ k, m !! k ≫= get) (sortedKeys m)).

Definition GetPostgreSQLConfig (tc : option TenantConfig) (module : text) : option PostgreSQLConfig :=
  tc ← tc; of_module PostgreSQL (Databases tc) module.
Definition GetPostgreSQLReplicaConfig (tc : option TenantConfig) (module : text) : option PostgreSQLConfig :=
  tc ← tc; of_module PostgreSQLReplica (Databases tc) module.
Definition GetMongoDBConfig (tc : option TenantConfig) (module : text) : option MongoDBConfig :=
  tc ← tc; of_module MongoDB (Databases tc) module.
Definition GetModuleRabbitMQConfig (tc : option TenantConfig) (module : text) : option RabbitMQConfig :=
  tc ← tc; of_module Some (RabbitMQ tc) module.
Definition GetKafkaConfig (tc : option TenantConfig) (module : text) : option KafkaConfig :=
  tc ← tc; of_module (λ k, k) (Streaming tc) module.
Definition GetRabbitMQConfig (tc : option TenantConfig) : option RabbitMQConfig := tc ← tc; messaging ← Messaging tc; messaging.
Definition HasRabbitMQ (tc : option TenantConfig) : bool := bool_decide (is_Some (GetRabbitMQConfig tc)).

Definition IsSchemaMode (tc : option TenantConfig) : bool :=
  match tc with None => false | Some tc => eqt (IsolationMode tc) (txt "schema") end.
Definition IsIsolatedMode (tc : option TenantConfig) : bool :=
  match tc with
  | None => false
  | Some tc => (is_empty (IsolationMode tc) || eqt (IsolationMode tc) (txt "isolated") || eqt (IsolationMode tc) (txt "database"))%bool
  end.

(** ** Eviction *)

Definition DefaultIdleTimeout : duration := 5 * Minute.

(** The scan over [lastAccessed], in the order of the iteration. *)
Fixpoint oldest_idle (now : gotime) (idleTimeout : duration) (entries : list (text * gotime)) (oldestID : text) (oldestTime : gotime) : text * gotime :=
  match entries with
  | [] => (oldestID, oldestTime)
  | (id, t) :: entries =>
    if bool_decide (time_sub now t < idleTimeout) then oldest_idle now idleTimeout entries oldestID oldestTime
    else if (is_empty oldestID || time_before t oldestTime)%bool then oldest_idle now idleTimeout entries id t
    else oldest_idle now idleTimeout entries oldestID oldestTime
  end.

(** [entries] is [lastAccessed] in the order in which the map is walked. *)
Definition FindLRUEvictionCandidate (connectionCount maxConnections : Z) (entries : list (text * gotime)) (idleTimeout : duration) (now : gotime) :
    option text :=
  if (bool_decide (maxConnections ≤ 0) || bool_decide (connectionCount < maxConnections))%bool then None
  else
    let idleTimeout := if bool_decide (idleTimeout ≤ 0) then DefaultIdleTimeout else idleTimeout in
    let oldest := (oldest_idle now idleTimeout entries [] zero_time).1 in
    if is_empty oldest then None else Some oldest.

(** ** The gate of health checks *)

(** A check in flight has a channel, named by a number, and may be invalid. *)
Record check := { done : nat; invalid : bool }.

Record Gate := { interval : duration; last_check : gmap text gotime; inflight : gmap text check; next_channel : nat }.
#[export] Instance Gate_eta : Eta Gate := λ g,
  {| interval := interval g; last_check := last_check g; inflight := inflight g; next_channel := next_channel g |}.

Inductive Action := Skip | Run | Wait (channel : nat).

Definition NewGate (i : duration) : Gate := {| interval := Z.max i 0; last_check := ∅; inflight := ∅; next_channel := 0 |}.

Definition Begin (g : Gate) (key : text) (now : gotime) : Action * Gate :=
  if bool_decide (interval g ≤ 0) then (Run, g)
  else match inflight g !! key with
  | Some c => (Wait (done c), g)
  | None =>
    if match last_check g !! key with Some l => bool_decide (time_sub now l ≤ interval g) | None => false end then (Skip, g)
    else (Run, g <| inflight := <[key := {| done := next_channel g; invalid := false |}]> (inflight g) |>
                 <| next_channel := S (next_channel g) |>)
  end.

(** The channel that is closed, if any, and the gate. *)
Definition End_ (g : Gate) (key : text) (healthy : bool) (now : gotime) : option nat * Gate :=
  if bool_decide (interval g ≤ 0) then (None, g)
  else match inflight g !! key with
  | None => (None, g)
  | Some c =>
    (Some (done c),
     g <| inflight := delete key (inflight g) |>
       <| last_check := if (healthy && negb (invalid c))%bool then <[key := now]> (last_check g) else delete key (last_check g) |>)
  end.

Definition invalidate (c : check) : check := {| done := done c; invalid := true |}.

Definition Forget (g : Gate) (key : text) : Gate :=
  g <| last_check := delete key (last_check g) |> <| inflight := alter invalidate key (inflight g) |>.
Definition ForgetAll (g : Gate) : Gate := g <| last_check := ∅ |> <| inflight := invalidate <$> inflight g |>.

(** [CallerAbandoned]: [is_ctx] is [errors.Is(checkErr, ctx.Err())]. *)
Definition CallerAbandoned {E} (ctxErr : option E) (is_ctx : E → bool) : bool :=
  match ctxErr with Some e => is_ctx e | None => false end.

(** ** The cache of tenant configurations *)

Definition DefaultTenantCacheTTL : duration := 12 * Hour.

Record TenantCacheEntry := { TenantID : text; Config : TenantConfig; ExpiresAt : gotime }.
Definition IsExpired (e : TenantCacheEntry) (now : gotime) : bool := time_before (ExpiresAt e) now.

Definition TenantCache : Type := gmap text TenantCacheEntry.
Definition NewTenantCache : TenantCache := ∅.

(** The first section of [Get], and the eviction under the write lock. *)
Definition Get_read (c : TenantCache) (id : text) (now : gotime) : option TenantCacheEntry * bool :=
  match c !! id with
  | None => (None, false)
  | Some e => if IsExpired e now then (None, true) else (Some e, false)
  end.
Definition Get_evict (c : TenantCache) (id : text) (now : gotime) : TenantCache :=
  match c !! id with Some e => if IsExpired e now then delete id c else c | None => c end.

Definition Set_ (c : TenantCache) (id : text) (config : TenantConfig) (ttl : duration) (now : gotime) : TenantCache :=
  <[id := {| TenantID := id; Config := config; ExpiresAt := time_add now ttl |}]> c.
Definition Delete (c : TenantCache) (id : text) : TenantCache := delete id c.
Definition cache_IsExpired (c : TenantCache) (id : text) (now : gotime) : bool * bool :=
  match c !! id with None => (false, false) | Some e => (IsExpired e now, true) end.
Definition Touch (c : TenantCache) (id : text) (ttl : duration) (now : gotime) : bool * TenantCache :=
  match c !! id with
  | None => (false, c)
  | Some e =>
    if IsExpired e now then (false, delete id c)
    else (true, <[id := {| TenantID := TenantID e; Config := Config e; ExpiresAt := time_add now ttl |}]> c)
  end.
Definition Len (c : TenantCache) : nat := size c.
Definition TenantIDs (c : TenantCache) (now : gotime) : list text * TenantCache :=
  let live := filter (λ e : text * TenantCacheEntry, negb (IsExpired e.2 now)) c in ((map_to_list live).*1, live).

(** ** The cache of the tenant manager's client *)

Definition cleanupInterval : duration := 5 * Minute.

Record cacheEntry := { c_value : text; expiresAt : gotime }.
Definition isExpired (e : cacheEntry) (now : gotime) : bool :=
  if time_is_zero (expiresAt e) then false else time_before (expiresAt e) now.

Definition InMemoryCache : Type := gmap text cacheEntry.

Definition mem_Get_read (c : InMemoryCache) (key : text) (now : gotime) : option text * bool :=
  match c !! key with
  | None => (None, false)
  | Some e => if isExpired e now then (None, true) else (Some (c_value e), false)
  end.
Definition mem_Get_evict (c : InMemoryCache) (key : text) (now : gotime) : InMemoryCache :=
  match c !! key with Some e => if isExpired e now then delete key c else c | None => c end.
Definition mem_Set (c : InMemoryCache) (key value : text) (ttl : duration) (now : gotime) : InMemoryCache :=
  <[key := {| c_value := value; expiresAt := if bool_decide (0 < ttl) then time_add now ttl else zero_time |}]> c.
Definition mem_Del (c : InMemoryCache) (key : text) : InMemoryCache := delete key c.
Definition evictExpired (c : InMemoryCache) (now : gotime) : InMemoryCache := filter (λ e : text * cacheEntry, negb (isExpired e.2 now)) c.

(** ** Which pool is evicted *)

Definition idle (now : gotime) (idleTimeout : duration) (e : text * gotime) : Prop := idleTimeout ≤ time_sub now e.2.

Lemma oldest_idle_spec now d entries id t : Forall (λ e, e.1 ≠ []) entries →
  let r := oldest_idle now d entries id t in
  (r = (id, t) ∨ (r ∈ entries ∧ idle now d r)) ∧
  (id ≠ [] → r.2 ≤ t) ∧
  ∀ e, e ∈ entries → idle now d e → r.1 ≠ [] ∧ r.2 ≤ e.2.
Proof.
  unfold idle. intros Hne. revert id t. induction Hne as [|[id' t'] entries Hid Hne IH]; intros id t; cbn [oldest_idle].
  { split_and!; [by left|intros; simpl; lia|]. intros e He. by apply elem_of_nil in He. }
  simpl in Hid. case_bool_decide as Hi.
  { destruct (IH id t) as (H1 & H2 & H3). split_and!; [|done|].
    - destruct H1 as [->|[H1 H1']]; [by left|right]. split; [by right|done].
    - intros e [->|He]%elem_of_cons Hidle; [simpl in Hidle; lia|by apply H3]. }
  destruct (is_empty id || time_before t' t)%bool eqn:Ec.
  - destruct (IH id' t') as (H1 & H2 & H3). specialize (H2 Hid). split_and!.
    + right. destruct H1 as [->|[H1 H1']]; [split; [by left|simpl; lia]|split; [by right|done]].
    + intros Hid'. apply orb_true_iff in Ec as [Ec%is_empty_true|Ec%bool_decide_eq_true]; [done|]. lia.
    + intros e [->|He]%elem_of_cons Hidle; [|by apply H3]. split; [|done].
      destruct H1 as [->|[H1 _]]; [done|]. rewrite Forall_forall in Hne. by apply Hne.
  - apply orb_false_iff in Ec as [Ec1%is_empty_false Ec2%bool_decide_eq_false]. destruct (IH id t) as (H1 & H2 & H3). split_and!; [|done|].
    + destruct H1 as [->|[H1 H1']]; [by left|right]. split; [by right|done].
    + intros e [->|He]%elem_of_cons Hidle; [|by apply H3]. specialize (H2 Ec1). simpl. split; [|lia].
      destruct H1 as [->|[H1 _]]; [done|]. rewrite Forall_forall in Hne. by apply Hne.
Qed.

(** In whatever order the map is walked: nothing is evicted below the limit;
    otherwise a pool is evicted exactly when one has been idle long enough, and it
    is one of those that were used longest ago. *)
Lemma FindLRU_oldest (m : gmap text gotime) entries count limit timeout now : entries ≡ₚ map_to_list m → m !! [] = None →
  let d := if bool_decide (timeout ≤ 0) then DefaultIdleTimeout else timeout in
  match FindLRUEvictionCandidate count limit entries timeout now with
  | Some id => 0 < limit ≤ count ∧ ∃ t, m !! id = Some t ∧ d ≤ time_sub now t ∧ ∀ id' t', m !! id' = Some t' → d ≤ time_sub now t' → t ≤ t'
  | None => limit ≤ 0 ∨ count < limit ∨ ∀ id t, m !! id = Some t → time_sub now t < d
  end.
Proof.
  intros Hp H0. cbv zeta. unfold FindLRUEvictionCandidate. case_bool_decide as Hl; [simpl; by left|].
  case_bool_decide as Hc; [simpl; right; by left|]. simpl.
  set (d := if bool_decide (timeout ≤ 0) then _ else _).
  assert (Hin : ∀ e, e ∈ entries ↔ m !! e.1 = Some e.2) by (intros [id t]; rewrite Hp, elem_of_map_to_list; done).
  destruct (oldest_idle_spec now d entries [] zero_time) as (H1 & _ & H3).
  { apply Forall_forall. intros e He%Hin E. rewrite E in He. congruence. }
  destruct (oldest_idle now d entries [] zero_time) as [id t]. simpl in *. destruct (is_empty id) eqn:Ei.
  - apply is_empty_true in Ei as ->. right. right. intros id' t' Hm. apply Z.nle_gt. intros Hd.
    destruct (H3 (id', t')) as [? _]; [by apply Hin|done|done].
  - apply is_empty_false in Ei. destruct H1 as [[= -> _]|[H1%Hin Hidle]]; [done|]. split; [lia|]. exists t. split_and!; [done..|].
    intros id' t' Hm Hd. apply (H3 (id', t')); [by apply Hin|done].
Qed.

(** ** What the gate promises *)

(** The uses of a gate, each with its time. *)
Inductive gate_op := OBegin (key : text) (now : gotime) | OEnd (key : text) (healthy : bool) (now : gotime) | OForget (key : text) | OForgetAll.

Definition gate_step (g : Gate) (op : gate_op) : Gate :=
  match op with
  | OBegin key now => (Begin g key now).2
  | OEnd key healthy now => (End_ g key healthy now).2
  | OForget key => Forget g key
  | OForgetAll => ForgetAll g
  end.
Definition gate_after (i : duration) (h : list gate_op) : Gate := foldl gate_step (NewGate i) h.

(** The uses that drop what is known of a key, and those that end a check of it. *)
Definition drops (key : text) (op : gate_op) : bool := match op with OForget k => eqt k key | OForgetAll => true | _ => false end.
Definition ends (key : text) (op : gate_op) : bool := match op with OEnd k _ _ => eqt k key | _ => false end.
Definition quiet (key : text) (h : list gate_op) : Prop := Forall (λ op, drops key op = false ∧ ends key op = false) h.

(** The history [h] ends in a check of [key] that is still about the connection
    that is cached; and in one that passed at the time [e]. *)
Definition checking (i : duration) (h : list gate_op) (key : text) : Prop :=
  ∃ h1 b h2, h = h1 ++ OBegin key b :: h2 ∧ (Begin (gate_after i h1) key b).1 = Run ∧ quiet key h2.
Definition passed (i : duration) (h : list gate_op) (key : text) (e : gotime) : Prop :=
  ∃ h1 h2, h = h1 ++ OEnd key true e :: h2 ∧ checking i h1 key ∧ quiet key h2.

Lemma gate_after_snoc i h op : gate_after i (h ++ [op]) = gate_step (gate_after i h) op.
Proof. unfold gate_after. by rewrite foldl_app. Qed.

Lemma gate_interval i h : interval (gate_after i h) = Z.max i 0.
Proof.
  induction h as [|op h IH] using rev_ind; [done|]. rewrite gate_after_snoc. rewrite <- IH.
  destruct op as [k now|k b now|k|]; cbn [gate_step]; unfold Begin, End_; [| |done..].
  - case_bool_decide; [done|]. destruct (inflight _ !! k); [done|]. cbn. by destruct (last_check _ !! k); [case_bool_decide|].
  - case_bool_decide; [done|]. by destruct (inflight _ !! k).
Qed.

Lemma quiet_snoc key h op : quiet key h → drops key op = false → ends key op = false → quiet key (h ++ [op]).
Proof. intros H1 H2 H3. apply Forall_app. split; [done|]. by constructor. Qed.

Lemma checking_snoc i h key op : checking i h key → drops key op = false → ends key op = false → checking i (h ++ [op]) key.
Proof.
  intros (h1 & b & h2 & -> & Hr & Hq) Hd He. exists h1, b, (h2 ++ [op]). rewrite <- app_assoc. split_and!; [done|done|].
  by apply quiet_snoc.
Qed.

Lemma passed_snoc i h key e op : passed i h key e → drops key op = false → ends key op = false → passed i (h ++ [op]) key e.
Proof.
  intros (h1 & h2 & -> & Hr & Hq) Hd He. exists h1, (h2 ++ [op]). rewrite <- app_assoc. split_and!; [done|done|]. by apply quiet_snoc.
Qed.

(** Only checks that were begun are ended. *)
Definition well_used (i : duration) (h : list gate_op) : Prop :=
  ∀ h1 key healthy now h2, h = h1 ++ OEnd key healthy now :: h2 → inflight (gate_after i h1) !! key ≠ None.

(** What the two maps of the gate mean. *)
Definition gate_meaning (i : duration) (h : list gate_op) : Prop :=
  (∀ key c, inflight (gate_after i h) !! key = Some c → invalid c = false → checking i h key) ∧
  (∀ key e, last_check (gate_after i h) !! key = Some e → passed i h key e).

Lemma gate_keeps_meaning i h : 0 < i → well_used i h → gate_meaning i h.
Proof.
  intros Hon Hu.
  induction h as [|op h IH] using rev_ind; [split; intros key c Hl; cbn in Hl; by rewrite lookup_empty in Hl|]. destruct IH as [IH1 IH2].
  { intros h1 key healthy now h2 ->. eapply (Hu h1 key healthy now (h2 ++ [op])). by rewrite <- app_assoc. }
  unfold gate_meaning. rewrite gate_after_snoc. destruct op as [k now|k healthy now|k|]; cbn [gate_step].
  - assert (Hc : ∀ key c, inflight (gate_after i h) !! key = Some c → invalid c = false → checking i (h ++ [OBegin k now]) key)
      by (intros key c Hl Hi; apply checking_snoc; [by eapply IH1|done..]).
    assert (Hp : ∀ key e, last_check (gate_after i h) !! key = Some e → passed i (h ++ [OBegin k now]) key e)
      by (intros key e Hl; apply passed_snoc; [by apply IH2|done..]).
    unfold Begin at 1 2. case_bool_decide as Hi; [done|]. destruct (inflight (gate_after i h) !! k) as [c|] eqn:Ek; [done|].
    destruct (match last_check (gate_after i h) !! k with Some _ => _ | None => _ end) eqn:El; [done|]. cbn. split; [|done].
    intros key c Hl Hv. apply lookup_insert_Some in Hl as [[<- <-]|[_ Hl]]; [|by eapply Hc].
    exists h, now, []. split_and!; [done| |constructor]. unfold Begin. rewrite bool_decide_false by done. by rewrite Ek, El.
  - unfold End_. rewrite bool_decide_false by (rewrite gate_interval; lia).
    destruct (inflight (gate_after i h) !! k) as [c|] eqn:Ek; cbn.
    + split.
      * intros key c' Hl Hv. apply lookup_delete_Some in Hl as [Hne Hl]. apply checking_snoc; [by eapply IH1|done|by apply eqt_false].
      * intros key e. destruct (healthy && negb (invalid c))%bool eqn:Eh; intros Hl.
        -- apply lookup_insert_Some in Hl as [[<- <-]|[Hne Hl]]; [|apply passed_snoc; [by apply IH2|done|by apply eqt_false]].
           apply andb_true_iff in Eh as [-> Hv%negb_true_iff]. exists h, []. split_and!; [done|by eapply IH1|constructor].
        -- apply lookup_delete_Some in Hl as [Hne Hl]. apply passed_snoc; [by apply IH2|done|by apply eqt_false].
    + exfalso. by apply (Hu h k healthy now []).
  - cbn. split; [intros key c Hl Hv|intros key e Hl].
    + destruct (decide (k = key)) as [->|Hne]; [|rewrite lookup_alter_ne in Hl by done; apply checking_snoc; [by eapply IH1|by apply eqt_false|done]].
      rewrite lookup_alter_eq in Hl. apply fmap_Some in Hl as (c' & _ & ->). done.
    + apply lookup_delete_Some in Hl as [Hne Hl]. apply passed_snoc; [by apply IH2|by apply eqt_false|done].
  - cbn. split; [intros key c Hl Hv|intros key e Hl].
    + rewrite lookup_fmap in Hl. apply fmap_Some in Hl as (c' & _ & ->). done.
    + by rewrite lookup_empty in Hl.
Qed.

(** A health check is skipped only on evidence.  When the gate lets a caller use a
    cached connection without a check, a check of that tenant was begun by a caller
    that was told to run it, was ended as healthy, and ended at most one interval
    ago; and from its beginning on the tenant was never evicted, so that the check
    was about the connection that is cached.  While a check is in flight no other
    one is started. *)
Theorem skip_is_earned i h key now : 0 < i → well_used i h →
  match (Begin (gate_after i h) key now).1 with
  | Skip => inflight (gate_after i h) !! key = None ∧ ∃ e, passed i h key e ∧ time_sub now e ≤ i
  | Run => inflight (gate_after i h) !! key = None
  | Wait channel => ∃ c, inflight (gate_after i h) !! key = Some c ∧ channel = done c
  end.
Proof.
  intros Hi Hu. destruct (gate_keeps_meaning i h Hi Hu) as [_ Hp]. unfold Begin. rewrite gate_interval. rewrite bool_decide_false by lia.
  destruct (inflight (gate_after i h) !! key) as [c|] eqn:Ek; [by exists c|].
  destruct (last_check (gate_after i h) !! key) as [e|] eqn:El; [|done]. case_bool_decide; [|done]. split; [done|]. exists e.
  split; [by apply Hp|lia].
Qed.

(** A check that passes; the callers that come in the meantime wait, and the one
    after it need not check. *)
Definition sample_tenant : text := txt "acme".
Definition checked : list gate_op := [OBegin sample_tenant 100; OBegin sample_tenant 110; OEnd sample_tenant true 120].

Lemma skip_is_earned_witness :
  (Begin (gate_after 50 checked) sample_tenant 150).1 = Skip ∧ ∃ e, passed 50 checked sample_tenant e ∧ time_sub 150 e ≤ 50.
Proof.
  assert (Hu : well_used 50 checked).
  { intros h1 key healthy now h2 E. destruct h1 as [|o1 [|o2 [|o3 h1]]]; try done.
    - injection E as <- <- <- <- <- <-. intros E. vm_compute in E. discriminate E.
    - injection E as _ _ _ E. by destruct h1. }
  assert (Hs : (Begin (gate_after 50 checked) sample_tenant 150).1 = Skip) by (vm_compute; reflexivity).
  split; [exact Hs|]. pose proof (skip_is_earned 50 checked sample_tenant 150 ltac:(lia) Hu) as H. rewrite Hs in H. apply H.
Defined.
