(* ===== verification/TenantPool.v ===== *)
(** The connection pools of the tenants: [tenant-manager/postgres/manager.go].

    Each section under the manager's lock, each use of the health gate and each
    call that leaves the process is one command of a program of [Effects]; a method
    is a program.  [exec] is what a command does to the manager: its maps, the gate,
    and the heap of connections, which are named by their place in it.  What the
    outside world answers (pings, configurations, whether a connect succeeds, the
    clock, the order in which a map is walked) is the first argument of [exec].
    Logs and spans are left out, the errors of closing a pool, and the wait of
    [Close] for the revalidations, which are calls of their own here. *)

From stdpp Require Import base numbers list strings gmap sorting.
From S2P Require Import Prelude GoText GoBytes GoJSON GoRegexp GoUrl Effects TenantCore.

Local Open Scope Z_scope.
Local Open Scope go_scope.

(** ** Connection strings *)

Definition validSchemaPattern : re := (Bot ⋅ Chr (λ r, letter r || bool_decide (r = 95))%bool ⋅ Star (Chr word) ⋅ Eot)%re.

Definition validStatementTimeoutPattern : re :=
  (Bot ⋅ Plus (Chr is_digit) ⋅ Star (Chr re_space) ⋅
   Opt (lit "us" ∥ lit "ms" ∥ lit "s" ∥ lit "min" ∥ lit "h" ∥ lit "d") ⋅ Eot)%re.
Definition validStatementTimeout (v : text) : bool := MatchString validStatementTimeoutPattern v.

Inductive dsn_error := ErrNilConfig | ContradictorySSL | InvalidSchema (name : text).

(** The first name that is no schema name. *)
Definition bad_schema (names : list text) : option text := List.find (λ n, negb (MatchString validSchemaPattern n)) names.

Definition set_if (key v : text) : list (text * text) := if is_empty v then [] else [(key, v)].

Definition BuildConnectionString (cfg : option PostgreSQLConfig) (extras : list text) : result dsn_error text :=
  match cfg with
  | None => Err ErrNilConfig
  | Some cfg =>
    let sslmode := if is_empty (SSLMode cfg) then txt "disable" else SSLMode cfg in
    if (eqt sslmode (txt "disable") &&
        (negb (is_empty (SSLRootCert cfg)) || negb (is_empty (SSLCert cfg)) || negb (is_empty (SSLKey cfg))))%bool
    then Err ContradictorySSL
    else
      let user := if is_empty (Username cfg) then None else Some (Username cfg, Password cfg) in
      let values := (txt "sslmode", sslmode) :: set_if (txt "sslrootcert") (SSLRootCert cfg) ++
                    set_if (txt "sslcert") (SSLCert cfg) ++ set_if (txt "sslkey") (SSLKey cfg) in
      let host := Host cfg ++ txt ":" ++ Itoa (Port cfg) in
      let url values := URL_String (txt "postgres") user host (txt "/" ++ Database cfg) (Encode_values values) in
      if is_empty (Schema cfg) then Ok (url values)
      else match bad_schema (Schema cfg :: extras) with
      | Some name => Err (InvalidSchema name)
      | None => Ok (url (values ++ [(txt "options", txt "-csearch_path=" ++ Join_text (txt ",") (Schema cfg :: extras))]))
      end
  end.

(** ** The manager *)

Definition pingTimeout : duration := 3 * Second.
Definition defaultConnectionsCheckInterval : duration := 30 * Second.
Definition defaultHealthCheckInterval : duration := 30 * Second.
Definition fallbackMaxOpenConns : Z := 25.
Definition fallbackMaxIdleConns : Z := 5.
Definition defaultMaxAllowedOpenConns : Z := 200.
Definition defaultMaxAllowedIdleConns : Z := 50.

Record appliedSettings := { s_maxOpenConns : Z; s_maxIdleConns : Z; s_statementTimeout : text }.
#[export] Instance appliedSettings_eq_dec : EqDecision appliedSettings.
Proof. solve_decision. Defined.

(** A connection before and after [Connect]; [for_tenant] names the tenant it was
    made for, which the code only logs. *)
Record PostgresConnection := {
  ConnectionStringPrimary : text; ConnectionStringReplica : text; PrimaryDBName : text; ReplicaDBName : text;
  MaxOpenConnections : Z; MaxIdleConnections : Z; SkipMigrations : bool; ConnectionDB : bool; for_tenant : text }.
#[export] Instance PostgresConnection_eta : Eta PostgresConnection := λ c,
  {| ConnectionStringPrimary := ConnectionStringPrimary c; ConnectionStringReplica := ConnectionStringReplica c;
     PrimaryDBName := PrimaryDBName c; ReplicaDBName := ReplicaDBName c; MaxOpenConnections := MaxOpenConnections c;
     MaxIdleConnections := MaxIdleConnections c; SkipMigrations := SkipMigrations c; ConnectionDB := ConnectionDB c;
     for_tenant := for_tenant c |}.

(** A place of the heap: the connection and whether its pool is open. *)
Record cell := { conn : PostgresConnection; is_open : bool }.

Record Manager := {
  client : bool; service : text; module : text;
  connections : gmap text nat; closed : bool;
  maxOpenConns : Z; maxIdleConns : Z; maxAllowedOpenConns : Z; maxAllowedIdleConns : Z;
  maxConnections : Z; idleTimeout : duration; lastAccessed : gmap text gotime;
  lastConnectionsCheck : gmap text gotime; connectionsCheckInterval : duration; lastAppliedSettings : gmap text appliedSettings;
  healthCheckInterval : duration; healthGate : Gate; heap : list cell; revalidations : list text }.
#[export] Instance Manager_eta : Eta Manager := λ p,
  {| client := client p; service := service p; module := module p; connections := connections p; closed := closed p;
     maxOpenConns := maxOpenConns p; maxIdleConns := maxIdleConns p; maxAllowedOpenConns := maxAllowedOpenConns p;
     maxAllowedIdleConns := maxAllowedIdleConns p; maxConnections := maxConnections p; idleTimeout := idleTimeout p;
     lastAccessed := lastAccessed p; lastConnectionsCheck := lastConnectionsCheck p;
     connectionsCheckInterval := connectionsCheckInterval p; lastAppliedSettings := lastAppliedSettings p;
     healthCheckInterval := healthCheckInterval p; healthGate := healthGate p; heap := heap p; revalidations := revalidations p |}.

(** The options. *)
Definition WithMaxOpenConns (n : Z) (p : Manager) : Manager := p <| maxOpenConns := n |>.
Definition WithMaxIdleConns (n : Z) (p : Manager) : Manager := p <| maxIdleConns := n |>.
Definition WithConnectionLimitCaps (maxOpen maxIdle : Z) (p : Manager) : Manager :=
  let p := if bool_decide (0 < maxOpen) then p <| maxAllowedOpenConns := maxOpen |> else p in
  if bool_decide (0 < maxIdle) then p <| maxAllowedIdleConns := maxIdle |> else p.
Definition WithModule (m : text) (p : Manager) : Manager := p <| module := m |>.
Definition WithMaxTenantPools (maxSize : Z) (p : Manager) : Manager := p <| maxConnections := maxSize |>.
Definition WithConnectionsCheckInterval (d : duration) (p : Manager) : Manager := p <| connectionsCheckInterval := Z.max d 0 |>.
Definition WithHealthCheckInterval (d : duration) (p : Manager) : Manager := p <| healthCheckInterval := Z.max d 0 |>.
Definition WithIdleTimeout (d : duration) (p : Manager) : Manager := p <| idleTimeout := d |>.
Definition WithConnectionLimits (maxOpen maxIdle : Z) (p : Manager) : Manager := p <| maxOpenConns := maxOpen |> <| maxIdleConns := maxIdle |>.

(** The gate is made after the options. *)
Definition NewManager (c : bool) (svc : text) (opts : list (Manager → Manager)) : Manager :=
  let p := foldl (λ p opt, opt p)
    {| client := c; service := svc; module := []; connections := ∅; closed := false;
       maxOpenConns := fallbackMaxOpenConns; maxIdleConns := fallbackMaxIdleConns;
       maxAllowedOpenConns := defaultMaxAllowedOpenConns; maxAllowedIdleConns := defaultMaxAllowedIdleConns;
       maxConnections := 0; idleTimeout := 0; lastAccessed := ∅; lastConnectionsCheck := ∅;
       connectionsCheckInterval := defaultConnectionsCheckInterval; lastAppliedSettings := ∅;
       healthCheckInterval := defaultHealthCheckInterval; healthGate := NewGate 0; heap := []; revalidations := [] |} opts in
  p <| healthGate := NewGate (healthCheckInterval p) |>.
Definition Module (p : Manager) : text := module p.
Definition IsMultiTenant (p : Manager) : bool := client p.

(** *** Settings *)

Definition resolveConnectionSettingsFromConfig (p : Manager) (config : option TenantConfig) : option ConnectionSettings :=
  match config with
  | None => None
  | Some config =>
    match (if is_empty (module p) then None else dbs ← Databases config; db ← dbs !! module p; db_ConnectionSettings db) with
    | Some s => Some s
    | None => tc_ConnectionSettings config
    end
  end.

Definition clampPoolSettings (p : Manager) (maxOpen maxIdle : Z) : Z * Z :=
  (if (bool_decide (0 < maxAllowedOpenConns p) && bool_decide (maxAllowedOpenConns p < maxOpen))%bool then maxAllowedOpenConns p else maxOpen,
   if (bool_decide (0 < maxAllowedIdleConns p) && bool_decide (maxAllowedIdleConns p < maxIdle))%bool then maxAllowedIdleConns p else maxIdle).

Definition resolveConnectionPoolSettings (p : Manager) (config : option TenantConfig) : Z * Z :=
  let '(maxOpen, maxIdle) :=
    match resolveConnectionSettingsFromConfig p config with
    | Some s => (if bool_decide (0 < MaxOpenConns s) then MaxOpenConns s else maxOpenConns p,
                 if bool_decide (0 < MaxIdleConns s) then MaxIdleConns s else maxIdleConns p)
    | None => (maxOpenConns p, maxIdleConns p)
    end in
  clampPoolSettings p maxOpen maxIdle.

Definition resolveEffectiveSettings (p : Manager) (config : option TenantConfig) : appliedSettings :=
  let '(o, i, t) := match resolveConnectionSettingsFromConfig p config with
                    | Some s => (MaxOpenConns s, MaxIdleConns s, StatementTimeout s)
                    | None => (0, 0, [])
                    end in
  {| s_maxOpenConns := if bool_decide (o ≤ 0) then maxOpenConns p else o;
     s_maxIdleConns := if bool_decide (i ≤ 0) then maxIdleConns p else i; s_statementTimeout := t |}.

Definition resolveReplicaConnection (p : Manager) (config : option TenantConfig) : result dsn_error (text * text) :=
  match GetPostgreSQLReplicaConfig config (module p) with
  | None => Ok ([], [])
  | Some r => s ← BuildConnectionString (Some r) []; Ok (s, Database r)
  end.

Definition freshReplicaConnStr (p : Manager) (config : option TenantConfig) : result dsn_error text :=
  match GetPostgreSQLReplicaConfig config (module p) with
  | None => Ok []
  | Some r => BuildConnectionString (Some r) []
  end.

Definition normalizeReplicaConnStr (replica primary : text) : text := if eqt replica primary then [] else replica.

(** ** Sections under the lock *)

(** [conn.Close()] *)
Definition close_cell (i : nat) (p : Manager) : Manager := p <| heap := alter (λ c, {| conn := conn c; is_open := false |}) i (heap p) |>.
Definition connected (p : Manager) (i : nat) : bool := match heap p !! i with Some c => ConnectionDB (conn c) | None => false end.
Definition close_if_connected (i : nat) (p : Manager) : Manager := if connected p i then close_cell i p else p.

(** What every eviction deletes. *)
Definition forget_tenant (t : text) (p : Manager) : Manager :=
  p <| connections := delete t (connections p) |> <| lastAccessed := delete t (lastAccessed p) |>
    <| lastConnectionsCheck := delete t (lastConnectionsCheck p) |> <| healthGate := Forget (healthGate p) t |>
    <| lastAppliedSettings := delete t (lastAppliedSettings p) |>.

Definition cached_as (p : Manager) (t : text) (i : nat) : bool := bool_decide (connections p !! t = Some i).

(** The map in the order [order], if that is an order of it. *)
Definition walk (order : list (text * gotime)) (m : gmap text gotime) : list (text * gotime) :=
  if bool_decide (order ≡ₚ map_to_list m) then order else map_to_list m.

Definition evictLRU (now : gotime) (order : list (text * gotime)) (p : Manager) : Manager :=
  match FindLRUEvictionCandidate (Z.of_nat (size (connections p))) (maxConnections p) (walk order (lastAccessed p)) (idleTimeout p) now with
  | None => p
  | Some t =>
    match connections p !! t with
    | Some i => forget_tenant t (close_if_connected i p)
    | None => p
    end
  end.

Definition lookup_section (t : text) (p : Manager) : bool * option (nat * bool) :=
  (closed p, if closed p then None else (λ i, (i, connected p i)) <$> connections p !! t).

Definition touch_section (now : gotime) (t : text) (i : nat) (p : Manager) : bool * Manager :=
  if negb (cached_as p t i) then (false, p)
  else
    let p := p <| lastAccessed := <[t := now]> (lastAccessed p) |> in
    if (client p && bool_decide (0 < connectionsCheckInterval p) &&
        bool_decide (connectionsCheckInterval p < time_sub now (default zero_time (lastConnectionsCheck p !! t))))%bool
    then (true, p <| lastConnectionsCheck := <[t := now]> (lastConnectionsCheck p) |> <| revalidations := revalidations p ++ [t] |>)
    else (true, p).

Definition closeUnhealthy_section (t : text) (i : nat) (p : Manager) : Manager := if cached_as p t i then forget_tenant t p else p.

(** [tryReuseOrEvictCachedConnectionLocked] pings under the lock. *)
Definition tryReuseOrEvictCachedConnectionLocked (ping_ok : bool) (t : text) (p : Manager) : option nat * Manager :=
  match connections p !! t with
  | None => (None, p)
  | Some i =>
    if connected p i then if ping_ok then (Some i, p) else (None, forget_tenant t (close_cell i p))
    else (None, forget_tenant t p)
  end.

Inductive reuse := Reused (i : nat) | ReuseClosed | ReuseNone.
Definition reuse_section (ping_ok : bool) (t : text) (p : Manager) : reuse * Manager :=
  match tryReuseOrEvictCachedConnectionLocked ping_ok t p with
  | (Some i, p) => (Reused i, p)
  | (None, p) => (if closed p then ReuseClosed else ReuseNone, p)
  end.

(** [cacheConnection]: the connection to use, or that the manager is closed. *)
Definition cacheConnection (now : gotime) (order : list (text * gotime)) (t : text) (i : nat) (p : Manager) : option nat * Manager :=
  if closed p then (None, close_if_connected i p)
  else match connections p !! t with
  | Some j =>
    if connected p j then (Some j, (close_if_connected i p) <| lastAccessed := <[t := now]> (lastAccessed p) |>)
    else let p := evictLRU now order p in
         (Some i, p <| connections := <[t := i]> (connections p) |> <| lastAccessed := <[t := now]> (lastAccessed p) |>)
  | None =>
    let p := evictLRU now order p in
    (Some i, p <| connections := <[t := i]> (connections p) |> <| lastAccessed := <[t := now]> (lastAccessed p) |>)
  end.

Definition hasPostgresConfigChanged (t freshPrimary freshReplica : text) (p : Manager) : bool :=
  match connections p !! t ≫= λ i, heap p !! i with
  | None => false
  | Some c =>
    if negb (eqt (ConnectionStringPrimary (conn c)) freshPrimary) then true
    else negb (eqt (normalizeReplicaConnStr (ConnectionStringReplica (conn c)) (ConnectionStringPrimary (conn c)))
                   (normalizeReplicaConnStr freshReplica freshPrimary))
  end.

(** The section of [canStorePostgresConnection], and that of
    [swapPostgresConnection], which is entered later. *)
Definition canStore_section (t : text) (p : Manager) : bool := (negb (closed p) && bool_decide (is_Some (connections p !! t)))%bool.
Definition swap_section (now : gotime) (t : text) (i : nat) (p : Manager) : option nat * Manager :=
  (connections p !! t, p <| connections := <[t := i]> (connections p) |> <| lastAccessed := <[t := now]> (lastAccessed p) |>).

Definition closeConnection_section (t : text) (p : Manager) : Manager :=
  match connections p !! t with
  | None => p
  | Some i => forget_tenant t (close_if_connected i p)
  end.

Definition close_section (p : Manager) : Manager :=
  foldl (λ p ti, forget_tenant ti.1 (close_if_connected ti.2 p)) (p <| closed := true |>) (map_to_list (connections p)).

(** What [ApplyConnectionSettings] reads. *)
Definition applyRead_section (t : text) (config : option TenantConfig) (p : Manager) : option (nat * appliedSettings * option appliedSettings) :=
  match connections p !! t with
  | None => None
  | Some i =>
    if negb (connected p i) then None
    else
      let s := resolveEffectiveSettings p config in
      let '(o, d) := clampPoolSettings p (s_maxOpenConns s) (s_maxIdleConns s) in
      Some (i, {| s_maxOpenConns := o; s_maxIdleConns := d; s_statementTimeout := s_statementTimeout s |}, lastAppliedSettings p !! t)
  end.

Record Stats := { TotalConnections : Z; ActiveConnections : Z; st_MaxConnections : Z; st_TenantIDs : list text; Closed : bool }.
Definition stats (now : gotime) (p : Manager) : Stats :=
  let d := if bool_decide (idleTimeout p = 0) then DefaultIdleTimeout else idleTimeout p in
  {| TotalConnections := Z.of_nat (size (connections p));
     ActiveConnections := Z.of_nat (length (List.filter (λ t, match lastAccessed p !! t with Some a => bool_decide (time_sub now a < d) | None => false end)
                                       (map_to_list (connections p)).*1));
     st_MaxConnections := maxConnections p; st_TenantIDs := (map_to_list (connections p)).*1; Closed := closed p |}.
Definition ConnectedTenantIDs (p : Manager) : list text := (map_to_list (connections p)).*1.

(** ** Programs *)

Inductive ctx_error := Canceled | DeadlineExceeded.
#[export] Instance ctx_error_eq_dec : EqDecision ctx_error.
Proof. solve_decision. Defined.

(** The context errors a ping error is, by [errors.Is]. *)
Record ping_error := { is_ctx_error : list ctx_error }.

Inductive config_error := Suspended (status : text) | NotFound | Unavailable.

Inductive cmd :=
| Lookup (t : text) | GateBegin (t : text) | GateEnd (t : text) (healthy : bool) | Await (channel : nat)
| Ping (i : nat) | CtxErr | TouchCached (t : text) (i : nat) | CloseUnhealthy (t : text) (i : nat) | ClosePool (i : nat)
| TryReuse (t : text) | GetTenantConfig (t : text) | Connect (c : PostgresConnection) | CacheConnection (t : text) (i : nat)
| HasChanged (t primary replica : text) | CanStore (t : text) | Swap (t : text) (i : nat)
| CloseTenant (t : text) | CloseAll
| ApplyRead (t : text) (config : option TenantConfig) | SetPool (i : nat) (setting : text) | StoreApplied (t : text) (s : appliedSettings)
| ReadManager.                             (* the fields that do not change *)

Definition answer (c : cmd) : Type :=
  match c with
  | Lookup _ => bool * option (nat * bool)
  | GateBegin _ => Action
  | Await _ | CtxErr => option ctx_error
  | Ping _ => option ping_error
  | TouchCached _ _ | HasChanged _ _ _ | CanStore _ => bool
  | TryReuse _ => reuse
  | GetTenantConfig _ => result config_error TenantConfig
  | Connect _ | CacheConnection _ _ | Swap _ _ => option nat
  | ApplyRead _ _ => option (nat * appliedSettings * option appliedSettings)
  | ReadManager => Manager
  | GateEnd _ _ | CloseUnhealthy _ _ | ClosePool _ | CloseTenant _ | CloseAll | SetPool _ _ | StoreApplied _ _ => unit
  end.

Definition prog := eff answer.
Definition ask (c : cmd) : prog (answer c) := perform c.

(** What the surroundings contribute to a command. *)
Record surroundings := {
  at_time : gotime; map_order : list (text * gotime); ctx_state : option ctx_error;
  ping_answer : option ping_error; config_answer : result config_error TenantConfig; connects : bool }.

Definition exec (l : surroundings) (c : cmd) (p : Manager) : answer c * Manager :=
  match c with
  | Lookup t => (lookup_section t p, p)
  | GateBegin t => let '(a, g) := Begin (healthGate p) t (at_time l) in (a, p <| healthGate := g |>)
  | GateEnd t healthy => (tt, p <| healthGate := (End_ (healthGate p) t healthy (at_time l)).2 |>)
  | Await _ | CtxErr => (ctx_state l, p)
  | Ping _ => (ping_answer l, p)
  | TouchCached t i => touch_section (at_time l) t i p
  | CloseUnhealthy t i => (tt, closeUnhealthy_section t i p)
  | ClosePool i => (tt, close_if_connected i p)
  | TryReuse t => reuse_section (bool_decide (ping_answer l = None)) t p
  | GetTenantConfig _ => (config_answer l, p)
  | Connect c => if connects l then (Some (length (heap p)), p <| heap := heap p ++ [{| conn := c <| ConnectionDB := true |>; is_open := true |}] |>)
                 else (None, p)
  | CacheConnection t i => cacheConnection (at_time l) (map_order l) t i p
  | HasChanged t primary replica => (hasPostgresConfigChanged t primary replica p, p)
  | CanStore t => (canStore_section t p, p)
  | Swap t i => swap_section (at_time l) t i p
  | CloseTenant t => (tt, closeConnection_section t p)
  | CloseAll => (tt, close_section p)
  | ApplyRead t config => (applyRead_section t config p, p)
  | SetPool _ _ => (tt, p)
  | StoreApplied t s => (tt, p <| lastAppliedSettings := <[t := s]> (lastAppliedSettings p) |>)
  | ReadManager => (p, p)
  end.

Inductive pool_error :=
| TenantIDRequired | ErrManagerClosed | ClientRequired | CallerDone (e : ctx_error) | PingAbandoned (e : ping_error)
| ConfigFailed (e : config_error) | ErrServiceNotConfigured | InvalidDSN (e : dsn_error) | InvalidReplicaDSN (e : dsn_error)
| SchemaRequired | ConnectFailed | StillWaiting.

(** [runHealthCheck]: the verdict is published last. *)
Definition runHealthCheck (t : text) (i : nat) : prog (bool * option ping_error) :=
  pingErr ← ask (Ping i);
  match pingErr with
  | None => _ ← ask (GateEnd t true); mret (true, None)
  | Some e =>
    ctxErr ← ask CtxErr;
    if CallerAbandoned ctxErr (λ c, bool_decide (c ∈ is_ctx_error e)) then _ ← ask (GateEnd t false); mret (false, Some e)
    else
      _ ← ask (CloseUnhealthy t i);
      _ ← ask (ClosePool i);
      _ ← ask (GateEnd t false);
      mret (false, None)
  end.

(** The connection a configuration describes, before [Connect]; the manager's own
    fields do not change after its construction. *)
Definition connection_of (p : Manager) (t : text) (config : TenantConfig) (pg : PostgreSQLConfig) (primary replica replicaDB : text) : PostgresConnection :=
  let '(maxOpen, maxIdle) := resolveConnectionPoolSettings p (Some config) in
  {| ConnectionStringPrimary := primary; ConnectionStringReplica := replica; PrimaryDBName := Database pg; ReplicaDBName := replicaDB;
     MaxOpenConnections := maxOpen; MaxIdleConnections := maxIdle; SkipMigrations := IsMultiTenant p; ConnectionDB := false; for_tenant := t |}.

Definition getPostgresConfigForTenant (p : Manager) (t : text) : prog (result pool_error (TenantConfig * PostgreSQLConfig)) :=
  config ← ask (GetTenantConfig t);
  mret (match config with
        | Err e => Err (ConfigFailed e)
        | Ok config =>
          match GetPostgreSQLConfig (Some config) (module p) with
          | None => Err ErrServiceNotConfigured
          | Some pg => Ok (config, pg)
          end
        end).

Definition buildTenantPostgresConnection (p : Manager) (t : text) (config : TenantConfig) (pg : PostgreSQLConfig) : prog (result pool_error nat) :=
  match BuildConnectionString (Some pg) [] with
  | Err e => mret (Err (InvalidDSN e))
  | Ok primary =>
    match resolveReplicaConnection p (Some config) with
    | Err e => mret (Err (InvalidReplicaDSN e))
    | Ok (replica, replicaDB) =>
      if (IsSchemaMode (Some config) && is_empty (Schema pg))%bool then mret (Err SchemaRequired)
      else
        i ← ask (Connect (connection_of p t config pg primary replica replicaDB));
        mret (match i with None => Err ConnectFailed | Some i => Ok i end)
    end
  end.

Definition createConnection (p : Manager) (t : text) : prog (result pool_error nat) :=
  if negb (client p) then mret (Err ClientRequired)
  else
    r ← ask (TryReuse t);
    match r with
    | Reused i => mret (Ok i)
    | ReuseClosed => mret (Err ErrManagerClosed)
    | ReuseNone =>
      found ← getPostgresConfigForTenant p t;
      match found with
      | Err e => mret (Err e)
      | Ok (config, pg) =>
        built ← buildTenantPostgresConnection p t config pg;
        match built with
        | Err e => mret (Err e)
        | Ok i =>
          j ← ask (CacheConnection t i);
          mret (match j with None => Err ErrManagerClosed | Some j => Ok j end)
        end
      end
    end.

(** A caller that only ever waits for the checks of others gives up when the fuel is
    used up; the code goes on. *)
Fixpoint get_loop (fuel : nat) (p : Manager) (t : text) : prog (result pool_error nat) :=
  found ← ask (Lookup t);
  let '(closed, cached) := (found : bool * option (nat * bool)) in
  if closed then mret (Err ErrManagerClosed)
  else match cached with
  | None => createConnection p t
  | Some (i, connected) =>
    let use := touched ← ask (TouchCached t i); if negb touched then createConnection p t else mret (Ok i) in
    if negb connected then use
    else
      action ← ask (GateBegin t);
      match action with
      | Wait channel =>
        err ← ask (Await channel);
        match err, fuel with
        | Some e, _ => mret (Err (CallerDone e))
        | None, S fuel => get_loop fuel p t
        | None, O => mret (Err StillWaiting)
        end
      | Run =>
        r ← runHealthCheck t i;
        match r with
        | (_, Some e) => mret (Err (PingAbandoned e))
        | (false, None) => createConnection p t
        | (true, None) => use
        end
      | Skip => use
      end
  end.

Definition GetConnection (fuel : nat) (t : text) : prog (result pool_error nat) :=
  if is_empty t then mret (Err TenantIDRequired) else p ← ask ReadManager; get_loop fuel p t.

(** *** Revalidation *)

Definition ApplyConnectionSettings (t : text) (config : option TenantConfig) : prog unit :=
  r ← ask (ApplyRead t config);
  match r with
  | None => mret tt
  | Some (i, new, prev) =>
    let changed {X} `{EqDecision X} (f : appliedSettings → X) := match prev with None => true | Some prev => negb (bool_decide (f new = f prev)) end in
    if match prev with Some prev => bool_decide (new = prev) | None => false end then mret tt
    else
      _ ← (if changed s_maxOpenConns then ask (SetPool i (txt "max_open")) else mret tt);
      _ ← (if changed s_maxIdleConns then ask (SetPool i (txt "max_idle")) else mret tt);
      _ ← (if (negb (is_empty (s_statementTimeout new)) && changed s_statementTimeout && validStatementTimeout (s_statementTimeout new))%bool
           then ask (SetPool i (txt "statement_timeout")) else mret tt);
      ask (StoreApplied t new)
  end.

Definition reconnectPostgres (p : Manager) (t : text) (config : TenantConfig) (pg : PostgreSQLConfig) (fresh : text) : prog unit :=
  match resolveReplicaConnection p (Some config) with
  | Err _ => mret tt
  | Ok (replica, replicaDB) =>
    new ← ask (Connect (connection_of p t config pg fresh replica replicaDB));
    match new with
    | None => mret tt
    | Some i =>
      can ← ask (CanStore t);
      if negb can then ask (ClosePool i)
      else
        old ← ask (Swap t i);
        match old with None => mret tt | Some old => ask (ClosePool old) end
    end
  end.

(** Whether a reconnection was attempted. *)
Definition detectAndReconnectPostgres (p : Manager) (t : text) (config : TenantConfig) : prog bool :=
  match GetPostgreSQLConfig (Some config) (module p) with
  | None => mret false
  | Some pg =>
    match BuildConnectionString (Some pg) [], freshReplicaConnStr p (Some config) with
    | Ok fresh, Ok freshReplica =>
      changed ← ask (HasChanged t fresh freshReplica);
      if negb changed then mret false else _ ← reconnectPostgres p t config pg fresh; mret true
    | _, _ => mret false
    end
  end.

Definition revalidatePoolSettings (t : text) : prog unit :=
  p ← ask ReadManager;
  config ← ask (GetTenantConfig t);
  match config with
  | Err (Suspended _) => ask (CloseTenant t)
  | Err _ => mret tt
  | Ok config =>
    reconnected ← detectAndReconnectPostgres p t config;
    if (reconnected : bool) then mret tt else ApplyConnectionSettings t (Some config)
  end.

Definition CloseConnection (t : text) : prog unit := ask (CloseTenant t).
Definition Close : prog unit := ask CloseAll.
