(* ===== verification/TenantPoolSafety.v ===== *)
(** What the connection pools of the tenants keep to, under every interleaving of
    calls and revalidations. *)

From stdpp Require Import base numbers list strings gmap.
From S2P Require Import Prelude GoText GoUrl Effects TenantCore TenantPool.

Local Open Scope Z_scope.
Local Open Scope go_scope.

Implicit Types (p : Manager) (t : text) (i j : nat) (tr : list (event answer)) (H : list cell).

(** ** The heap grows and connections do not change *)

Definition owner H i : option text := (λ c, for_tenant (conn c)) <$> H !! i.
Definition open H i : Prop := ∃ c, H !! i = Some c ∧ is_open c = true.

Definition heap_le H H' : Prop := ∀ i c, H !! i = Some c → ∃ c', H' !! i = Some c' ∧ conn c' = conn c ∧ (is_open c' = true → is_open c = true).

#[export] Instance heap_le_preorder : PreOrder heap_le.
Proof.
  split; [by intros H i c Hc; exists c|]. intros H1 H2 H3 H12 H23 i c Hc. destruct (H12 i c Hc) as (c2 & Hc2 & E2 & O2).
  destruct (H23 i c2 Hc2) as (c3 & Hc3 & E3 & O3). exists c3. split_and!; [done|congruence|auto].
Qed.

Lemma heap_le_owner H H' i t : heap_le H H' → owner H i = Some t → owner H' i = Some t.
Proof. intros Hle (c & Hc & ->)%fmap_Some. destruct (Hle i c Hc) as (c' & Hc' & E & _). unfold owner. rewrite Hc'. simpl. by rewrite E. Qed.

Lemma close_cell_le p i : heap_le (heap p) (heap (close_cell i p)).
Proof.
  intros j c Hc. cbn. destruct (decide (i = j)) as [<-|Hne].
  - rewrite list_lookup_alter_eq, Hc. simpl. eexists. done.
  - rewrite list_lookup_alter_ne by done. by exists c.
Qed.

Lemma close_cell_closed p i : ¬ open (heap (close_cell i p)) i.
Proof. intros (c & Hc & Ho). cbn in Hc. rewrite list_lookup_alter_eq in Hc. apply fmap_Some in Hc as (c' & _ & ->). done. Qed.

Lemma open_le H H' i : heap_le H H' → open H' i → (i < length H)%nat → open H i.
Proof.
  intros Hle (c' & Hc' & Ho) Hi. apply lookup_lt_is_Some in Hi as [c Hc]. destruct (Hle i c Hc) as (c2 & Hc2 & _ & Ho2).
  exists c. split; [done|]. apply Ho2. congruence.
Qed.

(** ** The manager *)

(** Every connection of the heap went through [Connect], and every tenant's entry is
    a connection of that tenant. *)
Record mgr_ok p : Prop := {
  ok_connected : ∀ i c, heap p !! i = Some c → ConnectionDB (conn c) = true;
  ok_owner : ∀ t i, connections p !! t = Some i → owner (heap p) i = Some t }.

(** A change of the manager that keeps it well formed, adds no connection to the
    cache, and closes every connection it drops, but for [keep]. *)
Record tidy (keep : list nat) p p' : Prop := {
  tidy_ok : mgr_ok p → mgr_ok p';
  tidy_heap : heap_le (heap p) (heap p');
  tidy_length : length (heap p') = length (heap p);
  tidy_sub : ∀ t i, connections p' !! t = Some i → connections p !! t = Some i;
  tidy_drop : mgr_ok p → ∀ t i, connections p !! t = Some i → open (heap p') i → connections p' !! t = Some i ∨ i ∈ keep }.

#[export] Instance tidy_refl keep : Reflexive (tidy keep).
Proof. intros p. split; [done|done|done|done|by left]. Qed.

Lemma tidy_trans keep p1 p2 p3 : tidy keep p1 p2 → tidy keep p2 p3 → tidy keep p1 p3.
Proof.
  intros [H1 H2 H3 H4 H5] [J1 J2 J3 J4 J5]. split; [auto|by etrans|congruence|auto|].
  intros Hok t i Hc Ho. assert (Hi : (i < length (heap p2))%nat).
  { pose proof (ok_owner p1 Hok t i Hc) as (c & Hc' & _)%fmap_Some. rewrite H3. by eapply lookup_lt_Some. }
  destruct (H5 Hok t i Hc (open_le _ _ _ J2 Ho Hi)) as [Hc2|Hk]; [|by right]. by apply J5; auto.
Qed.

(** A change of nothing but the bookkeeping. *)
Lemma tidy_same keep p p' : connections p' = connections p → heap p' = heap p → tidy keep p p'.
Proof.
  intros E1 E2. split; rewrite ?E1, ?E2; [|done|done|done|by left]. intros [H1 H2]. split; rewrite ?E1, ?E2; done.
Qed.

Lemma tidy_close keep p i : tidy keep p (close_cell i p).
Proof.
  split; [|apply close_cell_le|by cbn; rewrite length_alter|done|by left]. intros [H1 H2]. split.
  - intros j c Hc. cbn in Hc. destruct (decide (i = j)) as [<-|Hne].
    + rewrite list_lookup_alter_eq in Hc. apply fmap_Some in Hc as (c' & Hc' & ->). cbn. by apply (H1 i c').
    + rewrite list_lookup_alter_ne in Hc by done. by apply (H1 j).
  - intros t j Hj. eapply heap_le_owner; [apply close_cell_le|]. by apply H2.
Qed.

Lemma tidy_close_if keep p i : tidy keep p (close_if_connected i p).
Proof. unfold close_if_connected. destruct (connected p i); [apply tidy_close|done]. Qed.

(** Dropping a tenant whose connection has been closed, or is kept. *)
Lemma tidy_forget keep p t i : connections p !! t = Some i → ¬ open (heap p) i ∨ i ∈ keep → tidy keep p (forget_tenant t p).
Proof.
  intros Ht Hi. split; [|done|done|..].
  - intros [H1 H2]. split; [done|]. intros t' j Hj. cbn in Hj. apply lookup_delete_Some in Hj as [_ Hj]. by apply H2.
  - intros t' j Hj. cbn in Hj. by apply lookup_delete_Some in Hj as [_ Hj].
  - intros Hok t' j Hj Ho. cbn in *. destruct (decide (t = t')) as [<-|Hne].
    + rewrite Ht in Hj. injection Hj as <-. destruct Hi as [Hi|Hi]; [done|by right].
    + left. by rewrite lookup_delete_ne.
Qed.

Lemma connected_ok p t i : mgr_ok p → connections p !! t = Some i → connected p i = true.
Proof.
  intros Hok Hc. pose proof (ok_owner p Hok t i Hc) as (c & Hc' & _)%fmap_Some. unfold connected. rewrite Hc'. by eapply ok_connected.
Qed.

Lemma tidy_drop_tenant keep p t i : mgr_ok p → connections p !! t = Some i → tidy keep p (forget_tenant t (close_if_connected i p)).
Proof.
  intros Hok Ht. eapply tidy_trans; [apply tidy_close_if|]. unfold close_if_connected. rewrite (connected_ok p t i Hok Ht).
  eapply tidy_forget; [exact Ht|]. left. apply close_cell_closed.
Qed.

Lemma tidy_evict keep now order p : mgr_ok p → tidy keep p (evictLRU now order p).
Proof.
  intros Hok. unfold evictLRU. destruct (FindLRUEvictionCandidate _ _ _ _ _) as [t|]; [|done].
  destruct (connections p !! t) as [i|] eqn:E; [by apply tidy_drop_tenant|done].
Qed.

Lemma tidy_closeAll keep p : mgr_ok p → tidy keep p (close_section p).
Proof.
  intros Hok. unfold close_section. set (p0 := p <| closed := true |>).
  assert (H0 : tidy keep p p0) by (by apply tidy_same). eapply tidy_trans; [exact H0|].
  assert (Hok0 : mgr_ok p0) by (by apply H0). clear H0.
  assert (Hl : ∀ ti, ti ∈ map_to_list (connections p) → connections p0 !! ti.1 = Some ti.2).
  { intros [t i] Hti. by apply elem_of_map_to_list in Hti. }
  pose proof (NoDup_fst_map_to_list (connections p)) as Hnd. revert Hl Hnd. generalize (map_to_list (connections p)) as l.
  clearbody p0. clear p Hok. intros l. revert p0 Hok0. induction l as [|[t i] l IH]; intros p Hok Hl Hnd; [done|].
  apply NoDup_cons in Hnd as [Hnin Hnd]. simpl. assert (Hs : tidy keep p (forget_tenant t (close_if_connected i p))).
  { apply tidy_drop_tenant; [done|]. apply (Hl (t, i)). by left. }
  eapply tidy_trans; [exact Hs|]. apply IH; [by apply Hs| |done]. intros [t' i'] Hin. cbn.
  assert (t ≠ t') by (intros <-; apply Hnin; by apply (list_elem_of_fmap_2 fst) in Hin).
  rewrite lookup_delete_ne by done. unfold close_if_connected. specialize (Hl (t', i')). destruct (connected p i); cbn; apply Hl; by right.
Qed.

(** ** Commands *)

(** The connections a caller has in its hands: those it opened and has not handed
    over, and those it took out of the cache and has not closed. *)
Definition hand (S : gset nat) (e : event answer) : gset nat :=
  match e with
  | Ev (Connect _) (Some i) => {[i]} ∪ S
  | Ev (CacheConnection _ i) _ => S ∖ {[i]}
  | Ev (Swap _ i) (Some old) => {[old]} ∪ S ∖ {[i]}
  | Ev (Swap _ i) None => S ∖ {[i]}
  | Ev (CloseUnhealthy _ i) _ => {[i]} ∪ S
  | Ev (ClosePool i) _ => S ∖ {[i]}
  | _ => S
  end.
Definition in_hands tr : gset nat := foldl hand ∅ tr.

(** Where a command puts a connection, it is one of the tenant. *)
Definition own_cmd H (c : cmd) : Prop :=
  match c with CacheConnection t i | Swap t i => owner H i = Some t | _ => True end.

(** What an answer says of the heap. *)
Definition event_ok H (e : event answer) : Prop :=
  match e with
  | Ev (Lookup t) (_, Some (i, _)) => owner H i = Some t
  | Ev (TryReuse t) (Reused i) => owner H i = Some t
  | Ev (CacheConnection t _) (Some i) => owner H i = Some t
  | Ev (Connect c) (Some i) => owner H i = Some (for_tenant c)
  | _ => True
  end.

Definition cached p i : Prop := ∃ t, connections p !! t = Some i.

(** The step of one command: nothing open gets out of sight. *)
Record good_step (S S' : gset nat) p p' : Prop := {
  gs_ok : mgr_ok p';
  gs_heap : heap_le (heap p) (heap p');
  gs_account : ∀ i, open (heap p') i → i ∈ S ∨ cached p i ∨ (length (heap p) ≤ i)%nat → cached p' i ∨ i ∈ S' }.

Lemma good_tidy keep S S' p p' : mgr_ok p → tidy keep p p' → (∀ i, i ∈ S → open (heap p') i → i ∈ S' ∨ cached p' i) →
  (∀ i, i ∈ keep → i ∈ S') → good_step S S' p p'.
Proof.
  intros Hok Ht HS Hk. split; [by apply Ht|by apply Ht|]. intros i Ho [Hi|[[t Hi]|Hi]].
  - destruct (HS i Hi Ho); auto.
  - destruct (tidy_drop _ _ _ Ht Hok t i Hi Ho) as [Hc|Hin]; [left; by exists t|right; auto].
  - exfalso. destruct Ho as (c & Hc & _). apply lookup_lt_Some in Hc. rewrite (tidy_length _ _ _ Ht) in Hc. lia.
Qed.

Lemma good_same S p p' : mgr_ok p → connections p' = connections p → heap p' = heap p → good_step S S p p'.
Proof. intros Hok E1 E2. apply (good_tidy []); [done|by apply tidy_same|auto|by intros i ?%elem_of_nil]. Qed.

Lemma owner_le_tidy keep p p' i t : tidy keep p p' → owner (heap p) i = Some t → owner (heap p') i = Some t.
Proof. intros Ht. apply heap_le_owner, Ht. Qed.

(** Putting a connection of the tenant in the tenant's place; what was there is
    closed, or in hand. *)
Lemma good_insert S S' p now t i : mgr_ok p → owner (heap p) i = Some t →
  (∀ j, connections p !! t = Some j → j ∈ S' ∨ j = i) → (∀ j, j ∈ S → j ≠ i → j ∈ S') →
  good_step S S' p (p <| connections := <[t := i]> (connections p) |> <| lastAccessed := <[t := now]> (lastAccessed p) |>).
Proof.
  intros Hok Hi Hold HS. assert (Hins : cached (p <| connections := <[t := i]> (connections p) |> <| lastAccessed := <[t := now]> (lastAccessed p) |>) i)
    by (exists t; cbn; by rewrite lookup_insert_eq).
  split; [|done|].
  - destruct Hok as [H1 H2]. split; [done|]. intros t' j Hj. cbn in Hj. apply lookup_insert_Some in Hj as [[<- <-]|[_ Hj]]; [done|]. by apply H2.
  - intros j Ho [Hj|[[t' Hj]|Hj]].
    + destruct (decide (j = i)) as [->|Hne]; [by left|right; auto].
    + destruct (decide (t = t')) as [<-|Hne].
      * destruct (Hold j Hj) as [?| ->]; [by right|by left].
      * left. exists t'. cbn. by rewrite lookup_insert_ne.
    + exfalso. destruct Ho as (c & Hc & _). apply lookup_lt_Some in Hc. cbn in Hc. lia.
Qed.

Lemma good_trans S1 S2 p1 p2 p3 keep : mgr_ok p1 → tidy keep p1 p2 → (∀ i, i ∈ keep → False) → good_step S1 S2 p2 p3 → good_step S1 S2 p1 p3.
Proof.
  intros Hok Ht Hk [G1 G2 G3]. split; [done|by etrans; [apply Ht|]|]. intros i Ho Hi. apply G3; [done|].
  rewrite (tidy_length _ _ _ Ht). destruct Hi as [Hi|[[t Hi]|Hi]]; [by left| |by right; right]. right. left.
  assert (Hlt : (i < length (heap p2))%nat).
  { rewrite (tidy_length _ _ _ Ht). pose proof (ok_owner p1 Hok t i Hi) as (c & Hc & _)%fmap_Some. by eapply lookup_lt_Some. }
  destruct (tidy_drop _ _ _ Ht Hok t i Hi (open_le _ _ _ G2 Ho Hlt)) as [Hc|Hc]; [by exists t|by apply Hk in Hc].
Qed.

Lemma good_cache S now order t i p : mgr_ok p → owner (heap p) i = Some t →
  let '(r, p') := cacheConnection now order t i p in
  good_step S (S ∖ {[i]}) p p' ∧ match r with Some j => owner (heap p') j = Some t | None => True end.
Proof.
  intros Hok Hi. assert (Hcon : connected p i = true).
  { pose proof Hi as (c & Hc & _)%fmap_Some. unfold connected. rewrite Hc. by eapply ok_connected. }
  assert (Hclose : ∀ f, tidy [] p (f (close_cell i p)) → heap (f (close_cell i p)) = heap (close_cell i p) →
            good_step S (S ∖ {[i]}) p (f (close_cell i p))).
  { intros f Ht Eh. apply (good_tidy []); [done|done| |by intros j ?%elem_of_nil]. intros j Hj Ho. left.
    apply elem_of_difference. split; [done|]. intros ->%elem_of_singleton. rewrite Eh in Ho. by apply close_cell_closed in Ho. }
  unfold cacheConnection, close_if_connected. rewrite Hcon. destruct (closed p).
  { split; [|done]. apply (Hclose (λ p, p)); [apply tidy_close|done]. }
  destruct (connections p !! t) as [j|] eqn:Ej.
  - rewrite (connected_ok p t j Hok Ej). split.
    + apply (Hclose (λ p', p' <| lastAccessed := <[t := now]> (lastAccessed p) |>)); [|done].
      eapply tidy_trans; [apply (tidy_close [] p i)|by apply tidy_same].
    + eapply heap_le_owner; [apply close_cell_le|]. by apply (ok_owner p Hok).
  - pose proof (tidy_evict [] now order p Hok) as Ht. pose proof (owner_le_tidy _ _ _ _ _ Ht Hi) as Hi'. split; [|done].
    eapply good_trans; [done|exact Ht|by intros j ?%elem_of_nil|]. apply good_insert; [by apply Ht|done| |].
    + intros j Hj. apply (tidy_sub _ _ _ Ht) in Hj. congruence.
    + intros j Hj Hne. set_solver.
Qed.

Lemma exec_good l c p S : mgr_ok p → own_cmd (heap p) c →
  good_step S (hand S (Ev c (exec l c p).1)) p (exec l c p).2 ∧ event_ok (heap (exec l c p).2) (Ev c (exec l c p).1).
Proof.
  intros Hok Hown. destruct c as [t|t|t healthy|ch|i| |t i|t i|i|t|t|c|t i|t pr rp|t|t i|t| |t config|i st|t s|];
    cbn [exec]; try (split; [by apply good_same|done]).
  - split; [by apply good_same|]. cbn. unfold lookup_section. destruct (closed p); [done|].
    destruct (connections p !! t) as [i|] eqn:E; [|done]. cbn. by apply (ok_owner p Hok).
  - destruct (Begin (healthGate p) t (at_time l)) as [a g]. split; [by apply good_same|done].
  - unfold touch_section. destruct (negb _); [split; [by apply good_same|done]|].
    destruct (client _ && _ && _)%bool; (split; [by apply good_same|done]).
  - split; [|done]. cbn. unfold closeUnhealthy_section, cached_as. case_bool_decide as E.
    + apply (good_tidy [i]); [done| | |].
      * eapply tidy_forget; [exact E|]. right. by left.
      * intros j Hj _. left. set_solver.
      * intros j ->%list_elem_of_singleton. set_solver.
    + apply (good_tidy []); [done|done|intros j Hj _; left; set_solver|by intros j ?%elem_of_nil].
  - split; [|done]. cbn. apply (good_tidy []); [done|apply tidy_close_if| |by intros j ?%elem_of_nil].
    intros j Hj Ho. left. apply elem_of_difference. split; [done|]. intros ->%elem_of_singleton.
    unfold close_if_connected in Ho. destruct (connected p i) eqn:Ec; [by apply close_cell_closed in Ho|].
    destruct Ho as (c & Hc & _). unfold connected in Ec. rewrite Hc in Ec. by rewrite (ok_connected p Hok i c Hc) in Ec.
  - unfold reuse_section, tryReuseOrEvictCachedConnectionLocked. destruct (connections p !! t) as [i|] eqn:E.
    2:{ split; [by apply good_same|]. by destruct (closed p). }
    rewrite (connected_ok p t i Hok E). case_bool_decide.
    + split; [by apply good_same|]. cbn. by apply (ok_owner p Hok).
    + cbn [fst snd]. split; [|by destruct (closed _)]. apply (good_tidy []); [done| |by intros j Hj _; left; destruct (closed _)|by intros j ?%elem_of_nil].
      pose proof (tidy_drop_tenant [] p t i Hok E) as Ht. unfold close_if_connected in Ht. by rewrite (connected_ok p t i Hok E) in Ht.
  - destruct (connects l); [|split; [by apply good_same|done]]. cbn [fst snd hand event_ok].
    assert (Hle : heap_le (heap p) (heap p ++ [{| conn := c <| ConnectionDB := true |>; is_open := true |}])).
    { intros i c' Hc'. exists c'. by rewrite lookup_app_l by (by eapply lookup_lt_Some). }
    split.
    + split; [|done|].
      * split; cbn.
        -- intros i c' Hc'. apply lookup_app_Some in Hc' as [Hc'|[_ Hc']]; [by eapply ok_connected|].
           apply list_lookup_singleton_Some in Hc' as [_ <-]. done.
        -- intros t i Hi. eapply heap_le_owner; [exact Hle|]. by apply (ok_owner p Hok).
      * intros i Ho [Hi|[Hi|Hi]]; [right; set_solver|by left|]. right. destruct Ho as (c' & Hc' & _). apply lookup_lt_Some in Hc'.
        cbn in Hc'. rewrite length_app in Hc'. simpl in Hc'. assert (i = length (heap p)) as -> by lia. set_solver.
    + cbn. unfold owner. by rewrite list_lookup_middle.
  - pose proof (good_cache S (at_time l) (map_order l) t i p Hok Hown) as Hc. destruct (cacheConnection _ _ t i p) as [r p']. done.
  - cbn [fst snd]. unfold swap_section. cbn [fst snd]. split; [|by destruct (connections p !! t)].
    destruct (connections p !! t) as [old|] eqn:E; apply good_insert; try done; try congruence.
    + intros j Hj. left. set_solver.
    + intros j Hj Hne. set_solver.
    + intros j Hj Hne. set_solver.
  - split; [|done]. cbn. unfold closeConnection_section. destruct (connections p !! t) as [i|] eqn:E; [|by apply good_same].
    apply (good_tidy []); [done|by apply tidy_drop_tenant|auto|by intros j ?%elem_of_nil].
  - split; [|done]. cbn. apply (good_tidy []); [done|by apply tidy_closeAll|auto|by intros j ?%elem_of_nil].
Qed.

Lemma event_ok_le H H' e : heap_le H H' → event_ok H e → event_ok H' e.
Proof.
  intros Hle. destruct e as [c x]; destruct c; cbn; try done; repeat case_match; try done; by apply heap_le_owner.
Qed.

(** ** Programs *)

(** The connection is described by a configuration that the tenant manager gave for
    its tenant. *)
Definition described (m : text) tr (c : PostgresConnection) : Prop :=
  ∃ config pg, Ev (GetTenantConfig (for_tenant c)) (Ok config) ∈ tr ∧
    GetPostgreSQLConfig (Some config) m = Some pg ∧ BuildConnectionString (Some pg) [] = Ok (ConnectionStringPrimary c).

(** What the programs promise of their commands. *)
Definition promised tr (c : cmd) : Prop :=
  match c with
  | CacheConnection t i | Swap t i => ∃ c', for_tenant c' = t ∧ Ev (Connect c') (Some i) ∈ tr
  | Connect c => ∃ p0, Ev ReadManager p0 ∈ tr ∧ described (module p0) tr c
  | _ => True
  end.

(** The result of [GetConnection] is what the manager answered for the tenant. *)
Definition produced t j tr : Prop :=
  (∃ b x, Ev (Lookup t) (b, Some (j, x)) ∈ tr) ∨ Ev (TryReuse t) (Reused j) ∈ tr ∨ ∃ i, Ev (CacheConnection t i) (Some j) ∈ tr.

Abbreviation keeping := (keeps promised).

Lemma in_hands_snoc tr e : in_hands (tr ++ [e]) = hand (in_hands tr) e.
Proof. unfold in_hands. by rewrite foldl_app. Qed.

Lemma in_snoc (e e' : event answer) tr : e ∈ tr → e ∈ tr ++ [e'].
Proof. rewrite elem_of_app. auto. Qed.
Lemma in_last (e : event answer) tr : e ∈ tr ++ [e].
Proof. rewrite elem_of_app. right. by left. Qed.
#[local] Hint Resolve in_snoc in_last : core.

Lemma described_snoc m tr e c : described m tr c → described m (tr ++ [e]) c.
Proof. intros (config & pg & H1 & H2). exists config, pg. auto. Qed.

(** Nothing in hand, and the manager has been read. *)
Definition idle_hands (S : gset nat) p0 tr : Prop := in_hands tr = S ∧ Ev ReadManager p0 ∈ tr.

Lemma idle_snoc S S' p0 tr e : hand S e = S' → idle_hands S p0 tr → idle_hands S' p0 (tr ++ [e]).
Proof. intros <- [E Hin]. split; [by rewrite in_hands_snoc, E|auto]. Qed.

(** The same, and an event seen before. *)
Definition idle_seen (S : gset nat) p0 (e0 : event answer) tr : Prop := idle_hands S p0 tr ∧ e0 ∈ tr.

Lemma seen_snoc S S' p0 e0 tr e : hand S e = S' → idle_seen S p0 e0 tr → idle_seen S' p0 e0 (tr ++ [e]).
Proof. intros E [Hi Hin]. split; [by eapply idle_snoc|auto]. Qed.

Local Ltac ask_quietly S p0 e0 :=
  apply (keeps_ask _ _ (λ _, idle_seen S p0 e0)); [done|intros x tr; apply seen_snoc; simpl; set_solver|].

Lemma runHealthCheck_keeps p0 e0 t i : keeping (idle_seen ∅ p0 e0) (runHealthCheck t i) (λ _, idle_seen ∅ p0 e0).
Proof.
  unfold runHealthCheck. ask_quietly (∅ : gset nat) p0 e0. intros [e|].
  - ask_quietly (∅ : gset nat) p0 e0. intros ctx. destruct (CallerAbandoned _ _).
    + ask_quietly (∅ : gset nat) p0 e0. intros _. by apply keeps_ret.
    + ask_quietly ({[i]} : gset nat) p0 e0. intros _. ask_quietly (∅ : gset nat) p0 e0. intros _.
      ask_quietly (∅ : gset nat) p0 e0. intros _. by apply keeps_ret.
  - ask_quietly (∅ : gset nat) p0 e0. intros _. by apply keeps_ret.
Qed.

Definition built t i tr : Prop := ∃ c, for_tenant c = t ∧ Ev (Connect c) (Some i) ∈ tr.

Lemma connect_keeps {X} p0 t config pg primary replica db (k : option nat → prog X) Φ :
  GetPostgreSQLConfig (Some config) (module p0) = Some pg → BuildConnectionString (Some pg) [] = Ok primary →
  keeping (idle_hands ∅ p0) (k None) Φ → (∀ i, keeping (λ tr, idle_hands {[i]} p0 tr ∧ built t i tr) (k (Some i)) Φ) →
  keeping (λ tr, idle_hands ∅ p0 tr ∧ Ev (GetTenantConfig t) (Ok config) ∈ tr) (ask (Connect (connection_of p0 t config pg primary replica db)) ≫= k) Φ.
Proof.
  intros Hpg Hdsn Hn Hs. set (c := connection_of p0 t config pg primary replica db).
  assert (Hc : for_tenant c = t ∧ ConnectionStringPrimary c = primary) by (unfold c, connection_of; by destruct (resolveConnectionPoolSettings _ _)).
  destruct Hc as [Ht Hp].
  apply (keeps_ask (Connect c) _ (λ (x : option nat) tr, match x with None => idle_hands ∅ p0 tr | Some i => idle_hands {[i]} p0 tr ∧ built t i tr end)).
  - intros tr [[_ Hr] Hin]. exists p0. split; [done|]. exists config, pg. by rewrite Ht, Hp.
  - intros [i|] tr [Hi Hin]; [|by eapply idle_snoc]. split; [eapply idle_snoc; [|exact Hi]; simpl; set_solver|]. exists c. auto.
  - intros [i|]; [apply Hs|apply Hn].
Qed.

Lemma createConnection_keeps p0 t : keeping (idle_hands ∅ p0) (createConnection p0 t)
  (λ r tr, idle_hands ∅ p0 tr ∧ match r with Ok j => produced t j tr | Err _ => True end).
Proof.
  unfold createConnection. destruct (negb (client p0)); [by apply keeps_ret|].
  apply (keeps_ask (TryReuse t) _ (λ x tr, idle_hands ∅ p0 tr ∧ Ev (TryReuse t) x ∈ tr)); [done|intros x tr Hi; split; [by eapply idle_snoc|auto]|].
  intros [i| |]; [apply keeps_ret; intros tr [Hi Hin]; split; [done|right; by left]|apply keeps_ret; by intros tr []|].
  apply (keeps_bind _ _ (λ r tr, match r with
    | Ok (config, pg) => GetPostgreSQLConfig (Some config) (module p0) = Some pg ∧ idle_hands ∅ p0 tr ∧ Ev (GetTenantConfig t) (Ok config) ∈ tr
    | Err _ => idle_hands ∅ p0 tr end)).
  { apply (keeps_ask (GetTenantConfig t) _ (λ x tr, idle_hands ∅ p0 tr ∧ Ev (GetTenantConfig t) x ∈ tr)); [done|intros x tr [Hi _]; split; [by eapply idle_snoc|auto]|].
    intros [config|e]; apply keeps_ret; intros tr [Hi Hin]; [|done]. by destruct (GetPostgreSQLConfig (Some config) (module p0)) eqn:E. }
  intros [[config pg]|e]; [|by apply keeps_ret]. cbn beta iota. apply keeps_pure. intros Epg.
  apply (keeps_bind _ _ (λ r tr, match r with Ok i => idle_hands {[i]} p0 tr ∧ built t i tr | Err _ => idle_hands ∅ p0 tr end)).
  - unfold buildTenantPostgresConnection. destruct (BuildConnectionString (Some pg) []) as [primary|e] eqn:Ed; [|apply keeps_ret; by intros tr []].
    destruct (resolveReplicaConnection p0 (Some config)) as [[replica db]|e]; [|apply keeps_ret; by intros tr []].
    destruct (IsSchemaMode _ && _)%bool; [apply keeps_ret; by intros tr []|].
    apply connect_keeps; [done|done|by apply keeps_ret|intros i; by apply keeps_ret].
  - intros [i|e]; [|by apply keeps_ret].
    apply (keeps_ask (CacheConnection t i) _ (λ x tr, idle_hands ∅ p0 tr ∧ ∃ i, Ev (CacheConnection t i) x ∈ tr)).
    + by intros tr [_ Hb].
    + intros x tr [Hi _]. split; [eapply idle_snoc; [|exact Hi]; simpl; set_solver|]. exists i. auto.
    + intros [j|]; apply keeps_ret; [|by intros tr []]. intros tr [Hi [i' Hin]]. split; [done|]. right. right. by exists i'.
Qed.

(** What a call of [GetConnection] for [t] leaves. *)
Definition got p0 t (r : result pool_error nat) tr : Prop := idle_hands ∅ p0 tr ∧ match r with Ok j => produced t j tr | Err _ => True end.

Lemma create_after_seen p0 e0 t : keeping (idle_seen ∅ p0 e0) (createConnection p0 t) (got p0 t).
Proof. eapply keeps_pre; [|apply createConnection_keeps]. by intros tr []. Qed.

Definition looked t i con : event answer := Ev (Lookup t) (false, Some (i, con)).

Lemma use_keeps p0 t i con : keeping (idle_seen ∅ p0 (looked t i con))
  (touched ← ask (TouchCached t i); if negb touched then createConnection p0 t else mret (Ok i)) (got p0 t).
Proof.
  ask_quietly (∅ : gset nat) p0 (looked t i con). intros []; [|apply create_after_seen].
  apply keeps_ret. intros tr [Hi Hin]. split; [done|]. left. eauto.
Qed.

Lemma get_loop_keeps fuel p0 t : keeping (idle_hands ∅ p0) (get_loop fuel p0 t) (got p0 t).
Proof.
  induction fuel as [|fuel IH]; cbn [get_loop];
    (apply (keeps_ask (Lookup t) _ (λ x, idle_seen ∅ p0 (Ev (Lookup t) x))); [done|intros x tr Hi; split; [by eapply idle_snoc|auto]|]);
    intros [b found]; (destruct b; [apply keeps_ret; by intros tr []|]); (destruct found as [[i con]|]; [|apply create_after_seen]);
    change (Ev (Lookup t) (false, Some (i, con)) : event answer) with (looked t i con); set (e0 := looked t i con); (destruct (negb con); [apply use_keeps|]);
    ask_quietly (∅ : gset nat) p0 e0; intros [| |ch]; try apply use_keeps.
  all: try (eapply keeps_bind; [apply runHealthCheck_keeps|]; intros [[] [e|]]; try (apply keeps_ret; by intros tr []); [apply use_keeps|apply create_after_seen]).
  all: ask_quietly (∅ : gset nat) p0 e0; intros [e|]; try (apply keeps_ret; by intros tr []).
  eapply keeps_pre; [|exact IH]. by intros tr [].
Qed.

(** A monotone condition on traces that start with nothing in hand. *)
Definition empty_hands tr : Prop := in_hands tr = ∅.

Lemma GetConnection_keeps fuel t : keeping empty_hands (GetConnection fuel t)
  (λ r tr, empty_hands tr ∧ match r with Ok j => produced t j tr | Err _ => True end).
Proof.
  unfold GetConnection. destruct (is_empty t); [by apply keeps_ret|].
  apply (keeps_ask ReadManager _ (λ p0, idle_hands ∅ p0)); [done|intros p0 tr E; split; [by rewrite in_hands_snoc, E|auto]|]. intros p0.
  eapply safely_weaken; [done| |apply get_loop_keeps]. intros r tr [[E _] Hr]. done.
Qed.

Lemma quiet_keeps {X} c (k : answer c → prog X) Φ : (∀ tr, promised tr c) → (∀ S x, hand S (Ev c x) = S) →
  (∀ x, keeping empty_hands (k x) Φ) → keeping empty_hands (ask c ≫= k) Φ.
Proof. intros HG HS Hk. apply (keeps_ask c _ (λ _, empty_hands)); [done| |done]. intros x tr E. unfold empty_hands. by rewrite in_hands_snoc, HS. Qed.

Lemma quiet_last c : (∀ tr, promised tr c) → (∀ S x, hand S (Ev c x) = S) → keeping empty_hands (ask c) (λ _, empty_hands).
Proof. intros HG HS. apply keeps_last; [done|]. intros x tr E. unfold empty_hands. by rewrite in_hands_snoc, HS. Qed.

Lemma ApplyConnectionSettings_keeps t config : keeping empty_hands (ApplyConnectionSettings t config) (λ _, empty_hands).
Proof.
  unfold ApplyConnectionSettings. apply quiet_keeps; [done|done|]. intros [[[i new] prev]|]; [|by apply keeps_ret].
  assert (Hset : ∀ b st, keeping empty_hands ((if b : bool then ask (SetPool i st) else mret tt) : prog unit) (λ _, empty_hands))
    by (intros [] st; [by apply quiet_last|by apply keeps_ret]).
  destruct prev as [prev|]; [case_bool_decide; [by apply keeps_ret|]|].
  - apply (keeps_bind _ _ (λ _, empty_hands)); [apply Hset|]. intros ?. apply (keeps_bind _ _ (λ _, empty_hands)); [apply Hset|]. intros ?.
    apply (keeps_bind _ _ (λ _, empty_hands)); [apply Hset|]. intros ?. by apply quiet_last.
  - apply (keeps_bind _ _ (λ _, empty_hands)); [apply (Hset true)|]. intros ?. apply (keeps_bind _ _ (λ _, empty_hands)); [apply (Hset true)|]. intros ?.
    apply (keeps_bind _ _ (λ _, empty_hands)); [apply Hset|]. intros ?. by apply quiet_last.
Qed.

Lemma reconnect_keeps p0 t config pg fresh : GetPostgreSQLConfig (Some config) (module p0) = Some pg → BuildConnectionString (Some pg) [] = Ok fresh →
  keeping (λ tr, idle_hands ∅ p0 tr ∧ Ev (GetTenantConfig t) (Ok config) ∈ tr) (reconnectPostgres p0 t config pg fresh) (λ _, empty_hands).
Proof.
  intros Hpg Hdsn. unfold reconnectPostgres. destruct (resolveReplicaConnection p0 (Some config)) as [[replica db]|e]; [|apply keeps_ret; by intros tr [[]]].
  apply connect_keeps; [done|done|apply keeps_ret; by intros tr []|]. intros i.
  apply (keeps_ask (CanStore t) _ (λ _ tr, in_hands tr = {[i]} ∧ built t i tr)); [done| |].
  { intros x tr [[E _] (c & Hc & Hin)]. split; [by rewrite in_hands_snoc, E|]. exists c. auto. }
  intros []; cbn [negb].
  - apply (keeps_ask (Swap t i) _ (λ (old : option nat) tr, in_hands tr = match old with Some o => {[o]} | None => ∅ end)).
    + by intros tr [_ Hb].
    + intros [old|] tr [E _]; rewrite in_hands_snoc, E; simpl; set_solver.
    + intros [old|]; [|by apply keeps_ret]. apply keeps_last; [done|]. intros x tr E. unfold empty_hands. rewrite in_hands_snoc, E. simpl. set_solver.
  - apply keeps_last; [done|]. intros x tr [E _]. unfold empty_hands. rewrite in_hands_snoc, E. simpl. set_solver.
Qed.

Lemma revalidate_keeps t : keeping empty_hands (revalidatePoolSettings t) (λ _, empty_hands).
Proof.
  unfold revalidatePoolSettings.
  apply (keeps_ask ReadManager _ (λ p0, idle_hands ∅ p0)); [done|intros p0 tr E; split; [by rewrite in_hands_snoc, E|auto]|]. intros p0.
  apply (keeps_ask (GetTenantConfig t) _ (λ x, idle_seen ∅ p0 (Ev (GetTenantConfig t) x))); [done|intros x tr Hi; split; [by eapply idle_snoc|auto]|].
  intros [config|[st| |]]; try (apply keeps_ret; by intros tr [[]]).
  2:{ eapply keeps_pre; [|apply quiet_last; done]. by intros tr [[]]. }
  apply (keeps_bind _ _ (λ _, empty_hands)); [|intros []; [by apply keeps_ret|apply ApplyConnectionSettings_keeps]].
  unfold detectAndReconnectPostgres. destruct (GetPostgreSQLConfig (Some config) (module p0)) as [pg|] eqn:Epg; [|apply keeps_ret; by intros tr [[]]].
  destruct (BuildConnectionString (Some pg) []) as [fresh|e] eqn:Ed; [|apply keeps_ret; by intros tr [[]]].
  destruct (freshReplicaConnStr p0 (Some config)) as [fr|e]; [|apply keeps_ret; by intros tr [[]]].
  set (e0 := Ev (GetTenantConfig t) (Ok config) : event answer). ask_quietly (∅ : gset nat) p0 e0. intros []; [|apply keeps_ret; by intros tr [[]]].
  eapply keeps_bind; [by apply reconnect_keeps|]. intros ?. by apply keeps_ret.
Qed.

(** ** All users together *)

Inductive call :=
| CallGet (fuel : nat) (t : text) | CallRevalidate (t : text) | CallApply (t : text) (config : option TenantConfig)
| CallCloseConnection (t : text) | CallClose.

Definition call_program (c : call) : prog (option (result pool_error nat)) :=
  match c with
  | CallGet fuel t => Some <$> GetConnection fuel t
  | CallRevalidate t => (λ _, None) <$> revalidatePoolSettings t
  | CallApply t config => (λ _, None) <$> ApplyConnectionSettings t config
  | CallCloseConnection t => (λ _, None) <$> CloseConnection t
  | CallClose => (λ _, None) <$> Close
  end.

Definition call_leaves (c : call) (r : option (result pool_error nat)) tr : Prop :=
  empty_hands tr ∧ match c, r with CallGet _ t, Some (Ok j) => produced t j tr | _, _ => True end.

Lemma call_keeps c : keeping empty_hands (call_program c) (call_leaves c).
Proof.
  assert (Hf : ∀ (q : prog unit), keeping empty_hands q (λ _, empty_hands) →
            keeping empty_hands ((λ _, @None (result pool_error nat)) <$> q) (λ r tr, empty_hands tr ∧ r = None)).
  { intros q Hq. unfold fmap, eff_fmap. eapply keeps_bind; [exact Hq|]. intros x. by apply keeps_ret. }
  destruct c as [fuel t|t|t config|t|]; cbn [call_program].
  - unfold fmap, eff_fmap. eapply keeps_bind; [apply GetConnection_keeps|]. intros r. apply keeps_ret. intros tr [He Hr]. split; [done|]. by destruct r.
  - eapply safely_weaken; [done| |apply Hf, revalidate_keeps]. intros x tr [He ->]. done.
  - eapply safely_weaken; [done| |apply Hf, ApplyConnectionSettings_keeps]. intros x tr [He ->]. done.
  - eapply safely_weaken; [done| |apply Hf, (quiet_last (CloseTenant t)); done]. intros x tr [He ->]. done.
  - eapply safely_weaken; [done| |apply Hf, (quiet_last CloseAll); done]. intros x tr [He ->]. done.
Qed.

Definition guard tr : Prop := guarded (λ _, True) promised tr.

Lemma call_wp c : wp (call_program c) guard (λ tr r, guard tr ∧ call_leaves c r tr) [].
Proof. apply (keeps_wp empty_hands); [apply call_keeps|done]. Qed.

Definition pool_world := world answer Manager (option (result pool_error nat)).
Definition call_thread (c : call) (th : thread answer (option (result pool_error nat))) : Prop :=
  wp (th_rest th) guard (λ tr r, guard tr ∧ call_leaves c r tr) (th_trace th).

(** Every connection of the heap is described by a configuration of its tenant; what
    was answered is true of the heap; what is open is cached or in hand. *)
Record world_ok (m : text) (calls : list call) (w : pool_world) : Prop := {
  wo_mgr : mgr_ok (w_state w);
  wo_module : module (w_state w) = m;
  wo_events : Forall (event_ok (heap (w_state w))) (events w);
  wo_read : ∀ p0, Ev ReadManager p0 ∈ events w → module p0 = m;
  wo_described : ∀ i c, heap (w_state w) !! i = Some c → described m (events w) (conn c);
  wo_account : ∀ i, open (heap (w_state w)) i → cached (w_state w) i ∨ ∃ th, th ∈ w_threads w ∧ i ∈ in_hands (th_trace th);
  wo_threads : Forall2 call_thread calls (w_threads w) }.

Lemma exec_module l c p : module (exec l c p).2 = module p.
Proof.
  assert (Hf : ∀ l p, module (foldl (λ p ti, forget_tenant ti.1 (close_if_connected ti.2 p)) p l) = module p).
  { intros l'. induction l' as [|[t i] l' IH]; intros q; [done|]. simpl. rewrite IH. unfold close_if_connected. by destruct (connected q i). }
  assert (He : ∀ now o p, module (evictLRU now o p) = module p).
  { intros now o q. unfold evictLRU. destruct (FindLRUEvictionCandidate _ _ _ _ _) as [t|]; [|done].
    destruct (connections q !! t) as [i|]; [|done]. unfold close_if_connected. by destruct (connected q i). }
  destruct c; cbn [exec]; try done.
  - by destruct (Begin _ _ _).
  - unfold touch_section. destruct (negb _); [done|]. by destruct (_ && _ && _)%bool.
  - cbn. unfold closeUnhealthy_section. by destruct (cached_as p t i).
  - cbn. unfold close_if_connected. by destruct (connected p i).
  - unfold reuse_section, tryReuseOrEvictCachedConnectionLocked. destruct (connections p !! t) as [i|]; [|done].
    destruct (connected p i); [|done]. by case_bool_decide.
  - by destruct (connects l).
  - unfold cacheConnection, close_if_connected. destruct (closed p); [by destruct (connected p i)|].
    destruct (connections p !! t) as [j|]; [|cbn; by rewrite He].
    destruct (connected p j); [|cbn; by rewrite He]. by destruct (connected p i).
  - cbn. unfold closeConnection_section, close_if_connected. destruct (connections p !! t) as [i|]; [|done]. by destruct (connected p i).
  - cbn. unfold close_section. by rewrite Hf.
Qed.

Lemma described_mono m tr tr' c : tr ⊆ tr' → described m tr c → described m tr' c.
Proof. intros Hsub (config & pg & H1 & H2). exists config, pg. auto. Qed.

Lemma described_connected m tr c : described m tr c → described m tr (c <| ConnectionDB := true |>).
Proof. done. Qed.

(** The connection a command of a thread hands over belongs to the tenant. *)
Lemma promised_own m calls w i th c k : world_ok m calls w → w_threads w !! i = Some th → th_rest th = Do c k →
  promised (th_trace th) c ∧ own_cmd (heap (w_state w)) c.
Proof.
  intros [Hmgr _ Hev _ _ _ Hth] Hi Hr. destruct (Forall2_lookup_r _ _ _ _ _ Hth Hi) as (cl & _ & Hcl). unfold call_thread in Hcl. rewrite Hr in Hcl.
  destruct Hcl as [_ Hk].
  assert (Hp : promised (th_trace th) c).
  { assert (Hx : inhabited (answer c)).
    { clear. destruct c; constructor; cbn; try exact tt; try exact None; try exact true; try exact Skip; try exact ReuseNone.
      - exact (true, None). - exact (Err NotFound). - exact (NewManager true [] []). }
    destruct Hx as [x]. specialize (Hk x). apply wp_here in Hk. unfold guard in Hk. apply guarded_snoc in Hk as [_ Hk]. by apply Hk. }
  split; [done|]. assert (Hev' : Forall (event_ok (heap (w_state w))) (th_trace th)).
  { unfold events in Hev. rewrite Forall_bind in Hev. apply (Forall_lookup_1 _ _ _ _ Hev Hi). }
  rewrite Forall_forall in Hev'. destruct c; try done; cbn in *; destruct Hp as (c' & <- & Hin); by apply Hev' in Hin.
Qed.

Lemma events_insert (w : pool_world) i th e rest : w_threads w !! i = Some th →
  ∀ e', e' ∈ events {| w_state := w_state w; w_threads := <[i := {| th_trace := th_trace th ++ [e]; th_rest := rest |}]> (w_threads w) |} ↔
    e' ∈ events w ∨ e' = e.
Proof.
  intros Hi e'. unfold events. cbn [w_threads]. rewrite !list_elem_of_bind. split.
  - intros (th' & He & Hin). apply list_elem_of_lookup in Hin as [j Hj]. apply list_lookup_insert_Some in Hj as [(<- & <- & _)|(Hne & Hj)].
    + simpl in He. apply elem_of_app in He as [He| ->%list_elem_of_singleton]; [|by right]. left. exists th. split; [done|]. by eapply list_elem_of_lookup_2.
    + left. exists th'. split; [done|]. by eapply list_elem_of_lookup_2.
  - intros [(th' & He & Hin)| ->].
    + apply list_elem_of_lookup in Hin as [j Hj]. destruct (decide (i = j)) as [<-|Hne].
      * rewrite Hi in Hj. injection Hj as <-. eexists. split; [|eapply (list_elem_of_lookup_2 _ i), list_lookup_insert_eq; by eapply lookup_lt_Some].
        simpl. apply elem_of_app. by left.
      * exists th'. split; [done|]. eapply (list_elem_of_lookup_2 _ j). by rewrite list_lookup_insert_ne.
    + eexists. split; [|eapply (list_elem_of_lookup_2 _ i), list_lookup_insert_eq; by eapply lookup_lt_Some]. simpl. apply elem_of_app. right. by left.
Qed.

(** New connections come from [Connect] only. *)
Lemma close_if_length i p : length (heap (close_if_connected i p)) = length (heap p).
Proof. unfold close_if_connected. destruct (connected p i); [|done]. cbn. by rewrite length_alter. Qed.

Lemma exec_length l c p : (∀ c0, c ≠ Connect c0) → length (heap (exec l c p).2) = length (heap p).
Proof.
  intros Hc. assert (Hf : ∀ l p, length (heap (foldl (λ p ti, forget_tenant ti.1 (close_if_connected ti.2 p)) p l)) = length (heap p)).
  { intros l'. induction l' as [|[t i] l' IH]; intros q; [done|]. simpl. rewrite IH. cbn. apply close_if_length. }
  assert (He : ∀ now o p, length (heap (evictLRU now o p)) = length (heap p)).
  { intros now o q. unfold evictLRU. destruct (FindLRUEvictionCandidate _ _ _ _ _) as [t|]; [|done].
    destruct (connections q !! t) as [i|]; [|done]. cbn. apply close_if_length. }
  destruct c; cbn [exec]; try done.
  - by destruct (Begin _ _ _).
  - unfold touch_section. destruct (negb _); [done|]. by destruct (_ && _ && _)%bool.
  - cbn. unfold closeUnhealthy_section. by destruct (cached_as p t i).
  - cbn. apply close_if_length.
  - unfold reuse_section, tryReuseOrEvictCachedConnectionLocked. destruct (connections p !! t) as [i|]; [|done].
    destruct (connected p i); [|done]. case_bool_decide; [done|]. cbn. by rewrite length_alter.
  - by destruct (Hc c).
  - unfold cacheConnection. destruct (closed p); [apply close_if_length|].
    destruct (connections p !! t) as [j|]; [|cbn; apply He]. destruct (connected p j); [|cbn; apply He]. cbn. apply close_if_length.
  - cbn. unfold closeConnection_section. destruct (connections p !! t) as [i|]; [|done]. cbn. apply close_if_length.
  - cbn. unfold close_section. by rewrite Hf.
Qed.

Lemma exec_new l c p i cl : heap (exec l c p).2 !! i = Some cl → mgr_ok p → own_cmd (heap p) c →
  (∃ cl0, heap p !! i = Some cl0 ∧ conn cl = conn cl0) ∨ ∃ c0, c = Connect c0 ∧ conn cl = c0 <| ConnectionDB := true |>.
Proof.
  intros Hi Hok Hown. destruct (heap p !! i) as [cl0|] eqn:H0.
  - left. exists cl0. split; [done|].
    destruct (exec_good l c p ∅ Hok Hown) as [[_ Hle _] _]. destruct (Hle i cl0 H0) as (cl' & Hc' & E & _). congruence.
  - apply lookup_ge_None in H0. assert (Hlt := lookup_lt_Some _ _ _ Hi).
    destruct c as [| | | | | | | | | | |c0| | | | | | | | | |]; try (rewrite exec_length in Hlt by done; lia).
    right. exists c0. split; [done|]. cbn [exec] in Hi, Hlt. destruct (connects l); [|cbn in Hlt; lia].
    cbn in Hi. apply lookup_app_Some in Hi as [Hi|[_ Hi]]; [apply lookup_lt_Some in Hi; lia|]. by apply list_lookup_singleton_Some in Hi as [_ <-].
Qed.

(** The manager an event has read. *)
Definition read_of (e : event answer) : option Manager := match e with Ev ReadManager p0 => Some p0 | _ => None end.

Lemma read_exec l c p p0 : Ev ReadManager p0 = Ev c (exec l c p).1 → p0 = p.
Proof.
  intros He. assert (c = ReadManager) as -> by exact (eq_sym (f_equal ev_cmd He)). apply (f_equal read_of) in He. by injection He.
Qed.

(** A thread's own events are among all. *)
Lemma trace_events (w : pool_world) i th : w_threads w !! i = Some th → th_trace th ⊆ events w.
Proof. intros Hi e He. unfold events. apply list_elem_of_bind. exists th. split; [done|]. by eapply list_elem_of_lookup_2. Qed.

(** What is open stays in sight when one thread moves. *)
Lemma account_step (w : pool_world) i th th' p' : w_threads w !! i = Some th →
  good_step (in_hands (th_trace th)) (in_hands (th_trace th')) (w_state w) p' →
  (∀ j, open (heap (w_state w)) j → cached (w_state w) j ∨ ∃ th, th ∈ w_threads w ∧ j ∈ in_hands (th_trace th)) →
  ∀ j, open (heap p') j → cached p' j ∨ ∃ th, th ∈ <[i := th']> (w_threads w) ∧ j ∈ in_hands (th_trace th).
Proof.
  intros Hi [_ Hle Hacc] Hold j Ho.
  assert (Hself : th' ∈ <[i := th']> (w_threads w)) by (eapply (list_elem_of_lookup_2 _ i), list_lookup_insert_eq; by eapply lookup_lt_Some).
  assert (Hmine : j ∈ in_hands (th_trace th) ∨ cached (w_state w) j ∨ (length (heap (w_state w)) ≤ j)%nat →
                  cached p' j ∨ ∃ th, th ∈ <[i := th']> (w_threads w) ∧ j ∈ in_hands (th_trace th)).
  { intros Hj. destruct (Hacc j Ho Hj) as [?|Hin]; [by left|]. right. by exists th'. }
  destruct (decide (length (heap (w_state w)) ≤ j)%nat) as [?|Hlt]; [by apply Hmine; auto|].
  destruct (Hold j) as [Hc|(th2 & Hin & Hj)]; [eapply open_le; [exact Hle|done|lia]|by apply Hmine; auto|].
  apply list_elem_of_lookup in Hin as [i2 Hi2]. destruct (decide (i = i2)) as [<-|Hne].
  - rewrite Hi in Hi2. injection Hi2 as <-. apply Hmine. by left.
  - right. exists th2. split; [|done]. eapply (list_elem_of_lookup_2 _ i2). by rewrite list_lookup_insert_ne.
Qed.

Lemma world_ok_step m calls w il : world_ok m calls w → world_ok m calls (step exec w il).
Proof.
  destruct il as [i l]. intros Hw. destruct (step_cases exec w i l) as [->|(th & c & k & Hi & Hr & ->)]; [done|].
  destruct (promised_own m calls w i th c k Hw Hi Hr) as [Hp Hown]. destruct Hw as [Hmgr Hmod Hev Hread Hdesc Hacc Hth].
  pose proof (exec_good l c (w_state w) (in_hands (th_trace th)) Hmgr Hown) as [Hgood Hevok]. pose proof Hgood as [Hok' Hle _].
  rewrite <- in_hands_snoc in Hgood.
  pose proof (events_insert w i th (Ev c (exec l c (w_state w)).1) (k (exec l c (w_state w)).1) Hi) as Hevents.
  unfold events in Hevents. cbn [w_threads] in Hevents.
  split; cbn [w_state w_threads].
  - done.
  - by rewrite exec_module.
  - apply Forall_forall. intros e [He| ->]%Hevents; [|done]. rewrite Forall_forall in Hev. by eapply event_ok_le, Hev.
  - intros p0 [He|He]%Hevents; [by apply Hread|]. apply read_exec in He as ->. done.
  - intros j cl Hj. destruct (exec_new l c (w_state w) j cl Hj Hmgr Hown) as [(cl0 & H0 & ->)|(c0 & -> & ->)].
    + eapply described_mono; [|by apply (Hdesc j)]. intros e He. apply Hevents. by left.
    + destruct Hp as (p0 & Hp0 & Hd). pose proof (trace_events w i th Hi) as Hsub. rewrite (Hread p0 (Hsub _ Hp0)) in Hd.
      eapply described_mono; [|exact (described_connected _ _ _ Hd)]. intros e He. apply Hevents. left. by apply Hsub.
  - by eapply account_step.
  - destruct (Forall2_lookup_r _ _ _ _ _ Hth Hi) as (cl & Hcl & Ht). rewrite <- (list_insert_id calls i cl Hcl).
    apply Forall2_insert; [done|]. unfold call_thread in *. rewrite Hr in Ht. apply Ht.
Qed.

(** A manager that has no connection yet. *)
Definition fresh_manager p : Prop := connections p = ∅ ∧ heap p = [].

Lemma world_ok_start p calls : fresh_manager p → world_ok (module p) calls (start p (call_program <$> calls)).
Proof.
  intros [Hc Hh]. assert (He := events_start (R := answer) p (call_program <$> calls)).
  split; cbn [w_state start].
  - split; [intros i c|intros t i]; rewrite ?Hc, ?Hh; [by rewrite lookup_nil|by rewrite lookup_empty].
  - done.
  - rewrite He. constructor.
  - intros p0. rewrite He. by intros ?%elem_of_nil.
  - intros i c. by rewrite Hh, lookup_nil.
  - intros i (c & Hi & _). by rewrite Hh, lookup_nil in Hi.
  - unfold start. cbn [w_threads]. apply Forall2_fmap_r, Forall2_fmap_r, Forall_Forall2_diag, Forall_true. intros c. apply call_wp.
Qed.

Lemma world_ok_reached p calls ls : fresh_manager p → world_ok (module p) calls (interleave exec (start p (call_program <$> calls)) ls).
Proof. intros Hp. apply interleave_ind; [by apply world_ok_start|]. intros w il _. apply world_ok_step. Qed.

(** What [NewManager] makes has no connection yet, whatever the listed options. *)
Lemma fresh_NewManager c svc opts : Forall (λ opt, ∀ p, fresh_manager p → fresh_manager (opt p)) opts →
  fresh_manager (NewManager c svc opts).
Proof.
  intros Hf. unfold NewManager. match goal with |- context [foldl _ ?p0 _] => assert (H0 : fresh_manager p0) by done; generalize dependent p0 end.
  induction Hf as [|opt opts Ho Hf IH]; intros p0 H0; [done|]. simpl. apply IH; auto.
Qed.

(** ** What a run leaves *)

Lemma finished_leaves m calls w k cl th r : world_ok m calls w → calls !! k = Some cl → w_threads w !! k = Some th → th_rest th = Done r →
  call_leaves cl r (th_trace th).
Proof.
  intros [_ _ _ _ _ _ Hth] Hk Ht Hr. destruct (Forall2_lookup_l _ _ _ _ _ Hth Hk) as (th' & Ht' & Hc). rewrite Ht in Ht'. injection Ht' as <-.
  unfold call_thread in Hc. rewrite Hr in Hc. apply Hc.
Qed.

Lemma produced_owner H t j tr : Forall (event_ok H) tr → produced t j tr → owner H j = Some t.
Proof. rewrite Forall_forall. intros Hev [(b & x & Hin)|[Hin|[i Hin]]]; exact (Hev _ Hin). Qed.

Lemma world_accounted m calls w j c : world_ok m calls w → heap (w_state w) !! j = Some c → is_open c = true →
  connections (w_state w) !! for_tenant (conn c) = Some j ∨ ∃ th, th ∈ w_threads w ∧ finished th = false ∧ j ∈ in_hands (th_trace th).
Proof.
  intros Hw Hj Ho. pose proof Hw as [Hmgr _ _ _ _ Hacc Hth].
  destruct (Hacc j) as [[t Ht]|(th & Hin & Hj')]; [by exists c| |].
  - left. pose proof (ok_owner _ Hmgr t j Ht) as Hown. unfold owner in Hown. rewrite Hj in Hown. injection Hown as ->. done.
  - right. exists th. split_and!; [done| |done]. unfold finished. destruct (th_rest th) as [r|] eqn:E; [|done].
    apply list_elem_of_lookup in Hin as [k Hk]. destruct (Forall2_lookup_r _ _ _ _ _ Hth Hk) as (cl & Hcl & _).
    destruct (finished_leaves _ _ _ _ _ _ _ Hw Hcl Hk E) as [He _]. rewrite He in Hj'. set_solver.
Qed.

(** *** A closed manager *)

(** Only [Swap] puts a connection into a closed manager. *)
Definition no_swap (c : cmd) : Prop := match c with Swap _ _ => False | _ => True end.
Definition empty_if_closed p : Prop := closed p = true → connections p = ∅.

Lemma close_section_empties p : connections (close_section p) = ∅.
Proof.
  unfold close_section. set (p0 := p <| closed := true |>). assert (Hsub : ∀ t, is_Some (connections p0 !! t) → t ∈ (map_to_list (connections p)).*1).
  { intros t [i Hi]. apply list_elem_of_fmap. exists (t, i). split; [done|]. by apply elem_of_map_to_list. }
  revert Hsub. generalize (map_to_list (connections p)) as l. clearbody p0. intros l. revert p0.
  induction l as [|[t i] l IH]; intros q Hsub; simpl.
  - apply map_eq. intros t. rewrite lookup_empty. destruct (connections q !! t) as [i|] eqn:E; [|done].
    destruct (not_elem_of_nil t). apply Hsub. by rewrite E.
  - apply IH. intros t' Ht'. cbn in Ht'. unfold close_if_connected in Ht'. assert (Hd : is_Some (delete t (connections q) !! t')).
    { by destruct (connected q i). }
    destruct (decide (t = t')) as [<-|Hne]; [rewrite lookup_delete_eq in Hd; by destruct Hd|]. rewrite lookup_delete_ne in Hd by done.
    destruct (proj1 (elem_of_cons _ _ _) (Hsub t' Hd)) as [?|?]; [by simplify_eq/=|done].
Qed.

Lemma exec_closed l c p : no_swap c → empty_if_closed p → empty_if_closed (exec l c p).2.
Proof.
  unfold empty_if_closed. assert (Hc : ∀ i q, closed (close_if_connected i q) = closed q ∧ connections (close_if_connected i q) = connections q).
  { intros i q. unfold close_if_connected. by destruct (connected q i). }
  assert (He : ∀ now o q, closed (evictLRU now o q) = closed q).
  { intros now o q. unfold evictLRU. destruct (FindLRUEvictionCandidate _ _ _ _ _) as [t|]; [|done].
    destruct (connections q !! t) as [i|]; [|done]. apply Hc. }
  intros Hns Hp. destruct c; cbn [exec]; try done.
  - by destruct (Begin _ _ _).
  - unfold touch_section. destruct (negb _); [done|]. by destruct (_ && _ && _)%bool.
  - cbn. unfold closeUnhealthy_section. destruct (cached_as p t i); [|done]. cbn. intros E. by rewrite Hp, delete_empty.
  - cbn. destruct (Hc i p) as [-> ->]. done.
  - unfold reuse_section, tryReuseOrEvictCachedConnectionLocked. destruct (connections p !! t) as [i|] eqn:E; [|done].
    destruct (connected p i); [case_bool_decide; [done|]|]; cbn; intros E'; by rewrite Hp, delete_empty.
  - by destruct (connects l).
  - unfold cacheConnection. destruct (closed p) eqn:E; [cbn; intros _; destruct (Hc i p) as [_ ->]; auto|].
    destruct (connections p !! t) as [j|]; [destruct (connected p j)|]; cbn; rewrite ?He; try congruence.
    destruct (Hc i p) as [-> _]. congruence.
  - cbn. unfold closeConnection_section. destruct (connections p !! t) as [i|]; [|done]. cbn. destruct (Hc i p) as [-> ->]. intros E.
    by rewrite Hp, delete_empty.
  - intros _. apply close_section_empties.
Qed.

Local Ltac no_swaps := repeat first
  [apply issues_perform; exact I|apply issues_bind; [|intros ?]|done|case_match].

Lemma createConnection_issues p0 t : issues no_swap (createConnection p0 t).
Proof. unfold createConnection, buildTenantPostgresConnection. no_swaps. Qed.

Lemma get_loop_issues fuel p0 t : issues no_swap (get_loop fuel p0 t).
Proof.
  induction fuel as [|fuel IH]; cbn [get_loop]; unfold runHealthCheck;
    repeat first [exact IH|apply createConnection_issues|progress no_swaps].
Qed.

Lemma call_issues c : (∀ t, c ≠ CallRevalidate t) → issues no_swap (call_program c).
Proof.
  intros Hc. destruct c as [fuel t|t|t config|t|]; cbn [call_program]; unfold fmap, eff_fmap; (apply issues_bind; [|done]).
  - unfold GetConnection. destruct (is_empty t); [done|]. apply issues_bind; [apply issues_perform; exact I|intros p0]. apply get_loop_issues.
  - by destruct (Hc t).
  - unfold ApplyConnectionSettings. no_swaps.
  - unfold CloseConnection. apply issues_perform. exact I.
  - unfold Close. apply issues_perform. exact I.
Qed.

Lemma closed_is_empty p calls ls : closed p = false → Forall (λ c, ∀ t, c ≠ CallRevalidate t) calls →
  empty_if_closed (w_state (interleave exec (start p (call_program <$> calls)) ls)).
Proof.
  intros Hp Hcalls. set (J := (λ tr, Forall (λ e, no_swap (ev_cmd e)) tr, λ (_ : list (event answer)) (_ : option (result pool_error nat)), True)).
  apply (interleave_rely exec (replicate (length calls) J) empty_if_closed (λ _, True) (λ e, no_swap (ev_cmd e))).
  - done.
  - intros i l c q _ Hq Hc. by apply exec_closed.
  - apply Forall_replicate. by intros tr.
  - apply Forall2_replicate_l; [by rewrite length_fmap|]. apply Forall_fmap. eapply Forall_impl; [exact Hcalls|]. intros c Hc. simpl.
    apply (issues_wp no_swap); [|by apply call_issues|constructor]. intros tr cm x Ht Hcm. apply Forall_app. split; [done|by constructor].
  - by intros ?; congruence.
Qed.

Section reached.
Context (p : Manager) (calls : list call) (Hfresh : fresh_manager p) (ls : list (nat * surroundings)).
Let w : pool_world := interleave exec (start p (call_program <$> calls)) ls.

(** C26: however calls, revalidations and closes of a tenant manager interleave, and
    whatever pings, configurations, clocks and map orders they meet, a
    [GetConnection] that returns a connection returns one that was made for the
    tenant it was asked for, whose primary connection string was built from a
    configuration the tenant service answered for that very tenant. *)
Theorem tenant_gets_own_pool k fuel t th j : calls !! k = Some (CallGet fuel t) → w_threads w !! k = Some th → th_rest th = Done (Some (Ok j)) →
  ∃ cl config pg, heap (w_state w) !! j = Some cl ∧ for_tenant (conn cl) = t ∧ Ev (GetTenantConfig t) (Ok config) ∈ events w ∧
    GetPostgreSQLConfig (Some config) (module p) = Some pg ∧ BuildConnectionString (Some pg) [] = Ok (ConnectionStringPrimary (conn cl)).
Proof using Hfresh.
  intros Hk Ht Hr. pose proof (world_ok_reached p calls ls Hfresh) as Hw. fold w in Hw.
  destruct (finished_leaves _ _ _ _ _ _ _ Hw Hk Ht Hr) as [_ Hp]. destruct Hw as [_ _ Hev _ Hdesc _ _].
  assert (Htr : Forall (event_ok (heap (w_state w))) (th_trace th)).
  { unfold events in Hev. rewrite Forall_bind in Hev. apply (Forall_lookup_1 _ _ _ _ Hev Ht). }
  destruct (proj1 (fmap_Some _ _ _) (produced_owner _ _ _ _ Htr Hp)) as (cl & Hcl & E).
  destruct (Hdesc j cl Hcl) as (config & pg & H1 & H2 & H3). rewrite <- E in H1. by exists cl, config, pg.
Qed.

(** C27: no pool is lost: at every moment of every interleaving each open pool is the
    cached one of the tenant it was made for or is in the hands of a call that is
    still under way, which opened it or took it out of the cache; once all calls
    have returned, every open pool is cached. *)
Theorem pools_accounted j c : heap (w_state w) !! j = Some c → is_open c = true →
  (connections (w_state w) !! for_tenant (conn c) = Some j ∨
   ∃ th, th ∈ w_threads w ∧ finished th = false ∧ j ∈ in_hands (th_trace th)).
Proof using Hfresh. intros Hj Ho. by apply (world_accounted (module p) calls); [by apply world_ok_reached|..]. Qed.

(** C28: without revalidations, once [Close] has run and all calls have returned no
    pool is open: a call that was under way when the manager was closed puts nothing
    into the cache, and closes what it had opened. *)
Theorem close_leaves_nothing_open : Forall (λ c, ∀ t, c ≠ CallRevalidate t) calls → closed p = false → closed (w_state w) = true →
  Forall (λ th, finished th = true) (w_threads w) → Forall (λ c, is_open c = false) (heap (w_state w)).
Proof using Hfresh.
  intros Hcalls Hopen Hclosed Hfin. apply Forall_forall. intros c (j & Hj)%list_elem_of_lookup. destruct (is_open c) eqn:Ho; [|done].
  destruct (world_accounted (module p) calls w j c) as [Hc|(th & Hin & Hf & _)]; [by apply world_ok_reached|done|done| |].
  - pose proof (closed_is_empty p calls ls Hopen Hcalls Hclosed) as He. fold w in He. by rewrite He, lookup_empty in Hc.
  - rewrite Forall_forall in Hfin. by rewrite Hfin in Hf.
Qed.
End reached.
