(* ===== verification/TenantPoolExample.v ===== *)
(** Runs of the tenant pools: one tenant, a changed configuration, a close. *)

From stdpp Require Import base numbers list strings gmap.
From S2P Require Import Prelude GoText Effects TenantCore TenantPool TenantPoolSafety.

Local Open Scope Z_scope.
Local Open Scope go_scope.

Definition acme : text := txt "acme".

Definition ledger_config (host : text) : TenantConfig :=
  {| tc_ID := acme; TenantSlug := acme; TenantName := acme; Service := txt "ledger"; Status := txt "active"; IsolationMode := txt "isolated";
     Databases := Some {[ txt "ledger" := {|
       PostgreSQL := Some {| Host := host; Port := 5432; Database := txt "acme"; Username := txt "u"; Password := txt "p@ss"; Schema := [];
                             SSLMode := []; SSLRootCert := []; SSLCert := []; SSLKey := [] |};
       PostgreSQLReplica := None; MongoDB := None; db_ConnectionSettings := None |} ]};
     Messaging := None; RabbitMQ := None; Streaming := None; tc_ConnectionSettings := None; CreatedAt := 0; UpdatedAt := 0 |}.

Definition all_well (now : gotime) (host : text) : surroundings :=
  {| at_time := now; map_order := []; ctx_state := None; ping_answer := None; config_answer := Ok (ledger_config host); connects := true |}.

Definition ledger_manager : Manager := NewManager true (txt "ledger") [WithModule (txt "ledger")].

Lemma ledger_fresh : fresh_manager ledger_manager.
Proof. done. Qed.

(** [n] steps of thread [k]. *)
Definition steps (k n : nat) (now : gotime) (host : text) : list (nat * surroundings) := replicate n (k, all_well now host).

(** Two callers ask for the tenant at the same time: both connect, and the second
    gets the connection of the first. *)
Definition two_callers : list call := [CallGet 3 acme; CallGet 3 acme; CallClose].
Definition both_connect : list (nat * surroundings) := steps 0 5 100 (txt "db1") ++ steps 1 6 200 (txt "db1") ++ steps 0 9 300 (txt "db1").
Abbreviation after_both := (interleave exec (start ledger_manager (call_program <$> two_callers)) both_connect).

Example both_get_the_same : (th_rest <$> take 2 (w_threads after_both), is_open <$> heap (w_state after_both)) =
  ([Done (Some (Ok 1%nat)); Done (Some (Ok 1%nat))], [false; true]).
Proof. vm_compute. reflexivity. Qed.

Lemma tenant_gets_own_pool_witness : ∃ cl config pg, heap (w_state after_both) !! 1%nat = Some cl ∧ for_tenant (conn cl) = acme ∧
  Ev (GetTenantConfig acme) (Ok config) ∈ events after_both ∧
  GetPostgreSQLConfig (Some config) (module ledger_manager) = Some pg ∧ BuildConnectionString (Some pg) [] = Ok (ConnectionStringPrimary (conn cl)).
Proof.
  assert (Hr : th_rest <$> w_threads after_both !! 0%nat = Some (Done (Some (Ok 1%nat)))) by (vm_compute; reflexivity).
  apply fmap_Some in Hr as (th & E & Hr). symmetry in Hr. 
  exact (tenant_gets_own_pool ledger_manager two_callers ledger_fresh both_connect 0 3 acme th 1 eq_refl E Hr).
Defined.

Lemma pools_accounted_witness : connections (w_state after_both) !! acme = Some 1%nat ∨
  ∃ th, th ∈ w_threads after_both ∧ finished th = false ∧ 1%nat ∈ in_hands (th_trace th).
Proof.
  assert (Hc : (λ c, (is_open c, for_tenant (conn c))) <$> heap (w_state after_both) !! 1%nat = Some (true, acme)) by (vm_compute; reflexivity).
  apply fmap_Some in Hc as (c & E & [= Ho Ht]). rewrite Ht. symmetry in Ho. exact (pools_accounted ledger_manager two_callers ledger_fresh both_connect 1 c E Ho).
Defined.

(** The manager is closed while the first caller has connected but not yet cached. *)
Definition closed_meanwhile : list (nat * surroundings) := steps 0 5 100 (txt "db1") ++ steps 2 1 150 (txt "db1") ++ steps 1 9 200 (txt "db1") ++ steps 0 9 300 (txt "db1").
Abbreviation after_close := (interleave exec (start ledger_manager (call_program <$> two_callers)) closed_meanwhile).

Lemma close_leaves_nothing_open_witness : heap (w_state after_close) ≠ [] ∧ Forall (λ c, is_open c = false) (heap (w_state after_close)).
Proof.
  assert (Hn : length (heap (w_state after_close)) = 1%nat) by (vm_compute; reflexivity).
  split; [intros E; rewrite E in Hn; discriminate Hn|].
  apply (close_leaves_nothing_open ledger_manager two_callers ledger_fresh closed_meanwhile).
  - by repeat constructor.
  - reflexivity.
  - vm_compute. reflexivity.
  - apply (Forall_fmap finished (λ b, b = true)). assert (Hf : finished <$> w_threads after_close = replicate 3 true) by (vm_compute; reflexivity).
    rewrite Hf. by repeat constructor.
Defined.

(** ** A revalidation and a close *)

(** The revalidation has been told that its new connection may be stored; then the
    manager is closed; then the revalidation stores it. *)
Definition swap_after_close : list (nat * surroundings) :=
  steps 0 9 100 (txt "db1") ++ steps 1 5 200 (txt "db2") ++ steps 2 1 300 (txt "db2") ++ steps 1 9 400 (txt "db2").

Definition caught_by_close : list call := [CallGet 3 acme; CallRevalidate acme; CallClose].
Abbreviation after_swap := (interleave exec (start ledger_manager (call_program <$> caught_by_close)) swap_after_close).

(** C37: a revalidation that finds a changed configuration asks
    [canStorePostgresConnection] and then enters [swapPostgresConnection] under a
    second lock; when [Close] runs between the two, the pool is put into the closed
    manager: all calls have returned, the manager is closed, and a pool for the
    tenant is cached and open. *)
Theorem closed_manager_keeps_pool : ∃ calls ls c,
  let w := interleave exec (start ledger_manager (call_program <$> calls)) ls in
  Forall (λ th, finished th = true) (w_threads w) ∧ closed (w_state w) = true ∧
  connections (w_state w) !! acme = Some 1%nat ∧ heap (w_state w) !! 1%nat = Some c ∧ for_tenant (conn c) = acme ∧ is_open c = true.
Proof.
  assert (Hf : finished <$> w_threads after_swap = replicate 3 true) by (vm_compute; reflexivity).
  assert (Hcl : closed (w_state after_swap) = true) by (vm_compute; reflexivity).
  assert (Hcon : connections (w_state after_swap) !! acme = Some 1%nat) by (vm_compute; reflexivity).
  assert (Hc : (λ c, (for_tenant (conn c), is_open c)) <$> heap (w_state after_swap) !! 1%nat = Some (acme, true)) by (vm_compute; reflexivity).
  apply fmap_Some in Hc as (c & Hj & [= Ht Ho]).
  exists caught_by_close, swap_after_close, c. refine (conj _ (conj Hcl (conj Hcon (conj Hj (conj (eq_sym Ht) (eq_sym Ho)))))).
  apply (Forall_fmap finished (λ b, b = true)). rewrite Hf. by repeat constructor.
Qed.
