(* ===== verification/RabbitPublisher.v ===== *)
(** The publisher with confirms: [rabbitmq/publisher.go].

    A publisher's fields are shared by its callers, by the goroutine that watches
    each channel and by the recovery that goroutine starts.  Every section under
    [mu], every use of a channel and every wait is one command of a program of
    [Effects]; [publishMu] is a command that is enabled while the lock is free.
    An AMQP channel is what the protocol says of it: messages are confirmed in the
    order in which they were published, and a message that could not be routed is
    returned before it is confirmed.  A channel is named by its place in
    [channels], a Go channel that is only ever closed by a number.  Logs are left
    out, and so are the zero values of signals, which no constructor leaves. *)

From stdpp Require Import base numbers list gmap.
From S2P Require Import Prelude Effects Backoff.

Local Open Scope Z_scope.
Local Open Scope go_scope.

(** ** AMQP channels *)

(** What the broker did with a message: whether it came back as unroutable, and
    whether it was acknowledged. *)
Record verdict := { v_returned : bool; v_ack : bool }.

(** A message as it is handed to [PublishWithContext]: a mandatory one that no queue
    takes is returned, another one is dropped and acknowledged all the same. *)
Record publishing := { pb_mandatory : bool; pb_msg : Z }.
Abbreviation mandatory m := {| pb_mandatory := true; pb_msg := m |}.

(** [c_sent] are the messages in the order of their delivery tags, [c_log] the
    verdicts so far, of which the first [c_read] have been read from the
    confirmation channel; [c_returns] are the returns that wait to be read;
    [c_bounced] tells whether the next message to be confirmed has been returned. *)
Record amqpChannel := {
  c_open : bool; c_notifier : bool; c_sent : list publishing; c_log : list verdict; c_read : nat; c_returns : list nat; c_bounced : bool }.
#[export] Instance amqpChannel_eta : Eta amqpChannel := λ c,
  {| c_open := c_open c; c_notifier := c_notifier c; c_sent := c_sent c; c_log := c_log c; c_read := c_read c;
     c_returns := c_returns c; c_bounced := c_bounced c |}.

Definition newChannel (notifier : bool) : amqpChannel :=
  {| c_open := true; c_notifier := notifier; c_sent := []; c_log := []; c_read := 0; c_returns := []; c_bounced := false |}.

Definition in_flight (c : amqpChannel) : bool := bool_decide (length (c_log c) < length (c_sent c))%nat.

(** Only a mandatory message can come back. *)
Definition next_mandatory (c : amqpChannel) : bool := match c_sent c !! length (c_log c) with Some m => pb_mandatory m | None => false end.

Definition broker_returns (c : amqpChannel) : amqpChannel :=
  if (c_open c && in_flight c && (next_mandatory c && negb (c_bounced c)))%bool
  then c <| c_returns := c_returns c ++ [length (c_log c)] |> <| c_bounced := true |> else c.
Definition broker_confirms (ack : bool) (c : amqpChannel) : amqpChannel :=
  if (c_open c && in_flight c)%bool
  then c <| c_log := c_log c ++ [{| v_returned := c_bounced c; v_ack := ack |}] |> <| c_bounced := false |> else c.
Definition closed_channel (c : amqpChannel) : amqpChannel := c <| c_open := false |>.

(** ** Errors and constants *)

Inductive ctx_error := Canceled | DeadlineExceeded.

Inductive pub_error :=
| ErrConnectionRequired | ErrPublisherRequired | ErrChannelRequired | ErrPublisherNotReady
| ErrConfirmModeUnavailable (e : Z) | ErrPublishNacked (tag : nat) | ErrPublishReturned | ErrConfirmTimeout
| ErrReturnNotificationUnsupported | ErrPublisherClosed | ErrReconnectAfterClose | ErrReconnectWhileOpen
| ErrRecoveryExhausted                    (* joined with ErrPublisherClosed *)
| PublishFailed (e : Z) | ContextCancelled (e : ctx_error) | ClosingFailed (e : Z).

Definition DefaultConfirmTimeout : duration := 5 * Second.
Definition DefaultMaxRecoveryAttempts : Z := 10.
Definition DefaultRecoveryBackoffInitial : duration := 1 * Second.
Definition DefaultRecoveryBackoffMax : duration := 30 * Second.

Inductive HealthState := HealthStateConnected | HealthStateReconnecting | HealthStateDegraded | HealthStateDisconnected.

(** The provider and the callback: whether they are set. *)
Record recoveryConfig := { provider : bool; healthCallback : bool; maxAttempts : Z; backoffInitial : duration; backoffMax : duration }.
#[export] Instance recoveryConfig_eta : Eta recoveryConfig := λ r,
  {| provider := provider r; healthCallback := healthCallback r; maxAttempts := maxAttempts r;
     backoffInitial := backoffInitial r; backoffMax := backoffMax r |}.

(** ** The publisher *)

(** [confirms] and [returns] name the channel whose notifications they receive;
    [closedCh] stands for its [closeOnce] as well. *)
Record ConfirmablePublisher := {
  ch : option nat; confirms : nat; returns : nat; closedCh : nat; done : nat;
  confirmTimeout : duration; invalidConfirmTimeout : option duration; recovery : option recoveryConfig;
  publishMu : bool; health : HealthState; closed : bool; shutdown : bool; recoveryExhausted : bool;
  channels : list amqpChannel; signals : gset nat; next_signal : nat; monitors : list (nat * nat); callbacks : list HealthState }.
#[export] Instance ConfirmablePublisher_eta : Eta ConfirmablePublisher := λ p,
  {| ch := ch p; confirms := confirms p; returns := returns p; closedCh := closedCh p; done := done p;
     confirmTimeout := confirmTimeout p; invalidConfirmTimeout := invalidConfirmTimeout p; recovery := recovery p;
     publishMu := publishMu p; health := health p; closed := closed p; shutdown := shutdown p; recoveryExhausted := recoveryExhausted p;
     channels := channels p; signals := signals p; next_signal := next_signal p; monitors := monitors p; callbacks := callbacks p |}.

Definition ensureRecoveryConfig (p : ConfirmablePublisher) : recoveryConfig :=
  default {| provider := false; healthCallback := false; maxAttempts := DefaultMaxRecoveryAttempts;
             backoffInitial := DefaultRecoveryBackoffInitial; backoffMax := DefaultRecoveryBackoffMax |} (recovery p).

Definition WithConfirmTimeout (timeout : duration) (p : ConfirmablePublisher) : ConfirmablePublisher :=
  if bool_decide (0 < timeout) then p <| confirmTimeout := timeout |> <| invalidConfirmTimeout := None |>
  else p <| invalidConfirmTimeout := Some timeout |>.
Definition WithAutoRecovery (given : bool) (p : ConfirmablePublisher) : ConfirmablePublisher :=
  if negb given then p else p <| recovery := Some ((ensureRecoveryConfig p) <| provider := true |>) |>.
Definition WithMaxRecoveryAttempts (n : Z) (p : ConfirmablePublisher) : ConfirmablePublisher :=
  if bool_decide (n ≤ 0) then p else p <| recovery := Some ((ensureRecoveryConfig p) <| maxAttempts := n |>) |>.
Definition WithRecoveryBackoff (initial maxBackoff : duration) (p : ConfirmablePublisher) : ConfirmablePublisher :=
  if (bool_decide (initial ≤ 0) || bool_decide (maxBackoff ≤ 0))%bool then p
  else if bool_decide (maxBackoff < initial) then p
  else p <| recovery := Some ((ensureRecoveryConfig p) <| backoffInitial := initial |> <| backoffMax := maxBackoff |>) |>.
Definition WithHealthCallback (given : bool) (p : ConfirmablePublisher) : ConfirmablePublisher :=
  if negb given then p else p <| recovery := Some ((ensureRecoveryConfig p) <| healthCallback := true |>) |>.

Definition returnNotifierFor (c : amqpChannel) : option pub_error := if c_notifier c then None else Some ErrReturnNotificationUnsupported.

(** [None] is a nil channel; [confirmErr] is what [Confirm] returns. *)
Definition NewConfirmablePublisherFromChannel (c : option amqpChannel) (confirmErr : option Z)
    (opts : list (ConfirmablePublisher → ConfirmablePublisher)) : result pub_error ConfirmablePublisher :=
  match c with
  | None => Err ErrChannelRequired
  | Some c =>
    match returnNotifierFor c, confirmErr with
    | Some e, _ => Err e
    | None, Some e => Err (ErrConfirmModeUnavailable e)
    | None, None =>
      Ok (foldl (λ p opt, opt p)
        {| ch := Some 0%nat; confirms := 0; returns := 0; closedCh := 0; done := 1;
           confirmTimeout := DefaultConfirmTimeout; invalidConfirmTimeout := None; recovery := None;
           publishMu := false; health := HealthStateConnected; closed := false; shutdown := false; recoveryExhausted := false;
           channels := [c]; signals := ∅; next_signal := 2; monitors := [(0, 1)%nat]; callbacks := [] |} opts)
    end
  end.

(** [None] is a nil connection, [Some None] one without a channel. *)
Definition NewConfirmablePublisher (conn : option (option amqpChannel)) (confirmErr : option Z)
    (opts : list (ConfirmablePublisher → ConfirmablePublisher)) : result pub_error ConfirmablePublisher :=
  match conn with
  | None => Err ErrConnectionRequired
  | Some None => Err ErrChannelRequired
  | Some c => NewConfirmablePublisherFromChannel c confirmErr opts
  end.

Definition Channel (p : ConfirmablePublisher) : option nat := if closed p then None else ch p.
Definition ChannelOrError (p : ConfirmablePublisher) : result pub_error nat :=
  if closed p then Err ErrPublisherClosed else match ch p with None => Err ErrPublisherNotReady | Some c => Ok c end.

(** ** Sections under [mu] *)

Definition on_channel (i : nat) (f : amqpChannel → amqpChannel) (p : ConfirmablePublisher) : ConfirmablePublisher :=
  p <| channels := alter f i (channels p) |>.
Definition close_signal (s : nat) (p : ConfirmablePublisher) : ConfirmablePublisher := p <| signals := {[s]} ∪ signals p |>.

(** What a publish finds. *)
Inductive readiness := Refused (e : pub_error) | Use (c conf rets closedCh : nat) (timeout : duration).

Definition publish_section (p : ConfirmablePublisher) : readiness :=
  if closed p then Refused (if recoveryExhausted p then ErrRecoveryExhausted else ErrPublisherClosed)
  else match ch p with None => Refused ErrPublisherNotReady | Some c => Use c (confirms p) (returns p) (closedCh p) (confirmTimeout p) end.

Definition invalidate_section (p : ConfirmablePublisher) : ConfirmablePublisher := p <| closed := true |> <| ch := None |>.

(** The signal to close, and whether there is a recovery. *)
Definition monitored_section (p : ConfirmablePublisher) : (nat * bool) * ConfirmablePublisher :=
  ((closedCh p, match recovery p with Some r => provider r | None => false end), p <| closed := true |>).

Definition prepare_section (p : ConfirmablePublisher) : option (option nat * nat * duration) * ConfirmablePublisher :=
  if shutdown p then (None, p)
  else (Some (ch p, confirms p, confirmTimeout p),
        close_signal (closedCh p) (close_signal (done p)
          (p <| closed := true |> <| recoveryExhausted := false |> <| ch := None |>))).

Definition close_section (p : ConfirmablePublisher) : option (option nat * nat * duration) * ConfirmablePublisher :=
  if shutdown p then (None, p)
  else (Some (ch p, confirms p, confirmTimeout p),
        close_signal (closedCh p) (close_signal (done p)
          (p <| shutdown := true |> <| closed := true |> <| recoveryExhausted := false |>))).

(** The error, or whether there is a callback to call. *)
Definition reconnect_section (confirmErr : option Z) (c : nat) (p : ConfirmablePublisher) : result pub_error bool * ConfirmablePublisher :=
  if negb (closed p) then (Err ErrReconnectWhileOpen, p)
  else if shutdown p then (Err ErrReconnectAfterClose, p)
  else match channels p !! c ≫= returnNotifierFor with
  | Some e => (Err e, p)
  | None =>
    match confirmErr with
    | Some e => (Err (ErrConfirmModeUnavailable e), p)
    | None =>
      (Ok (match recovery p with Some r => healthCallback r | None => false end),
       p <| ch := Some c |> <| confirms := c |> <| returns := c |> <| closedCh := next_signal p |>
         <| next_signal := S (next_signal p) |> <| closed := false |> <| recoveryExhausted := false |>
         <| health := HealthStateConnected |> <| monitors := monitors p ++ [(c, done p)] |>)
    end
  end.

Definition health_section (s : HealthState) (p : ConfirmablePublisher) : bool * ConfirmablePublisher :=
  (match recovery p with Some r => healthCallback r | None => false end, p <| health := s |>).

(** [done] is replaced by a signal that is not closed. *)
Definition renew_section (p : ConfirmablePublisher) : ConfirmablePublisher :=
  p <| done := next_signal p |> <| next_signal := S (next_signal p) |>.

(** ** Commands *)

(** What the [select] of [waitForConfirm] took. *)
Inductive confirmation := ConfirmsClosed | Confirmed (tag : nat) (ack : bool) | SawClosed | TimedOut | CtxDone (e : ctx_error).
Inductive choice := PickConfirm | PickClosed | PickTimer | PickCtx (e : ctx_error).

Inductive cmd :=
| LockPublish | UnlockPublish
| PublishSection | DrainReturns (c : nat) | PublishWithContext (c : nat) (msg : publishing)
| WaitConfirm (c closedCh : nat) (timeout : duration) | TakeReturn (c : nat)
| InvalidateSection | CloseClosedCh | CloseSignal (s : nat) | CloseChannel (c : nat)
| HealthSection (s : HealthState) | Callback (s : HealthState)
| AwaitClose (c done : nat) | MonitoredSection | ReadRecovery | PrepareSection | DrainConfirms (c : nat) (timeout : duration) | RenewSection
| ReadDone | Stopped (s : nat) | Entropy | WaitBackoff (d : duration) (stop : nat) | Provide | MarkExhausted
| ReconnectSection (c : nat) | CloseSection | OpenChannel
| BrokerReturns (c : nat) | BrokerConfirms (c : nat) (ack : bool) | BrokerCloses (c : nat).

Definition answer (c : cmd) : Type :=
  match c with
  | PublishSection => readiness
  | PublishWithContext _ _ | CloseChannel _ => option Z
  | WaitConfirm _ _ _ => confirmation
  | TakeReturn _ | HealthSection _ | AwaitClose _ _ | Stopped _ | WaitBackoff _ _ => bool
  | MonitoredSection => nat * bool
  | ReadRecovery => option recoveryConfig
  | PrepareSection | CloseSection => option (option nat * nat * duration)
  | ReadDone => nat
  | Entropy => entropy
  | Provide => result Z (option nat)
  | ReconnectSection _ => result pub_error bool
  | OpenChannel => nat
  | _ => unit
  end.

Definition prog := eff answer.
Definition ask (c : cmd) : prog (answer c) := perform c.

(** What the surroundings contribute: the branch a [select] takes when it can, the
    errors of the library, the number of confirmations drained, randomness, and
    what the provider returns. *)
Record surroundings := {
  pick : choice; send_error : option Z; close_error : option Z; confirm_error : option Z; drained : nat; random : entropy;
  provides : result Z (option bool) }.

(** A command that waits for the lock, or for the end of a channel whose monitor
    has been started, is not executed before. *)
Definition is_open (p : ConfirmablePublisher) (c : nat) : bool := match channels p !! c with Some a => c_open a | None => false end.
Definition enabled (c : cmd) (p : ConfirmablePublisher) : bool :=
  match c with
  | LockPublish => negb (publishMu p)
  | AwaitClose c d => (bool_decide ((c, d) ∈ monitors p) && (negb (is_open p c) || bool_decide (d ∈ signals p)))%bool
  | _ => true
  end.

Definition wait_confirm (pk : choice) (c s : nat) (p : ConfirmablePublisher) : confirmation * ConfirmablePublisher :=
  match pk, channels p !! c with
  | PickConfirm, Some a =>
    match c_log a !! c_read a with
    | Some v => (Confirmed (S (c_read a)) (v_ack v), on_channel c (λ a, a <| c_read := S (c_read a) |>) p)
    | None => (if c_open a then TimedOut else ConfirmsClosed, p)
    end
  | PickClosed, _ => (if bool_decide (s ∈ signals p) then SawClosed else TimedOut, p)
  | PickCtx e, _ => (CtxDone e, p)
  | _, _ => (TimedOut, p)
  end.

Definition open_channel (notifier : bool) (p : ConfirmablePublisher) : nat * ConfirmablePublisher :=
  (length (channels p), p <| channels := channels p ++ [newChannel notifier] |>).

Definition exec (l : surroundings) (c : cmd) (p : ConfirmablePublisher) : answer c * ConfirmablePublisher :=
  match c with
  | LockPublish => (tt, p <| publishMu := true |>)
  | UnlockPublish => (tt, p <| publishMu := false |>)
  | PublishSection => (publish_section p, p)
  | DrainReturns c => (tt, on_channel c (λ a, a <| c_returns := [] |>) p)
  | PublishWithContext c msg =>
    if is_open p c then match send_error l with Some e => (Some e, p) | None => (None, on_channel c (λ a, a <| c_sent := c_sent a ++ [msg] |>) p) end
    else (Some (default 504 (send_error l)), p)
  | WaitConfirm c s _ => wait_confirm (pick l) c s p
  | TakeReturn c => (match channels p !! c with Some a => negb (bool_decide (c_returns a = [])) | None => false end,
                     on_channel c (λ a, a <| c_returns := tail (c_returns a) |>) p)
  | InvalidateSection => (tt, invalidate_section p)
  | CloseClosedCh => (tt, close_signal (closedCh p) p)
  | CloseSignal s => (tt, close_signal s p)
  | CloseChannel c => (close_error l, on_channel c closed_channel p)
  | HealthSection s => health_section s p
  | Callback s => (tt, p <| callbacks := callbacks p ++ [s] |>)
  | AwaitClose c d => (negb (is_open p c) && match pick l with PickClosed => true | _ => negb (bool_decide (d ∈ signals p)) end,
                       p <| monitors := filter (λ m, m ≠ (c, d)) (monitors p) |>)%bool
  | MonitoredSection => monitored_section p
  | ReadRecovery => (recovery p, p)
  | PrepareSection => prepare_section p
  | DrainConfirms c _ => (tt, on_channel c (λ a, a <| c_read := ((c_read a + drained l) `min` length (c_log a))%nat |>) p)
  | RenewSection => (tt, renew_section p)
  | ReadDone => (done p, p)
  | Stopped s => (bool_decide (s ∈ signals p), p)
  | Entropy => (random l, p)
  | WaitBackoff _ s => (bool_decide (s ∈ signals p) && match pick l with PickClosed => true | _ => false end, p)%bool
  | Provide => match provides l with
               | Err e => (Err e, p)
               | Ok None => (Ok None, p)
               | Ok (Some n) => let '(c, p) := open_channel n p in (Ok (Some c), p)
               end
  | MarkExhausted => (tt, p <| recoveryExhausted := true |>)
  | ReconnectSection c => reconnect_section (confirm_error l) c p
  | CloseSection => close_section p
  | OpenChannel => open_channel true p
  | BrokerReturns c => (tt, on_channel c broker_returns p)
  | BrokerConfirms c ack => (tt, on_channel c (broker_confirms ack) p)
  | BrokerCloses c => (tt, on_channel c closed_channel p)
  end.

(** ** Publishing *)

(** [publishMu.Lock()], with the unlock deferred. *)
Definition with_publishMu {X} (q : prog X) : prog X :=
  _ ← ask LockPublish;
  r ← q;
  _ ← ask UnlockPublish;
  mret r.

Definition emitHealthState (s : HealthState) : prog unit :=
  callback ← ask (HealthSection s);
  if (callback : bool) then ask (Callback s) else mret tt.

Definition waitForConfirm (c closedCh : nat) (timeout : duration) : prog (option pub_error) :=
  x ← ask (WaitConfirm c closedCh timeout);
  mret (match x with
        | ConfirmsClosed => Some ErrPublisherClosed
        | Confirmed tag ack => if negb ack then Some (ErrPublishNacked tag) else None
        | SawClosed => Some ErrPublisherClosed
        | TimedOut => Some ErrConfirmTimeout
        | CtxDone e => Some (ContextCancelled e)
        end).

Definition isConfirmStreamCorrupted (e : pub_error) : bool := match e with ErrConfirmTimeout | ContextCancelled _ => true | _ => false end.

Definition invalidateChannel (c : nat) : prog unit :=
  _ ← ask InvalidateSection;
  _ ← emitHealthState HealthStateDegraded;
  _ ← ask CloseClosedCh;
  _ ← ask (CloseChannel c);
  mret tt.

(** The body under [publishMu]. *)
Definition publish_locked (msg : Z) : prog (option pub_error) :=
  ready ← ask PublishSection;
  match ready with
  | Refused e => mret (Some e)
  | Use c conf rets closedCh timeout =>
    _ ← ask (DrainReturns rets);
    sent ← ask (PublishWithContext c (mandatory msg));
    match sent with
    | Some e => mret (Some (PublishFailed e))
    | None =>
      err ← waitForConfirm conf closedCh timeout;
      match err with
      | Some e => _ ← (if isConfirmStreamCorrupted e then invalidateChannel c else mret tt); mret (Some e)
      | None =>
        returned ← ask (TakeReturn rets);
        mret (if (returned : bool) then Some ErrPublishReturned else None)
      end
    end
  end.

(** [nil] tells whether the receiver is nil; the [mandatory] argument is ignored. *)
Definition PublishAndWaitConfirm (nil _mandatory : bool) (msg : Z) : prog (option pub_error) :=
  if nil then mret (Some ErrPublisherRequired) else with_publishMu (publish_locked msg).
Definition Publish (nil _mandatory : bool) (msg : Z) : prog (option pub_error) :=
  if nil then mret (Some ErrPublisherRequired) else PublishAndWaitConfirm nil true msg.

(** ** Closing and reconnecting *)

Definition close_if (c : option nat) : prog (option Z) := match c with Some c => ask (CloseChannel c) | None => mret None end.

Definition Close (nil : bool) : prog (option pub_error) :=
  if nil then mret (Some ErrPublisherRequired)
  else with_publishMu (
    r ← ask CloseSection;
    match r with
    | None => mret None
    | Some (current, conf, timeout) =>
      e ← close_if current;
      match e with
      | Some e => mret (Some (ClosingFailed e))
      | None =>
        _ ← ask (DrainConfirms conf timeout);
        _ ← emitHealthState HealthStateDisconnected;
        mret None
      end
    end).

Definition Reconnect (nil : bool) (c : option nat) : prog (option pub_error) :=
  if nil then mret (Some ErrPublisherRequired)
  else match c with
  | None => mret (Some ErrChannelRequired)
  | Some c => with_publishMu (
    r ← ask (ReconnectSection c);
    match r with
    | Err e => mret (Some e)
    | Ok callback => _ ← (if (callback : bool) then ask (Callback HealthStateConnected) else mret tt); mret None
    end)
  end.

(** ** Recovery *)

Inductive recoveryAttemptResult := recoveryAttemptRetry | recoveryAttemptSuccess | recoveryAttemptAborted.

Definition prepareForRecovery : prog bool := with_publishMu (
  r ← ask PrepareSection;
  match r with
  | None => mret false
  | Some (current, conf, timeout) =>
    _ ← close_if current;
    _ ← ask (DrainConfirms conf timeout);
    _ ← ask RenewSection;
    mret true
  end).

(** Whether the recovery is aborted. *)
Definition waitRecoveryBackoff (r : recoveryConfig) (stop : nat) (attempt : Z) : prog bool :=
  g ← ask Entropy;
  let delay := ExponentialWithJitter g (backoffInitial r) attempt in
  g' ← (if bool_decide (backoffMax r < delay) then ask Entropy else mret g);
  let delay := if bool_decide (backoffMax r < delay) then FullJitter g' (backoffMax r) else delay in
  aborted ← ask (WaitBackoff delay stop);
  if (aborted : bool) then _ ← emitHealthState HealthStateDisconnected; mret true else mret false.

Definition tryReconnectChannel : prog recoveryAttemptResult :=
  x ← ask Provide;
  match x with
  | Err _ => mret recoveryAttemptRetry
  | Ok newCh =>
    e ← Reconnect false newCh;
    match e with
    | Some _ => _ ← close_if newCh; mret recoveryAttemptRetry
    | None => _ ← emitHealthState HealthStateConnected; mret recoveryAttemptSuccess
    end
  end.

Definition executeRecoveryAttempt (r : recoveryConfig) (stop : nat) (attempt : Z) : prog recoveryAttemptResult :=
  stopped ← ask (Stopped stop);
  if (stopped : bool) then _ ← emitHealthState HealthStateDisconnected; mret recoveryAttemptAborted
  else
    aborted ← waitRecoveryBackoff r stop attempt;
    if (aborted : bool) then mret recoveryAttemptAborted else tryReconnectChannel.

(** The attempts [attempt], ..., with [more] of them still to make. *)
Fixpoint recovery_loop (more : nat) (r : recoveryConfig) (stop : nat) (attempt : Z) : prog bool :=
  match more with
  | O => mret false
  | S more =>
    x ← executeRecoveryAttempt r stop attempt;
    match x with
    | recoveryAttemptSuccess | recoveryAttemptAborted => mret true
    | recoveryAttemptRetry => recovery_loop more r stop (attempt + 1)
    end
  end.

Definition attemptAutoRecovery : prog unit :=
  rec ← ask ReadRecovery;
  match rec with
  | None => mret tt
  | Some r =>
    if negb (provider r) then mret tt
    else
      _ ← emitHealthState HealthStateReconnecting;
      ok ← prepareForRecovery;
      if negb ok then emitHealthState HealthStateDisconnected
      else
        stop ← ask ReadDone;
        over ← recovery_loop (Z.to_nat (maxAttempts r)) r stop 0;
        if (over : bool) then mret tt
        else
          _ ← ask MarkExhausted;
          emitHealthState HealthStateDisconnected
  end.

Definition handleMonitoredClose : prog unit :=
  x ← ask MonitoredSection;
  let '(signal, hasRecovery) := (x : nat * bool) in
  _ ← ask (CloseSignal signal);
  if (hasRecovery : bool) then attemptAutoRecovery else emitHealthState HealthStateDisconnected.

(** The goroutine of [startCloseMonitor] for a channel, with the [done] it
    captured. *)
Definition closeMonitor (closeNotify monitorDone : nat) : prog unit :=
  x ← ask (AwaitClose closeNotify monitorDone);
  if (x : bool) then handleMonitoredClose else mret tt.
