(* ===== verification/RabbitPublisherSafety.v ===== *)
(** What a confirmed publish means, under every interleaving of publishers, closes,
    reconnections, monitors, recoveries and the broker. *)

From stdpp Require Import base numbers list gmap.
From S2P Require Import Prelude Effects Backoff RabbitPublisher.

Local Open Scope go_scope.

Implicit Types (s : ConfirmablePublisher) (a : amqpChannel) (tr : list (event answer)) (c i : nat) (m : publishing) (msg : Z) (asked : bool).

(** ** Channels *)

(** Every message sent on the channel has been confirmed and the confirmation read. *)
Definition synced a : Prop := c_read a = length (c_log a) ∧ length (c_log a) = length (c_sent a) ∧ c_bounced a = false.

(** Nothing has ever been sent. *)
Definition pristine a : Prop := c_sent a = [] ∧ c_log a = [] ∧ c_read a = 0%nat ∧ c_returns a = [] ∧ c_bounced a = false.

(** The returns that wait, when [k] is the only message they can be about. *)
Definition bounce (k : nat) (b : bool) : list nat := if b then [k] else [].

(** One message is under way, or its confirmation waits to be read. *)
Definition under_way a (k : nat) m : Prop :=
  length (c_sent a) = S k ∧ c_sent a !! k = Some m ∧ c_read a = k ∧
  ((length (c_log a) = k ∧ c_returns a = bounce k (c_bounced a)) ∨
   ∃ v, length (c_log a) = S k ∧ c_log a !! k = Some v ∧ c_bounced a = false ∧ c_returns a = bounce k (v_returned v)).

Definition judged a (k : nat) m (ack : bool) : Prop :=
  synced a ∧ c_read a = S k ∧ c_sent a !! k = Some m ∧
  ∃ v, c_log a !! k = Some v ∧ v_ack v = ack ∧ c_returns a = bounce k (v_returned v).

Definition delivered_on a (k : nat) m : Prop := c_sent a !! k = Some m ∧ c_log a !! k = Some {| v_returned := false; v_ack := true |}.

(** What the broker and the closing of a channel do to it. *)
Inductive moved : amqpChannel → amqpChannel → Prop :=
| moved_refl a : moved a a
| moved_return a : moved a (broker_returns a)
| moved_confirm a ack : moved a (broker_confirms ack a)
| moved_close a : moved a (closed_channel a).

Lemma in_flight_synced a : synced a → in_flight a = false.
Proof. intros (_ & E & _). unfold in_flight. rewrite E. apply bool_decide_eq_false. lia. Qed.

Lemma pristine_synced a : pristine a → synced a.
Proof. intros (E1 & E2 & E3 & _ & E5). split_and!; rewrite ?E1, ?E2, ?E3, ?E5; done. Qed.

(** A channel with nothing under way does not change but by being closed. *)
Lemma synced_moved a a' : synced a → moved a a' → a' = a ∨ a' = closed_channel a.
Proof.
  intros Hs%in_flight_synced Hm. destruct Hm; auto; left; unfold broker_returns, broker_confirms; by rewrite Hs, andb_false_r.
Qed.

Lemma moved_open a a' : moved a a' → c_open a' = true → c_open a = true.
Proof.
  destruct 1; [done|..]; unfold broker_returns, broker_confirms; [destruct (_ && _ && _)%bool|destruct (_ && _)%bool|]; done.
Qed.

Lemma moved_synced a a' : moved a a' → (c_open a = true → synced a) → c_open a' = true → synced a'.
Proof.
  intros Hm Hs Ho. specialize (Hs (moved_open _ _ Hm Ho)). by destruct (synced_moved _ _ Hs Hm) as [->| ->].
Qed.

Lemma moved_drained a a' : moved a a' → (c_open a = true → synced a ∧ c_returns a = []) → c_open a' = true → synced a' ∧ c_returns a' = [].
Proof.
  intros Hm Hs Ho. destruct (Hs (moved_open _ _ Hm Ho)) as [Hs' Hr]. by destruct (synced_moved _ _ Hs' Hm) as [->| ->].
Qed.

Lemma moved_pristine a a' : moved a a' → pristine a → pristine a'.
Proof. intros Hm Hp. by destruct (synced_moved _ _ (pristine_synced _ Hp) Hm) as [->| ->]. Qed.

Lemma moved_judged a a' k m ack : moved a a' → judged a k m ack → judged a' k m ack.
Proof. intros Hm Hj. by destruct (synced_moved a a') as [->| ->]; [apply Hj|done|..]. Qed.

Lemma moved_delivered a a' k m : moved a a' → delivered_on a k m → delivered_on a' k m.
Proof.
  intros Hm [H1 H2]. destruct Hm; [done|..|done]; unfold broker_returns, broker_confirms.
  - by destruct (_ && _ && _)%bool.
  - destruct (_ && _)%bool; [|done]. split; [done|]. cbn. by apply lookup_app_l_Some.
Qed.

Lemma moved_under_way a a' k m : moved a a' → under_way a k m → under_way a' k m.
Proof.
  intros Hm (H1 & H2 & H3 & H4). destruct Hm; [done|..|done]; unfold broker_returns, broker_confirms.
  - destruct (_ && _ && _)%bool eqn:E; [|done]. apply andb_true_iff in E as [[_ Ef]%andb_true_iff [_ Eb]%andb_true_iff].
    apply bool_decide_eq_true in Ef. destruct H4 as [[H4 H5]|(v & H4 & _)]; [|lia]. split_and!; [done..|]. left. split; [done|].
    cbn. rewrite H5, H4. by destruct (c_bounced a).
  - destruct (_ && _)%bool eqn:E; [|done]. apply andb_true_iff in E as [_ Ef].
    apply bool_decide_eq_true in Ef. destruct H4 as [[H4 H5]|(v & H4 & _)]; [|lia]. split_and!; [done..|]. right. eexists. cbn.
    rewrite length_app, H4. split_and!; [simpl; lia|rewrite <- H4; by apply list_lookup_middle|done|done].
Qed.

(** ** Phases of a thread *)

(** Where a thread is with respect to [publishMu]: outside, and what it has
    delivered; inside, and what it knows of the channel it uses. *)
Inductive phase :=
| Out | Held | Ready (c conf rets sg : nat) | Drained (c conf rets sg : nat) | Sent (c conf rets sg : nat) m
| Judged (c conf rets sg k : nat) m (ack : bool) | Kept (c conf rets sg k : nat) m | Lost | Shut | Gone (c k : nat) m.

Definition next_phase (ph : phase) (e : event answer) : phase :=
  match e with
  | Ev LockPublish _ => Held
  | Ev UnlockPublish _ => match ph with Kept c _ _ _ k m => Gone c k m | _ => Out end
  | Ev PublishSection x => match x with Use c conf rets sg _ => Ready c conf rets sg | Refused _ => Held end
  | Ev (DrainReturns _) _ => match ph with Ready c conf rets sg => Drained c conf rets sg | _ => ph end
  | Ev (PublishWithContext _ m) None => match ph with Drained c conf rets sg => Sent c conf rets sg m | _ => ph end
  | Ev (WaitConfirm _ _ _) x =>
    match ph with
    | Sent c conf rets sg m =>
      match x with
      | Confirmed tag ack => Judged c conf rets sg (pred tag) m ack
      | ConfirmsClosed => Ready c conf rets sg
      | SawClosed => Shut
      | TimedOut | CtxDone _ => Lost
      end
    | _ => ph
    end
  | Ev (TakeReturn _) b =>
    match ph with Judged c conf rets sg k m true => if b : bool then Ready c conf rets sg else Kept c conf rets sg k m | _ => ph end
  | Ev InvalidateSection _ => Shut
  | Ev PrepareSection (Some _) | Ev CloseSection (Some _) => Shut
  | _ => ph
  end.
Definition phase_of tr : phase := foldl next_phase Out tr.

Definition inside (ph : phase) : bool := match ph with Out | Gone _ _ _ => false | _ => true end.

(** The channels a thread has opened and not handed to the publisher. *)
Definition next_hands (S : gset nat) (e : event answer) : gset nat :=
  match e with
  | Ev Provide (Ok (Some c)) => {[c]} ∪ S
  | Ev OpenChannel c => {[c]} ∪ S
  | Ev (ReconnectSection c) _ => S ∖ {[c]}
  | _ => S
  end.
Definition hands tr : gset nat := foldl next_hands ∅ tr.

(** What the programs promise of their commands. *)
Definition allowed (ph : phase) (S : gset nat) tr (c : cmd) : Prop :=
  match c with
  | LockPublish => inside ph = false
  | UnlockPublish => match ph with Out | Gone _ _ _ | Lost | Sent _ _ _ _ _ => False | _ => True end
  | PublishSection | PrepareSection | CloseSection => ph = Held
  | DrainReturns r => ∃ c conf sg, ph = Ready c conf r sg
  | PublishWithContext c _ => ∃ conf rets sg, ph = Drained c conf rets sg
  | WaitConfirm conf sg _ => ∃ c rets m, ph = Sent c conf rets sg m
  | TakeReturn r => ∃ c conf sg k m, ph = Judged c conf r sg k m true
  | InvalidateSection => ph = Lost
  | CloseClosedCh | RenewSection | DrainConfirms _ _ => ph = Shut
  | CloseSignal x => ∃ b, Ev MonitoredSection (x, b) ∈ tr
  | ReconnectSection c => ph = Held ∧ c ∈ S
  | _ => True
  end.
Definition promised tr (c : cmd) : Prop := allowed (phase_of tr) (hands tr) tr c.

(** ** What a phase says of the publisher *)

Definition on_chan s c (P : amqpChannel → Prop) : Prop := ∃ a, channels s !! c = Some a ∧ P a.

(** An open publisher's channel is the one its confirmations come from, and it is
    closed or has nothing under way. *)
Definition quiet s : Prop := closed s = false → ∀ c, ch s = Some c →
  confirms s = c ∧ returns s = c ∧ on_chan s c (λ a, c_open a = true → synced a).

Definition in_use s c conf rets sg : Prop :=
  conf = c ∧ rets = c ∧ confirms s = c ∧ returns s = c ∧ closedCh s = sg ∧ ∀ c', ch s = Some c' → c' = c.

Definition phase_ok s (ph : phase) : Prop :=
  match ph with
  | Out | Lost => True
  | Held => quiet s
  | Shut => closed s = true
  | Ready c conf rets sg => in_use s c conf rets sg ∧ on_chan s c (λ a, c_open a = true → synced a)
  | Drained c conf rets sg => in_use s c conf rets sg ∧ on_chan s c (λ a, c_open a = true → synced a ∧ c_returns a = [])
  | Sent c conf rets sg m => in_use s c conf rets sg ∧ on_chan s c (λ a, ∃ k, under_way a k m)
  | Judged c conf rets sg k m ack => in_use s c conf rets sg ∧ on_chan s c (λ a, judged a k m ack)
  | Kept c conf rets sg k m => in_use s c conf rets sg ∧ on_chan s c (λ a, synced a ∧ delivered_on a k m)
  | Gone c k m => on_chan s c (λ a, delivered_on a k m)
  end.

Lemma on_chan_weaken s c (P Q : amqpChannel → Prop) : (∀ a, P a → Q a) → on_chan s c P → on_chan s c Q.
Proof. intros HPQ (a & Ha & HP). exists a. auto. Qed.

Lemma unlock_quiet s ph S tr : phase_ok s ph → allowed ph S tr UnlockPublish → quiet s.
Proof.
  assert (Hu : ∀ c conf rets sg, in_use s c conf rets sg → on_chan s c (λ a, c_open a = true → synced a) → quiet s).
  { intros c conf rets sg (_ & _ & E1 & E2 & _ & E3) Hc _ c' Hc'. apply E3 in Hc' as ->. done. }
  destruct ph; simpl; try done; intros Hp _; try (destruct Hp as [Hi Hc]; eapply Hu; [exact Hi|]; eapply on_chan_weaken; [|exact Hc]).
  - done.
  - intros a Ha Ho. by apply Ha.
  - intros a Ha _. apply Ha.
  - intros a Ha _. apply Ha.
  - intros E. congruence.
Qed.

(** *** Steps of others *)

Record env_change s s' : Prop := {
  ec_ch : ch s' = ch s; ec_confirms : confirms s' = confirms s; ec_returns : returns s' = returns s; ec_closedCh : closedCh s' = closedCh s;
  ec_closed : closed s = true → closed s' = true;
  ec_chan : ∀ c a, channels s !! c = Some a → ∃ a', channels s' !! c = Some a' ∧ moved a a' }.

Lemma env_on_chan s s' c (P Q : amqpChannel → Prop) : env_change s s' → (∀ a a', moved a a' → P a → Q a') → on_chan s c P → on_chan s' c Q.
Proof. intros He HPQ (a & Ha & HP). destruct (ec_chan _ _ He c a Ha) as (a' & Ha' & Hm). exists a'. eauto. Qed.

Lemma env_in_use s s' c conf rets sg : env_change s s' → in_use s c conf rets sg → in_use s' c conf rets sg.
Proof. intros [E1 E2 E3 E4 _ _] (H1 & H2 & H3 & H4 & H5 & H6). unfold in_use. rewrite E1, E2, E3, E4. done. Qed.

Lemma env_quiet s s' : env_change s s' → quiet s → quiet s'.
Proof.
  intros He Hq Hcl c Hc. destruct (Hq) with c as (H1 & H2 & H3).
  { destruct (closed s) eqn:E; [|done]. rewrite (ec_closed _ _ He E) in Hcl. done. }
  { by rewrite <- (ec_ch _ _ He). }
  split_and!; [by rewrite (ec_confirms _ _ He)|by rewrite (ec_returns _ _ He)|]. eapply env_on_chan; [exact He| |exact H3]. apply moved_synced.
Qed.

Lemma env_phase_ok s s' ph : env_change s s' → phase_ok s ph → phase_ok s' ph.
Proof.
  intros He. destruct ph; simpl; try done.
  - by apply env_quiet.
  - intros [Hi Hc]. split; [by eapply env_in_use|]. eapply env_on_chan; [exact He| |exact Hc]. apply moved_synced.
  - intros [Hi Hc]. split; [by eapply env_in_use|]. eapply env_on_chan; [exact He| |exact Hc]. apply moved_drained.
  - intros [Hi Hc]. split; [by eapply env_in_use|]. eapply env_on_chan; [exact He| |exact Hc].
    intros a a' Hm [k Hk]. exists k. by eapply moved_under_way.
  - intros [Hi Hc]. split; [by eapply env_in_use|]. eapply env_on_chan; [exact He| |exact Hc]. intros a a' Hm. by apply moved_judged.
  - intros [Hi Hc]. split; [by eapply env_in_use|]. eapply env_on_chan; [exact He| |exact Hc].
    intros a a' Hm [Hs Hd]. split; [|by eapply moved_delivered]. by destruct (synced_moved _ _ Hs Hm) as [->| ->].
  - apply (ec_closed _ _ He).
  - apply env_on_chan; [done|]. intros a a' Hm. by apply moved_delivered.
Qed.

(** The commands that leave the lock and what it protects alone. *)
Definition neutral (c : cmd) : bool :=
  match c with
  | LockPublish | UnlockPublish | PublishSection | DrainReturns _ | PublishWithContext _ _ | WaitConfirm _ _ _ | TakeReturn _
  | InvalidateSection | CloseClosedCh | PrepareSection | DrainConfirms _ _ | RenewSection | ReconnectSection _ | CloseSection => false
  | _ => true
  end.

Lemma env_same s s' : ch s' = ch s → confirms s' = confirms s → returns s' = returns s → closedCh s' = closedCh s →
  closed s' = closed s → channels s' = channels s → env_change s s'.
Proof. intros E1 E2 E3 E4 E5 E6. split; [done..|by rewrite E5|]. rewrite E6. intros c a Ha. exists a. split; [done|constructor]. Qed.

Lemma env_alter s c f : (∀ a, moved a (f a)) → env_change s (on_channel c f s).
Proof.
  intros Hf. split; [done..|]. intros c' a Ha. cbn. destruct (decide (c = c')) as [<-|Hne].
  - rewrite list_lookup_alter_eq, Ha. exists (f a). done.
  - rewrite list_lookup_alter_ne by done. exists a. split; [done|constructor].
Qed.

Lemma env_open s b : env_change s (open_channel b s).2.
Proof.
  split; [done..|]. intros c a Ha. exists a. split; [|constructor]. cbn. by apply lookup_app_l_Some.
Qed.

Local Ltac case_cmd cm :=
  destruct cm as [| | |c|c msg|c y t|c| | |y|c|h|h|c d| | | |c t| | |y| |d y| | |c| | |c|c b|c].

Lemma exec_neutral l (cm : cmd) s : neutral cm = true → env_change s (exec l cm s).2 ∧ publishMu (exec l cm s).2 = publishMu s.
Proof.
  case_cmd cm; try discriminate; intros _; cbn [exec]; try (split; [by apply env_same|done]).
  - split; [apply env_alter; constructor|done].
  - split; [|done]. cbn. split; [done..|]. intros c a Ha. exists a. split; [done|constructor].
  - destruct (provides l) as [[b|]|e]; [|split; [by apply env_same|done]..]. split; [apply (env_open s b)|done].
  - split; [apply (env_open s true)|done].
  - split; [apply env_alter; constructor|done].
  - split; [apply env_alter; constructor|done].
  - split; [apply env_alter; constructor|done].
Qed.

(** *** Signals *)

Record sig_ok s : Prop := {
  so_closedCh : (closedCh s < next_signal s)%nat;
  so_done : (done s < next_signal s)%nat;
  so_signals : ∀ x, x ∈ signals s → (x < next_signal s)%nat;
  so_closed : closedCh s ∈ signals s → closed s = true }.

(** A signal that a monitor has taken to close it. *)
Definition captured s x : Prop := (x < next_signal s)%nat ∧ (closedCh s = x → closed s = true).

Lemma sig_close s x : sig_ok s → captured s x → sig_ok (close_signal x s).
Proof.
  intros [H1 H2 H3 H4] [Hx Hc]. split; cbn; [done..| |].
  - intros y [->%elem_of_singleton|Hy]%elem_of_union; auto.
  - intros [E%elem_of_singleton|Hy]%elem_of_union; auto.
Qed.

Lemma exec_captured l (cm : cmd) s x : captured s x → captured (exec l cm s).2 x.
Proof.
  intros Hx. pose proof Hx as [Hlt Hc]. case_cmd cm; cbn [exec]; try exact Hx.
  - destruct (is_open s c); [destruct (send_error l)|]; exact Hx.
  - unfold wait_confirm. destruct (pick l), (channels s !! c); try exact Hx. by destruct (c_log a !! c_read a).
  - split; [done|]. done.
  - split; [done|]. done.
  - unfold prepare_section. destruct (shutdown s); [exact Hx|]. split; [done|]. done.
  - split; [cbn; lia|done].
  - destruct (provides l) as [[b|]|e]; exact Hx.
  - unfold reconnect_section. destruct (negb (closed s)); [exact Hx|]. destruct (shutdown s); [exact Hx|].
    destruct (channels s !! c ≫= returnNotifierFor); [exact Hx|]. destruct (confirm_error l); [exact Hx|]. split; cbn; lia.
  - unfold close_section. destruct (shutdown s); [exact Hx|]. split; [done|]. done.
Qed.

Lemma sig_same s s' : sig_ok s → closedCh s' = closedCh s → done s' = done s → signals s' = signals s → next_signal s' = next_signal s →
  (closed s = true → closed s' = true) → sig_ok s'.
Proof. intros [H1 H2 H3 H4] E1 E2 E3 E4 E5. split; rewrite ?E1, ?E2, ?E3, ?E4; auto. Qed.

Lemma exec_sig l (cm : cmd) s ph S tr : sig_ok s → allowed ph S tr cm → phase_ok s ph →
  (∀ x b, Ev MonitoredSection (x, b) ∈ tr → captured s x) → sig_ok (exec l cm s).2.
Proof.
  intros Hs Ha Hp Hcap. pose proof Hs as [H1 H2 H3 H4].
  assert (Hshut : ∀ f, closedCh (f s) = closedCh s → done (f s) = done s → signals (f s) = signals s → next_signal (f s) = next_signal s →
            closed (f s) = true → sig_ok (close_signal (closedCh s) (close_signal (done s) (f s)))).
  { intros f E1 E2 E3 E4 E5. apply sig_close; [apply sig_close; [by apply (sig_same s)|]|]; split; cbn; rewrite ?E4; auto. }
  case_cmd cm; cbn [exec]; try (by apply (sig_same s)).
  - destruct (is_open s c); [destruct (send_error l)|]; by apply (sig_same s).
  - unfold wait_confirm. destruct (pick l), (channels s !! c) as [a|]; try by apply (sig_same s). destruct (c_log a !! c_read a); by apply (sig_same s).
  - cbn in Ha. subst ph. apply sig_close; [done|]. split; [done|]. done.
  - destruct Ha as [b Hb]. apply sig_close; [done|]. by eapply Hcap.
  - unfold prepare_section. destruct (shutdown s); [exact Hs|].
    by apply (Hshut (λ s, s <| closed := true |> <| recoveryExhausted := false |> <| ch := None |>)).
  - split; cbn; [lia|lia|intros x Hx; specialize (H3 x Hx); lia|done].
  - destruct (provides l) as [[b|]|e]; by apply (sig_same s).
  - unfold reconnect_section. destruct (negb (closed s)); [exact Hs|]. destruct (shutdown s); [exact Hs|].
    destruct (channels s !! c ≫= returnNotifierFor); [exact Hs|]. destruct (confirm_error l); [exact Hs|].
    split; cbn; [lia|lia|intros x Hx; specialize (H3 x Hx); lia|]. intros Hn%H3. lia.
  - unfold close_section. destruct (shutdown s); [exact Hs|].
    by apply (Hshut (λ s, s <| shutdown := true |> <| closed := true |> <| recoveryExhausted := false |>)).
Qed.

(** *** Every step keeps what has been delivered, and channels that are not in use *)

Lemma on_channel_eq s c f a : channels s !! c = Some a → channels (on_channel c f s) !! c = Some (f a).
Proof. intros Ha. cbn. by rewrite list_lookup_alter_eq, Ha. Qed.
Lemma on_channel_ne s c c' f : c ≠ c' → channels (on_channel c f s) !! c' = channels s !! c'.
Proof. intros Hne. cbn. by rewrite list_lookup_alter_ne. Qed.

Lemma on_chan_alter s c c' f (P Q : amqpChannel → Prop) : (∀ a, P a → Q a) → (c = c' → ∀ a, channels s !! c' = Some a → P a → Q (f a)) →
  on_chan s c' P → on_chan (on_channel c f s) c' Q.
Proof.
  intros HPQ Hf (a & Ha & HP). destruct (decide (c = c')) as [<-|Hne].
  - exists (f a). split; [by apply on_channel_eq|auto].
  - exists a. split; [by rewrite on_channel_ne|auto].
Qed.

Lemma exec_delivered l (cm : cmd) s c' k m : on_chan s c' (λ a, delivered_on a k m) → on_chan (exec l cm s).2 c' (λ a, delivered_on a k m).
Proof.
  intros Hd. destruct (neutral cm) eqn:Hn.
  { eapply env_on_chan; [by apply exec_neutral| |exact Hd]. intros a a' Hm. by apply moved_delivered. }
  case_cmd cm; try discriminate; cbn [exec]; try exact Hd.
  - by eapply on_chan_alter; [| |exact Hd].
  - destruct (is_open s c); [destruct (send_error l)|]; [exact Hd| |exact Hd]. eapply on_chan_alter; [| |exact Hd]; [done|].
    intros _ a _ [H1 H2]. split; [|done]. cbn. by apply lookup_app_l_Some.
  - unfold wait_confirm. destruct (pick l), (channels s !! c); try exact Hd. destruct (c_log a !! c_read a); [|exact Hd].
    by eapply on_chan_alter; [| |exact Hd].
  - by eapply on_chan_alter; [| |exact Hd].
  - unfold prepare_section. by destruct (shutdown s).
  - by eapply on_chan_alter; [| |exact Hd].
  - unfold reconnect_section. destruct (negb (closed s)); [exact Hd|]. destruct (shutdown s); [exact Hd|].
    destruct (channels s !! c ≫= returnNotifierFor); [exact Hd|]. by destruct (confirm_error l).
  - unfold close_section. by destruct (shutdown s).
Qed.

(** A channel in somebody's hands: nothing was sent on it and it is not in use. *)
Definition spare s c : Prop := on_chan s c pristine ∧ confirms s ≠ c.

Lemma exec_spare l (cm : cmd) s ph S tr c' : allowed ph S tr cm → phase_ok s ph → spare s c' → cm ≠ ReconnectSection c' → spare (exec l cm s).2 c'.
Proof.
  intros Ha Hp [Hd Hne] Hnr. destruct (neutral cm) eqn:Hn.
  { destruct (exec_neutral l cm s Hn) as [He _]. split; [|by rewrite (ec_confirms _ _ He)].
    eapply env_on_chan; [exact He| |exact Hd]. intros a a' Hm. by apply moved_pristine. }
  case_cmd cm; try discriminate; cbn [exec]; try (by split).
  - split; [|done]. by eapply on_chan_alter; [| |exact Hd]; [|intros _ a _ (? & ? & ? & ? & ?)].
  - destruct Ha as (conf & rets & sg & ->). destruct Hp as [(_ & _ & E & _) _].
    destruct (is_open s c); [destruct (send_error l)|]; [by split| |by split]. split; [|done].
    eapply on_chan_alter; [| |exact Hd]; [done|congruence].
  - unfold wait_confirm. destruct (pick l); try (by split); destruct (channels s !! c) as [a|] eqn:E; try (by split).
    destruct (c_log a !! c_read a) eqn:El; [|by split]. split; [|done]. eapply on_chan_alter; [| |exact Hd]; [done|].
    intros -> a' Ha' (? & E2 & ?). rewrite E in Ha'. injection Ha' as <-. by rewrite E2 in El.
  - split; [|done]. eapply on_chan_alter; [| |exact Hd]; [done|]. intros _ a _ (? & ? & ? & E & ?). split_and!; try done. cbn. by rewrite E.
  - unfold prepare_section. by destruct (shutdown s); split.
  - split; [|done]. eapply on_chan_alter; [| |exact Hd]; [done|]. intros _ a _ (? & E & ? & ? & ?). split_and!; try done. cbn. rewrite E. simpl. lia.
  - unfold reconnect_section. destruct (negb (closed s)); [by split|]. destruct (shutdown s); [by split|].
    destruct (channels s !! c ≫= returnNotifierFor); [by split|]. destruct (confirm_error l); [by split|]. split; [done|]. cbn. congruence.
  - unfold close_section. by destruct (shutdown s); split.
Qed.

(** *** Steps of the thread itself *)

Lemma neutral_phase ph (cm : cmd) x : neutral cm = true → next_phase ph (Ev cm x) = ph.
Proof. by destruct cm. Qed.

Lemma in_use_alter s c conf rets sg c' f : in_use s c conf rets sg → in_use (on_channel c' f s) c conf rets sg.
Proof. done. Qed.

Lemma own_publish_section s : quiet s → phase_ok s (next_phase Held (Ev PublishSection (publish_section s))).
Proof.
  intros Hq. unfold publish_section. simpl. destruct (closed s) eqn:E; [by destruct (recoveryExhausted s)|].
  destruct (ch s) as [c|] eqn:Ec; [|done]. destruct (Hq E c Ec) as (H1 & H2 & H3). split; [|done]. split_and!; try done.
  intros c' Hc'. congruence.
Qed.

Lemma own_wait pk s c conf rets sg m t : sig_ok s → phase_ok s (Sent c conf rets sg m) →
  let r := wait_confirm pk conf sg s in phase_ok r.2 (next_phase (Sent c conf rets sg m) (Ev (WaitConfirm conf sg t) r.1)).
Proof.
  intros Hs [Hi (a & Ha & k & Hw)]. pose proof Hi as (-> & -> & _ & _ & Es & _). unfold wait_confirm. rewrite Ha.
  destruct pk; simpl; [|by case_bool_decide as E; [rewrite <- Es in E; apply (so_closed s Hs)|]|done|done].
  pose proof Hw as (H1 & H2 & H3 & H4). rewrite H3. destruct H4 as [[H4 H5]|(v & H4 & H5 & H6 & H7)].
  - rewrite lookup_ge_None_2 by lia. destruct (c_open a) eqn:Eo; simpl; [done|]. split; [done|]. exists a. split; [done|]. congruence.
  - rewrite H5. simpl. split; [done|]. eexists. split; [by apply on_channel_eq|]. split; [split_and!; cbn; congruence|].
    split; [cbn; congruence|]. split; [done|]. by exists v.
Qed.

Lemma own_take s c conf rets sg k m : phase_ok s (Judged c conf rets sg k m true) →
  let b := match channels s !! rets with Some a => negb (bool_decide (c_returns a = [])) | None => false end in
  phase_ok (on_channel rets (λ a, a <| c_returns := tail (c_returns a) |>) s) (next_phase (Judged c conf rets sg k m true) (Ev (TakeReturn rets) b)).
Proof.
  intros [Hi (a & Ha & Hs & H1 & H2 & v & Hv & Hack & Hr)]. pose proof Hi as (-> & -> & _). cbv zeta. rewrite Ha, Hr.
  destruct v as [[] ack]; simpl in *; (split; [done|]); eexists; (split; [by apply on_channel_eq|]); [done|].
  split; [done|]. split; [done|]. cbn. by rewrite Hack in Hv.
Qed.

Lemma own_reconnect e s c : spare s c → quiet s → let r := reconnect_section e c s in
  phase_ok r.2 (next_phase Held (Ev (ReconnectSection c) r.1)).
Proof.
  intros [(a & Ha & Hp) _] Hq. unfold reconnect_section. simpl. destruct (negb (closed s)); [done|]. destruct (shutdown s); [done|].
  destruct (channels s !! c ≫= returnNotifierFor); [done|]. destruct e; [done|]. intros _ c' [= <-]. cbn. split_and!; [done..|].
  exists a. split; [done|]. intros _. by apply pristine_synced.
Qed.

Lemma pub_exec_own l (cm : cmd) s ph S tr : sig_ok s → phase_ok s ph → allowed ph S tr cm → (∀ c, c ∈ S → spare s c) →
  (cm = LockPublish → quiet s) → phase_ok (exec l cm s).2 (next_phase ph (Ev cm (exec l cm s).1)).
Proof.
  intros Hs Hp Ha HS Hlock. destruct (neutral cm) eqn:Hn.
  { rewrite neutral_phase by done. eapply env_phase_ok; [by apply exec_neutral|done]. }
  case_cmd cm; try discriminate; cbn [exec].
  - by apply Hlock.
  - destruct ph; try done. destruct Hp as [_ Hc]. eapply on_chan_weaken; [|exact Hc]. by intros a [_ Hd].
  - simpl in Ha. subst ph. by apply own_publish_section.
  - destruct Ha as (c' & conf & sg & ->). destruct Hp as [Hi (a & Ha & Hc)]. pose proof Hi as (_ & -> & _). split; [done|].
    eexists. split; [by apply on_channel_eq|]. intros Ho. split; [by apply Hc|done].
  - destruct Ha as (conf & rets & sg & ->). destruct Hp as [Hi (a & Ha & Hc)]. unfold is_open. rewrite Ha.
    destruct (c_open a) eqn:Eo; [|split; [done|]; exists a; split; [done|congruence]].
    destruct (send_error l); [split; [done|]; exists a; split; [done|]; intros _; by apply Hc|]. split; [done|].
    eexists. split; [by apply on_channel_eq|]. destruct (Hc eq_refl) as [(E1 & E2 & E3) Er]. exists (length (c_sent a)). split_and!; cbn.
    + rewrite length_app. simpl. lia.
    + by apply list_lookup_middle.
    + lia.
    + left. by rewrite E3, Er.
  - destruct Ha as (c' & rets & m & ->). by apply own_wait.
  - destruct Ha as (c' & conf & sg & k & m & ->). by apply own_take.
  - done.
  - by simpl in Ha; subst ph.
  - simpl in Ha. subst ph. unfold prepare_section. by destruct (shutdown s).
  - by simpl in Ha; subst ph.
  - by simpl in Ha; subst ph.
  - destruct Ha as [-> Hc]. apply own_reconnect; [by apply HS|done].
  - simpl in Ha. subst ph. unfold close_section. by destruct (shutdown s).
Qed.

(** ** All users together *)

Inductive call :=
| CallPublish asked msg | CallClose | CallReconnect | CallReconnectNil | CallMonitor (c d : nat)
| CallBrokerReturns c | CallBrokerConfirms c (ack : bool) | CallBrokerCloses c.

Definition call_program (cl : call) : prog (option pub_error) :=
  match cl with
  | CallPublish asked msg => Publish false asked msg
  | CallClose => Close false
  | CallReconnect => c ← ask OpenChannel; Reconnect false (Some c)
  | CallReconnectNil => Reconnect false None
  | CallMonitor c d => (λ _, None) <$> closeMonitor c d
  | CallBrokerReturns c => (λ _, None) <$> ask (BrokerReturns c)
  | CallBrokerConfirms c ack => (λ _, None) <$> ask (BrokerConfirms c ack)
  | CallBrokerCloses c => (λ _, None) <$> ask (BrokerCloses c)
  end.

(** A thread ends outside the lock; a publish without an error has delivered its
    message. *)
Definition leaves (cl : call) (r : option pub_error) tr : Prop :=
  inside (phase_of tr) = false ∧ match cl, r with CallPublish _ msg, None => ∃ c k, phase_of tr = Gone c k (mandatory msg) | _, _ => True end.

Definition guard tr : Prop := guarded (λ _, True) promised tr.
Definition call_spec (cl : call) : (list (event answer) → Prop) * (list (event answer) → option pub_error → Prop) :=
  (guard, λ tr r, guard tr ∧ leaves cl r tr).

Definition pub_world := world answer ConfirmablePublisher (option pub_error).

Record world_ok (calls : list call) (w : pub_world) : Prop := {
  wo_threads : Forall2 thread_ok (call_spec <$> calls) (w_threads w);
  wo_inside : ∀ i th, w_threads w !! i = Some th → inside (phase_of (th_trace th)) = true → publishMu (w_state w) = true;
  wo_unique : ∀ i j th th', w_threads w !! i = Some th → w_threads w !! j = Some th' →
    inside (phase_of (th_trace th)) = true → inside (phase_of (th_trace th')) = true → i = j;
  wo_quiet : publishMu (w_state w) = false → quiet (w_state w);
  wo_phase : ∀ i th, w_threads w !! i = Some th → phase_ok (w_state w) (phase_of (th_trace th));
  wo_sig : sig_ok (w_state w);
  wo_captured : ∀ i th x b, w_threads w !! i = Some th → Ev MonitoredSection (x, b) ∈ th_trace th → captured (w_state w) x;
  wo_spare : ∀ i th c, w_threads w !! i = Some th → c ∈ hands (th_trace th) → spare (w_state w) c;
  wo_disjoint : ∀ i j th th' c, w_threads w !! i = Some th → w_threads w !! j = Some th' → i ≠ j →
    c ∈ hands (th_trace th) → c ∉ hands (th_trace th');
  wo_confirms : (confirms (w_state w) < length (channels (w_state w)))%nat }.

(** ** Programs *)

Abbreviation keeping := (keeps promised).

Lemma phase_snoc tr e : phase_of (tr ++ [e]) = next_phase (phase_of tr) e.
Proof. unfold phase_of. by rewrite foldl_app. Qed.
Lemma hands_snoc tr e : hands (tr ++ [e]) = next_hands (hands tr) e.
Proof. unfold hands. by rewrite foldl_app. Qed.

Definition at_phase (Q : phase → Prop) tr : Prop := Q (phase_of tr).
Definition outside : list (event answer) → Prop := at_phase (λ ph, inside ph = false).

(** Commands that do not touch the lock may be issued in every phase. *)
Definition free (cm : cmd) : bool := (neutral cm && match cm with CloseSignal _ => false | _ => true end)%bool.

Lemma free_promised tr (cm : cmd) : free cm = true → promised tr cm.
Proof. by destruct cm. Qed.

Lemma free_snoc Q tr (cm : cmd) x : free cm = true → at_phase Q tr → at_phase Q (tr ++ [Ev cm x]).
Proof. intros Hf. unfold at_phase. rewrite phase_snoc, neutral_phase; [done|]. by apply andb_true_iff in Hf as [? _]. Qed.

Lemma ask_free {X} Q (cm : cmd) (k : answer cm → prog X) Φ : free cm = true →
  (∀ x, keeping (at_phase Q) (k x) Φ) → keeping (at_phase Q) (ask cm ≫= k) Φ.
Proof. intros Hf Hk. apply (keeps_ask cm _ (λ _, at_phase Q)); [intros tr _; by apply free_promised|intros x tr; by apply free_snoc|done]. Qed.

Lemma last_free Q (cm : cmd) : free cm = true → keeping (at_phase Q) (ask cm) (λ _, at_phase Q).
Proof. intros Hf. apply keeps_last; [intros tr _; by apply free_promised|intros x tr; by apply free_snoc]. Qed.

(** A command of the lock, issued in one phase. *)
Lemma ask_in {X} ph (cm : cmd) (k : answer cm → prog X) Φ : (∀ S tr, phase_of tr = ph → allowed ph S tr cm) →
  (∀ x, keeping (at_phase (λ ph', ph' = next_phase ph (Ev cm x))) (k x) Φ) → keeping (at_phase (λ ph', ph' = ph)) (ask cm ≫= k) Φ.
Proof.
  intros Ha Hk. apply (keeps_ask cm _ (λ x, at_phase (λ ph', ph' = next_phase ph (Ev cm x)))); [|intros x tr E|done].
  - intros tr E. unfold at_phase in E. unfold promised. rewrite E. by apply Ha.
  - unfold at_phase in *. by rewrite phase_snoc, E.
Qed.

Lemma emit_keeps Q h : keeping (at_phase Q) (emitHealthState h) (λ _, at_phase Q).
Proof. apply ask_free; [done|]. intros []; [by apply last_free|by apply keeps_ret]. Qed.

Lemma close_if_keeps Q (o : option nat) : keeping (at_phase Q) (close_if o) (λ _, at_phase Q).
Proof. destruct o; [by apply last_free|by apply keeps_ret]. Qed.

Lemma invalidate_keeps c : keeping (at_phase (λ ph, ph = Lost)) (invalidateChannel c) (λ _, at_phase (λ ph, ph = Shut)).
Proof.
  apply ask_in; [done|]. intros ?. cbn [next_phase]. eapply keeps_bind; [apply emit_keeps|]. intros ?. apply ask_in; [done|]. intros ?. cbn [next_phase].
  apply ask_free; [done|]. intros ?. by apply keeps_ret.
Qed.

Definition unlockable (ph : phase) : Prop := match ph with Out | Gone _ _ _ | Lost | Sent _ _ _ _ _ => False | _ => True end.
Definition held_result m (r : option pub_error) (ph : phase) : Prop :=
  unlockable ph ∧ (r = None → ∃ c conf rets sg k, ph = Kept c conf rets sg k m).

Lemma held_error m e ph : unlockable ph → keeping (at_phase (λ ph', ph' = ph)) (mret (Some e)) (λ r, at_phase (held_result m r)).
Proof. intros Hu. apply keeps_ret. intros tr E. unfold at_phase in *. by rewrite E. Qed.

(** What a wait leaves: the stream is in step unless the error says otherwise. *)
Definition waited c conf rets sg m (r : option pub_error) (ph : phase) : Prop :=
  match r with
  | None => ∃ k, ph = Judged c conf rets sg k m true
  | Some e => if isConfirmStreamCorrupted e then ph = Lost else unlockable ph
  end.

Lemma waitForConfirm_keeps c conf rets sg m t :
  keeping (at_phase (λ ph, ph = Sent c conf rets sg m)) (waitForConfirm conf sg t) (λ r, at_phase (waited c conf rets sg m r)).
Proof.
  apply ask_in; [by intros S tr _; exists c, rets, m|]. intros x. apply keeps_ret. intros tr E. unfold at_phase in *. rewrite E.
  destruct x as [|tag []| | |e]; try done. by exists (pred tag).
Qed.

Lemma held_exact m r ph : held_result m r ph → keeping (at_phase (λ ph', ph' = ph)) (mret r) (λ r, at_phase (held_result m r)).
Proof. intros Hh. apply keeps_ret. intros tr E. unfold at_phase in *. by rewrite E. Qed.

Lemma publish_locked_keeps msg : keeping (at_phase (λ ph, ph = Held)) (publish_locked msg) (λ r, at_phase (held_result (mandatory msg) r)).
Proof.
  apply ask_in; [done|]. intros [e|c conf rets sg t]; [by apply held_exact|]. cbn [next_phase].
  apply ask_in; [by intros S tr _; exists c, conf, sg|]. intros ?. cbn [next_phase].
  apply ask_in; [by intros S tr _; exists conf, rets, sg|]. intros [e|]; [by apply held_exact|]. cbn [next_phase].
  eapply keeps_bind; [apply (waitForConfirm_keeps c conf rets sg (mandatory msg))|]. intros [e|]; unfold waited.
  - destruct (isConfirmStreamCorrupted e).
    + eapply keeps_bind; [apply invalidate_keeps|]. intros ?. by apply held_exact.
    + apply (keeps_bind _ _ (λ _, at_phase unlockable)); [by apply keeps_ret|]. intros _. apply keeps_ret. intros tr Hu. by split.
  - apply (keeps_pre _ (λ tr, ∃ k, at_phase (λ ph, ph = Judged c conf rets sg k (mandatory msg) true) tr)); [done|]. apply safely_exists; [done|]. intros k.
    apply ask_in; [by intros S tr _; exists c, conf, sg, k, (mandatory msg)|]. intros []; cbn [next_phase]; [by apply held_exact|]. apply held_exact. split; [done|].
    intros _. by exists c, conf, rets, sg, k.
Qed.

(** Entering and leaving. *)
Lemma locked_keeps {X} (q : prog X) (B : X → phase → Prop) (D : X → list (event answer) → Prop) :
  keeping (at_phase (λ ph, ph = Held)) q (λ r, at_phase (B r)) → (∀ r ph, B r ph → unlockable ph) →
  (∀ r tr, at_phase (λ ph, ∃ ph0, B r ph0 ∧ ph = next_phase ph0 (Ev UnlockPublish tt)) tr → D r tr) →
  keeping outside (with_publishMu q) D.
Proof.
  intros Hq HB HD. apply (keeps_ask LockPublish _ (λ _, at_phase (λ ph, ph = Held))); [done|intros x tr _; unfold at_phase; by rewrite phase_snoc|].
  intros _. eapply keeps_bind; [exact Hq|]. intros r.
  apply (keeps_ask UnlockPublish _ (λ _, at_phase (λ ph, ∃ ph0, B r ph0 ∧ ph = next_phase ph0 (Ev UnlockPublish tt)))).
  - intros tr Hr. unfold at_phase in Hr. apply HB in Hr. unfold promised. by destruct (phase_of tr).
  - intros [] tr Hr. unfold at_phase in *. rewrite phase_snoc. eauto.
  - intros _. apply keeps_ret. apply HD.
Qed.

Lemma unlock_outside ph : inside (next_phase ph (Ev UnlockPublish tt)) = false.
Proof. by destruct ph. Qed.

Lemma locked_outside {X} (q : prog X) : keeping (at_phase (λ ph, ph = Held)) q (λ _, at_phase unlockable) →
  keeping outside (with_publishMu q) (λ _, outside).
Proof. intros Hq. eapply locked_keeps; [exact Hq|done|]. intros r tr (ph0 & _ & E). unfold outside, at_phase. rewrite E. apply unlock_outside. Qed.

Lemma Publish_keeps asked msg : keeping outside (Publish false asked msg) (λ r tr, outside tr ∧ (r = None → ∃ c k, phase_of tr = Gone c k (mandatory msg))).
Proof.
  unfold Publish, PublishAndWaitConfirm. simpl. eapply locked_keeps; [apply publish_locked_keeps|by intros r ph []|].
  intros r tr (ph0 & [Hu Hr] & E). split; [unfold outside, at_phase; rewrite E; apply unlock_outside|].
  intros ->. destruct (Hr eq_refl) as (c & conf & rets & sg & k & ->). exists c, k. by rewrite E.
Qed.

Lemma exact_unlockable {X} ph (x : X) : unlockable ph → keeping (at_phase (λ ph', ph' = ph)) (mret x) (λ _, at_phase unlockable).
Proof. intros Hu. apply keeps_ret. intros tr E. unfold at_phase in *. by rewrite E. Qed.

Lemma Close_keeps : keeping outside (Close false) (λ _, outside).
Proof.
  apply locked_outside, ask_in; [done|]. intros [[[current conf] t]|]; cbn [next_phase]; [|by apply exact_unlockable].
  eapply keeps_bind; [apply close_if_keeps|]. intros [e|]; [by apply exact_unlockable|]. apply ask_in; [done|]. intros ?. cbn [next_phase].
  eapply keeps_bind; [apply emit_keeps|]. intros ?. by apply exact_unlockable.
Qed.

Lemma prepare_keeps : keeping outside prepareForRecovery (λ _, outside).
Proof.
  apply locked_outside, ask_in; [done|]. intros [[[current conf] t]|]; cbn [next_phase]; [|by apply exact_unlockable].
  eapply keeps_bind; [apply close_if_keeps|]. intros ?. apply ask_in; [done|]. intros ?. cbn [next_phase]. apply ask_in; [done|]. intros ?. by apply exact_unlockable.
Qed.

(** A channel just opened is in hand. *)
Definition holding_channel c tr : Prop := outside tr ∧ c ∈ hands tr.

Lemma Reconnect_keeps c : keeping (holding_channel c) (Reconnect false (Some c)) (λ _, outside).
Proof.
  apply (keeps_ask LockPublish _ (λ _ tr, phase_of tr = Held ∧ c ∈ hands tr)).
  { by intros tr [Ho _]. }
  { intros x tr [_ Hc]. by rewrite phase_snoc, hands_snoc. }
  intros _. apply (keeps_bind _ _ (λ _, at_phase (λ ph, ph = Held))).
  - apply (keeps_ask (ReconnectSection c) _ (λ _, at_phase (λ ph, ph = Held))).
    + intros tr [E Hc]. unfold promised. by rewrite E.
    + intros x tr [E _]. unfold at_phase. by rewrite phase_snoc, E.
    + intros [b|e]; [|by apply keeps_ret]. apply (keeps_bind _ _ (λ _, at_phase (λ ph, ph = Held))); [|intros _; by apply keeps_ret].
      destruct b; [by apply last_free|by apply keeps_ret].
  - intros r. apply ask_in; [done|]. intros ?. apply keeps_ret. intros tr E. unfold outside, at_phase in *. by rewrite E.
Qed.

Lemma tryReconnect_keeps : keeping outside tryReconnectChannel (λ _, outside).
Proof.
  apply (keeps_ask Provide _ (λ x tr, match x with Ok (Some c) => holding_channel c tr | _ => outside tr end)).
  { done. }
  { intros [[c|]|e] tr Ho; [split; [by apply (free_snoc _ _ Provide)|]|by apply (free_snoc _ _ Provide)..]. rewrite hands_snoc. simpl. set_solver. }
  intros [c|e]; [|by apply keeps_ret]. apply (keeps_bind _ _ (λ _, outside)).
  - destruct c; [apply Reconnect_keeps|by apply keeps_ret].
  - intros [e|]; (eapply keeps_bind; [first [apply close_if_keeps|apply emit_keeps]|]); intros ?; by apply keeps_ret.
Qed.

Lemma executeRecoveryAttempt_keeps r stop attempt : keeping outside (executeRecoveryAttempt r stop attempt) (λ _, outside).
Proof.
  apply ask_free; [done|]. intros []; [eapply keeps_bind; [apply emit_keeps|]; intros ?; by apply keeps_ret|].
  apply (keeps_bind _ _ (λ _, outside)); [|intros []; [by apply keeps_ret|apply tryReconnect_keeps]].
  apply ask_free; [done|]. intros g. apply (keeps_bind _ _ (λ _, outside)); [case_bool_decide; [by apply last_free|by apply keeps_ret]|].
  intros g'. apply ask_free; [done|]. intros []; [eapply keeps_bind; [apply emit_keeps|]; intros ?; by apply keeps_ret|by apply keeps_ret].
Qed.

Lemma recovery_loop_keeps more r stop attempt : keeping outside (recovery_loop more r stop attempt) (λ _, outside).
Proof.
  revert attempt. induction more as [|more IH]; intros attempt; [by apply keeps_ret|]. eapply keeps_bind; [apply executeRecoveryAttempt_keeps|].
  intros []; [apply IH|by apply keeps_ret..].
Qed.

Lemma attemptAutoRecovery_keeps : keeping outside attemptAutoRecovery (λ _, outside).
Proof.
  apply ask_free; [done|]. intros [r|]; [|by apply keeps_ret]. destruct (negb (provider r)); [by apply keeps_ret|].
  eapply keeps_bind; [apply emit_keeps|]. intros ?. eapply keeps_bind; [apply prepare_keeps|]. intros []; [|apply emit_keeps].
  apply ask_free; [done|]. intros stop. eapply keeps_bind; [apply recovery_loop_keeps|]. intros []; [by apply keeps_ret|].
  apply ask_free; [done|]. intros ?. apply emit_keeps.
Qed.

Lemma closeMonitor_keeps c d : keeping outside (closeMonitor c d) (λ _, outside).
Proof.
  apply ask_free; [done|]. intros []; [|by apply keeps_ret].
  apply (keeps_ask MonitoredSection _ (λ x tr, outside tr ∧ Ev MonitoredSection x ∈ tr)).
  { done. }
  { intros x tr Ho. split; [by apply (free_snoc _ _ MonitoredSection)|]. apply elem_of_app. right. by left. }
  intros [x b]. apply (keeps_ask (CloseSignal x) _ (λ _, outside)).
  { intros tr [_ Hin]. by exists b. }
  { intros y tr [Ho _]. unfold outside, at_phase in *. by rewrite phase_snoc. }
  intros _. destruct b; [apply attemptAutoRecovery_keeps|apply emit_keeps].
Qed.

Lemma pub_call_keeps cl : keeping outside (call_program cl) (λ r tr, leaves cl r tr).
Proof.
  assert (Hf : ∀ (q : prog unit) cl, match cl with CallPublish _ _ => False | _ => True end → keeping outside q (λ _, outside) →
            keeping outside ((λ _, @None pub_error) <$> q) (λ r tr, leaves cl r tr)).
  { intros q cl' Hcl Hq. unfold fmap, eff_fmap. eapply keeps_bind; [exact Hq|]. intros x. apply keeps_ret. intros tr Ho. split; [done|]. by destruct cl'. }
  destruct cl as [asked msg| | | |c d|c|c ack|c]; cbn [call_program]; try (apply Hf; [done|]).
  - eapply safely_weaken; [done| |apply Publish_keeps]. intros [e|] tr [Ho Hr]; split; [done|done|done|by apply Hr].
  - eapply safely_weaken; [done| |apply Close_keeps]. by intros r tr.
  - apply (keeps_ask OpenChannel _ holding_channel); [done| |].
    + intros c tr Ho. split; [by apply (free_snoc _ _ OpenChannel)|]. rewrite hands_snoc. simpl. set_solver.
    + intros c. eapply safely_weaken; [done| |apply Reconnect_keeps]. by intros r tr.
  - apply keeps_ret. by intros tr.
  - apply closeMonitor_keeps.
  - by apply (last_free (λ ph, inside ph = false)).
  - by apply (last_free (λ ph, inside ph = false)).
  - by apply (last_free (λ ph, inside ph = false)).
Qed.

(** ** Every interleaving *)

Lemma call_promise (cl : call) th (cm : cmd) k : thread_ok (call_spec cl) th → th_rest th = Do cm k → promised (th_trace th) cm.
Proof.
  intros Ht Hr. unfold thread_ok in Ht. rewrite Hr in Ht. destruct Ht as [_ Hk].
  assert (Hx : inhabited (answer cm)).
  { clear. destruct cm; constructor; cbn; try exact tt; try exact None; try exact true; try exact 0%nat.
    - exact (Refused ErrPublisherClosed). - exact TimedOut. - exact (0%nat, true).
    - exact {| rand_int := λ _, None; rand_read := None; pcg_int64n := λ _ _, 0%Z |}. - exact (Ok None). - exact (Ok true). }
  destruct Hx as [x]. specialize (Hk x). apply wp_here in Hk. apply guarded_snoc in Hk as [_ Hk]. by apply Hk.
Qed.

Lemma insert_cases {X} (l : list X) i j x y : (<[i := x]> l) !! j = Some y → (i = j ∧ y = x) ∨ (i ≠ j ∧ l !! j = Some y).
Proof. intros [(-> & -> & _)|(Hne & Hj)]%list_lookup_insert_Some; auto. Qed.

(** A thread outside the lock can only take it or leave it alone. *)
Lemma outside_neutral ph S tr (cm : cmd) : inside ph = false → allowed ph S tr cm → cm = LockPublish ∨ neutral cm = true.
Proof.
  intros Ho Ha. destruct cm; auto; exfalso; destruct ph; simpl in *; try done; by repeat match goal with H : ∃ _, _ |- _ => destruct H | H : _ ∧ _ |- _ => destruct H end.
Qed.

Lemma exec_lock l (cm : cmd) s : cm ≠ LockPublish → cm ≠ UnlockPublish → publishMu (exec l cm s).2 = publishMu s.
Proof.
  intros H1 H2. case_cmd cm; try done; cbn [exec].
  - by destruct (is_open s c); [destruct (send_error l)|].
  - unfold wait_confirm. destruct (pick l), (channels s !! c) as [a|]; try done. by destruct (c_log a !! c_read a).
  - unfold prepare_section. by destruct (shutdown s).
  - by destruct (provides l) as [[b|]|e].
  - unfold reconnect_section. destruct (negb (closed s)); [done|]. destruct (shutdown s); [done|].
    destruct (channels s !! c ≫= returnNotifierFor); [done|]. by destruct (confirm_error l).
  - unfold close_section. by destruct (shutdown s).
Qed.

Lemma exec_confirms l (cm : cmd) s ph tr : allowed ph (hands tr) tr cm → (∀ c, c ∈ hands tr → spare s c) →
  (confirms s < length (channels s))%nat → (confirms (exec l cm s).2 < length (channels (exec l cm s).2))%nat.
Proof.
  intros Ha HS Hc. case_cmd cm; cbn [exec]; try exact Hc; try (cbn; by rewrite length_alter).
  - destruct (is_open s c); [destruct (send_error l)|]; [done|cbn; by rewrite length_alter|done].
  - unfold wait_confirm. destruct (pick l), (channels s !! c) as [a|]; try done. destruct (c_log a !! c_read a); [|done]. cbn. by rewrite length_alter.
  - unfold prepare_section. by destruct (shutdown s).
  - destruct (provides l) as [[b|]|e]; [|done..]. cbn. rewrite length_app. simpl. lia.
  - destruct Ha as [_ Ha]. destruct (HS c Ha) as [(a & Hch & _) _]. apply lookup_lt_Some in Hch.
    unfold reconnect_section. destruct (negb (closed s)); [done|]. destruct (shutdown s); [done|].
    destruct (channels s !! c ≫= returnNotifierFor); [done|]. by destruct (confirm_error l).
  - unfold close_section. by destruct (shutdown s).
  - cbn. rewrite length_app. simpl. lia.
Qed.

(** The channels in hand after a command: those before it, and the one it opened. *)
Lemma exec_hands l (cm : cmd) s S c : c ∈ next_hands S (Ev cm (exec l cm s).1) →
  (c ∈ S ∧ cm ≠ ReconnectSection c) ∨ (c = length (channels s) ∧ neutral cm = true ∧ on_chan (exec l cm s).2 c pristine).
Proof.
  assert (Hnew : ∀ b, on_chan (open_channel b s).2 (length (channels s)) pristine).
  { intros b. exists (newChannel b). split; [|done]. cbn. by apply list_lookup_middle. }
  assert (Hkeep : ∀ cm : cmd, match cm with ReconnectSection _ => False | _ => True end → cm ≠ ReconnectSection c) by (by intros []).
  destruct cm as [| | |?|? ?|? ? ?|?| | |?|?|?|?|? ?| | | |? ?| | |?| |? ?| | |c'| | |?|? ?|?]; cbn [next_hands]; try (intros Hc; left; split; [exact Hc|by apply Hkeep]).
  - cbn [exec]. destruct (provides l) as [[b|]|e]; cbn; [|intros Hc; left; split; [exact Hc|done]..].
    intros [->%elem_of_singleton|Hc]%elem_of_union; [right|by left]. split_and!; [done..|apply (Hnew b)].
  - intros [Hc Hne%not_elem_of_singleton]%elem_of_difference. left. split; [done|]. congruence.
  - cbn. intros [->%elem_of_singleton|Hc]%elem_of_union; [right|by left]. split_and!; [done..|apply (Hnew true)].
Qed.

(** What the others know survives a step: either the step is neutral, or they are
    all outside. *)
Lemma others_phase l (cm : cmd) s ph S tr ph' : allowed ph S tr cm → (inside ph = true → inside ph' = false) →
  (cm = LockPublish → inside ph' = false) → phase_ok s ph' → phase_ok (exec l cm s).2 ph'.
Proof.
  intros Ha Hin Hlock Hp. destruct (neutral cm) eqn:Hn; [eapply env_phase_ok; [by apply exec_neutral|done]|].
  assert (Ho : inside ph' = false).
  { destruct (inside ph) eqn:E; [by apply Hin|]. destruct (outside_neutral _ _ _ _ E Ha); [by apply Hlock|congruence]. }
  destruct ph'; try done. by apply exec_delivered.
Qed.

(** After a step a thread is inside if it was, or has just taken the lock. *)
Lemma inside_next ph S tr (cm : cmd) x : allowed ph S tr cm → inside (next_phase ph (Ev cm x)) = true → inside ph = true ∨ cm = LockPublish.
Proof.
  intros Ha Hi. destruct (inside ph) eqn:E; [by left|]. destruct (outside_neutral _ _ _ _ E Ha) as [->|Hn]; [by right|].
  rewrite neutral_phase in Hi by done. congruence.
Qed.

Lemma unlock_leaves ph : inside (next_phase ph (Ev UnlockPublish tt)) = false.
Proof. by destruct ph. Qed.

Lemma is_Unlock (cm : cmd) : cm = UnlockPublish ∨ cm ≠ UnlockPublish.
Proof. destruct cm; auto; by right. Qed.
Lemma is_Lock (cm : cmd) : cm = LockPublish ∨ cm ≠ LockPublish.
Proof. destruct cm; auto; by right. Qed.

Section step.
Context (calls : list call) (w : pub_world) (Hw : world_ok calls w).
Context (i : nat) (l : surroundings) (th : thread answer (option pub_error)) (cm : cmd) (k : answer cm → prog (option pub_error)).
Context (Hi : w_threads w !! i = Some th) (Hr : th_rest th = Do cm k) (Hen : enabled cm (w_state w) = true).
Let s : ConfirmablePublisher := w_state w.
Let x : answer cm := (exec l cm s).1.
Let s' : ConfirmablePublisher := (exec l cm s).2.
Let th' : thread answer (option pub_error) := {| th_trace := th_trace th ++ [Ev cm x]; th_rest := k x |}.

Lemma step_allowed : allowed (phase_of (th_trace th)) (hands (th_trace th)) (th_trace th) cm.
Proof using Hw Hi Hr.
  destruct (Forall2_lookup_r _ _ _ _ _ (wo_threads _ _ Hw) Hi) as (J & HJ & Ht). apply list_lookup_fmap_Some in HJ as (cl & -> & _).
  by eapply call_promise.
Qed.

Lemma lock_is_free : cm = LockPublish → publishMu s = false.
Proof using Hen. intros E. pose proof Hen as H. rewrite E in H. by apply negb_true_iff in H. Qed.

Lemma step_inside j t : <[i := th']> (w_threads w) !! j = Some t → inside (phase_of (th_trace t)) = true → publishMu s' = true.
Proof using Hw Hi Hr Hen.
  intros Hj Hin. destruct (is_Unlock cm) as [E|Hu].
  - exfalso. apply insert_cases in Hj as [[<- ->]|[Hne Hj]].
    + simpl in Hin. rewrite phase_snoc in Hin. revert Hin. unfold x. rewrite E. cbn [exec fst]. by rewrite unlock_leaves.
    + apply Hne. eapply (wo_unique _ _ Hw); [exact Hi|exact Hj| |done]. pose proof step_allowed as Ha. rewrite E in Ha.
      by destruct (phase_of (th_trace th)).
  - destruct (is_Lock cm) as [E|Hl]; [unfold s'; by rewrite E|]. unfold s'. rewrite exec_lock by done.
    apply insert_cases in Hj as [[<- ->]|[Hne Hj]]; [|by eapply (wo_inside _ _ Hw)].
    simpl in Hin. rewrite phase_snoc in Hin. apply (inside_next _ _ _ _ _ step_allowed) in Hin as [Hin|?]; [|done]. by eapply (wo_inside _ _ Hw).
Qed.

(** Nobody else is inside when this thread is, or gets in. *)
Lemma others_outside j t : i ≠ j → w_threads w !! j = Some t → inside (phase_of (th_trace th)) = true ∨ cm = LockPublish → inside (phase_of (th_trace t)) = false.
Proof using Hw Hi Hen.
  intros Hne Hj [Hin|Hl]; destruct (inside (phase_of (th_trace t))) eqn:E; try done; exfalso.
  - apply Hne. by eapply (wo_unique _ _ Hw).
  - pose proof (wo_inside _ _ Hw j t Hj E). pose proof (lock_is_free Hl). unfold s in *. congruence.
Qed.

Lemma step_unique j1 j2 t1 t2 : <[i := th']> (w_threads w) !! j1 = Some t1 → <[i := th']> (w_threads w) !! j2 = Some t2 →
  inside (phase_of (th_trace t1)) = true → inside (phase_of (th_trace t2)) = true → j1 = j2.
Proof using Hw Hi Hr Hen.
  assert (Hin : inside (phase_of (th_trace th')) = true → inside (phase_of (th_trace th)) = true ∨ cm = LockPublish).
  { simpl. rewrite phase_snoc. apply (inside_next _ _ _ _ _ step_allowed). }
  intros [[<- ->]|[H1 Hj1]]%insert_cases [[<- ->]|[H2 Hj2]]%insert_cases I1 I2; [done|..|by eapply (wo_unique _ _ Hw)].
  - exfalso. rewrite (others_outside j2 t2 H2 Hj2 (Hin I1)) in I2. done.
  - exfalso. rewrite (others_outside j1 t1 H1 Hj1 (Hin I2)) in I1. done.
Qed.

Lemma step_quiet : publishMu s' = false → quiet s'.
Proof using Hw Hi Hr Hen.
  pose proof step_allowed as Ha. pose proof (wo_phase _ _ Hw i th Hi) as Hp. intros Hm.
  destruct (is_Unlock cm) as [E|Hu].
  - unfold s'. rewrite E in Ha |- *. exact (unlock_quiet _ _ _ _ Hp Ha).
  - destruct (is_Lock cm) as [E|Hl]; [unfold s' in Hm; by rewrite E in Hm|].
    unfold s' in Hm. rewrite exec_lock in Hm by done. destruct (inside (phase_of (th_trace th))) eqn:Ei.
    + pose proof (wo_inside _ _ Hw i th Hi Ei). unfold s in Hm. congruence.
    + destruct (outside_neutral _ _ _ _ Ei Ha) as [?|Hn]; [done|]. eapply env_quiet; [by apply exec_neutral|]. by apply (wo_quiet _ _ Hw).
Qed.

Lemma step_phase j t : <[i := th']> (w_threads w) !! j = Some t → phase_ok s' (phase_of (th_trace t)).
Proof using Hw Hi Hr Hen.
  pose proof step_allowed as Ha. intros [[<- ->]|[Hne Hj]]%insert_cases.
  - simpl. rewrite phase_snoc. eapply pub_exec_own; [apply (wo_sig _ _ Hw)|by apply (wo_phase _ _ Hw i)|exact Ha| |].
    + intros c. by apply (wo_spare _ _ Hw i).
    + intros Hl. apply (wo_quiet _ _ Hw). by apply lock_is_free.
  - eapply others_phase; [exact Ha| | |by apply (wo_phase _ _ Hw j)].
    + intros Hin. apply (others_outside j t Hne Hj). by left.
    + intros Hl. apply (others_outside j t Hne Hj). by right.
Qed.

Lemma step_captured j t y b : <[i := th']> (w_threads w) !! j = Some t → Ev MonitoredSection (y, b) ∈ th_trace t → captured s' y.
Proof using Hw Hi.
  intros [[<- ->]|[Hne Hj]]%insert_cases Hin; [|by eapply exec_captured, (wo_captured _ _ Hw j)].
  simpl in Hin. apply elem_of_app in Hin as [Hin|E%list_elem_of_singleton]; [by eapply exec_captured, (wo_captured _ _ Hw i)|].
  assert (cm = MonitoredSection) as Ecm by exact (eq_sym (f_equal ev_cmd E)). unfold s', x in *. clear - E Ecm Hw. subst cm.
  apply (f_equal (λ e : event answer, match e with Ev MonitoredSection (y, _) => Some y | _ => None end)) in E. cbn in E. injection E as ->.
  split; [apply (so_closedCh _ (wo_sig _ _ Hw))|done].
Qed.

Lemma step_spare j t c : <[i := th']> (w_threads w) !! j = Some t → c ∈ hands (th_trace t) → spare s' c.
Proof using Hw Hi Hr.
  pose proof step_allowed as Ha. pose proof (wo_phase _ _ Hw i th Hi) as Hp. intros [[<- ->]|[Hne Hj]]%insert_cases Hc.
  - simpl in Hc. rewrite hands_snoc in Hc. apply exec_hands in Hc as [[Hc Hnr]|(-> & Hn & Hpr)].
    + eapply exec_spare; [exact Ha|exact Hp|by apply (wo_spare _ _ Hw i th)|done].
    + split; [done|]. pose proof (ec_confirms _ _ (proj1 (exec_neutral l cm s Hn))) as Ec. pose proof (wo_confirms _ _ Hw). unfold s', s in *. lia.
  - eapply exec_spare; [exact Ha|exact Hp|by apply (wo_spare _ _ Hw j t)|]. intros E. rewrite E in Ha. destruct Ha as [_ Ha].
    by eapply (wo_disjoint _ _ Hw i j).
Qed.

Lemma step_disjoint j1 j2 t1 t2 c : <[i := th']> (w_threads w) !! j1 = Some t1 → <[i := th']> (w_threads w) !! j2 = Some t2 → j1 ≠ j2 →
  c ∈ hands (th_trace t1) → c ∉ hands (th_trace t2).
Proof using Hw Hi.
  assert (Hnew : ∀ j t, i ≠ j → w_threads w !! j = Some t → c ∈ hands (th_trace th') → c ∈ hands (th_trace t) → False).
  { intros j t Hne Hj Hc Hc'. simpl in Hc. rewrite hands_snoc in Hc. apply exec_hands in Hc as [[Hc _]|(-> & _ & _)].
    - by eapply (wo_disjoint _ _ Hw i j).
    - destruct (wo_spare _ _ Hw j t _ Hj Hc') as [(a & Hch & _) _]. apply lookup_lt_Some in Hch. unfold s in Hch. lia. }
  intros [[<- ->]|[H1 Hj1]]%insert_cases [[<- ->]|[H2 Hj2]]%insert_cases Hne H1' H2'; [done|by eapply Hnew|by eapply Hnew|].
  by eapply (wo_disjoint _ _ Hw j1 j2).
Qed.

Lemma pub_step_ok : world_ok calls {| w_state := s'; w_threads := <[i := th']> (w_threads w) |}.
Proof using Hw Hi Hr Hen.
  split; cbn [w_state w_threads].
  - by eapply threads_advance; [apply (wo_threads _ _ Hw)|..].
  - exact step_inside.
  - exact step_unique.
  - exact step_quiet.
  - exact step_phase.
  - eapply exec_sig; [apply (wo_sig _ _ Hw)|exact step_allowed|by apply (wo_phase _ _ Hw i)|]. intros y b. by apply (wo_captured _ _ Hw i).
  - exact step_captured.
  - exact step_spare.
  - exact step_disjoint.
  - eapply exec_confirms; [exact step_allowed|intros c; by apply (wo_spare _ _ Hw i)|apply (wo_confirms _ _ Hw)].
Qed.
End step.

(** *** From the start *)

(** A publisher as its constructor leaves it. *)
Record fresh_publisher s : Prop := {
  fp_ch : ch s = Some 0%nat; fp_confirms : confirms s = 0%nat; fp_returns : returns s = 0%nat; fp_channels : channels s = [newChannel true];
  fp_closed : closed s = false; fp_shutdown : shutdown s = false; fp_lock : publishMu s = false; fp_sig : sig_ok s }.

Lemma fresh_constructed opts s : Forall (λ opt, ∀ s, fresh_publisher s → fresh_publisher (opt s)) opts →
  NewConfirmablePublisherFromChannel (Some (newChannel true)) None opts = Ok s → fresh_publisher s.
Proof.
  intros Hopts [= <-]. match goal with |- fresh_publisher (foldl _ ?p0 _) => assert (H0 : fresh_publisher p0); [|generalize dependent p0] end.
  { split; try done. split; simpl; [lia|lia|set_solver|set_solver]. }
  induction Hopts as [|opt opts Ho Hopts IH]; intros p0 H0; [done|]. simpl. auto.
Qed.

(** Every option leaves it so. *)
Lemma fresh_settings s t it r : fresh_publisher s →
  fresh_publisher (s <| confirmTimeout := t |> <| invalidConfirmTimeout := it |> <| recovery := r |>).
Proof. intros [? ? ? ? ? ? ? [? ? ? ?]]. by split. Qed.

Lemma options_fresh timeout given n initial maxBackoff : Forall (λ opt, ∀ s, fresh_publisher s → fresh_publisher (opt s))
  [WithConfirmTimeout timeout; WithAutoRecovery given; WithMaxRecoveryAttempts n; WithHealthCallback given; WithRecoveryBackoff initial maxBackoff].
Proof.
  rewrite !Forall_cons, Forall_nil. unfold WithConfirmTimeout, WithAutoRecovery, WithMaxRecoveryAttempts, WithHealthCallback, WithRecoveryBackoff.
  split_and!; try done; intros s Hs; repeat case_match; try done.
  - exact (fresh_settings s _ None (recovery s) Hs).
  - exact (fresh_settings s (confirmTimeout s) _ (recovery s) Hs).
  - exact (fresh_settings s (confirmTimeout s) (invalidConfirmTimeout s) _ Hs).
  - exact (fresh_settings s (confirmTimeout s) (invalidConfirmTimeout s) _ Hs).
  - exact (fresh_settings s (confirmTimeout s) (invalidConfirmTimeout s) _ Hs).
  - exact (fresh_settings s (confirmTimeout s) (invalidConfirmTimeout s) _ Hs).
Qed.

Lemma pub_world_ok_start s calls : fresh_publisher s → world_ok calls (start s (call_program <$> calls)).
Proof.
  intros [H1 H2 H3 H4 H5 H6 H7 H8].
  assert (Htr : ∀ i th, w_threads (start s (call_program <$> calls)) !! i = Some th → th_trace th = []).
  { intros i th Hi. unfold start in Hi. cbn [w_threads] in Hi. by apply list_lookup_fmap_Some in Hi as (q & -> & _). }
  split; cbn [w_state start].
  - apply start_threads, Forall2_fmap_l, Forall2_fmap_r, Forall_Forall2_diag, Forall_true. intros cl.
    apply (keeps_wp outside (call_program cl) (λ r tr, leaves cl r tr)); [apply pub_call_keeps|done].
  - intros i th Hi. by rewrite (Htr i th Hi).
  - intros i j th th' Hi. by rewrite (Htr i th Hi).
  - intros _ _ c Hc. rewrite H1 in Hc. injection Hc as <-. rewrite H2, H3. split_and!; [done..|]. exists (newChannel true). by rewrite H4.
  - intros i th Hi. by rewrite (Htr i th Hi).
  - done.
  - intros i th x b Hi. rewrite (Htr i th Hi). by intros ?%elem_of_nil.
  - intros i th c Hi. rewrite (Htr i th Hi). intros Hc. by apply elem_of_empty in Hc.
  - intros i j th th' c Hi _ _. rewrite (Htr i th Hi). intros Hc. by apply elem_of_empty in Hc.
  - rewrite H2, H4. simpl. lia.
Qed.

Lemma pub_world_ok_step calls w il : world_ok calls w → world_ok calls (step_when exec enabled w il).
Proof.
  destruct il as [i l]. intros Hw. destruct (step_when_cases exec enabled w i l) as [->|(th & cm & k & Hi & Hr & Hen & ->)]; [done|].
  by apply pub_step_ok.
Qed.

(** ** Each confirmation is used once *)

Definition claim (ph : phase) : option (nat * nat) :=
  match ph with Judged c _ _ _ k _ _ | Kept c _ _ _ k _ | Gone c k _ => Some (c, k) | _ => None end.

Lemma claim_next l (cm : cmd) s ph owned tr c k : phase_ok s ph → allowed ph owned tr cm → claim (next_phase ph (Ev cm (exec l cm s).1)) = Some (c, k) →
  claim ph = Some (c, k) ∨ (on_chan s c (λ a, c_read a = k) ∧ on_chan (exec l cm s).2 c (λ a, c_read a = S k)).
Proof.
  intros Hp Ha Hc. destruct (neutral cm) eqn:Hn; [rewrite neutral_phase in Hc by done; by left|].
  destruct cm as [| | |c'|c' msg|c' y t|c'| | |y|c'|h|h|c' d| | | |c' t| | |y| |d y| | |c'| | |c'|c' b|c']; try discriminate; try (by left); revert Hc; cbn [next_phase].
  - by destruct ph; try done; left.
  - by destruct (exec l PublishSection s).1.
  - destruct ph; simpl; try done; by left.
  - destruct (exec l (PublishWithContext c' msg) s).1; [by left|]. destruct ph; simpl; try done; by left.
  - destruct Ha as (c0 & rets & m & ->). destruct Hp as [(-> & _) (a & Ha & _)]. cbn [exec]. unfold wait_confirm. rewrite Ha.
    destruct (pick l); simpl; try done; [|by case_bool_decide]. destruct (c_log a !! c_read a) as [v|] eqn:El; [|by destruct (c_open a)].
    simpl. intros [= -> <-]. right. split; [by exists a|]. eexists. split; [by apply on_channel_eq|]. done.
  - destruct Ha as (c0 & conf & sg & k0 & m & ->). destruct (exec l (TakeReturn c') s).1; simpl; [done|]. by left.
  - by destruct (exec l PrepareSection s).1; [|left].
  - by destruct (exec l CloseSection s).1; [|left].
Qed.

Lemma exec_read l (cm : cmd) s c k : on_chan s c (λ a, (k < c_read a)%nat ∧ (c_read a ≤ length (c_log a))%nat) →
  on_chan (exec l cm s).2 c (λ a, (k < c_read a)%nat ∧ (c_read a ≤ length (c_log a))%nat).
Proof.
  intros Hd. destruct (neutral cm) eqn:Hn.
  { eapply env_on_chan; [by apply exec_neutral| |exact Hd]. intros a a' Hm. destruct Hm; [done|..|done]; unfold broker_returns, broker_confirms.
    - by destruct (_ && _ && _)%bool.
    - destruct (_ && _)%bool; [|done]. cbn. rewrite length_app. lia. }
  destruct cm as [| | |c'|c' msg|c' y t|c'| | |y|c'|h|h|c' d| | | |c' t| | |y| |d y| | |c'| | |c'|c' b|c']; try discriminate; cbn [exec]; try exact Hd.
  - by eapply on_chan_alter; [| |exact Hd].
  - destruct (is_open s c'); [destruct (send_error l)|]; [exact Hd| |exact Hd]. by eapply on_chan_alter; [| |exact Hd].
  - unfold wait_confirm. destruct (pick l), (channels s !! c') as [a|] eqn:E; try exact Hd. destruct (c_log a !! c_read a) eqn:El; [|exact Hd].
    eapply on_chan_alter; [| |exact Hd]; [done|]. intros -> a' Ha' [H1 H2]. rewrite E in Ha'. injection Ha' as <-.
    apply lookup_lt_Some in El. cbn. lia.
  - by eapply on_chan_alter; [| |exact Hd].
  - unfold prepare_section. by destruct (shutdown s).
  - eapply on_chan_alter; [| |exact Hd]; [done|]. intros _ a _ [H1 H2]. cbn. lia.
  - unfold reconnect_section. destruct (negb (closed s)); [exact Hd|]. destruct (shutdown s); [exact Hd|].
    destruct (channels s !! c' ≫= returnNotifierFor); [exact Hd|]. by destruct (confirm_error l).
  - unfold close_section. by destruct (shutdown s).
Qed.

Definition has_read (k : nat) a : Prop := (k < c_read a)%nat ∧ (c_read a ≤ length (c_log a))%nat.

(** What is claimed has been read, and nobody else claims it. *)
Record claims_ok (w : pub_world) : Prop := {
  co_read : ∀ i th c k, w_threads w !! i = Some th → claim (phase_of (th_trace th)) = Some (c, k) → on_chan (w_state w) c (has_read k);
  co_apart : ∀ i j th th' c k, w_threads w !! i = Some th → w_threads w !! j = Some th' →
    claim (phase_of (th_trace th)) = Some (c, k) → claim (phase_of (th_trace th')) = Some (c, k) → i = j }.

Lemma wait_read l (cm : cmd) s ph owned tr c k : phase_ok s ph → allowed ph owned tr cm →
  claim (next_phase ph (Ev cm (exec l cm s).1)) = Some (c, k) → phase_ok (exec l cm s).2 (next_phase ph (Ev cm (exec l cm s).1)) →
  claim ph = Some (c, k) ∨ (on_chan s c (λ a, c_read a = k) ∧ on_chan (exec l cm s).2 c (has_read k)).
Proof.
  intros Hp Ha Hc Hp'. destruct (claim_next _ _ _ _ _ _ _ _ Hp Ha Hc) as [?|[H1 (a & Ha' & E)]]; [by left|right]. split; [done|].
  exists a. split; [done|]. unfold has_read. rewrite E. split; [lia|].
  assert (Hlog : on_chan (exec l cm s).2 c (λ a, is_Some (c_log a !! k))).
  { destruct (next_phase ph _); try discriminate; simpl in Hc; injection Hc as -> ->; simpl in Hp'.
    - destruct Hp' as [_ (a0 & Ha0 & _ & _ & _ & v & Hv & _)]. exists a0. split; [done|]. by rewrite Hv.
    - destruct Hp' as [_ (a0 & Ha0 & _ & _ & Hv)]. exists a0. split; [done|]. by rewrite Hv.
    - destruct Hp' as (a0 & Ha0 & _ & Hv). exists a0. split; [done|]. by rewrite Hv. }
  destruct Hlog as (a0 & Ha0 & Hl%lookup_lt_is_Some). rewrite Ha' in Ha0. injection Ha0 as <-. lia.
Qed.

Lemma claims_step calls w il : world_ok calls w → claims_ok w → claims_ok (step_when exec enabled w il).
Proof.
  destruct il as [i l]. intros Hw Hc. destruct (step_when_cases exec enabled w i l) as [->|(th & cm & k & Hi & Hr & Hen & ->)]; [done|].
  pose proof (step_allowed calls w Hw i th cm k Hi Hr) as Ha. pose proof (wo_phase _ _ Hw i th Hi) as Hp.
  pose proof (step_phase calls w Hw i l th cm k Hi Hr Hen i _ (list_lookup_insert_eq _ i _ (lookup_lt_Some _ _ _ Hi))) as Hp'. simpl in Hp'.
  assert (Hnew : ∀ c n, claim (phase_of (th_trace th ++ [Ev cm (exec l cm (w_state w)).1])) = Some (c, n) →
            claim (phase_of (th_trace th)) = Some (c, n) ∨ (on_chan (w_state w) c (λ a, c_read a = n) ∧ on_chan (exec l cm (w_state w)).2 c (has_read n))).
  { intros c n Hcl. rewrite phase_snoc in Hcl, Hp'. by eapply wait_read. }
  assert (Hapart : ∀ j th2 c n, w_threads w !! j = Some th2 → i ≠ j → claim (phase_of (th_trace th2)) = Some (c, n) →
            claim (phase_of (th_trace th ++ [Ev cm (exec l cm (w_state w)).1])) = Some (c, n) → False).
  { intros j th2 c n Hj Hne Hcl [Hcl'|[(a & Ha1 & E) _]]%Hnew; [apply Hne; by eapply (co_apart _ Hc)|].
    destruct (co_read _ Hc j th2 c n Hj Hcl) as (a' & Ha2 & Hlt & _). rewrite Ha1 in Ha2. injection Ha2 as <-. lia. }
  split; cbn [w_state w_threads].
  - intros j t c n [[<- ->]|[Hne Hj]]%insert_cases Hcl; [|by apply exec_read, (co_read _ Hc j t)].
    apply Hnew in Hcl as [Hcl|[_ ?]]; [by apply exec_read, (co_read _ Hc i th)|done].
  - intros j1 j2 t1 t2 c n [[<- ->]|[H1 Hj1]]%insert_cases [[<- ->]|[H2 Hj2]]%insert_cases C1 C2; [done|..|by eapply (co_apart _ Hc)].
    + exfalso. by apply (Hapart j2 t2 c n Hj2 H2 C2).
    + exfalso. by apply (Hapart j1 t1 c n Hj1 H1 C1).
Qed.

Lemma claims_start s calls : claims_ok (start s (call_program <$> calls)).
Proof.
  assert (Htr : ∀ i th, w_threads (start s (call_program <$> calls)) !! i = Some th → th_trace th = []).
  { intros i th Hi. unfold start in Hi. cbn [w_threads] in Hi. by apply list_lookup_fmap_Some in Hi as (q & -> & _). }
  split; [intros i th c k Hi|intros i j th th' c k Hi _]; by rewrite (Htr i th Hi).
Qed.

(** ** After a close *)

Definition sent_messages s : list publishing := channels s ≫= c_sent.

Lemma sent_alter s c f : (∀ a, c_sent (f a) = c_sent a) → sent_messages (on_channel c f s) = sent_messages s.
Proof.
  intros Hf. unfold sent_messages. cbn. generalize (channels s) as l. intros l. revert c. induction l as [|a l IH]; intros [|c]; csimpl; [done..| |].
  - by rewrite Hf.
  - by rewrite IH.
Qed.

Lemma sent_open s b : sent_messages (open_channel b s).2 = sent_messages s.
Proof. unfold sent_messages. cbn. rewrite bind_app. simpl. by rewrite app_nil_r. Qed.

(** A publisher that has been closed for good, and threads that are not in the
    middle of a publish. *)
Definition shut_down s : Prop := shutdown s = true ∧ closed s = true.
Definition dormant (ph : phase) : Prop := match ph with Out | Held | Shut | Gone _ _ _ => True | _ => False end.

Lemma broker_sent a : c_sent (broker_returns a) = c_sent a ∧ ∀ ack, c_sent (broker_confirms ack a) = c_sent a.
Proof. unfold broker_returns, broker_confirms. split; [by destruct (_ && _ && _)%bool|intros ack; by destruct (_ && _)%bool]. Qed.

Lemma exec_shut_down l (cm : cmd) s ph S tr : allowed ph S tr cm → dormant ph → shut_down s →
  shut_down (exec l cm s).2 ∧ sent_messages (exec l cm s).2 = sent_messages s ∧ dormant (next_phase ph (Ev cm (exec l cm s).1)).
Proof.
  intros Ha Hd [H1 H2]. case_cmd cm; cbn [exec]; try (by split_and!); try (by split_and!; [..|apply sent_alter|]).
  - split_and!; [done..|]. by destruct ph.
  - split_and!; [done..|]. unfold publish_section. by rewrite H2.
  - by destruct Ha as (c' & conf & sg & ->).
  - by destruct Ha as (conf & rets & sg & ->).
  - by destruct Ha as (c' & rets & m & ->).
  - by destruct Ha as (c' & conf & sg & k & m & ->).
  - unfold prepare_section. by rewrite H1.
  - destruct (provides l) as [[b|]|e]; [|by split_and!..]. split_and!; [done..|apply (sent_open s b)|done].
  - unfold reconnect_section. rewrite H2, H1. simpl. by destruct Ha as [-> _].
  - unfold close_section. by rewrite H1.
  - split_and!; [done..|apply (sent_open s true)|done].
  - split_and!; [done..| |done]. apply sent_alter. intros a. apply broker_sent.
  - split_and!; [done..| |done]. apply sent_alter. intros a. apply broker_sent.
Qed.

(** Only [Close] sets [shutdown], and nothing opens the publisher again. *)
Lemma exec_shutdown l (cm : cmd) s : (shutdown s = true → closed s = true) → shutdown (exec l cm s).2 = true → closed (exec l cm s).2 = true.
Proof.
  intros H. case_cmd cm; cbn [exec]; try exact H; try done.
  - by destruct (is_open s c); [destruct (send_error l)|].
  - unfold wait_confirm. destruct (pick l), (channels s !! c) as [a|]; try done. by destruct (c_log a !! c_read a).
  - unfold prepare_section. destruct (shutdown s) eqn:E; cbn; auto.
  - by destruct (provides l) as [[b|]|e].
  - unfold reconnect_section. destruct (negb (closed s)); [done|]. destruct (shutdown s) eqn:E; [cbn; auto|].
    destruct (channels s !! c ≫= returnNotifierFor); [cbn; congruence|]. destruct (confirm_error l); cbn; congruence.
  - unfold close_section. destruct (shutdown s) eqn:E; cbn; auto.
Qed.

Section reached.
Context (p : ConfirmablePublisher) (calls : list call) (Hfresh : fresh_publisher p) (ls : list (nat * surroundings)).
Let w : pub_world := interleave_when exec enabled (start p (call_program <$> calls)) ls.

Lemma reached_ok : world_ok calls w ∧ claims_ok w.
Proof using Hfresh.
  unfold w. apply (interleave_when_ind exec enabled (λ w, world_ok calls w ∧ claims_ok w)); [split; [by apply pub_world_ok_start|apply claims_start]|].
  intros w0 il [H1 H2]. split; [by apply pub_world_ok_step|by eapply claims_step].
Qed.

(** The publishes that returned without an error. *)
Definition published i msg : Prop := (∃ asked, calls !! i = Some (CallPublish asked msg)) ∧ ∃ th, w_threads w !! i = Some th ∧ th_rest th = Done None.

(** C29: a publish that returns no error has been delivered, however publishers,
    closes, reconnections, close monitors, recoveries and the broker interleave, and
    whichever branch each wait takes: each such call has a place of its own, a
    channel and a position among the messages sent on it, where its message stands
    as a mandatory one whatever the caller asked for, and the broker acknowledged that very message and did not return it as
    unroutable.  No delivery tag is compared: calls take turns, and a stream whose
    next confirmation could belong to an older message is never used again. *)
Theorem confirmed_means_delivered : ∃ place : nat → nat * nat,
  (∀ i msg, published i msg → ∃ a, channels (w_state w) !! (place i).1 = Some a ∧ c_sent a !! (place i).2 = Some (mandatory msg) ∧
     c_log a !! (place i).2 = Some {| v_returned := false; v_ack := true |}) ∧
  (∀ i j msg msg', published i msg → published j msg' → place i = place j → i = j).
Proof using Hfresh.
  destruct reached_ok as [Hw Hc].
  assert (Hd : ∀ i msg, published i msg → ∃ th c k, w_threads w !! i = Some th ∧ phase_of (th_trace th) = Gone c k (mandatory msg)).
  { intros i msg ((asked & Hcl) & th & Hi & Hr). destruct (Forall2_lookup_r _ _ _ _ _ (wo_threads _ _ Hw) Hi) as (J & HJ & Ht).
    apply list_lookup_fmap_Some in HJ as (cl & -> & HJ). rewrite Hcl in HJ. injection HJ as <-. unfold thread_ok in Ht. rewrite Hr in Ht.
    destruct Ht as (_ & _ & _ & c & k & E). eauto. }
  exists (λ i, default (0, 0)%nat (th ← w_threads w !! i; claim (phase_of (th_trace th)))). split.
  - intros i msg Hp. destruct (Hd i msg Hp) as (th & c & k & Hi & E). pose proof (wo_phase _ _ Hw i th Hi) as Hok. rewrite Hi. simpl. rewrite E in Hok |- *.
    destruct Hok as (a & Ha & H1 & H2). by exists a.
  - intros i j msg msg' Hp Hp' E. destruct (Hd i msg Hp) as (th & c & k & Hi & Ei), (Hd j msg' Hp') as (th' & c' & k' & Hj & Ej).
    rewrite Hi, Hj in E. simpl in E. rewrite Ei, Ej in E. simpl in E. injection E as <- <-.
    eapply (co_apart _ Hc); [exact Hi|exact Hj|by rewrite Ei|by rewrite Ej].
Qed.

(** C30: [Close] is final: once it has set [shutdown] and the lock is free, whatever
    publishes, reconnections, monitors and recoveries are still under way or come
    later, no further message is sent on any channel, old or new, and the publisher
    stays closed. *)
Theorem nothing_sent_after_close ls' : shutdown (w_state w) = true → publishMu (w_state w) = false →
  let w' := interleave_when exec enabled w ls' in sent_messages (w_state w') = sent_messages (w_state w) ∧ closed (w_state w') = true.
Proof using Hfresh.
  intros Hs Hm. assert (Hcl : closed (w_state w) = true).
  { revert Hs. unfold w. apply (interleave_when_ind exec enabled (λ w, shutdown (w_state w) = true → closed (w_state w) = true)).
    - cbn [w_state start]. by rewrite (fp_shutdown _ Hfresh).
    - intros w0 [i l] H0. destruct (step_when_cases exec enabled w0 i l) as [->|(th & cm & k & _ & _ & _ & ->)]; [done|]. by apply exec_shutdown. }
  pose proof (proj1 reached_ok) as Hw.
  cbv zeta. set (P := λ w', world_ok calls w' ∧ shut_down (w_state w') ∧ sent_messages (w_state w') = sent_messages (w_state w) ∧
    ∀ i th, w_threads w' !! i = Some th → dormant (phase_of (th_trace th))).
  assert (Hq : P (interleave_when exec enabled w ls')).
  { apply interleave_when_ind.
    { split_and!; try done. intros i th Hi. destruct (inside (phase_of (th_trace th))) eqn:E; [|by destruct (phase_of _)].
      pose proof (wo_inside _ _ Hw i th Hi E). congruence. }
    intros w1 [i l] (Hw1 & Hs1 & Hm1 & Hd). split; [by apply pub_world_ok_step|].
    destruct (step_when_cases exec enabled w1 i l) as [->|(th & cm & k & Hi & Hr & Hen & ->)]; [done|].
    pose proof (step_allowed calls w1 Hw1 i th cm k Hi Hr) as Ha.
    destruct (exec_shut_down l cm (w_state w1) _ _ _ Ha (Hd i th Hi) Hs1) as (H1 & H2 & H3). cbn [w_state w_threads]. split_and!; [done|congruence|].
    intros j t [[<- ->]|[Hne Hj]]%insert_cases; [|by eapply Hd]. simpl. by rewrite phase_snoc. }
  destruct Hq as (_ & [_ Hc] & Hm' & _). done.
Qed.
End reached.
