(* ===== verification/RabbitPublisherExample.v ===== *)
(** Runs of the publisher with confirms. *)

From stdpp Require Import base numbers list gmap.
From S2P Require Import Prelude Effects Backoff RabbitPublisher RabbitPublisherSafety.

Local Open Scope Z_scope.
Local Open Scope go_scope.

Definition no_entropy : entropy := {| rand_int := λ m, Some 0; rand_read := None; pcg_int64n := λ _ _, 0 |}.

(** No error, and the [select]s take the given branch. *)
Definition taking (pk : choice) : surroundings :=
  {| pick := pk; send_error := None; close_error := None; confirm_error := None; drained := 0; random := no_entropy; provides := Ok (Some true) |}.

(** [n] steps of thread [i]. *)
Definition steps (i n : nat) (pk : choice) : list (nat * surroundings) := replicate n (i, taking pk).

(** Without automatic recovery. *)
Definition plain : ConfirmablePublisher :=
  {| ch := Some 0%nat; confirms := 0; returns := 0; closedCh := 0; done := 1;
     confirmTimeout := DefaultConfirmTimeout; invalidConfirmTimeout := None; recovery := None;
     publishMu := false; health := HealthStateConnected; closed := false; shutdown := false; recoveryExhausted := false;
     channels := [newChannel true]; signals := ∅; next_signal := 2; monitors := [(0, 1)%nat]; callbacks := [] |}.

Example plain_is_constructed : NewConfirmablePublisherFromChannel (Some (newChannel true)) None [] = Ok plain.
Proof. reflexivity. Qed.

Lemma plain_fresh : fresh_publisher plain.
Proof. by apply (fresh_constructed []). Qed.

(** ** Two messages, one of them unroutable, and a close *)

Definition two_publishers : list call :=
  [CallPublish false 7; CallPublish false 8; CallBrokerReturns 0; CallBrokerConfirms 0 true; CallBrokerConfirms 0 true; CallClose; CallPublish false 9; CallReconnect].
Definition one_unroutable : list (nat * surroundings) :=
  steps 0 4 PickConfirm ++ steps 3 1 PickConfirm ++ steps 1 4 PickConfirm ++ steps 0 9 PickConfirm ++
  steps 1 4 PickConfirm ++ steps 2 1 PickConfirm ++ steps 4 1 PickConfirm ++ steps 1 9 PickConfirm ++ steps 5 9 PickConfirm.
Abbreviation after_two := (interleave_when exec enabled (start plain (call_program <$> two_publishers)) one_unroutable).

Example one_is_returned : th_rest <$> take 2 (w_threads after_two) = [Done None; Done (Some ErrPublishReturned)].
Proof. vm_compute. reflexivity. Qed.

Lemma confirmed_means_delivered_witness : ∃ c k a, channels (w_state after_two) !! c = Some a ∧ c_sent a !! k = Some (mandatory 7) ∧
  c_log a !! k = Some {| v_returned := false; v_ack := true |}.
Proof.
  destruct (confirmed_means_delivered plain two_publishers plain_fresh one_unroutable) as (place & Hplace & _).
  assert (Hr : th_rest <$> w_threads after_two !! 0%nat = Some (Done None)) by (vm_compute; reflexivity).
  apply fmap_Some in Hr as (th & E & Hr).
  destruct (Hplace 0%nat 7 (conj (ex_intro _ false eq_refl) (ex_intro _ th (conj E (eq_sym Hr))))) as (a & H1 & H2 & H3).
  exists (place 0%nat).1, (place 0%nat).2, a. exact (conj H1 (conj H2 H3)).
Defined.

(** After the close a publish and a reconnection are tried. *)
Definition too_late : list (nat * surroundings) := steps 6 9 PickConfirm ++ steps 7 9 PickConfirm.

Lemma nothing_sent_after_close_witness : let w' := interleave_when exec enabled after_two too_late in
  sent_messages (w_state w') = [mandatory 7; mandatory 8] ∧ closed (w_state w') = true.
Proof.
  assert (Hs : shutdown (w_state after_two) = true) by (vm_compute; reflexivity).
  assert (Hm : publishMu (w_state after_two) = false) by (vm_compute; reflexivity).
  assert (Hsent : sent_messages (w_state after_two) = [mandatory 7; mandatory 8]) by (vm_compute; reflexivity).
  pose proof (nothing_sent_after_close plain two_publishers plain_fresh one_unroutable too_late Hs Hm) as H. cbv zeta in H |- *.
  rewrite <- Hsent. exact H.
Defined.

(** ** A monitor that comes late *)

Definition late_monitor : list call := [CallPublish false 7; CallReconnect; CallMonitor 0 1; CallPublish false 8].
Definition monitor_after_reconnect : list (nat * surroundings) :=
  steps 0 12 PickTimer ++ steps 1 9 PickConfirm ++ steps 2 9 PickClosed ++ steps 3 9 PickConfirm.
Abbreviation after_monitor := (interleave_when exec enabled (start plain (call_program <$> late_monitor)) monitor_after_reconnect).

(** C39: without automatic recovery a confirmation that does not come in time closes
    the channel, and the caller is told to call [Reconnect] with a fresh one.  The
    monitor of the old channel is still running: when it gets its turn after
    [Reconnect] has returned without an error, it closes the publisher again, and
    signals the channel it was not watching.  The next publish fails with
    ErrPublisherClosed and the publisher reports itself disconnected, though its
    channel is open and nobody has called [Close]. *)
Theorem late_monitor_closes_new_channel : ∃ calls ls a,
  let w := interleave_when exec enabled (start plain (call_program <$> calls)) ls in
  calls = [CallPublish false 7; CallReconnect; CallMonitor 0 1; CallPublish false 8] ∧
  (th_rest <$> w_threads w) = [Done (Some ErrConfirmTimeout); Done None; Done None; Done (Some ErrPublisherClosed)] ∧
  ch (w_state w) = Some 1%nat ∧ channels (w_state w) !! 1%nat = Some a ∧ c_open a = true ∧
  closed (w_state w) = true ∧ shutdown (w_state w) = false ∧ health (w_state w) = HealthStateDisconnected.
Proof.
  assert (H1 : th_rest <$> w_threads after_monitor = [Done (Some ErrConfirmTimeout); Done None; Done None; Done (Some ErrPublisherClosed)]) by (vm_compute; reflexivity).
  assert (H2 : ch (w_state after_monitor) = Some 1%nat) by (vm_compute; reflexivity).
  assert (H3 : c_open <$> channels (w_state after_monitor) !! 1%nat = Some true) by (vm_compute; reflexivity).
  assert (H4 : closed (w_state after_monitor) = true) by (vm_compute; reflexivity).
  assert (H5 : shutdown (w_state after_monitor) = false) by (vm_compute; reflexivity).
  assert (H6 : health (w_state after_monitor) = HealthStateDisconnected) by (vm_compute; reflexivity).
  apply fmap_Some in H3 as (a & Ha & Ho). exists late_monitor, monitor_after_reconnect, a.
  exact (conj eq_refl (conj H1 (conj H2 (conj Ha (conj (eq_sym Ho) (conj H4 (conj H5 H6))))))).
Qed.
