(* ===== verification/OutboxTopology.v ===== *)
(** The pool resolver that knows the modules of a service:
    [outbox/postgres/module_pool_resolver.go].

    A tenant may keep its outbox in several physical databases, one per module.
    The resolver lists one dispatch scope for each of them, keeps the list for a
    while, and finds the pool of a scope.  Its fields under [topologyMu] are the
    state; every section under that lock, every use of the atomic counter and every
    call of an injected resolver or loader is one command of a program of
    [Effects]; [refreshMu] is a command that is enabled while the lock is free.  The
    injected pool resolvers are named by numbers.  Logs are left out. *)

From stdpp Require Import base numbers list gmap strings.
From S2P Require Import Prelude GoText GoUrl Effects Ssrf TenantCore OutboxDispatcher.

Local Open Scope Z_scope.
Local Open Scope go_scope.

Inductive topology_error :=
| ErrGenericPoolResolverRequired | ErrDefaultTenantIDRequired | ErrTenantConfigLoaderRequired
| ErrModulePoolNameRequired | ErrModulePoolResolverRequired (name : text) | ErrDuplicateModulePool (name : text)
| ErrTenantPostgresConfigRequired | ErrTenantPoolUnavailable
| ResolverError (e : Z) | LoadingConfig (e : Z) | ListingTenants (e : Z) | ResolvingPool (poolKey : text) (e : Z).

(** ** Construction *)

Record ModulePool := { Name : text; Resolver : option nat }.

Definition defaultTopologyRefreshInterval : duration := Minute.
Definition DefaultModulePoolResolverConfig : duration := defaultTopologyRefreshInterval.
Definition normalize (interval : duration) : duration := if bool_decide (interval ≤ 0) then defaultTopologyRefreshInterval else interval.

(** The fields that no method changes. *)
Record ModulePoolResolver := {
  generic : nat; defaultTenantID : text; modules : list text; moduleByName : gmap text nat; refreshInterval : duration }.

(** The fields that the methods share. *)
Record topology_state := {
  refreshMu : bool; topology : gmap text (list TenantDispatchScope); orderedScopes : list TenantDispatchScope;
  topologyRefreshed : gotime; topologyValid : bool; refreshID : Z; committedRefreshID : Z }.
#[export] Instance topology_state_eta : Eta topology_state := λ s,
  {| refreshMu := refreshMu s; topology := topology s; orderedScopes := orderedScopes s; topologyRefreshed := topologyRefreshed s;
     topologyValid := topologyValid s; refreshID := refreshID s; committedRefreshID := committedRefreshID s |}.

Fixpoint bind_modules (given : list ModulePool) (names : list text) (byName : gmap text nat) :
    result topology_error (list text * gmap text nat) :=
  match given with
  | [] => Ok (names, byName)
  | module :: given =>
    let name := TrimSpace (Name module) in
    if is_empty name then Err ErrModulePoolNameRequired
    else match Resolver module with
    | None => Err (ErrModulePoolResolverRequired name)
    | Some resolver =>
      match byName !! name with
      | Some _ => Err (ErrDuplicateModulePool name)
      | None => bind_modules given (names ++ [name]) (<[name := resolver]> byName)
      end
    end
  end.

(** [None] is a nil resolver; [loadConfig] tells whether a loader is given. *)
Definition NewModulePoolResolverWithConfig (generic : option nat) (defaultTenantID : text) (loadConfig : bool) (interval : duration)
    (given : list ModulePool) : result topology_error (ModulePoolResolver * topology_state) :=
  match generic with
  | None => Err ErrGenericPoolResolverRequired
  | Some generic =>
    let defaultTenantID := TrimSpace defaultTenantID in
    if is_empty defaultTenantID then Err ErrDefaultTenantIDRequired
    else if negb loadConfig then Err ErrTenantConfigLoaderRequired
    else match bind_modules given [] ∅ with
    | Err e => Err e
    | Ok (names, byName) =>
      Ok ({| generic := generic; defaultTenantID := defaultTenantID; modules := names; moduleByName := byName;
             refreshInterval := normalize interval |},
          {| refreshMu := false; topology := ∅; orderedScopes := []; topologyRefreshed := zero_time; topologyValid := false;
             refreshID := 0; committedRefreshID := 0 |})
    end
  end.

Definition NewModulePoolResolver (generic : option nat) (defaultTenantID : text) (loadConfig : bool) (given : list ModulePool) :=
  NewModulePoolResolverWithConfig generic defaultTenantID loadConfig DefaultModulePoolResolverConfig given.

(** ** The scopes of a tenant *)

Definition NUL : text := [0].

(** [strings.TrimSuffix(s, ".")] *)
Definition trim_dot (s : text) : text := match last s with Some c => if bool_decide (c = DOT) then removelast s else s | None => s end.

Definition postgresResourceIdentity (config : PostgreSQLConfig) : text :=
  let host := trim_dot (ToLower (TrimSpace (Host config))) in
  let schema := TrimSpace (Schema config) in
  let schema := if is_empty schema then txt "public" else schema in
  let port := if bool_decide (Port config = 0) then 5432 else Port config in
  Join_text NUL [host; Itoa port; TrimSpace (Database config); schema].

Fixpoint module_scopes (tenantID : text) (config : TenantConfig) (modules : list text) (seen : gset text) : list TenantDispatchScope :=
  match modules with
  | [] => []
  | module :: modules =>
    match GetPostgreSQLConfig (Some config) module with
    | None => module_scopes tenantID config modules seen
    | Some moduleConfig =>
      let identity := postgresResourceIdentity moduleConfig in
      if bool_decide (identity ∈ seen) then module_scopes tenantID config modules seen
      else (tenantID, module) :: module_scopes tenantID config modules ({[identity]} ∪ seen)
    end
  end.

(** [scopesForTenant] after the configuration has been loaded. *)
Definition scopes_of (r : ModulePoolResolver) (tenantID : text) (config : option TenantConfig) : result topology_error (list TenantDispatchScope) :=
  match config with
  | None => Err ErrTenantPostgresConfigRequired
  | Some config =>
    match GetPostgreSQLConfig (Some config) [] with
    | None => Err ErrTenantPostgresConfigRequired
    | Some genericConfig => Ok ((tenantID, []) :: module_scopes tenantID config (modules r) {[postgresResourceIdentity genericConfig]})
    end
  end.

Fixpoint unique_loop (seen : gset text) (tenantIDs : list text) : list text :=
  match tenantIDs with
  | [] => []
  | tenantID :: tenantIDs =>
    let tenantID := TrimSpace tenantID in
    if (is_empty tenantID || bool_decide (tenantID ∈ seen))%bool then unique_loop seen tenantIDs
    else tenantID :: unique_loop ({[tenantID]} ∪ seen) tenantIDs
  end.
Definition uniqueTenantIDs (tenantIDs : list text) : list text := unique_loop ∅ tenantIDs.

(** ** Sections under [topologyMu] *)

Definition cachedTenantScopes (tenantID : text) (s : topology_state) : list TenantDispatchScope := default [] (topology s !! tenantID).

Definition cachedScopesWithState (s : topology_state) : list TenantDispatchScope * bool :=
  (orderedScopes s, (topologyValid s || negb (time_is_zero (topologyRefreshed s)))%bool).

Definition cachedFreshScopes (r : ModulePoolResolver) (now : gotime) (s : topology_state) : option (list TenantDispatchScope) :=
  if (negb (topologyValid s) || negb (time_before now (time_add (topologyRefreshed s) (refreshInterval r))))%bool
  then None else Some (orderedScopes s).

Definition commitRefreshAttempt (id : Z) (now : gotime) (s : topology_state) : topology_state :=
  if bool_decide (id ≤ committedRefreshID s) then s
  else s <| topologyRefreshed := now |> <| topologyValid := true |> <| committedRefreshID := id |>.

(** The end of [ListTenantDispatchScopes]: the scopes to return. *)
Definition commit_section (id : Z) (next : gmap text (list TenantDispatchScope)) (ordered : list TenantDispatchScope) (now : gotime)
    (s : topology_state) : list TenantDispatchScope * topology_state :=
  if bool_decide (id ≤ committedRefreshID s) then (orderedScopes s, s)
  else (ordered, s <| topology := next |> <| orderedScopes := ordered |> <| topologyRefreshed := now |> <| topologyValid := true |>
                   <| committedRefreshID := id |>).

Definition invalidate_section (id : Z) (s : topology_state) : topology_state :=
  let s := s <| topologyValid := false |> in
  if bool_decide (committedRefreshID s < id) then s <| committedRefreshID := id |> else s.

Definition evict_section (id : Z) (tenantID : text) (s : topology_state) : topology_state :=
  let s := s <| topology := delete tenantID (topology s) |>
             <| orderedScopes := filter (λ scope : TenantDispatchScope, scope.1 ≠ tenantID) (orderedScopes s) |>
             <| topologyValid := false |> in
  if bool_decide (committedRefreshID s < id) then s <| committedRefreshID := id |> else s.

(** The resolver that owns the pool of a scope, if the scope is known. *)
Definition route_section (r : ModulePoolResolver) (scope : TenantDispatchScope) (s : topology_state) : option nat :=
  if bool_decide (scope ∈ cachedTenantScopes scope.1 s) then
    if is_empty scope.2 then Some (generic r) else moduleByName r !! scope.2
  else None.

(** ** Commands *)

Inductive cmd :=
| CurrentTime | CachedFresh (now : gotime) | LockRefresh | UnlockRefresh | NextID
| GenericTenants | CachedWithState | CommitAttempt (id : Z) (now : gotime) | LoadConfig (tenantID : text) | CachedTenant (tenantID : text)
| CommitSection (id : Z) (next : gmap text (list TenantDispatchScope)) (ordered : list TenantDispatchScope) (now : gotime)
| InvalidateSection (id : Z) | EvictSection (id : Z) (tenantID : text) | RouteSection (scope : TenantDispatchScope)
| PoolOf (resolver : nat) (tenantID : text).

Definition answer (c : cmd) : Type :=
  match c with
  | CurrentTime => gotime
  | CachedFresh _ => option (list TenantDispatchScope)
  | NextID => Z
  | GenericTenants => result Z (list text)
  | CachedWithState => list TenantDispatchScope * bool
  | LoadConfig _ => result Z (option TenantConfig)
  | CachedTenant _ | CommitSection _ _ _ _ => list TenantDispatchScope
  | RouteSection _ => option nat
  | PoolOf _ _ => result Z (option Z)
  | _ => unit
  end.

Definition prog := eff answer.
Definition ask (c : cmd) : prog (answer c) := perform c.

(** What the clock, the generic resolver's list, the loader and the pool resolvers
    answer. *)
Record surroundings := {
  at_time : gotime; listed : result Z (list text); loads : text → result Z (option TenantConfig); pool_of : nat → text → result Z (option Z) }.

Definition enabled (c : cmd) (s : topology_state) : bool := match c with LockRefresh => negb (refreshMu s) | _ => true end.

Definition exec (r : ModulePoolResolver) (l : surroundings) (c : cmd) (s : topology_state) : answer c * topology_state :=
  match c with
  | CurrentTime => (at_time l, s)
  | CachedFresh now => (cachedFreshScopes r now s, s)
  | LockRefresh => (tt, s <| refreshMu := true |>)
  | UnlockRefresh => (tt, s <| refreshMu := false |>)
  | NextID => let id := (refreshID s + 1) `mod` 2 ^ 64 in (id, s <| refreshID := id |>)
  | GenericTenants => (listed l, s)
  | CachedWithState => (cachedScopesWithState s, s)
  | CommitAttempt id now => (tt, commitRefreshAttempt id now s)
  | LoadConfig tenantID => (loads l tenantID, s)
  | CachedTenant tenantID => (cachedTenantScopes tenantID s, s)
  | CommitSection id next ordered now => commit_section id next ordered now s
  | InvalidateSection id => (tt, invalidate_section id s)
  | EvictSection id tenantID => (tt, evict_section id tenantID s)
  | RouteSection scope => (route_section r scope s, s)
  | PoolOf resolver tenantID => (pool_of l resolver tenantID, s)
  end.

(** ** The methods *)

Section methods.
Context (r : ModulePoolResolver).

(** [nil] tells whether the receiver is nil. *)
Definition PoolForTenant (nil : bool) (tenantID : text) : prog (result topology_error (option Z)) :=
  if nil then mret (Err ErrTenantPoolUnavailable)
  else x ← ask (PoolOf (generic r) (TrimSpace tenantID));
       mret (match x with Err e => Err (ResolverError e) | Ok p => Ok p end).

Definition ListTenants (nil : bool) : prog (result topology_error (list text)) :=
  if nil then mret (Err ErrTenantPoolUnavailable)
  else x ← ask GenericTenants; mret (match x with Err e => Err (ResolverError e) | Ok ids => Ok ids end).

Definition scopesForTenant (tenantID : text) : prog (result topology_error (list TenantDispatchScope)) :=
  x ← ask (LoadConfig tenantID);
  mret (match x with Err e => Err (LoadingConfig e) | Ok config => scopes_of r tenantID config end).

Fixpoint topology_loop (tenantIDs : list text) (next : gmap text (list TenantDispatchScope)) (ordered : list TenantDispatchScope) :
    prog (gmap text (list TenantDispatchScope) * list TenantDispatchScope) :=
  match tenantIDs with
  | [] => mret (next, ordered)
  | tenantID :: tenantIDs =>
    if eqt tenantID (defaultTenantID r) then
      let scope : TenantDispatchScope := (tenantID, []) in
      topology_loop tenantIDs (<[tenantID := [scope]]> next) (ordered ++ [scope])
    else
      x ← scopesForTenant tenantID;
      scopes ← (match x with Ok scopes => mret scopes | Err _ => ask (CachedTenant tenantID) end);
      match scopes with
      | [] => topology_loop tenantIDs next ordered
      | _ => topology_loop tenantIDs (<[tenantID := scopes]> next) (ordered ++ scopes)
      end
  end.

(** The body under [refreshMu]. *)
Definition refresh_locked : prog (result topology_error (list TenantDispatchScope)) :=
  now ← ask CurrentTime;
  fresh ← ask (CachedFresh now);
  match fresh with
  | Some scopes => mret (Ok scopes)
  | None =>
    id ← ask NextID;
    tenantIDs ← ask GenericTenants;
    match tenantIDs with
    | Err e =>
      x ← ask CachedWithState;
      if ((x : _ * bool).2) then _ ← ask (CommitAttempt id now); mret (Ok x.1)
      else mret (Err (ListingTenants e))
    | Ok tenantIDs =>
      x ← topology_loop (uniqueTenantIDs tenantIDs) ∅ [];
      scopes ← ask (CommitSection id x.1 x.2 now);
      mret (Ok scopes)
    end
  end.

Definition ListTenantDispatchScopes (nil : bool) : prog (result topology_error (list TenantDispatchScope)) :=
  if nil then mret (Err ErrTenantPoolUnavailable)
  else
    now ← ask CurrentTime;
    fresh ← ask (CachedFresh now);
    match fresh with
    | Some scopes => mret (Ok scopes)
    | None =>
      _ ← ask LockRefresh;
      scopes ← refresh_locked;
      _ ← ask UnlockRefresh;
      mret scopes
    end.

Definition InvalidateTopology (nil : bool) : prog unit :=
  if nil then mret tt else id ← ask NextID; ask (InvalidateSection id).

Definition EvictTenant (nil : bool) (tenantID : text) : prog unit :=
  if nil then mret tt
  else
    let tenantID := TrimSpace tenantID in
    if is_empty tenantID then mret tt else id ← ask NextID; ask (EvictSection id tenantID).

Definition PoolForTenantDispatchScope (nil : bool) (scope : TenantDispatchScope) : prog (result topology_error Z) :=
  if nil then mret (Err ErrTenantPoolUnavailable)
  else
    let scope : TenantDispatchScope := (TrimSpace scope.1, TrimSpace scope.2) in
    if is_empty scope.1 then mret (Err ErrTenantPoolUnavailable)
    else
      route ← ask (RouteSection scope);
      match route with
      | None => mret (Err ErrTenantPoolUnavailable)
      | Some resolver =>
        x ← ask (PoolOf resolver scope.1);
        mret (match x with
              | Err e => Err (ResolvingPool scope.2 e)
              | Ok None => Err ErrTenantPoolUnavailable
              | Ok (Some pool) => Ok pool
              end)
      end.
End methods.
