(* ===== verification/OutboxTopologySafety.v ===== *)
(** What the module-aware pool resolver promises: a tenant's databases are each
    listed once, the cached topology and everything read from it stay consistent
    however listings, evictions and invalidations interleave, and an evicted tenant
    stays out until a later refresh. *)

From stdpp Require Import base numbers list gmap strings.
From S2P Require Import Prelude GoText GoUrl Effects Ssrf TenantCore OutboxDispatcher OutboxTopology.

Local Open Scope Z_scope.
Local Open Scope go_scope.

(** ** Databases *)

(** Where a configuration points: host, port, database and schema. *)
Definition physical (c : PostgreSQLConfig) : text * Z * text * text :=
  (trim_dot (ToLower (TrimSpace (Host c))), if bool_decide (Port c = 0) then 5432 else Port c, TrimSpace (Database c),
   if is_empty (TrimSpace (Schema c)) then txt "public" else TrimSpace (Schema c)).

(** No host, database or schema has a NUL in its name, and ports are integers. *)
Definition addressable (c : PostgreSQLConfig) : Prop := 0 ∉ Host c ∧ 0 ∉ Database c ∧ 0 ∉ Schema c ∧ in_int64 (Port c).

Lemma lower_not_nul s : 0 ∉ s → 0 ∉ ToLower s.
Proof.
  intros H. unfold ToLower. intros (x & E & Hx)%list_elem_of_fmap. apply H. enough (x = 0) by congruence.
  revert E. unfold lower_rune. repeat case_bool_decide; lia.
Qed.

Lemma trim_not_nul s : 0 ∉ s → 0 ∉ TrimSpace s.
Proof. intros H Hx. apply H. by eapply elem_of_trim_by. Qed.

Lemma trim_dot_sub s c : c ∈ trim_dot s → c ∈ s.
Proof.
  unfold trim_dot. destruct (last s) as [d|] eqn:E; [|done]. case_bool_decide; [|done].
  apply last_Some in E as [k ->]. rewrite removelast_last. set_solver.
Qed.

Lemma Itoa_not_nul z : 0 ∉ Itoa z.
Proof.
  unfold Itoa. assert (H : ∀ n, 0 ∉ digits_of_nat 20 n []).
  { intros n Hin. assert (Hd := digits_of_nat_digits 20 n [] (Forall_nil_2 _)). rewrite Forall_forall in Hd. apply Hd in Hin. done. }
  case_bool_decide; [|by apply H]. rewrite elem_of_cons. intros [?|Hin]; [done|]. by apply H in Hin.
Qed.

(** The key tells databases apart. *)
Lemma identity_is_exact c c' : addressable c → addressable c' →
  postgresResourceIdentity c = postgresResourceIdentity c' ↔ physical c = physical c'.
Proof.
  intros (H1 & H2 & H3 & H4) (H1' & H2' & H3' & H4'). unfold physical, postgresResourceIdentity. split; [|by intros [= -> -> -> ->]].
  assert (Hh : ∀ c, 0 ∉ Host c → 0 ∉ trim_dot (ToLower (TrimSpace (Host c)))).
  { intros c0 H Hin%trim_dot_sub. by apply lower_not_nul in Hin; [|by apply trim_not_nul]. }
  set (p := if bool_decide (Port c = 0) then 5432 else Port c). set (p' := if bool_decide (Port c' = 0) then 5432 else Port c').
  assert (Hp : in_int64 p) by (unfold p; case_bool_decide; done || (unfold in_int64, MinInt64, MaxInt64; lia)).
  assert (Hp' : in_int64 p') by (unfold p'; case_bool_decide; done || (unfold in_int64, MinInt64, MaxInt64; lia)).
  cbn [Join_text]. unfold NUL. simpl app.
  intros [Ea E]%split_at_first; [|by apply Hh..]. apply split_at_first in E as [Eb E]; [|apply Itoa_not_nul..].
  apply split_at_first in E as [Ec Ed]; [|by apply trim_not_nul..].
  assert (p = p') as -> by (apply (f_equal Atoi) in Eb; rewrite !Atoi_Itoa in Eb by done; congruence). congruence.
Qed.

(** The database an entry of a configuration points to; the empty name is the
    generic entry. *)
Definition key_of (config : TenantConfig) (m : text) : option text := postgresResourceIdentity <$> GetPostgreSQLConfig (Some config) m.
Definition database_of (config : TenantConfig) (m : text) : option (text * Z * text * text) := physical <$> GetPostgreSQLConfig (Some config) m.

Section scopes.
Context (t : text) (config : TenantConfig).

(** A module gets a scope when it is configured and its database is new. *)
Lemma module_scopes_elem ms seen sc : sc ∈ module_scopes t config ms seen ↔
  ∃ before m after k, sc = (t, m) ∧ ms = before ++ m :: after ∧ key_of config m = Some k ∧ k ∉ seen ∧
    ∀ m', m' ∈ before → key_of config m' ≠ Some k.
Proof.
  revert seen. induction ms as [|m0 ms IH]; intros seen; cbn [module_scopes].
  { rewrite elem_of_nil. split; [done|]. intros (b & m & a & k & _ & E & _). by destruct b. }
  assert (Hskip : (∀ k, key_of config m0 = Some k → k ∈ seen) → sc ∈ module_scopes t config ms seen ↔
    ∃ before m after k, sc = (t, m) ∧ m0 :: ms = before ++ m :: after ∧ key_of config m = Some k ∧ k ∉ seen ∧
      ∀ m', m' ∈ before → key_of config m' ≠ Some k).
  { intros H0. rewrite IH. split.
    - intros (b & m & a & k & -> & -> & Hk & Hs & Hb). exists (m0 :: b), m, a, k. split_and!; [done..|].
      intros m' [->|Hm]%elem_of_cons; [|by apply Hb]. intros E. by apply H0 in E.
    - intros (b & m & a & k & -> & E & Hk & Hs & Hb). destruct b as [|x b]; simplify_eq/=; [by apply H0 in Hk|].
      exists b, m, a, k. split_and!; [done..|]. intros m' Hm. apply Hb. by right. }
  destruct (GetPostgreSQLConfig (Some config) m0) as [c|] eqn:E; [|apply Hskip; unfold key_of; by rewrite E].
  assert (Hc : key_of config m0 = Some (postgresResourceIdentity c)) by (unfold key_of; by rewrite E).
  case_bool_decide as Hin; [apply Hskip; rewrite Hc; by intros k [= <-]|]. rewrite elem_of_cons, IH. split.
  - intros [->|(b & m & a & k & -> & -> & Hk & Hs & Hb)].
    + exists [], m0, ms, (postgresResourceIdentity c). split_and!; [done..|]. intros m' Hm. by apply elem_of_nil in Hm.
    + exists (m0 :: b), m, a, k. split_and!; [done..|set_solver|].
      intros m' [->|Hm]%elem_of_cons; [|by apply Hb]. rewrite Hc. intros ?. simplify_eq. set_solver.
  - intros (b & m & a & k & -> & E' & Hk & Hs & Hb). destruct b as [|x b]; simplify_eq/=; [by left|]. right.
    exists b, m, a, k. assert (key_of config x ≠ Some k) by (apply Hb; by left). split_and!; [done..|set_solver|].
    intros m' Hm. apply Hb. by right.
Qed.

Lemma module_scopes_keys ms seen : NoDup ((λ sc : TenantDispatchScope, key_of config sc.2) <$> module_scopes t config ms seen).
Proof.
  revert seen. induction ms as [|m0 ms IH]; intros seen; cbn [module_scopes]; [constructor|].
  destruct (GetPostgreSQLConfig (Some config) m0) as [c|] eqn:E; [|apply IH]. case_bool_decide; [apply IH|]. csimpl. constructor; [|apply IH].
  intros (sc & Hk & (b & m & a & k & -> & _ & Hk' & Hs & _)%module_scopes_elem)%list_elem_of_fmap.
  unfold key_of in Hk at 1. rewrite E in Hk. simpl in Hk, Hk'. rewrite Hk' in Hk. set_solver.
Qed.

Context (r : ModulePoolResolver) (scopes : list TenantDispatchScope) (Hs : scopes_of r t (Some config) = Ok scopes).

Lemma scopes_elem sc : sc ∈ scopes ↔
  ∃ before m after k, sc = (t, m) ∧ [] :: modules r = before ++ m :: after ∧ key_of config m = Some k ∧
    ∀ m', m' ∈ before → key_of config m' ≠ Some k.
Proof using Hs.
  unfold scopes_of in Hs. destruct (GetPostgreSQLConfig (Some config) []) as [g|] eqn:E; [|done]. injection Hs as <-.
  assert (Hg : key_of config [] = Some (postgresResourceIdentity g)) by (unfold key_of; by rewrite E).
  rewrite elem_of_cons, module_scopes_elem. split.
  - intros [->|(b & m & a & k & -> & -> & Hk & Hn & Hb)].
    + exists [], [], (modules r), (postgresResourceIdentity g). split_and!; [done..|]. intros m' Hm. by apply elem_of_nil in Hm.
    + exists ([] :: b), m, a, k. split_and!; [done..|]. intros m' [->|Hm]%elem_of_cons; [|by apply Hb]. rewrite Hg. intros ?. simplify_eq. set_solver.
  - intros (b & m & a & k & -> & E' & Hk & Hb). destruct b as [|x b]; simplify_eq/=; [by left|]. right.
    exists b, m, a, k. assert (Hx : key_of config [] ≠ Some k) by (apply Hb; by left). split_and!; [done..|set_solver|].
    intros m' Hm. apply Hb. by right.
Qed.

Lemma scopes_keys : NoDup ((λ sc : TenantDispatchScope, key_of config sc.2) <$> scopes).
Proof using Hs.
  unfold scopes_of in Hs. destruct (GetPostgreSQLConfig (Some config) []) as [g|] eqn:E; [|done]. injection Hs as <-. csimpl.
  constructor; [|apply module_scopes_keys].
  intros (sc & Hk & (b & m & a & k & -> & _ & Hk' & Hn & _)%module_scopes_elem)%list_elem_of_fmap.
  unfold key_of in Hk at 1. rewrite E in Hk. simpl in Hk, Hk'. rewrite Hk' in Hk. set_solver.
Qed.
End scopes.

(** The first element with a value. *)
Lemma first_with {X Y} `{EqDecision Y} (f : X → option Y) (d : Y) (l : list X) m : m ∈ l → f m = Some d →
  ∃ before m' after, l = before ++ m' :: after ∧ f m' = Some d ∧ ∀ x, x ∈ before → f x ≠ Some d.
Proof.
  intros Hm Hf. induction l as [|x l IH]; [by apply elem_of_nil in Hm|].
  destruct (decide (f x = Some d)) as [Hx|Hx].
  { exists [], x, l. split_and!; [done..|]. intros y Hy. by apply elem_of_nil in Hy. }
  apply elem_of_cons in Hm as [->|Hm]; [done|]. destruct (IH Hm) as (b & m' & a & -> & Hm' & Hb).
  exists (x :: b), m', a. split_and!; [done..|]. intros y [->|Hy]%elem_of_cons; [done|by apply Hb].
Qed.

(** C12: a tenant's outbox is scanned once per physical database.  Of the generic
    entry and the registered modules, in this order, exactly those get a scope that
    are configured and whose host, port, database and schema no earlier entry has;
    so no two scopes share a database, and every database that some entry points to
    has a scope. *)
Theorem one_scope_per_database (r : ModulePoolResolver) t config scopes :
  (∀ m c, m ∈ [] :: modules r → GetPostgreSQLConfig (Some config) m = Some c → addressable c) →
  scopes_of r t (Some config) = Ok scopes →
  NoDup ((λ sc : TenantDispatchScope, database_of config sc.2) <$> scopes) ∧
  (∀ sc, sc ∈ scopes ↔ ∃ before m after d, sc = (t, m) ∧ [] :: modules r = before ++ m :: after ∧
     database_of config m = Some d ∧ ∀ m', m' ∈ before → database_of config m' ≠ Some d) ∧
  (∀ m d, m ∈ [] :: modules r → database_of config m = Some d → ∃ m', (t, m') ∈ scopes ∧ database_of config m' = Some d).
Proof.
  intros Ha Hs.
  assert (Hk : ∀ m m' k d, m ∈ [] :: modules r → m' ∈ [] :: modules r → key_of config m = Some k → database_of config m = Some d →
    key_of config m' = Some k ↔ database_of config m' = Some d).
  { intros m m' k d Hm Hm'. unfold key_of, database_of.
    destruct (GetPostgreSQLConfig (Some config) m) as [c|] eqn:E; [|done]. destruct (GetPostgreSQLConfig (Some config) m') as [c'|] eqn:E'; [|done].
    intros [= <-] [= <-]. simpl. pose proof (identity_is_exact c' c (Ha _ _ Hm' E') (Ha _ _ Hm E)) as Hi.
    split; intros H%(inj Some); apply (f_equal Some); by apply Hi. }
  assert (Hboth : ∀ m, (∃ k, key_of config m = Some k) ↔ ∃ d, database_of config m = Some d).
  { intros m. unfold key_of, database_of. destruct (GetPostgreSQLConfig _ m); simpl; split; intros [? H]; try discriminate H; eauto. }
  assert (Hel : ∀ sc, sc ∈ scopes ↔ ∃ before m after d, sc = (t, m) ∧ [] :: modules r = before ++ m :: after ∧
     database_of config m = Some d ∧ ∀ m', m' ∈ before → database_of config m' ≠ Some d).
  { intros sc. rewrite (scopes_elem t config r scopes Hs). split.
    - intros (b & m & a & k & -> & E & Hkm & Hb). destruct (proj1 (Hboth m)) as [d Hd]; [eauto|]. exists b, m, a, d. split_and!; [done..|].
      intros m' Hm'. rewrite <- (Hk m m' k d); [by apply Hb|rewrite E; set_solver..|done|done].
    - intros (b & m & a & d & -> & E & Hd & Hb). destruct (proj2 (Hboth m)) as [k Hkm]; [eauto|]. exists b, m, a, k. split_and!; [done..|].
      intros m' Hm'. rewrite (Hk m m' k d); [by apply Hb|rewrite E; set_solver..|done|done]. }
  split_and!; [|done|].
  - apply NoDup_fmap_2_strong; [|eapply NoDup_fmap_1, (scopes_keys t config r scopes Hs)]. intros x y Hx Hy E.
    apply (scopes_elem t config r scopes Hs) in Hx as (b & m & a & k & -> & E1 & Hkm & Hb), Hy as (b' & m' & a' & k' & -> & E2 & Hkm' & Hb').
    simpl in E. destruct (proj1 (Hboth m)) as [d Hd]; [eauto|].
    assert (Hm : m ∈ [] :: modules r) by (rewrite E1; set_solver). assert (Hm' : m' ∈ [] :: modules r) by (rewrite E2; set_solver).
    assert (key_of config m' = Some k) as Hk2 by (apply (Hk m m' k d); [done..|by rewrite <- E]). assert (k' = k) as -> by congruence. clear Hk2.
    rewrite E1 in E2. f_equal.
    apply app_eq_inv in E2 as [(l & -> & E3)|(l & -> & E3)]; destruct l as [|z l]; simplify_eq/=; try done.
    + exfalso. eapply Hb; [|exact Hkm']. set_solver.
    + exfalso. eapply Hb'; [|exact Hkm]. set_solver.
  - intros m d Hm Hd. destruct (first_with (database_of config) d _ m Hm Hd) as (b & m' & a & E & Hd' & Hb).
    exists m'. split; [|done]. apply Hel. eauto 10.
Qed.

(** ** The cached topology *)

(** The resolver that a pool key names. *)
Definition resolver_of (r : ModulePoolResolver) (poolKey : text) : option nat :=
  if is_empty poolKey then Some (generic r) else moduleByName r !! poolKey.

(** Scopes of one tenant, without repetition, with pool keys that are registered. *)
Definition own (r : ModulePoolResolver) (t : text) (scs : list TenantDispatchScope) : Prop :=
  NoDup scs ∧ ∀ sc, sc ∈ scs → sc.1 = t ∧ is_Some (resolver_of r sc.2).

(** The two views of the topology agree: by tenant and as one list. *)
Record consistent (r : ModulePoolResolver) (topo : gmap text (list TenantDispatchScope)) (ordered : list TenantDispatchScope) : Prop := {
  co_own : ∀ t scs, topo !! t = Some scs → own r t scs;
  co_nodup : NoDup ordered;
  co_same : ∀ sc, sc ∈ ordered ↔ sc ∈ default [] (topo !! sc.1) }.

(** A list that a caller may be given. *)
Definition listing_ok (r : ModulePoolResolver) (scs : list TenantDispatchScope) : Prop :=
  NoDup scs ∧ ∀ sc, sc ∈ scs → is_Some (resolver_of r sc.2).

Section consistent.
Context (r : ModulePoolResolver).

Lemma own_default topo ordered t : consistent r topo ordered → own r t (default [] (topo !! t)).
Proof.
  intros H. destruct (topo !! t) as [scs|] eqn:E; [by eapply co_own|]. split; [constructor|]. intros sc Hsc. by apply elem_of_nil in Hsc.
Qed.

Lemma consistent_listing topo ordered : consistent r topo ordered → listing_ok r ordered.
Proof.
  intros H. split; [by eapply co_nodup|]. intros sc Hsc. eapply co_same in Hsc; [|done].
  by destruct (own_default topo ordered sc.1 H) as [_ Ho]; apply Ho.
Qed.

Lemma consistent_empty : consistent r ∅ [].
Proof. split; [done|constructor|]. intros sc. by rewrite lookup_empty. Qed.

Lemma consistent_add topo ordered t scs : consistent r topo ordered → topo !! t = None → own r t scs →
  consistent r (<[t := scs]> topo) (ordered ++ scs).
Proof.
  intros H Ht [Hn Ho]. split.
  - intros t' scs' [[<- <-]|[_ Hl]]%lookup_insert_Some; [done|by eapply co_own].
  - apply NoDup_app. split_and!; [by eapply co_nodup| |done]. intros sc Hin Hs. eapply co_same in Hin; [|done].
    apply Ho in Hs as [<- _]. rewrite Ht in Hin. by apply elem_of_nil in Hin.
  - intros sc. rewrite elem_of_app, (co_same _ _ _ H). destruct (decide (sc.1 = t)) as [<-|Hne].
    + rewrite lookup_insert, Ht. rewrite decide_True by done. simpl. set_solver.
    + rewrite lookup_insert_ne by done. split; [|by left]. intros [?|Hs]; [done|]. by apply Ho in Hs as [? _].
Qed.

Lemma consistent_evict topo ordered t : consistent r topo ordered →
  consistent r (delete t topo) (filter (λ sc : TenantDispatchScope, sc.1 ≠ t) ordered).
Proof.
  intros H. split.
  - intros t' scs [_ Hl]%lookup_delete_Some. by eapply co_own.
  - apply NoDup_filter. by eapply co_nodup.
  - intros sc. rewrite list_elem_of_filter, (co_same _ _ _ H). destruct (decide (sc.1 = t)) as [<-|Hne].
    + rewrite lookup_delete, decide_True by done. set_solver.
    + rewrite lookup_delete_ne by done. naive_solver.
Qed.

Lemma unique_loop_spec ids seen : NoDup (unique_loop seen ids) ∧ ∀ t, t ∈ unique_loop seen ids → t ∉ seen.
Proof.
  revert seen. induction ids as [|t ids IH]; intros seen; cbn [unique_loop]; [split; [constructor|intros t Ht; by apply elem_of_nil in Ht]|].
  destruct (is_empty (TrimSpace t)); [apply IH|]. simpl. case_bool_decide; [apply IH|].
  destruct (IH ({[TrimSpace t]} ∪ seen)) as [H1 H2]. split.
  - constructor; [|done]. intros Hin%H2. set_solver.
  - intros t' [->|Hin%H2]%elem_of_cons; [done|set_solver].
Qed.

Lemma uniqueTenantIDs_nodup ids : NoDup (uniqueTenantIDs ids).
Proof. apply unique_loop_spec. Qed.

(** The modules of a resolver have a resolver each. *)
Definition bound : Prop := ∀ m, m ∈ modules r → is_Some (resolver_of r m).

Lemma scopes_own t config scs : bound → scopes_of r t config = Ok scs → own r t scs.
Proof.
  intros Hb Hs. destruct config as [config|]; [|done]. split; [eapply NoDup_fmap_1, (scopes_keys t config r scs Hs)|].
  intros sc (b & m & a & k & -> & E & _)%(scopes_elem t config r scs Hs). split; [done|]. simpl.
  assert (m ∈ [] :: modules r) as [->|Hm]%elem_of_cons by (rewrite E; set_solver); [by eexists|by apply Hb].
Qed.
End consistent.

Lemma bind_modules_bound given names byName names' byName' : bind_modules given names byName = Ok (names', byName') →
  (∀ m, m ∈ names → is_Some (byName !! m)) → ∀ m, m ∈ names' → is_Some (byName' !! m).
Proof.
  revert names byName. induction given as [|g given IH]; intros names byName; cbn [bind_modules]; [by intros [= <- <-]|].
  destruct (is_empty _); [done|]. destruct (Resolver g) as [n|]; [|done]. destruct (byName !! _) eqn:E; [done|].
  intros H Hn. apply (IH _ _ H). intros m [Hm| ->%list_elem_of_singleton]%elem_of_app.
  - apply lookup_insert_is_Some'. right. by apply Hn.
  - apply lookup_insert_is_Some'. by left.
Qed.

Lemma new_bound g d b i given r s : NewModulePoolResolverWithConfig g d b i given = Ok (r, s) → bound r ∧ consistent r (topology s) (orderedScopes s).
Proof.
  unfold NewModulePoolResolverWithConfig. destruct g as [g|]; [|done]. destruct (is_empty _); [done|]. destruct b; [|done]. simpl.
  destruct (bind_modules given [] ∅) as [[names byName]|] eqn:E; [|done]. intros [= <- <-]. split; [|apply consistent_empty].
  intros m Hm. unfold resolver_of. destruct (is_empty m); [by eexists|]. simpl in Hm |- *. eapply bind_modules_bound; [exact E| |exact Hm].
  intros m' Hm'. by apply elem_of_nil in Hm'.
Qed.

(** ** Calls *)

Inductive call := CallList | CallInvalidate | CallEvict (t : text) | CallScope (sc : TenantDispatchScope) | CallTenant (t : text).
Inductive outcome := Listed (x : result topology_error (list TenantDispatchScope)) | Pooled (x : result topology_error (option Z)) | Finished.

Definition call_program (r : ModulePoolResolver) (c : call) : prog outcome :=
  match c with
  | CallList => x ← ListTenantDispatchScopes r false; mret (Listed x)
  | CallInvalidate => _ ← InvalidateTopology false; mret Finished
  | CallEvict t => _ ← EvictTenant false t; mret Finished
  | CallScope sc => x ← PoolForTenantDispatchScope false sc; mret (Pooled (match x with Ok p => Ok (Some p) | Err e => Err e end))
  | CallTenant t => x ← PoolForTenant r false t; mret (Pooled x)
  end.

Section lead_home.
Context (r : ModulePoolResolver) (Hbound : bound r) (owner : Z → nat * text).

(** What the answers are like while the topology is consistent. *)
Definition answer_ok (e : event answer) : Prop :=
  match e with
  | Ev (CachedFresh _) x => ∀ scs, x = Some scs → listing_ok r scs
  | Ev CachedWithState x => listing_ok r x.1
  | Ev (CachedTenant t) x => own r t x
  | Ev (CommitSection _ _ _ _) x => listing_ok r x
  | Ev (RouteSection sc) x => ∀ n, x = Some n → resolver_of r sc.2 = Some n
  | Ev (PoolOf n t) x => ∀ p, x = Ok (Some p) → owner p = (n, t)
  | _ => True
  end.

Definition command_ok (c : cmd) : Prop := match c with CommitSection _ next ordered _ => consistent r next ordered | _ => True end.

Definition outcome_ok (c : call) (x : outcome) : Prop :=
  match c, x with
  | CallList, Listed (Ok scs) => listing_ok r scs
  | CallScope sc, Pooled (Ok (Some p)) => ∃ n, resolver_of r (TrimSpace sc.2) = Some n ∧ owner p = (n, TrimSpace sc.1)
  | CallTenant t, Pooled (Ok (Some p)) => owner p = (generic r, TrimSpace t)
  | _, _ => True
  end.

Abbreviation stays := (confined answer_ok command_ok).

(** A command whose answer does not matter. *)
Local Tactic Notation "issue" simple_intropattern(x) := apply (confined_bind _ _ _ _ (λ _, True)); [by apply confined_perform|intros x _].

Lemma topology_loop_stays ids next ordered : NoDup ids → (∀ t, t ∈ ids → next !! t = None) → consistent r next ordered →
  stays (topology_loop r ids next ordered) (λ x, consistent r x.1 x.2).
Proof using Hbound.
  revert next ordered. induction ids as [|t ids IH]; intros next ordered Hnd Hn Hc; cbn [topology_loop]; [done|].
  apply NoDup_cons in Hnd as [Ht Hids].
  assert (Hadd : ∀ scs, own r t scs → stays (topology_loop r ids (<[t := scs]> next) (ordered ++ scs)) (λ x, consistent r x.1 x.2)).
  { intros scs Hs. apply IH; [done| |apply consistent_add; [done|apply Hn; by left|done]].
    intros t' Ht'. rewrite lookup_insert_ne by (intros ->; done). apply Hn. by right. }
  destruct (eqt t (defaultTenantID r)).
  { apply Hadd. split; [apply NoDup_singleton|]. intros sc ->%list_elem_of_singleton. split; [done|by eexists]. }
  apply (confined_bind _ _ _ _ (λ x, ∀ scs, x = Ok scs → own r t scs)).
  { unfold scopesForTenant. issue [config|e]; [|done].
    apply confined_ret. intros scs. by apply scopes_own. }
  intros x Hx. apply (confined_bind _ _ _ _ (own r t)).
  - destruct x as [scs|e]; [by apply confined_ret, Hx|]. by apply confined_perform.
  - intros [|sc scs] Hs; [|by apply Hadd]. apply IH; [done|intros t' Ht'; apply Hn; by right|done].
Qed.

Lemma refresh_stays : stays (refresh_locked r) (λ x, ∀ scs, x = Ok scs → listing_ok r scs).
Proof using Hbound.
  unfold refresh_locked. issue now.
  apply (confined_bind _ _ _ _ (λ x, ∀ scs, x = Some scs → listing_ok r scs)); [by apply confined_perform|].
  intros [scs|] Hf; [apply confined_ret; intros ? [= <-]; by apply Hf|].
  issue id.
  issue [ids|e].
  - apply (confined_bind _ _ _ _ (λ x, consistent r x.1 x.2)).
    + apply topology_loop_stays; [apply uniqueTenantIDs_nodup|by intros; apply lookup_empty|apply consistent_empty].
    + intros x Hx. apply (confined_bind _ _ _ _ (listing_ok r)); [by apply confined_perform|]. intros scs Hs. apply confined_ret. by intros ? [= <-].
  - apply (confined_bind _ _ _ _ (λ x, listing_ok r x.1)); [by apply confined_perform|]. intros [scs []] Hs; cbn; [|done].
    split; [done|]. intros _ _ ? [= <-]. done.
Qed.

Lemma call_stays c : stays (call_program r c) (outcome_ok c).
Proof using Hbound.
  destruct c as [| |t|sc|t]; cbn [call_program].
  - apply (confined_bind _ _ _ _ (λ x, ∀ scs, x = Ok scs → listing_ok r scs)); [|intros [scs|e] Hx; apply confined_ret; [by apply Hx|done]].
    unfold ListTenantDispatchScopes. issue now.
    apply (confined_bind _ _ _ _ (λ x, ∀ scs, x = Some scs → listing_ok r scs)); [by apply confined_perform|].
    intros [scs|] Hf; [apply confined_ret; intros ? [= <-]; by apply Hf|].
    issue _.
    eapply confined_bind; [apply refresh_stays|]. intros x Hx.
    issue _. by apply confined_ret.
  - apply (confined_bind _ _ _ _ (λ _, True)); [|by intros]. unfold InvalidateTopology.
    issue id. by apply confined_perform.
  - apply (confined_bind _ _ _ _ (λ _, True)); [|by intros]. unfold EvictTenant. destruct (is_empty _); [done|].
    issue id. by apply confined_perform.
  - apply (confined_bind _ _ _ _ (λ x, ∀ p, x = Ok p → ∃ n, resolver_of r (TrimSpace sc.2) = Some n ∧ owner p = (n, TrimSpace sc.1)));
      [|intros [p|e] Hx; apply confined_ret; [by apply Hx|done]].
    unfold PoolForTenantDispatchScope. cbn [fst snd]. destruct (is_empty _); [done|].
    apply (confined_bind _ _ _ _ (λ x, ∀ n, x = Some n → resolver_of r (TrimSpace sc.2) = Some n)); [by apply confined_perform|].
    intros [n|] Hn; [|done]. apply (confined_bind _ _ _ _ (λ x, ∀ p, x = Ok (Some p) → owner p = (n, TrimSpace sc.1))); [by apply confined_perform|].
    intros [[p|]|e] Hp; apply confined_ret; try done. intros ? [= <-]. eauto.
  - apply (confined_bind _ _ _ _ (λ x, ∀ p, x = Ok (Some p) → owner p = (generic r, TrimSpace t)));
      [|intros [[p|]|e] Hx; apply confined_ret; try done; by apply Hx].
    unfold PoolForTenant. eapply confined_bind; [apply (confined_perform _ _ _ (λ x, ∀ p, x = Ok (Some p) → owner p = (generic r, TrimSpace t))); done|].
    intros [p|e] Hx; apply confined_ret; [|done]. by intros ? [= ->]; apply Hx.
Qed.

Lemma topology_answers l c s : (∀ n t p, pool_of l n t = Ok (Some p) → owner p = (n, t)) →
  consistent r (topology s) (orderedScopes s) → command_ok c → answer_ok (Ev c (exec r l c s).1).
Proof.
  intros Hl Hc HK. pose proof (consistent_listing r _ _ Hc) as Hs. destruct c; cbn [exec answer_ok]; try exact I.
  - intros scs. unfold cachedFreshScopes. destruct (_ || _)%bool; by intros [= <-].
  - done.
  - by eapply own_default.
  - unfold commit_section. case_bool_decide; [done|]. by apply (consistent_listing r next ordered).
  - intros n. unfold route_section. case_bool_decide; [|done]. done.
  - apply Hl.
Qed.

Lemma exec_consistent l c s : consistent r (topology s) (orderedScopes s) → command_ok c →
  consistent r (topology (exec r l c s).2) (orderedScopes (exec r l c s).2).
Proof.
  intros Hc HK. destruct c; cbn [exec]; try exact Hc.
  - unfold commitRefreshAttempt. by case_bool_decide.
  - unfold commit_section. by case_bool_decide.
  - unfold invalidate_section. by case_bool_decide.
  - unfold evict_section. pose proof (consistent_evict r _ _ tenantID Hc). by case_bool_decide.
Qed.
End lead_home.

(** C10: whatever listings, invalidations, evictions and resolutions interleave, the
    topology by tenant and the list of all scopes agree: each scope is listed once
    and under its own tenant, with the empty pool key or that of a registered
    module.  The lists handed to the dispatcher are of this kind, and a pool that is
    handed out for a scope is the one that the resolver of its pool key has for its
    tenant, never another tenant's. *)
Theorem scopes_lead_home g d b i given r s0 (owner : Z → nat * text) calls (ls : list (nat * surroundings)) :
  NewModulePoolResolverWithConfig g d b i given = Ok (r, s0) →
  (∀ i l n t p, (i, l) ∈ ls → pool_of l n t = Ok (Some p) → owner p = (n, t)) →
  let w := interleave_when (exec r) enabled (start s0 (call_program r <$> calls)) ls in
  consistent r (topology (w_state w)) (orderedScopes (w_state w)) ∧
  ∀ i c th x, calls !! i = Some c → w_threads w !! i = Some th → th_rest th = Done x → outcome_ok r owner c x.
Proof.
  intros [Hb Hc]%new_bound Hl w.
  assert (H : within (λ s, consistent r (topology s) (orderedScopes s)) (answer_ok r owner) (command_ok r) (outcome_ok r owner <$> calls) w).
  { apply within_interleave.
    - intros j l c s Hin. apply topology_answers. intros n t p. by eapply Hl.
    - intros j l c s _. apply exec_consistent.
    - apply within_start; [done|]. apply Forall2_fmap_2, Forall_Forall2_diag, Forall_true. intros c. by apply call_stays. }
  destruct H as [H1 H2]. split; [done|]. intros j c th x Hj Ht Hr. destruct (H2 j th Ht) as (Φ & HΦ & Hx).
  apply list_lookup_fmap_Some in HΦ as (c' & -> & Hj'). rewrite Hr in Hx. simpl in Hx. congruence.
Qed.

(** ** Evictions *)

Section numbers.
Context (r : ModulePoolResolver).
Implicit Types (tr : list (event answer)).

(** A call draws one number, and uses the number that it drew; only listings
    commit a topology. *)
Definition numbered (c : call) (tr : list (event answer)) (cm : cmd) : Prop :=
  match cm with
  | NextID => ∀ x, Ev NextID x ∉ tr
  | CommitSection id _ _ _ => c = CallList ∧ Ev NextID id ∈ tr
  | EvictSection id _ => Ev NextID id ∈ tr
  | _ => True
  end.

Abbreviation numbering c := (guarded (λ _, True) (numbered c)).

Lemma numbering_uses c tr cm x : numbering c tr → Ev cm x ∈ tr →
  match cm with
  | CommitSection id _ _ _ => c = CallList ∧ Ev NextID id ∈ tr
  | EvictSection id _ => Ev NextID id ∈ tr
  | _ => True
  end.
Proof.
  intros Hg (tr1 & tr2 & E)%list_elem_of_split. pose proof (guarded_at _ _ _ _ _ _ Hg E I) as H.
  destruct cm; try exact I; simpl in H; rewrite E, elem_of_app; tauto.
Qed.

(** The number that an event draws. *)
Definition draws (e : event answer) : option Z := match e with Ev NextID x => Some x | _ => None end.

Lemma numbering_once c tr x y : numbering c tr → Ev NextID x ∈ tr → Ev NextID y ∈ tr → x = y.
Proof.
  intros Hg (tr1 & tr2 & E)%list_elem_of_split Hy. pose proof (guarded_at _ _ _ _ _ _ Hg E I) as H.
  rewrite E in Hy. apply elem_of_app in Hy as [Hy|[Hy|Hy]%elem_of_cons]; [by destruct (H y)|by apply (f_equal draws) in Hy; injection Hy|].
  apply list_elem_of_split in Hy as (b1 & b2 & ->). rewrite app_comm_cons, app_assoc in E.
  pose proof (guarded_at _ _ _ _ _ _ Hg E I) as H'. destruct (H' x). set_solver.
Qed.

Abbreviation num c := (keeps (numbered c)).
Abbreviation undrawn := (λ tr : list (event answer), ∀ x, Ev NextID x ∉ tr).
Abbreviation drawn id := (λ tr : list (event answer), Ev NextID id ∈ tr).

Lemma not_drawn_snoc tr cm x : draws (Ev cm x) = None → undrawn tr → undrawn (tr ++ [Ev cm x]).
Proof. intros Hn H y [Hy|Hy%list_elem_of_singleton]%elem_of_app; [by eapply H|]. by rewrite <- Hy in Hn. Qed.

Local Ltac plain := intros; first [exact I|by apply not_drawn_snoc|apply elem_of_app; by left|done].

Lemma topology_loop_num c id ids next ordered : num c (drawn id) (topology_loop r ids next ordered) (λ _, drawn id).
Proof.
  revert next ordered. induction ids as [|t ids IH]; intros next ordered; cbn [topology_loop]; [by apply keeps_ret|].
  destruct (eqt _ _); [apply IH|]. apply (keeps_bind _ _ (λ _, drawn id)).
  { apply (keeps_ask _ _ (λ _, drawn id)); [plain..|]. intros x. by apply keeps_ret. }
  intros x. apply (keeps_bind _ _ (λ _, drawn id)).
  { destruct x; [by apply keeps_ret|]. apply (keeps_last (CachedTenant t)); plain. }
  intros [|sc scs]; apply IH.
Qed.

Lemma refresh_num : num CallList undrawn (refresh_locked r) (λ _ _, True).
Proof.
  apply (keeps_ask _ _ (λ _, undrawn)); [plain..|]. intros now. apply (keeps_ask _ _ (λ _, undrawn)); [plain..|].
  intros [scs|]; [by apply keeps_ret|]. apply (keeps_ask _ _ (λ id, drawn id)); [plain|intros id tr _; set_solver|]. intros id.
  apply (keeps_ask _ _ (λ _, drawn id)); [plain..|]. intros [ids|e].
  - eapply keeps_bind; [apply topology_loop_num|]. intros x.
    apply (keeps_ask _ _ (λ _ _, True)); [intros tr Htr; by split|done|]. intros scs. by apply keeps_ret.
  - apply (keeps_ask CachedWithState _ (λ _ _, True)); [plain..|]. intros [scs []]; [|by apply keeps_ret].
    apply (keeps_ask _ _ (λ _ _, True)); [plain..|]. intros _. by apply keeps_ret.
Qed.

(** What a finished eviction has done. *)
Definition removed (c : call) tr : Prop :=
  match c with CallEvict t => TrimSpace t ≠ [] → ∃ id, Ev (EvictSection id (TrimSpace t)) tt ∈ tr | _ => True end.

Lemma call_num c : num c undrawn (call_program r c) (λ _, removed c).
Proof.
  destruct c as [| |t|sc|t]; cbn [call_program].
  - eapply keeps_bind; [|intros x; by apply (keeps_ret (λ _, True))].
    apply (keeps_ask _ _ (λ _, undrawn)); [plain..|]. intros now. apply (keeps_ask _ _ (λ _, undrawn)); [plain..|].
    intros [scs|]; [by apply keeps_ret|]. apply (keeps_ask _ _ (λ _, undrawn)); [plain..|]. intros _.
    eapply keeps_bind; [apply refresh_num|]. intros x. apply (keeps_ask _ _ (λ _ _, True)); [plain..|]. intros _. by apply keeps_ret.
  - eapply keeps_bind; [|intros x; by apply (keeps_ret (λ _, True))].
    apply (keeps_ask _ _ (λ _ _, True)); [plain..|]. intros id. apply (keeps_last (InvalidateSection id)); plain.
  - eapply keeps_bind; [|intros x; by apply (keeps_ret (removed (CallEvict t)))]. unfold EvictTenant. destruct (is_empty _) eqn:E.
    { apply keeps_ret. intros tr _ Hne. by apply is_empty_true in E. }
    apply (keeps_ask _ _ (λ id, drawn id)); [plain|intros id tr _; set_solver|]. intros id.
    apply (keeps_last (EvictSection id (TrimSpace t))); [done|]. intros [] tr _ _. exists id. set_solver.
  - eapply keeps_bind; [|intros x; by apply (keeps_ret (λ _, True))]. unfold PoolForTenantDispatchScope. destruct (is_empty _); [by apply keeps_ret|].
    apply (keeps_ask (RouteSection _) _ (λ _ _, True)); [plain..|]. intros [n|]; [|by apply keeps_ret].
    apply (keeps_ask (PoolOf _ _) _ (λ _ _, True)); [plain..|]. intros x. by apply keeps_ret.
  - eapply keeps_bind; [|intros x; by apply (keeps_ret (λ _, True))].
    apply (keeps_ask (PoolOf _ _) _ (λ _ _, True)); [plain..|]. intros x. by apply keeps_ret.
Qed.
End numbers.

Abbreviation topo_world := (world answer topology_state outcome).

Section ledger.
Context (r : ModulePoolResolver) (calls : list call).
Implicit Types (w : topo_world).

Definition call_spec (c : call) : (list (event answer) → Prop) * (list (event answer) → outcome → Prop) :=
  (guarded (λ _, True) (numbered c), λ tr _, guarded (λ _, True) (numbered c) tr ∧ removed c tr).

(** The trace of some call has an event. *)
Definition happened w (e : event answer) : Prop := ∃ j th, w_threads w !! j = Some th ∧ e ∈ th_trace th.

(** Some scope of the tenant is cached. *)
Definition present (s : topology_state) (t : text) : Prop := is_Some (topology s !! t) ∨ ∃ sc, sc ∈ orderedScopes s ∧ sc.1 = t.

Lemma evict_absent id t s : ¬ present (evict_section id t s) t.
Proof.
  unfold evict_section, present. case_bool_decide; cbn; rewrite lookup_delete_eq; (intros [[? ?]|(sc & Hsc & <-)]; [done|]); by apply list_elem_of_filter in Hsc as [? _].
Qed.

(** After [n] steps: what has been drawn, and what evictions have left. *)
Record ledger (n : nat) w : Prop := {
  le_threads : Forall2 thread_ok (call_spec <$> calls) (w_threads w);
  le_range : Z.of_nat n < 2 ^ 64 → 0 ≤ refreshID (w_state w) ≤ Z.of_nat n;
  le_drawn : Z.of_nat n < 2 ^ 64 → ∀ x, happened w (Ev NextID x) → x ≤ refreshID (w_state w);
  le_evicted : ∀ id t, happened w (Ev (EvictSection id t) tt) → id ≤ committedRefreshID (w_state w) ∧
    (present (w_state w) t →
     ∃ id' next ordered now x, happened w (Ev (CommitSection id' next ordered now) x) ∧ id < id') }.

Lemma happened_step w i th c k x st e : w_threads w !! i = Some th →
  let w' : topo_world := {| w_state := st; w_threads := <[i := {| th_trace := th_trace th ++ [Ev c x]; th_rest := k |}]> (w_threads w) |} in
  happened w' e ↔ happened w e ∨ e = Ev c x.
Proof.
  intros Hi w'. split.
  - intros (j & th' & Hj & He). apply list_lookup_insert_Some in Hj as [(<- & <- & _)|(_ & Hj)]; [|left; by exists j, th'].
    apply elem_of_app in He as [He|He%list_elem_of_singleton]; [left; by exists i, th|by right].
  - assert (Hnew : w_threads w' !! i = Some {| th_trace := th_trace th ++ [Ev c x]; th_rest := k |})
      by (apply list_lookup_insert_eq; by eapply lookup_lt_Some).
    intros [(j & th' & Hj & He)| ->]; [|exists i; eexists; split; [exact Hnew|]; simpl; set_solver].
    destruct (decide (i = j)) as [<-|Hne]; [|exists j, th'; split; [|done]; by rewrite <- Hj; apply list_lookup_insert_ne].
    exists i. eexists. split; [exact Hnew|]. simpl. simplify_eq. set_solver.
Qed.

Lemma ledger_start s : refreshID s = 0 → ledger 0 (start s (call_program r <$> calls)).
Proof.
  intros Hs. assert (Hno : ∀ e, ¬ happened (start s (call_program r <$> calls)) e).
  { intros e (j & th & Hj & He). apply list_lookup_fmap_Some in Hj as (p & -> & _). by apply elem_of_nil in He. }
  split.
  - apply start_threads, Forall2_fmap_2, Forall_Forall2_diag, Forall_true. intros c. eapply keeps_wp; [apply call_num|]. intros x. apply not_elem_of_nil.
  - simpl. lia.
  - intros _ x Hx. by apply Hno in Hx.
  - intros id t Hx. by apply Hno in Hx.
Qed.

Lemma exec_refreshID l c s : refreshID (exec r l c s).2 = match c with NextID => (refreshID s + 1) `mod` 2 ^ 64 | _ => refreshID s end.
Proof.
  destruct c; try done; cbn [exec]; unfold commitRefreshAttempt, commit_section, invalidate_section, evict_section; by case_bool_decide.
Qed.

(** What a command does to what evictions have left. *)
Lemma exec_topology l c s t id : id ≤ committedRefreshID s →
  id ≤ committedRefreshID (exec r l c s).2 ∧
  (present (exec r l c s).2 t → present s t ∨
   ∃ id' next ordered now, c = CommitSection id' next ordered now ∧ id < id').
Proof.
  intros Hid. destruct c; cbn [exec]; try (split; [done|by left]).
  - unfold commitRefreshAttempt. case_bool_decide; cbn; split; [lia|by left|lia|by left].
  - unfold commit_section. case_bool_decide; cbn; (split; [lia|]); [by left|]. intros _. right. eexists _, _, _, _. split; [done|lia].
  - unfold invalidate_section. case_bool_decide; cbn in *; split; [lia|by left|lia|by left].
  - unfold evict_section, present. case_bool_decide; cbn in *; (split; [lia|]);
      (intros [[y Hy]|(sc & Hsc & <-)]; left; [apply lookup_delete_Some in Hy as [_ Hy]; by left; eexists|]);
      apply list_elem_of_filter in Hsc as [_ Hsc]; right; by exists sc.
Qed.

Lemma ledger_step n w il : ledger n w → ledger (S n) (step_when (exec r) enabled w il).
Proof.
  intros [Ht Hr Hd He]. destruct il as [i l]. destruct (step_when_cases (exec r) enabled w i l) as [->|(th & c & k & Hi & Hk & _ & ->)].
  { split; [done| | |done]; intros; [specialize (Hr ltac:(lia)); lia|]. apply Hd; [lia|done]. }
  assert (Hmod : Z.of_nat (S n) < 2 ^ 64 → c = NextID → (refreshID (w_state w) + 1) `mod` 2 ^ 64 = refreshID (w_state w) + 1).
  { intros Hn _. specialize (Hr ltac:(lia)). apply Z.mod_small. lia. }
  split; cbn [w_state w_threads].
  - by apply threads_advance.
  - intros Hn. rewrite exec_refreshID. specialize (Hr ltac:(lia)). destruct c; try lia. rewrite Hmod by done. lia.
  - intros Hn x Hx. rewrite exec_refreshID. apply happened_step in Hx as [Hx|Hx]; [|  |done].
    + apply Hd in Hx; [|lia]. destruct c; try lia. rewrite Hmod by done. lia.
    + destruct c; try (by apply (f_equal draws) in Hx). apply (f_equal draws) in Hx. cbn [draws exec fst] in Hx. injection Hx as ->. lia.
  - intros id t Hx. apply happened_step in Hx as [Hx|Hx]; [| |done].
    + destruct (He id t Hx) as [H1 H2]. destruct (exec_topology l c (w_state w) t id H1) as [H3 H4]. split; [done|].
      intros [Hs|(id' & next & ordered & now & -> & Hlt)]%H4.
      * destruct (H2 Hs) as (id' & next & ordered & now & x & Hh & Hlt). exists id', next, ordered, now, x. split; [|done].
        apply happened_step; [done|]. by left.
      * exists id', next, ordered, now. eexists. split; [|exact Hlt]. apply happened_step; [done|]. by right.
    + destruct c; try discriminate (f_equal ev_cmd Hx). apply (f_equal ev_cmd) in Hx. simpl in Hx. injection Hx as <- <-.
      cbn [exec fst snd]. split; [unfold evict_section; case_bool_decide; cbn in *; lia|]. by intros Hs%evict_absent.
Qed.
End ledger.

(** *** Two stretches of a run *)

Section later.
Context (r : ModulePoolResolver) (calls : list call) (w1 : topo_world) (n1 : nat) (H1 : ledger calls n1 w1).

(** What [w] has on top of [w1]: traces grow, and new numbers are larger. *)
Record later (n : nat) (w : topo_world) : Prop := {
  la_ledger : ledger calls n w;
  la_refresh : Z.of_nat n < 2 ^ 64 → refreshID (w_state w1) ≤ refreshID (w_state w);
  la_traces : ∀ j th, w_threads w !! j = Some th → ∃ th1, w_threads w1 !! j = Some th1 ∧ th_trace th1 `prefix_of` th_trace th;
  la_drawn : Z.of_nat n < 2 ^ 64 → ∀ j th x, w_threads w !! j = Some th → Ev NextID x ∈ th_trace th →
    (∃ th1, w_threads w1 !! j = Some th1 ∧ Ev NextID x ∈ th_trace th1) ∨ refreshID (w_state w1) < x }.

Lemma later_step n w il : later n w → later (S n) (step_when (exec r) enabled w il).
Proof.
  intros [Hl Hr Ht Hd]. pose proof (ledger_step r calls n w il Hl) as Hl'. destruct il as [i l].
  destruct (step_when_cases (exec r) enabled w i l) as [E|(th & c & k & Hi & Hk & _ & E)].
  { rewrite E in *. split; [done| |done|]; intros; [apply Hr; lia|]. eapply Hd; [lia|done..]. }
  split; [done| | |].
  - intros Hn. pose proof (le_drawn _ _ _ Hl' Hn). pose proof (le_range _ _ _ Hl ltac:(lia)). specialize (Hr ltac:(lia)).
    rewrite E. cbn [w_state]. rewrite exec_refreshID. destruct c; try lia. rewrite Z.mod_small by lia. lia.
  - rewrite E. cbn [w_threads]. intros j th' Hj. apply list_lookup_insert_Some in Hj as [(<- & <- & _)|(_ & Hj)]; [|by apply Ht].
    destruct (Ht i th Hi) as (th1 & Hi1 & Hp). exists th1. split; [done|]. simpl. by apply prefix_app_r.
  - intros Hn j th' x Hj Hx. specialize (Hd ltac:(lia)). specialize (Hr ltac:(lia)). pose proof (le_range _ _ _ Hl ltac:(lia)).
    rewrite E in Hj. cbn [w_threads] in Hj. apply list_lookup_insert_Some in Hj as [(<- & <- & _)|(_ & Hj)]; [|by eapply Hd].
    simpl in Hx. apply elem_of_app in Hx as [Hx|Hx%list_elem_of_singleton]; [by eapply Hd|]. right. apply (f_equal draws) in Hx.
    destruct c; try discriminate Hx. cbn [draws exec fst] in Hx. injection Hx as ->. rewrite Z.mod_small by lia. lia.
Qed.

Lemma later_refl : later n1 w1.
Proof using H1.
  split; [done|done| |].
  - intros j th Hj. by exists th.
  - intros _ j th x Hj Hx. left. by exists th.
Qed.
End later.

(** The call has drawn its number. *)
Definition started (th : thread answer outcome) : Prop := ∃ x, Ev NextID x ∈ th_trace th.

(** C11: an eviction is final for every refresh that had started before it: when the
    eviction of a tenant begins in the middle of a run, however the calls interleave
    and whatever configurations are loaded, the tenant has no scope once the eviction
    has returned, unless a listing drew its number after the eviction had begun. *)
Theorem evicted_tenant_stays_out g d b iv given r s0 calls ls1 ls2 i t th :
  NewModulePoolResolverWithConfig g d b iv given = Ok (r, s0) →
  Z.of_nat (length ls1 + length ls2) < 2 ^ 64 →
  calls !! i = Some (CallEvict t) → TrimSpace t ≠ [] →
  let w1 := interleave_when (exec r) enabled (start s0 (call_program r <$> calls)) ls1 in
  let w2 := interleave_when (exec r) enabled w1 ls2 in
  (th_trace <$> w_threads w1 !! i) = Some [] → w_threads w2 !! i = Some th → finished th = true →
  (∀ j th1 th2, calls !! j = Some CallList → w_threads w1 !! j = Some th1 → w_threads w2 !! j = Some th2 → started th2 → started th1) →
  topology (w_state w2) !! TrimSpace t = None ∧ ∀ sc, sc ∈ orderedScopes (w_state w2) → sc.1 ≠ TrimSpace t.
Proof.
  intros Hnew Hn Hc Ht w1 w2 Hi1 Hi2 Hf Hquiet.
  assert (Hs0 : refreshID s0 = 0).
  { unfold NewModulePoolResolverWithConfig in Hnew. destruct g; [|done]. destruct (is_empty _); [done|]. destruct b; [|done].
    simpl in Hnew. destruct (bind_modules _ _ _) as [[??]|]; [|done]. by injection Hnew as <- <-. }
  assert (H1 : ledger calls (length ls1) w1).
  { apply (interleave_when_count (exec r) enabled (ledger calls) ls1 0); [by apply ledger_start|]. intros. by apply ledger_step. }
  assert (H2 : later calls w1 (length ls1 + length ls2)%nat w2).
  { apply (interleave_when_count (exec r) enabled (later calls w1)); [by apply later_refl|]. intros. by apply later_step. }
  apply fmap_Some in Hi1 as (th1 & Hi1 & Htr1). destruct H2 as [Hl2 _ Htr2 Hd2]. specialize (Hd2 Hn).
  enough (¬ present (w_state w2) (TrimSpace t)) as Hno.
  { split; [|intros sc Hsc Esc; apply Hno; right; by exists sc]. destruct (topology (w_state w2) !! TrimSpace t) eqn:E; [|done].
    destruct Hno. left. by rewrite E. }
  intros Hpr.
  assert (Hspec : ∀ j th', w_threads w2 !! j = Some th' → ∃ c, calls !! j = Some c ∧ thread_ok (call_spec c) th').
  { intros j th' Hj. destruct (Forall2_lookup_r _ _ _ _ _ (le_threads _ _ _ Hl2) Hj) as (J & HJ & Hth).
    apply list_lookup_fmap_Some in HJ as (c & -> & Hcj). by exists c. }
  destruct (Hspec i th Hi2) as (c & Hc' & Hth). rewrite Hc in Hc'. injection Hc' as <-.
  unfold finished in Hf. unfold thread_ok in Hth. destruct (th_rest th) as [o|]; [|done]. destruct Hth as (Hg & _ & He). destruct (He Ht) as [e Hev].
  pose proof (numbering_uses _ _ _ _ Hg Hev) as Hdraw. cbn beta iota in Hdraw.
  destruct (Hd2 i th e Hi2 Hdraw) as [(th0 & Hi0 & Hx)|Hlt]; [rewrite Hi1 in Hi0; injection Hi0 as <-; rewrite <- Htr1 in Hx; by apply elem_of_nil in Hx|].
  destruct (le_evicted _ _ _ Hl2 e (TrimSpace t)) as [_ Hc2]; [by exists i, th|].
  destruct Hc2 as (id & next & ordered & now & x & (k & thk & Hk & Hcm) & Hid); [exact Hpr|].
  destruct (Hspec k thk Hk) as (c & Hck & Hthk). apply wp_here in Hthk. destruct (numbering_uses _ _ _ _ Hthk Hcm) as [-> Hdk].
  destruct (Htr2 k thk Hk) as (thk1 & Hk1 & [tl Hp]). destruct (Hquiet k thk1 thk Hck Hk1 Hk) as [y Hy]; [by exists id|].
  assert (y = id) as -> by (eapply (numbering_once _ _ _ _ Hthk); [rewrite Hp; apply elem_of_app; by left|done]).
  assert (id ≤ refreshID (w_state w1)) by (apply (le_drawn _ _ _ H1); [lia|by exists k, thk1]). lia.
Qed.

(** ** A refresh on its own *)

Section refresh.
Context (r : ModulePoolResolver) (roster : result Z (list text)) (config : text → result Z (option TenantConfig)).

(** The scopes that a refresh gives a tenant: those of its configuration, or the
    last ones known when the configuration cannot be had. *)
Definition tenant_view (s : topology_state) (t : text) : list TenantDispatchScope :=
  if eqt t (defaultTenantID r) then [(t, [])]
  else match config t with
  | Ok c => match scopes_of r t c with Ok scs => scs | Err _ => cachedTenantScopes t s end
  | Err _ => cachedTenantScopes t s
  end.

(** The topology with the scopes of some more tenants. *)
Definition add_views (s : topology_state) (ids : list text) (next : gmap text (list TenantDispatchScope)) : gmap text (list TenantDispatchScope) :=
  foldl (λ next t, match tenant_view s t with [] => next | scs => <[t := scs]> next end) next ids.

Lemma add_views_lookup s ids next t : add_views s ids next !! t =
  if bool_decide (t ∈ ids ∧ tenant_view s t ≠ []) then Some (tenant_view s t) else next !! t.
Proof.
  revert next. induction ids as [|u ids IH]; intros next; cbn [add_views foldl].
  { rewrite bool_decide_eq_false_2; [done|]. intros [H _]. by apply elem_of_nil in H. }
  fold (add_views s ids). unfold add_views at 1 in IH. rewrite IH. destruct (tenant_view s u) as [|sc scs] eqn:E.
  - case_bool_decide as H1; case_bool_decide as H2; try done; [destruct H2; set_solver|].
    destruct H2 as [[->|Ht]%elem_of_cons Hv]; [done|]. by destruct H1.
  - case_bool_decide as H1; case_bool_decide as H2; try done; [destruct H2; set_solver| |].
    + destruct H2 as [[->|Ht]%elem_of_cons Hv]; [by rewrite lookup_insert_eq, E|]. by destruct H1.
    + apply lookup_insert_ne. intros ->. apply H2. split; [by left|by rewrite E].
Qed.

(** The next command. *)
Local Tactic Notation "does" uconstr(c) := apply returns_bind; apply (returns_perform (exec r) _ c).

(** While the refresh runs, only the clock goes on. *)
Definition unchanged (s : topology_state) (l : surroundings) : Prop :=
  listed l = roster ∧ loads l = config ∧ cachedFreshScopes r (at_time l) s = None.

Lemma topology_loop_returns s s' ids next ordered (Φ : _ → _ → _ → Prop) : topology s' = topology s →
  (∀ tr, Φ (add_views s ids next, ordered ++ (ids ≫= tenant_view s)) s' tr) →
  returns (exec r) (unchanged s) (topology_loop r ids next ordered) s' Φ.
Proof.
  intros Hs. revert next ordered Φ. induction ids as [|t ids IH]; intros next ordered Φ HΦ; cbn [topology_loop].
  { apply returns_ret. specialize (HΦ []). by rewrite app_nil_r in HΦ. }
  assert (Hcont : ∀ scs Φ, tenant_view s t = scs → (∀ tr, Φ (add_views s (t :: ids) next, ordered ++ (t :: ids) ≫= tenant_view s) s' tr) →
    returns (exec r) (unchanged s) (match scs with [] => topology_loop r ids next ordered | _ => topology_loop r ids (<[t := scs]> next) (ordered ++ scs) end) s' Φ).
  { intros scs Ψ Hv HΨ. destruct scs as [|sc scs]; apply IH; intros tr; specialize (HΨ tr); csimpl in HΨ;
      unfold add_views in HΨ; cbn [foldl] in HΨ; rewrite Hv in HΨ; [done|]. by rewrite <- app_assoc. }
  destruct (eqt t (defaultTenantID r)) eqn:Ed.
  { apply (Hcont [(t, [])]); [|done]. unfold tenant_view. by rewrite Ed. }
  apply returns_bind. unfold scopesForTenant. does (LoadConfig t). intros l (_ & Hl & _). cbn [exec fst snd]. rewrite Hl.
  apply returns_ret. apply returns_bind.
  destruct (match config t with Ok c => scopes_of r t c | Err e => Err (LoadingConfig e) end) as [scs|e] eqn:Ex.
  - apply returns_ret. apply Hcont; [|intros tr; apply HΦ]. unfold tenant_view. rewrite Ed. destruct (config t); [by rewrite Ex|done].
  - apply (returns_perform (exec r) _ (CachedTenant t)). intros l' _. cbn [exec fst snd].
    assert (Hv : tenant_view s t = cachedTenantScopes t s).
    { unfold tenant_view. rewrite Ed. destruct (config t); [by rewrite Ex|done]. }
    assert (Hc : cachedTenantScopes t s' = cachedTenantScopes t s) by (unfold cachedTenantScopes; by rewrite Hs). rewrite Hc.
    apply Hcont; [done|]. intros tr. apply HΦ.
Qed.

(** a refresh isolates failures.  When the roster can be read, each tenant on
    it gets the scopes of its configuration, or keeps those last known when its own
    configuration cannot be loaded or has no database, whatever becomes of the
    others; the default tenant always gets the generic pool; a tenant that is not on
    the roster loses all its scopes.  When the roster cannot be read, the cached
    list is served, if there ever was one, and nothing changes. *)
Theorem refresh_isolates_failures s : 0 ≤ committedRefreshID s ≤ refreshID s → refreshID s + 1 < 2 ^ 64 →
  returns (exec r) (unchanged s) (ListTenantDispatchScopes r false) s (λ x s' _,
    match roster with
    | Ok ids =>
        let all := uniqueTenantIDs ids in
        x = Ok (all ≫= tenant_view s) ∧ orderedScopes s' = all ≫= tenant_view s ∧ topologyValid s' = true ∧
        ∀ t, topology s' !! t = if bool_decide (t ∈ all ∧ tenant_view s t ≠ []) then Some (tenant_view s t) else None
    | Err e =>
        x = (if (topologyValid s || negb (time_is_zero (topologyRefreshed s)))%bool then Ok (orderedScopes s) else Err (ListingTenants e)) ∧
        topology s' = topology s ∧ orderedScopes s' = orderedScopes s
    end).
Proof.
  intros Hc Hr. unfold ListTenantDispatchScopes.
  does CurrentTime. intros l1 Hl1. cbn [exec fst snd]. does (CachedFresh _). intros l2 _.
  cbn [exec fst snd]. destruct Hl1 as (_ & _ & ->). does LockRefresh. intros l3 _. cbn [exec fst snd].
  apply returns_bind. unfold refresh_locked. does CurrentTime. intros l4 Hl4. cbn [exec fst snd].
  does (CachedFresh _). intros l5 _. cbn [exec fst snd]. destruct Hl4 as (_ & _ & Hf).
  change (cachedFreshScopes r (at_time l4) (s <| refreshMu := true |>) = None) in Hf. rewrite Hf. does NextID. intros l6 _.
  cbn [exec fst snd]. change (refreshID (s <| refreshMu := true |>)) with (refreshID s). rewrite Z.mod_small by lia.
  does GenericTenants. intros l7 [Hl7 _]. cbn [exec fst snd]. rewrite Hl7. clear Hl7. destruct roster as [ids|e].
  - apply returns_bind. apply topology_loop_returns; [done|]. intros tr. does (CommitSection _ _ _ _). intros l8 _.
    cbn [exec fst snd]. unfold commit_section. cbn. rewrite bool_decide_eq_false_2 by lia. apply returns_ret. does UnlockRefresh. intros l9 _.
    apply returns_ret. cbn. split_and!; [done..|]. intros t. rewrite add_views_lookup. by rewrite lookup_empty.
  - does CachedWithState. intros l8 _. cbn. destruct (_ || _)%bool.
    + does (CommitAttempt _ _). intros l9 _. apply returns_ret. does UnlockRefresh. intros l10 _. apply returns_ret.
      cbn. unfold commitRefreshAttempt. by case_bool_decide.
    + apply returns_ret. does UnlockRefresh. intros l9 _. by apply returns_ret.
Qed.
End refresh.
