(* ===== verification/OutboxTopologyExample.v ===== *)
(** Concrete runs of the module-aware pool resolver, and an eviction that is undone. *)

From stdpp Require Import base numbers list gmap strings.
From S2P Require Import Prelude GoText GoUrl Effects Ssrf TenantCore OutboxDispatcher OutboxTopology OutboxTopologySafety.

Local Open Scope Z_scope.
Local Open Scope go_scope.

(** A service with the modules [ledger] and [audit]. *)
Definition given : list ModulePool :=
  [{| Name := txt " ledger"; Resolver := Some 1%nat |}; {| Name := txt "audit"; Resolver := Some 2%nat |}].
Definition built : result topology_error (ModulePoolResolver * topology_state) :=
  NewModulePoolResolver (Some 0%nat) (txt "platform ") true given.
Definition r0 : ModulePoolResolver := match built with Ok (r, _) => r
  | Err _ => {| generic := 0; defaultTenantID := []; modules := []; moduleByName := ∅; refreshInterval := 0 |} end.
Definition s0 : topology_state := match built with Ok (_, s) => s
  | Err _ => {| refreshMu := false; topology := ∅; orderedScopes := []; topologyRefreshed := 0; topologyValid := false; refreshID := 0; committedRefreshID := 0 |} end.

Lemma built_ok : NewModulePoolResolverWithConfig (Some 0%nat) (txt "platform ") true DefaultModulePoolResolverConfig given = Ok (r0, s0).
Proof. vm_compute. reflexivity. Qed.

Definition pg (host : string) (port : Z) (db : string) : PostgreSQLConfig :=
  {| Host := txt host; Port := port; Database := txt db; Username := []; Password := []; Schema := []; SSLMode := []; SSLRootCert := []; SSLCert := []; SSLKey := [] |}.
Definition entry (c : PostgreSQLConfig) : DatabaseConfig :=
  {| PostgreSQL := Some c; PostgreSQLReplica := None; MongoDB := None; db_ConnectionSettings := None |}.

(** The ledger has a database of its own; audit shares the first one, written in
    another way. *)
Definition acme : TenantConfig :=
  {| tc_ID := txt "acme"; TenantSlug := []; TenantName := []; Service := []; Status := []; IsolationMode := [];
     Databases := Some {[txt "api" := entry (pg "db.acme" 0 "main"); txt "ledger" := entry (pg "db.acme" 5432 "ledger");
                         txt "audit" := entry (pg " DB.Acme. " 5432 "main")]};
     Messaging := None; RabbitMQ := None; Streaming := None; tc_ConnectionSettings := None; TenantCore.CreatedAt := 0; TenantCore.UpdatedAt := 0 |}.

Example acme_scopes : scopes_of r0 (txt "acme") (Some acme) = Ok [(txt "acme", []); (txt "acme", txt "ledger")].
Proof. vm_compute. reflexivity. Qed.

Lemma acme_addressable m c : m ∈ [] :: modules r0 → GetPostgreSQLConfig (Some acme) m = Some c → addressable c.
Proof.
  assert (Hm : [] :: modules r0 = [[]; txt "ledger"; txt "audit"]) by (vm_compute; reflexivity). rewrite Hm.
  assert (Hok : ∀ c, bool_decide (0 ∉ Host c ∧ 0 ∉ Database c ∧ 0 ∉ Schema c ∧ MinInt64 ≤ Port c ≤ MaxInt64) = true → addressable c).
  { intros c0 H%bool_decide_eq_true. exact H. }
  intros Hin. rewrite !elem_of_cons, elem_of_nil in Hin.
  destruct Hin as [->|[->|[->|[]]]]; intros E; vm_compute in E; injection E as <-; apply Hok; vm_compute; reflexivity.
Qed.

Lemma one_scope_per_database_witness :
  NoDup [database_of acme []; database_of acme (txt "ledger")] ∧
  ∃ m, (txt "acme", m) ∈ [(txt "acme", []); (txt "acme", txt "ledger")] ∧ database_of acme m = database_of acme (txt "audit").
Proof.
  destruct (one_scope_per_database r0 (txt "acme") acme _ acme_addressable acme_scopes) as (H1 & _ & H3). split; [exact H1|].
  apply (H3 (txt "audit")); [vm_compute; repeat constructor|reflexivity].
Defined.

(** ** Runs *)

(** The roster lists acme; [up] tells whether its configuration can be loaded. *)
Definition sees (now : Z) (up : bool) : surroundings :=
  {| at_time := now; listed := Ok [txt "acme"; txt " acme"; []; txt "platform"]; loads := λ _, if up then Ok (Some acme) else Err 1;
     pool_of := λ n t, if eqt t (txt "acme") then Ok (Some (Z.of_nat n)) else Err 9 |}.
Definition owned (p : Z) : nat * text := (Z.to_nat p, txt "acme").

(** A listing, a resolution of what it found, and a resolution of an unknown scope. *)
Abbreviation lookups := [CallList; CallScope (txt "acme", txt "ledger "); CallScope (txt "acme", txt "audit")].
Abbreviation lookup_steps := ((λ i : nat, (i, sees 100 true)) <$> replicate 10 0%nat ++ [1; 1; 2]%nat).
Abbreviation lookup_world := (interleave_when (exec r0) enabled (start s0 (call_program r0 <$> lookups)) lookup_steps).

Definition result_of (t : thread answer outcome) : option outcome := match th_rest t with Done x => Some x | _ => None end.

Example lookups_end : result_of <$> w_threads lookup_world =
  [Some (Listed (Ok [(txt "acme", []); (txt "acme", txt "ledger"); (txt "platform", [])])); Some (Pooled (Ok (Some 1)));
   Some (Pooled (Err ErrTenantPoolUnavailable))].
Proof. vm_compute. reflexivity. Qed.

Lemma pools_owned (plan : list (nat * (Z * bool))) i l n t p :
  (i, l) ∈ ((λ x : nat * (Z * bool), (x.1, sees x.2.1 x.2.2)) <$> plan) → pool_of l n t = Ok (Some p) → owned p = (n, t).
Proof.
  intros ([? [? ?]] & [= -> ->] & _)%list_elem_of_fmap. cbn. destruct (eqt t _) eqn:E; [|done]. intros [= <-].
  apply eqt_true in E as ->. unfold owned. by rewrite Nat2Z.id.
Qed.

Lemma scopes_lead_home_witness :
  consistent r0 (topology (w_state lookup_world)) (orderedScopes (w_state lookup_world)) ∧
  outcome_ok r0 owned (CallScope (txt "acme", txt "ledger ")) (Pooled (Ok (Some 1))).
Proof.
  destruct (scopes_lead_home _ _ _ _ _ r0 s0 owned lookups lookup_steps built_ok) as [H1 H2].
  { intros i l n t p Hin. apply (pools_owned ((λ i : nat, (i, (100, true))) <$> replicate 10 0%nat ++ [1; 1; 2]%nat) i). exact Hin. }
  split; [exact H1|].
  assert (Hr : (w_threads lookup_world !! 1%nat) ≫= result_of = Some (Pooled (Ok (Some 1)))) by (vm_compute; reflexivity).
  apply bind_Some in Hr as (th & Ht & Hr). unfold result_of in Hr. destruct (th_rest th) as [x|] eqn:E; [|discriminate Hr].
  injection Hr as ->. exact (H2 1%nat _ th _ eq_refl Ht E).
Defined.

(** *** Evictions *)

Abbreviation eviction_calls := [CallList; CallEvict (txt " acme"); CallList; CallScope (txt "acme", txt "ledger")].
Abbreviation steps n i now up := (replicate n%nat (i%nat, sees now up)).

(** A listing has finished, and its successor, a day later, has drawn its number and
    loaded what it needs, when the eviction begins. *)
Abbreviation before_eviction := (steps 10 0 100 true ++ steps 8 2 (24 * Hour) true).
Abbreviation after_eviction := (steps 2 1 0 true ++ steps 2 2 (24 * Hour) true).
Abbreviation evicting := (interleave_when (exec r0) enabled (start s0 (call_program r0 <$> eviction_calls)) before_eviction).
Abbreviation evicted := (interleave_when (exec r0) enabled evicting after_eviction).

Example eviction_ends : result_of <$> w_threads evicted =
  [Some (Listed (Ok [(txt "acme", []); (txt "acme", txt "ledger"); (txt "platform", [])])); Some Finished;
   Some (Listed (Ok [(txt "platform", [])])); None].
Proof. vm_compute. reflexivity. Qed.

Definition has_started (th : thread answer outcome) : bool := existsb (λ e, bool_decide (is_Some (draws e))) (th_trace th).

Example refresh_was_started : has_started <$> w_threads evicting = [true; false; true; false].
Proof. vm_compute. reflexivity. Qed.

Lemma evicted_tenant_stays_out_witness :
  topology (w_state evicted) !! txt "acme" = None ∧ ∀ sc, sc ∈ orderedScopes (w_state evicted) → sc.1 ≠ txt "acme".
Proof.
  assert (Hth : (finished <$> w_threads evicted !! 1%nat) = Some true) by (vm_compute; reflexivity).
  apply fmap_Some in Hth as (th & Hth & Hf).
  refine (evicted_tenant_stays_out _ _ _ _ _ r0 s0 eviction_calls before_eviction after_eviction 1%nat (txt " acme") th built_ok _ eq_refl _ _ Hth _ _).
  - vm_compute. reflexivity.
  - vm_compute. discriminate.
  - vm_compute. reflexivity.
  - symmetry. exact Hf.
  - intros j th1 th2 Hj H1 _ _.
    assert (Hs : ∀ j, (j = 0 ∨ j = 2)%nat → (has_started <$> w_threads evicting !! j) = Some true) by (intros ? [->| ->]; vm_compute; reflexivity).
    assert (Hj' : (j = 0 ∨ j = 2)%nat) by (destruct j as [|[|[|[|[]]]]]; try discriminate Hj; auto).
    specialize (Hs j Hj'). rewrite H1 in Hs. cbn [fmap option_fmap option_map] in Hs. injection Hs as Hs.
    unfold has_started in Hs. apply existsb_exists in Hs as (e & He & Hd%bool_decide_eq_true). destruct Hd as [x Hx].
    destruct e as [c a]. destruct c; try discriminate Hx. exists a. by apply list_elem_of_In.
Defined.

(** The eviction draws its number, a refresh that cannot load the tenant's
    configuration draws the next one and reads the scopes last known, the eviction
    removes them and returns, and the refresh commits. *)
Abbreviation overlap := (steps 10 0 100 true ++ steps 1 1 0 true ++ steps 9 2 (24 * Hour) false ++ steps 1 1 0 true).
Abbreviation overlapped := (interleave_when (exec r0) enabled (start s0 (call_program r0 <$> eviction_calls)) overlap).
Abbreviation restored := (interleave_when (exec r0) enabled overlapped (steps 2 2 (24 * Hour) false ++ steps 2 3 0 true)).

(** C38: an eviction can be undone.  [EvictTenant] draws its number before it takes
    the lock.  A refresh that draws the next number and reads the tenant's cached
    scopes before they are removed commits afterwards: the eviction has returned and
    the scopes were gone, the tenant's configuration could not be loaded, and still
    the tenant is back with its old scopes and new resolutions of them succeed. *)
Theorem overlapping_refresh_restores_tenant :
  (result_of <$> w_threads overlapped !! 1%nat) = Some (Some Finished) ∧
  topology (w_state overlapped) !! txt "acme" = None ∧
  topology (w_state restored) !! txt "acme" = Some [(txt "acme", []); (txt "acme", txt "ledger")] ∧
  topologyValid (w_state restored) = true ∧
  (result_of <$> w_threads restored !! 3%nat) = Some (Some (Pooled (Ok (Some 1)))).
Proof. split_and!; vm_compute; reflexivity. Qed.

(** The roster can be read, but no configuration: acme keeps what it had. *)
Abbreviation known := (w_state lookup_world).

Lemma refresh_isolates_failures_witness :
  ∀ env, (∀ n, unchanged r0 (Ok [txt "acme"; txt "new"; txt "platform"]) (λ _, Err 1) known (env n)) →
    (run (exec r0) (ListTenantDispatchScopes r0 false) env known).1.1 = Ok [(txt "acme", []); (txt "acme", txt "ledger"); (txt "platform", [])].
Proof.
  intros env HE.
  assert (Hc : 0 ≤ committedRefreshID known ≤ refreshID known) by (vm_compute; split; discriminate).
  assert (Hr : refreshID known + 1 < 2 ^ 64) by (vm_compute; reflexivity).
  pose proof (refresh_isolates_failures r0 (Ok [txt "acme"; txt "new"; txt "platform"]) (λ _, Err 1) known Hc Hr env HE) as H.
  destruct (run _ _ env known) as [[x s'] tr]. cbn [fst]. destruct H as [-> _]. vm_compute. reflexivity.
Defined.
