(* ===== verification/OutboxResolvers.v ===== *)
(** How the PostgreSQL outbox backend finds a tenant's data: quoted identifiers
    ([outbox/postgres/identifiers.go]), a schema per tenant ([schema_resolver.go]),
    a column per tenant ([column_resolver.go]), a pool per tenant
    ([pool_resolver.go], [manager_pool_resolver.go], [db.go]), the check that the
    table is there ([table_presence.go]), and the choice between them
    ([repository.go], [multi_tenant.go]).

    A database handle is a number.  What a client, a manager, a database or a
    resolver answers is an argument.  Logs are left out. *)

From stdpp Require Import base numbers list gmap strings sorting.
From S2P Require Import Prelude GoText GoJSON GoUrl GoRegexp OutboxEvent OutboxPostgres OutboxDispatcher.

Local Open Scope Z_scope.
Local Open Scope go_scope.

Inductive resolver_error :=
| ErrConnectionRequired | ErrTransactionRequired | ErrNoPrimaryDB | ErrInvalidIdentifier
| ErrTenantResolverRequired | ErrTenantDiscovererRequired | ErrMultiTenantMisconfigured
| ErrDefaultTenantIDInvalid | InvalidTenantIDFormat | TenantRequired
| ErrManagerRequired | ErrClientRequired | ErrServiceRequired | ErrDefaultTenantIDRequired | ErrInvalidDefaultTenantID (id : text)
| ErrTenantPoolUnavailable | Driver (e : Z) | Scan (e : pg_error).

(** ** Identifiers *)

Module Identifiers.
Definition maxSQLIdentifierLength : Z := 63.
Definition QUOTE : Z := 34.

(** [^[a-zA-Z_][a-zA-Z0-9_]*$] *)
Definition identifierPattern (s : text) : bool :=
  match s with
  | [] => false
  | c :: rest => ((letter c || bool_decide (c = 95)) && forallb word rest)%bool
  end.

Definition validateIdentifier (identifier : text) : option resolver_error :=
  if bool_decide (maxSQLIdentifierLength < Z.of_nat (length (utf8_encode identifier))) then Some ErrInvalidIdentifier
  else if negb (identifierPattern identifier) then Some ErrInvalidIdentifier
  else None.

Fixpoint validate_parts (parts : list text) : option resolver_error :=
  match parts with
  | [] => None
  | part :: parts => match validateIdentifier (TrimSpace part) with Some e => Some e | None => validate_parts parts end
  end.
Definition validateIdentifierPath (path : text) : option resolver_error := validate_parts (split_on 46 path).

(** [strings.ReplaceAll] of one rune. *)
Definition replace_rune (c : Z) (by_ s : text) : text := s ≫= λ d, if bool_decide (d = c) then by_ else [d].

Definition quoteIdentifier (identifier : text) : text :=
  let identifier := replace_rune 0 [] identifier in
  [QUOTE] ++ replace_rune QUOTE [QUOTE; QUOTE] identifier ++ [QUOTE].

Definition quoteIdentifierPath (path : text) : text :=
  Join_text [46] (map (λ part, quoteIdentifier (TrimSpace part)) (split_on 46 path)).

(** How PostgreSQL reads them: a quoted name ends at the first quote that is not
    doubled, an unquoted one at the first character that is not part of a word. *)
Fixpoint read_quoted (s : text) : option (text * text) :=
  match s with
  | [] => None
  | c :: s' =>
    if bool_decide (c = QUOTE) then
      match s' with
      | d :: s'' => if bool_decide (d = QUOTE) then '(n, rest) ← read_quoted s''; Some (QUOTE :: n, rest) else Some ([], s')
      | [] => Some ([], [])
      end
    else '(n, rest) ← read_quoted s'; Some (c :: n, rest)
  end.

Fixpoint read_word (s : text) : text * text :=
  match s with
  | c :: s' => if word c then let '(n, rest) := read_word s' in (c :: n, rest) else ([], s)
  | [] => ([], [])
  end.

Definition read_name (s : text) : option (text * text) :=
  match s with
  | c :: s' => if bool_decide (c = QUOTE) then read_quoted s'
               else let '(n, rest) := read_word s in if is_empty n then None else Some (n, rest)
  | [] => None
  end.

(** Names with a separator in between. *)
Fixpoint read_names (fuel : nat) (sep s : text) : option (list text) :=
  match fuel with
  | O => None
  | S fuel =>
    '(n, rest) ← read_name s;
    if is_empty rest then Some [n]
    else if has_prefix sep rest then ns ← read_names fuel sep (drop (length sep) rest); Some (n :: ns)
    else None
  end.
End Identifiers.

(** ** A schema per tenant *)

Module Schemas.
Import Identifiers.

(** [isUUID] is [commons.IsUUID], the parser of [google/uuid]. *)
Section schemas.
Context (isUUID : text → bool).

Definition defaultOutboxTableName : text := txt "outbox_events".
Definition defaultSchemaSearchPath : text := txt "public".

Record SchemaResolver := { defaultTenantID : text; outboxTableName : text; requireTenant : bool }.

Definition WithDefaultTenantID (tenantID : text) (r : SchemaResolver) : SchemaResolver :=
  {| defaultTenantID := tenantID; outboxTableName := outboxTableName r; requireTenant := requireTenant r |}.
Definition WithRequireTenant (r : SchemaResolver) : SchemaResolver :=
  {| defaultTenantID := defaultTenantID r; outboxTableName := outboxTableName r; requireTenant := true |}.
Definition WithAllowEmptyTenant (r : SchemaResolver) : SchemaResolver :=
  {| defaultTenantID := defaultTenantID r; outboxTableName := outboxTableName r; requireTenant := false |}.
Definition WithOutboxTableName (tableName : text) (r : SchemaResolver) : SchemaResolver :=
  {| defaultTenantID := defaultTenantID r; outboxTableName := tableName; requireTenant := requireTenant r |}.

(** [client] tells whether a client is given. *)
Definition NewSchemaResolver (client : bool) (opts : list (SchemaResolver → SchemaResolver)) : result resolver_error SchemaResolver :=
  if negb client then Err ErrConnectionRequired
  else
    let r := foldl (λ r opt, opt r) {| defaultTenantID := []; outboxTableName := defaultOutboxTableName; requireTenant := true |} opts in
    let id := TrimSpace (defaultTenantID r) in
    if (negb (is_empty id) && requireTenant r && negb (isUUID id))%bool then Err ErrDefaultTenantIDInvalid
    else
      let table := TrimSpace (outboxTableName r) in
      Ok {| defaultTenantID := id; outboxTableName := if is_empty table then defaultOutboxTableName else table; requireTenant := requireTenant r |}.

Definition RequiresTenant (r : option SchemaResolver) : bool := match r with None => true | Some r => requireTenant r end.

Definition SET_PATH : text := txt "SET LOCAL search_path TO ".

(** [exec] is the answer of the transaction; the statements that were sent come
    back with the result. *)
Definition setDefaultSearchPath (exec : text → option Z) : result resolver_error unit * list text :=
  let query := SET_PATH ++ quoteIdentifier defaultSchemaSearchPath in
  (match exec query with Some e => Err (Driver e) | None => Ok tt end, [query]).

(** [None] is a nil resolver or a nil transaction. *)
Definition ApplyTenant (r : option SchemaResolver) (exec : option (text → option Z)) (tenantID : text) : result resolver_error unit * list text :=
  match r, exec with
  | None, _ => (Err ErrConnectionRequired, [])
  | Some _, None => (Err ErrTransactionRequired, [])
  | Some r, Some exec =>
    let tenantID := TrimSpace tenantID in
    if is_empty tenantID then
      if requireTenant r then (Err TenantRequired, []) else setDefaultSearchPath exec
    else if (eqt tenantID (defaultTenantID r) && negb (requireTenant r))%bool then setDefaultSearchPath exec
    else if negb (isUUID tenantID) then (Err InvalidTenantIDFormat, [])
    else
      let query := SET_PATH ++ quoteIdentifier tenantID ++ txt ", public" in
      (match exec query with Some e => Err (Driver e) | None => Ok tt end, [query])
  end.

(** [n.nspname ~* '^[0-9a-f]{8}-[0-9a-f]{4}-[0-9a-f]{4}-[0-9a-f]{4}-[0-9a-f]{12}$'] *)
Definition hex (c : Z) : bool := (is_digit c || range 97 102 c || range 65 70 c)%bool.
Fixpoint shaped (shape : list bool) (s : text) : bool :=
  match shape, s with
  | [], [] => true
  | dash :: shape, c :: s => ((if (dash : bool) then bool_decide (c = 45) else hex c) && shaped shape s)%bool
  | _, _ => false
  end.
Definition uuidSchemaRegex : list bool :=
  replicate 8 false ++ true :: replicate 4 false ++ true :: replicate 4 false ++ true :: replicate 4 false ++ true :: replicate 12 false.

(** The catalogue: the schemas with the tables they have.  [db] is the primary
    database, [rows] the failure of the query or of its rows. *)
Definition DiscoverTenants (r : option SchemaResolver) (db : result resolver_error Z) (rows : option Z) (catalogue : list (text * list text)) :
    result resolver_error (list text) :=
  match r with
  | None => Err ErrConnectionRequired
  | Some r =>
    match db with
    | Err e => Err e
    | Ok _ =>
      match rows with
      | Some e => Err (Driver e)
      | None => Ok (map fst (List.filter (λ s : text * list text, shaped uuidSchemaRegex s.1 && bool_decide (outboxTableName r ∈ s.2))%bool catalogue))
      end
    end
  end.
End schemas.
End Schemas.

(** ** Primary databases *)

(** [PrimaryDBs()[0]] of a resolved connection. *)
Definition first_primary (primaryDBs : list (option Z)) : option Z := match primaryDBs with Some db :: _ => Some db | _ => None end.

(** [None] is a nil client; a connection that resolves to nil is [Ok None]. *)
Definition resolvePrimaryDB (client : option (result Z (option (list (option Z))))) : result resolver_error Z :=
  match client with
  | None => Err ErrConnectionRequired
  | Some (Err e) => Err (Driver e)
  | Some (Ok None) => Err ErrNoPrimaryDB
  | Some (Ok (Some primaryDBs)) => match first_primary primaryDBs with Some db => Ok db | None => Err ErrNoPrimaryDB end
  end.

(** ** A column per tenant *)

Module Columns.
Import Identifiers.

Definition defaultTenantDiscoveryTTL : duration := 10 * Second.

Record ColumnResolver := { tableName : text; tenantColumn : text; tenantTTL : duration; cache : list text; cacheSet : bool; cacheUntil : gotime }.
#[export] Instance ColumnResolver_eta : Eta ColumnResolver := λ r,
  {| tableName := tableName r; tenantColumn := tenantColumn r; tenantTTL := tenantTTL r; cache := cache r; cacheSet := cacheSet r; cacheUntil := cacheUntil r |}.

Definition WithColumnResolverTableName (name : text) (r : ColumnResolver) : ColumnResolver := r <| tableName := name |>.
Definition WithColumnResolverTenantColumn (column : text) (r : ColumnResolver) : ColumnResolver := r <| tenantColumn := column |>.
Definition WithColumnResolverTenantDiscoveryTTL (ttl : duration) (r : ColumnResolver) : ColumnResolver :=
  if bool_decide (0 < ttl) then r <| tenantTTL := ttl |> else r.

Definition NewColumnResolver (client : bool) (opts : list (ColumnResolver → ColumnResolver)) : result resolver_error ColumnResolver :=
  if negb client then Err ErrConnectionRequired
  else
    let r := foldl (λ r opt, opt r)
      {| tableName := Schemas.defaultOutboxTableName; tenantColumn := txt "tenant_id"; tenantTTL := defaultTenantDiscoveryTTL;
         cache := []; cacheSet := false; cacheUntil := zero_time |} opts in
    let table := TrimSpace (tableName r) in
    let column := TrimSpace (tenantColumn r) in
    let table := if is_empty table then Schemas.defaultOutboxTableName else table in
    let column := if is_empty column then txt "tenant_id" else column in
    match validateIdentifierPath table, validateIdentifier column with
    | Some e, _ => Err e
    | None, Some e => Err e
    | None, None => Ok (r <| tableName := table |> <| tenantColumn := column |>)
    end.

(** Nothing is done in the transaction: the repository filters by the column. *)
Definition ColumnResolver_ApplyTenant (_ : text) : result resolver_error unit := Ok tt.
Definition ColumnResolver_RequiresTenant : bool := true.
Definition TenantColumn (r : option ColumnResolver) : text := match r with None => [] | Some r => tenantColumn r end.

Definition cachedTenants (now : gotime) (r : ColumnResolver) : option (list text) :=
  if bool_decide (tenantTTL r ≤ 0) then None
  else if (negb (cacheSet r) || negb (time_before now (cacheUntil r)))%bool then None
  else Some (cache r).

Definition storeCachedTenants (tenants : list text) (now : gotime) (r : ColumnResolver) : ColumnResolver :=
  if bool_decide (tenantTTL r ≤ 0) then r
  else r <| cache := tenants |> <| cacheSet := true |> <| cacheUntil := time_add now (tenantTTL r) |>.

(** [WHERE status IN (PENDING, FAILED, PROCESSING)] *)
Definition unfinished (row : Row) : bool :=
  (eqt (r_status row) OutboxStatusPending || eqt (r_status row) OutboxStatusFailed || eqt (r_status row) OutboxStatusProcessing)%bool.

(** [SELECT DISTINCT column ... ORDER BY column] *)
Definition select_tenants (tbl : table) : list text :=
  merge_sort (λ s t, lex_le s t) (remove_dups (map r_tenant (List.filter unfinished tbl))).

(** [db] is the primary database, [failure] that of the query or its rows, [now] the
    time after it. *)
Definition queryTenants (db : result resolver_error Z) (failure : option Z) (tbl : table) (now : gotime) (r : ColumnResolver) :
    result resolver_error (list text) * ColumnResolver :=
  match db with
  | Err e => (Err e, r)
  | Ok _ =>
    match failure with
    | Some e => (Err (Driver e), r)
    | None =>
      match scanTenantIDs [] (select_tenants tbl) with
      | Err e => (Err (Scan e), r)
      | Ok tenants => (Ok tenants, storeCachedTenants tenants now r)
      end
    end
  end.

(** [joined] is the result of a flight that another caller leads; without one the
    caller leads itself, and looks at the cache again. *)
Definition ColumnResolver_DiscoverTenants (r : ColumnResolver) (now : gotime) (joined : option (result resolver_error (list text)))
    (now' : gotime) (db : result resolver_error Z) (failure : option Z) (tbl : table) (now'' : gotime) :
    result resolver_error (list text) * ColumnResolver :=
  match cachedTenants now r with
  | Some tenants => (Ok tenants, r)
  | None =>
    match joined with
    | Some x => (x, r)
    | None => match cachedTenants now' r with
              | Some tenants => (Ok tenants, r)
              | None => queryTenants db failure tbl now'' r
              end
    end
  end.
End Columns.

(** ** A pool per tenant *)

Module Pools.

(** Nothing is done in the transaction: the pool is the isolation. *)
Definition NoopTenantResolver_ApplyTenant (_ : text) : result resolver_error unit := Ok tt.
Definition NoopTenantResolver_RequiresTenant : bool := true.

(** What the context carries: the tenant, the routing value of the dispatcher, and
    the primaries of a pool that a request has installed. *)
Record PoolCtx := { tenant_ctx : Ctx; dispatch_scope : option TenantDispatchScope; pg_context : option (list (option Z)) }.

(** An injected [TenantPoolResolver]; [scoped] is there when it also resolves
    dispatch scopes. *)
Record TenantPoolResolver := {
  pool_for_tenant : text → result resolver_error (option Z);
  scoped : option (TenantDispatchScope → result resolver_error Z) }.

Definition tenantDispatchScopeFromContext (ctx : PoolCtx) : option TenantDispatchScope :=
  match dispatch_scope ctx with
  | None => None
  | Some scope =>
    if is_empty (TrimSpace scope.1) then None
    else
      let scope : TenantDispatchScope := (TrimSpace scope.1, TrimSpace scope.2) in
      match TenantIDFromContext (tenant_ctx ctx) with
      | None => None
      | Some tenantID => if eqt (TrimSpace tenantID) scope.1 then Some scope else None
      end
  end.

Definition newTenantPoolLookup (resolver : TenantPoolResolver) (ctx : PoolCtx) : result resolver_error Z :=
  match dispatch_scope ctx with
  | Some _ =>
    match tenantDispatchScopeFromContext ctx, scoped resolver with
    | None, _ => Err ErrTenantPoolUnavailable
    | Some _, None => Err ErrTenantPoolUnavailable
    | Some scope, Some resolve => resolve scope
    end
  | None =>
    match pg_context ctx ≫= first_primary with
    | Some db => Ok db
    | None =>
      match TenantIDFromContext (tenant_ctx ctx) with
      | None => Err ErrTenantPoolUnavailable
      | Some tenantID =>
        if is_empty tenantID then Err ErrTenantPoolUnavailable
        else match pool_for_tenant resolver tenantID with
             | Err e => Err e
             | Ok (Some db) => Ok db
             | Ok None => Err ErrTenantPoolUnavailable
             end
      end
    end
  end.

Definition ContextForTenantDispatchScope (pools : option TenantPoolResolver) (ctx : PoolCtx) (scope : TenantDispatchScope) : PoolCtx :=
  match pools ≫= scoped with
  | None => ctx
  | Some _ => {| tenant_ctx := tenant_ctx ctx; dispatch_scope := Some (TrimSpace scope.1, TrimSpace scope.2); pg_context := pg_context ctx |}
  end.

(** *** Pools of the tenant manager *)

(** The service lister and the manager are given when they are not nil. *)
Record ManagerPoolResolver := { service : text; defaultTenantID : text }.

Definition listTenantIDs (summaries : result Z (list (option text))) : result Z (list text) :=
  match summaries with
  | Err e => Err e
  | Ok summaries => Ok (List.filter (λ id, negb (is_empty id)) (map TrimSpace (omap (λ s, s) summaries)))
  end.

Definition newManagerPoolResolver (mgr lister rootClient : bool) (service defaultTenantID : text) : result resolver_error ManagerPoolResolver :=
  if (negb mgr || negb lister)%bool then Err ErrManagerRequired
  else if negb rootClient then Err ErrConnectionRequired
  else
    let service := TrimSpace service in
    if is_empty service then Err ErrServiceRequired
    else
      let defaultTenantID := TrimSpace defaultTenantID in
      if is_empty defaultTenantID then Err ErrDefaultTenantIDRequired
      else if negb (IsValidTenantID defaultTenantID) then Err (ErrInvalidDefaultTenantID defaultTenantID)
      else Ok {| service := service; defaultTenantID := defaultTenantID |}.

Definition NewManagerPoolResolver (mgr client rootClient : bool) (service defaultTenantID : text) : result resolver_error ManagerPoolResolver :=
  if negb mgr then Err ErrManagerRequired
  else if negb client then Err ErrClientRequired
  else newManagerPoolResolver true true rootClient service defaultTenantID.

(** [root] is the root client, [connection] what the manager and then [GetDB] of its
    connection answer for a tenant. *)
Definition PoolForTenant (r : option ManagerPoolResolver) (root : option (result Z (option (list (option Z)))))
    (connection : text → result Z (option (list (option Z)))) (tenantID : text) : result resolver_error Z :=
  match r with
  | None => Err ErrTenantPoolUnavailable
  | Some r =>
    let tenantID := TrimSpace tenantID in
    if is_empty tenantID then Err ErrTenantPoolUnavailable
    else if eqt tenantID (defaultTenantID r) then resolvePrimaryDB root
    else match connection tenantID with
         | Err e => Err (Driver e)
         | Ok None => Err ErrNoPrimaryDB
         | Ok (Some primaryDBs) => match first_primary primaryDBs with Some db => Ok db | None => Err ErrNoPrimaryDB end
         end
  end.

Definition ListTenants (r : option ManagerPoolResolver) (listed : text → result Z (list text)) : result resolver_error (list text) :=
  match r with
  | None => Err ErrTenantPoolUnavailable
  | Some r =>
    match listed (service r) with
    | Err e => Err (Driver e)
    | Ok ids => Ok (if bool_decide (defaultTenantID r ∈ ids) then ids else ids ++ [defaultTenantID r])
    end
  end.
End Pools.

(** ** Whether the table is there *)

Module Presence.

Definition defaultTablePresenceTTL : duration := 60 * Second.

Record tablePresenceEntry := { is_present : bool; expires : gotime }.
Record tablePresenceGuard := { ttl : duration; byTenant : gmap text tablePresenceEntry }.

Definition newTablePresenceGuard (probe : bool) (ttl : duration) : option tablePresenceGuard :=
  if negb probe then None
  else Some {| ttl := if bool_decide (ttl ≤ 0) then defaultTablePresenceTTL else ttl; byTenant := ∅ |}.

(** The answer of the probe, should it be asked. *)
Definition present (g : tablePresenceGuard) (now : gotime) (probe : result resolver_error bool) (tenantID : text) :
    result resolver_error bool * tablePresenceGuard :=
  let ask :=
    match probe with
    | Err e => (Err e, {| ttl := ttl g; byTenant := delete tenantID (byTenant g) |})
    | Ok b => (Ok b, {| ttl := ttl g; byTenant := <[tenantID := {| is_present := b; expires := time_add now (ttl g) |}]> (byTenant g) |})
    end in
  match byTenant g !! tenantID with
  | Some entry => if time_before now (expires entry) then (Ok (is_present entry), g) else ask
  | None => ask
  end.

(** [newTablePresenceProbe]: [lookup] is the pool, [regclass] what the database
    answers. *)
Definition newTablePresenceProbe (lookup : result resolver_error (option Z)) (regclass : result Z bool) : result resolver_error bool :=
  match lookup with
  | Err e => Err e
  | Ok None => Err ErrNoPrimaryDB
  | Ok (Some _) => match regclass with Err e => Err (Driver e) | Ok valid => Ok valid end
  end.

(** Whether the table is missing. *)
Definition tenantOutboxTableMissing (guard : option tablePresenceGuard) (ctx : Pools.PoolCtx) (now : gotime)
    (probe : result resolver_error bool) : result resolver_error bool * option tablePresenceGuard :=
  match guard with
  | None => (Ok false, None)
  | Some g =>
    match TenantIDFromContext (Pools.tenant_ctx ctx) with
    | None => (Ok false, Some g)
    | Some tenantID =>
      if is_empty tenantID then (Ok false, Some g)
      else
        let look := λ key, match present g now probe key with
                           | (Err e, g) => (Err e, Some g)
                           | (Ok b, g) => (Ok (negb b), Some g)
                           end in
        match Pools.dispatch_scope ctx with
        | None => look tenantID
        | Some _ =>
          match Pools.tenantDispatchScopeFromContext ctx with
          | None => (Err ErrTenantPoolUnavailable, Some g)
          | Some scope => look (Join_text [0] [scope.1; scope.2])
          end
        end
    end
  end.
End Presence.

(** ** Construction of a repository *)

Module Construction.
Import Identifiers.

Definition defaultTransactionTimeout : duration := 30 * Second.

(** An injected [TenantResolver]: the column and the requirement it may declare. *)
Record TenantResolver := { declares_column : option text; declares_requirement : option bool }.

Record Repository := {
  tableName : text; tenantColumn : text; requireTenant : bool; explicitDiscoverer : bool; poolResolver : bool; transactionTimeout : duration }.
#[export] Instance Repository_eta : Eta Repository := λ r,
  {| tableName := tableName r; tenantColumn := tenantColumn r; requireTenant := requireTenant r; explicitDiscoverer := explicitDiscoverer r;
     poolResolver := poolResolver r; transactionTimeout := transactionTimeout r |}.

Definition WithTableName (name : text) (r : Repository) : Repository := r <| tableName := name |>.
Definition WithTenantColumn (column : text) (r : Repository) : Repository := r <| tenantColumn := column |>.
Definition WithTransactionTimeout (timeout : duration) (r : Repository) : Repository :=
  if bool_decide (0 < timeout) then r <| transactionTimeout := timeout |> else r.
Definition WithTenantPoolResolver (given : bool) (r : Repository) : Repository :=
  if negb given then r else r <| poolResolver := true |> <| requireTenant := true |>.

Definition NewRepository (client : bool) (tenantResolver : option TenantResolver) (tenantDiscoverer : bool) (opts : list (Repository → Repository)) :
    result resolver_error Repository :=
  if negb client then Err ErrConnectionRequired
  else match tenantResolver with
  | None => Err ErrTenantResolverRequired
  | Some resolver =>
    if negb tenantDiscoverer then Err ErrTenantDiscovererRequired
    else
      let repo := foldl (λ r opt, opt r)
        {| tableName := Schemas.defaultOutboxTableName; tenantColumn := default [] (declares_column resolver);
           requireTenant := default false (declares_requirement resolver); explicitDiscoverer := true; poolResolver := false;
           transactionTimeout := defaultTransactionTimeout |} opts in
      let table := TrimSpace (tableName repo) in
      let table := if is_empty table then Schemas.defaultOutboxTableName else table in
      let column := TrimSpace (tenantColumn repo) in
      match validateIdentifierPath table, (if is_empty column then None else validateIdentifier column) with
      | Some e, _ => Err e
      | None, Some e => Err e
      | None, None => Ok (repo <| tableName := table |> <| tenantColumn := column |>)
      end
  end.

Record MultiTenantConfig := {
  Client : bool; PoolResolver : bool; cfg_TenantResolver : option TenantResolver; TenantDiscoverer : bool; MultiTenantEnabled : bool;
  Options : list (Repository → Repository) }.

Definition NewMultiTenantRepository (cfg : MultiTenantConfig) : result resolver_error Repository :=
  if negb (Client cfg) then Err ErrConnectionRequired
  else
    let poolMode := PoolResolver cfg in
    if (MultiTenantEnabled cfg && negb poolMode)%bool then Err ErrMultiTenantMisconfigured
    else if negb poolMode then NewRepository (Client cfg) (cfg_TenantResolver cfg) (TenantDiscoverer cfg) (Options cfg)
    else
      let tenantResolver := match cfg_TenantResolver cfg with
                            | Some r => r
                            | None => {| declares_column := None; declares_requirement := Some Pools.NoopTenantResolver_RequiresTenant |}
                            end in
      match NewRepository (Client cfg) (Some tenantResolver) true (Options cfg ++ [WithTenantPoolResolver (PoolResolver cfg)]) with
      | Err e => Err e
      | Ok repo => Ok (repo <| explicitDiscoverer := TenantDiscoverer cfg |>)
      end.

(** What the calls of the repository see of it. *)
Definition seen (r : Repository) : OutboxPostgres.Repository :=
  {| repo_initialized := true; OutboxPostgres.tenantColumn := tenantColumn r; OutboxPostgres.requireTenant := requireTenant r |}.
End Construction.

(** ** Quoted names are read back *)

Section quoting.
Import Identifiers.

Definition not_quoted (s : text) : Prop := match s with c :: _ => c ≠ QUOTE | [] => True end.

Lemma read_quoted_back s rest : not_quoted rest → read_quoted (replace_rune QUOTE [QUOTE; QUOTE] s ++ QUOTE :: rest) = Some (s, rest).
Proof.
  intros Hr. induction s as [|c s IH].
  - destruct rest as [|d rest]; [done|]. simpl in Hr. cbn [replace_rune mbind list_bind app read_quoted]. by rewrite bool_decide_eq_true_2, bool_decide_eq_false_2.
  - unfold replace_rune in *. csimpl. case_bool_decide as Hc.
    + subst c. cbn [app read_quoted]. rewrite bool_decide_eq_true_2 by done. by rewrite IH.
    + cbn [app read_quoted]. rewrite bool_decide_eq_false_2 by done. by rewrite IH.
Qed.

Definition without_nul (s : text) : text := replace_rune 0 [] s.

Lemma without_nul_id s : 0 ∉ s → without_nul s = s.
Proof.
  induction s as [|c s IH]; intros H; [done|]. unfold without_nul, replace_rune in *. csimpl. rewrite bool_decide_eq_false_2 by set_solver.
  simpl. by rewrite IH by set_solver.
Qed.

Lemma read_quote s rest : not_quoted rest → read_name (quoteIdentifier s ++ rest) = Some (without_nul s, rest).
Proof.
  intros Hr. unfold quoteIdentifier. cbn [app read_name]. rewrite bool_decide_eq_true_2 by done. rewrite <- app_assoc. by apply read_quoted_back.
Qed.

Lemma quote_length s : (2 ≤ length (quoteIdentifier s))%nat.
Proof. unfold quoteIdentifier. rewrite !length_app. simpl. lia. Qed.

(** A path is read back part by part. *)
Lemma read_path_back parts fuel : parts ≠ [] → (length parts ≤ fuel)%nat →
  read_names fuel [46] (Join_text [46] (map quoteIdentifier parts)) = Some (map without_nul parts).
Proof.
  revert fuel. induction parts as [|s parts IH]; intros fuel Hne Hf; [done|]. destruct fuel as [|fuel]; [simpl in Hf; lia|].
  destruct parts as [|s' parts].
  - cbn [map Join_text read_names]. rewrite <- (app_nil_r (quoteIdentifier s)), read_quote by done. done.
  - specialize (IH fuel ltac:(done) ltac:(simpl in *; lia)).
    change (Join_text [46] (map quoteIdentifier (s :: s' :: parts))) with (quoteIdentifier s ++ 46 :: Join_text [46] (map quoteIdentifier (s' :: parts))).
    cbn [read_names]. rewrite read_quote by done. cbn [mbind option_bind is_empty].
    set (more := Join_text _ _) in *. assert (Hp : has_prefix [46] (46 :: more) = true) by done. rewrite Hp. change (drop (length [46]) (46 :: more)) with more. by rewrite IH.
Qed.

Theorem quoted_path_reads_back path :
  read_names (S (length path)) [46] (quoteIdentifierPath path) = Some (map (λ part, without_nul (TrimSpace part)) (split_on 46 path)).
Proof.
  unfold quoteIdentifierPath. rewrite <- (map_map TrimSpace quoteIdentifier), <- (map_map TrimSpace without_nul).
  apply read_path_back.
  - intros E%map_eq_nil. by destruct (split_on_nonempty 46 path).
  - rewrite length_map. clear. induction path as [|c path IH]; cbn [split_on]; [simpl; lia|]. case_bool_decide; simpl; [lia|].
    destruct (split_on 46 path); simpl in *; lia.
Qed.

(** A name that is accepted has nothing to escape. *)
Lemma valid_plain s : validateIdentifier s = None → s ≠ [] ∧ Forall (λ c, word c = true) s.
Proof.
  unfold validateIdentifier. case_bool_decide; [done|]. destruct (identifierPattern s) eqn:E; [|done]. intros _.
  destruct s as [|c s]; [done|]. split; [done|]. simpl in E. apply andb_true_iff in E as [E1 E2]. constructor.
  - unfold word. apply orb_true_iff in E1 as [->| ->]; [done|]. by rewrite orb_true_r.
  - apply Forall_forall. intros x Hx. rewrite forallb_forall in E2. apply E2. by apply list_elem_of_In.
Qed.
End quoting.

(** ** Schemas *)

Section search_path.
Import Identifiers Schemas.
Context (isUUID : text → bool) (isUUID_plain : ∀ s, isUUID s = true → 0 ∉ s).

(** The schemas that a statement puts on the search path. *)
Definition search_path (query : text) : option (list text) :=
  if has_prefix SET_PATH query then read_names 2 (txt ", ") (drop (length SET_PATH) query) else None.

Lemma search_path_tenant s : 0 ∉ s → search_path (SET_PATH ++ quoteIdentifier s ++ txt ", public") = Some [s; defaultSchemaSearchPath].
Proof.
  intros H. unfold search_path. rewrite has_prefix_app, drop_app_length. cbn [read_names]. rewrite read_quote by done.
  rewrite without_nul_id by done. reflexivity.
Qed.

Lemma search_path_default : search_path (SET_PATH ++ quoteIdentifier defaultSchemaSearchPath) = Some [defaultSchemaSearchPath].
Proof. vm_compute. reflexivity. Qed.

(** C9: a transaction is scoped to the tenant's own schema and nothing else.  For any
    tenant ID, whatever characters it has, at most one statement is sent; read the
    way PostgreSQL reads it, it puts exactly the schema with that name and [public]
    on the search path, or only [public] where an empty or the default tenant is
    allowed.  Every other ID is refused before anything is sent. *)
Theorem tenant_schema_is_selected r exec t :
  let '(res, sent) := ApplyTenant isUUID (Some r) (Some exec) t in
  let id := TrimSpace t in
  match sent with
  | [] => (∃ e, res = Err e) ∧ (id = [] ∧ requireTenant r = true ∨ id ≠ [] ∧ isUUID id = false)
  | [query] =>
      (res = Ok tt ↔ exec query = None) ∧
      (search_path query = Some [id; defaultSchemaSearchPath] ∧ isUUID id = true ∨
       search_path query = Some [defaultSchemaSearchPath] ∧ requireTenant r = false ∧ (id = [] ∨ id = defaultTenantID r))
  | _ => False
  end.
Proof using isUUID_plain.
  assert (Hres : ∀ q, match exec q with Some e => Err (Driver e) | None => Ok tt end = Ok tt ↔ exec q = None) by (intros q; by destruct (exec q)).
  unfold ApplyTenant. cbv zeta. destruct (is_empty (TrimSpace t)) eqn:Ee.
  { apply is_empty_true in Ee. destruct (requireTenant r) eqn:Er; simpl; [split; [eauto|by left]|].
    split; [apply Hres|]. right. split_and!; [apply search_path_default|done|by left]. }
  apply is_empty_false in Ee. destruct (eqt (TrimSpace t) (defaultTenantID r) && negb (requireTenant r))%bool eqn:Ed.
  { apply andb_true_iff in Ed as [Ed Er]. apply eqt_true in Ed. apply negb_true_iff in Er. simpl.
    split; [apply Hres|]. right. split_and!; [apply search_path_default|done|by right]. }
  destruct (isUUID (TrimSpace t)) eqn:Eu; simpl; [|split; [eauto|by right]].
  split; [apply Hres|]. left. split; [|done]. by apply search_path_tenant, isUUID_plain.
Qed.

Lemma shaped_chars shape s : shaped shape s = true → Forall (λ c, c = 45 ∨ hex c = true) s.
Proof.
  revert s. induction shape as [|d shape IH]; intros [|c s]; simpl; try done. intros [Hc Hs]%andb_true_iff. constructor; [|by apply IH].
  destruct d; [left; by apply bool_decide_eq_true in Hc|by right].
Qed.

Lemma shaped_plain s : shaped uuidSchemaRegex s = true → 0 ∉ s ∧ TrimSpace s = s ∧ s ≠ [].
Proof.
  intros H. pose proof (shaped_chars _ _ H) as Hc.
  assert (Hx : ∀ c, c ∈ s → c ≠ 0 ∧ is_space c = false).
  { intros c Hin. rewrite Forall_forall in Hc. apply Hc in Hin. assert (45 ≤ c ≤ 102) as Hr.
    { destruct Hin as [->|Hh]; [lia|]. unfold hex, is_digit, range in Hh. rewrite !orb_true_iff, !bool_decide_eq_true in Hh. lia. }
    split; [lia|]. unfold is_space. repeat case_bool_decide; simpl; try done; lia || set_solver. }
  split_and!.
  - intros Hin. by apply Hx in Hin as [? _].
  - apply trim_by_fix; [destruct s; [done|]; apply Hx; by left|]. destruct (rev s) as [|c l] eqn:E; [done|]. apply Hx. apply list_elem_of_In, in_rev. rewrite E. by left.
  - by intros ->.
Qed.

(** The schemas that are discovered have the table, and are those that are then
    selected. *)
Theorem discovered_schema_is_selected r db catalogue ts t exec :
  (∀ s, shaped uuidSchemaRegex s = true → isUUID s = true) →
  DiscoverTenants (Some r) db None catalogue = Ok ts → t ∈ ts → t ≠ defaultTenantID r ∨ requireTenant r = true →
  (∃ tables, (t, tables) ∈ catalogue ∧ outboxTableName r ∈ tables) ∧
  ∃ query, (ApplyTenant isUUID (Some r) (Some exec) t).2 = [query] ∧ search_path query = Some [t; defaultSchemaSearchPath].
Proof.
  intros Hu Hd Ht Hr. unfold DiscoverTenants in Hd. destruct db; [|done]. injection Hd as <-.
  apply list_elem_of_In, in_map_iff in Ht as ([t' tables] & <- & Hin). apply filter_In in Hin as [Hin [Hs Ho]%andb_true_iff].
  simpl in Hs, Ho, Hr |- *. apply bool_decide_eq_true in Ho. destruct (shaped_plain t' Hs) as (Hn & Htr & Hne). split.
  { exists tables. split; [by apply list_elem_of_In|done]. }
  rewrite Htr. assert (is_empty t' = false) as -> by (by apply is_empty_false).
  assert ((eqt t' (defaultTenantID r) && negb (requireTenant r))%bool = false) as ->.
  { apply andb_false_iff. destruct Hr as [Hr|Hr]; [left; by apply eqt_false|right; by rewrite Hr]. }
  rewrite (Hu t' Hs). simpl. eexists. split; [done|]. by apply search_path_tenant.
Qed.
End search_path.

(** ** Pools *)

Section pools.
Import Pools.

(** A pool is only ever the one that the dispatcher's scope names for the context's
    own tenant, the one that the request installed, or the one of the context's
    tenant. *)
Theorem pool_lookup_fails_closed resolver ctx db : newTenantPoolLookup resolver ctx = Ok db →
  match dispatch_scope ctx with
  | Some sc => TenantIDFromContext (tenant_ctx ctx) = Some (TrimSpace sc.1) ∧
      ∃ resolve, scoped resolver = Some resolve ∧ resolve (TrimSpace sc.1, TrimSpace sc.2) = Ok db
  | None => pg_context ctx ≫= first_primary = Some db ∨
      ∃ t, TenantIDFromContext (tenant_ctx ctx) = Some t ∧ t ≠ [] ∧ pool_for_tenant resolver t = Ok (Some db)
  end.
Proof.
  assert (Htrim : ∀ t, TenantIDFromContext (tenant_ctx ctx) = Some t → TrimSpace t = t).
  { intros t. unfold TenantIDFromContext. destruct (negb _); [intros [= <-]; apply TrimSpace_idem|].
    destruct (outbox_tenant _); [|done]. destruct (is_empty _); [done|]. intros [= <-]. apply TrimSpace_idem. }
  unfold newTenantPoolLookup, tenantDispatchScopeFromContext. destruct (dispatch_scope ctx) as [sc|].
  - destruct (is_empty (TrimSpace sc.1)); [done|]. destruct (TenantIDFromContext _) as [t|] eqn:Et; [|done]. simpl.
    destruct (eqt (TrimSpace t) (TrimSpace sc.1)) eqn:Ee; [|done]. apply eqt_true in Ee. rewrite (Htrim t eq_refl) in Ee. subst t.
    destruct (scoped resolver) as [resolve|]; [|done]. eauto.
  - destruct (pg_context ctx ≫= first_primary); [intros [= <-]; by left|]. destruct (TenantIDFromContext _) as [t|]; [|done].
    destruct (is_empty t) eqn:Ee; [done|]. apply is_empty_false in Ee. destruct (pool_for_tenant resolver t) as [[p|]|] eqn:Ep; [|done..].
    intros [= <-]. right. eauto.
Qed.

(** The dispatcher's routing value arrives. *)
Theorem dispatch_scope_is_routed resolver resolve ctx sc : scoped resolver = Some resolve → TrimSpace sc.1 ≠ [] →
  TenantIDFromContext (tenant_ctx ctx) = Some (TrimSpace sc.1) →
  newTenantPoolLookup resolver (ContextForTenantDispatchScope (Some resolver) ctx sc) = resolve (TrimSpace sc.1, TrimSpace sc.2).
Proof.
  intros Hs Hne Ht. unfold ContextForTenantDispatchScope. simpl. rewrite Hs. unfold newTenantPoolLookup, tenantDispatchScopeFromContext. simpl.
  rewrite !TrimSpace_idem. apply is_empty_false in Hne. rewrite Hne, Ht, TrimSpace_idem, eqt_refl, Hs. done.
Qed.
End pools.

(** ** Columns *)

Section columns.
Import Columns.

Lemma scan_finds rows : ∀ seen ts x, scanTenantIDs seen rows = Ok ts → x ∈ rows → TrimSpace x ≠ [] → TrimSpace x ∈ seen ∨ TrimSpace x ∈ ts.
Proof.
  induction rows as [|y rows IH]; intros seen ts x Hs Hx Hne; [by apply elem_of_nil in Hx|]. cbn [scanTenantIDs] in Hs.
  apply elem_of_cons in Hx as [->|Hx].
  - assert (is_empty (TrimSpace y) = false) as E by (by apply is_empty_false). rewrite E in Hs. destruct (negb _); [done|].
    case_bool_decide; [by left|]. destruct (scanTenantIDs _ rows) as [l|]; [|done]. injection Hs as <-. right. by left.
  - destruct (is_empty (TrimSpace y)); [by eapply IH|]. destruct (negb _); [done|]. case_bool_decide; [by eapply IH|].
    destruct (scanTenantIDs (TrimSpace y :: seen) rows) as [l|] eqn:E; [|done]. injection Hs as <-.
    destruct (IH _ _ _ E Hx Hne) as [[->|H1]%elem_of_cons|H1]; [right; by left|by left|right; by right].
Qed.

(** Whoever has an event to deliver is found by a query. *)
Theorem pending_tenant_is_discovered db tbl now r ts r' row :
  queryTenants (Ok db) None tbl now r = (Ok ts, r') → row ∈ tbl → unfinished row = true → TrimSpace (r_tenant row) ≠ [] →
  TrimSpace (r_tenant row) ∈ ts.
Proof.
  unfold queryTenants. destruct (scanTenantIDs _ _) as [l|] eqn:E; [|done]. intros [= <- _] Hrow Hu Hne.
  destruct (scan_finds _ _ _ (r_tenant row) E) as [H|H]; [|done|by apply elem_of_nil in H|done].
  unfold select_tenants. rewrite merge_sort_Permutation, elem_of_remove_dups. apply list_elem_of_In, in_map, filter_In.
  split; [by apply list_elem_of_In|done].
Qed.

(** What is served from the cache was queried less than the time to live ago. *)
Theorem cached_tenants_are_recent tenants now now' r : 0 < tenantTTL r →
  cachedTenants now' (storeCachedTenants tenants now r) = if bool_decide (now' < now + tenantTTL r) then Some tenants else None.
Proof.
  intros H. unfold storeCachedTenants. rewrite bool_decide_eq_false_2 by lia. unfold cachedTenants. cbn. rewrite bool_decide_eq_false_2 by lia.
  unfold time_before, time_add. by case_bool_decide.
Qed.
End columns.

(** ** Presence of the table *)

Section presence.
Import Presence.

(** An answer is that of a probe made less than the time to live ago; a failed probe
    leaves nothing behind. *)
Theorem presence_is_probed g now probe now' probe' t :
  let '(res, g') := present g now probe t in
  match byTenant g !! t with
  | Some entry => now < expires entry → res = Ok (is_present entry) ∧ g' = g
  | None => res = probe ∧
      match probe with
      | Err _ => byTenant g' !! t = None
      | Ok b => (present g' now' probe' t).1 = if bool_decide (now' < now + ttl g) then Ok b else probe'
      end
  end.
Proof.
  unfold present. destruct (byTenant g !! t) as [entry|] eqn:E.
  - destruct (time_before now (expires entry)) eqn:Eb; [by intros _|]. unfold time_before in Eb. apply bool_decide_eq_false in Eb.
    by destruct probe.
  - destruct probe as [b|e]; cbn; [|by rewrite lookup_delete_eq]. split; [done|]. rewrite lookup_insert_eq. cbn.
    unfold time_before, time_add. case_bool_decide; [done|]. by destruct probe'.
Qed.
End presence.

(** ** Construction *)

Section construction.
Import Identifiers Construction.

Lemma NewRepository_pool client resolver d opts repo :
  NewRepository client resolver d (opts ++ [WithTenantPoolResolver true]) = Ok repo → poolResolver repo = true ∧ requireTenant repo = true.
Proof.
  unfold NewRepository. destruct client; [|done]. destruct resolver as [res|]; [|done]. destruct d; [|done]. simpl. rewrite foldl_app. simpl.
  destruct (validateIdentifierPath _); [done|]. destruct (if is_empty _ then _ else _); [done|]. by intros [= <-].
Qed.

(** A repository that was asked to be multi-tenant has a pool per tenant, and no call
    without a tenant gets past the check, whatever the other options say. *)
Theorem multi_tenant_fails_closed cfg repo : NewMultiTenantRepository cfg = Ok repo → MultiTenantEnabled cfg = true →
  poolResolver repo = true ∧ explicitDiscoverer repo = TenantDiscoverer cfg ∧
  ∀ ctx, TenantIDFromContext ctx = None → tenantIDFromContext (seen repo) ctx = Err (OutboxErr ErrTenantIDRequired).
Proof.
  unfold NewMultiTenantRepository. intros H Hm. rewrite Hm in H. destruct (Client cfg); [|done]. destruct (PoolResolver cfg); [|done]. simpl in H.
  destruct (NewRepository _ _ _ _) as [r|] eqn:E; [|done]. injection H as <-. apply NewRepository_pool in E as [H1 H2]. split_and!; [done..|].
  intros ctx Hctx. unfold tenantIDFromContext. rewrite Hctx. cbn. by rewrite H2, orb_true_r.
Qed.

(** The table and the column of a repository need no escaping. *)
Theorem repository_names_are_plain client resolver d opts repo : NewRepository client resolver d opts = Ok repo →
  Forall (λ part, TrimSpace part ≠ [] ∧ Forall (λ c, word c = true) (TrimSpace part)) (split_on 46 (tableName repo)) ∧
  Forall (λ c, word c = true) (tenantColumn repo).
Proof.
  unfold NewRepository. destruct client; [|done]. destruct resolver as [res|]; [|done]. destruct d; [|done]. simpl.
  set (r := foldl _ _ _). set (table := if is_empty (TrimSpace (tableName r)) then _ else _).
  destruct (validateIdentifierPath table) eqn:Et; [done|].
  destruct (if is_empty (TrimSpace (tenantColumn r)) then _ else _) eqn:Ec; [done|]. intros [= <-]. cbn. split.
  - revert Et. unfold validateIdentifierPath. induction (split_on 46 table) as [|p ps IH]; [constructor|]. cbn [validate_parts].
    destruct (validateIdentifier (TrimSpace p)) eqn:E; [done|]. intros H. constructor; [by apply valid_plain|by apply IH].
  - destruct (is_empty (TrimSpace (tenantColumn r))) eqn:Ee; [apply is_empty_true in Ee; by rewrite Ee|]. by apply valid_plain.
Qed.
End construction.

(** ** Examples *)

Definition sample_schemas : Schemas.SchemaResolver :=
  {| Schemas.defaultTenantID := []; Schemas.outboxTableName := txt "outbox_events"; Schemas.requireTenant := true |}.
Definition canonical (s : text) : bool := Schemas.shaped Schemas.uuidSchemaRegex s.
Definition sample_tenant : text := txt "01890a5d-ac96-774b-bcce-b302099a8057".

Lemma tenant_schema_is_selected_witness :
  match (Schemas.ApplyTenant canonical (Some sample_schemas) (Some (λ _, None)) (txt " " ++ sample_tenant)).2 with
  | [query] => search_path query = Some [sample_tenant; txt "public"]
  | _ => False
  end.
Proof.
  pose proof (tenant_schema_is_selected canonical (λ s H, proj1 (shaped_plain s H)) sample_schemas (λ _, None) (txt " " ++ sample_tenant)) as H.
  revert H. vm_compute. intros [_ [[H _]|[_ [H _]]]]; [exact H|discriminate H].
Defined.

Example injection_is_read_as_a_name :
  Identifiers.read_names 9 (txt ".") (Identifiers.quoteIdentifierPath [97; 34; 59; 32; 68; 82; 79; 80; 46; 98]) = Some [[97; 34; 59; 32; 68; 82; 79; 80]; [98]].
Proof. vm_compute. reflexivity. Qed.
