(* ===== verification/CircuitBreaker.v ===== *)
(** The circuit breaker manager ([src/commons/circuitbreaker]).

    A manager keeps one breaker of the gobreaker package per tenant and service.
    Its methods are programs over the commands [cmd]: every section under the
    manager's lock, every call of a breaker and every counter of the metrics is one
    command, and the callbacks given to [Execute] are programs themselves, so that
    they may use the manager.  A breaker is a pointer into [heap]: a handle taken
    before a reset keeps naming the old breaker.

    gobreaker is not part of the repository; its breakers are the values of an
    interface ([Gobreaker]).  [Execute] is put together as its documentation says:
    ask for admission, run the callback if it is given, report the outcome. *)

From stdpp Require Import base numbers list gmap strings.
From Stdlib Require Import SpecFloat.
From S2P Require Import Prelude GoText GoFloat GoBytes GoJSON Safe Effects OutboxEvent.

Local Open Scope Z_scope.
Local Open Scope go_scope.

(** ** Configurations ([types.go], [config.go]) *)

Record Config := {
  MaxRequests : Z;
  Interval : duration;
  Timeout : duration;
  ConsecutiveFailures : Z;
  FailureRatio : float64;
  MinRequests : Z;
}.

(** [==] on two configurations *)
Definition same_config (a b : Config) : bool :=
  (bool_decide (MaxRequests a = MaxRequests b) && bool_decide (Interval a = Interval b)
   && bool_decide (Timeout a = Timeout b) && bool_decide (ConsecutiveFailures a = ConsecutiveFailures b)
   && feq (FailureRatio a) (FailureRatio b) && bool_decide (MinRequests a = MinRequests b))%bool.

Inductive config_fault := NoTripCondition | RatioOutOfRange | RatioIneffective | NegativeInterval | NegativeTimeout.

(** [Config.Validate]; every fault wraps [ErrInvalidConfig]. *)
Definition Validate (c : Config) : option config_fault :=
  if (bool_decide (ConsecutiveFailures c = 0) && bool_decide (MinRequests c = 0))%bool then Some NoTripCondition
  else if (flt (FailureRatio c) (of_int 0) || flt (of_int 1) (FailureRatio c))%bool then Some RatioOutOfRange
  else if (bool_decide (0 < MinRequests c) && fle (FailureRatio c) (of_int 0))%bool then Some RatioIneffective
  else if bool_decide (Interval c < 0) then Some NegativeInterval
  else if bool_decide (Timeout c < 0) then Some NegativeTimeout
  else None.

(** The constants 0.4, 0.5 and 0.6 are rounded quotients. *)
Definition DefaultConfig : Config :=
  {| MaxRequests := 3; Interval := 2 * Minute; Timeout := 30 * Second; ConsecutiveFailures := 15;
     FailureRatio := fdiv (of_int 1) (of_int 2); MinRequests := 10 |}.

Definition AggressiveConfig : Config :=
  {| MaxRequests := 2; Interval := 1 * Minute; Timeout := 10 * Second; ConsecutiveFailures := 5;
     FailureRatio := fdiv (of_int 4) (of_int 10); MinRequests := 5 |}.

Definition ConservativeConfig : Config :=
  {| MaxRequests := 5; Interval := 5 * Minute; Timeout := 60 * Second; ConsecutiveFailures := 25;
     FailureRatio := fdiv (of_int 6) (of_int 10); MinRequests := 20 |}.

Definition HTTPServiceConfig : Config :=
  {| MaxRequests := 3; Interval := 2 * Minute; Timeout := 10 * Second; ConsecutiveFailures := 5;
     FailureRatio := fdiv (of_int 1) (of_int 2); MinRequests := 10 |}.

Definition DatabaseConfig : Config :=
  {| MaxRequests := 5; Interval := 3 * Minute; Timeout := 45 * Second; ConsecutiveFailures := 20;
     FailureRatio := fdiv (of_int 6) (of_int 10); MinRequests := 15 |}.

(** ** States and counters *)

Inductive State := StateClosed | StateOpen | StateHalfOpen | StateUnknown.

#[export] Instance State_eq_dec : EqDecision State.
Proof. solve_decision. Defined.

Definition state_text (s : State) : text :=
  match s with
  | StateClosed => txt "closed" | StateOpen => txt "open" | StateHalfOpen => txt "half-open"
  | StateUnknown => txt "unknown"
  end.

Record Counts := {
  Requests : Z; TotalSuccesses : Z; TotalFailures : Z; ConsecutiveSuccesses : Z; CountedFailures : Z
}.

Definition zero_counts : Counts := Build_Counts 0 0 0 0 0.

(** [gobreaker.State], an integer type with three constants *)
Inductive gstate := GClosed | GHalfOpen | GOpen | GOther (n : Z).

#[export] Instance gstate_eq_dec : EqDecision gstate.
Proof. solve_decision. Defined.

Definition convertGobreakerState (s : gstate) : State :=
  match s with
  | GClosed => StateClosed
  | GOpen => StateOpen
  | GHalfOpen => StateHalfOpen
  | GOther _ => StateUnknown
  end.

(** ** Identities ([manager_identity.go]) *)

Record breakerMapKey := Key { tenantID : text; serviceName : text }.

#[export] Instance breakerMapKey_eq_dec : EqDecision breakerMapKey.
Proof. solve_decision. Defined.

#[export] Instance breakerMapKey_countable : Countable breakerMapKey.
Proof.
  refine (inj_countable' (λ k, (tenantID k, serviceName k)) (λ p, Key p.1 p.2) _). by intros [].
Defined.

Inductive identity_error := EmptyServiceName | ControlCharacter | BadTenantID.

Definition validateServiceName (name : text) : option identity_error :=
  if is_empty name then Some EmptyServiceName
  else if existsb (λ r, bool_decide (r < 32) || bool_decide (r = 127))%bool name then Some ControlCharacter
  else None.

Definition validateTenantID (tenant : text) : option identity_error :=
  if negb (IsValidTenantID tenant) then Some BadTenantID else None.

Definition validateBreakerIdentity (tenant service : text) (tenantAware : bool) : result identity_error breakerMapKey :=
  match validateServiceName service with
  | Some e => Err e
  | None =>
    match (if tenantAware then validateTenantID tenant else None) with
    | Some e => Err e
    | None => Ok (Key tenant service)
    end
  end.

Definition noTenantHashLabel : text := [].

(** The first eight bytes of the SHA-256 digest, in hexadecimal. *)
Definition tenantHashLabel (tenant : text) : text :=
  if is_empty tenant then noTenantHashLabel else hex_encode (take 8 (sha256 (utf8_encode tenant))).

Definition tenantHashMetricLabel (tenant : text) : text := tenantHashLabel tenant.

(** ** Errors *)

Inductive sentinel :=
| ErrInvalidConfig | ErrNilLogger | ErrNilCallback | ErrConfigMismatch | ErrInvalidServiceName | ErrInvalidTenantID
| ErrNilCircuitBreaker
| ErrOpenState              (* ErrBreakerOpen is the same value *)
| ErrTooManyRequests.       (* ErrBreakerHalfOpenFull *)

#[export] Instance sentinel_eq_dec : EqDecision sentinel.
Proof. solve_decision. Defined.

(** What [fmt.Errorf] adds around an error. *)
Inductive context :=
| BadIdentity (e : identity_error)
| AlreadyRegistered (service tenant_hash : text)
| BadConfig (f : config_fault)
| ConfigFor (service tenant_hash : text)
| NotFound (service tenant_hash : text)
| Unavailable (service : text)
| Recovering (service : text).

(** An error of the package, one with context around it, or an error of other
    code with the errors it wraps. *)
#[warnings="-register-all"]
Inductive error :=
| Sentinel (s : sentinel)
| Errorf (c : context) (wrapped : option error)
| Foreign (id : Z) (wraps : list error).

(** [errors.Is] *)
Fixpoint errors_Is (e : error) (target : sentinel) : bool :=
  match e with
  | Sentinel s => bool_decide (s = target)
  | Errorf _ w => match w with Some e => errors_Is e target | None => false end
  | Foreign _ ws => existsb (λ e, errors_Is e target) ws
  end.

Definition identity_fault (e : identity_error) : error :=
  Errorf (BadIdentity e) (Some (Sentinel match e with BadTenantID => ErrInvalidTenantID | _ => ErrInvalidServiceName end)).

Definition config_error (f : config_fault) : error := Errorf (BadConfig f) (Some (Sentinel ErrInvalidConfig)).

(** ** gobreaker *)

(** Its settings.  [OnStateChange] is the method [handleStateChange] of the
    manager for the pair [Owner]. *)
Record Settings := {
  set_Name : text;
  set_MaxRequests : Z;
  set_Interval : duration;
  set_Timeout : duration;
  set_ReadyToTrip : Counts → bool;
  set_Owner : breakerMapKey;
}.

(** Why a request is rejected. *)
Inductive rejection := RejectOpen | RejectTooMany.

Definition rejection_error (r : rejection) : sentinel :=
  match r with RejectOpen => ErrOpenState | RejectTooMany => ErrTooManyRequests end.

(** A breaker: how it starts, what [State] and [Counts] answer, whether a request
    is admitted (with the generation to report its outcome under) or rejected, and
    what the outcome of a request does.  The lists are the changes of state that
    are announced on the way. *)
Class Gobreaker := {
  gb : Type;
  gb_new : Settings → gotime → gb;
  gb_state : gotime → gb → gstate * list (gstate * gstate) * gb;
  gb_counts : gb → Counts;
  gb_allow : gotime → gb → (rejection + Z) * list (gstate * gstate) * gb;
  gb_report : gotime → Z → bool → gb → list (gstate * gstate) * gb;
}.

(** ** The manager ([manager.go])

    Labels of metrics are sanitised by the observability library. *)
Class Labels := SanitizeMetricLabel : text → text.

(** The [n]-th breaker made for a key. *)
Abbreviation pointer := (breakerMapKey * nat)%type.

Definition attributes : Type := gmap text text.

Record breakerSlot := {
  slot_tenantID : text;
  slot_serviceName : text;
  breaker : pointer;
  config : Config;
  executionAttrs : gmap text attributes;      (* breakerMetrics *)
}.

(** A call of a listener, and the listener it goes to. *)
Inductive notification :=
| Tenant (listener : Z) (tenant service : text) (from to : State)
| Legacy (listener : Z) (service : text) (from to : State).

Section manager.
Context `{Gobreaker} `{Labels}.

Record cell := { made_with : Settings; content : gb }.

Record manager := {
  slots : gmap breakerMapKey breakerSlot;
  listeners : list Z;
  tenantListeners : list Z;
  metricsRecorder : bool;
  listenerSem : list notification;        (* the notifications that hold a place *)
  heap : gmap pointer cell;
  made : gmap breakerMapKey nat;          (* how many breakers a key has had *)
  counters : list (text * attributes);    (* what the recorder got *)
}.

#[global] Instance manager_eta : Eta manager :=
  λ m, Build_manager (slots m) (listeners m) (tenantListeners m) (metricsRecorder m) (listenerSem m) (heap m) (made m)
         (counters m).

(** [WithMetricsRecorder] *)
Definition ManagerOption : Type := manager → manager.
Definition WithMetricsRecorder (recorder : bool) : ManagerOption := λ m, m <| metricsRecorder := recorder |>.

Definition NewManager (logger : bool) (opts : list (option ManagerOption)) : result error manager :=
  if negb logger then Err (Sentinel ErrNilLogger)
  else Ok (foldl (λ m o, match o with Some f => f m | None => m end)
             {| slots := ∅; listeners := []; tenantListeners := []; metricsRecorder := false; listenerSem := [];
                heap := ∅; made := ∅; counters := [] |} opts).

(** *** Metrics ([manager_metrics.go]) *)

Definition executionResultSuccess : text := txt "success".
Definition executionResultError : text := txt "error".
Definition executionResultRejectedOpen : text := txt "rejected_open".
Definition executionResultRejectedHalfOpen : text := txt "rejected_half_open".
Definition stateTransitionMetricName : text := txt "circuit_breaker_state_transitions_total".
Definition executionMetricName : text := txt "circuit_breaker_executions_total".

Definition with_tenant_hash (tenant : text) (attrs : attributes) : attributes :=
  if is_empty tenant then attrs
  else <[txt "tenant_hash" := SanitizeMetricLabel (tenantHashMetricLabel tenant)]> attrs.

Definition executionAttributes (tenant service result : text) : attributes :=
  with_tenant_hash tenant (<[txt "service" := SanitizeMetricLabel service]> {[txt "result" := result]}).

Definition stateTransitionAttributes (tenant service : text) (from to : State) : attributes :=
  with_tenant_hash tenant
    (<[txt "service" := SanitizeMetricLabel service]>
      (<[txt "from_state" := state_text from]> {[txt "to_state" := state_text to]})).

Definition buildBreakerMetrics (m : manager) (tenant service : text) : gmap text attributes :=
  if negb (metricsRecorder m) then ∅
  else list_to_map ((λ r, (r, executionAttributes tenant service r)) <$>
         [executionResultSuccess; executionResultError; executionResultRejectedOpen; executionResultRejectedHalfOpen]).

Definition AddCounter (name : text) (attrs : attributes) (m : manager) : manager :=
  m <| counters := counters m ++ [(name, attrs)] |>.

Definition recordStateTransition (tenant service : text) (from to : State) (m : manager) : manager :=
  if negb (metricsRecorder m) then m
  else AddCounter stateTransitionMetricName (stateTransitionAttributes tenant service from to) m.

(** The attributes made with the slot, or made again. *)
Definition recordExecution (slot : breakerSlot) (result : text) (m : manager) : manager :=
  if negb (metricsRecorder m) then m
  else AddCounter executionMetricName
         (match executionAttrs slot !! result with
          | Some attrs => attrs
          | None => executionAttributes (slot_tenantID slot) (slot_serviceName slot) result
          end) m.

(** *** Listeners ([manager_listeners.go]) *)

Definition stateChangeListenerConcurrency : nat := 64.

(** A notification that finds no place is dropped. *)
Definition dispatchStateChangeListener (m : manager) (n : notification) : manager :=
  if bool_decide (length (listenerSem m) < stateChangeListenerConcurrency)%nat
  then m <| listenerSem := listenerSem m ++ [n] |> else m.

(** The [i]-th notification under way has been delivered. *)
Definition notified (i : nat) (m : manager) : manager := m <| listenerSem := delete i (listenerSem m) |>.

Definition handleStateChange (tenant service : text) (m : manager) (change : gstate * gstate) : manager :=
  let fromState := convertGobreakerState change.1 in
  let toState := convertGobreakerState change.2 in
  let m := recordStateTransition tenant service fromState toState m in
  let legacyListeners := if is_empty tenant then listeners m else [] in
  let m := foldl dispatchStateChangeListener m
             ((λ l, Tenant l tenant service fromState toState) <$> tenantListeners m) in
  foldl dispatchStateChangeListener m ((λ l, Legacy l service fromState toState) <$> legacyListeners).

(** *** Breakers *)

Definition readyToTrip (c : Config) (counts : Counts) : bool :=
  if (bool_decide (0 < ConsecutiveFailures c) && bool_decide (ConsecutiveFailures c ≤ CountedFailures counts))%bool
  then true
  else if (bool_decide (0 < MinRequests c) && bool_decide (MinRequests c ≤ Requests counts))%bool then
    fle (FailureRatio c) (DivideFloat64OrZero (of_int (TotalFailures counts)) (of_int (Requests counts)))
  else false.

Definition buildSettings (tenant service : text) (c : Config) : Settings :=
  let name := txt "service-" ++ service in
  {| set_Name := if is_empty tenant then name else txt "tenant-" ++ tenantHashLabel tenant ++ txt "/" ++ name;
     set_MaxRequests := MaxRequests c;
     set_Interval := Interval c;
     set_Timeout := Timeout c;
     set_ReadyToTrip := readyToTrip c;
     set_Owner := Key tenant service |}.

(** [gobreaker.NewCircuitBreaker]: a pointer no one has yet. *)
Definition NewCircuitBreaker (now : gotime) (s : Settings) (m : manager) : pointer * manager :=
  let n := default O (made m !! set_Owner s) in
  let p := (set_Owner s, n) in
  (p, m <| heap := <[p := {| made_with := s; content := gb_new s now |}]> (heap m) |>
        <| made := <[set_Owner s := S n]> (made m) |>).

(** One call of a breaker: its changes of state are announced on the way. *)
Definition breaker_call {X} (p : pointer) (none : X) (f : gb → X * list (gstate * gstate) * gb) (m : manager) :
    X * manager :=
  match heap m !! p with
  | None => (none, m)
  | Some c =>
    let '(x, changes, b) := f (content c) in
    let owner := set_Owner (made_with c) in
    (x, foldl (handleStateChange (tenantID owner) (serviceName owner))
          (m <| heap := <[p := {| made_with := made_with c; content := b |}]> (heap m) |>) changes)
  end.

(** *** Sections under the lock *)

Definition mismatch (tenant service : text) : error :=
  Errorf (AlreadyRegistered service (tenantHashLabel tenant)) (Some (Sentinel ErrConfigMismatch)).

(** The second half of [getOrCreate], under the write lock. *)
Definition create_locked (now : gotime) (key : breakerMapKey) (c : Config) (m : manager) : result error pointer * manager :=
  match slots m !! key with
  | Some slot =>
    if negb (same_config (config slot) c) then (Err (mismatch (tenantID key) (serviceName key)), m)
    else (Ok (breaker slot), m)
  | None =>
    let '(p, m) := NewCircuitBreaker now (buildSettings (tenantID key) (serviceName key) c) m in
    (Ok p, m <| slots := <[key :=
       {| slot_tenantID := tenantID key; slot_serviceName := serviceName key; breaker := p; config := c;
          executionAttrs := buildBreakerMetrics m (tenantID key) (serviceName key) |}]> (slots m) |>)
  end.

(** A slot gets a new breaker with its stored configuration, for the pair
    [owner]. *)
Definition recreate (now : gotime) (owner key : breakerMapKey) (slot : breakerSlot) (m : manager) : manager :=
  let '(p, m) := NewCircuitBreaker now (buildSettings (tenantID owner) (serviceName owner) (config slot)) m in
  m <| slots := <[key :=
    {| slot_tenantID := slot_tenantID slot; slot_serviceName := slot_serviceName slot; breaker := p;
       config := config slot;
       executionAttrs := buildBreakerMetrics m (slot_tenantID slot) (slot_serviceName slot) |}]> (slots m) |>.

(** The part of [reset] under the lock. *)
Definition reset_locked (now : gotime) (key : breakerMapKey) (m : manager) : manager :=
  match slots m !! key with
  | None => m
  | Some slot => recreate now key key slot m
  end.

Definition of_tenant (tenant : text) (key : breakerMapKey) : bool := bool_decide (tenantID key = tenant).

(** The part of [ResetTenant] under the lock: the loop over the slots. *)
Definition resetTenant_locked (now : gotime) (tenant : text) (m : manager) : manager :=
  foldl (λ m ks, if negb (of_tenant tenant ks.1) then m
                 else recreate now (Key (slot_tenantID ks.2) (slot_serviceName ks.2)) ks.1 ks.2 m) m
    (map_to_list (slots m)).

Definition removeTenant_locked (tenant : text) (m : manager) : manager :=
  foldl (λ m k, if negb (of_tenant tenant k) then m else m <| slots := delete k (slots m) |>) m
    ((map_to_list (slots m)).*1).

(** ** Commands *)

Inductive outcome := Returned (v : option Z) (err : option error) | Panicked.

Inductive cmd :=
| Slot (key : breakerMapKey)                      (* a read of the map under the read lock *)
| Create (key : breakerMapKey) (c : Config)
| ResetSlot (key : breakerMapKey)
| ResetSlots (tenant : text)
| RemoveSlots (tenant : text)
| Slots                                           (* a read of the whole map *)
| Listen (listener : Z)
| ListenTenants (listener : Z)
| Notified (i : nat)                              (* a listener has returned *)
| Allow (p : pointer)
| Report (p : pointer) (generation : Z) (success : bool)
| BreakerState (p : pointer)
| BreakerCounts (p : pointer)
| Executed (slot : breakerSlot) (result : text)
| External (id : Z).                              (* what a callback does outside *)

Definition answer (c : cmd) : Type :=
  match c with
  | Slot _ => option breakerSlot
  | Create _ _ => result error pointer
  | Slots => list breakerSlot
  | Allow _ => rejection + Z
  | BreakerState _ => gstate
  | BreakerCounts _ => Counts
  | External _ => outcome
  | _ => unit
  end.

(** The time of a command, and what the outside does. *)
Record surroundings := { now : gotime; outside : Z → outcome }.

Definition exec (l : surroundings) (c : cmd) (m : manager) : answer c * manager :=
  match c with
  | Slot key => (slots m !! key, m)
  | Create key c => create_locked (now l) key c m
  | ResetSlot key => (tt, reset_locked (now l) key m)
  | ResetSlots tenant => (tt, resetTenant_locked (now l) tenant m)
  | RemoveSlots tenant => (tt, removeTenant_locked tenant m)
  | Slots => ((map_to_list (slots m)).*2, m)
  | Listen li => (tt, m <| listeners := listeners m ++ [li] |>)
  | ListenTenants li => (tt, m <| tenantListeners := tenantListeners m ++ [li] |>)
  | Notified i => (tt, notified i m)
  | Allow p => breaker_call p (inl RejectOpen) (gb_allow (now l)) m
  | Report p g ok => breaker_call p tt (λ b, let '(cs, b') := gb_report (now l) g ok b in (tt, cs, b')) m
  | BreakerState p => breaker_call p (GOther 0) (gb_state (now l)) m
  | BreakerCounts p => breaker_call p zero_counts (λ b, (gb_counts b, [], b)) m
  | Executed slot result => (tt, recordExecution slot result m)
  | External id => (outside l id, m)
  end.
End manager.
Arguments manager {_}.
Arguments cell {_}.

Abbreviation prog := (eff answer).

(** ** Methods *)

(** [gobreaker.CircuitBreaker.Execute]: a rejected request does not run, and an
    outcome is a success when there is neither an error nor a panic. *)
Definition gb_Execute (p : pointer) (fn : prog outcome) : prog outcome :=
  r ← perform (Allow p);
  match r with
  | inl e => mret (Returned None (Some (Sentinel (rejection_error e))))
  | inr generation =>
    o ← fn;
    _ ← perform (Report p generation (match o with Returned _ None => true | _ => false end));
    mret o
  end.

(** *** A breaker in the hands of a client ([types.go], [passthrough.go]) *)

Inductive CircuitBreaker :=
| NoBreaker                                (* a handle without a breaker *)
| circuitBreaker (breaker : pointer)
| passthroughBreaker.

Definition breaker_Execute (cb : CircuitBreaker) (fn : option (prog outcome)) : prog outcome :=
  match cb, fn with
  | NoBreaker, _ => mret (Returned None (Some (Sentinel ErrNilCircuitBreaker)))
  | _, None => mret (Returned None (Some (Sentinel ErrNilCallback)))
  | circuitBreaker p, Some fn => gb_Execute p fn
  | passthroughBreaker, Some fn => fn
  end.

Definition breaker_State (cb : CircuitBreaker) : prog State :=
  match cb with
  | NoBreaker => mret StateUnknown
  | circuitBreaker p => s ← perform (BreakerState p); mret (convertGobreakerState s)
  | passthroughBreaker => mret StateClosed
  end.

Definition breaker_Counts (cb : CircuitBreaker) : prog Counts :=
  match cb with
  | circuitBreaker p => perform (BreakerCounts p)
  | NoBreaker | passthroughBreaker => mret zero_counts
  end.

(** *** The manager *)

Definition getOrCreate (tenant service : text) (c : Config) (tenantAware : bool) : prog (result error CircuitBreaker) :=
  match validateBreakerIdentity tenant service tenantAware with
  | Err e => mret (Err (identity_fault e))
  | Ok key =>
    slot ← perform (Slot key);
    match slot with
    | Some slot =>
      if negb (same_config (config slot) c) then mret (Err (mismatch tenant service))
      else mret (Ok (circuitBreaker (breaker slot)))
    | None =>
      match Validate c with
      | Some f => mret (Err (Errorf (ConfigFor service (tenantHashLabel tenant)) (Some (config_error f))))
      | None =>
        r ← perform (Create key c);
        mret (match r with Ok p => Ok (circuitBreaker p) | Err e => Err e end)
      end
    end
  end.

Definition execute (tenant service : text) (fn : option (prog outcome)) (tenantAware : bool) : prog outcome :=
  match fn with
  | None => mret (Returned None (Some (Sentinel ErrNilCallback)))
  | Some fn =>
    match validateBreakerIdentity tenant service tenantAware with
    | Err e => mret (Returned None (Some (identity_fault e)))
    | Ok key =>
      slot ← perform (Slot key);
      match slot with
      | None => mret (Returned None (Some (Errorf (NotFound service (tenantHashLabel tenant)) None)))
      | Some slot =>
        o ← gb_Execute (breaker slot) fn;
        match o with
        | Panicked => mret Panicked
        | Returned result (Some err) =>
          if errors_Is err ErrOpenState then
            _ ← perform (Executed slot executionResultRejectedOpen);
            mret (Returned None (Some (Errorf (Unavailable service) (Some err))))
          else if errors_Is err ErrTooManyRequests then
            _ ← perform (Executed slot executionResultRejectedHalfOpen);
            mret (Returned None (Some (Errorf (Recovering service) (Some err))))
          else
            _ ← perform (Executed slot executionResultError);
            mret (Returned result (Some err))
        | Returned result None =>
          _ ← perform (Executed slot executionResultSuccess);
          mret (Returned result None)
        end
      end
    end
  end.

Definition getState (tenant service : text) (tenantAware : bool) : prog State :=
  match validateBreakerIdentity tenant service tenantAware with
  | Err _ => mret StateUnknown
  | Ok key =>
    slot ← perform (Slot key);
    match slot with
    | None => mret StateUnknown
    | Some slot => s ← perform (BreakerState (breaker slot)); mret (convertGobreakerState s)
    end
  end.

Definition getCounts (tenant service : text) (tenantAware : bool) : prog Counts :=
  match validateBreakerIdentity tenant service tenantAware with
  | Err _ => mret zero_counts
  | Ok key =>
    slot ← perform (Slot key);
    match slot with
    | None => mret zero_counts
    | Some slot => perform (BreakerCounts (breaker slot))
    end
  end.

Definition isHealthy (tenant service : text) (tenantAware : bool) : prog bool :=
  state ← getState tenant service tenantAware;
  mret (negb (bool_decide (state = StateOpen)) && negb (bool_decide (state = StateUnknown)))%bool.

Definition reset (tenant service : text) (tenantAware : bool) : prog unit :=
  match validateBreakerIdentity tenant service tenantAware with
  | Err _ => mret tt
  | Ok key => perform (ResetSlot key)
  end.

Definition ResetTenant (tenant : text) : prog unit :=
  match validateTenantID tenant with Some _ => mret tt | None => perform (ResetSlots tenant) end.

Definition RemoveTenant (tenant : text) : prog unit :=
  match validateTenantID tenant with Some _ => mret tt | None => perform (RemoveSlots tenant) end.

Definition Inventory : prog (list breakerMapKey) :=
  held ← perform Slots;
  mret (map (λ s, Key (slot_tenantID s) (slot_serviceName s)) held).

(** [None] is a nil listener. *)
Definition RegisterStateChangeListener (listener : option Z) : prog unit :=
  match listener with None => mret tt | Some l => perform (Listen l) end.

Definition RegisterTenantStateChangeListener (listener : option Z) : prog unit :=
  match listener with None => mret tt | Some l => perform (ListenTenants l) end.

(** ** The interfaces ([types.go]) *)

Record Manager := {
  GetOrCreate : text → Config → prog (result error CircuitBreaker);
  Execute : text → option (prog outcome) → prog outcome;
  GetState : text → prog State;
  GetCounts : text → prog Counts;
  IsHealthy : text → prog bool;
  Reset : text → prog unit;
  Register : option Z → prog unit;          (* RegisterStateChangeListener *)
}.

Record TenantAwareManager := {
  base : Manager;
  GetOrCreateForTenant : text → text → Config → prog (result error CircuitBreaker);
  ExecuteForTenant : text → text → option (prog outcome) → prog outcome;
  GetStateForTenant : text → text → prog State;
  GetCountsForTenant : text → text → prog Counts;
  IsHealthyForTenant : text → text → prog bool;
  ResetForTenant : text → text → prog unit;
  ResetAll : text → prog unit;              (* ResetTenant *)
  RemoveAll : text → prog unit;             (* RemoveTenant *)
  InventoryOf : prog (list breakerMapKey);  (* Inventory *)
  RegisterTenant : option Z → prog unit;    (* RegisterTenantStateChangeListener *)
}.

(** The manager of [NewManager]: its legacy methods work without a tenant. *)
Definition manager_methods : TenantAwareManager := {|
  base := {|
    GetOrCreate service c := getOrCreate [] service c false;
    Execute service fn := execute [] service fn false;
    GetState service := getState [] service false;
    GetCounts service := getCounts [] service false;
    IsHealthy service := isHealthy [] service false;
    Reset service := reset [] service false;
    Register := RegisterStateChangeListener;
  |};
  GetOrCreateForTenant tenant service c := getOrCreate tenant service c true;
  ExecuteForTenant tenant service fn := execute tenant service fn true;
  GetStateForTenant tenant service := getState tenant service true;
  GetCountsForTenant tenant service := getCounts tenant service true;
  IsHealthyForTenant tenant service := isHealthy tenant service true;
  ResetForTenant tenant service := reset tenant service true;
  ResetAll := ResetTenant;
  RemoveAll := RemoveTenant;
  InventoryOf := Inventory;
  RegisterTenant := RegisterTenantStateChangeListener;
|}.

(** ** The kill switch ([passthrough.go]) *)

Definition passthrough_GetOrCreate (tenant service : text) (c : Config) (tenantAware : bool) :
    prog (result error CircuitBreaker) :=
  match validateBreakerIdentity tenant service tenantAware with
  | Err e => mret (Err (identity_fault e))
  | Ok _ =>
    match Validate c with
    | Some f => mret (Err (config_error f))
    | None => mret (Ok passthroughBreaker)
    end
  end.

Definition passthrough_Execute (tenant service : text) (fn : option (prog outcome)) (tenantAware : bool) : prog outcome :=
  match fn with
  | None => mret (Returned None (Some (Sentinel ErrNilCallback)))
  | Some fn =>
    match validateBreakerIdentity tenant service tenantAware with
    | Err e => mret (Returned None (Some (identity_fault e)))
    | Ok _ => fn
    end
  end.

Definition passthrough_GetState (tenant service : text) (tenantAware : bool) : State :=
  match validateBreakerIdentity tenant service tenantAware with Err _ => StateUnknown | Ok _ => StateClosed end.

Definition passthrough_IsHealthy (tenant service : text) (tenantAware : bool) : bool :=
  match validateBreakerIdentity tenant service tenantAware with Err _ => false | Ok _ => true end.

Definition passthroughManager : TenantAwareManager := {|
  base := {|
    GetOrCreate service c := passthrough_GetOrCreate [] service c false;
    Execute service fn := passthrough_Execute [] service fn false;
    GetState service := mret (passthrough_GetState [] service false);
    GetCounts _ := mret zero_counts;
    IsHealthy service := mret (passthrough_IsHealthy [] service false);
    Reset _ := mret tt;
    Register _ := mret tt;
  |};
  GetOrCreateForTenant tenant service c := passthrough_GetOrCreate tenant service c true;
  ExecuteForTenant tenant service fn := passthrough_Execute tenant service fn true;
  GetStateForTenant tenant service := mret (passthrough_GetState tenant service true);
  GetCountsForTenant _ _ := mret zero_counts;
  IsHealthyForTenant tenant service := mret (passthrough_IsHealthy tenant service true);
  ResetForTenant _ _ := mret tt;
  ResetAll _ := mret tt;
  RemoveAll _ := mret tt;
  InventoryOf := mret [];
  RegisterTenant _ := mret tt;
|}.

(** ** Health checks ([healthchecker.go]) *)

Definition HealthCheckFunc : Type := prog (option error).

Record healthChecker := {
  services : gmap text HealthCheckFunc;
  immediateCheck : list text;           (* a channel of ten places *)
  started : bool;
  stopped : bool;
}.

#[export] Instance healthChecker_eta : Eta healthChecker :=
  λ h, Build_healthChecker (services h) (immediateCheck h) (started h) (stopped h).

Inductive checker_error := ErrNilManager | NilLogger | ErrInvalidHealthCheckInterval | ErrInvalidHealthCheckTimeout.

Definition NewHealthCheckerWithValidation (m : option Manager) (interval checkTimeout : duration) (logger : bool) :
    result checker_error healthChecker :=
  if negb (bool_decide (is_Some m)) then Err ErrNilManager
  else if negb logger then Err NilLogger
  else if bool_decide (interval ≤ 0) then Err ErrInvalidHealthCheckInterval
  else if bool_decide (checkTimeout ≤ 0) then Err ErrInvalidHealthCheckTimeout
  else Ok {| services := ∅; immediateCheck := []; started := false; stopped := false |}.

Definition RegisterCheck (service : text) (fn : option HealthCheckFunc) (h : healthChecker) : healthChecker :=
  match fn with None => h | Some fn => h <| services := <[service := fn]> (services h) |> end.

(** [Start]: whether this call starts the loop. *)
Definition Start (h : healthChecker) : bool * healthChecker :=
  if started h then (false, h) else (true, h <| started := true |>).

Definition Stop (h : healthChecker) : healthChecker := h <| stopped := true |>.

Definition immediateCapacity : nat := 10.

(** [healthChecker.OnStateChange] *)
Definition OnStateChange (service : text) (from to : State) (h : healthChecker) : healthChecker :=
  if bool_decide (to = StateOpen) then
    if bool_decide (length (immediateCheck h) < immediateCapacity)%nat
    then h <| immediateCheck := immediateCheck h ++ [service] |> else h
  else h.

Section checker.
Context (m : Manager).

(** One service: [None] when it needed no check, otherwise whether it has
    recovered. *)
Definition check_one (service : text) (fn : HealthCheckFunc) : prog (option bool) :=
  healthy ← IsHealthy m service;
  if (healthy : bool) then mret None
  else
    err ← fn;
    match err with
    | None => _ ← Reset m service; mret (Some true)
    | Some _ => mret (Some false)
    end.

(** [performHealthChecks] over a snapshot of the services, in the order the map
    gives them; the result is what is logged at the end. *)
Fixpoint performHealthChecks (snapshot : list (text * HealthCheckFunc)) (unhealthy recovered : Z) : prog (Z * Z) :=
  match snapshot with
  | [] => mret (unhealthy, recovered)
  | (service, fn) :: rest =>
    r ← check_one service fn;
    match r with
    | None => performHealthChecks rest unhealthy recovered
    | Some true => performHealthChecks rest (unhealthy + 1) (recovered + 1)
    | Some false => performHealthChecks rest (unhealthy + 1) recovered
    end
  end.

Definition checkServiceHealth (h : healthChecker) (service : text) : prog unit :=
  match services h !! service with
  | None => mret tt
  | Some fn => _ ← check_one service fn; mret tt
  end.

Fixpoint status_loop (names : list text) (status : gmap text text) : prog (gmap text text) :=
  match names with
  | [] => mret status
  | service :: rest => s ← GetState m service; status_loop rest (<[service := state_text s]> status)
  end.

Definition GetHealthStatus (h : healthChecker) : prog (gmap text text) := status_loop ((map_to_list (services h)).*1) ∅.

(** What the select of the loop finds; the services as they are then. *)
Inductive signal := Tick (order : list (text * HealthCheckFunc)) | Immediate (h : healthChecker) (service : text) | Cancelled.

Fixpoint healthCheckLoop (signals : list signal) : prog unit :=
  match signals with
  | [] => mret tt
  | Tick order :: rest => _ ← performHealthChecks order 0 0; healthCheckLoop rest
  | Immediate h service :: rest => _ ← checkServiceHealth h service; healthCheckLoop rest
  | Cancelled :: _ => mret tt
  end.
End checker.
