(* ===== verification/CircuitBreakerIsolation.v ===== *)
(** What the users of a circuit breaker manager get together.

    Any number of threads use one manager.  Their commands interleave freely, also
    between the two looks at the map in [getOrCreate], and between the admission of
    a request, the request and the report of its outcome. *)

From stdpp Require Import base numbers list gmap strings.
From Stdlib Require Import SpecFloat.
From S2P Require Import Prelude GoText GoFloat Effects OutboxEvent CircuitBreaker.

Local Open Scope Z_scope.
Local Open Scope go_scope.

Section isolation.
Context `{Gobreaker} `{Labels}.
Implicit Types (m : manager) (k : breakerMapKey) (p : pointer).

(** ** One key of the manager *)

(** [m] and [m'] agree on everything the manager keeps for the key. *)
Record same_key k m m' : Prop := {
  sk_slots : slots m !! k = slots m' !! k;
  sk_made : made m !! k = made m' !! k;
  sk_heap : ∀ n, heap m !! (k, n) = heap m' !! (k, n);
  sk_recorder : metricsRecorder m = metricsRecorder m';
}.

#[local] Instance same_key_equiv k : Equivalence (same_key k).
Proof.
  split.
  - by split.
  - intros m m' []. by split.
  - intros m m' m'' [] []. split; congruence.
Qed.

(** The slot of a key names a breaker of that key, which was made with the
    configuration in the slot; breakers announce their changes for their own key. *)
Record key_ok k m : Prop := {
  ko_slot : ∀ slot, slots m !! k = Some slot →
    Key (slot_tenantID slot) (slot_serviceName slot) = k ∧
    (∃ n c, breaker slot = (k, n) ∧ heap m !! (k, n) = Some c ∧
       made_with c = buildSettings (tenantID k) (serviceName k) (config slot));
  ko_heap : ∀ n c, heap m !! (k, n) = Some c → set_Owner (made_with c) = k ∧ (n < default O (made m !! k))%nat;
}.

Definition manager_ok m : Prop := ∀ k, key_ok k m.

Lemma key_ok_same k m m' : same_key k m m' → key_ok k m → key_ok k m'.
Proof.
  intros [E1 E2 E3 _] [H1 H2]. split.
  - intros slot. rewrite <- E1. intros (Hk & n & c & Hb & Hc & Hw)%H1. rewrite E3 in Hc. split; [done|]. eauto.
  - intros n c. rewrite <- E3, <- E2. apply H2.
Qed.

(** ** Notifications touch no breaker *)

(** The parts of the manager that [same_key] looks at. *)
Definition core m := (slots m, made m, heap m, metricsRecorder m).

Lemma core_same k m m' : core m = core m' → same_key k m m'.
Proof. intros E. injection E as E1 E2 E3 E4. split; congruence. Qed.

Lemma foldl_core {X} (f : manager → X → manager) xs m : (∀ m x, core (f m x) = core m) → core (foldl f m xs) = core m.
Proof. intros Hf. revert m. induction xs as [|x xs IH]; intros m; simpl; [done|]. by rewrite IH. Qed.

Lemma dispatch_core m n : core (dispatchStateChangeListener m n) = core m.
Proof. unfold dispatchStateChangeListener. by case_bool_decide. Qed.

Lemma handleStateChange_core tenant service m change : core (handleStateChange tenant service m change) = core m.
Proof.
  unfold handleStateChange, recordStateTransition. rewrite !foldl_core by apply dispatch_core. by destruct (metricsRecorder m).
Qed.

Lemma recordExecution_core slot result m : core (recordExecution slot result m) = core m.
Proof. unfold recordExecution. by destruct (metricsRecorder m) eqn:E. Qed.

(** ** Operations on one key

    [on_key k f]: [f] works on the key [k] alone, depends on nothing else, and
    keeps it in order. *)
Record on_key {X} k (f : manager → X * manager) : Prop := {
  ok_local : ∀ j m, j ≠ k → key_ok k m → same_key j m (f m).2;
  ok_same : ∀ m m', key_ok k m → same_key k m m' → (f m).1 = (f m').1 ∧ same_key k (f m).2 (f m').2;
  ok_keeps : ∀ m, key_ok k m → key_ok k (f m).2;
}.

Lemma on_key_ok {X} k (f : manager → X * manager) m : on_key k f → manager_ok m → manager_ok (f m).2.
Proof.
  intros [H1 _ H3] Hm j. destruct (decide (j = k)) as [->|Hj]; [by apply H3|]. eapply key_ok_same; [by apply H1, Hm|done].
Qed.

Lemma same_call {X} (p : pointer) (x : X) f m m' : same_key p.1 m m' →
  (breaker_call p x f m).1 = (breaker_call p x f m').1 ∧ same_key p.1 (breaker_call p x f m).2 (breaker_call p x f m').2.
Proof.
  destruct p as [k n]. cbn [fst]. intros Hm. unfold breaker_call. rewrite (sk_heap _ _ _ Hm n).
  destruct (heap m' !! (k, n)) as [c|]; [|done]. destruct (f (content c)) as [[y cs] b]. simpl. split; [done|].
  etrans; [apply core_same, foldl_core, handleStateChange_core|].
  symmetry. etrans; [apply core_same, foldl_core, handleStateChange_core|]. symmetry.
  destruct Hm as [E1 E2 E3 E4]. split; simpl; [done..| |done].
  intros j. destruct (decide (j = n)) as [->|]; [by rewrite !lookup_insert_eq|]. by rewrite !lookup_insert_ne by congruence.
Qed.

Lemma breaker_call_on_key {X} (p : pointer) (x : X) f : on_key p.1 (breaker_call p x f).
Proof.
  destruct p as [k n]. split.
  - intros j m Hj _. cbn [fst] in Hj. unfold breaker_call. destruct (heap m !! (k, n)) as [c|]; [|done].
    destruct (f (content c)) as [[y cs] b]. simpl. symmetry. etrans; [apply core_same, foldl_core, handleStateChange_core|].
    split; simpl; [done..| |done]. intros i. by rewrite lookup_insert_ne by congruence.
  - intros m m' _ Hm. by apply same_call.
  - cbn [fst]. intros m Hm. unfold breaker_call. destruct (heap m !! (k, n)) as [c|] eqn:Hc; [|done].
    destruct (f (content c)) as [[y cs] b]. simpl.
    eapply key_ok_same; [symmetry; apply core_same, foldl_core, handleStateChange_core|].
    destruct Hm as [H1 H2]. split; simpl.
    + intros slot (Hk & i & c' & Hb & Hc' & Hw)%H1. split; [done|]. exists i.
      destruct (decide (i = n)) as [->|]; [|exists c'; by rewrite lookup_insert_ne by congruence].
      eexists. rewrite lookup_insert_eq. split_and!; [done..|]. simpl. by simplify_eq.
    + intros i c'. destruct (decide (i = n)) as [->|]; [|rewrite lookup_insert_ne by congruence; apply H2].
      rewrite lookup_insert_eq. intros [= <-]. simpl. by apply (H2 n).
Qed.

(** A slot of the key with a new breaker. *)
Definition install (t : gotime) k (c : Config) m : pointer * manager :=
  let '(p, m) := NewCircuitBreaker t (buildSettings (tenantID k) (serviceName k) c) m in
  (p, m <| slots := <[k := {| slot_tenantID := tenantID k; slot_serviceName := serviceName k; breaker := p;
          config := c; executionAttrs := buildBreakerMetrics m (tenantID k) (serviceName k) |}]> (slots m) |>).

Lemma set_Owner_buildSettings k c : set_Owner (buildSettings (tenantID k) (serviceName k) c) = k.
Proof. by destruct k. Qed.

Lemma install_on_key t k c : on_key k (install t k c).
Proof.
  split.
  - intros j m Hj _. unfold install, NewCircuitBreaker. rewrite set_Owner_buildSettings. simpl.
    split; simpl; [by rewrite !lookup_insert_ne by congruence..| |done].
    intros n. by rewrite lookup_insert_ne by congruence.
  - intros m m' _ [E1 E2 E3 E4]. unfold install, NewCircuitBreaker. rewrite set_Owner_buildSettings, E2. simpl.
    split; [done|]. split; simpl; [|by rewrite !lookup_insert_eq| |done].
    + rewrite !lookup_insert_eq. unfold buildBreakerMetrics. simpl. by rewrite E4.
    + intros n. destruct (decide (n = default O (made m' !! k))) as [->|]; [by rewrite !lookup_insert_eq|].
      by rewrite !lookup_insert_ne by congruence.
  - intros m [H1 H2]. unfold install, NewCircuitBreaker. rewrite set_Owner_buildSettings. simpl.
    set (n := default O (made m !! k)). split; simpl.
    + intros s. rewrite lookup_insert_eq. intros [= <-]. simpl. split; [by destruct k|].
      exists n. eexists. rewrite lookup_insert_eq. done.
    + intros i c0. rewrite lookup_insert_eq. simpl. destruct (decide (i = n)) as [->|].
      * rewrite lookup_insert_eq. intros [= <-]. simpl. split; [by destruct k|]. lia.
      * rewrite lookup_insert_ne by congruence. intros (? & Hi)%H2. split; [done|]. fold n in Hi. lia.
Qed.

Lemma create_install t k c m : create_locked t k c m =
  match slots m !! k with
  | Some slot => (if same_config (config slot) c then Ok (breaker slot) else Err (mismatch (tenantID k) (serviceName k)), m)
  | None => (Ok (install t k c m).1, (install t k c m).2)
  end.
Proof. unfold create_locked. destruct (slots m !! k) as [slot|]; [by destruct (same_config _ _)|]. by destruct k. Qed.

Lemma create_on_key t k c : on_key k (create_locked t k c).
Proof.
  destruct (install_on_key t k c) as [H1 H2 H3]. split.
  - intros j m Hj Hk. rewrite create_install. destruct (slots m !! k); [done|by apply H1].
  - intros m m' Hk Hm. rewrite !create_install, (sk_slots _ _ _ Hm). destruct (slots m' !! k); [done|].
    destruct (H2 m m' Hk Hm) as [E1 E2]. split; [|done]. cbn [fst]. by rewrite E1.
  - intros m Hk. rewrite create_install. destruct (slots m !! k); [done|]. by apply H3.
Qed.

Lemma recreate_install t k slot m : Key (slot_tenantID slot) (slot_serviceName slot) = k →
  recreate t k k slot m = (install t k (config slot) m).2.
Proof. by intros <-. Qed.

Lemma reset_install t k m : key_ok k m →
  reset_locked t k m = match slots m !! k with Some slot => (install t k (config slot) m).2 | None => m end.
Proof.
  intros [Hs _]. unfold reset_locked. destruct (slots m !! k) as [slot|] eqn:E; [|done].
  apply recreate_install. by apply Hs.
Qed.

Lemma reset_on_key t k : on_key k (λ m, (tt, reset_locked t k m)).
Proof.
  split; simpl.
  - intros j m Hj Hk. rewrite reset_install by done. destruct (slots m !! k); [|done]. by apply install_on_key.
  - intros m m' Hk Hm. rewrite !reset_install by (eauto using key_ok_same). rewrite (sk_slots _ _ _ Hm).
    destruct (slots m' !! k) as [slot|]; [|done]. split; [done|]. by apply (install_on_key t k (config slot)).
  - intros m Hk. rewrite reset_install by done. destruct (slots m !! k); [|done]. by apply install_on_key.
Qed.

(** ** Operations on all the keys of a tenant *)

(** [resetTenant_locked] does to every key of the tenant what [reset_locked] does
    to it. *)
Lemma reset_loop_at t tenant l m j :
  NoDup l.*1 → (∀ ks, ks ∈ l → Key (slot_tenantID ks.2) (slot_serviceName ks.2) = ks.1) → manager_ok m →
  same_key j
    match list_find (λ ks, ks.1 = j) l with
    | Some (_, ks) => if of_tenant tenant j then (install t j (config ks.2) m).2 else m
    | None => m
    end
    (foldl (λ m ks, if negb (of_tenant tenant ks.1) then m
                    else recreate t (Key (slot_tenantID ks.2) (slot_serviceName ks.2)) ks.1 ks.2 m) m l).
Proof.
  revert m. induction l as [|[k slot] l IH]; intros m Hnd Hk Hm; [done|]. cbn [fmap list_fmap fst] in Hnd.
  apply NoDup_cons in Hnd as [Hni Hnd]. pose proof (Hk (k, slot) ltac:(by left)) as Hks. cbn [fst snd] in Hks.
  assert (Hl : ∀ ks, ks ∈ l → Key (slot_tenantID ks.2) (slot_serviceName ks.2) = ks.1) by (intros; apply Hk; by right).
  assert (Hin : ∀ m, manager_ok m → manager_ok (install t k (config slot) m).2) 
    by (intros; by apply (on_key_ok k (install t k (config slot)) _ (install_on_key t k (config slot)))).
  cbn [foldl fst snd]. rewrite Hks.
  assert (Hj : k = j → list_find (λ ks : breakerMapKey * breakerSlot, ks.1 = j) l = None).
  { intros <-. apply list_find_None. apply Forall_forall. intros ks Hin' E. apply Hni. rewrite <- E. by apply list_elem_of_fmap_2. }
  rewrite recreate_install by done. cbn [list_find fst].
  destruct (decide (k = j)) as [->|Hne].
  - cbn [snd]. destruct (of_tenant tenant j); cbn [negb].
    + etrans; [|apply IH; [done..|by apply Hin]]. by rewrite Hj.
    + etrans; [|by apply IH]. by rewrite Hj.
  - destruct (of_tenant tenant k) eqn:Ht; cbn [negb].
    + etrans; [|apply IH; [done..|by apply Hin]].
      pose proof (ok_local _ _ (install_on_key t k (config slot)) j m ltac:(done) (Hm k)) as Hjm.
      destruct (list_find _ l) as [[i ks]|]; cbn [fst snd fmap option_fmap option_map prod_map]; [|done].
      destruct (of_tenant tenant j); [|done]. apply (install_on_key t j (config ks.2)); [apply Hm|done].
    + etrans; [|by apply IH]. by destruct (list_find _ l) as [[i ks]|].
Qed.

Lemma resetTenant_at t tenant m j : manager_ok m →
  same_key j (if of_tenant tenant j then reset_locked t j m else m) (resetTenant_locked t tenant m).
Proof.
  intros Hm. unfold resetTenant_locked.
  etrans; [|apply reset_loop_at; [apply NoDup_fst_map_to_list| |done]].
  - rewrite reset_install by done. destruct (list_find _ _) as [[i [k slot]]|] eqn:E; cbn [snd].
    + apply list_find_Some in E as (Hl & E & _). cbn [fst] in E. subst k.
      apply list_elem_of_lookup_2, elem_of_map_to_list in Hl. by rewrite Hl.
    + apply list_find_None in E. destruct (slots m !! j) as [slot|] eqn:Hs; [|by destruct (of_tenant tenant j)].
      apply elem_of_map_to_list in Hs. rewrite Forall_forall in E. by destruct (E _ Hs).
  - intros [k slot] Hin%elem_of_map_to_list. by apply (ko_slot _ _ (Hm k)).
Qed.

Definition drop_key k m : manager := m <| slots := delete k (slots m) |>.

Lemma drop_on_key k : on_key k (λ m, (tt, drop_key k m)).
Proof.
  split; simpl.
  - intros j m Hj _. split; simpl; [by rewrite lookup_delete_ne by done|done..].
  - intros m m' _ [E1 E2 E3 E4]. split; [done|]. split; simpl; [by rewrite !lookup_delete_eq|done..].
  - intros m [_ H2]. split; simpl; [|done]. intros slot. by rewrite lookup_delete_eq.
Qed.

Lemma remove_loop_at tenant l m j :
  same_key j (if (of_tenant tenant j && bool_decide (j ∈ l))%bool then drop_key j m else m)
    (foldl (λ m k, if negb (of_tenant tenant k) then m else m <| slots := delete k (slots m) |>) m l).
Proof.
  revert m. induction l as [|k l IH]; intros m; cbn [foldl]; [by rewrite andb_false_r|].
  etrans; [|apply IH]. destruct (of_tenant tenant j) eqn:Hj; cbn [andb].
  - destruct (of_tenant tenant k) eqn:Hk; cbn [negb].
    + destruct (decide (j = k)) as [->|Hne]; [rewrite bool_decide_true by (by left)|rewrite (bool_decide_ext _ (j ∈ l)) by set_solver];
        case_bool_decide; split; simpl; rewrite ?lookup_delete_eq; try done.
      all: by rewrite lookup_delete_ne by done.
    + assert (j ≠ k) by (intros ->; congruence). by rewrite (bool_decide_ext _ (j ∈ l)) by set_solver.
  - destruct (of_tenant tenant k) eqn:Hk; cbn [negb]; [|done]. assert (k ≠ j) by (intros ->; congruence).
    split; simpl; [by rewrite lookup_delete_ne by done|done..].
Qed.

Lemma removeTenant_at tenant m j :
  same_key j (if of_tenant tenant j then drop_key j m else m) (removeTenant_locked tenant m).
Proof.
  etrans; [|apply remove_loop_at]. destruct (of_tenant tenant j); cbn [andb]; [|done].
  case_bool_decide as Hj; [done|]. split; simpl; [|done..]. rewrite lookup_delete_eq. symmetry.
  destruct (slots m !! j) as [slot|] eqn:Hs; [|done]. destruct Hj. apply list_elem_of_fmap. exists (j, slot).
  split; [done|]. by apply elem_of_map_to_list.
Qed.

(** ** Commands *)

Definition touches (tenant : text) (c : cmd) : bool :=
  match c with
  | Slot key | Create key _ | ResetSlot key => of_tenant tenant key
  | ResetSlots tenant' | RemoveSlots tenant' => bool_decide (tenant' = tenant)
  | Allow p | Report p _ _ | BreakerState p | BreakerCounts p => of_tenant tenant p.1
  | Slots => true
  | Listen _ | ListenTenants _ | Notified _ | Executed _ _ | External _ => false
  end.

(** The commands of a thread that works for [tenant], and of the threads that
    work for others. *)
Definition of_own (tenant : text) (c : cmd) : Prop :=
  match c with
  | Listen _ | ListenTenants _ | Notified _ | Executed _ _ | External _ => True
  | Slots => False
  | _ => touches tenant c = true
  end.

(** What the answers say: slots name breakers of their own key. *)
Definition answers_ok (e : event answer) : Prop :=
  match e with
  | Ev (Slot key) (Some slot) => (breaker slot).1 = key
  | Ev (Create key _) (Ok p) => p.1 = key
  | _ => True
  end.

Definition same_tenant (tenant : text) m m' : Prop := ∀ k, tenantID k = tenant → same_key k m m'.

#[local] Instance same_tenant_equiv tenant : Equivalence (same_tenant tenant).
Proof.
  split.
  - by intros m k _.
  - intros m m' E k Hk. symmetry. by apply E.
  - intros m m' m'' E E' k Hk. etrans; [by apply E|by apply E'].
Qed.

Lemma of_tenant_true tenant k : of_tenant tenant k = true ↔ tenantID k = tenant.
Proof. apply bool_decide_eq_true. Qed.

Lemma reset_all_at t tenant m k : manager_ok m → tenantID k = tenant →
  same_key k (reset_locked t k m) (resetTenant_locked t tenant m).
Proof. intros Hm Hk. pose proof (resetTenant_at t tenant m k Hm) as E. by rewrite (proj2 (of_tenant_true tenant k) Hk) in E. Qed.

Lemma remove_all_at tenant m k : tenantID k = tenant → same_key k (drop_key k m) (removeTenant_locked tenant m).
Proof. intros Hk. pose proof (removeTenant_at tenant m k) as E. by rewrite (proj2 (of_tenant_true tenant k) Hk) in E. Qed.

(** The key a command works on, if it is one. *)
Definition key_of (c : cmd) : option breakerMapKey :=
  match c with
  | Slot key | Create key _ | ResetSlot key => Some key
  | Allow p | Report p _ _ | BreakerState p | BreakerCounts p => Some p.1
  | _ => None
  end.

Lemma slot_on_key k : on_key k (λ m, (slots m !! k, m)).
Proof. split; simpl; [done| |done]. intros m m' _ Hm. split; [apply Hm|done]. Qed.

Lemma exec_on_key l c k : key_of c = Some k → on_key k (exec l c).
Proof.
  destruct c; try discriminate; intros [= <-];
    [apply slot_on_key|apply create_on_key|apply reset_on_key|apply (breaker_call_on_key p)..].
Qed.

Lemma exec_answers l c m : manager_ok m → answers_ok (Ev c (exec l c m).1).
Proof.
  intros Hm. destruct c as [key|key c| | | | | | | | | | | | |]; cbn [exec answers_ok fst]; try done.
  - destruct (slots m !! key) as [slot|] eqn:E; [|done]. destruct (ko_slot _ _ (Hm key) _ E) as (_ & n & c & -> & _). done.
  - rewrite create_install. destruct (slots m !! key) as [slot|] eqn:E; cbn [fst].
    + destruct (ko_slot _ _ (Hm key) _ E) as (_ & n & c' & -> & _). by destruct (same_config _ _).
    + unfold install, NewCircuitBreaker. by rewrite set_Owner_buildSettings.
Qed.

(** Commands without a key leave the breakers alone, or work on a whole tenant. *)
Lemma exec_no_key l c : key_of c = None →
  (∀ m, core (exec l c m).2 = core m) ∨ (∃ tenant, c = ResetSlots tenant ∨ c = RemoveSlots tenant).
Proof.
  destruct c as [| | | | | | | | | | | | |slot result|]; try discriminate; intros _; cbn [exec snd];
    first [by right; eauto|by left|left]. apply recordExecution_core.
Qed.

Lemma exec_keeps_ok l c m : manager_ok m → manager_ok (exec l c m).2.
Proof.
  intros Hm. destruct (key_of c) as [k|] eqn:Hk; [by apply (on_key_ok k), Hm; apply exec_on_key|].
  destruct (exec_no_key l c Hk) as [Hc|(tenant & [-> | ->])]; intros j.
  - eapply key_ok_same; [symmetry; exact (core_same _ _ _ (Hc m))|apply Hm].
  - cbn [exec snd]. eapply key_ok_same; [by apply resetTenant_at|]. destruct (of_tenant tenant j); [|apply Hm].
    apply (ok_keeps _ _ (reset_on_key (now l) j)), Hm.
  - cbn [exec snd]. eapply key_ok_same; [by apply removeTenant_at|]. destruct (of_tenant tenant j); [|apply Hm].
    apply (ok_keeps _ _ (drop_on_key j)), Hm.
Qed.

Lemma touches_key tenant c k : key_of c = Some k → touches tenant c = of_tenant tenant k.
Proof. destruct c; by intros [= <-]. Qed.

(** What a thread does for its tenant depends on the keys of the tenant only. *)
Lemma exec_own tenant l c m m' : of_own tenant c → manager_ok m → manager_ok m' → same_tenant tenant m m' →
  (exec l c m).1 = (exec l c m').1 ∧ same_tenant tenant (exec l c m).2 (exec l c m').2.
Proof.
  intros Hc Hm Hm' E. destruct (key_of c) as [k|] eqn:Hk.
  - assert (Ht : tenantID k = tenant).
    { apply of_tenant_true. rewrite <- (touches_key _ _ _ Hk). by destruct c. }
    pose proof (exec_on_key l c k Hk) as Hon. destruct (ok_same _ _ Hon m m' (Hm k) (E k Ht)) as [E1 E2].
    split; [done|]. intros j Hj. destruct (decide (j = k)) as [->|Hne]; [done|].
    etrans; [symmetry; by apply (ok_local _ _ Hon), Hm|]. etrans; [by apply E|]. by apply (ok_local _ _ Hon), Hm'.
  - destruct (exec_no_key l c Hk) as [Hcm|(tenant' & Ht)].
    + split; [by destruct c|]. intros j Hj. rewrite (core_same j _ _ (Hcm m)), (core_same j _ _ (Hcm m')). by apply E.
    + destruct Ht as [-> | ->]; apply bool_decide_eq_true in Hc as ->; (split; [done|]); intros j Hj; cbn [exec snd].
      * etrans; [symmetry; by apply reset_all_at|]. etrans; [|by apply reset_all_at].
        apply (ok_same _ _ (reset_on_key (now l) j)); [apply Hm|by apply E].
      * etrans; [symmetry; by apply remove_all_at|]. etrans; [|by apply remove_all_at].
        apply (ok_same _ _ (drop_on_key j)); [apply Hm|by apply E].
Qed.

(** What a thread does for another tenant leaves them alone. *)
Lemma exec_foreign tenant l c m : (∃ tenant', tenant' ≠ tenant ∧ of_own tenant' c) → manager_ok m →
  same_tenant tenant m (exec l c m).2.
Proof.
  intros (tenant' & Hne & Hc) Hm j Hj. destruct (key_of c) as [k|] eqn:Hk.
  - assert (Ht : tenantID k = tenant').
    { apply of_tenant_true. rewrite <- (touches_key _ _ _ Hk). by destruct c. }
    apply (ok_local _ _ (exec_on_key l c k Hk)); [congruence|apply Hm].
  - assert (Hno : of_tenant tenant' j = false) by (apply bool_decide_eq_false; congruence).
    destruct (exec_no_key l c Hk) as [Hcm|(t & [-> | ->])]; [symmetry; exact (core_same _ _ _ (Hcm m))|..];
      apply bool_decide_eq_true in Hc as ->; cbn [exec snd].
    + pose proof (resetTenant_at (now l) tenant' m j Hm) as E. by rewrite Hno in E.
    + pose proof (removeTenant_at tenant' m j) as E. by rewrite Hno in E.
Qed.

(** ** Clients *)

(** The programs that use the manager for one tenant ([[]] is the scope without
    tenant), with what is known of their results: a breaker handed to the client is
    one of its tenant. *)
Inductive client (tenant : text) : ∀ {A}, (A → Prop) → prog A → Prop :=
| client_ret {A} (a : A) (Φ : A → Prop) : Φ a → client tenant Φ (mret a)
| client_bind {A B} Φ (Ψ : B → Prop) (p : prog A) f :
    client tenant Φ p → (∀ a, Φ a → client tenant Ψ (f a)) → client tenant Ψ (p ≫= f)
| client_external id : client tenant (λ _, True) (perform (External id))
| client_getOrCreate service c aware :
    client tenant (λ r, ∀ p, r = Ok (circuitBreaker p) → tenantID p.1 = tenant) (getOrCreate tenant service c aware)
| client_execute service fn aware :
    (∀ q, fn = Some q → client tenant (λ _, True) q) → client tenant (λ _, True) (execute tenant service fn aware)
| client_getState service aware : client tenant (λ _, True) (getState tenant service aware)
| client_getCounts service aware : client tenant (λ _, True) (getCounts tenant service aware)
| client_isHealthy service aware : client tenant (λ _, True) (isHealthy tenant service aware)
| client_reset service aware : client tenant (λ _, True) (reset tenant service aware)
| client_ResetTenant : client tenant (λ _, True) (ResetTenant tenant)
| client_RemoveTenant : client tenant (λ _, True) (RemoveTenant tenant)
| client_Listener listener : client tenant (λ _, True) (RegisterStateChangeListener listener)
| client_TenantListener listener : client tenant (λ _, True) (RegisterTenantStateChangeListener listener)
| client_breaker_Execute cb fn :
    (∀ p, cb = circuitBreaker p → tenantID p.1 = tenant) → (∀ q, fn = Some q → client tenant (λ _, True) q) →
    client tenant (λ _, True) (breaker_Execute cb fn)
| client_breaker_State cb :
    (∀ p, cb = circuitBreaker p → tenantID p.1 = tenant) → client tenant (λ _, True) (breaker_State cb)
| client_breaker_Counts cb :
    (∀ p, cb = circuitBreaker p → tenantID p.1 = tenant) → client tenant (λ _, True) (breaker_Counts cb).

Abbreviation stays tenant := (confined answers_ok (of_own tenant)).

Lemma identity_key tenant service aware k : validateBreakerIdentity tenant service aware = Ok k → tenantID k = tenant.
Proof.
  unfold validateBreakerIdentity. destruct (validateServiceName service); [done|].
  destruct (if aware then _ else _); [done|]. by intros [= <-].
Qed.

Lemma stays_slot tenant k (Φ : option breakerSlot → Prop) :
  tenantID k = tenant → Φ None → (∀ slot, (breaker slot).1 = k → Φ (Some slot)) → stays tenant (perform (Slot k)) Φ.
Proof.
  intros Hk Hn Hs. apply confined_perform; [by apply of_tenant_true|]. intros [slot|] Ha; [|done]. by apply Hs.
Qed.

Lemma stays_do tenant c : of_own tenant c → stays tenant (perform c) (λ _, True).
Proof. intros Hc. by apply confined_perform. Qed.

Lemma stays_bind {A B} tenant (q : prog A) (f : A → prog B) Φ Ψ :
  stays tenant q Φ → (∀ a, Φ a → stays tenant (f a) Ψ) → stays tenant (q ≫= f) Ψ.
Proof. apply confined_bind. Qed.

Lemma stays_gb_Execute tenant p fn :
  tenantID p.1 = tenant → stays tenant fn (λ _, True) → stays tenant (gb_Execute p fn) (λ _, True).
Proof.
  intros Hp Hf. eapply stays_bind; [by apply stays_do, of_tenant_true|].
  intros [e|g] _; [done|]. eapply stays_bind; [exact Hf|]. intros o _.
  eapply stays_bind; [by apply stays_do, of_tenant_true|done].
Qed.

Ltac stays_key := let Hk := fresh in
  lazymatch goal with |- context [validateBreakerIdentity ?t ?s ?a] =>
    destruct (validateBreakerIdentity t s a) as [?|?] eqn:Hk; [|by apply confined_ret]; apply identity_key in Hk end.

Lemma stays_getOrCreate tenant service c aware :
  stays tenant (getOrCreate tenant service c aware) (λ r, ∀ p, r = Ok (circuitBreaker p) → tenantID p.1 = tenant).
Proof.
  unfold getOrCreate. stays_key. eapply stays_bind;
    [apply (stays_slot tenant a (λ o, ∀ slot, o = Some slot → tenantID (breaker slot).1 = tenant)); [done|done|]|].
  { intros slot Hs ? [= <-]. congruence. }
  intros [slot|] Hs.
  - destruct (negb _); apply confined_ret; [done|]. intros p [= <-]. by apply Hs.
  - destruct (Validate c); [by apply confined_ret|]. eapply stays_bind.
    + apply (confined_perform _ _ (Create a c) (λ r, ∀ p, r = Ok p → tenantID p.1 = tenant)); [by apply of_tenant_true|].
      intros r Hr p ->. cbn in Hr. congruence.
    + intros [p|e] Hp; apply confined_ret; [|done]. intros ? [= <-]. by apply Hp.
Qed.

(** A look at the slot of an own key, then a program that uses it. *)
Lemma stays_with_slot {A} tenant k (f : option breakerSlot → prog A) Φ : tenantID k = tenant →
  (∀ o, (∀ slot, o = Some slot → tenantID (breaker slot).1 = tenant) → stays tenant (f o) Φ) →
  stays tenant (perform (Slot k) ≫= f) Φ.
Proof.
  intros Hk Hf. eapply stays_bind; [|exact Hf]. apply stays_slot; [done|done|]. intros slot Hs ? [= <-]. congruence.
Qed.

Lemma stays_execute tenant service fn aware :
  (∀ q, fn = Some q → stays tenant q (λ _, True)) → stays tenant (execute tenant service fn aware) (λ _, True).
Proof.
  intros Hf. unfold execute. destruct fn as [fn|]; [|done]. stays_key. apply stays_with_slot; [done|].
  intros [slot|] Hs; [|done]. eapply stays_bind; [apply stays_gb_Execute; auto|]. intros [v [err|]|] _; [|by eapply stays_bind; [apply stays_do|]|done].
  repeat split_match; (eapply stays_bind; [by apply stays_do|done]).
Qed.

Lemma stays_getState tenant service aware : stays tenant (getState tenant service aware) (λ _, True).
Proof.
  unfold getState. stays_key. apply stays_with_slot; [done|]. intros [slot|] Hs; [|done].
  eapply stays_bind; [apply stays_do, of_tenant_true; auto|done].
Qed.

Lemma client_stays tenant {A} (Φ : A → Prop) (q : prog A) : client tenant Φ q → stays tenant q Φ.
Proof.
  induction 1.
  - by apply confined_ret.
  - by eapply stays_bind.
  - by apply stays_do.
  - apply stays_getOrCreate.
  - by apply stays_execute.
  - apply stays_getState.
  - unfold getCounts. stays_key. apply stays_with_slot; [done|]. intros [slot|] Hs; [|done]. apply stays_do, of_tenant_true; auto.
  - unfold isHealthy. eapply stays_bind; [apply stays_getState|done].
  - unfold reset. stays_key. by apply stays_do, of_tenant_true.
  - unfold ResetTenant. destruct (validateTenantID tenant); [done|]. by apply stays_do, bool_decide_eq_true.
  - unfold RemoveTenant. destruct (validateTenantID tenant); [done|]. by apply stays_do, bool_decide_eq_true.
  - destruct listener; [by apply stays_do|done].
  - destruct listener; [by apply stays_do|done].
  - unfold breaker_Execute. destruct cb, fn; try done; [|by auto]. apply stays_gb_Execute; auto.
  - destruct cb; try done. eapply stays_bind; [apply stays_do, of_tenant_true; auto|done].
  - destruct cb; try done. apply stays_do, of_tenant_true; auto.
Qed.

(** The health checker of the manager is a client without tenant. *)
Lemma client_check_one service fn : client [] (λ _, True) fn → client [] (λ _, True) (check_one (base manager_methods) service fn).
Proof.
  intros Hf. eapply client_bind; [apply client_isHealthy|]. intros [] _; [by apply client_ret|].
  eapply client_bind; [exact Hf|]. intros [err|] _; [by apply client_ret|].
  eapply client_bind; [apply client_reset|]. intros _ _. by apply client_ret.
Qed.

Lemma client_performHealthChecks order u r : Forall (λ sf, client [] (λ _, True) sf.2) order →
  client [] (λ _, True) (performHealthChecks (base manager_methods) order u r).
Proof.
  intros Ho. revert u r. induction Ho as [|[service fn] order Hf _ IH]; intros u r; [by apply client_ret|].
  eapply client_bind; [by apply client_check_one|]. intros [[]|] _; apply IH.
Qed.

(** ** Tenants do not meet *)

Lemma new_manager_ok opts m : NewManager true ((λ r, Some (WithMetricsRecorder r)) <$> opts) = Ok m → manager_ok m.
Proof.
  intros E. apply Ok_inj in E as <-.
  enough (∀ m, manager_ok m → manager_ok (foldl (λ m o, match o with Some f => f m | None => m end) m
    ((λ r, Some (WithMetricsRecorder r)) <$> opts))) as Hf by (apply Hf; intros k; by split).
  induction opts as [|r opts IH]; intros m Hm; [done|]. apply IH. intros k. destruct (Hm k) as [H1 H2]. by split.
Qed.

Definition works_for (tenants : list text) (tenant : text) (i : nat) : bool := bool_decide (tenants !! i = Some tenant).

Lemma start_apart {A} tenant tenants (ps : list (prog A)) m :
  Forall2 (λ t q, client t (λ _, True) q) tenants ps → manager_ok m →
  apart_ok manager_ok answers_ok (works_for tenants tenant) (of_own tenant)
    (λ c, ∃ t, t ≠ tenant ∧ of_own t c) (start m ps).
Proof.
  intros Hc Hm. split; [done|]. intros i t Ht. simpl in Ht. rewrite list_lookup_fmap in Ht.
  destruct (ps !! i) as [q|] eqn:Hq; [|done]. simpl in Ht. injection Ht as <-. simpl.
  destruct (Forall2_lookup_r _ _ _ _ _ Hc Hq) as (t & Ht & Hcl). apply client_stays in Hcl.
  unfold side, works_for. rewrite Ht. case_bool_decide as Hd.
  - simplify_eq. done.
  - eapply confined_weaken; [|done|exact Hcl]. intros c Ho. exists t. split; [congruence|done].
Qed.

(** C25: Tenants do not interfere.  Whatever the threads of other tenants do in
    between, a thread that works for one tenant sees every answer it would have seen
    had the other tenants never made a step: whether its requests are admitted, the
    states and counters it reads, the breakers it is given.  Neither an outage nor a
    reset or removal of another tenant's breakers shows. *)
Theorem tenants_do_not_interfere {A} tenant (tenants : list text) (ps : list (prog A)) opts m ls :
  NewManager true ((λ r, Some (WithMetricsRecorder r)) <$> opts) = Ok m →
  Forall2 (λ t q, client t (λ _, True) q) tenants ps →
  let w := interleave exec (start m ps) ls in
  let alone := interleave exec (start m ps) (filter (λ il, works_for tenants tenant il.1) ls) in
  ∀ i, tenants !! i = Some tenant → w_threads w !! i = w_threads alone !! i.
Proof.
  intros Hm Hc w alone i Hi. apply new_manager_ok in Hm. pose proof (start_apart tenant tenants ps m Hc Hm) as Hs.
  eapply (interleave_alike exec manager_ok answers_ok (same_tenant tenant) (works_for tenants tenant)).
  - apply same_tenant_equiv.
  - intros. by apply exec_keeps_ok.
  - intros. by apply exec_answers.
  - intros l c s s'. apply exec_own.
  - intros l c s. apply exec_foreign.
  - exact Hs.
  - exact Hs.
  - done.
  - by apply bool_decide_eq_true.
Qed.

(** ** One breaker per key *)

(** [getOrCreate] in one piece. *)
Definition registry (t : gotime) k (c : Config) m : result error pointer * manager :=
  match slots m !! k with
  | Some slot => (if same_config (config slot) c then Ok (breaker slot) else Err (mismatch (tenantID k) (serviceName k)), m)
  | None =>
    match Validate c with
    | Some f => (Err (Errorf (ConfigFor (serviceName k) (tenantHashLabel (tenantID k))) (Some (config_error f))), m)
    | None => ((Ok (install t k c m).1), (install t k c m).2)
    end
  end.

Definition handle (r : result error pointer) : result error CircuitBreaker :=
  match r with Ok p => Ok (circuitBreaker p) | Err e => Err e end.

(** How often thread [i] has moved. *)
Definition moves (i : nat) (ls : list (nat * surroundings)) : nat := length (filter (λ il, il.1 = i) ls).

Lemma moves_snoc i ls j l : moves i (ls ++ [(j, l)]) = (moves i ls + if decide (j = i) then 1 else 0)%nat.
Proof. unfold moves. rewrite filter_app, length_app, filter_cons. cbn [fst]. by destruct (decide (j = i)). Qed.

Lemma interleave_snoc {A} (w : world answer manager A) ls il : interleave exec w (ls ++ [il]) = step exec (interleave exec w ls) il.
Proof. unfold interleave. by rewrite foldl_app. Qed.

Lemma step_at {A} (w : world answer manager A) i l t c f : w_threads w !! i = Some t → th_rest t = Do c f →
  w_state (step exec w (i, l)) = (exec l c (w_state w)).2 ∧
  w_threads (step exec w (i, l)) !! i = Some {| th_trace := th_trace t ++ [Ev c (exec l c (w_state w)).1]; th_rest := f (exec l c (w_state w)).1 |}.
Proof.
  intros Ht Hr. unfold step, advance. cbn [fst snd]. rewrite Ht, Hr. destruct (exec l c (w_state w)) as [x s].
  split; [done|]. cbn [w_threads]. by rewrite list_lookup_insert_eq by (by eapply lookup_lt_Some).
Qed.

Lemma step_elsewhere {A} (w : world answer manager A) i j l : j ≠ i → w_threads (step exec w (j, l)) !! i = w_threads w !! i.
Proof.
  intros Hj. unfold step. cbn [fst snd]. destruct (w_threads w !! j) as [t|]; [|done].
  destruct (advance exec l t (w_state w)). cbn [w_threads]. by rewrite list_lookup_insert_ne.
Qed.

Section once.
Context {A : Type} (g : result error CircuitBreaker → A) (tenant service : text) (c : Config) (aware : bool).
Context (m : manager) (ps : list (prog A)) (i : nat) (k : breakerMapKey).
Context (Hk : validateBreakerIdentity tenant service aware = Ok k).
Context (Hp : ps !! i = Some (g <$> getOrCreate tenant service c aware)).

Definition at_step (ls : list (nat * surroundings)) : manager := w_state (interleave exec (start m ps) ls).

(** The call took effect in the step after [ls1]. *)
Definition took_effect (ls : list (nat * surroundings)) (a : A) : Prop :=
  ∃ ls1 l ls2, ls = ls1 ++ (i, l) :: ls2 ∧
    a = g (handle (registry (now l) k c (at_step ls1)).1) ∧
    at_step (ls1 ++ [(i, l)]) = (registry (now l) k c (at_step ls1)).2.

Lemma took_effect_later ls il a : took_effect ls a → took_effect (ls ++ [il]) a.
Proof.
  intros (ls1 & l & ls2 & -> & Ha & Hs). exists ls1, l, (ls2 ++ [il]). by rewrite <- app_assoc.
Qed.

Lemma key_parts : tenantID k = tenant ∧ serviceName k = service.
Proof using Hk.
  clear Hp. revert Hk. unfold validateBreakerIdentity. destruct (validateServiceName service); [done|].
  destruct (if aware then _ else _); [done|]. by intros [= <-].
Qed.

Lemma getOrCreate_phases ls :
  ∃ t, w_threads (interleave exec (start m ps) ls) !! i = Some t ∧
    ((moves i ls = 0%nat ∧ th_rest t = g <$> getOrCreate tenant service c aware) ∨
     (moves i ls = 1%nat ∧ Validate c = None ∧ th_rest t = Do (Create k c) (λ r, Done (g (handle r)))) ∨
     (∃ a, th_rest t = Done a ∧ took_effect ls a)).
Proof using Hk Hp.
  destruct key_parts as [Et Es]. induction ls as [|[j l] ls IH] using rev_ind.
  { eexists. split; [simpl; rewrite list_lookup_fmap, Hp; done|]. by left. }
  destruct IH as (t & Ht & HI). rewrite interleave_snoc, moves_snoc. destruct (decide (j = i)) as [->|Hj].
  2: { exists t. rewrite step_elsewhere by done. split; [done|]. rewrite Nat.add_0_r.
       destruct HI as [?|[?|(a & Ha & He)]]; auto. right. right. exists a. split; [done|]. by apply took_effect_later. }
  destruct HI as [[Hn Hr]|[(Hn & Hv & Hr)|(a & Ha & He)]].
  - unfold getOrCreate in Hr. rewrite Hk in Hr. destruct (step_at _ i l t _ _ Ht Hr) as [Hs Ht']. cbn [exec fst snd] in Hs, Ht'.
    fold (at_step ls) in Hs, Ht'. eexists. split; [exact Ht'|]. cbn [th_rest].
    assert (Hreg : ∀ a, a = g (handle (registry (now l) k c (at_step ls)).1) → at_step ls = (registry (now l) k c (at_step ls)).2 →
      took_effect (ls ++ [(i, l)]) a).
    { intros a Ha Hs'. exists ls, l, []. split; [done|]. split; [done|]. unfold at_step at 1. by rewrite interleave_snoc, Hs. }
    destruct (slots (at_step ls) !! k) as [slot|] eqn:Hsl.
    + right. right. unfold registry in Hreg. rewrite Hsl in Hreg. destruct (same_config (config slot) c); simpl;
        eexists; (split; [done|]); apply Hreg; try done. simpl. by rewrite Et, Es.
    + destruct (Validate c) as [f|] eqn:Hv.
      * right. right. simpl. eexists. split; [done|]. apply Hreg; unfold registry; rewrite Hsl, Hv; [|done]. simpl. by rewrite Et, Es.
      * right. left. split; [lia|]. split; [done|]. done.
  - destruct (step_at _ i l t _ _ Ht Hr) as [Hs Ht']. eexists. split; [exact Ht'|]. right. right. cbn [th_rest].
    eexists. split; [done|]. exists ls, l, []. split; [done|]. unfold at_step at 2. rewrite interleave_snoc.
    fold (at_step ls) in *. cbn [exec fst snd] in *. rewrite Hs, create_install. unfold registry. rewrite Hv.
    by destruct (slots (at_step ls) !! k).
  - exists t. unfold step. simpl. rewrite Ht. unfold advance. rewrite Ha. simpl.
    rewrite list_lookup_insert_eq by (by eapply lookup_lt_Some). split; [done|]. right. right. exists a. split; [done|].
    by apply took_effect_later.
Qed.

(** Registration is atomic.  However the steps of other threads fall between the
    two looks at the map, a call of [GetOrCreate] is finished after two steps of its
    own, and it answered and changed the manager exactly as the registry does in one
    piece at one of these steps: the stored breaker if the configuration is the
    stored one, a mismatch if it is another, the fault of an invalid configuration,
    or a new breaker.  So no two callers ever get different breakers for a key at the
    same time. *)
Theorem getOrCreate_is_atomic ls : (2 ≤ moves i ls)%nat →
  ∃ t a, w_threads (interleave exec (start m ps) ls) !! i = Some t ∧ th_rest t = Done a ∧ took_effect ls a.
Proof using Hk Hp.
  intros Hn. destruct (getOrCreate_phases ls) as (t & Ht & [[E _]|[[E _]|(a & Ha & He)]]); [lia|lia|]. by exists t, a.
Qed.
End once.

(** ** A ratio that is not a number *)

Lemma nan_config_valid c : FailureRatio c = S754_nan → 0 < ConsecutiveFailures c ∨ 0 < MinRequests c →
  0 ≤ Interval c → 0 ≤ Timeout c → Validate c = None.
Proof.
  intros Hn Ht Hi Hto. unfold Validate. rewrite Hn. cbn. rewrite andb_false_r.
  repeat case_bool_decide; simpl; try lia; done.
Qed.

Lemma nan_config_differs c c' : FailureRatio c = S754_nan → same_config c' c = false.
Proof.
  intros Hn. unfold same_config. rewrite Hn, (proj2 (feq_nan _)). by rewrite !andb_false_r.
Qed.

(** [getOrCreate] on its own. *)
Lemma run_absent tenant service c aware k env m : validateBreakerIdentity tenant service aware = Ok k →
  slots m !! k = None → Validate c = None →
  let '(p, m') := install (now (env 1%nat)) k c m in
  run exec (getOrCreate tenant service c aware) env m
  = (Ok (circuitBreaker p), m', [Ev (Slot k) None; Ev (Create k c) (Ok p)]).
Proof.
  intros Hk Hs Hv. destruct (install _ k c m) as [p m'] eqn:E. unfold getOrCreate. rewrite Hk. unfold perform.
  cbn -[create_locked]. rewrite Hs, Hv. cbn -[create_locked]. rewrite create_install, Hs, E. done.
Qed.

Lemma run_present tenant service c aware k env m slot : validateBreakerIdentity tenant service aware = Ok k →
  slots m !! k = Some slot →
  run exec (getOrCreate tenant service c aware) env m
  = (if same_config (config slot) c then Ok (circuitBreaker (breaker slot)) else Err (mismatch tenant service),
     m, [Ev (Slot k) (Some slot)]).
Proof.
  intros Hk Hs. unfold getOrCreate. rewrite Hk. unfold perform. cbn. rewrite Hs. by destruct (same_config _ _).
Qed.

Lemma install_slot t k c m : ∃ slot, slots (install t k c m).2 !! k = Some slot ∧ config slot = c.
Proof. unfold install. destruct (NewCircuitBreaker _ _ _) as [p m']. eexists. cbn. by rewrite lookup_insert_eq. Qed.

(** A configuration whose failure ratio is not a number passes [Validate].  The
    breaker made with it trips on consecutive failures alone, however many requests
    fail, and every later [GetOrCreate] with the very same configuration is refused
    as a mismatch. *)
Theorem nan_ratio_is_accepted tenant service c aware k env m :
  FailureRatio c = S754_nan → 0 < ConsecutiveFailures c ∨ 0 < MinRequests c → 0 ≤ Interval c → 0 ≤ Timeout c →
  validateBreakerIdentity tenant service aware = Ok k → slots m !! k = None →
  (∃ p, (run exec (r1 ← getOrCreate tenant service c aware; r2 ← getOrCreate tenant service c aware; mret (r1, r2)) env m).1.1
        = (Ok (circuitBreaker p), Err (mismatch tenant service))) ∧
  ∀ counts, readyToTrip c counts = true ↔ 0 < ConsecutiveFailures c ≤ CountedFailures counts.
Proof.
  intros Hn Ht Hi Hto Hk Hs. split.
  - exists (install (now (env 1%nat)) k c m).1. pose proof (nan_config_valid c Hn Ht Hi Hto) as Hv.
    pose proof (run_absent tenant service c aware k env m Hk Hs Hv) as E. rewrite run_bind.
    destruct (install_slot (now (env 1%nat)) k c m) as (slot & Hs' & <-).
    destruct (install _ k (config slot) m) as [p m']. rewrite E, run_bind, (run_present _ _ _ _ k _ _ slot) by done.
    by rewrite nan_config_differs.
  - intros counts. unfold readyToTrip. rewrite Hn.
    assert (∀ x, fle S754_nan x = false) as -> by (by intros []).
    case_bool_decide; simpl; [case_bool_decide; simpl|]; split; intros E; try lia; try done; by destruct (_ && _)%bool.
Qed.

(** ** Notifications under way *)

Lemma dispatch_bounded m n : (length (listenerSem m) ≤ stateChangeListenerConcurrency)%nat →
  (length (listenerSem (dispatchStateChangeListener m n)) ≤ stateChangeListenerConcurrency)%nat.
Proof.
  unfold dispatchStateChangeListener. case_bool_decide; [|done]. simpl. rewrite length_app. simpl. lia.
Qed.

Lemma foldl_bounded {X} (f : manager → X → manager) xs m :
  (∀ m x, (length (listenerSem m) ≤ stateChangeListenerConcurrency)%nat →
     (length (listenerSem (f m x)) ≤ stateChangeListenerConcurrency)%nat) →
  (length (listenerSem m) ≤ stateChangeListenerConcurrency)%nat →
  (length (listenerSem (foldl f m xs)) ≤ stateChangeListenerConcurrency)%nat.
Proof. intros Hf. revert m. induction xs as [|x xs IH]; intros m Hm; simpl; auto. Qed.

Lemma handleStateChange_bounded tenant service m change : (length (listenerSem m) ≤ stateChangeListenerConcurrency)%nat →
  (length (listenerSem (handleStateChange tenant service m change)) ≤ stateChangeListenerConcurrency)%nat.
Proof.
  intros Hm. unfold handleStateChange. apply foldl_bounded; [intros; by apply dispatch_bounded|].
  apply foldl_bounded; [intros; by apply dispatch_bounded|]. unfold recordStateTransition. by destruct (negb _).
Qed.

Lemma breaker_call_bounded {X} p (x : X) f m : (length (listenerSem m) ≤ stateChangeListenerConcurrency)%nat →
  (length (listenerSem (breaker_call p x f m).2) ≤ stateChangeListenerConcurrency)%nat.
Proof.
  intros Hm. unfold breaker_call. destruct (heap m !! p) as [c|]; [|done]. destruct (f (content c)) as [[y cs] b]. simpl.
  apply foldl_bounded; [|done]. intros. by apply handleStateChange_bounded.
Qed.

Lemma exec_bounded l c m : (length (listenerSem m) ≤ stateChangeListenerConcurrency)%nat →
  (length (listenerSem (exec l c m).2) ≤ stateChangeListenerConcurrency)%nat.
Proof.
  intros Hm. destruct c; cbn [exec snd]; try done; try by apply breaker_call_bounded.
  - unfold create_locked. destruct (slots m !! key) as [slot|]; [by destruct (negb _)|done].
  - unfold reset_locked. by destruct (slots m !! key).
  - apply foldl_bounded; [|done]. intros m' x Hm'. by destruct (negb _).
  - apply foldl_bounded; [|done]. intros m' x Hm'. by destruct (negb _).
  - unfold notified. simpl. rewrite delete_take_drop, length_app, length_take, length_drop. lia.
  - unfold recordExecution. by destruct (negb _).
Qed.

(** However breakers flap, at most as many notifications as there are places are
    under way. *)
Lemma fanout_bounded {A} m (ps : list (prog A)) ls : listenerSem m = [] →
  (length (listenerSem (w_state (interleave exec (start m ps) ls))) ≤ stateChangeListenerConcurrency)%nat.
Proof.
  intros Hm. apply (interleave_ind exec (λ w, (length (listenerSem (w_state w)) ≤ stateChangeListenerConcurrency)%nat)).
  - simpl. rewrite Hm. simpl. lia.
  - intros w [i l] _ Hw. destruct (step_cases exec w i l) as [->|(t & c & k & _ & _ & ->)]; [done|]. by apply exec_bounded.
Qed.

(** A transition of a tenant's breaker reaches no legacy listener. *)
Lemma legacy_listeners_spared tenant service m change n : is_empty tenant = false →
  n ∈ listenerSem (handleStateChange tenant service m change) →
  n ∈ listenerSem m ∨ ∃ li, li ∈ tenantListeners m ∧
    n = Tenant li tenant service (convertGobreakerState change.1) (convertGobreakerState change.2).
Proof.
  intros Ht. unfold handleStateChange. rewrite Ht. simpl.
  set (m1 := recordStateTransition _ _ _ _ m).
  assert (E1 : listenerSem m1 = listenerSem m) by (unfold m1, recordStateTransition; by destruct (negb _)).
  assert (E2 : tenantListeners m1 = tenantListeners m) by (unfold m1, recordStateTransition; by destruct (negb _)).
  rewrite <- E1, <- E2. clearbody m1. clear E1 E2. generalize (tenantListeners m1) at 1 2 as ls. intros ls. revert m1.
  induction ls as [|li ls IH]; intros m1 Hn; [by left|]. simpl in Hn. apply IH in Hn as [Hn|(li' & Hin & ->)].
  - unfold dispatchStateChangeListener in Hn. case_bool_decide; [|by left]. simpl in Hn.
    apply elem_of_app in Hn as [Hn|Hn%list_elem_of_singleton]; [by left|]. right. exists li. split; [by left|done].
  - right. exists li'. split; [by right|done].
Qed.
End isolation.
