(* ===== verification/CircuitBreakerExample.v ===== *)
(** A concrete breaker in the manner of the gobreaker package, two tenants with the
    same service, one of them with an outage.  The general theorems are applied to
    it. *)

From stdpp Require Import base numbers list gmap strings.
From Stdlib Require Import SpecFloat.
From S2P Require Import Prelude GoText GoFloat Effects CircuitBreaker CircuitBreakerIsolation.

Local Open Scope Z_scope.
Local Open Scope go_scope.

(** ** A breaker *)

Record sony := {
  y_settings : Settings;
  y_state : gstate;
  y_generation : Z;
  y_counts : Counts;
  y_expiry : option gotime;
}.

Definition sony_generation (now : gotime) (s : gstate) (b : sony) : sony :=
  {| y_settings := y_settings b; y_state := s; y_generation := y_generation b + 1; y_counts := zero_counts;
     y_expiry := match s with
                 | GClosed => if bool_decide (set_Interval (y_settings b) = 0) then None else Some (now + set_Interval (y_settings b))
                 | GOpen => Some (now + set_Timeout (y_settings b))
                 | _ => None
                 end |}.

Definition sony_set (now : gotime) (s : gstate) (b : sony) : list (gstate * gstate) * sony :=
  if bool_decide (y_state b = s) then ([], b) else ([(y_state b, s)], sony_generation now s b).

(** The state at [now]: counters expire, open breakers become half-open. *)
Definition sony_now (now : gotime) (b : sony) : list (gstate * gstate) * sony :=
  let expired := match y_expiry b with Some e => bool_decide (e < now) | None => false end in
  match y_state b with
  | GClosed => ([], if expired then sony_generation now GClosed b else b)
  | GOpen => if expired then sony_set now GHalfOpen b else ([], b)
  | _ => ([], b)
  end.

Definition sony_count (f : Counts → Counts) (b : sony) : sony :=
  {| y_settings := y_settings b; y_state := y_state b; y_generation := y_generation b; y_counts := f (y_counts b);
     y_expiry := y_expiry b |}.

Definition requested (c : Counts) : Counts :=
  Build_Counts (Requests c + 1) (TotalSuccesses c) (TotalFailures c) (ConsecutiveSuccesses c) (CountedFailures c).
Definition succeeded (c : Counts) : Counts :=
  Build_Counts (Requests c) (TotalSuccesses c + 1) (TotalFailures c) (ConsecutiveSuccesses c + 1) 0.
Definition failed (c : Counts) : Counts :=
  Build_Counts (Requests c) (TotalSuccesses c) (TotalFailures c + 1) 0 (CountedFailures c + 1).

Definition sony_allow (now : gotime) (b : sony) : (rejection + Z) * list (gstate * gstate) * sony :=
  let '(cs, b) := sony_now now b in
  match y_state b with
  | GOpen => (inl RejectOpen, cs, b)
  | GHalfOpen =>
    if bool_decide (set_MaxRequests (y_settings b) ≤ Requests (y_counts b)) then (inl RejectTooMany, cs, b)
    else (inr (y_generation b), cs, sony_count requested b)
  | _ => (inr (y_generation b), cs, sony_count requested b)
  end.

Definition sony_report (now : gotime) (g : Z) (ok : bool) (b : sony) : list (gstate * gstate) * sony :=
  let '(cs, b) := sony_now now b in
  if negb (bool_decide (y_generation b = g)) then (cs, b)
  else if ok then
    let b := sony_count succeeded b in
    if (bool_decide (y_state b = GHalfOpen) && bool_decide (set_MaxRequests (y_settings b) ≤ ConsecutiveSuccesses (y_counts b)))%bool
    then let '(cs', b) := sony_set now GClosed b in (cs ++ cs', b)
    else (cs, b)
  else
    match y_state b with
    | GHalfOpen => let '(cs', b) := sony_set now GOpen b in (cs ++ cs', b)
    | _ =>
      let b := sony_count failed b in
      if set_ReadyToTrip (y_settings b) (y_counts b) then let '(cs', b) := sony_set now GOpen b in (cs ++ cs', b)
      else (cs, b)
    end.

#[export] Instance sony_gobreaker : Gobreaker := {
  gb := sony;
  gb_new s now := sony_generation now GClosed (Build_sony s GClosed (-1) zero_counts None);
  gb_state now b := let '(cs, b) := sony_now now b in (y_state b, cs, b);
  gb_counts := y_counts;
  gb_allow := sony_allow;
  gb_report := sony_report;
}.

#[export] Instance plain_labels : Labels := λ label, label.

(** ** Two tenants *)

Definition ex_config : Config :=
  {| MaxRequests := 1; Interval := 0; Timeout := 30 * Second; ConsecutiveFailures := 2; FailureRatio := of_int 0; MinRequests := 0 |}.

Definition ledger : text := txt "ledger".
Definition acme : text := txt "acme".
Definition globex : text := txt "globex".

(** Register, then three calls; what [Execute] returned and the state after it. *)
Definition session (tenant : text) : prog (list outcome * State) :=
  _ ← getOrCreate tenant ledger ex_config true;
  o1 ← execute tenant ledger (Some (perform (External 1))) true;
  o2 ← execute tenant ledger (Some (perform (External 1))) true;
  o3 ← execute tenant ledger (Some (perform (External 1))) true;
  s ← getState tenant ledger true;
  mret ([o1; o2; o3], s).

(** The service is down for the first tenant only; the threads take turns. *)
Definition down : surroundings := {| now := Second; outside := λ _, Returned None (Some (Foreign 7 [])) |}.
Definition up : surroundings := {| now := Second; outside := λ id, Returned (Some id) None |}.
Definition turns : list (nat * surroundings) := mjoin (replicate 30 [(0%nat, down); (1%nat, up)]).

Definition ex_manager : manager :=
  {| slots := ∅; listeners := []; tenantListeners := []; metricsRecorder := true; listenerSem := []; heap := ∅; made := ∅;
     counters := [] |}.

Definition result_of {A} (t : thread answer A) : option A := match th_rest t with Done a => Some a | Do _ _ => None end.

(** The first tenant's third call is rejected, the second tenant notices nothing. *)
Example outage_stays_with_tenant :
  result_of <$> w_threads (interleave exec (start ex_manager [session acme; session globex]) turns) =
  [Some ([Returned None (Some (Foreign 7 [])); Returned None (Some (Foreign 7 []));
          Returned None (Some (Errorf (Unavailable ledger) (Some (Sentinel ErrOpenState))))], StateOpen);
   Some ([Returned (Some 1) None; Returned (Some 1) None; Returned (Some 1) None], StateClosed)].
Proof. vm_compute. reflexivity. Qed.

Lemma session_client tenant : client tenant (λ _, True) (session tenant).
Proof.
  eapply client_bind; [apply client_getOrCreate|]. intros _ _.
  do 3 (eapply client_bind; [apply client_execute; intros q [= <-]; apply client_external|]; intros ? _).
  eapply client_bind; [apply client_getState|]. intros s _. by apply client_ret.
Qed.

Lemma tenants_do_not_interfere_witness :
  w_threads (interleave exec (start ex_manager [session acme; session globex]) turns) !! 1%nat =
  w_threads (interleave exec (start ex_manager [session acme; session globex])
    (filter (λ il, works_for [acme; globex] globex il.1) turns)) !! 1%nat.
Proof.
  apply (tenants_do_not_interfere globex [acme; globex] [session acme; session globex] [true] ex_manager turns); [reflexivity| |reflexivity].
  repeat constructor; apply session_client.
Defined.

(** Two callers register the same service at once: both look before either
    creates. *)
Definition both : list (prog (result error CircuitBreaker)) :=
  replicate 2 (id <$> getOrCreate acme ledger ex_config true).
Definition racing : list (nat * surroundings) := [(0%nat, up); (1%nat, up); (1%nat, up); (0%nat, up)].

Example racing_callers_share :
  result_of <$> w_threads (interleave exec (start ex_manager both) racing) =
  replicate 2 (Some (Ok (circuitBreaker (Key acme ledger, O)))).
Proof. vm_compute. reflexivity. Qed.

Lemma getOrCreate_is_atomic_witness : ∃ t a,
  w_threads (interleave exec (start ex_manager both) racing) !! 0%nat = Some t ∧ th_rest t = Done a ∧
  took_effect id ex_config ex_manager both 0 (Key acme ledger) racing a.
Proof.
  apply (getOrCreate_is_atomic id acme ledger ex_config true ex_manager both 0 (Key acme ledger));
    [reflexivity|reflexivity|vm_compute; lia].
Defined.

Definition nan_config : Config :=
  {| MaxRequests := 1; Interval := 0; Timeout := 30 * Second; ConsecutiveFailures := 0; FailureRatio := S754_nan; MinRequests := 10 |}.

Lemma nan_ratio_is_accepted_witness :
  (∃ p, (run exec (r1 ← getOrCreate acme ledger nan_config true; r2 ← getOrCreate acme ledger nan_config true; mret (r1, r2))
           (λ _, up) ex_manager).1.1 = (Ok (circuitBreaker p), Err (mismatch acme ledger))) ∧
  readyToTrip nan_config {| Requests := 100; TotalSuccesses := 0; TotalFailures := 100; ConsecutiveSuccesses := 0; CountedFailures := 100 |} = false.
Proof.
  destruct (nan_ratio_is_accepted acme ledger nan_config true (Key acme ledger) (λ _, up) ex_manager) as [H1 H2];
    [reflexivity|right; reflexivity|simpl; lia|vm_compute; discriminate|reflexivity|reflexivity|].
  split; [exact H1|]. match goal with |- ?x = false => destruct x eqn:E end; [|reflexivity].
  apply H2 in E. exfalso. simpl in E. lia.
Defined.

(** A callback that uses another breaker: the service behind [outer] is asked, but
    when the inner breaker is open its rejection is taken for one of [outer], which
    is closed, and counted as such. *)
Definition outer : text := txt "outer".

Definition nested : prog (outcome * State) :=
  _ ← getOrCreate acme ledger ex_config true;
  _ ← getOrCreate acme outer ex_config true;
  _ ← execute acme ledger (Some (perform (External 1))) true;
  _ ← execute acme ledger (Some (perform (External 1))) true;
  o ← execute acme outer (Some (_ ← perform (External 2); execute acme ledger (Some (perform (External 1))) true)) true;
  s ← getState acme outer true;
  mret (o, s).

Example nested_rejection_blamed_on_outer :
  (let '(r, m, _) := run exec nested (λ _, down) ex_manager in (r, last (counters m))) =
  ((Returned None (Some (Errorf (Unavailable outer) (Some (Errorf (Unavailable ledger) (Some (Sentinel ErrOpenState)))))), StateClosed),
   Some (executionMetricName, executionAttributes acme outer executionResultRejectedOpen)).
Proof. vm_compute. reflexivity. Qed.

(** The ratio of the default configuration trips at five failures of ten requests,
    not before there are ten. *)
Example default_ratio :
  (λ rf : Z * Z, readyToTrip DefaultConfig {| Requests := rf.1; TotalSuccesses := 0; TotalFailures := rf.2; ConsecutiveSuccesses := 0; CountedFailures := 1 |})
    <$> [(10, 5); (10, 4); (9, 9)] = [true; false; false].
Proof. vm_compute. reflexivity. Qed.

Example presets_are_valid :
  Validate <$> [DefaultConfig; AggressiveConfig; ConservativeConfig; HTTPServiceConfig; DatabaseConfig] = replicate 5 None.
Proof. vm_compute. reflexivity. Qed.
